(* ===== verification/_CoqProject ===== *)
-Q . S2P
Prelude.v
Entities.v
Schema.v
Statements.v
EntityOps.v
RunOps.v
PolicyOps.v
Journal.v
Integrity.v
Store.v
Transitions.v
Migrate.v
RuntimeSpec.v
GoStrings.v
HostFrame.v
HostMethods.v
HostMessage.v
HostServer.v
HostConn.v
HostSpec.v
RunBroker.v
AgentRuns.v
AgentSteps.v
AgentInv.v
AgentJournal.v
AgentSpec.v
Replay.v
BrokerSpec.v
Permissions.v
PermissionSpec.v
DeviceAuth.v
DeviceAuthSpec.v
AuthServer.v
AuthServerSpec.v
Json.v
Registry.v
RegistryInv.v
RegistrySpec.v
GoPath.v
Paths.v
FileOps.v
Search.v
FileSpec.v
Sessions.v
CodexSession.v
OmpSession.v
OpenCode.v
Harness.v
SessionInv.v
SessionSpec.v
HarnessSpec.v
Patch.v
PatchInv.v
PatchState.v
PatchSpec.v
ToolOutput.v
ClientTools.v
ToolSurface.v
ToolSpec.v
ClientInv.v
ClientSpec.v
GrpcAgent.v
GrpcSpec.v
ClientConfig.v
ClientMain.v
ClientMainSpec.v
OAuthVerifier.v
OAuthSpec.v
Daemon.v
Tunnel.v
DaemonSpec.v
HostClient.v
HostClientSpec.v
GoTime.v
ManagerMain.v
ManagerSpec.v
CallLog.v
CallLogSpec.v
CodeTools.v
CodeSpec.v
