(* ===== verification/Prelude.v ===== *)
(** * CodeBridge: a verification library

    CodeBridge lets a remote MCP client (a chat assistant) read, change and run
    things in directories of a user's computer. A _manager_ (src/cmd/manager,
    src/internal/manager) speaks MCP and OAuth to the outside and keeps a gRPC
    session with every enrolled device; on the device a _client_ (src/cmd/client,
    src/internal/agentops) executes the requests in workspaces, asks its permission
    rules, and runs coding agents (OMP, Codex, OpenCode) as processes; a native
    _daemon_ keeps sessions, runs, approvals and their journal in SQLite
    (src/internal/runtime) and serves the desktop app over a socket
    (src/internal/hostipc). This library models these parts in Rocq and proves what
    makes them correct. A Go function is a function of the same name here unless
    the name is taken; a method that changes its receiver takes the state and
    returns it; [(T, error)] is [result E T]; integers are [Z] with their
    wrap-around or range written out where it can be reached; strings are byte
    strings; Go maps are [gmap]s, and where the code ranges over a map the order is
    an argument.

    ** Files

    This file: results, the state-and-error monad, notations, hints and the lemmas
    on lists, options and integers that the others share.

    _Runtime store_ (src/internal/runtime, src/schema/store/v1/schema.sql).
    Entities: vocabulary, records, ids and timestamps (entities.go). Schema: the
    tables as finite maps with their checks, foreign keys and unique indexes.
    Statements, EntityOps, RunOps, PolicyOps: the operations (entities_ops.go,
    runs_ops.go, policy_ops.go). Journal: events.go. Integrity: the well-formedness
    of a store. Store: transactions (store.go, tx.go). Transitions: transitions.go.
    Migrate: migrate.go. RuntimeSpec: the state machine of runs
    ([TransitionRun_spec]), the invariant of every reachable store
    ([reachable_store_ok]), that the journal refines the run machine
    ([journal_refines_run_machine]), that what is put is read back
    ([entities_read_back]) and that an update of the schema never loses the store
    ([prepare_safe]).

    _Text and paths._ GoStrings, GoPath: what the code uses of strings, bytes,
    filepath and os on Unix, the file system as a tree of directories, files and
    links. Json: JSON values and schemas, and JSON values that keep their text.
    GoTime: the calendar and times as RFC 3339 text (package time).

    _Host IPC_ (src/internal/hostipc). HostFrame: frames on byte lists (frame.go).
    HostMethods: roles, negotiation, the method table (hello.go, methods.go).
    HostMessage: JSON-RPC messages (jsonrpc.go). HostServer, HostConn: a connection
    and the server (server.go). HostClient: the client (client.go). HostSpec: frames
    round-trip over a stream ([host_stream_roundtrip]) and every call of the handler
    was authorised ([handler_calls_authorised]). HostClientSpec: client and server
    together, where each call gets the answer to its own request ([calls_answered]).

    _Agent runs_ (src/internal/agentops). AgentRuns, AgentSteps: specifications,
    snapshots, the manager of runs and its scheduling as a step relation
    (run_manager.go, run_events.go, run_store.go). AgentInv, AgentJournal,
    AgentSpec: the life cycle of a run, its journal without gaps, the bound on
    running processes and that runs end. RunBroker, Replay, BrokerSpec: the manager's copy of a run's events (manager/run_events.go)
    and the replay after a reconnect (cmd/client/runtime_events.go). Harness,
    HarnessSpec: the process of a coding agent, its command line, its output and
    the result (subagent.go). Sessions, CodexSession, OmpSession, OpenCode,
    SessionInv, SessionSpec: what is read of the agents' own session stores
    (harness_session.go, codex_session.go, omp_session.go, opencode_session.go).

    _Workspace tools_ (src/internal/agentops). Paths: resolution under a root and
    the sensitive-file policy (security.go, sensitive.go). FileOps, FileSpec:
    list_directory and read_file; Search, with its theorems in FileSpec: find_files,
    search_code and the git tools (ops.go). Patch, PatchInv, PatchState, PatchSpec:
    patches, previews, checkpoints and rollback (write.go). Permissions,
    PermissionSpec: the permission rules, grants and the gate of bash
    (permissions.go, bash.go). CodeTools, CodeSpec: declarations and their lines,
    the cache of them, references, the dependency graph and the clients of language
    servers (symbols.go, index.go, depgraph.go, lsp.go).

    _Devices and the manager_ (src/internal/manager, authstore, authserver).
    DeviceAuth, DeviceAuthSpec: enrollment and credentials (authstore/store.go).
    AuthServer, AuthServerSpec: the OAuth server (src/internal/authserver). Registry,
    RegistryInv, RegistrySpec: devices, pending calls, slots (registry.go). GrpcAgent,
    GrpcSpec: the device session (grpc_agent.go, agent_helpers.go, admin_handler.go).
    ToolOutput, ToolSurface, ToolSpec: output schemas, tool policy, the MCP surface.
    OAuthVerifier, OAuthSpec: the check of tokens and its cache of keys
    (oauthresource/verifier.go), composed with the authorization server. ManagerMain,
    ManagerSpec: the process, its endpoint and its limits (cmd/manager/main.go,
    limits.go), composed with both. CallLog, CallLogSpec: the records of tool calls,
    what writes them and the pages that show them (mcpcallstore, auditlog,
    mcp_invoke.go, admin_ui.go).
    ClientTools, ClientInv, ClientSpec: the client's dispatch of a request
    (cmd/client/agent_tools.go, Execute of ops.go), with which a request of the
    manager is carried through decoding, tools and answer. ClientConfig, ClientMain,
    ClientMainSpec: its files, its start and its reconnecting (clientconfig,
    clientcred, config/workspaces.go, cmd/client/main.go), composed with enrollment
    and registration.

    _Native host daemon_ (src/internal/daemon). Daemon: configuration, ingress, the
    methods over the store, probes and fixed commands. Tunnel: the supervision of
    the tunnel process. DaemonSpec: what a caller of each kind may reach, the pages
    of events, and that supervision is bounded and stops.

    ** What the theorems show

    The properties are theorems with a label C and a number, each with a witness: the
    theorem applied to a concrete input. Lemmas without label are the library behind
    them. Safety: no handler call, tool call, answer, token or process start without
    its authorisation; no read or write outside the workspaces, as far as it holds
    (the exceptions are part of the statements, and examples show them). Invariants:
    the store, the journals, the buffers and the registry in every reachable state;
    the nesting of declarations. Refinement: the journal against the run machine, the
    device store against a specification of accounts, the registration a client
    sends against what the manager accepts, a login against the endpoint it opens.
    Equivalence: the incremental index of a session log against indexing it whole,
    searches of symbols with their cache against searches without, the writer of
    lines against splitting the whole output, a decoded request against the one that
    was sent. Round trips: frames, entities, patch and rollback, times, the
    credential of a device over a restart. Bounds: processes, supervision of the
    tunnel, answers. Termination and liveness: runs end, the tunnel stops, a
    reconnected client catches up, and one query that waits for itself.

    ** Bounds and fuel

    Recursion that is not structural has fuel that the model computes and that is
    enough: following links, the limits of the system ([limits]: 255 in
    filepath.EvalSymlinks, 40 in the kernel, 8 in os.Root); walking a directory, the
    depth of the tree; splitting and replacing texts, their length; the binary search
    of a page, the number of positions; the replay of a run, the pages until its
    head; the search of identifiers in a line and repetitions of a regular
    expression, the length of the text, of which every turn takes a byte. Lemmas next
    to the definitions show that running out cannot happen ([search_from_spec],
    [walk_dir_complete], [contains_from_spec] and the like). Byte counts are natural
    numbers or integers; limits of the code (frames, buffers, pages, retention) are
    constants with the code's values.

    ** What is not modelled, and why

    Parameters stand for code that is not in the repository: JSON parsing and
    printing, SHA-256, bcrypt, random identifiers, filepath.Match, url.Parse.
    What the environment decides is an argument of the operation: the
    clock (read once per call), failing disks, the output of processes (ripgrep,
    git, the agents, language servers), the order of map iteration, the interleaving of clients.
    SQLite is modelled by its tables and constraints, not by its files and locks.
    The file system is the one of Unix, with os.Root as a jail; state directories
    lie outside the workspaces. Texts of log lines and of most error messages are
    left out; errors are constructors.

    Not modelled: the daemon's main function and the HTTP routing of the manager's,
    except for what is named above; peer credentials and code signatures, system
    calls of macOS; the doctor, smoke tests and build tools; generated protobuf code;
    web pages and the Swift app. *)

From stdpp Require Export sorting numbers strings base decidable gmap list.
From stdpp Require Import options.

Open Scope Z_scope.

(** ** Results of fallible Go functions

    A Go function returning [(T, error)] is a [result E T]: [Err e] stands for
    a non-nil error (the value component is then the zero value and unused). *)
Inductive result (E A : Type) : Type :=
  | Ok (a : A)
  | Err (e : E).
Arguments Ok {E A} a.
Arguments Err {E A} e.

Definition is_ok {E A} (r : result E A) : bool :=
  match r with Ok _ => true | Err _ => false end.

#[export] Instance result_ret E : MRet (result E) := λ A a, Ok a.
#[export] Instance result_bind E : MBind (result E) := λ A B f m,
  match m with Ok a => f a | Err e => Err e end.

(** ** State and errors

    [ST S E A] is a computation on a mutable state [S] that may return an
    error. The state reached when the error is returned is kept: Go code that
    mutates and then fails leaves its mutations behind, and whether they are
    undone is the caller's business (a transaction rolls them back). *)
Definition ST (S E A : Type) : Type := S → result E A * S.

#[export] Instance ST_ret S E : MRet (ST S E) := λ A a s, (Ok a, s).
#[export] Instance ST_bind S E : MBind (ST S E) := λ A B f m s,
  match m s with
  | (Ok a, s') => f a s'
  | (Err e, s') => (Err e, s')
  end.

Section state.
Context {S E : Type}.

Definition st_get : ST S E S := λ s, (Ok s, s).
Definition st_modify (f : S → S) : ST S E () := λ s, (Ok (), f s).
Definition st_fail {A} (e : E) : ST S E A := λ s, (Err e, s).

(** A guard that returns early with an error when the check fails. *)
Definition st_lift {A} (r : result E A) : ST S E A := λ s, (r, s).

(** [for i, x := range l { if err := body(i, x); err != nil { return err } }] *)
Fixpoint st_range {A} (i : Z) (l : list A) (body : Z → A → ST S E ()) : ST S E () :=
  match l with
  | [] => mret ()
  | x :: l' => body i x ≫= λ _, st_range (i + 1) l' body
  end.
End state.

(** [Preserves P m]: the computation [m] keeps the invariant [P], on success
    and on error alike. The instances let type-class resolution follow the
    structure of a composite operation. *)
Class Preserves {S E A : Type} (P : S → Prop) (m : ST S E A) : Prop :=
  preserves : ∀ s, P s → P (m s).2.

Section preserves.
Context {S E : Type} (P : S → Prop).

#[export] Instance preserves_ret {A} (a : A) : Preserves P (mret a : ST S E A).
Proof. intros s Hs; exact Hs. Qed.

#[export] Instance preserves_fail {A} (e : E) : Preserves P (st_fail e : ST S E A).
Proof. intros s Hs; exact Hs. Qed.

#[export] Instance preserves_get : Preserves P (st_get : ST S E S).
Proof. intros s Hs; exact Hs. Qed.

#[export] Instance preserves_lift {A} (r : result E A) : Preserves P (st_lift r : ST S E A).
Proof. intros s Hs; exact Hs. Qed.

#[export] Instance preserves_bind {A B} (m : ST S E A) (f : A → ST S E B) :
  Preserves P m → (∀ a, Preserves P (f a)) → Preserves P (m ≫= f).
Proof.
  intros Hm Hf s Hs. unfold mbind, ST_bind.
  specialize (Hm s Hs). destruct (m s) as [[a|e] s']; simpl in *; [by apply Hf|done].
Qed.

#[export] Instance preserves_range {A} (l : list A) (body : Z → A → ST S E ()) (i : Z) :
  (∀ j x, Preserves P (body j x)) → Preserves P (st_range i l body).
Proof. intros Hb. revert i; induction l; intros i; simpl; apply _. Qed.
End preserves.

(** ** Machine integers *)

(** Go's [int64] (and [int] on the 64-bit targets the repository builds for)
    with two's-complement wrap-around. *)
Definition max_int64 : Z := 2 ^ 63 - 1.
Definition min_int64 : Z := - 2 ^ 63.
Definition wrap64 (z : Z) : Z := (z + 2 ^ 63) `mod` 2 ^ 64 - 2 ^ 63.

Lemma wrap64_id z : min_int64 ≤ z ≤ max_int64 → wrap64 z = z.
Proof.
  unfold wrap64, min_int64, max_int64; intros.
  rewrite Z.mod_small by lia. lia.
Qed.

Lemma wrap64_range z : min_int64 ≤ wrap64 z ≤ max_int64.
Proof.
  unfold wrap64, min_int64, max_int64.
  pose proof (Z.mod_pos_bound (z + 2 ^ 63) (2 ^ 64)); lia.
Qed.

(** ** Words *)

Lemma land_shiftl_low a b n : 0 ≤ n → 0 ≤ a < 2 ^ n → Z.land a (Z.shiftl b n) = 0.
Proof.
  intros Hn Ha. destruct (decide (a = 0)) as [->|]; [by rewrite Z.land_0_l|].
  apply Z.bits_inj'. intros i Hi. rewrite Z.land_spec, Z.bits_0.
  destruct (decide (i < n)); [by rewrite Z.shiftl_spec_low, andb_false_r|].
  rewrite (Z.bits_above_log2 a); [done|lia|]. apply Z.log2_lt_pow2; [lia|].
  eapply Z.lt_le_trans; [apply Ha|]. apply Z.pow_le_mono_r; lia.
Qed.

(** Or-ing a word shifted past the other's bits is adding it. *)
Lemma lor_add a b n : 0 ≤ n → 0 ≤ a < 2 ^ n → Z.lor a (Z.shiftl b n) = a + b * 2 ^ n.
Proof.
  intros Hn Ha. rewrite <-Z.shiftl_mul_pow2 by done.
  rewrite <-Z.lxor_lor by (by apply land_shiftl_low).
  symmetry. apply Z.add_nocarry_lxor. by apply land_shiftl_low.
Qed.

(** ** Strings *)

(** A Go [switch] on a string with one arm listing several constants. *)
Definition one_of (s : string) (l : list string) : bool := bool_decide (s ∈ l).

Lemma one_of_spec s l : one_of s l = true ↔ s ∈ l.
Proof. apply bool_decide_eq_true. Qed.

(** [strings.CutPrefix]: the rest after the prefix, or [None] when [s] does not
    start with it. *)
Fixpoint CutPrefix (s p : string) {struct p} : option string :=
  match p, s with
  | EmptyString, _ => Some s
  | String c p', String c' s' => if decide (c = c') then CutPrefix s' p' else None
  | String _ _, EmptyString => None
  end.

(** [strings.HasPrefix]. *)
Definition HasPrefix (s p : string) : bool := bool_decide (is_Some (CutPrefix s p)).

Lemma CutPrefix_app p s : CutPrefix (p +:+ s) p = Some s.
Proof. induction p as [|c p IH]; simpl; [done|]. by rewrite decide_True. Qed.

Lemma CutPrefix_Some s p r : CutPrefix s p = Some r ↔ s = p +:+ r.
Proof.
  split; [|intros ->; apply CutPrefix_app].
  revert s; induction p as [|c p IH]; intros s; simpl; [by intros [= ->]|].
  destruct s as [|c' s]; [done|]. case_decide as Hc; [|done]; intros H.
  subst. by rewrite (IH s H).
Qed.

Lemma HasPrefix_spec s p : HasPrefix s p = true ↔ ∃ r, s = p +:+ r.
Proof.
  unfold HasPrefix. rewrite bool_decide_eq_true. unfold is_Some.
  by setoid_rewrite CutPrefix_Some.
Qed.

Lemma HasPrefix_app p s : HasPrefix (p +:+ s) p = true.
Proof. apply HasPrefix_spec; eauto. Qed.

(** ** SQL aggregates *)

(** [MAX(c)] over the selected rows, NULL ([None]) when there are none. *)
Fixpoint sql_max (l : list Z) : option Z :=
  match l with
  | [] => None
  | x :: l' => Some (match sql_max l' with None => x | Some y => Z.max x y end)
  end.

Definition coalesce (o : option Z) (d : Z) : Z := default d o.

Lemma sql_max_snoc l x :
  sql_max (l ++ [x]) = Some (match sql_max l with None => x | Some y => Z.max y x end).
Proof.
  induction l as [|a l IH]; simpl; [done|]. rewrite IH.
  destruct (sql_max l); f_equal; lia.
Qed.

Lemma sql_max_upper l y : sql_max l = Some y → Forall (λ x, x ≤ y) l.
Proof.
  revert y; induction l as [|a l IH]; intros y; simpl; [done|].
  destruct (sql_max l) as [z|] eqn:E; intros [= <-].
  - constructor; [lia|]. eapply Forall_impl; [by apply IH|]. simpl; lia.
  - destruct l; [repeat constructor; lia|]. simpl in E; by destruct (sql_max l).
Qed.

Lemma sql_max_in l y : sql_max l = Some y → y ∈ l.
Proof.
  revert y; induction l as [|a l IH]; intros y; simpl; [done|].
  destruct (sql_max l) as [z|] eqn:E; intros [= <-]; [|left].
  destruct (Z.max_spec a z) as [[_ ->]|[_ ->]]; [right; auto|left].
Qed.

(** A last entry at least as large as the others is the maximum. *)
Lemma sql_max_last l x : Forall (λ y, y ≤ x) l → sql_max (l ++ [x]) = Some x.
Proof.
  intros Hl. rewrite sql_max_snoc. destruct (sql_max l) as [y|] eqn:E; [|done].
  apply sql_max_in in E. rewrite Forall_forall in Hl. specialize (Hl y E). f_equal; lia.
Qed.

Lemma sql_max_seqZ (n : nat) : coalesce (sql_max (seqZ 1 (Z.of_nat n))) 0 = Z.of_nat n.
Proof.
  induction n as [|n IH]; [reflexivity|].
  rewrite seqZ_S, sql_max_snoc. unfold coalesce in *.
  destruct (sql_max (seqZ 1 (Z.of_nat n))); simpl in *; lia.
Qed.

(** ** Ordered reads

    [ORDER BY key]: rows sorted by an integer key. *)
Section order_by.
Context {A : Type} (key : A → Z).

Definition key_le (x y : A) : Prop := key x ≤ key y.
#[export] Instance key_le_dec x y : Decision (key_le x y) := Z_le_dec _ _.
#[export] Instance key_le_trans : Transitive key_le.
Proof. unfold key_le; intros x y z ??; lia. Qed.
#[export] Instance key_le_total : Total key_le.
Proof. unfold key_le; intros x y; lia. Qed.

Definition order_by (l : list A) : list A := merge_sort key_le l.

(** Rows already in strict key order are returned as they are. *)
Lemma order_by_sorted l : StronglySorted Z.lt (key <$> l) → order_by l = l.
Proof.
  intros Hl. apply (StronglySorted_unique_strong key_le).
  - intros x1 x2 Hx1 Hx2 H1 H2. unfold order_by in Hx1.
    rewrite merge_sort_Permutation in Hx1.
    assert (Hk : key x1 = key x2) by (unfold key_le in *; lia). clear H1 H2.
    induction l as [|a l IH]; [by apply not_elem_of_nil in Hx1|].
    simpl in Hl. apply StronglySorted_cons in Hl as [Ha Hl].
    rewrite Forall_fmap, Forall_forall in Ha; unfold compose in Ha.
    apply elem_of_cons in Hx1 as [->|Hx1], Hx2 as [->|Hx2]; auto.
    + apply Ha in Hx2; lia.
    + apply Ha in Hx1; lia.
  - apply StronglySorted_merge_sort; apply _.
  - clear -Hl. induction l as [|a l IH]; [constructor|].
    simpl in Hl. apply StronglySorted_cons in Hl as [Ha Hl].
    apply StronglySorted_cons. split; [|by apply IH].
    rewrite Forall_fmap in Ha. eapply Forall_impl; [exact Ha|].
    unfold compose, key_le; intros; lia.
  - apply merge_sort_Permutation.
Qed.
End order_by.

(** ** Strictly increasing integer columns *)

Lemma sorted_filter {A} (key : A → Z) (P : A → Prop) `{∀ x, Decision (P x)} (l : list A) :
  StronglySorted Z.lt (key <$> l) → StronglySorted Z.lt (key <$> filter P l).
Proof.
  induction l as [|a l IH]; simpl; [done|].
  rewrite StronglySorted_cons. intros [Ha Hl].
  destruct (decide (P a)); [rewrite filter_cons_True by done|rewrite filter_cons_False by done; auto].
  simpl. rewrite StronglySorted_cons; split; [|auto].
  rewrite Forall_fmap in *. rewrite Forall_forall in *.
  intros x [_ Hx]%list_elem_of_filter. auto.
Qed.

Lemma sorted_length (l : list Z) lo hi :
  StronglySorted Z.lt l → Forall (λ x, lo ≤ x ≤ hi) l → lo ≤ hi + 1 →
  Z.of_nat (length l) ≤ hi + 1 - lo.
Proof.
  revert lo. induction l as [|a l IH]; intros lo; simpl; [lia|].
  rewrite StronglySorted_cons, Forall_cons. intros [Ha Hl] [Hb Hf] Hlo.
  enough (Z.of_nat (length l) ≤ hi + 1 - (a + 1)) by lia.
  apply IH; [done| |lia].
  rewrite Forall_forall in *. intros x Hx. specialize (Ha x Hx); specialize (Hf x Hx). lia.
Qed.

Lemma sorted_drop {A} (R : relation A) n (l : list A) :
  StronglySorted R l → StronglySorted R (drop n l).
Proof. intros H. rewrite <-(take_drop n l) in H. by apply StronglySorted_app_1_r in H. Qed.

Lemma sorted_seqZ m n : StronglySorted Z.lt (seqZ m n).
Proof.
  unfold seqZ. generalize 0%nat as k. induction (Z.to_nat n) as [|j IH]; intros k; simpl; constructor.
  - apply IH.
  - apply Forall_fmap, Forall_forall. intros x Hx%elem_of_seq. unfold compose; lia.
Qed.

(** Dropping the values up to [a] from [1, 2, ..., n] drops the first [a]. *)
Lemma filter_contiguous {A} (key : A → Z) (l : list A) m a :
  key <$> l = seqZ m (Z.of_nat (length l)) →
  filter (λ x, a < key x) l = drop (Z.to_nat (a + 1 - m)) l.
Proof.
  revert m; induction l as [|x l IH]; intros m; simpl; [by rewrite drop_nil|].
  rewrite Nat2Z.inj_succ, seqZ_cons by lia. intros [= Hx Hl]. rewrite Z.pred_succ in Hl.
  specialize (IH (Z.succ m) Hl). destruct (decide (a < key x)).
  - rewrite filter_cons_True by done. replace (Z.to_nat (a + 1 - m)) with 0%nat by lia.
    rewrite IH. by replace (Z.to_nat (a + 1 - Z.succ m)) with 0%nat by lia.
  - rewrite filter_cons_False by done. rewrite IH.
    by replace (Z.to_nat (a + 1 - m)) with (S (Z.to_nat (a + 1 - Z.succ m))) by lia.
Qed.

Lemma Forall_sublist {A} (P : A → Prop) (l k : list A) :
  sublist l k → Forall P k → Forall P l.
Proof. induction 1; [done|intros [??]%Forall_cons; by constructor; auto|intros [??]%Forall_cons; auto]. Qed.

(** A filter that keeps everything, or nothing. *)
Lemma list_filter_all {A} (P : A → Prop) `{∀ x, Decision (P x)} (l : list A) :
  (∀ x, x ∈ l → P x) → filter P l = l.
Proof.
  induction l as [|x l IH]; intros Hl; [done|].
  rewrite filter_cons_True by (apply Hl; constructor). f_equal. apply IH. intros y Hy. apply Hl. by right.
Qed.

Lemma list_filter_none {A} (P : A → Prop) `{∀ x, Decision (P x)} (l : list A) :
  (∀ x, x ∈ l → ¬ P x) → filter P l = [].
Proof.
  induction l as [|x l IH]; intros Hl; [done|].
  rewrite filter_cons_False by (apply Hl; constructor). apply IH. intros y Hy. apply Hl. by right.
Qed.

Lemma filter_fmap {A B} (f : A → B) (P : B → Prop) `{∀ x, Decision (P x)} (l : list A) :
  filter P (f <$> l) = f <$> filter (λ x, P (f x)) l.
Proof.
  induction l as [|x l IH]; [done|]. rewrite fmap_cons. destruct (decide (P (f x))).
  - rewrite !filter_cons_True by done. rewrite IH. done.
  - rewrite !filter_cons_False by done. exact IH.
Qed.

Lemma length_omap_le {A B} (f : A → option B) (l : list A) : (length (omap f l) ≤ length l)%nat.
Proof.
  induction l as [|x l IH]; [done|]. cbn. destruct (f x); simpl; [apply le_n_S, IH|by apply Nat.le_le_succ_r].
Qed.

(** Elements of a list with the same key are the same, when keys are distinct. *)
Lemma omap_NoDup_inj {A B} (f : A → option B) (l : list A) x y b :
  NoDup (omap f l) → x ∈ l → y ∈ l → f x = Some b → f y = Some b → x = y.
Proof.
  induction l as [|z l IH]; [by intros _ Hx%elem_of_nil|]. cbn.
  assert (∀ w, w ∈ l → f w = Some b → b ∈ omap f l) as Hin by (intros w ? ?; apply list_elem_of_omap; by exists w).
  intros Hn [->|Hx]%elem_of_cons [->|Hy]%elem_of_cons Ex Ey; [done|..].
  - rewrite Ex in Hn. apply NoDup_cons in Hn as [[] _]. by apply (Hin y).
  - rewrite Ey in Hn. apply NoDup_cons in Hn as [[] _]. by apply (Hin x).
  - destruct (f z); [apply NoDup_cons in Hn as [_ Hn]|]; by apply IH.
Qed.

(** ** Ring buffers

    The ring the agent runs keep twice: [next] elements were written, at the
    index of their number modulo the length, and the last [kept] of them are
    still there. The abstract state is the history of all writes. *)

Section ring.
Context {A : Type}.

(** The ring [l] holds the last [kept] of the [next] elements of [h]. *)
Record ring_ok (l : list A) (next kept : nat) (h : list A) : Prop := {
  ring_next : length h = next;
  ring_kept : kept = min next (length l);
  ring_slots : ∀ i, (next - kept ≤ i < next)%nat → l !! (i `mod` length l)%nat = h !! i
}.

Definition ring_push (x : A) (l : list A) (next : nat) : list A := <[(next `mod` length l)%nat := x]> l.

Lemma mod_distinct (i j c : nat) : (i < j)%nat → (j < i + c)%nat → (i `mod` c)%nat ≠ (j `mod` c)%nat.
Proof.
  intros H1 H2 E. assert (c ≠ 0)%nat by lia.
  pose proof (Nat.div_mod_eq i c). pose proof (Nat.div_mod_eq j c).
  destruct (decide (i `div` c < j `div` c)%nat) as [Hlt|Hge].
  - pose proof (Nat.mul_le_mono_l (S (i `div` c)) (j `div` c) c Hlt). lia.
  - pose proof (Nat.mul_le_mono_l (j `div` c) (i `div` c) c ltac:(lia)). lia.
Qed.

Lemma ring_push_ok x l next kept h : (0 < length l)%nat → ring_ok l next kept h →
  ring_ok (ring_push x l next) (S next) (if decide (kept < length l)%nat then S kept else kept) (h ++ [x]).
Proof.
  intros Hl [H1 H2 H3]. unfold ring_push. set (kept' := if decide _ then _ else _).
  assert (Hk : kept' = min (S next) (length l)) by (unfold kept'; case_decide; lia).
  split; rewrite ?length_insert; [rewrite length_app; simpl; lia|done|].
  intros i Hi. destruct (decide (i = next)) as [->|Hne].
  - rewrite list_lookup_insert_eq by (apply Nat.mod_upper_bound; lia).
    rewrite lookup_app_r by lia. by replace (next - length h)%nat with 0%nat by lia.
  - rewrite list_lookup_insert_ne.
    + rewrite lookup_app_l by lia. apply H3. lia.
    + intros E. symmetry in E. revert E. apply mod_distinct; lia.
Qed.

Lemma ring_empty l : ring_ok l 0 0 [].
Proof. split; [done|lia|]. intros i Hi. lia. Qed.

(** Reading the slots of the last [n] elements gives them. *)
Lemma ring_read d l next kept h n : ring_ok l next kept h → (n ≤ kept)%nat →
  (λ i, default d (l !! (i `mod` length l)%nat)) <$> seq (next - n) n = drop (next - n) h.
Proof.
  intros [H1 H2 H3] Hn. apply list_eq. intros k.
  rewrite list_lookup_fmap, lookup_drop. destruct (decide (k < n)%nat) as [Hk|Hk].
  - rewrite lookup_seq_lt by done. simpl. rewrite H3 by lia.
    by destruct (lookup_lt_is_Some_2 h (next - n + k)%nat) as [x ->]; [lia|].
  - rewrite lookup_seq_ge by lia. simpl. symmetry. apply lookup_ge_None. lia.
Qed.
End ring.
