(* ===== verification/Entities.v ===== *)
(** * Entities of the durable runtime store

    [src/internal/runtime/entities.go]: the string-typed enumerations, the
    entity structs, the journal stream names and the field encodings the
    store's SQL uses (timestamps in milliseconds, optional references as NULL).

    Go's [type RunStatus string] and its siblings are strings: a value of the
    type need not be one of the named constants, and the code and the schema
    check membership where it matters. They are strings here too.

    A [time.Time] is its count of nanoseconds since the Unix epoch, the zero
    time being January 1 of year 1. Location and monotonic reading, which no
    modelled operation observes, are left out. *)

From S2P Require Import Prelude.
Open Scope Z_scope.

(** ** Identifier prefixes *)
Definition idProject : string := "prj_".
Definition idSession : string := "ses_".
Definition idRun : string := "run_".
Definition idProviderSession : string := "psn_".
Definition idComputerSession : string := "cmp_".
Definition idArtifact : string := "art_".

(** ** Enumerations *)
Definition CallerRemoteAI : string := "remote_ai".
Definition CallerLocalUI : string := "local_ui".
Definition CallerLocalMCP : string := "local_mcp".
Definition CallerAgentInternal : string := "agent_internal".

Definition SessionOpen : string := "open".
Definition SessionArchived : string := "archived".

Definition RunQueued : string := "queued".
Definition RunRunning : string := "running".
Definition RunCompleted : string := "completed".
Definition RunFailed : string := "failed".
Definition RunCancelled : string := "cancelled".
Definition RunTimeout : string := "timeout".
Definition RunInterrupted : string := "interrupted".

(** [RunStatus.Terminal]. *)
Definition Terminal (s : string) : bool :=
  one_of s [RunCompleted; RunFailed; RunCancelled; RunTimeout; RunInterrupted].

(** [RunStatus.valid]. *)
Definition valid (s : string) : bool :=
  one_of s [RunQueued; RunRunning; RunCompleted; RunFailed; RunCancelled;
            RunTimeout; RunInterrupted].

Definition RunAgent : string := "agent".
Definition RunCloud : string := "cloud".

Definition ComputerStarting : string := "starting".
Definition ComputerActive : string := "active".
Definition ComputerSuspended : string := "suspended".
Definition ComputerClosed : string := "closed".
Definition ComputerFailed : string := "failed".

Definition ControllerAgent : string := "agent".
Definition ControllerHuman : string := "human".
Definition ControllerNone : string := "none".

Definition ChannelNone : string := "".
Definition ChannelLocal : string := "local".
Definition ChannelRemote : string := "remote".

Definition SourceBridge : string := "bridge".
Definition SourceRuntime : string := "runtime".
Definition SourceAgent : string := "agent".
Definition SourceComputer : string := "computer".
Definition SourcePolicy : string := "policy".
Definition SourceSystem : string := "system".

Definition EffectAllow : string := "allow".
Definition EffectDeny : string := "deny".
Definition EffectAsk : string := "ask".

Definition ScopeOnce : string := "once".
Definition ScopeSession : string := "session".
Definition ScopeProject : string := "project".
Definition ScopeAlways : string := "always".

Definition ApprovalLocalUI : string := "local_ui".
Definition ApprovalRemoteHuman : string := "remote_human".

Definition ApprovalPending : string := "pending".
Definition ApprovalApproved : string := "approved".
Definition ApprovalDenied : string := "denied".
Definition ApprovalExpired : string := "expired".

Definition VerbFilesystemRead : string := "filesystem.read".
Definition VerbFilesystemWrite : string := "filesystem.write".
Definition VerbShellExecute : string := "shell.execute".
Definition VerbAgentStart : string := "agent.start".
Definition VerbAgentCancel : string := "agent.cancel".
Definition VerbComputerObserve : string := "computer.observe".
Definition VerbComputerInput : string := "computer.input".
Definition VerbComputerPreview : string := "computer.preview".
Definition VerbGitPush : string := "git.push".
Definition VerbCloudUpload : string := "cloud.upload".
Definition VerbCloudExecute : string := "cloud.execute".
Definition VerbNetworkConnect : string := "network.connect".
Definition VerbSecretRead : string := "secret.read".

Definition ArtifactFile : string := "file".
Definition ArtifactPatch : string := "patch".
Definition ArtifactCommit : string := "commit".
Definition ArtifactBranchRef : string := "branch_ref".
Definition ArtifactReport : string := "report".
Definition ArtifactTestResult : string := "test_result".
Definition ArtifactLogBundle : string := "log_bundle".
Definition ArtifactCloudResult : string := "cloud_result".
Definition ArtifactSavedScreenshot : string := "saved_screenshot".

Definition ProducedByRun : string := "run".
Definition ProducedByComputerSession : string := "computer_session".

(** ** Journal streams *)
Definition streamRunPrefix : string := "run:".
Definition streamComputerPrefix : string := "computer:".
Definition streamSessionPrefix : string := "session:".
Definition StreamSystem : string := "system".

Definition StreamRun (id : string) : string := streamRunPrefix +:+ id.
Definition StreamComputer (id : string) : string := streamComputerPrefix +:+ id.
Definition StreamSession (id : string) : string := streamSessionPrefix +:+ id.

(** [runIDFromStream], with [("", false)] as [None]. *)
Definition runIDFromStream (stream : string) : option string :=
  match CutPrefix stream streamRunPrefix with
  | Some id => if decide (id = "") then None else Some id
  | None => None
  end.

(** ** Time *)
Definition time : Type := Z.

(** [time.Time{}]: 0001-01-01T00:00:00Z. *)
Definition zero_time : time := -62135596800 * 1000000000.
Definition IsZero (t : time) : bool := bool_decide (t = zero_time).
(** [Time.UnixMilli]: the floor of the instant in milliseconds. *)
Definition UnixMilli (t : time) : Z := t / 1000000.

(** [ms]. *)
Definition ms (t : time) : Z := if IsZero t then 0 else UnixMilli t.
(** [timeFromMS]. *)
Definition timeFromMS (v : Z) : time := if decide (v = 0) then zero_time else v * 1000000.

(** ** Field encodings *)

(** [boolInt], and the reads' [v != 0]. *)
Definition boolInt (b : bool) : Z := if b then 1 else 0.
Definition intBool (v : Z) : bool := bool_decide (v ≠ 0).

(** [nullText]: NULL is [None]. *)
Definition nullText (s : string) : option string := if decide (s = "") then None else Some s.
(** [text] of a [sql.NullString]. *)
Definition text (ns : option string) : string := default "" ns.

(** ** Errors of the package

    One constructor per error value the package builds; [ErrConstraint op]
    is an SQLite constraint failure wrapped with the operation's label. *)
Inductive rerr : Type :=
  | ErrIdRequired
  | ErrIdPrefix (id prefix : string)
  | ErrRequired (label : string)
  | ErrNotFound (what id : string)
  | ErrIllegalTransition (id from to : string)
  | ErrSchemaNewer (store binary : Z)
  | ErrUnknownStatus (status : string)
  | ErrNoTimestamp (what : string)
  | ErrHumanChannel (channel : string)
  | ErrCarriesChannel (kind channel : string)
  | ErrUnknownController (kind : string)
  | ErrGap (stream : string) (want got : Z)
  | ErrConstraint (op : string)
  | ErrNoMigrationPath (from to : Z)
  | ErrBackupExists
  | ErrIO (op : string)
  | ErrNoFunction.

(** [checkID]. *)
Definition checkID (id prefix : string) : result rerr () :=
  if decide (id = "") then Err ErrIdRequired
  else if negb (HasPrefix id prefix) then Err (ErrIdPrefix id prefix)
  else Ok ().

(** [requireText]. *)
Definition requireText (label v : string) : result rerr () :=
  if decide (v = "") then Err (ErrRequired label) else Ok ().

(** ** Structs *)
Record ProjectRoot : Type := { Root_Path : string; Root_Writable : bool }.

Record Project : Type := {
  Project_ID : string;
  Project_Name : string;
  Project_Roots : list ProjectRoot;
  Project_SensitivePaths : list string;
  Project_CreatedAt : time;
  Project_UpdatedAt : time
}.

Record Session : Type := {
  Session_ID : string;
  Session_ProjectID : string;
  Session_Title : string;
  Session_CallerClass : string;
  Session_ExternalConversation : string;
  Session_Status : string;
  Session_CreatedAt : time;
  Session_UpdatedAt : time
}.

Record Run : Type := {
  Run_ID : string;
  Run_SessionID : string;
  Run_ProjectID : string;
  Run_Kind : string;
  Run_Provider : string;
  Run_Model : string;
  Run_Autonomy : string;
  Run_Role : string;
  Run_ParentRunID : string;
  Run_ContinuesRunID : string;
  Run_ProviderSessionID : string;
  Run_Status : string;
  Run_ProcessPID : Z;
  Run_ProcessStartedAt : time;
  Run_ProcessGroupID : Z;
  Run_OutputRef : string;
  Run_ErrorCategory : string;
  Run_LastSeq : Z;
  Run_CreatedAt : time;
  Run_StartedAt : time;
  Run_FinishedAt : time
}.

Record ProviderSession : Type := {
  PSession_ID : string;
  PSession_Provider : string;
  PSession_NativeID : string;
  PSession_Locator : string;
  PSession_ProjectID : string;
  PSession_CanResume : bool;
  PSession_CanHistory : bool;
  PSession_CreatedAt : time;
  PSession_UpdatedAt : time
}.

Record Controller : Type := {
  Controller_Kind : string;
  Controller_Holder : string;
  Controller_Channel : string
}.

Record ComputerSession : Type := {
  CSession_ID : string;
  CSession_SessionID : string;
  CSession_RunID : string;
  CSession_Target : string;
  CSession_State : string;
  CSession_Controller : Controller;
  CSession_ControllerEpoch : Z;
  CSession_ArbiterInstance : string;
  CSession_LeaseHolder : string;
  CSession_LeaseExpiresAt : time;
  CSession_CanObserve : bool;
  CSession_CanInput : bool;
  CSession_CanPreview : bool;
  CSession_GrantedVerbs : list string;
  CSession_AppSelectors : list string;
  CSession_LastFrameID : string;
  CSession_GeometryGeneration : Z;
  CSession_CreatedAt : time;
  CSession_UpdatedAt : time
}.

Record Artifact : Type := {
  Artifact_ID : string;
  Artifact_ProducerKind : string;
  Artifact_ProducerID : string;
  Artifact_Kind : string;
  Artifact_Reference : string;
  Artifact_Digest : string;
  Artifact_SizeBytes : Z;
  Artifact_Sensitivity : string;
  Artifact_Retention : string;
  Artifact_CreatedAt : time
}.

Record PolicyRule : Type := {
  Rule_ID : string;
  Rule_Effect : string;
  Rule_Verb : string;
  Rule_Selector : string;
  Rule_CreatedAt : time;
  Rule_UpdatedAt : time
}.

Record Grant : Type := {
  Grant_ID : string;
  Grant_Verb : string;
  Grant_Selector : string;
  Grant_Scope : string;
  Grant_SessionID : string;
  Grant_ProjectID : string;
  Grant_RunID : string;
  Grant_ApprovalID : string;
  Grant_Channel : string;
  Grant_ExpiresAt : time;
  Grant_CreatedAt : time;
  Grant_RevokedAt : time
}.

Record Approval : Type := {
  Approval_ID : string;
  Approval_RunID : string;
  Approval_SessionID : string;
  Approval_ProjectID : string;
  Approval_Verb : string;
  Approval_Selector : string;
  Approval_Status : string;
  Approval_Channel : string;
  Approval_Reason : string;
  Approval_RequestedAt : time;
  Approval_DecidedAt : time
}.

Record Event : Type := {
  Event_Pos : Z;
  Event_Stream : string;
  Event_Seq : Z;
  Event_At : time;
  Event_SessionID : string;
  Event_ProjectID : string;
  Event_Source : string;
  Event_Kind : string;
  Event_TurnRef : string;
  Event_CorrelationID : string;
  Event_Payload : string;
  Event_RawRef : string
}.

(** [ValidateContiguous]: the loop, [want] being [afterSeq + 1] at the start
    ([int64] arithmetic). *)
Fixpoint validate_from (want : Z) (evs : list Event) : result rerr () :=
  match evs with
  | [] => Ok ()
  | ev :: evs' =>
      if decide (Event_Seq ev = want) then validate_from (wrap64 (want + 1)) evs'
      else Err (ErrGap (Event_Stream ev) want (Event_Seq ev))
  end.

Definition ValidateContiguous (evs : list Event) (afterSeq : Z) : result rerr () :=
  validate_from (wrap64 (afterSeq + 1)) evs.

(** ** Lemmas *)

Lemma checkID_Ok id p : checkID id p = Ok () ↔ id ≠ "" ∧ HasPrefix id p = true.
Proof.
  unfold checkID. case_decide; [by split; [|intros [??]]|].
  destruct (HasPrefix id p); simpl; [done|by split; [|intros [??]]].
Qed.

Lemma requireText_Ok l v : requireText l v = Ok () ↔ v ≠ "".
Proof. unfold requireText. by case_decide. Qed.

Lemma text_nullText s : text (nullText s) = s.
Proof. unfold text, nullText. by case_decide. Qed.

Lemma intBool_boolInt b : intBool (boolInt b) = b.
Proof. by destruct b. Qed.

Lemma boolInt_intBool_idem v : intBool (boolInt (intBool v)) = intBool v.
Proof. apply intBool_boolInt. Qed.

(** The instants the store keeps exactly: the zero time and the whole
    milliseconds other than the epoch itself. *)
Definition ms_exact (t : time) : bool :=
  bool_decide (t = zero_time ∨ (t `mod` 1000000 = 0 ∧ t ≠ 0)).

Lemma timeFromMS_ms t : ms_exact t = true ↔ timeFromMS (ms t) = t.
Proof.
  unfold ms_exact, timeFromMS, ms, IsZero, UnixMilli. rewrite bool_decide_eq_true.
  case_bool_decide as Hz; [rewrite decide_True by done; naive_solver|].
  pose proof (Z.div_mod t 1000000) as Hdm.
  case_decide as H0.
  - split; [intros [?|[Hm Hne]]; [done|lia]|congruence].
  - split; [intros [?|[Hm Hne]]; [done|lia]|]. intros H. right.
    pose proof (Z.mod_pos_bound t 1000000). lia.
Qed.

(** Reading a stored timestamp and storing it again changes nothing. *)
Lemma ms_timeFromMS v : v ≠ -62135596800000 → ms (timeFromMS v) = v.
Proof.
  intros Hv. unfold ms, timeFromMS, IsZero, UnixMilli.
  case_decide as H0; [subst; by rewrite bool_decide_true|].
  case_bool_decide as Hz; [unfold zero_time in Hz; lia|].
  by rewrite Z.div_mul.
Qed.

Lemma runIDFromStream_StreamRun id : id ≠ "" → runIDFromStream (StreamRun id) = Some id.
Proof.
  intros Hne. unfold runIDFromStream, StreamRun. rewrite CutPrefix_app.
  by case_decide.
Qed.

Lemma runIDFromStream_Some s id :
  runIDFromStream s = Some id ↔ id ≠ "" ∧ s = StreamRun id.
Proof.
  split; [|intros [? ->]; by apply runIDFromStream_StreamRun].
  unfold runIDFromStream. destruct (CutPrefix s streamRunPrefix) eqn:E; [|done].
  apply CutPrefix_Some in E. case_decide; naive_solver.
Qed.

Lemma runIDFromStream_StreamComputer id : runIDFromStream (StreamComputer id) = None.
Proof. reflexivity. Qed.

#[export] Instance time_eq_dec : EqDecision time := Z.eq_dec.
#[export] Instance ProjectRoot_eq_dec : EqDecision ProjectRoot.
Proof. solve_decision. Defined.
