(* ===== verification/Schema.v ===== *)
(** * The store schema

    [src/schema/store/v1/schema.sql], the DDL the daemon embeds: one row type
    per table, the CHECK constraints, the foreign keys and the partial unique
    indexes as boolean functions, and the database as a record of tables.

    A table with a TEXT primary key is a finite map from the key to the other
    columns. A child table with the key [(parent, position)] is its list of rows
    in insertion order; [ORDER BY position] sorts when it is read. [events] is
    the list of its rows in [pos] order with the AUTOINCREMENT counter SQLite
    keeps in [sqlite_sequence]. NULL is [None]. *)

From S2P Require Import Prelude Entities.
Open Scope Z_scope.

(** ** Rows *)
Record ProjectRow : Type := {
  prj_name : string; prj_created_at : Z; prj_updated_at : Z
}.

(** A row of a child table: parent key, position, other columns. *)
Definition child (A : Type) : Type := (string * Z * A)%type.
Definition ch_parent {A} (c : child A) : string := c.1.1.
Definition ch_position {A} (c : child A) : Z := c.1.2.
Definition ch_value {A} (c : child A) : A := c.2.

Record RootRow : Type := { root_path : string; root_writable : Z }.

Record SessionRow : Type := {
  ses_project_id : option string;
  ses_title : string;
  ses_caller_class : string;
  ses_external_conversation : string;
  ses_status : string;
  ses_created_at : Z;
  ses_updated_at : Z
}.

Record ProviderSessionRow : Type := {
  psn_provider : string;
  psn_native_id : string;
  psn_locator : string;
  psn_project_id : option string;
  psn_can_resume : Z;
  psn_can_history : Z;
  psn_created_at : Z;
  psn_updated_at : Z
}.

Record RunRow : Type := {
  run_session_id : string;
  run_project_id : option string;
  run_kind : string;
  run_provider : string;
  run_model : string;
  run_autonomy : string;
  run_role : string;
  run_parent_run_id : option string;
  run_continues_run_id : option string;
  run_provider_session_id : option string;
  run_status : string;
  run_process_pid : Z;
  run_process_started_at : Z;
  run_process_group_id : Z;
  run_output_ref : string;
  run_error_category : string;
  run_last_seq : Z;
  run_created_at : Z;
  run_started_at : Z;
  run_finished_at : Z
}.

Record ComputerSessionRow : Type := {
  cmp_session_id : string;
  cmp_run_id : option string;
  cmp_target : string;
  cmp_state : string;
  cmp_controller_kind : string;
  cmp_controller_holder : string;
  cmp_controller_channel : string;
  cmp_controller_epoch : Z;
  cmp_arbiter_instance : string;
  cmp_lease_holder : string;
  cmp_lease_expires_at : Z;
  cmp_can_observe : Z;
  cmp_can_input : Z;
  cmp_can_preview : Z;
  cmp_last_frame_id : string;
  cmp_geometry_generation : Z;
  cmp_created_at : Z;
  cmp_updated_at : Z
}.

Record ArtifactRow : Type := {
  art_producer_kind : string;
  art_producer_id : string;
  art_kind : string;
  art_reference : string;
  art_digest : string;
  art_size_bytes : Z;
  art_sensitivity : string;
  art_retention : string;
  art_created_at : Z
}.

Record PolicyRuleRow : Type := {
  rule_effect : string;
  rule_verb : string;
  rule_selector : string;
  rule_created_at : Z;
  rule_updated_at : Z
}.

Record ApprovalRow : Type := {
  apv_run_id : option string;
  apv_session_id : option string;
  apv_project_id : option string;
  apv_verb : string;
  apv_selector : string;
  apv_status : string;
  apv_channel : string;
  apv_reason : string;
  apv_requested_at : Z;
  apv_decided_at : Z
}.

Record GrantRow : Type := {
  grt_verb : string;
  grt_selector : string;
  grt_scope : string;
  grt_session_id : option string;
  grt_project_id : option string;
  grt_run_id : option string;
  grt_approval_id : option string;
  grt_channel : string;
  grt_expires_at : Z;
  grt_created_at : Z;
  grt_revoked_at : Z
}.

Record EventRow : Type := {
  ev_pos : Z;
  ev_stream : string;
  ev_seq : Z;
  ev_at_ms : Z;
  ev_session_id : string;
  ev_project_id : string;
  ev_source : string;
  ev_kind : string;
  ev_turn_ref : string;
  ev_correlation_id : string;
  ev_payload : string;
  ev_raw_ref : string
}.

(** ** The database *)
Record db : Type := {
  projects : gmap string ProjectRow;
  project_roots : list (child RootRow);
  project_sensitive_paths : list (child string);
  sessions : gmap string SessionRow;
  provider_sessions : gmap string ProviderSessionRow;
  runs : gmap string RunRow;
  computer_sessions : gmap string ComputerSessionRow;
  computer_session_verbs : list (child string);
  computer_session_apps : list (child string);
  artifacts : gmap string ArtifactRow;
  policy_rules : gmap string PolicyRuleRow;
  approvals : gmap string ApprovalRow;
  grants : gmap string GrantRow;
  events : list EventRow;
  events_autoinc : Z
}.

Definition empty_db : db := {|
  projects := ∅;
  project_roots := [];
  project_sensitive_paths := [];
  sessions := ∅;
  provider_sessions := ∅;
  runs := ∅;
  computer_sessions := ∅;
  computer_session_verbs := [];
  computer_session_apps := [];
  artifacts := ∅;
  policy_rules := ∅;
  approvals := ∅;
  grants := ∅;
  events := [];
  events_autoinc := 0
|}.

(** Writing one table. *)
Definition set_projects (x : gmap string ProjectRow) (d : db) : db :=
  Build_db x (d.(project_roots)) (d.(project_sensitive_paths)) (d.(sessions))
    (d.(provider_sessions)) (d.(runs)) (d.(computer_sessions))
    (d.(computer_session_verbs)) (d.(computer_session_apps)) (d.(artifacts))
    (d.(policy_rules)) (d.(approvals)) (d.(grants)) (d.(events))
    (d.(events_autoinc)).
Definition set_project_roots (x : list (child RootRow)) (d : db) : db :=
  Build_db (d.(projects)) x (d.(project_sensitive_paths)) (d.(sessions))
    (d.(provider_sessions)) (d.(runs)) (d.(computer_sessions))
    (d.(computer_session_verbs)) (d.(computer_session_apps)) (d.(artifacts))
    (d.(policy_rules)) (d.(approvals)) (d.(grants)) (d.(events))
    (d.(events_autoinc)).
Definition set_project_sensitive_paths (x : list (child string)) (d : db) : db :=
  Build_db (d.(projects)) (d.(project_roots)) x (d.(sessions))
    (d.(provider_sessions)) (d.(runs)) (d.(computer_sessions))
    (d.(computer_session_verbs)) (d.(computer_session_apps)) (d.(artifacts))
    (d.(policy_rules)) (d.(approvals)) (d.(grants)) (d.(events))
    (d.(events_autoinc)).
Definition set_sessions (x : gmap string SessionRow) (d : db) : db :=
  Build_db (d.(projects)) (d.(project_roots)) (d.(project_sensitive_paths)) x
    (d.(provider_sessions)) (d.(runs)) (d.(computer_sessions))
    (d.(computer_session_verbs)) (d.(computer_session_apps)) (d.(artifacts))
    (d.(policy_rules)) (d.(approvals)) (d.(grants)) (d.(events))
    (d.(events_autoinc)).
Definition set_provider_sessions (x : gmap string ProviderSessionRow) (d : db) : db :=
  Build_db (d.(projects)) (d.(project_roots)) (d.(project_sensitive_paths))
    (d.(sessions)) x (d.(runs)) (d.(computer_sessions))
    (d.(computer_session_verbs)) (d.(computer_session_apps)) (d.(artifacts))
    (d.(policy_rules)) (d.(approvals)) (d.(grants)) (d.(events))
    (d.(events_autoinc)).
Definition set_runs (x : gmap string RunRow) (d : db) : db :=
  Build_db (d.(projects)) (d.(project_roots)) (d.(project_sensitive_paths))
    (d.(sessions)) (d.(provider_sessions)) x (d.(computer_sessions))
    (d.(computer_session_verbs)) (d.(computer_session_apps)) (d.(artifacts))
    (d.(policy_rules)) (d.(approvals)) (d.(grants)) (d.(events))
    (d.(events_autoinc)).
Definition set_computer_sessions (x : gmap string ComputerSessionRow) (d : db) : db :=
  Build_db (d.(projects)) (d.(project_roots)) (d.(project_sensitive_paths))
    (d.(sessions)) (d.(provider_sessions)) (d.(runs)) x
    (d.(computer_session_verbs)) (d.(computer_session_apps)) (d.(artifacts))
    (d.(policy_rules)) (d.(approvals)) (d.(grants)) (d.(events))
    (d.(events_autoinc)).
Definition set_computer_session_verbs (x : list (child string)) (d : db) : db :=
  Build_db (d.(projects)) (d.(project_roots)) (d.(project_sensitive_paths))
    (d.(sessions)) (d.(provider_sessions)) (d.(runs)) (d.(computer_sessions))
    x (d.(computer_session_apps)) (d.(artifacts)) (d.(policy_rules))
    (d.(approvals)) (d.(grants)) (d.(events)) (d.(events_autoinc)).
Definition set_computer_session_apps (x : list (child string)) (d : db) : db :=
  Build_db (d.(projects)) (d.(project_roots)) (d.(project_sensitive_paths))
    (d.(sessions)) (d.(provider_sessions)) (d.(runs)) (d.(computer_sessions))
    (d.(computer_session_verbs)) x (d.(artifacts)) (d.(policy_rules))
    (d.(approvals)) (d.(grants)) (d.(events)) (d.(events_autoinc)).
Definition set_artifacts (x : gmap string ArtifactRow) (d : db) : db :=
  Build_db (d.(projects)) (d.(project_roots)) (d.(project_sensitive_paths))
    (d.(sessions)) (d.(provider_sessions)) (d.(runs)) (d.(computer_sessions))
    (d.(computer_session_verbs)) (d.(computer_session_apps)) x
    (d.(policy_rules)) (d.(approvals)) (d.(grants)) (d.(events))
    (d.(events_autoinc)).
Definition set_policy_rules (x : gmap string PolicyRuleRow) (d : db) : db :=
  Build_db (d.(projects)) (d.(project_roots)) (d.(project_sensitive_paths))
    (d.(sessions)) (d.(provider_sessions)) (d.(runs)) (d.(computer_sessions))
    (d.(computer_session_verbs)) (d.(computer_session_apps)) (d.(artifacts)) x
    (d.(approvals)) (d.(grants)) (d.(events)) (d.(events_autoinc)).
Definition set_approvals (x : gmap string ApprovalRow) (d : db) : db :=
  Build_db (d.(projects)) (d.(project_roots)) (d.(project_sensitive_paths))
    (d.(sessions)) (d.(provider_sessions)) (d.(runs)) (d.(computer_sessions))
    (d.(computer_session_verbs)) (d.(computer_session_apps)) (d.(artifacts))
    (d.(policy_rules)) x (d.(grants)) (d.(events)) (d.(events_autoinc)).
Definition set_grants (x : gmap string GrantRow) (d : db) : db :=
  Build_db (d.(projects)) (d.(project_roots)) (d.(project_sensitive_paths))
    (d.(sessions)) (d.(provider_sessions)) (d.(runs)) (d.(computer_sessions))
    (d.(computer_session_verbs)) (d.(computer_session_apps)) (d.(artifacts))
    (d.(policy_rules)) (d.(approvals)) x (d.(events)) (d.(events_autoinc)).
Definition set_events (l : list EventRow) (next : Z) (d : db) : db :=
  Build_db (d.(projects)) (d.(project_roots)) (d.(project_sensitive_paths))
    (d.(sessions)) (d.(provider_sessions)) (d.(runs)) (d.(computer_sessions))
    (d.(computer_session_verbs)) (d.(computer_session_apps)) (d.(artifacts))
    (d.(policy_rules)) (d.(approvals)) (d.(grants)) l next.

(** ** CHECK constraints *)
Definition sessions_check (r : SessionRow) : bool :=
  one_of (ses_caller_class r)
    [CallerRemoteAI; CallerLocalUI; CallerLocalMCP; CallerAgentInternal] &&
  one_of (ses_status r) [SessionOpen; SessionArchived].

Definition runs_check (r : RunRow) : bool :=
  one_of (run_kind r) [RunAgent; RunCloud] &&
  one_of (run_status r)
    [RunQueued; RunRunning; RunCompleted; RunFailed; RunCancelled; RunTimeout;
     RunInterrupted].

Definition computer_sessions_check (r : ComputerSessionRow) : bool :=
  one_of (cmp_state r)
    [ComputerStarting; ComputerActive; ComputerSuspended; ComputerClosed;
     ComputerFailed] &&
  one_of (cmp_controller_kind r) [ControllerAgent; ControllerHuman; ControllerNone] &&
  one_of (cmp_controller_channel r) [ChannelNone; ChannelLocal; ChannelRemote].

Definition artifacts_check (r : ArtifactRow) : bool :=
  one_of (art_producer_kind r) [ProducedByRun; ProducedByComputerSession] &&
  one_of (art_kind r)
    [ArtifactFile; ArtifactPatch; ArtifactCommit; ArtifactBranchRef;
     ArtifactReport; ArtifactTestResult; ArtifactLogBundle; ArtifactCloudResult;
     ArtifactSavedScreenshot].

Definition policy_rules_check (r : PolicyRuleRow) : bool :=
  one_of (rule_effect r) [EffectAllow; EffectDeny; EffectAsk].

Definition approvals_check (r : ApprovalRow) : bool :=
  one_of (apv_status r)
    [ApprovalPending; ApprovalApproved; ApprovalDenied; ApprovalExpired] &&
  one_of (apv_channel r) [ApprovalLocalUI; ApprovalRemoteHuman].

(** [LIKE 'computer.%']: SQLite's LIKE folds ASCII case. *)
Definition ascii_lower (c : Ascii.ascii) : Ascii.ascii :=
  let n := Ascii.N_of_ascii c in
  if decide (65 ≤ n ∧ n ≤ 90)%N then Ascii.ascii_of_N (n + 32) else c.
Fixpoint string_lower (s : string) : string :=
  match s with
  | EmptyString => EmptyString
  | String c s' => String (ascii_lower c) (string_lower s')
  end.
Definition like_computer (verb : string) : bool := HasPrefix (string_lower verb) "computer.".

Definition grants_check (r : GrantRow) : bool :=
  one_of (grt_scope r) [ScopeOnce; ScopeSession; ScopeProject; ScopeAlways] &&
  one_of (grt_channel r) [ApprovalLocalUI; ApprovalRemoteHuman] &&
  (bool_decide (grt_scope r ≠ ScopeProject) || negb (like_computer (grt_verb r))) &&
  (bool_decide (grt_scope r ≠ ScopeSession) || bool_decide (grt_session_id r ≠ None)) &&
  (bool_decide (grt_channel r ≠ ApprovalRemoteHuman) ||
   (one_of (grt_scope r) [ScopeOnce; ScopeSession] &&
    negb (one_of (grt_verb r) [VerbSecretRead; VerbCloudUpload]))).

Definition events_check (r : EventRow) : bool :=
  one_of (ev_source r)
    [SourceBridge; SourceRuntime; SourceAgent; SourceComputer; SourcePolicy;
     SourceSystem].

(** ** Foreign keys

    [refers m o]: the reference [o] is NULL or names a row of [m]. *)
Definition refers {A} (m : gmap string A) (o : option string) : bool :=
  match o with None => true | Some k => bool_decide (is_Some (m !! k)) end.

Definition sessions_fk (d : db) (r : SessionRow) : bool :=
  refers (projects d) (ses_project_id r).
Definition provider_sessions_fk (d : db) (r : ProviderSessionRow) : bool :=
  refers (projects d) (psn_project_id r).
Definition runs_fk (d : db) (r : RunRow) : bool :=
  refers (sessions d) (Some (run_session_id r)) &&
  refers (projects d) (run_project_id r) &&
  refers (runs d) (run_parent_run_id r) &&
  refers (runs d) (run_continues_run_id r) &&
  refers (provider_sessions d) (run_provider_session_id r).
Definition computer_sessions_fk (d : db) (r : ComputerSessionRow) : bool :=
  refers (sessions d) (Some (cmp_session_id r)) &&
  refers (runs d) (cmp_run_id r).
Definition approvals_fk (d : db) (r : ApprovalRow) : bool :=
  refers (runs d) (apv_run_id r) &&
  refers (sessions d) (apv_session_id r) &&
  refers (projects d) (apv_project_id r).
Definition grants_fk (d : db) (r : GrantRow) : bool :=
  refers (sessions d) (grt_session_id r) &&
  refers (projects d) (grt_project_id r) &&
  refers (runs d) (grt_run_id r) &&
  refers (approvals d) (grt_approval_id r).

(** ** Unique indexes

    A partial unique index is a key function; a row with key [None] is not
    indexed. [idx_free] is the check SQLite makes for the row stored under [id]. *)
Definition idx_free {R K} `{EqDecision K} (key : R → option K) (m : gmap string R)
    (id : string) (r : R) : bool :=
  match key r with
  | None => true
  | Some k => bool_decide (map_Forall (λ id' r', id' = id ∨ key r' ≠ Some k) m)
  end.

(** [idx_runs_active_provider_session]. *)
Definition active_provider_session (r : RunRow) : option string :=
  if one_of (run_status r) [RunQueued; RunRunning] then run_provider_session_id r else None.

(** [idx_provider_sessions_native]. *)
Definition provider_native (r : ProviderSessionRow) : option (string * string) :=
  if decide (psn_native_id r = "") then None else Some (psn_provider r, psn_native_id r).

(** ** Lemmas *)

Definition unique_index {R K} (key : R → option K) (m : gmap string R) : Prop :=
  ∀ id1 id2 r1 r2 k, m !! id1 = Some r1 → m !! id2 = Some r2 →
    key r1 = Some k → key r2 = Some k → id1 = id2.

Lemma unique_index_insert {R K} `{EqDecision K} (key : R → option K) m id r :
  unique_index key m → idx_free key m id r = true →
  unique_index key (<[id:=r]> m).
Proof.
  intros Hu Hf id1 id2 r1 r2 k.
  assert (Hx : ∀ i x, i ≠ id → m !! i = Some x → key r = Some k → key x = Some k → False).
  { intros i x Hi Hx Hr Hkx. unfold idx_free in Hf. rewrite Hr in Hf.
    apply bool_decide_eq_true in Hf. by destruct (Hf i x Hx). }
  destruct (decide (id1 = id)) as [->|H1], (decide (id2 = id)) as [->|H2];
    rewrite ?lookup_insert_eq, ?lookup_insert_ne by done; intros; simplify_eq; try done.
  - exfalso; eauto.
  - exfalso; eauto.
  - eauto.
Qed.

(** The check is evaluated after the write, when the row itself is in the map. *)
Lemma idx_free_insert {R K} `{EqDecision K} (key : R → option K) m id r :
  idx_free key (<[id:=r]> m) id r = true → idx_free key m id r = true.
Proof.
  unfold idx_free. destruct (key r); [|done]. rewrite !bool_decide_eq_true.
  intros Hf id' r' Hr'. destruct (decide (id' = id)) as [->|Hne]; [by left|].
  apply (Hf id' r'). by rewrite lookup_insert_ne.
Qed.

Lemma refers_insert {A} (m : gmap string A) id r o :
  refers m o = true → refers (<[id:=r]> m) o = true.
Proof.
  destruct o as [k|]; simpl; [|done]. rewrite !bool_decide_eq_true.
  intros Hk. destruct (decide (id = k)) as [->|]; [by rewrite lookup_insert_eq; eauto|].
  by rewrite lookup_insert_ne.
Qed.

Lemma refers_Some {A} (m : gmap string A) k : refers m (Some k) = true ↔ is_Some (m !! k).
Proof. apply bool_decide_eq_true. Qed.

Lemma like_computer_verbs :
  like_computer <$> [VerbComputerObserve; VerbComputerInput; VerbComputerPreview; VerbShellExecute]
  = [true; true; true; false].
Proof. reflexivity. Qed.

#[global] Arguments refers : simpl never.
