(* ===== verification/Statements.v ===== *)
(** * SQL statements on the store

    The statement forms the runtime package uses, on the database of [Schema]:
    an upsert of one row with its constraint checks, the replacement of an
    ordered child list, and reads. A statement that violates a constraint
    returns an error and leaves the database unchanged (SQLite's ABORT), and a
    transaction is a [ST db rerr]: a later failure keeps earlier writes, which
    the enclosing [Update] rolls back.

    [Table] is the interface every table of the database offers to these
    statements; [EntityStore] is the contract every [Put]/[Get] pair offers to
    its callers. *)

From S2P Require Import Prelude Entities Schema.
Open Scope Z_scope.

Abbreviation Tx := (ST db rerr).

(** ** Tables *)
Class Table (T : Type) : Type := {
  tget : db → T;
  tset : T → db → db;
  tget_tset : ∀ x d, tget (tset x d) = x;
  tset_tset : ∀ x y d, tset x (tset y d) = tset x d;
  tset_tget : ∀ d, tset (tget d) d = d
}.

Definition projects_t : Table (gmap string ProjectRow).
Proof. refine {| tget := projects; tset := set_projects |}; by intros; destruct d. Defined.
Definition project_roots_t : Table (list (child RootRow)).
Proof. refine {| tget := project_roots; tset := set_project_roots |}; by intros; destruct d. Defined.
Definition project_sensitive_paths_t : Table (list (child string)).
Proof.
  refine {| tget := project_sensitive_paths; tset := set_project_sensitive_paths |};
    by intros; destruct d.
Defined.
Definition sessions_t : Table (gmap string SessionRow).
Proof. refine {| tget := sessions; tset := set_sessions |}; by intros; destruct d. Defined.
Definition provider_sessions_t : Table (gmap string ProviderSessionRow).
Proof.
  refine {| tget := provider_sessions; tset := set_provider_sessions |}; by intros; destruct d.
Defined.
Definition runs_t : Table (gmap string RunRow).
Proof. refine {| tget := runs; tset := set_runs |}; by intros; destruct d. Defined.
Definition computer_sessions_t : Table (gmap string ComputerSessionRow).
Proof.
  refine {| tget := computer_sessions; tset := set_computer_sessions |}; by intros; destruct d.
Defined.
Definition computer_session_verbs_t : Table (list (child string)).
Proof.
  refine {| tget := computer_session_verbs; tset := set_computer_session_verbs |};
    by intros; destruct d.
Defined.
Definition computer_session_apps_t : Table (list (child string)).
Proof.
  refine {| tget := computer_session_apps; tset := set_computer_session_apps |};
    by intros; destruct d.
Defined.
Definition artifacts_t : Table (gmap string ArtifactRow).
Proof. refine {| tget := artifacts; tset := set_artifacts |}; by intros; destruct d. Defined.
Definition policy_rules_t : Table (gmap string PolicyRuleRow).
Proof. refine {| tget := policy_rules; tset := set_policy_rules |}; by intros; destruct d. Defined.
Definition approvals_t : Table (gmap string ApprovalRow).
Proof. refine {| tget := approvals; tset := set_approvals |}; by intros; destruct d. Defined.
Definition grants_t : Table (gmap string GrantRow).
Proof. refine {| tget := grants; tset := set_grants |}; by intros; destruct d. Defined.

(** ** Upsert

    [INSERT ... ON CONFLICT(id) DO UPDATE SET ...]: [merge old new] is the row
    after the DO UPDATE. The constraints apply to the row that results;
    [ok d' row] is evaluated after the write, when a row may refer to itself. *)
Definition upsert_row {R} (merge : R → R → R) (old : option R) (new : R) : R :=
  match old with None => new | Some r => merge r new end.

Definition upsert {R} (t : Table (gmap string R)) (op : string) (merge : R → R → R)
    (ok : db → string → R → bool) (id : string) (new : R) : Tx () := λ d,
  let row := upsert_row merge (tget (Table := t) d !! id) new in
  let d' := tset (Table := t) (<[id:=row]> (tget (Table := t) d)) d in
  if ok d' id row then (Ok (), d') else (Err (ErrConstraint op), d).

(** ** Child lists *)

(** [DELETE FROM t WHERE parent = id]. *)
Definition delete_children {A} (t : Table (list (child A))) (id : string) : Tx () :=
  st_modify (λ d, tset (Table := t) (filter (λ c, ch_parent c ≠ id) (tget (Table := t) d)) d).

(** [INSERT INTO t VALUES (id, i, v)] under the key (parent, position) and the
    foreign key to the parent table [par]. *)
Definition insert_child {A R} (t : Table (list (child A))) (par : db → gmap string R)
    (op : string) (id : string) (i : Z) (v : A) : Tx () := λ d,
  if refers (par d) (Some id) &&
     forallb (λ c, negb (bool_decide (ch_parent c = id ∧ ch_position c = i)))
       (tget (Table := t) d)
  then (Ok (), tset (Table := t) (tget (Table := t) d ++ [(id, i, v)]) d)
  else (Err (ErrConstraint op), d).

(** [SELECT v FROM t WHERE parent = id ORDER BY position]. *)
Definition select_children {A} (l : list (child A)) (id : string) : list A :=
  ch_value <$> order_by ch_position (filter (λ c, ch_parent c = id) l).

(** ** Lemmas on child lists *)

Fixpoint number {A} (id : string) (i : Z) (vs : list A) : list (child A) :=
  match vs with
  | [] => []
  | v :: vs' => (id, i, v) :: number id (i + 1) vs'
  end.

Lemma number_parent {A} id i (vs : list A) c : c ∈ number id i vs → ch_parent c = id.
Proof.
  revert i; induction vs as [|v vs IH]; intros i; simpl; [by intros ?%not_elem_of_nil|].
  intros [->|Hc]%elem_of_cons; [done|eauto].
Qed.

Lemma number_lower {A} id i (vs : list A) : Forall (λ p, i ≤ p) (ch_position <$> number id i vs).
Proof.
  revert i; induction vs as [|v vs IH]; intros i; simpl; constructor; [done|].
  eapply Forall_impl; [apply (IH (i + 1))|]; simpl; lia.
Qed.

Lemma number_sorted {A} id i (vs : list A) :
  StronglySorted Z.lt (ch_position <$> number id i vs).
Proof.
  revert i; induction vs as [|v vs IH]; intros i; simpl; [constructor|].
  apply StronglySorted_cons; split; [|apply IH].
  eapply Forall_impl; [apply (number_lower id (i + 1))|]; unfold ch_position; simpl; lia.
Qed.

Lemma number_values {A} id i (vs : list A) : ch_value <$> number id i vs = vs.
Proof. revert i; induction vs as [|v vs IH]; intros i; simpl; [done|]. by rewrite IH. Qed.

Lemma filter_number_same {A} id i (vs : list A) :
  filter (λ c, ch_parent c = id) (number id i vs) = number id i vs.
Proof.
  revert i; induction vs as [|v vs IH]; intros i; simpl; [done|].
  by rewrite filter_cons_True, IH.
Qed.

Lemma filter_number_other {A} id id' i (vs : list A) : id ≠ id' →
  filter (λ c, ch_parent c = id') (number id i vs) = [].
Proof.
  intros Hne. revert i; induction vs as [|v vs IH]; intros i; simpl; [done|].
  by rewrite filter_cons_False, IH.
Qed.

(** The list another parent sees is not touched by a replacement. *)
Lemma select_children_other {A} (l : list (child A)) id id' i vs : id ≠ id' →
  select_children (filter (λ c, ch_parent c ≠ id) l ++ number id i vs) id' =
  select_children l id'.
Proof.
  intros Hne. unfold select_children. f_equal. f_equal.
  rewrite filter_app, filter_number_other, app_nil_r by done.
  rewrite list_filter_filter_l; [done|]. intros c ->. congruence.
Qed.

(** The replaced list reads back as it was written. *)
Lemma select_children_same {A} (l : list (child A)) id (vs : list A) :
  select_children (filter (λ c, ch_parent c ≠ id) l ++ number id 0 vs) id = vs.
Proof.
  unfold select_children. rewrite filter_app, filter_number_same.
  replace (filter _ (filter _ l)) with ([] : list (child A)).
  - simpl. rewrite order_by_sorted by apply number_sorted. apply number_values.
  - symmetry. induction l as [|c l IH]; [done|].
    destruct (decide (ch_parent c = id)).
    + by rewrite (filter_cons_False (λ c, ch_parent c ≠ id)) by (intros ?; done).
    + by rewrite (filter_cons_True (λ c, ch_parent c ≠ id)), filter_cons_False.
Qed.

(** Inserting [vs] from position [i] on succeeds when the parent row exists
    and no position from [i] on is taken, and appends the numbered rows. *)
Lemma range_insert_child {A R} (t : Table (list (child A))) (par : db → gmap string R)
    op id (Hpar : ∀ x d, par (tset (Table := t) x d) = par d) (vs : list A) i d :
  is_Some (par d !! id) →
  Forall (λ c, ch_parent c = id → ch_position c < i) (tget (Table := t) d) →
  st_range i vs (insert_child t par op id) d =
    (Ok (), tset (Table := t) (tget (Table := t) d ++ number id i vs) d).
Proof.
  revert i d; induction vs as [|v vs IH]; intros i d Hd Hl; simpl.
  - by rewrite app_nil_r, tset_tget.
  - unfold mbind, ST_bind, insert_child at 1.
    rewrite (proj2 (refers_Some _ _) Hd). simpl.
    assert (forallb (λ c, negb (bool_decide (ch_parent c = id ∧ ch_position c = i)))
      (tget (Table := t) d) = true) as ->.
    { apply Is_true_true, forallb_True, Forall_forall. intros c Hc.
      rewrite Forall_forall in Hl. specialize (Hl c Hc).
      rewrite bool_decide_false by (intros [Hp Hq]; specialize (Hl Hp); lia). done. }
    rewrite IH.
    + rewrite tget_tset, tset_tset. by rewrite <-app_assoc.
    + by rewrite Hpar.
    + rewrite tget_tset, Forall_app. split.
      * eapply Forall_impl; [exact Hl|]. simpl; intros c Hc Hp. specialize (Hc Hp); lia.
      * constructor; [|constructor]. intros _. unfold ch_position; simpl; lia.
Qed.

(** The whole replacement: delete, then insert in order. *)
Definition replace_children {A R} (t : Table (list (child A))) (par : db → gmap string R)
    (op id : string) (vs : list A) : Tx () :=
  delete_children t id ≫= λ _, st_range 0 vs (insert_child t par op id).

Lemma replace_children_run {A R} (t : Table (list (child A))) (par : db → gmap string R)
    op id (Hpar : ∀ x d, par (tset (Table := t) x d) = par d) (vs : list A) d :
  is_Some (par d !! id) →
  replace_children t par op id vs d =
    (Ok (), tset (Table := t)
      (filter (λ c, ch_parent c ≠ id) (tget (Table := t) d) ++ number id 0 vs) d).
Proof.
  intros Hd. unfold replace_children, mbind, ST_bind, delete_children, st_modify.
  rewrite (range_insert_child t par op id Hpar).
  - by rewrite tget_tset, tset_tset.
  - by rewrite Hpar.
  - rewrite tget_tset. apply Forall_forall. intros c [Hc _]%list_elem_of_filter. congruence.
Qed.

(** ** The contract of a Put/Get pair *)

(** [put e] stores [e] under its id; [get] reads an entity back. [canon prev e]
    is what a reader sees after [put e] when it read [prev] before: timestamps
    at the store's millisecond precision, and the columns the upsert does not
    overwrite taken from [prev]. *)
Class EntityStore (E : Type) : Type := {
  es_id : E → string;
  es_put : E → Tx ();
  es_get : string → db → result rerr E;
  es_canon : option E → E → E
}.

Definition to_option {E A} (r : result E A) : option A :=
  match r with Ok a => Some a | Err _ => None end.

Class EntityLaws (E : Type) `{EntityStore E} : Prop := {
  es_read_back : ∀ (e : E) d, (es_put e d).1 = Ok () →
    es_get (es_id e) (es_put e d).2 = Ok (es_canon (to_option (es_get (es_id e) d)) e);
  es_frame : ∀ (e : E) d id, id ≠ es_id e → es_get id (es_put e d).2 = es_get id d;
  es_atomic : ∀ (e : E) d x, (es_put e d).1 = Err x → (es_put e d).2 = d
}.

(** ** Entities stored in one row

    Most entities are one row: [Put] validates and upserts, [Get] decodes. Their
    contract follows from one equation between [dec], [enc] and [canon]. *)
Section one_row.
Context {E R : Type} (t : Table (gmap string R)) (op what : string)
  (merge : R → R → R) (ok : db → string → R → bool)
  (chk : E → result rerr ()) (idf : E → string)
  (enc : E → R) (dec : string → R → E) (canon : option E → E → E).

Definition row_put (e : E) : Tx () :=
  st_lift (chk e) ;; upsert t op merge ok (idf e) (enc e).

Definition row_get (id : string) (d : db) : result rerr E :=
  match tget (Table := t) d !! id with
  | None => Err (ErrNotFound what id)
  | Some r => Ok (dec id r)
  end.

Definition row_store : EntityStore E :=
  {| es_id := idf; es_put := row_put; es_get := row_get; es_canon := canon |}.

Lemma row_put_Ok e d : (row_put e d).1 = Ok () →
  chk e = Ok () ∧
  let row := upsert_row merge (tget (Table := t) d !! idf e) (enc e) in
  let d' := tset (Table := t) (<[idf e:=row]> (tget (Table := t) d)) d in
  ok d' (idf e) row = true ∧ row_put e d = (Ok (), d').
Proof.
  unfold row_put, mbind, ST_bind, st_lift. destruct (chk e) as [[]|]; [|done].
  unfold upsert; simpl. by destruct (ok _ _ _) eqn:Eok.
Qed.

Lemma row_laws :
  (∀ e old, dec (idf e) (upsert_row merge old (enc e)) = canon (dec (idf e) <$> old) e) →
  @EntityLaws E row_store.
Proof.
  intros Hdec. split; simpl.
  - intros e d (_ & _ & ->)%row_put_Ok; simpl. unfold row_get.
    rewrite tget_tset, lookup_insert_eq, Hdec.
    by destruct (tget d !! idf e).
  - intros e d id Hne. unfold row_put, mbind, ST_bind, st_lift.
    destruct (chk e) as [[]|]; [|done]. unfold upsert; simpl.
    destruct (ok _ _ _); simpl; [|done]. unfold row_get.
    by rewrite tget_tset, lookup_insert_ne.
  - intros e d x. unfold row_put, mbind, ST_bind, st_lift.
    destruct (chk e) as [[]|]; [|by intros [= <-]]. unfold upsert; simpl.
    by destruct (ok _ _ _).
Qed.
End one_row.

(** A timestamp as the store returns it. *)
Definition round_ms (t : time) : time := timeFromMS (ms t).
