(* ===== verification/EntityOps.v ===== *)
(** * Projects, sessions and provider sessions

    [src/internal/runtime/entities_ops.go]: the querier-level putters and
    getters. The [Tx] and [Store] wrappers of the same names apply them to the
    transaction's and to the store's handle; both are the function itself here,
    since [Tx] computations and reads take the database as an argument. *)

From S2P Require Import Prelude Entities Schema Statements.
Open Scope Z_scope.

(** ** Projects *)

Definition putProject (p : Project) : Tx () :=
  st_lift (checkID (Project_ID p) idProject) ;;
  upsert projects_t "put project"
    (λ old new, {| prj_name := prj_name new; prj_created_at := prj_created_at old;
                   prj_updated_at := prj_updated_at new |})
    (λ _ _ _, true) (Project_ID p)
    {| prj_name := Project_Name p; prj_created_at := ms (Project_CreatedAt p);
       prj_updated_at := ms (Project_UpdatedAt p) |} ;;
  replace_children project_roots_t projects "put project root" (Project_ID p)
    ((λ r, {| root_path := Root_Path r; root_writable := boolInt (Root_Writable r) |})
       <$> Project_Roots p) ;;
  replace_children project_sensitive_paths_t projects "put project sensitive path"
    (Project_ID p) (Project_SensitivePaths p).

(** [orderedText] is [select_children] on a text column. *)
Definition orderedText (l : list (child string)) (id : string) : list string :=
  select_children l id.

Definition getProject (id : string) (d : db) : result rerr Project :=
  match projects d !! id with
  | None => Err (ErrNotFound "project" id)
  | Some r => Ok {|
      Project_ID := id;
      Project_Name := prj_name r;
      Project_Roots := (λ rr, {| Root_Path := root_path rr;
        Root_Writable := intBool (root_writable rr) |}) <$> select_children (project_roots d) id;
      Project_SensitivePaths := orderedText (project_sensitive_paths d) id;
      Project_CreatedAt := timeFromMS (prj_created_at r);
      Project_UpdatedAt := timeFromMS (prj_updated_at r) |}
  end.

Definition canonProject (prev : option Project) (p : Project) : Project := {|
  Project_ID := Project_ID p;
  Project_Name := Project_Name p;
  Project_Roots := Project_Roots p;
  Project_SensitivePaths := Project_SensitivePaths p;
  Project_CreatedAt := default (round_ms (Project_CreatedAt p)) (Project_CreatedAt <$> prev);
  Project_UpdatedAt := round_ms (Project_UpdatedAt p)
|}.

#[export] Instance Project_store : EntityStore Project :=
  {| es_id := Project_ID; es_put := putProject; es_get := getProject; es_canon := canonProject |}.

(** ** Sessions *)

Definition session_row (s : Session) : SessionRow := {|
  ses_project_id := nullText (Session_ProjectID s);
  ses_title := Session_Title s;
  ses_caller_class := Session_CallerClass s;
  ses_external_conversation := Session_ExternalConversation s;
  ses_status := Session_Status s;
  ses_created_at := ms (Session_CreatedAt s);
  ses_updated_at := ms (Session_UpdatedAt s)
|}.

Definition putSession (s : Session) : Tx () :=
  st_lift (checkID (Session_ID s) idSession) ;;
  upsert sessions_t "put session"
    (λ old new, {| ses_project_id := ses_project_id new; ses_title := ses_title new;
       ses_caller_class := ses_caller_class new;
       ses_external_conversation := ses_external_conversation new;
       ses_status := ses_status new; ses_created_at := ses_created_at old;
       ses_updated_at := ses_updated_at new |})
    (λ d _ r, sessions_check r && sessions_fk d r) (Session_ID s) (session_row s).

Definition scanSession (id : string) (r : SessionRow) : Session := {|
  Session_ID := id;
  Session_ProjectID := text (ses_project_id r);
  Session_Title := ses_title r;
  Session_CallerClass := ses_caller_class r;
  Session_ExternalConversation := ses_external_conversation r;
  Session_Status := ses_status r;
  Session_CreatedAt := timeFromMS (ses_created_at r);
  Session_UpdatedAt := timeFromMS (ses_updated_at r)
|}.

Definition getSession (id : string) (d : db) : result rerr Session :=
  match sessions d !! id with
  | None => Err (ErrNotFound "session" id)
  | Some r => Ok (scanSession id r)
  end.

Definition canonSession (prev : option Session) (s : Session) : Session := {|
  Session_ID := Session_ID s;
  Session_ProjectID := Session_ProjectID s;
  Session_Title := Session_Title s;
  Session_CallerClass := Session_CallerClass s;
  Session_ExternalConversation := Session_ExternalConversation s;
  Session_Status := Session_Status s;
  Session_CreatedAt := default (round_ms (Session_CreatedAt s)) (Session_CreatedAt <$> prev);
  Session_UpdatedAt := round_ms (Session_UpdatedAt s)
|}.

#[export] Instance Session_store : EntityStore Session :=
  {| es_id := Session_ID; es_put := putSession; es_get := getSession; es_canon := canonSession |}.

(** ** Provider sessions *)

Definition provider_session_row (p : ProviderSession) : ProviderSessionRow := {|
  psn_provider := PSession_Provider p;
  psn_native_id := PSession_NativeID p;
  psn_locator := PSession_Locator p;
  psn_project_id := nullText (PSession_ProjectID p);
  psn_can_resume := boolInt (PSession_CanResume p);
  psn_can_history := boolInt (PSession_CanHistory p);
  psn_created_at := ms (PSession_CreatedAt p);
  psn_updated_at := ms (PSession_UpdatedAt p)
|}.

Definition putProviderSession (p : ProviderSession) : Tx () :=
  st_lift (checkID (PSession_ID p) idProviderSession) ;;
  upsert provider_sessions_t "put provider session"
    (λ old new, {| psn_provider := psn_provider new; psn_native_id := psn_native_id new;
       psn_locator := psn_locator new; psn_project_id := psn_project_id new;
       psn_can_resume := psn_can_resume new; psn_can_history := psn_can_history new;
       psn_created_at := psn_created_at old; psn_updated_at := psn_updated_at new |})
    (λ d id r, provider_sessions_fk d r && idx_free provider_native (provider_sessions d) id r)
    (PSession_ID p) (provider_session_row p).

Definition provider_session_entity (id : string) (r : ProviderSessionRow) : ProviderSession := {|
  PSession_ID := id;
  PSession_Provider := psn_provider r;
  PSession_NativeID := psn_native_id r;
  PSession_Locator := psn_locator r;
  PSession_ProjectID := text (psn_project_id r);
  PSession_CanResume := intBool (psn_can_resume r);
  PSession_CanHistory := intBool (psn_can_history r);
  PSession_CreatedAt := timeFromMS (psn_created_at r);
  PSession_UpdatedAt := timeFromMS (psn_updated_at r)
|}.

Definition getProviderSession (id : string) (d : db) : result rerr ProviderSession :=
  match provider_sessions d !! id with
  | None => Err (ErrNotFound "provider session" id)
  | Some r => Ok (provider_session_entity id r)
  end.

Definition canonProviderSession (prev : option ProviderSession) (p : ProviderSession) :
    ProviderSession := {|
  PSession_ID := PSession_ID p;
  PSession_Provider := PSession_Provider p;
  PSession_NativeID := PSession_NativeID p;
  PSession_Locator := PSession_Locator p;
  PSession_ProjectID := PSession_ProjectID p;
  PSession_CanResume := PSession_CanResume p;
  PSession_CanHistory := PSession_CanHistory p;
  PSession_CreatedAt := default (round_ms (PSession_CreatedAt p)) (PSession_CreatedAt <$> prev);
  PSession_UpdatedAt := round_ms (PSession_UpdatedAt p)
|}.

#[export] Instance ProviderSession_store : EntityStore ProviderSession :=
  {| es_id := PSession_ID; es_put := putProviderSession; es_get := getProviderSession;
     es_canon := canonProviderSession |}.

(** ** Contracts *)

(** The row encodings cancel in the decodings. *)
Ltac row_canon :=
  intros ? [?|]; cbv -[ms timeFromMS text nullText intBool boolInt String.append];
  rewrite ?text_nullText, ?intBool_boolInt; reflexivity.

#[export] Instance Session_laws : EntityLaws Session.
Proof. apply row_laws. row_canon. Qed.

#[export] Instance ProviderSession_laws : EntityLaws ProviderSession.
Proof. apply row_laws. row_canon. Qed.

(** [putProject] on a checked id always succeeds: the row upsert has no
    constraint, and the lists are renumbered after their rows are deleted. *)
Lemma putProject_run p d : checkID (Project_ID p) idProject = Ok () → ∃ r,
  prj_name r = Project_Name p ∧
  prj_updated_at r = ms (Project_UpdatedAt p) ∧
  prj_created_at r = default (ms (Project_CreatedAt p))
    (prj_created_at <$> projects d !! Project_ID p) ∧
  putProject p d = (Ok (),
    set_project_sensitive_paths
      (filter (λ c, ch_parent c ≠ Project_ID p) (project_sensitive_paths d) ++
       number (Project_ID p) 0 (Project_SensitivePaths p))
    (set_project_roots
      (filter (λ c, ch_parent c ≠ Project_ID p) (project_roots d) ++
       number (Project_ID p) 0
         ((λ r, {| root_path := Root_Path r; root_writable := boolInt (Root_Writable r) |})
            <$> Project_Roots p))
    (set_projects (<[Project_ID p := r]> (projects d)) d))).
Proof.
  intros Hid. unfold putProject, mbind, ST_bind, st_lift. rewrite Hid.
  unfold upsert; simpl.
  rewrite (replace_children_run project_roots_t projects); simpl;
    [|done|rewrite lookup_insert_eq; eauto].
  rewrite (replace_children_run project_sensitive_paths_t projects); simpl;
    [|done|rewrite lookup_insert_eq; eauto].
  eexists; split_and!; [..|reflexivity]; by destruct (projects d !! Project_ID p).
Qed.

#[export] Instance Project_laws : EntityLaws Project.
Proof.
  split; simpl.
  - intros p d Hp. assert (Hid : checkID (Project_ID p) idProject = Ok ()).
    { unfold putProject, mbind, ST_bind, st_lift in Hp.
      by destruct (checkID _ _) as [[]|]. }
    destruct (putProject_run p d Hid) as (r & Hn & Hu & Hc & ->); simpl.
    unfold getProject; simpl. rewrite lookup_insert_eq. unfold orderedText.
    rewrite !select_children_same, Hn, Hu, Hc. unfold canonProject; do 2 f_equal.
    + rewrite <-list_fmap_compose. rewrite <-(list_fmap_id (Project_Roots p)) at 2.
      apply list_fmap_ext. intros _ [??] _; simpl. by rewrite intBool_boolInt.
    + by destruct (projects d !! Project_ID p).
  - intros p d id Hne. destruct (checkID (Project_ID p) idProject) as [[]|x] eqn:Hid.
    + destruct (putProject_run p d Hid) as (r & _ & _ & _ & ->); simpl.
      unfold getProject, orderedText; simpl.
      rewrite lookup_insert_ne by done. destruct (projects d !! id); [|done].
      by rewrite !select_children_other.
    + unfold putProject, mbind, ST_bind, st_lift. by rewrite Hid.
  - intros p d x. destruct (checkID (Project_ID p) idProject) as [[]|y] eqn:Hid.
    + by destruct (putProject_run p d Hid) as (r & _ & _ & _ & ->).
    + unfold putProject, mbind, ST_bind, st_lift. by rewrite Hid.
Qed.
