(* ===== verification/RunOps.v ===== *)
(** * Runs and computer sessions

    [src/internal/runtime/runs_ops.go]: the putters and getters of the two
    entities with a state machine. *)

From S2P Require Import Prelude Entities Schema Statements.
Open Scope Z_scope.

(** ** Runs *)

Definition run_row (r : Run) : RunRow := {|
  run_session_id := Run_SessionID r;
  run_project_id := nullText (Run_ProjectID r);
  run_kind := Run_Kind r;
  run_provider := Run_Provider r;
  run_model := Run_Model r;
  run_autonomy := Run_Autonomy r;
  run_role := Run_Role r;
  run_parent_run_id := nullText (Run_ParentRunID r);
  run_continues_run_id := nullText (Run_ContinuesRunID r);
  run_provider_session_id := nullText (Run_ProviderSessionID r);
  run_status := Run_Status r;
  run_process_pid := Run_ProcessPID r;
  run_process_started_at := ms (Run_ProcessStartedAt r);
  run_process_group_id := Run_ProcessGroupID r;
  run_output_ref := Run_OutputRef r;
  run_error_category := Run_ErrorCategory r;
  run_last_seq := Run_LastSeq r;
  run_created_at := ms (Run_CreatedAt r);
  run_started_at := ms (Run_StartedAt r);
  run_finished_at := ms (Run_FinishedAt r)
|}.

(** The DO UPDATE of [putRun]: [last_seq] and [created_at] keep their values. *)
Definition run_update (old new : RunRow) : RunRow := {|
  run_session_id := run_session_id new;
  run_project_id := run_project_id new;
  run_kind := run_kind new;
  run_provider := run_provider new;
  run_model := run_model new;
  run_autonomy := run_autonomy new;
  run_role := run_role new;
  run_parent_run_id := run_parent_run_id new;
  run_continues_run_id := run_continues_run_id new;
  run_provider_session_id := run_provider_session_id new;
  run_status := run_status new;
  run_process_pid := run_process_pid new;
  run_process_started_at := run_process_started_at new;
  run_process_group_id := run_process_group_id new;
  run_output_ref := run_output_ref new;
  run_error_category := run_error_category new;
  run_last_seq := run_last_seq old;
  run_created_at := run_created_at old;
  run_started_at := run_started_at new;
  run_finished_at := run_finished_at new
|}.

(** The constraints a stored run row satisfies. *)
Definition run_ok (d : db) (id : string) (r : RunRow) : bool :=
  runs_check r && runs_fk d r && idx_free active_provider_session (runs d) id r.

Definition putRun (r : Run) : Tx () :=
  st_lift (checkID (Run_ID r) idRun) ;;
  upsert runs_t "put run" run_update run_ok (Run_ID r) (run_row r).

Definition scanRun (id : string) (r : RunRow) : Run := {|
  Run_ID := id;
  Run_SessionID := run_session_id r;
  Run_ProjectID := text (run_project_id r);
  Run_Kind := run_kind r;
  Run_Provider := run_provider r;
  Run_Model := run_model r;
  Run_Autonomy := run_autonomy r;
  Run_Role := run_role r;
  Run_ParentRunID := text (run_parent_run_id r);
  Run_ContinuesRunID := text (run_continues_run_id r);
  Run_ProviderSessionID := text (run_provider_session_id r);
  Run_Status := run_status r;
  Run_ProcessPID := run_process_pid r;
  Run_ProcessStartedAt := timeFromMS (run_process_started_at r);
  Run_ProcessGroupID := run_process_group_id r;
  Run_OutputRef := run_output_ref r;
  Run_ErrorCategory := run_error_category r;
  Run_LastSeq := run_last_seq r;
  Run_CreatedAt := timeFromMS (run_created_at r);
  Run_StartedAt := timeFromMS (run_started_at r);
  Run_FinishedAt := timeFromMS (run_finished_at r)
|}.

Definition getRun (id : string) (d : db) : result rerr Run :=
  match runs d !! id with
  | None => Err (ErrNotFound "run" id)
  | Some r => Ok (scanRun id r)
  end.

Definition canonRun (prev : option Run) (r : Run) : Run := {|
  Run_ID := Run_ID r;
  Run_SessionID := Run_SessionID r;
  Run_ProjectID := Run_ProjectID r;
  Run_Kind := Run_Kind r;
  Run_Provider := Run_Provider r;
  Run_Model := Run_Model r;
  Run_Autonomy := Run_Autonomy r;
  Run_Role := Run_Role r;
  Run_ParentRunID := Run_ParentRunID r;
  Run_ContinuesRunID := Run_ContinuesRunID r;
  Run_ProviderSessionID := Run_ProviderSessionID r;
  Run_Status := Run_Status r;
  Run_ProcessPID := Run_ProcessPID r;
  Run_ProcessStartedAt := round_ms (Run_ProcessStartedAt r);
  Run_ProcessGroupID := Run_ProcessGroupID r;
  Run_OutputRef := Run_OutputRef r;
  Run_ErrorCategory := Run_ErrorCategory r;
  Run_LastSeq := default (Run_LastSeq r) (Run_LastSeq <$> prev);
  Run_CreatedAt := default (round_ms (Run_CreatedAt r)) (Run_CreatedAt <$> prev);
  Run_StartedAt := round_ms (Run_StartedAt r);
  Run_FinishedAt := round_ms (Run_FinishedAt r)
|}.

#[export] Instance Run_store : EntityStore Run :=
  {| es_id := Run_ID; es_put := putRun; es_get := getRun; es_canon := canonRun |}.

(** ** Computer sessions *)

Definition computer_session_row (c : ComputerSession) : ComputerSessionRow := {|
  cmp_session_id := CSession_SessionID c;
  cmp_run_id := nullText (CSession_RunID c);
  cmp_target := CSession_Target c;
  cmp_state := CSession_State c;
  cmp_controller_kind := Controller_Kind (CSession_Controller c);
  cmp_controller_holder := Controller_Holder (CSession_Controller c);
  cmp_controller_channel := Controller_Channel (CSession_Controller c);
  cmp_controller_epoch := CSession_ControllerEpoch c;
  cmp_arbiter_instance := CSession_ArbiterInstance c;
  cmp_lease_holder := CSession_LeaseHolder c;
  cmp_lease_expires_at := ms (CSession_LeaseExpiresAt c);
  cmp_can_observe := boolInt (CSession_CanObserve c);
  cmp_can_input := boolInt (CSession_CanInput c);
  cmp_can_preview := boolInt (CSession_CanPreview c);
  cmp_last_frame_id := CSession_LastFrameID c;
  cmp_geometry_generation := CSession_GeometryGeneration c;
  cmp_created_at := ms (CSession_CreatedAt c);
  cmp_updated_at := ms (CSession_UpdatedAt c)
|}.

(** The DO UPDATE of [putComputerSession]: all but [created_at]. *)
Definition computer_session_update (old new : ComputerSessionRow) : ComputerSessionRow := {|
  cmp_session_id := cmp_session_id new;
  cmp_run_id := cmp_run_id new;
  cmp_target := cmp_target new;
  cmp_state := cmp_state new;
  cmp_controller_kind := cmp_controller_kind new;
  cmp_controller_holder := cmp_controller_holder new;
  cmp_controller_channel := cmp_controller_channel new;
  cmp_controller_epoch := cmp_controller_epoch new;
  cmp_arbiter_instance := cmp_arbiter_instance new;
  cmp_lease_holder := cmp_lease_holder new;
  cmp_lease_expires_at := cmp_lease_expires_at new;
  cmp_can_observe := cmp_can_observe new;
  cmp_can_input := cmp_can_input new;
  cmp_can_preview := cmp_can_preview new;
  cmp_last_frame_id := cmp_last_frame_id new;
  cmp_geometry_generation := cmp_geometry_generation new;
  cmp_created_at := cmp_created_at old;
  cmp_updated_at := cmp_updated_at new
|}.

Definition computer_session_ok (d : db) (_ : string) (r : ComputerSessionRow) : bool :=
  computer_sessions_check r && computer_sessions_fk d r.

Definition putComputerSession (c : ComputerSession) : Tx () :=
  st_lift (checkID (CSession_ID c) idComputerSession) ;;
  upsert computer_sessions_t "put computer session" computer_session_update
    computer_session_ok (CSession_ID c) (computer_session_row c) ;;
  replace_children computer_session_verbs_t computer_sessions "put computer session verb"
    (CSession_ID c) (CSession_GrantedVerbs c) ;;
  replace_children computer_session_apps_t computer_sessions
    "put computer session app selector" (CSession_ID c) (CSession_AppSelectors c).

Definition computer_session_entity (id : string) (r : ComputerSessionRow)
    (verbs apps : list string) : ComputerSession := {|
  CSession_ID := id;
  CSession_SessionID := cmp_session_id r;
  CSession_RunID := text (cmp_run_id r);
  CSession_Target := cmp_target r;
  CSession_State := cmp_state r;
  CSession_Controller := {|
    Controller_Kind := cmp_controller_kind r;
    Controller_Holder := cmp_controller_holder r;
    Controller_Channel := cmp_controller_channel r |};
  CSession_ControllerEpoch := cmp_controller_epoch r;
  CSession_ArbiterInstance := cmp_arbiter_instance r;
  CSession_LeaseHolder := cmp_lease_holder r;
  CSession_LeaseExpiresAt := timeFromMS (cmp_lease_expires_at r);
  CSession_CanObserve := intBool (cmp_can_observe r);
  CSession_CanInput := intBool (cmp_can_input r);
  CSession_CanPreview := intBool (cmp_can_preview r);
  CSession_GrantedVerbs := verbs;
  CSession_AppSelectors := apps;
  CSession_LastFrameID := cmp_last_frame_id r;
  CSession_GeometryGeneration := cmp_geometry_generation r;
  CSession_CreatedAt := timeFromMS (cmp_created_at r);
  CSession_UpdatedAt := timeFromMS (cmp_updated_at r)
|}.

Definition getComputerSession (id : string) (d : db) : result rerr ComputerSession :=
  match computer_sessions d !! id with
  | None => Err (ErrNotFound "computer session" id)
  | Some r => Ok (computer_session_entity id r
      (select_children (computer_session_verbs d) id)
      (select_children (computer_session_apps d) id))
  end.

Definition canonComputerSession (prev : option ComputerSession) (c : ComputerSession) :
    ComputerSession := {|
  CSession_ID := CSession_ID c;
  CSession_SessionID := CSession_SessionID c;
  CSession_RunID := CSession_RunID c;
  CSession_Target := CSession_Target c;
  CSession_State := CSession_State c;
  CSession_Controller := CSession_Controller c;
  CSession_ControllerEpoch := CSession_ControllerEpoch c;
  CSession_ArbiterInstance := CSession_ArbiterInstance c;
  CSession_LeaseHolder := CSession_LeaseHolder c;
  CSession_LeaseExpiresAt := round_ms (CSession_LeaseExpiresAt c);
  CSession_CanObserve := CSession_CanObserve c;
  CSession_CanInput := CSession_CanInput c;
  CSession_CanPreview := CSession_CanPreview c;
  CSession_GrantedVerbs := CSession_GrantedVerbs c;
  CSession_AppSelectors := CSession_AppSelectors c;
  CSession_LastFrameID := CSession_LastFrameID c;
  CSession_GeometryGeneration := CSession_GeometryGeneration c;
  CSession_CreatedAt := default (round_ms (CSession_CreatedAt c)) (CSession_CreatedAt <$> prev);
  CSession_UpdatedAt := round_ms (CSession_UpdatedAt c)
|}.

#[export] Instance ComputerSession_store : EntityStore ComputerSession :=
  {| es_id := CSession_ID; es_put := putComputerSession; es_get := getComputerSession;
     es_canon := canonComputerSession |}.

(** ** Contracts *)

Lemma scanRun_upsert r old :
  scanRun (Run_ID r) (upsert_row run_update old (run_row r)) =
  canonRun (scanRun (Run_ID r) <$> old) r.
Proof.
  destruct old as [o|]; cbv -[ms timeFromMS text nullText];
    by rewrite !text_nullText.
Qed.

#[export] Instance Run_laws : EntityLaws Run.
Proof. apply row_laws. intros; apply scanRun_upsert. Qed.

(** [putRun] either stores the upserted row or changes nothing. *)
Lemma putRun_cases r d :
  let row := upsert_row run_update (runs d !! Run_ID r) (run_row r) in
  let d' := set_runs (<[Run_ID r := row]> (runs d)) d in
  (putRun r d = (Ok (), d') ∧ checkID (Run_ID r) idRun = Ok () ∧ run_ok d' (Run_ID r) row = true)
  ∨ (∃ x, putRun r d = (Err x, d)).
Proof.
  unfold putRun, mbind, ST_bind, st_lift. destruct (checkID _ _) as [[]|x]; [|by eauto].
  unfold upsert; simpl. destruct (run_ok _ _ _) eqn:Hok; [left; split_and!; done|right; eauto].
Qed.

Lemma putRun_accepted r d row :
  row = upsert_row run_update (runs d !! Run_ID r) (run_row r) →
  checkID (Run_ID r) idRun = Ok () →
  run_ok (set_runs (<[Run_ID r := row]> (runs d)) d) (Run_ID r) row = true →
  putRun r d = (Ok (), set_runs (<[Run_ID r := row]> (runs d)) d).
Proof.
  intros -> Hid Hok. unfold putRun, mbind, ST_bind, st_lift. rewrite Hid.
  unfold upsert; cbn [tget tset runs_t]. by rewrite Hok.
Qed.

(** The database after an accepted [putComputerSession]. *)
Definition computer_session_written (c : ComputerSession) (row : ComputerSessionRow) (d : db) : db :=
  set_computer_session_apps
    (filter (λ x, ch_parent x ≠ CSession_ID c) (computer_session_apps d) ++
     number (CSession_ID c) 0 (CSession_AppSelectors c))
  (set_computer_session_verbs
    (filter (λ x, ch_parent x ≠ CSession_ID c) (computer_session_verbs d) ++
     number (CSession_ID c) 0 (CSession_GrantedVerbs c))
  (set_computer_sessions (<[CSession_ID c := row]> (computer_sessions d)) d)).

Lemma putComputerSession_accepted c d row :
  row = upsert_row computer_session_update (computer_sessions d !! CSession_ID c)
          (computer_session_row c) →
  checkID (CSession_ID c) idComputerSession = Ok () →
  computer_session_ok (set_computer_sessions
    (<[CSession_ID c := row]> (computer_sessions d)) d) (CSession_ID c) row = true →
  putComputerSession c d = (Ok (), computer_session_written c row d).
Proof.
  intros -> Hid Hok. unfold putComputerSession, mbind, ST_bind, st_lift. rewrite Hid.
  unfold upsert; cbn [tget tset computer_sessions_t]. rewrite Hok.
  rewrite (replace_children_run computer_session_verbs_t computer_sessions); simpl;
    [|done|rewrite lookup_insert_eq; eauto].
  rewrite (replace_children_run computer_session_apps_t computer_sessions); simpl;
    [done|done|rewrite lookup_insert_eq; eauto].
Qed.

Lemma putComputerSession_run c d :
  (∃ x, putComputerSession c d = (Err x, d)) ∨
  ∃ row, row = upsert_row computer_session_update (computer_sessions d !! CSession_ID c)
                 (computer_session_row c) ∧
  checkID (CSession_ID c) idComputerSession = Ok () ∧
  computer_session_ok (set_computer_sessions
    (<[CSession_ID c := row]> (computer_sessions d)) d) (CSession_ID c) row = true ∧
  putComputerSession c d = (Ok (), computer_session_written c row d).
Proof.
  set (row := upsert_row _ _ _).
  destruct (checkID (CSession_ID c) idComputerSession) as [[]|x] eqn:Hid;
    [destruct (computer_session_ok (set_computer_sessions
       (<[CSession_ID c := row]> (computer_sessions d)) d) (CSession_ID c) row) eqn:Hok|].
  - right. exists row. split_and!; [done..|by apply putComputerSession_accepted].
  - left. unfold putComputerSession, mbind, ST_bind, st_lift. rewrite Hid.
    unfold upsert; cbn [tget tset computer_sessions_t]. fold row. rewrite Hok. eauto.
  - left. unfold putComputerSession, mbind, ST_bind, st_lift. rewrite Hid. eauto.
Qed.

Lemma computer_session_canon c old verbs apps :
  computer_session_entity (CSession_ID c)
    (upsert_row computer_session_update old (computer_session_row c))
    (CSession_GrantedVerbs c) (CSession_AppSelectors c) =
  canonComputerSession ((λ r, computer_session_entity (CSession_ID c) r verbs apps) <$> old) c.
Proof.
  destruct old as [o|]; cbv -[ms timeFromMS text nullText intBool boolInt];
    rewrite text_nullText, !intBool_boolInt; by destruct c as [?????[]].
Qed.

#[export] Instance ComputerSession_laws : EntityLaws ComputerSession.
Proof.
  split; simpl.
  - intros c d. destruct (putComputerSession_run c d)
      as [[x ->]|(row & Hrow & _ & _ & ->)]; [done|intros _; simpl].
    unfold getComputerSession; simpl. rewrite lookup_insert_eq, !select_children_same. subst.
    rewrite (computer_session_canon c _ (select_children (computer_session_verbs d) (CSession_ID c))
      (select_children (computer_session_apps d) (CSession_ID c))).
    by destruct (computer_sessions d !! CSession_ID c).
  - intros c d id Hne. destruct (putComputerSession_run c d)
      as [[x ->]|(row & Hrow & _ & _ & ->)]; [done|simpl].
    unfold getComputerSession; simpl. rewrite lookup_insert_ne by done.
    destruct (computer_sessions d !! id); [|done]. by rewrite !select_children_other.
  - intros c d x. destruct (putComputerSession_run c d)
      as [[y ->]|(row & _ & _ & _ & ->)]; by simpl.
Qed.
