(* ===== verification/PolicyOps.v ===== *)
(** * Artifacts, policy rules, grants and approvals

    [src/internal/runtime/policy_ops.go]. *)

From S2P Require Import Prelude Entities Schema Statements EntityOps.
Open Scope Z_scope.

(** ** Artifacts *)

Definition artifact_row (a : Artifact) : ArtifactRow := {|
  art_producer_kind := Artifact_ProducerKind a;
  art_producer_id := Artifact_ProducerID a;
  art_kind := Artifact_Kind a;
  art_reference := Artifact_Reference a;
  art_digest := Artifact_Digest a;
  art_size_bytes := Artifact_SizeBytes a;
  art_sensitivity := Artifact_Sensitivity a;
  art_retention := Artifact_Retention a;
  art_created_at := ms (Artifact_CreatedAt a)
|}.

Definition artifact_update (old new : ArtifactRow) : ArtifactRow := {|
  art_producer_kind := art_producer_kind new;
  art_producer_id := art_producer_id new;
  art_kind := art_kind new;
  art_reference := art_reference new;
  art_digest := art_digest new;
  art_size_bytes := art_size_bytes new;
  art_sensitivity := art_sensitivity new;
  art_retention := art_retention new;
  art_created_at := art_created_at old
|}.

Definition putArtifact (a : Artifact) : Tx () :=
  st_lift (checkID (Artifact_ID a) idArtifact) ;;
  upsert artifacts_t "put artifact" artifact_update (λ _ _ r, artifacts_check r)
    (Artifact_ID a) (artifact_row a).

Definition artifact_entity (id : string) (r : ArtifactRow) : Artifact := {|
  Artifact_ID := id;
  Artifact_ProducerKind := art_producer_kind r;
  Artifact_ProducerID := art_producer_id r;
  Artifact_Kind := art_kind r;
  Artifact_Reference := art_reference r;
  Artifact_Digest := art_digest r;
  Artifact_SizeBytes := art_size_bytes r;
  Artifact_Sensitivity := art_sensitivity r;
  Artifact_Retention := art_retention r;
  Artifact_CreatedAt := timeFromMS (art_created_at r)
|}.

Definition getArtifact (id : string) (d : db) : result rerr Artifact :=
  match artifacts d !! id with
  | None => Err (ErrNotFound "artifact" id)
  | Some r => Ok (artifact_entity id r)
  end.

Definition canonArtifact (prev : option Artifact) (a : Artifact) : Artifact := {|
  Artifact_ID := Artifact_ID a;
  Artifact_ProducerKind := Artifact_ProducerKind a;
  Artifact_ProducerID := Artifact_ProducerID a;
  Artifact_Kind := Artifact_Kind a;
  Artifact_Reference := Artifact_Reference a;
  Artifact_Digest := Artifact_Digest a;
  Artifact_SizeBytes := Artifact_SizeBytes a;
  Artifact_Sensitivity := Artifact_Sensitivity a;
  Artifact_Retention := Artifact_Retention a;
  Artifact_CreatedAt := default (round_ms (Artifact_CreatedAt a)) (Artifact_CreatedAt <$> prev)
|}.

#[export] Instance Artifact_store : EntityStore Artifact :=
  {| es_id := Artifact_ID; es_put := putArtifact; es_get := getArtifact;
     es_canon := canonArtifact |}.

(** ** Policy rules *)

Definition policy_rule_row (r : PolicyRule) : PolicyRuleRow := {|
  rule_effect := Rule_Effect r;
  rule_verb := Rule_Verb r;
  rule_selector := Rule_Selector r;
  rule_created_at := ms (Rule_CreatedAt r);
  rule_updated_at := ms (Rule_UpdatedAt r)
|}.

Definition putPolicyRule (r : PolicyRule) : Tx () :=
  st_lift (requireText "policy rule id" (Rule_ID r)) ;;
  upsert policy_rules_t "put policy rule"
    (λ old new, {| rule_effect := rule_effect new; rule_verb := rule_verb new;
       rule_selector := rule_selector new; rule_created_at := rule_created_at old;
       rule_updated_at := rule_updated_at new |})
    (λ _ _ r, policy_rules_check r) (Rule_ID r) (policy_rule_row r).

Definition policy_rule_entity (id : string) (r : PolicyRuleRow) : PolicyRule := {|
  Rule_ID := id;
  Rule_Effect := rule_effect r;
  Rule_Verb := rule_verb r;
  Rule_Selector := rule_selector r;
  Rule_CreatedAt := timeFromMS (rule_created_at r);
  Rule_UpdatedAt := timeFromMS (rule_updated_at r)
|}.

Definition getPolicyRule (id : string) (d : db) : result rerr PolicyRule :=
  match policy_rules d !! id with
  | None => Err (ErrNotFound "policy rule" id)
  | Some r => Ok (policy_rule_entity id r)
  end.

Definition canonPolicyRule (prev : option PolicyRule) (r : PolicyRule) : PolicyRule := {|
  Rule_ID := Rule_ID r;
  Rule_Effect := Rule_Effect r;
  Rule_Verb := Rule_Verb r;
  Rule_Selector := Rule_Selector r;
  Rule_CreatedAt := default (round_ms (Rule_CreatedAt r)) (Rule_CreatedAt <$> prev);
  Rule_UpdatedAt := round_ms (Rule_UpdatedAt r)
|}.

#[export] Instance PolicyRule_store : EntityStore PolicyRule :=
  {| es_id := Rule_ID; es_put := putPolicyRule; es_get := getPolicyRule;
     es_canon := canonPolicyRule |}.

(** ** Grants *)

Definition grant_row (g : Grant) : GrantRow := {|
  grt_verb := Grant_Verb g;
  grt_selector := Grant_Selector g;
  grt_scope := Grant_Scope g;
  grt_session_id := nullText (Grant_SessionID g);
  grt_project_id := nullText (Grant_ProjectID g);
  grt_run_id := nullText (Grant_RunID g);
  grt_approval_id := nullText (Grant_ApprovalID g);
  grt_channel := Grant_Channel g;
  grt_expires_at := ms (Grant_ExpiresAt g);
  grt_created_at := ms (Grant_CreatedAt g);
  grt_revoked_at := ms (Grant_RevokedAt g)
|}.

Definition grant_update (old new : GrantRow) : GrantRow := {|
  grt_verb := grt_verb new;
  grt_selector := grt_selector new;
  grt_scope := grt_scope new;
  grt_session_id := grt_session_id new;
  grt_project_id := grt_project_id new;
  grt_run_id := grt_run_id new;
  grt_approval_id := grt_approval_id new;
  grt_channel := grt_channel new;
  grt_expires_at := grt_expires_at new;
  grt_created_at := grt_created_at old;
  grt_revoked_at := grt_revoked_at new
|}.

Definition putGrant (g : Grant) : Tx () :=
  st_lift (requireText "grant id" (Grant_ID g)) ;;
  upsert grants_t "put grant" grant_update
    (λ d _ r, grants_check r && grants_fk d r) (Grant_ID g) (grant_row g).

Definition grant_entity (id : string) (r : GrantRow) : Grant := {|
  Grant_ID := id;
  Grant_Verb := grt_verb r;
  Grant_Selector := grt_selector r;
  Grant_Scope := grt_scope r;
  Grant_SessionID := text (grt_session_id r);
  Grant_ProjectID := text (grt_project_id r);
  Grant_RunID := text (grt_run_id r);
  Grant_ApprovalID := text (grt_approval_id r);
  Grant_Channel := grt_channel r;
  Grant_ExpiresAt := timeFromMS (grt_expires_at r);
  Grant_CreatedAt := timeFromMS (grt_created_at r);
  Grant_RevokedAt := timeFromMS (grt_revoked_at r)
|}.

Definition getGrant (id : string) (d : db) : result rerr Grant :=
  match grants d !! id with
  | None => Err (ErrNotFound "grant" id)
  | Some r => Ok (grant_entity id r)
  end.

Definition canonGrant (prev : option Grant) (g : Grant) : Grant := {|
  Grant_ID := Grant_ID g;
  Grant_Verb := Grant_Verb g;
  Grant_Selector := Grant_Selector g;
  Grant_Scope := Grant_Scope g;
  Grant_SessionID := Grant_SessionID g;
  Grant_ProjectID := Grant_ProjectID g;
  Grant_RunID := Grant_RunID g;
  Grant_ApprovalID := Grant_ApprovalID g;
  Grant_Channel := Grant_Channel g;
  Grant_ExpiresAt := round_ms (Grant_ExpiresAt g);
  Grant_CreatedAt := default (round_ms (Grant_CreatedAt g)) (Grant_CreatedAt <$> prev);
  Grant_RevokedAt := round_ms (Grant_RevokedAt g)
|}.

#[export] Instance Grant_store : EntityStore Grant :=
  {| es_id := Grant_ID; es_put := putGrant; es_get := getGrant; es_canon := canonGrant |}.

(** ** Approvals *)

Definition approval_row (a : Approval) : ApprovalRow := {|
  apv_run_id := nullText (Approval_RunID a);
  apv_session_id := nullText (Approval_SessionID a);
  apv_project_id := nullText (Approval_ProjectID a);
  apv_verb := Approval_Verb a;
  apv_selector := Approval_Selector a;
  apv_status := Approval_Status a;
  apv_channel := Approval_Channel a;
  apv_reason := Approval_Reason a;
  apv_requested_at := ms (Approval_RequestedAt a);
  apv_decided_at := ms (Approval_DecidedAt a)
|}.

Definition approval_update (old new : ApprovalRow) : ApprovalRow := {|
  apv_run_id := apv_run_id new;
  apv_session_id := apv_session_id new;
  apv_project_id := apv_project_id new;
  apv_verb := apv_verb new;
  apv_selector := apv_selector new;
  apv_status := apv_status new;
  apv_channel := apv_channel new;
  apv_reason := apv_reason new;
  apv_requested_at := apv_requested_at old;
  apv_decided_at := apv_decided_at new
|}.

Definition putApproval (a : Approval) : Tx () :=
  st_lift (requireText "approval id" (Approval_ID a)) ;;
  upsert approvals_t "put approval" approval_update
    (λ d _ r, approvals_check r && approvals_fk d r) (Approval_ID a) (approval_row a).

Definition approval_entity (id : string) (r : ApprovalRow) : Approval := {|
  Approval_ID := id;
  Approval_RunID := text (apv_run_id r);
  Approval_SessionID := text (apv_session_id r);
  Approval_ProjectID := text (apv_project_id r);
  Approval_Verb := apv_verb r;
  Approval_Selector := apv_selector r;
  Approval_Status := apv_status r;
  Approval_Channel := apv_channel r;
  Approval_Reason := apv_reason r;
  Approval_RequestedAt := timeFromMS (apv_requested_at r);
  Approval_DecidedAt := timeFromMS (apv_decided_at r)
|}.

Definition getApproval (id : string) (d : db) : result rerr Approval :=
  match approvals d !! id with
  | None => Err (ErrNotFound "approval" id)
  | Some r => Ok (approval_entity id r)
  end.

Definition canonApproval (prev : option Approval) (a : Approval) : Approval := {|
  Approval_ID := Approval_ID a;
  Approval_RunID := Approval_RunID a;
  Approval_SessionID := Approval_SessionID a;
  Approval_ProjectID := Approval_ProjectID a;
  Approval_Verb := Approval_Verb a;
  Approval_Selector := Approval_Selector a;
  Approval_Status := Approval_Status a;
  Approval_Channel := Approval_Channel a;
  Approval_Reason := Approval_Reason a;
  Approval_RequestedAt :=
    default (round_ms (Approval_RequestedAt a)) (Approval_RequestedAt <$> prev);
  Approval_DecidedAt := round_ms (Approval_DecidedAt a)
|}.

#[export] Instance Approval_store : EntityStore Approval :=
  {| es_id := Approval_ID; es_put := putApproval; es_get := getApproval;
     es_canon := canonApproval |}.

(** ** Contracts *)

#[export] Instance Artifact_laws : EntityLaws Artifact.
Proof. apply row_laws. row_canon. Qed.

#[export] Instance PolicyRule_laws : EntityLaws PolicyRule.
Proof. apply row_laws. row_canon. Qed.

#[export] Instance Grant_laws : EntityLaws Grant.
Proof. apply row_laws. row_canon. Qed.

#[export] Instance Approval_laws : EntityLaws Approval.
Proof. apply row_laws. row_canon. Qed.
