(* ===== verification/Journal.v ===== *)
(** * The event journal

    [src/internal/runtime/events.go]: appending an event inside a transaction,
    the two paged reads, the heads and the statistics snapshot. *)

From S2P Require Import Prelude Entities Schema Statements.
Open Scope Z_scope.

(** ** Appending *)

(** The defaults [AppendEvent] fills in: the runtime as the source and the
    current time [now]. *)
Definition event_defaults (now : time) (ev : Event) : Event := {|
  Event_Pos := Event_Pos ev;
  Event_Stream := Event_Stream ev;
  Event_Seq := Event_Seq ev;
  Event_At := if IsZero (Event_At ev) then now else Event_At ev;
  Event_SessionID := Event_SessionID ev;
  Event_ProjectID := Event_ProjectID ev;
  Event_Source := if decide (Event_Source ev = "") then SourceRuntime else Event_Source ev;
  Event_Kind := Event_Kind ev;
  Event_TurnRef := Event_TurnRef ev;
  Event_CorrelationID := Event_CorrelationID ev;
  Event_Payload := Event_Payload ev;
  Event_RawRef := Event_RawRef ev
|}.

Definition event_numbered (seq pos : Z) (ev : Event) : Event := {|
  Event_Pos := pos;
  Event_Stream := Event_Stream ev;
  Event_Seq := seq;
  Event_At := Event_At ev;
  Event_SessionID := Event_SessionID ev;
  Event_ProjectID := Event_ProjectID ev;
  Event_Source := Event_Source ev;
  Event_Kind := Event_Kind ev;
  Event_TurnRef := Event_TurnRef ev;
  Event_CorrelationID := Event_CorrelationID ev;
  Event_Payload := Event_Payload ev;
  Event_RawRef := Event_RawRef ev
|}.

Definition event_row (pos seq : Z) (ev : Event) : EventRow := {|
  ev_pos := pos;
  ev_stream := Event_Stream ev;
  ev_seq := seq;
  ev_at_ms := ms (Event_At ev);
  ev_session_id := Event_SessionID ev;
  ev_project_id := Event_ProjectID ev;
  ev_source := Event_Source ev;
  ev_kind := Event_Kind ev;
  ev_turn_ref := Event_TurnRef ev;
  ev_correlation_id := Event_CorrelationID ev;
  ev_payload := Event_Payload ev;
  ev_raw_ref := Event_RawRef ev
|}.

Definition stream_rows (d : db) (stream : string) : list EventRow :=
  filter (λ r, ev_stream r = stream) (events d).

(** [SELECT COALESCE(MAX(seq), 0) + 1 FROM events WHERE stream = ?]. *)
Definition next_seq (stream : string) : Tx Z :=
  d ← st_get; mret (coalesce (sql_max (ev_seq <$> stream_rows d stream)) 0 + 1).

(** [INSERT INTO events]: AUTOINCREMENT assigns one more than the largest [pos]
    ever used and fails (SQLITE_FULL) when that is the largest integer. *)
Definition insert_event (seq : Z) (ev : Event) : Tx Z := λ d,
  let pos := events_autoinc d + 1 in
  let row := event_row pos seq ev in
  if bool_decide (events_autoinc d < max_int64) && events_check row &&
     forallb (λ r, negb (bool_decide (ev_stream r = Event_Stream ev ∧ ev_seq r = seq))) (events d)
  then (Ok pos, set_events (events d ++ [row]) pos d)
  else (Err (ErrConstraint "append event"), d).

Definition set_last_seq (seq : Z) (r : RunRow) : RunRow := {|
  run_session_id := run_session_id r;
  run_project_id := run_project_id r;
  run_kind := run_kind r;
  run_provider := run_provider r;
  run_model := run_model r;
  run_autonomy := run_autonomy r;
  run_role := run_role r;
  run_parent_run_id := run_parent_run_id r;
  run_continues_run_id := run_continues_run_id r;
  run_provider_session_id := run_provider_session_id r;
  run_status := run_status r;
  run_process_pid := run_process_pid r;
  run_process_started_at := run_process_started_at r;
  run_process_group_id := run_process_group_id r;
  run_output_ref := run_output_ref r;
  run_error_category := run_error_category r;
  run_last_seq := seq;
  run_created_at := run_created_at r;
  run_started_at := run_started_at r;
  run_finished_at := run_finished_at r
|}.

(** [UPDATE runs SET last_seq = ? WHERE id = ?]. *)
Definition update_run_head (seq : Z) (stream : string) : Tx () :=
  match runIDFromStream stream with
  | Some id => st_modify (λ d, set_runs (alter (set_last_seq seq) id (runs d)) d)
  | None => mret ()
  end.

Definition AppendEvent (now : time) (ev : Event) : Tx Event :=
  st_lift (requireText "event stream" (Event_Stream ev)) ;;
  st_lift (requireText "event kind" (Event_Kind ev)) ;;
  let ev := event_defaults now ev in
  seq ← next_seq (Event_Stream ev);
  pos ← insert_event seq ev;
  update_run_head seq (Event_Stream ev) ;;
  mret (event_numbered seq pos ev).

(** ** Reading *)

Definition defaultEventPage : Z := 200.
Definition maxEventPage : Z := 500.

Definition eventPageLimit (limit : Z) : Z :=
  if decide (limit ≤ 0) then defaultEventPage
  else if decide (limit > maxEventPage) then maxEventPage
  else limit.

(** One row of [scanEvents]. *)
Definition scan_event (r : EventRow) : Event := {|
  Event_Pos := ev_pos r;
  Event_Stream := ev_stream r;
  Event_Seq := ev_seq r;
  Event_At := timeFromMS (ev_at_ms r);
  Event_SessionID := ev_session_id r;
  Event_ProjectID := ev_project_id r;
  Event_Source := ev_source r;
  Event_Kind := ev_kind r;
  Event_TurnRef := ev_turn_ref r;
  Event_CorrelationID := ev_correlation_id r;
  Event_Payload := ev_payload r;
  Event_RawRef := ev_raw_ref r
|}.

Definition scanEvents (rows : list EventRow) : list Event := scan_event <$> rows.

Definition EventsAfter (d : db) (pos limit : Z) : list Event :=
  scanEvents (take (Z.to_nat (eventPageLimit limit))
    (order_by ev_pos (filter (λ r, pos < ev_pos r) (events d)))).

Definition EventsForStream (d : db) (stream : string) (afterSeq limit : Z) : list Event :=
  scanEvents (take (Z.to_nat (eventPageLimit limit))
    (order_by ev_seq (filter (λ r, ev_stream r = stream ∧ afterSeq < ev_seq r) (events d)))).

Definition JournalHead (d : db) : Z := coalesce (sql_max (ev_pos <$> events d)) 0.

Definition StreamHead (d : db) (stream : string) : Z :=
  coalesce (sql_max (ev_seq <$> stream_rows d stream)) 0.

Record StoreStats : Type := {
  RunsActive : Z;
  RunsTotal : Z;
  SessionsOpen : Z;
  ComputerSessionsOpen : Z;
  PendingApprovals : Z;
  JournalPos : Z
}.

(** [SELECT COUNT( * ) FROM m WHERE p]. *)
Definition count_rows {R} (p : R → bool) (m : gmap string R) : Z :=
  Z.of_nat (size (filter (λ kr : string * R, p kr.2 = true) m)).

Definition StatsContext (d : db) : StoreStats := {|
  RunsActive := count_rows (λ r, one_of (run_status r) [RunQueued; RunRunning]) (runs d);
  RunsTotal := Z.of_nat (size (runs d));
  SessionsOpen := count_rows (λ r, bool_decide (ses_status r = SessionOpen)) (sessions d);
  ComputerSessionsOpen :=
    count_rows (λ r, negb (one_of (cmp_state r) [ComputerClosed; ComputerFailed]))
      (computer_sessions d);
  PendingApprovals :=
    count_rows (λ r, bool_decide (apv_status r = ApprovalPending)) (approvals d);
  JournalPos := coalesce (sql_max (ev_pos <$> events d)) 0
|}.

(** ** The journal invariant

    Positions increase strictly and stay below the AUTOINCREMENT counter; the
    sequence numbers of every stream are 1, 2, ..., in position order. *)
Record journal_ok (d : db) : Prop := {
  jo_sorted : StronglySorted Z.lt (ev_pos <$> events d);
  jo_bounds : Forall (λ r, 1 ≤ ev_pos r ≤ events_autoinc d) (events d);
  jo_counter : 0 ≤ events_autoinc d ≤ max_int64;
  jo_contiguous : ∀ s, ev_seq <$> stream_rows d s = seqZ 1 (Z.of_nat (length (stream_rows d s)));
  jo_checks : Forall (λ r, events_check r = true) (events d)
}.

(** The journal depends on its own table only. *)
Lemma journal_ok_same d d' : events d' = events d → events_autoinc d' = events_autoinc d →
  journal_ok d → journal_ok d'.
Proof. intros He Ha []; split; unfold stream_rows in *; rewrite ?He, ?Ha; assumption. Qed.

Lemma stream_head_length d s : journal_ok d →
  StreamHead d s = Z.of_nat (length (stream_rows d s)).
Proof. intros H. unfold StreamHead. rewrite jo_contiguous by done. apply sql_max_seqZ. Qed.

(** The journal part of an append: the row that is added. *)
Definition appended (seq : Z) (ev : Event) (d : db) : db :=
  set_events (events d ++ [event_row (events_autoinc d + 1) seq ev]) (events_autoinc d + 1) d.

Lemma stream_rows_appended seq ev d s :
  stream_rows (appended seq ev d) s =
  stream_rows d s ++ (if decide (Event_Stream ev = s)
                      then [event_row (events_autoinc d + 1) seq ev] else []).
Proof.
  unfold stream_rows; simpl. by rewrite filter_app.
Qed.

Lemma appended_journal_ok ev d : journal_ok d →
  events_autoinc d < max_int64 →
  events_check (event_row (events_autoinc d + 1) (StreamHead d (Event_Stream ev) + 1) ev) = true →
  journal_ok (appended (StreamHead d (Event_Stream ev) + 1) ev d).
Proof.
  intros Hj Hmax Hc. pose proof (jo_counter d Hj) as Hcnt. split; simpl.
  - rewrite fmap_app. apply StronglySorted_app. split_and!; [|by apply jo_sorted|by repeat constructor].
    intros x1 x2 Hx1 Hx2. apply list_elem_of_singleton in Hx2 as ->; simpl.
    apply list_elem_of_fmap in Hx1 as (r & -> & Hr).
    pose proof (jo_bounds d Hj) as Hb. rewrite Forall_forall in Hb. specialize (Hb r Hr); simpl in Hb; lia.
  - apply Forall_app; split; [|constructor; [simpl; lia|constructor]].
    eapply Forall_impl; [apply (jo_bounds d Hj)|]; intros; simpl in *; lia.
  - lia.
  - intros s. rewrite stream_rows_appended. case_decide as Hs; [|rewrite app_nil_r; by apply jo_contiguous].
    subst s. rewrite length_app, fmap_app, jo_contiguous by done; simpl.
    rewrite Nat.add_1_r, seqZ_S, stream_head_length by done. by rewrite Z.add_comm.
  - apply Forall_app; split; [by apply jo_checks|by repeat constructor].
Qed.

(** No row of a well-formed journal has the sequence number an append takes. *)
Lemma next_seq_fresh d s : journal_ok d →
  forallb (λ r, negb (bool_decide (ev_stream r = s ∧ ev_seq r = StreamHead d s + 1))) (events d) = true.
Proof.
  intros Hj. apply Is_true_true, forallb_True, Forall_forall. intros r Hr.
  rewrite bool_decide_false; [done|]. intros [Hs Hq].
  assert (Hin : ev_seq r ∈ ev_seq <$> stream_rows d s).
  { apply list_elem_of_fmap_2, list_elem_of_filter; done. }
  rewrite jo_contiguous in Hin by done. apply list_elem_of_lookup in Hin as [i Hi].
  apply lookup_seqZ in Hi. rewrite stream_head_length in Hq by done. lia.
Qed.

(** [AppendEvent] on a well-formed journal, in closed form. *)
Definition append_accepts (now : time) (ev : Event) (d : db) : bool :=
  bool_decide (Event_Stream ev ≠ "") && bool_decide (Event_Kind ev ≠ "") &&
  one_of (Event_Source (event_defaults now ev))
    [SourceBridge; SourceRuntime; SourceAgent; SourceComputer; SourcePolicy; SourceSystem] &&
  bool_decide (events_autoinc d < max_int64).

Definition append_result (now : time) (ev : Event) (d : db) : Event * db :=
  let ev' := event_defaults now ev in
  let seq := StreamHead d (Event_Stream ev) + 1 in
  (event_numbered seq (events_autoinc d + 1) ev',
   let d' := appended seq ev' d in
   match runIDFromStream (Event_Stream ev) with
   | Some id => set_runs (alter (set_last_seq seq) id (runs d)) d'
   | None => d'
   end).

Lemma AppendEvent_accepted now ev d : journal_ok d → append_accepts now ev d = true →
  AppendEvent now ev d = (Ok (append_result now ev d).1, (append_result now ev d).2).
Proof.
  unfold append_accepts. rewrite !andb_true_iff, !bool_decide_eq_true.
  intros Hj [[[Hs Hk] Hsrc] Hmax].
  unfold AppendEvent, mbind, ST_bind, st_lift.
  rewrite (proj2 (requireText_Ok _ _) Hs), (proj2 (requireText_Ok _ _) Hk).
  unfold next_seq, mbind, ST_bind, st_get, mret, ST_ret.
  change (coalesce _ 0) with (StreamHead d (Event_Stream ev)).
  unfold insert_event. rewrite bool_decide_true by done.
  rewrite (Hsrc : events_check (event_row (events_autoinc d + 1)
    (StreamHead d (Event_Stream ev) + 1) (event_defaults now ev)) = true).
  change (Event_Stream (event_defaults now ev)) with (Event_Stream ev).
  rewrite next_seq_fresh by done.
  unfold update_run_head, append_result. by destruct (runIDFromStream (Event_Stream ev)).
Qed.

Lemma AppendEvent_rejected now ev d : append_accepts now ev d = false →
  ∃ x, AppendEvent now ev d = (Err x, d).
Proof.
  intros Ha. unfold append_accepts in Ha.
  unfold AppendEvent, mbind, ST_bind, st_lift, requireText.
  destruct (decide (Event_Stream ev = "")) as [?|Hs]; [eauto|].
  destruct (decide (Event_Kind ev = "")) as [?|Hk]; [eauto|].
  rewrite !(bool_decide_true (_ ≠ _)) in Ha by done; simpl in Ha.
  unfold next_seq, mbind, ST_bind, st_get, mret, ST_ret, insert_event, events_check; simpl.
  destruct (bool_decide (events_autoinc d < max_int64)); simpl; [|eauto].
  rewrite andb_true_r in Ha. unfold event_defaults in Ha; simpl in Ha. rewrite Ha. eauto.
Qed.

(** ** Reads of a well-formed journal *)

Lemma eventPageLimit_range limit : 1 ≤ eventPageLimit limit ≤ maxEventPage.
Proof.
  unfold eventPageLimit, defaultEventPage, maxEventPage. repeat case_decide; lia.
Qed.

Lemma EventsAfter_eq d pos limit : journal_ok d →
  EventsAfter d pos limit =
  scanEvents (take (Z.to_nat (eventPageLimit limit)) (filter (λ r, pos < ev_pos r) (events d))).
Proof.
  intros Hj. unfold EventsAfter. rewrite order_by_sorted; [done|].
  apply sorted_filter, jo_sorted, Hj.
Qed.

Lemma EventsForStream_eq d s after limit : journal_ok d →
  EventsForStream d s after limit =
  scanEvents (take (Z.to_nat (eventPageLimit limit)) (drop (Z.to_nat after) (stream_rows d s))).
Proof.
  intros Hj. unfold EventsForStream.
  assert (Hf : filter (λ r, ev_stream r = s ∧ after < ev_seq r) (events d) =
               drop (Z.to_nat after) (stream_rows d s)).
  { replace (filter _ (events d)) with (filter (λ r, after < ev_seq r) (stream_rows d s)).
    - rewrite (filter_contiguous ev_seq _ 1) by (by apply jo_contiguous).
      by replace (after + 1 - 1) with after by lia.
    - unfold stream_rows. rewrite list_filter_filter. apply list_filter_iff. intros r; tauto. }
  rewrite Hf, order_by_sorted; [done|].
  rewrite fmap_drop, jo_contiguous by done. apply sorted_drop, sorted_seqZ.
Qed.

Lemma events_length d : journal_ok d → Z.of_nat (length (events d)) ≤ events_autoinc d.
Proof.
  intros Hj. pose proof (jo_counter d Hj).
  pose proof (sorted_length (ev_pos <$> events d) 1 (events_autoinc d)) as Hl.
  rewrite length_fmap in Hl. enough (Z.of_nat (length (events d)) ≤ events_autoinc d + 1 - 1) by lia.
  apply Hl; [by apply jo_sorted| |lia].
  rewrite Forall_fmap. eapply Forall_impl; [by apply jo_bounds|]. done.
Qed.

Lemma stream_length d s : journal_ok d → Z.of_nat (length (stream_rows d s)) ≤ max_int64.
Proof.
  intros Hj. pose proof (events_length d Hj). pose proof (jo_counter d Hj).
  assert (length (stream_rows d s) ≤ length (events d))%nat by apply length_filter. lia.
Qed.

Lemma validate_from_contiguous rows want :
  ev_seq <$> rows = seqZ want (Z.of_nat (length rows)) →
  0 ≤ want → want + Z.of_nat (length rows) ≤ max_int64 + 1 →
  validate_from want (scanEvents rows) = Ok ().
Proof.
  revert want; induction rows as [|r rows IH]; intros want; simpl; [done|].
  rewrite Nat2Z.inj_succ, seqZ_cons by lia. intros [= Hr Hl] H0 Hmax.
  rewrite Z.pred_succ in Hl. rewrite decide_True by done.
  destruct rows as [|r' rows']; [done|].
  rewrite wrap64_id by (unfold min_int64; simpl in *; lia).
  apply IH; [done|lia|lia].
Qed.

(** A journal reader that follows the journal from a cursor, page by page,
    until a page is empty. *)
Fixpoint follow (fuel : nat) (d : db) (cursor limit : Z) : list Event :=
  match fuel with
  | O => []
  | S fuel =>
      match EventsAfter d cursor limit with
      | [] => []
      | page => page ++ follow fuel d (default cursor (Event_Pos <$> last page)) limit
      end
  end.

(** Cutting a sorted column after its first [n] entries. *)
Lemma filter_after_take {A} (key : A → Z) (l : list A) n x :
  StronglySorted Z.lt (key <$> l) → last (take n l) = Some x →
  filter (λ y, key x < key y) l = drop n l.
Proof.
  revert n; induction l as [|a l IH]; intros n; simpl; [by destruct n|].
  rewrite StronglySorted_cons. intros [Ha Hl] Hlast.
  destruct n as [|n]; simpl in *; [done|].
  rewrite Forall_fmap, Forall_forall in Ha; unfold compose in Ha.
  destruct (take n l) as [|b l'] eqn:E.
  - injection Hlast as ->. rewrite filter_cons_False by lia.
    assert (filter (λ y, key x < key y) l = l) as ->.
    { clear -Ha. induction l as [|y l IH]; [done|].
      rewrite filter_cons_True by (apply Ha; left). f_equal. apply IH.
      intros z Hz; apply Ha; by right. }
    destruct n; [done|]. destruct l; [done|discriminate].
  - change (last (b :: l') = Some x) in Hlast. rewrite <-E in Hlast.
    assert (Hx : x ∈ l).
    { apply last_Some_elem_of, elem_of_take in Hlast as (i & Hi & _).
      by eapply list_elem_of_lookup_2. }
    apply Ha in Hx. rewrite filter_cons_False by lia. by apply IH.
Qed.

(** Each page is the next slice of the journal and the loop ends at its end, so
    the reader sees every event after its cursor once, in order. *)
Lemma follow_complete d (limit : Z) fuel (cursor : Z) : journal_ok d →
  (length (filter (λ r, (cursor < ev_pos r)%Z) (events d)) < fuel)%nat →
  follow fuel d cursor limit = scanEvents (filter (λ r, cursor < ev_pos r) (events d)).
Proof.
  intros Hj. revert cursor. induction fuel as [|fuel IH]; intros cursor Hf; [lia|].
  simpl. rewrite EventsAfter_eq by done.
  pose proof (eventPageLimit_range limit) as Hn.
  set (n := Z.to_nat (eventPageLimit limit)). assert (1 ≤ n)%nat as Hn' by lia.
  set (rows := filter (λ r, cursor < ev_pos r) (events d)) in *.
  assert (Hsorted : StronglySorted Z.lt (ev_pos <$> rows)) by (apply sorted_filter, jo_sorted, Hj).
  destruct (last (take n rows)) as [r|] eqn:Hlast.
  - assert (Hrest : filter (λ y, ev_pos r < ev_pos y) (events d) = drop n rows).
    { rewrite <-(filter_after_take ev_pos rows n r) by done. unfold rows.
      rewrite list_filter_filter. apply list_filter_iff. intros y.
      apply last_Some_elem_of, elem_of_take in Hlast as (i & Hi & _).
      apply list_elem_of_lookup_2, list_elem_of_filter in Hi as [Hi _]. lia. }
    assert (Hpage : ∃ e l, scanEvents (take n rows) = e :: l ∧
              last (e :: l) = Some (scan_event r)).
    { destruct (scanEvents (take n rows)) as [|e l] eqn:E.
      - apply fmap_nil_inv in E. by rewrite E in Hlast.
      - exists e, l. split; [done|]. rewrite <-E. unfold scanEvents.
        by rewrite fmap_last, Hlast. }
    destruct Hpage as (e & l & Hp & Hl). rewrite Hp, Hl; simpl.
    rewrite IH; rewrite Hrest.
    + rewrite app_comm_cons, <-Hp. unfold scanEvents. by rewrite <-fmap_app, take_drop.
    + assert (rows ≠ []) by (intros E; by rewrite E, take_nil in Hlast).
      destruct rows; [done|]. rewrite length_drop; simpl in *; lia.
  - apply last_None in Hlast. destruct rows; [by rewrite take_nil|].
    by destruct n; [lia|].
Qed.

(** ** Statistics *)

Lemma count_rows_le {R} (p : R → bool) (m : gmap string R) :
  0 ≤ count_rows p m ≤ Z.of_nat (size m).
Proof.
  unfold count_rows.
  assert (size (filter (λ kr : string * R, p kr.2 = true) m) ≤ size m)%nat; [|lia].
  apply map_subseteq_size, map_filter_subseteq.
Qed.
