(* ===== verification/Integrity.v ===== *)
(** * Integrity of the store

    The invariant of the database: every CHECK constraint, foreign key, unique
    index and identifier prefix of the schema holds of the stored rows, child
    rows have parents, and the journal is well formed. Every operation of a
    transaction keeps it, whether it succeeds or fails ([Preserves] instances),
    and no operation removes a row another one may refer to ([grows]). *)

From S2P Require Import Prelude Entities Schema Statements EntityOps RunOps PolicyOps Journal.
Open Scope Z_scope.

Record db_ok (d : db) : Prop := {
  ok_projects : map_Forall (λ id _, checkID id idProject = Ok ()) (projects d);
  ok_sessions : map_Forall (λ id r, checkID id idSession = Ok () ∧
    sessions_check r = true ∧ sessions_fk d r = true) (sessions d);
  ok_provider_sessions : map_Forall (λ id r, checkID id idProviderSession = Ok () ∧
    provider_sessions_fk d r = true) (provider_sessions d);
  ok_provider_sessions_unique : unique_index provider_native (provider_sessions d);
  ok_runs : map_Forall (λ id r, checkID id idRun = Ok () ∧
    runs_check r = true ∧ runs_fk d r = true) (runs d);
  ok_runs_unique : unique_index active_provider_session (runs d);
  ok_computer_sessions : map_Forall (λ id r, checkID id idComputerSession = Ok () ∧
    computer_sessions_check r = true ∧ computer_sessions_fk d r = true) (computer_sessions d);
  ok_artifacts : map_Forall (λ id r, checkID id idArtifact = Ok () ∧
    artifacts_check r = true) (artifacts d);
  ok_policy_rules : map_Forall (λ _ r, policy_rules_check r = true) (policy_rules d);
  ok_approvals : map_Forall (λ _ r, approvals_check r = true ∧ approvals_fk d r = true)
    (approvals d);
  ok_grants : map_Forall (λ _ r, grants_check r = true ∧ grants_fk d r = true) (grants d);
  ok_roots : Forall (λ c, refers (projects d) (Some (ch_parent c)) = true) (project_roots d);
  ok_paths : Forall (λ c, refers (projects d) (Some (ch_parent c)) = true)
    (project_sensitive_paths d);
  ok_verbs : Forall (λ c, refers (computer_sessions d) (Some (ch_parent c)) = true)
    (computer_session_verbs d);
  ok_apps : Forall (λ c, refers (computer_sessions d) (Some (ch_parent c)) = true)
    (computer_session_apps d);
  ok_journal : journal_ok d
}.

Lemma empty_db_ok : db_ok empty_db.
Proof.
  split; simpl; try apply map_Forall_empty; try apply Forall_nil_2.
  - intros ?????; by rewrite lookup_empty.
  - intros ?????; by rewrite lookup_empty.
  - by split; simpl; try constructor.
Qed.

(** ** Growth *)
Record grows (d d' : db) : Prop := {
  grows_projects : ∀ o, refers (projects d) o = true → refers (projects d') o = true;
  grows_sessions : ∀ o, refers (sessions d) o = true → refers (sessions d') o = true;
  grows_provider_sessions :
    ∀ o, refers (provider_sessions d) o = true → refers (provider_sessions d') o = true;
  grows_runs : ∀ o, refers (runs d) o = true → refers (runs d') o = true;
  grows_computer_sessions :
    ∀ o, refers (computer_sessions d) o = true → refers (computer_sessions d') o = true;
  grows_approvals : ∀ o, refers (approvals d) o = true → refers (approvals d') o = true
}.

Create HintDb store.
#[export] Hint Resolve refers_insert : store.

#[export] Instance grows_preorder : PreOrder grows.
Proof.
  split; [intros d; split; auto|].
  intros d1 d2 d3 [] []; split; auto.
Qed.

(** References keep pointing at rows when the database grows. *)
Ltac fk_mono := intros []; rewrite !andb_true_iff; intros; destruct_and?; split_and?; auto.

Lemma sessions_fk_mono d d' r : grows d d' → sessions_fk d r = true → sessions_fk d' r = true.
Proof. intros []; unfold sessions_fk; auto. Qed.
Lemma provider_sessions_fk_mono d d' r :
  grows d d' → provider_sessions_fk d r = true → provider_sessions_fk d' r = true.
Proof. intros []; unfold provider_sessions_fk; auto. Qed.
Lemma runs_fk_mono d d' r : grows d d' → runs_fk d r = true → runs_fk d' r = true.
Proof. unfold runs_fk; fk_mono. Qed.
Lemma computer_sessions_fk_mono d d' r :
  grows d d' → computer_sessions_fk d r = true → computer_sessions_fk d' r = true.
Proof. unfold computer_sessions_fk; fk_mono. Qed.
Lemma approvals_fk_mono d d' r : grows d d' → approvals_fk d r = true → approvals_fk d' r = true.
Proof. unfold approvals_fk; fk_mono. Qed.
Lemma grants_fk_mono d d' r : grows d d' → grants_fk d r = true → grants_fk d' r = true.
Proof. unfold grants_fk; fk_mono. Qed.

#[export] Hint Resolve sessions_fk_mono provider_sessions_fk_mono runs_fk_mono
  computer_sessions_fk_mono approvals_fk_mono grants_fk_mono
  grows_projects grows_computer_sessions : store.

(** [rebuild]: re-establish [db_ok] field by field after one table changed.
    A field of an untouched table follows by monotonicity; in the changed table
    the new row is checked and the others follow by monotonicity too. *)
Ltac rebuild_field :=
  lazymatch goal with
  | |- map_Forall _ (<[_:=_]> _) =>
      apply map_Forall_insert_2; [split_and?; assumption|rebuild_field]
  | H : map_Forall _ ?m |- map_Forall _ ?m =>
      eapply map_Forall_impl; [exact H|]; cbv beta; intros;
      destruct_and?; split_and?; eauto with store
  | H : Forall _ ?l |- Forall _ ?l =>
      eapply Forall_impl; [exact H|]; cbv beta; intros; eauto with store
  | |- journal_ok _ => eapply journal_ok_same; [| |eassumption]; reflexivity
  | |- _ => idtac
  end.

Ltac rebuild :=
  match goal with
  | Hd : db_ok ?d |- db_ok ?d' =>
      assert (grows d d') by (split; simpl; auto with store);
      destruct Hd; split; simpl; try assumption; rebuild_field
  end.

Lemma db_ok_set_projects d id r : db_ok d → checkID id idProject = Ok () →
  db_ok (set_projects (<[id:=r]> (projects d)) d).
Proof. intros Hd Hid. rebuild. Qed.

Lemma db_ok_set_sessions d id r : db_ok d → checkID id idSession = Ok () →
  sessions_check r = true → sessions_fk (set_sessions (<[id:=r]> (sessions d)) d) r = true →
  db_ok (set_sessions (<[id:=r]> (sessions d)) d).
Proof. intros Hd Hid Hc Hf. rebuild. Qed.

Lemma db_ok_set_provider_sessions d id r : db_ok d → checkID id idProviderSession = Ok () →
  let d' := set_provider_sessions (<[id:=r]> (provider_sessions d)) d in
  provider_sessions_fk d' r = true → idx_free provider_native (provider_sessions d') id r = true →
  db_ok d'.
Proof.
  intros Hd Hid d' Hf Hu. subst d'. apply idx_free_insert in Hu. rebuild.
  by apply unique_index_insert.
Qed.

Lemma db_ok_set_runs d id r : db_ok d → checkID id idRun = Ok () →
  let d' := set_runs (<[id:=r]> (runs d)) d in run_ok d' id r = true → db_ok d'.
Proof.
  intros Hd Hid d'. unfold run_ok. rewrite !andb_true_iff. intros [[Hc Hf] Hu].
  subst d'. apply idx_free_insert in Hu. rebuild. by apply unique_index_insert.
Qed.

Lemma db_ok_set_computer_sessions d id r : db_ok d → checkID id idComputerSession = Ok () →
  let d' := set_computer_sessions (<[id:=r]> (computer_sessions d)) d in
  computer_session_ok d' id r = true → db_ok d'.
Proof.
  intros Hd Hid d'. unfold computer_session_ok. rewrite !andb_true_iff. intros [Hc Hf].
  subst d'. rebuild.
Qed.

Lemma db_ok_set_artifacts d id r : db_ok d → checkID id idArtifact = Ok () →
  artifacts_check r = true → db_ok (set_artifacts (<[id:=r]> (artifacts d)) d).
Proof. intros Hd Hid Hc. rebuild. Qed.

Lemma db_ok_set_policy_rules d id r : db_ok d →
  policy_rules_check r = true → db_ok (set_policy_rules (<[id:=r]> (policy_rules d)) d).
Proof. intros Hd Hc. rebuild. Qed.

Lemma db_ok_set_approvals d id r : db_ok d → approvals_check r = true →
  let d' := set_approvals (<[id:=r]> (approvals d)) d in
  approvals_fk d' r = true → db_ok d'.
Proof. intros Hd Hc d' Hf. subst d'. rebuild. Qed.

Lemma db_ok_set_grants d id r : db_ok d → grants_check r = true →
  let d' := set_grants (<[id:=r]> (grants d)) d in
  grants_fk d' r = true → db_ok d'.
Proof. intros Hd Hc d' Hf. subst d'. rebuild. Qed.

(** Replacing the child list of an existing parent. *)
Lemma children_replaced {A} (P : child A → Prop) (l : list (child A)) id (vs : list A) :
  Forall P l → (∀ c, ch_parent c = id → P c) →
  Forall P (filter (λ c, ch_parent c ≠ id) l ++ number id 0 vs).
Proof.
  intros Hl Hid. apply Forall_app; split; apply Forall_forall; intros c Hc.
  - rewrite Forall_forall in Hl. apply list_elem_of_filter in Hc as [_ Hc]. auto.
  - eapply Hid, number_parent, Hc.
Qed.

(** ** Every operation preserves the invariant *)

(** The putters of one-row entities: what an upsert leaves behind. *)
Lemma upsert_preserves {R} (t : Table (gmap string R)) op merge ok id new :
  (∀ d row, db_ok d → row = upsert_row merge (tget (Table := t) d !! id) new →
     let d' := tset (Table := t) (<[id:=row]> (tget (Table := t) d)) d in
     ok d' id row = true → db_ok d') →
  Preserves db_ok (upsert t op merge ok id new).
Proof.
  intros H d Hd. unfold upsert. destruct (ok _ _ _) eqn:E; simpl; [|done].
  by eapply H.
Qed.

(** A check that succeeds can be assumed by what follows it. *)
Lemma checked_preserves {A} (r : result rerr ()) (m : Tx A) :
  (r = Ok () → Preserves db_ok m) → Preserves db_ok (st_lift r ;; m).
Proof.
  intros H d Hd. unfold mbind, ST_bind, st_lift.
  destruct r as [[]|]; simpl; [by apply H|done].
Qed.

#[export] Instance putSession_preserves s : Preserves db_ok (putSession s).
Proof.
  apply checked_preserves; intros Hid. apply upsert_preserves.
  intros d row Hd _ d' Hok. apply andb_true_iff in Hok as [Hc Hf].
  by apply db_ok_set_sessions.
Qed.

#[export] Instance putProviderSession_preserves p : Preserves db_ok (putProviderSession p).
Proof.
  apply checked_preserves; intros Hid. apply upsert_preserves.
  intros d row Hd _ d' Hok. apply andb_true_iff in Hok as [Hf Hu].
  by apply db_ok_set_provider_sessions.
Qed.

#[export] Instance putRun_preserves r : Preserves db_ok (putRun r).
Proof.
  apply checked_preserves; intros Hid. apply upsert_preserves.
  intros d row Hd _ d' Hok. by apply db_ok_set_runs.
Qed.

#[export] Instance putArtifact_preserves a : Preserves db_ok (putArtifact a).
Proof.
  apply checked_preserves; intros Hid. apply upsert_preserves.
  intros d row Hd _ d' Hok. by apply db_ok_set_artifacts.
Qed.

#[export] Instance putPolicyRule_preserves r : Preserves db_ok (putPolicyRule r).
Proof.
  apply checked_preserves; intros Hid. apply upsert_preserves.
  intros d row Hd _ d' Hok. by apply db_ok_set_policy_rules.
Qed.

#[export] Instance putApproval_preserves a : Preserves db_ok (putApproval a).
Proof.
  apply checked_preserves; intros Hid. apply upsert_preserves.
  intros d row Hd _ d' Hok. apply andb_true_iff in Hok as [Hc Hf].
  by apply db_ok_set_approvals.
Qed.

#[export] Instance putGrant_preserves g : Preserves db_ok (putGrant g).
Proof.
  apply checked_preserves; intros Hid. apply upsert_preserves.
  intros d row Hd _ d' Hok. apply andb_true_iff in Hok as [Hc Hf].
  by apply db_ok_set_grants.
Qed.

(** Child lists: the parent row exists when its list is replaced. *)
Lemma db_ok_set_children d id roots paths : db_ok d → is_Some (projects d !! id) →
  db_ok (set_project_sensitive_paths
      (filter (λ c, ch_parent c ≠ id) (project_sensitive_paths d) ++ number id 0 paths)
    (set_project_roots
      (filter (λ c, ch_parent c ≠ id) (project_roots d) ++ number id 0 roots) d)).
Proof.
  intros Hd Hp. rebuild; apply children_replaced; try assumption;
    intros c ->; by apply refers_Some.
Qed.

Lemma db_ok_set_computer_children d id verbs apps :
  db_ok d → is_Some (computer_sessions d !! id) →
  db_ok (set_computer_session_apps
      (filter (λ c, ch_parent c ≠ id) (computer_session_apps d) ++ number id 0 apps)
    (set_computer_session_verbs
      (filter (λ c, ch_parent c ≠ id) (computer_session_verbs d) ++ number id 0 verbs) d)).
Proof.
  intros Hd Hp. rebuild; apply children_replaced; try assumption;
    intros c ->; by apply refers_Some.
Qed.

#[export] Instance putProject_preserves p : Preserves db_ok (putProject p).
Proof.
  intros d Hd. destruct (checkID (Project_ID p) idProject) as [[]|x] eqn:Hid.
  - destruct (putProject_run p d Hid) as (r & _ & _ & _ & ->); simpl.
    apply (db_ok_set_children (set_projects (<[Project_ID p := r]> (projects d)) d));
      [by apply db_ok_set_projects|simpl; rewrite lookup_insert_eq; eauto].
  - unfold putProject, mbind, ST_bind, st_lift. by rewrite Hid.
Qed.

#[export] Instance putComputerSession_preserves c : Preserves db_ok (putComputerSession c).
Proof.
  intros d Hd. destruct (putComputerSession_run c d) as [[x ->]|(row & _ & Hid & Hok & ->)];
    [done|simpl].
  apply (db_ok_set_computer_children
    (set_computer_sessions (<[CSession_ID c := row]> (computer_sessions d)) d));
    [by apply db_ok_set_computer_sessions|simpl; rewrite lookup_insert_eq; eauto].
Qed.

(** Appending: the journal grows by one well-numbered row, and the run row whose
    head moves keeps its constraints. *)
Lemma db_ok_set_events d seq ev : db_ok d → journal_ok (appended seq ev d) →
  db_ok (appended seq ev d).
Proof. intros Hd Hj. rebuild. Qed.

Lemma alter_set_last_seq seq id (m : gmap string RunRow) :
  alter (set_last_seq seq) id m =
  match m !! id with Some r => <[id := set_last_seq seq r]> m | None => m end.
Proof.
  apply map_eq; intros k. destruct (decide (id = k)) as [->|Hne].
  - rewrite lookup_alter_eq. destruct (m !! k) eqn:E; simpl; [by rewrite lookup_insert_eq|done].
  - rewrite lookup_alter_ne by done. destruct (m !! id); [by rewrite lookup_insert_ne|done].
Qed.

(** A row may be rewritten in place when its index key stays or disappears. *)
Lemma idx_free_self {R K} `{EqDecision K} (key : R → option K) m id r r' :
  unique_index key m → m !! id = Some r → (∀ k, key r' = Some k → key r = Some k) →
  idx_free key (<[id:=r']> m) id r' = true.
Proof.
  intros Hu Hr Hk. unfold idx_free. destruct (key r') as [k|] eqn:Er; [|done].
  apply bool_decide_eq_true. intros id2 r2 H2.
  destruct (decide (id2 = id)) as [|Hne]; [by left|right]. intros Hk2. apply Hne.
  rewrite lookup_insert_ne in H2 by done. by eapply Hu; eauto.
Qed.

Lemma db_ok_set_last_seq d seq id : db_ok d →
  db_ok (set_runs (alter (set_last_seq seq) id (runs d)) d).
Proof.
  intros Hd. rewrite alter_set_last_seq. destruct (runs d !! id) as [r|] eqn:Hr.
  - destruct (ok_runs d Hd id r Hr) as (Hid & Hc & Hf).
    apply db_ok_set_runs; [done..|]. unfold run_ok. rewrite !andb_true_iff. split_and!.
    + exact Hc.
    + apply (runs_fk_mono d); [|exact Hf]. split; simpl; auto with store.
    + by apply (idx_free_self _ _ _ r); [apply ok_runs_unique| |].
  - by destruct d.
Qed.

#[export] Instance AppendEvent_preserves now ev : Preserves db_ok (AppendEvent now ev).
Proof.
  intros d Hd. destruct (append_accepts now ev d) eqn:Ha.
  - rewrite AppendEvent_accepted by (done || by apply ok_journal). simpl.
    unfold append_accepts in Ha. rewrite !andb_true_iff, !bool_decide_eq_true in Ha.
    destruct Ha as [[[Hs Hk] Hsrc] Hmax].
    assert (Hd' : db_ok (appended (StreamHead d (Event_Stream ev) + 1) (event_defaults now ev) d)).
    { apply db_ok_set_events; [done|].
      apply (appended_journal_ok (event_defaults now ev)); [by apply ok_journal|done|done]. }
    destruct (runIDFromStream (Event_Stream ev)); [|done].
    exact (db_ok_set_last_seq _ _ _ Hd').
  - destruct (AppendEvent_rejected now ev d Ha) as [x ->]. done.
Qed.
