(* ===== verification/Store.v ===== *)
(** * Transactions

    [Store.UpdateContext] of [src/internal/runtime/store.go]: the only way to
    write. The callback runs on the transaction; its error, or a failing commit,
    rolls everything back. [TxIO] says which of the driver's own calls fail. *)

From S2P Require Import Prelude Entities Schema Statements EntityOps RunOps PolicyOps.
From S2P Require Import Journal Integrity.
Open Scope Z_scope.

Record TxIO : Type := { begin_fails : bool; commit_fails : bool }.

Definition io_ok : TxIO := {| begin_fails := false; commit_fails := false |}.

(** [UpdateContext]; a nil callback is [None]. *)
Definition UpdateContext {A} (io : TxIO) (fn : option (Tx A)) : Tx A := λ d,
  match fn with
  | None => (Err ErrNoFunction, d)
  | Some fn =>
      if begin_fails io then (Err (ErrIO "begin transaction"), d) else
      match fn d with
      | (Err e, _) => (Err e, d)
      | (Ok a, d') =>
          if commit_fails io then (Err (ErrIO "commit transaction"), d) else (Ok a, d')
      end
  end.

(** [Update] is [UpdateContext] with the background context. *)
Definition Update {A} (io : TxIO) (fn : option (Tx A)) : Tx A := UpdateContext io fn.

(** A read inside a transaction. *)
Definition tx_read {A} (read : db → result rerr A) : Tx A := λ d, (read d, d).

(** ** Transaction bodies

    The operations [Tx] exports to a callback. *)
Inductive tx_op : Type :=
  | OpPutProject (p : Project)
  | OpPutSession (s : Session)
  | OpPutProviderSession (p : ProviderSession)
  | OpPutRun (r : Run)
  | OpPutComputerSession (c : ComputerSession)
  | OpPutArtifact (a : Artifact)
  | OpPutPolicyRule (r : PolicyRule)
  | OpPutGrant (g : Grant)
  | OpPutApproval (a : Approval)
  | OpAppendEvent (now : time) (ev : Event).

Definition run_op (op : tx_op) : Tx () :=
  match op with
  | OpPutProject p => putProject p
  | OpPutSession s => putSession s
  | OpPutProviderSession p => putProviderSession p
  | OpPutRun r => putRun r
  | OpPutComputerSession c => putComputerSession c
  | OpPutArtifact a => putArtifact a
  | OpPutPolicyRule r => putPolicyRule r
  | OpPutGrant g => putGrant g
  | OpPutApproval a => putApproval a
  | OpAppendEvent now ev => AppendEvent now ev ≫= λ _, mret ()
  end.

(** One step of a store: an [Update] whose callback, arbitrary code, performs
    some of these operations one after the other, may ignore their errors and
    ends by returning an error or not. *)
Definition tx_step (d d' : db) : Prop := ∃ op, d' = (run_op op d).2.

Definition callback {A} (fn : Tx A) : Prop := ∀ d, rtc tx_step d (fn d).2.

Definition store_step (d d' : db) : Prop :=
  ∃ (A : Type) (io : TxIO) (fn : Tx A), callback fn ∧ d' = (Update io (Some fn) d).2.

(** ** Lemmas *)

#[export] Instance tx_read_preserves {A} (read : db → result rerr A) :
  Preserves db_ok (tx_read read).
Proof. intros d Hd; exact Hd. Qed.

#[export] Instance UpdateContext_preserves {A} io (fn : Tx A) :
  Preserves db_ok fn → Preserves db_ok (UpdateContext io (Some fn)).
Proof.
  intros Hfn d Hd. unfold UpdateContext. destruct (begin_fails io); [done|].
  specialize (Hfn d Hd). destruct (fn d) as [[a|e] d']; simpl in *; [|done].
  by destruct (commit_fails io).
Qed.

Lemma UpdateContext_Err {A} io (fn : option (Tx A)) d e :
  (UpdateContext io fn d).1 = Err e → (UpdateContext io fn d).2 = d.
Proof.
  unfold UpdateContext. destruct fn as [fn|]; [|done].
  destruct (begin_fails io); [done|]. destruct (fn d) as [[a|e'] d']; [|done].
  by destruct (commit_fails io).
Qed.

#[export] Instance run_op_preserves op : Preserves db_ok (run_op op).
Proof. destruct op; simpl; apply _. Qed.

Lemma tx_step_ok d d' : tx_step d d' → db_ok d → db_ok d'.
Proof. intros [op ->] Hd. by apply (run_op_preserves op). Qed.

Lemma tx_steps_ok d d' : rtc tx_step d d' → db_ok d → db_ok d'.
Proof. induction 1; eauto using tx_step_ok. Qed.

Lemma store_step_ok d d' : store_step d d' → db_ok d → db_ok d'.
Proof.
  intros (A & io & fn & Hfn & ->) Hd. apply UpdateContext_preserves; [|done].
  intros d0 Hd0. exact (tx_steps_ok _ _ (Hfn d0) Hd0).
Qed.
