(* ===== verification/Transitions.v ===== *)
(** * Run transitions and computer controllers

    [src/internal/runtime/transitions.go]: the two state changes the store
    performs together with the journal event that records them. *)

From S2P Require Import Prelude Entities Schema Statements EntityOps RunOps PolicyOps.
From S2P Require Import Journal Integrity Store.
Open Scope Z_scope.

(** ** The run state machine *)

Definition runTransitions : list (string * list string) :=
  [ (RunQueued, [RunRunning; RunCancelled]);
    (RunRunning, [RunCompleted; RunFailed; RunCancelled; RunTimeout; RunInterrupted]) ].

(** A Go map lookup: the zero value (an empty list) for an absent key. *)
Fixpoint map_index (m : list (string * list string)) (from : string) : list string :=
  match m with
  | [] => []
  | (k, v) :: m' => if decide (k = from) then v else map_index m' from
  end.

Definition canTransition (from to : string) : bool := one_of to (map_index runTransitions from).

Record RunTransition : Type := {
  RT_RunID : string;
  RT_Status : string;
  RT_At : time;
  RT_Source : string;
  RT_ErrorCategory : string;
  RT_OutputRef : string;
  RT_CorrelationID : string;
  RT_Payload : string
}.

(** The run as [TransitionRun] changes it before storing it. *)
Definition transitioned (tr : RunTransition) (run : Run) : Run := {|
  Run_ID := Run_ID run;
  Run_SessionID := Run_SessionID run;
  Run_ProjectID := Run_ProjectID run;
  Run_Kind := Run_Kind run;
  Run_Provider := Run_Provider run;
  Run_Model := Run_Model run;
  Run_Autonomy := Run_Autonomy run;
  Run_Role := Run_Role run;
  Run_ParentRunID := Run_ParentRunID run;
  Run_ContinuesRunID := Run_ContinuesRunID run;
  Run_ProviderSessionID := Run_ProviderSessionID run;
  Run_Status := RT_Status tr;
  Run_ProcessPID := Run_ProcessPID run;
  Run_ProcessStartedAt := Run_ProcessStartedAt run;
  Run_ProcessGroupID := Run_ProcessGroupID run;
  Run_OutputRef := if decide (RT_OutputRef tr = "") then Run_OutputRef run else RT_OutputRef tr;
  Run_ErrorCategory :=
    if decide (RT_ErrorCategory tr = "") then Run_ErrorCategory run else RT_ErrorCategory tr;
  Run_LastSeq := Run_LastSeq run;
  Run_CreatedAt := Run_CreatedAt run;
  Run_StartedAt :=
    if decide (RT_Status tr = RunRunning)
    then (if IsZero (Run_StartedAt run) then RT_At tr else Run_StartedAt run)
    else Run_StartedAt run;
  Run_FinishedAt :=
    if decide (RT_Status tr = RunRunning) then Run_FinishedAt run
    else if Terminal (RT_Status tr) then RT_At tr else Run_FinishedAt run
|}.

Definition with_last_seq (seq : Z) (run : Run) : Run := {|
  Run_ID := Run_ID run;
  Run_SessionID := Run_SessionID run;
  Run_ProjectID := Run_ProjectID run;
  Run_Kind := Run_Kind run;
  Run_Provider := Run_Provider run;
  Run_Model := Run_Model run;
  Run_Autonomy := Run_Autonomy run;
  Run_Role := Run_Role run;
  Run_ParentRunID := Run_ParentRunID run;
  Run_ContinuesRunID := Run_ContinuesRunID run;
  Run_ProviderSessionID := Run_ProviderSessionID run;
  Run_Status := Run_Status run;
  Run_ProcessPID := Run_ProcessPID run;
  Run_ProcessStartedAt := Run_ProcessStartedAt run;
  Run_ProcessGroupID := Run_ProcessGroupID run;
  Run_OutputRef := Run_OutputRef run;
  Run_ErrorCategory := Run_ErrorCategory run;
  Run_LastSeq := seq;
  Run_CreatedAt := Run_CreatedAt run;
  Run_StartedAt := Run_StartedAt run;
  Run_FinishedAt := Run_FinishedAt run
|}.

Definition run_event (tr : RunTransition) (run : Run) : Event := {|
  Event_Pos := 0;
  Event_Stream := StreamRun (Run_ID run);
  Event_Seq := 0;
  Event_At := RT_At tr;
  Event_SessionID := Run_SessionID run;
  Event_ProjectID := Run_ProjectID run;
  Event_Source := RT_Source tr;
  Event_Kind := "run." +:+ RT_Status tr;
  Event_TurnRef := "";
  Event_CorrelationID := RT_CorrelationID tr;
  Event_Payload := RT_Payload tr;
  Event_RawRef := ""
|}.

Definition transition_body (now : time) (tr : RunTransition) : Tx (Run * Event) :=
  run ← tx_read (getRun (RT_RunID tr));
  if canTransition (Run_Status run) (RT_Status tr) then
    let run := transitioned tr run in
    putRun run ;;
    event ← AppendEvent now (run_event tr run);
    mret (with_last_seq (Event_Seq event) run, event)
  else st_fail (ErrIllegalTransition (Run_ID run) (Run_Status run) (RT_Status tr)).

Definition TransitionRun (io : TxIO) (now : time) (tr : RunTransition) : Tx (Run * Event) :=
  st_lift (checkID (RT_RunID tr) idRun) ;;
  if negb (valid (RT_Status tr)) then st_fail (ErrUnknownStatus (RT_Status tr))
  else if IsZero (RT_At tr) then st_fail (ErrNoTimestamp "run transition")
  else Update io (Some (transition_body now tr)).

(** ** Computer controllers *)

Record ControllerChange : Type := {
  CC_ComputerSessionID : string;
  CC_Controller : Controller;
  CC_At : time;
  CC_Source : string;
  CC_CorrelationID : string;
  CC_Payload : string
}.

Definition validateController (c : Controller) : result rerr () :=
  let kind := Controller_Kind c in
  let channel := Controller_Channel c in
  if decide (kind = ControllerHuman) then
    if bool_decide (channel ≠ ChannelLocal) && bool_decide (channel ≠ ChannelRemote)
    then Err (ErrHumanChannel channel) else Ok ()
  else if one_of kind [ControllerAgent; ControllerNone] then
    if bool_decide (channel ≠ ChannelNone) then Err (ErrCarriesChannel kind channel) else Ok ()
  else Err (ErrUnknownController kind).

(** The session as [SetComputerController] changes it; [ControllerEpoch++] is
    [int64] arithmetic. *)
Definition controlled (cc : ControllerChange) (s : ComputerSession) : ComputerSession := {|
  CSession_ID := CSession_ID s;
  CSession_SessionID := CSession_SessionID s;
  CSession_RunID := CSession_RunID s;
  CSession_Target := CSession_Target s;
  CSession_State := CSession_State s;
  CSession_Controller := CC_Controller cc;
  CSession_ControllerEpoch := wrap64 (CSession_ControllerEpoch s + 1);
  CSession_ArbiterInstance := CSession_ArbiterInstance s;
  CSession_LeaseHolder := CSession_LeaseHolder s;
  CSession_LeaseExpiresAt := CSession_LeaseExpiresAt s;
  CSession_CanObserve := CSession_CanObserve s;
  CSession_CanInput := CSession_CanInput s;
  CSession_CanPreview := CSession_CanPreview s;
  CSession_GrantedVerbs := CSession_GrantedVerbs s;
  CSession_AppSelectors := CSession_AppSelectors s;
  CSession_LastFrameID := CSession_LastFrameID s;
  CSession_GeometryGeneration := CSession_GeometryGeneration s;
  CSession_CreatedAt := CSession_CreatedAt s;
  CSession_UpdatedAt := CC_At cc
|}.

Definition controller_event (cc : ControllerChange) (s : ComputerSession) : Event := {|
  Event_Pos := 0;
  Event_Stream := StreamComputer (CSession_ID s);
  Event_Seq := 0;
  Event_At := CC_At cc;
  Event_SessionID := CSession_SessionID s;
  Event_ProjectID := "";
  Event_Source := CC_Source cc;
  Event_Kind := "computer.controller.changed";
  Event_TurnRef := "";
  Event_CorrelationID := CC_CorrelationID cc;
  Event_Payload := CC_Payload cc;
  Event_RawRef := ""
|}.

Definition controller_body (now : time) (cc : ControllerChange) : Tx (ComputerSession * Event) :=
  session ← tx_read (getComputerSession (CC_ComputerSessionID cc));
  let session := controlled cc session in
  putComputerSession session ;;
  event ← AppendEvent now (controller_event cc session);
  mret (session, event).

Definition SetComputerController (io : TxIO) (now : time) (cc : ControllerChange) :
    Tx (ComputerSession * Event) :=
  st_lift (checkID (CC_ComputerSessionID cc) idComputerSession) ;;
  st_lift (validateController (CC_Controller cc)) ;;
  if IsZero (CC_At cc) then st_fail (ErrNoTimestamp "controller change")
  else Update io (Some (controller_body now cc)).

(** ** The state machine *)

Lemma canTransition_spec from to : canTransition from to = true ↔
  (from = RunQueued ∧ to ∈ [RunRunning; RunCancelled]) ∨
  (from = RunRunning ∧ to ∈ [RunCompleted; RunFailed; RunCancelled; RunTimeout; RunInterrupted]).
Proof.
  unfold canTransition. rewrite one_of_spec; simpl.
  destruct (decide (RunQueued = from)) as [<-|Hq]; [naive_solver|].
  destruct (decide (RunRunning = from)) as [<-|Hr]; [naive_solver|].
  rewrite elem_of_nil. naive_solver.
Qed.

Lemma canTransition_valid from to : canTransition from to = true → valid to = true.
Proof.
  rewrite canTransition_spec. unfold valid. rewrite one_of_spec.
  rewrite !elem_of_cons, !elem_of_nil. tauto.
Qed.

Lemma Terminal_no_successor from to : Terminal from = true → canTransition from to = false.
Proof.
  unfold Terminal. rewrite one_of_spec. intros Hf. apply not_true_iff_false.
  rewrite canTransition_spec. intros [[-> _]|[-> _]]; vm_compute in Hf;
    repeat (apply elem_of_cons in Hf as [Hf|Hf]; [discriminate|]);
    by apply elem_of_nil in Hf.
Qed.

Lemma canTransition_terminal from to :
  canTransition from to = true → to = RunRunning ∨ Terminal to = true.
Proof.
  rewrite canTransition_spec. unfold Terminal. rewrite one_of_spec, !elem_of_cons, !elem_of_nil.
  tauto.
Qed.

(** ** A transition in closed form *)

Lemma refers_nullText {A} (m : gmap string A) o :
  refers m o = true → refers m (nullText (text o)) = true.
Proof. destruct o as [k|]; [|done]. unfold nullText, text; simpl. by case_decide. Qed.

Lemma nullText_text_Some o k : nullText (text o) = Some k → o = Some k.
Proof. destruct o; unfold nullText, text; simpl; [case_decide|]; congruence. Qed.

(** The stored row after [transitioned]. *)
Definition transition_row (tr : RunTransition) (id : string) (old : RunRow) : RunRow :=
  run_update old (run_row (transitioned tr (scanRun id old))).

Lemma transition_row_ok d tr id old : db_ok d → runs d !! id = Some old →
  canTransition (run_status old) (RT_Status tr) = true →
  run_ok (set_runs (<[id := transition_row tr id old]> (runs d)) d) id
    (transition_row tr id old) = true.
Proof.
  intros Hd Hold Hcan. destruct (ok_runs d Hd id old Hold) as (_ & Hc & Hf).
  unfold run_ok. rewrite !andb_true_iff. split_and!.
  - unfold runs_check in *. apply andb_true_iff in Hc as [Hk _].
    apply andb_true_iff; split; [exact Hk|]. exact (canTransition_valid _ _ Hcan).
  - apply (runs_fk_mono d); [split; simpl; auto with store|].
    unfold runs_fk in *. rewrite !andb_true_iff in *. destruct_and!.
    split_and!; [assumption|by apply refers_nullText..].
  - apply (idx_free_self _ _ _ old); [by apply ok_runs_unique|done|].
    intros k. unfold active_provider_session.
    change (run_status (transition_row tr id old)) with (RT_Status tr).
    change (run_provider_session_id (transition_row tr id old)) with
      (nullText (text (run_provider_session_id old))).
    destruct (one_of (RT_Status tr) _) eqn:Hact; [|done]. intros Hk.
    apply canTransition_spec in Hcan as [[-> _]|[-> _]]; simpl; by apply nullText_text_Some.
Qed.

(** When [TransitionRun] goes through: a run that exists, a legal change, a
    timestamp, a known event source, a journal position left. *)
Definition transition_accepts (tr : RunTransition) (d : db) : bool :=
  match runs d !! RT_RunID tr with
  | None => false
  | Some old =>
      canTransition (run_status old) (RT_Status tr) && negb (IsZero (RT_At tr)) &&
      one_of (RT_Source tr)
        ["" : string; SourceBridge; SourceRuntime; SourceAgent; SourceComputer; SourcePolicy; SourceSystem] &&
      bool_decide (events_autoinc d < max_int64)
  end.

(** The resulting database. *)
Definition transition_result (now : time) (tr : RunTransition) (old : RunRow) (d : db) : db :=
  let id := RT_RunID tr in
  let ev := event_defaults now (run_event tr (transitioned tr (scanRun id old))) in
  let seq := StreamHead d (StreamRun id) + 1 in
  set_runs (<[id := set_last_seq seq (transition_row tr id old)]> (runs d)) (appended seq ev d).

Lemma source_default s :
  one_of (if decide (s = "") then SourceRuntime else s)
    [SourceBridge; SourceRuntime; SourceAgent; SourceComputer; SourcePolicy; SourceSystem] =
  one_of s ["" : string; SourceBridge; SourceRuntime; SourceAgent; SourceComputer; SourcePolicy;
            SourceSystem].
Proof.
  case_decide as H; [by rewrite H|]. apply eq_true_iff_eq. rewrite !one_of_spec.
  rewrite (elem_of_cons _ s ""). naive_solver.
Qed.

Lemma run_append_accepts now tr run d : Run_ID run ≠ "" →
  append_accepts now (run_event tr run) d =
  one_of (RT_Source tr)
    ["" : string; SourceBridge; SourceRuntime; SourceAgent; SourceComputer; SourcePolicy; SourceSystem] &&
  bool_decide (events_autoinc d < max_int64).
Proof.
  intros Hid. unfold append_accepts.
  rewrite !(bool_decide_true (_ ≠ _)) by done. rewrite <-source_default. done.
Qed.

Lemma transition_body_run now tr d old : db_ok d → runs d !! RT_RunID tr = Some old →
  transition_accepts tr d = true →
  let run := transitioned tr (scanRun (RT_RunID tr) old) in
  let seq := StreamHead d (StreamRun (RT_RunID tr)) + 1 in
  transition_body now tr d =
    (Ok (with_last_seq seq run,
         event_numbered seq (events_autoinc d + 1) (event_defaults now (run_event tr run))),
     transition_result now tr old d).
Proof.
  intros Hd Hold Hacc. unfold transition_accepts in Hacc. rewrite Hold in Hacc.
  rewrite !andb_true_iff in Hacc. destruct Hacc as [[[Hcan Hat] Hsrc] Hmax].
  destruct (ok_runs d Hd _ old Hold) as (Hid & _ & _).
  assert (Hne : RT_RunID tr ≠ "") by (by apply checkID_Ok in Hid as [? _]).
  intros run seq. unfold transition_body, mbind, ST_bind, tx_read, getRun. rewrite Hold.
  change (Run_Status (scanRun (RT_RunID tr) old)) with (run_status old). rewrite Hcan.
  fold run. rewrite (putRun_accepted run d (transition_row tr (RT_RunID tr) old));
    change (Run_ID run) with (RT_RunID tr);
    [|by rewrite Hold|done|by apply transition_row_ok].
  set (d1 := set_runs (<[RT_RunID tr := _]> (runs d)) d).
  assert (Hd1 : db_ok d1) by (by apply db_ok_set_runs, transition_row_ok).
  rewrite AppendEvent_accepted; [|by apply ok_journal|].
  2:{ rewrite run_append_accepts by done. apply andb_true_iff; split; [exact Hsrc|exact Hmax]. }
  unfold append_result. cbn [fst snd].
  change (Event_Stream (run_event tr run)) with (StreamRun (RT_RunID tr)).
  rewrite runIDFromStream_StreamRun by done.
  unfold mret, ST_ret. f_equal. unfold transition_result, d1, appended; simpl.
  rewrite alter_set_last_seq, lookup_insert_eq, insert_insert_eq. done.
Qed.

(** A call either changes nothing or performs an accepted transition. *)
Lemma TransitionRun_io now tr d old : db_ok d → runs d !! RT_RunID tr = Some old →
  transition_accepts tr d = true →
  TransitionRun io_ok now tr d = transition_body now tr d.
Proof.
  intros Hd Hold Hacc. pose proof Hacc as Hacc'. unfold transition_accepts in Hacc'.
  rewrite Hold, !andb_true_iff, negb_true_iff in Hacc'.
  destruct Hacc' as [[[Hcan Hat] Hsrc] Hmax].
  unfold TransitionRun, mbind, ST_bind, st_lift.
  destruct (ok_runs d Hd _ old Hold) as (-> & _ & _).
  rewrite (canTransition_valid _ _ Hcan), Hat; simpl.
  unfold Update, UpdateContext; simpl. by rewrite (transition_body_run now tr d old).
Qed.

Lemma transition_body_rejected now tr d : db_ok d → transition_accepts tr d = false →
  IsZero (RT_At tr) = false → ∃ e d', transition_body now tr d = (Err e, d').
Proof.
  intros Hd Hacc Hat. unfold transition_accepts in Hacc.
  unfold transition_body, mbind, ST_bind, tx_read, getRun.
  destruct (runs d !! RT_RunID tr) as [old|] eqn:Hold; [|eauto].
  change (Run_Status (scanRun (RT_RunID tr) old)) with (run_status old).
  destruct (canTransition (run_status old) (RT_Status tr)) eqn:Hcan; [|unfold st_fail; eauto].
  rewrite Hat in Hacc; simpl in Hacc.
  destruct (ok_runs d Hd _ old Hold) as (Hid & _ & _).
  set (run := transitioned tr (scanRun (RT_RunID tr) old)).
  rewrite (putRun_accepted run d (transition_row tr (RT_RunID tr) old));
    change (Run_ID run) with (RT_RunID tr);
    [|by rewrite Hold|done|by apply transition_row_ok].
  edestruct (AppendEvent_rejected now (run_event tr run)) as [x Hx];
    [|rewrite Hx; eauto].
  rewrite run_append_accepts by (by apply checkID_Ok in Hid as [? _]). exact Hacc.
Qed.

Lemma TransitionRun_rejected io now tr d : db_ok d → transition_accepts tr d = false →
  ∃ e, TransitionRun io now tr d = (Err e, d).
Proof.
  intros Hd Hacc. unfold TransitionRun, mbind, ST_bind, st_lift.
  destruct (checkID _ _) as [[]|x]; [|eauto].
  destruct (valid (RT_Status tr)); simpl; [|unfold st_fail; eauto].
  destruct (IsZero (RT_At tr)) eqn:Hat; [unfold st_fail; eauto|].
  unfold Update, UpdateContext. destruct (begin_fails io); [eauto|].
  destruct (transition_body_rejected now tr d Hd Hacc Hat) as (e & d' & ->). eauto.
Qed.

Lemma TransitionRun_cases io now tr d : db_ok d →
  (TransitionRun io now tr d).2 = d ∨
  ∃ old, runs d !! RT_RunID tr = Some old ∧ transition_accepts tr d = true ∧
    (TransitionRun io now tr d).2 = transition_result now tr old d.
Proof.
  intros Hd. destruct (transition_accepts tr d) eqn:Hacc.
  - destruct (runs d !! RT_RunID tr) as [old|] eqn:Hold;
      [|by unfold transition_accepts in Hacc; rewrite Hold in Hacc].
    pose proof (TransitionRun_io now tr d old Hd Hold Hacc) as Hio.
    unfold TransitionRun, mbind, ST_bind, st_lift in *.
    destruct (checkID _ _) as [[]|x]; [|by left].
    destruct (negb _); [by left|]. destruct (IsZero _); [by left|].
    unfold Update, UpdateContext in *. destruct (begin_fails io); [by left|].
    rewrite (transition_body_run now tr d old) by done. destruct (commit_fails io); [by left|].
    right. eauto.
  - destruct (TransitionRun_rejected io now tr d Hd Hacc) as [e ->]. by left.
Qed.

#[export] Instance TransitionRun_preserves io now tr : Preserves db_ok (TransitionRun io now tr).
Proof.
  apply checked_preserves; intros _. destruct (negb _); [apply _|].
  destruct (IsZero _); [apply _|]. apply UpdateContext_preserves.
  unfold transition_body. apply preserves_bind; [apply _|]. intros run.
  destruct (canTransition _ _); apply _.
Qed.

#[export] Instance SetComputerController_preserves io now cc :
  Preserves db_ok (SetComputerController io now cc).
Proof.
  apply checked_preserves; intros _. apply checked_preserves; intros _.
  destruct (IsZero _); [apply _|]. apply UpdateContext_preserves. apply _.
Qed.

(** ** A controller change in closed form *)

Lemma validateController_ok c : validateController c = Ok () →
  (Controller_Kind c = ControllerHuman ∧ Controller_Channel c ∈ [ChannelLocal; ChannelRemote]) ∨
  (Controller_Kind c ∈ [ControllerAgent; ControllerNone] ∧ Controller_Channel c = ChannelNone).
Proof.
  unfold validateController. case_decide as Hh.
  - destruct (decide (Controller_Channel c = ChannelLocal)) as [->|Hl]; [intros _; left; split; [done|left]|].
    destruct (decide (Controller_Channel c = ChannelRemote)) as [->|Hr];
      [intros _; left; split; [done|right; left]|].
    by rewrite !bool_decide_true.
  - destruct (one_of _ _) eqn:Ho; [|done]. apply one_of_spec in Ho.
    destruct (decide (Controller_Channel c = ChannelNone)); [intros _; by right|].
    by rewrite bool_decide_true.
Qed.

(** When [SetComputerController] goes through. *)
Definition controller_accepts (cc : ControllerChange) (d : db) : bool :=
  bool_decide (is_Some (computer_sessions d !! CC_ComputerSessionID cc)) &&
  is_ok (validateController (CC_Controller cc)) && negb (IsZero (CC_At cc)) &&
  one_of (CC_Source cc)
    ["" : string; SourceBridge; SourceRuntime; SourceAgent; SourceComputer; SourcePolicy;
     SourceSystem] &&
  bool_decide (events_autoinc d < max_int64).

Definition controlled_row (cc : ControllerChange) (s : ComputerSession) (old : ComputerSessionRow) :
    ComputerSessionRow :=
  computer_session_update old (computer_session_row (controlled cc s)).

Lemma controlled_row_ok d cc id old verbs apps : db_ok d →
  computer_sessions d !! id = Some old → validateController (CC_Controller cc) = Ok () →
  let row := controlled_row cc (computer_session_entity id old verbs apps) old in
  computer_session_ok (set_computer_sessions (<[id := row]> (computer_sessions d)) d) id row = true.
Proof.
  intros Hd Hold Hv row. destruct (ok_computer_sessions d Hd id old Hold) as (_ & Hc & Hf).
  unfold computer_session_ok. apply andb_true_iff; split.
  - unfold computer_sessions_check in *. rewrite !andb_true_iff in *.
    destruct Hc as [[Hs _] _]. split_and!; [exact Hs|..]; apply one_of_spec;
      apply validateController_ok in Hv as [[Hk Hch]|[Hk Hch]];
      unfold row, controlled_row; simpl; rewrite ?Hk, ?Hch; set_solver.
  - unfold computer_sessions_fk in *. rewrite !andb_true_iff in *. destruct Hf as [Hs Hr].
    split; [exact Hs|]. by apply refers_nullText.
Qed.

Lemma controller_append_accepts now cc s d :
  append_accepts now (controller_event cc s) d =
  one_of (CC_Source cc)
    ["" : string; SourceBridge; SourceRuntime; SourceAgent; SourceComputer; SourcePolicy;
     SourceSystem] && bool_decide (events_autoinc d < max_int64).
Proof. unfold append_accepts. rewrite !(bool_decide_true (_ ≠ _)) by done. by rewrite <-source_default. Qed.

Definition controller_result (now : time) (cc : ControllerChange) (s' : ComputerSession)
    (old : ComputerSessionRow) (d : db) : db :=
  appended (StreamHead d (StreamComputer (CSession_ID s')) + 1)
    (event_defaults now (controller_event cc s'))
    (computer_session_written s' (computer_session_update old (computer_session_row s')) d).

Lemma SetComputerController_run now cc d old s : db_ok d →
  computer_sessions d !! CC_ComputerSessionID cc = Some old →
  getComputerSession (CC_ComputerSessionID cc) d = Ok s →
  controller_accepts cc d = true →
  let s' := controlled cc s in
  SetComputerController io_ok now cc d =
    (Ok (s', event_numbered (StreamHead d (StreamComputer (CSession_ID s)) + 1)
               (events_autoinc d + 1) (event_defaults now (controller_event cc s'))),
     controller_result now cc s' old d).
Proof.
  intros Hd Hold Hs Hacc s'. unfold controller_accepts in Hacc.
  rewrite !andb_true_iff, negb_true_iff in Hacc. destruct Hacc as [[[[_ Hv] Hat] Hsrc] Hmax].
  destruct (validateController (CC_Controller cc)) as [[]|] eqn:Hval; [|done].
  destruct (ok_computer_sessions d Hd _ old Hold) as (Hid & _ & _).
  unfold SetComputerController, mbind, ST_bind, st_lift. rewrite Hid, Hval, Hat.
  unfold Update, UpdateContext, controller_body, mbind, ST_bind, tx_read; simpl.
  rewrite Hs. fold s'. pose proof Hs as Hs'. unfold getComputerSession in Hs'.
  rewrite Hold in Hs'. injection Hs' as Hs'.
  assert (Hsid : CSession_ID s' = CC_ComputerSessionID cc) by (by unfold s'; rewrite <-Hs').
  set (row := computer_session_update old (computer_session_row s')).
  assert (Hok : computer_session_ok (set_computer_sessions
    (<[CC_ComputerSessionID cc := row]> (computer_sessions d)) d) (CC_ComputerSessionID cc) row = true).
  { unfold row, s'. rewrite <-Hs'. by apply controlled_row_ok. }
  rewrite (putComputerSession_accepted s' d row); rewrite ?Hsid, ?Hold; [|done..].
  assert (Hd1 : db_ok (computer_session_written s' row d)).
  { unfold computer_session_written. rewrite Hsid.
    apply (db_ok_set_computer_children (set_computer_sessions
      (<[CC_ComputerSessionID cc := row]> (computer_sessions d)) d));
      [by apply db_ok_set_computer_sessions|simpl; rewrite lookup_insert_eq; eauto]. }
  rewrite AppendEvent_accepted; [|by apply ok_journal|].
  - unfold append_result; cbn [fst snd].
    change (Event_Stream (controller_event cc s')) with (StreamComputer (CSession_ID s')).
    by rewrite runIDFromStream_StreamComputer.
  - rewrite controller_append_accepts. apply andb_true_iff; split; [exact Hsrc|exact Hmax].
Qed.
