(* ===== verification/Migrate.v ===== *)
(** * Opening and migrating a store

    [src/internal/runtime/migrate.go] and [Store.prepare] of [store.go]: reading
    the schema version, refusing a newer store, backing an existing store up and
    applying the pending migrations in one transaction. *)

From S2P Require Import Prelude Entities Schema Statements.
Open Scope Z_scope.

(** [SchemaVersion]. *)
Definition SchemaVersion : Z := 1.

(** The database file: the [schema_version] ledger ([None] when the table does
    not exist) with its rows (version, applied_at), the names of the other user
    tables, and their rows. *)
Record storefile : Type := {
  sf_ledger : option (list (Z * Z));
  sf_tables : list string;
  sf_content : db
}.

(** The directory: the database file and the backups next to it, named by the
    version they were taken from and the time. *)
Record disk : Type := { dk_file : storefile; dk_backups : gmap (Z * Z) storefile }.

Definition set_ledger (l : option (list (Z * Z))) (f : storefile) : storefile :=
  {| sf_ledger := l; sf_tables := sf_tables f; sf_content := sf_content f |}.

(** [migration]: a version and its step on the open transaction. *)
Record migration : Type := {
  mig_version : Z;
  mig_apply : storefile → result rerr storefile
}.

Definition schema_tables : list string :=
  ["projects"; "project_roots"; "project_sensitive_paths"; "sessions"; "provider_sessions";
   "runs"; "computer_sessions"; "computer_session_verbs"; "computer_session_apps";
   "artifacts"; "policy_rules"; "approvals"; "grants"; "events"].

(** [schemaV1]: the embedded DDL, every statement CREATE ... IF NOT EXISTS. *)
Definition schemaV1 (f : storefile) : result rerr storefile :=
  Ok {| sf_ledger := sf_ledger f;
        sf_tables := sf_tables f ++ filter (λ t, t ∉ sf_tables f) schema_tables;
        sf_content := sf_content f |}.

Definition migrations : list migration := [{| mig_version := 1; mig_apply := schemaV1 |}].

(** [readVersion]. *)
Definition readVersion (f : storefile) : Z :=
  match sf_ledger f with
  | None => 0
  | Some rows => coalesce (sql_max (rows.*1)) 0
  end.

(** [hasTables]. *)
Definition hasTables (f : storefile) : bool := bool_decide (sf_tables f ≠ []).

(** [backup]: refuses to overwrite, else snapshots the file. *)
Definition backup (now : Z) (fromVersion : Z) (k : disk) : result rerr disk :=
  match dk_backups k !! (fromVersion, now) with
  | Some _ => Err ErrBackupExists
  | None => Ok {| dk_file := dk_file k;
                  dk_backups := <[(fromVersion, now) := dk_file k]> (dk_backups k) |}
  end.

(** [pendingMigrations]: the loop with [want] and the steps collected so far;
    [None] is the early [return nil]. *)
Fixpoint pending_from (want : Z) (migs : list migration) : option (list migration) :=
  match migs with
  | [] => Some []
  | m :: migs' =>
      if decide (mig_version m < want) then pending_from want migs'
      else if decide (mig_version m ≠ want) then None
      else (λ steps, m :: steps) <$> pending_from (want + 1) migs'
  end.

Definition pendingMigrations (from : Z) (migs : list migration) : list migration :=
  match pending_from (from + 1) migs with
  | None => []
  | Some steps =>
      match last steps with
      | Some m => if decide (mig_version m = SchemaVersion) then steps else []
      | None => []
      end
  end.

(** Recording one version: the ledger's primary key is the version. [clock v] is
    the time at which version [v] is recorded. *)
Definition record_version (clock : Z → time) (v : Z) (f : storefile) : result rerr storefile :=
  let rows := default [] (sf_ledger f) in
  if decide (v ∈ rows.*1) then Err (ErrConstraint "record migration")
  else Ok (set_ledger (Some (rows ++ [(v, UnixMilli (clock v))])) f).

Fixpoint apply_steps (clock : Z → time) (steps : list migration) (f : storefile) :
    result rerr storefile :=
  match steps with
  | [] => Ok f
  | m :: steps' =>
      f' ← mig_apply m f;
      f'' ← record_version clock (mig_version m) f';
      apply_steps clock steps' f''
  end.

(** [migrate]: everything happens on the transaction's copy of the file, which
    replaces the file only when the commit is reached and succeeds. *)
Definition migrate (commit_fails : bool) (clock : Z → time) (from : Z) (migs : list migration)
    (f : storefile) : result rerr () * storefile :=
  match pendingMigrations from migs with
  | [] => (Err (ErrNoMigrationPath from SchemaVersion), f)
  | steps =>
      let f0 := set_ledger (Some (default [] (sf_ledger f))) f in
      match apply_steps clock steps f0 with
      | Err e => (Err e, f)
      | Ok f' => if commit_fails then (Err (ErrIO "commit migration"), f) else (Ok (), f')
      end
  end.

(** [Store.prepare]. *)
Definition prepare (commit_fails : bool) (now : Z) (clock : Z → time)
    (migs : list migration) (k : disk) : result rerr () * disk :=
  let version := readVersion (dk_file k) in
  if decide (version > SchemaVersion) then (Err (ErrSchemaNewer version SchemaVersion), k)
  else if decide (version = SchemaVersion) then (Ok (), k)
  else
    let backed := if hasTables (dk_file k) then backup now version k else Ok k in
    match backed with
    | Err e => (Err e, k)
    | Ok k' =>
        let '(r, f') := migrate commit_fails clock version migs (dk_file k') in
        (r, {| dk_file := f'; dk_backups := dk_backups k' |})
    end.

(** ** Lemmas *)

(** The steps are consecutive versions, in the order of the list. *)
Lemma pending_from_spec want migs steps : pending_from want migs = Some steps →
  mig_version <$> steps = seqZ want (Z.of_nat (length steps)) ∧ sublist steps migs.
Proof.
  revert want steps; induction migs as [|m migs IH]; intros want steps; simpl.
  - intros [= <-]. split; [done|constructor].
  - case_decide; [intros [? ?]%IH; split; [done|by constructor]|].
    case_decide as Heq; [done|].
    destruct (pending_from (want + 1) migs) as [steps'|] eqn:E; simpl; [|done].
    intros [= <-]. destruct (IH _ _ E) as [Hv Hs]. split; [|by constructor].
    rewrite fmap_cons, Hv, Heq; cbn [length].
    rewrite Nat2Z.inj_succ, (seqZ_cons want) by lia. by rewrite Z.pred_succ, Z.add_1_r.
Qed.

Lemma pendingMigrations_spec from migs : pendingMigrations from migs ≠ [] →
  mig_version <$> pendingMigrations from migs = seqZ (from + 1) (SchemaVersion - from) ∧
  sublist (pendingMigrations from migs) migs.
Proof.
  unfold pendingMigrations. destruct (pending_from (from + 1) migs) as [steps|] eqn:E; [|done].
  apply pending_from_spec in E as [Hv Hs]. destruct (last steps) as [m|] eqn:Hl; [|done].
  case_decide as Hm; [|done]. intros _. split; [|done].
  assert (Hlast : last (mig_version <$> steps) = Some SchemaVersion) by (by rewrite fmap_last, Hl, <-Hm).
  rewrite Hv in Hlast |- *. f_equal.
  destruct (length steps) as [|n]; [done|].
  rewrite seqZ_S, last_snoc in Hlast. injection Hlast. lia.
Qed.

(** A step list that leaves the ledger to the runner records every version. *)
Lemma apply_steps_ledger clock steps f f' rows :
  Forall (λ m, ∀ g g', mig_apply m g = Ok g' → sf_ledger g' = sf_ledger g) steps →
  sf_ledger f = Some rows → apply_steps clock steps f = Ok f' →
  ∃ rows', sf_ledger f' = Some rows' ∧ rows'.*1 = rows.*1 ++ (mig_version <$> steps).
Proof.
  revert f rows; induction steps as [|m steps IH]; intros f rows; simpl.
  - intros _ Hl [= <-]. exists rows. by rewrite app_nil_r.
  - intros [Hm Hms]%Forall_cons Hl. unfold mbind, result_bind.
    destruct (mig_apply m f) as [g|] eqn:Hg; [|done].
    pose proof (Hm _ _ Hg) as Hl'. unfold record_version. rewrite Hl', Hl; simpl.
    case_decide; [done|]. intros Hrest.
    destruct (IH (set_ledger (Some (rows ++ [(mig_version m,
      UnixMilli (clock (mig_version m)))])) g) _ Hms eq_refl Hrest) as (rows' & Hr & Hr').
    exists rows'. split; [done|]. rewrite Hr', fmap_app; simpl. by rewrite <-app_assoc.
Qed.

(** After a successful migration of a list that keeps the ledger, the version
    is the one this binary supports. *)
Lemma migrate_version commit_fails clock from migs f f' :
  Forall (λ m, ∀ g g', mig_apply m g = Ok g' → sf_ledger g' = sf_ledger g) migs →
  from = readVersion f → from < SchemaVersion →
  migrate commit_fails clock from migs f = (Ok (), f') → readVersion f' = SchemaVersion.
Proof.
  intros Hkeep Hfrom Hlt. unfold migrate.
  destruct (pendingMigrations from migs) as [|m steps] eqn:Hp; [done|].
  assert (Hne : pendingMigrations from migs ≠ []) by (by rewrite Hp).
  destruct (pendingMigrations_spec from migs Hne) as [Hv Hsub]. rewrite Hp in Hv, Hsub.
  destruct (apply_steps _ _ _) as [g|e] eqn:Happ; [|done].
  destruct commit_fails; [done|]. intros [= ->].
  destruct (apply_steps_ledger clock (m :: steps) (set_ledger (Some (default [] (sf_ledger f))) f)
    f' (default [] (sf_ledger f))) as (rows' & Hr & Hr'); [|done|exact Happ|].
  { by eapply Forall_sublist. }
  unfold readVersion at 1. rewrite Hr, Hr', Hv.
  replace (SchemaVersion - from) with (Z.of_nat (S (Z.to_nat (SchemaVersion - from - 1)))) by lia.
  rewrite seqZ_S, app_assoc, sql_max_last; [unfold coalesce; simpl; lia|].
  apply Forall_app; split; [|apply Forall_forall; intros x [i Hi]%list_elem_of_lookup;
    apply lookup_seqZ in Hi; lia].
  unfold readVersion in Hfrom. destruct (sf_ledger f) as [rows|]; simpl; [|constructor].
  destruct (sql_max rows.*1) as [y|] eqn:E; simpl in Hfrom.
  - eapply Forall_impl; [by apply sql_max_upper|]. simpl; lia.
  - by destruct rows as [|[] rows]; [|simpl in E; destruct (sql_max rows.*1)].
Qed.
