(* ===== verification/RuntimeSpec.v ===== *)
(** * What the runtime store guarantees

    The properties of the store, stated on the operations of [Transitions],
    [Journal], [Store], [EntityOps], [RunOps], [PolicyOps] and [Migrate], and a
    sample store on which each is applied. *)

From S2P Require Import Prelude Entities Schema Statements EntityOps RunOps PolicyOps.
From S2P Require Import Journal Integrity Store Transitions Migrate.
Open Scope Z_scope.

(** ** A sample store *)

Definition sample_session : Session := {|
  Session_ID := "ses_1"; Session_ProjectID := ""; Session_Title := "demo";
  Session_CallerClass := CallerLocalUI; Session_ExternalConversation := "";
  Session_Status := SessionOpen; Session_CreatedAt := 5000000; Session_UpdatedAt := 5000000 |}.

Definition sample_run : Run := {|
  Run_ID := "run_1"; Run_SessionID := "ses_1"; Run_ProjectID := ""; Run_Kind := RunAgent;
  Run_Provider := "codex"; Run_Model := ""; Run_Autonomy := ""; Run_Role := "";
  Run_ParentRunID := ""; Run_ContinuesRunID := ""; Run_ProviderSessionID := "";
  Run_Status := RunQueued; Run_ProcessPID := 0; Run_ProcessStartedAt := zero_time;
  Run_ProcessGroupID := 0; Run_OutputRef := ""; Run_ErrorCategory := ""; Run_LastSeq := 0;
  Run_CreatedAt := 6000000; Run_StartedAt := zero_time; Run_FinishedAt := zero_time |}.

Definition sample_computer : ComputerSession := {|
  CSession_ID := "cmp_1"; CSession_SessionID := "ses_1"; CSession_RunID := "run_1";
  CSession_Target := "desktop"; CSession_State := ComputerActive;
  CSession_Controller := {| Controller_Kind := ControllerNone; Controller_Holder := "";
                            Controller_Channel := ChannelNone |};
  CSession_ControllerEpoch := 7; CSession_ArbiterInstance := ""; CSession_LeaseHolder := "";
  CSession_LeaseExpiresAt := zero_time; CSession_CanObserve := true; CSession_CanInput := true;
  CSession_CanPreview := false; CSession_GrantedVerbs := [VerbComputerObserve; VerbComputerInput];
  CSession_AppSelectors := ["com.example.app"]; CSession_LastFrameID := "";
  CSession_GeometryGeneration := 0; CSession_CreatedAt := 7000000; CSession_UpdatedAt := 7000000 |}.

Definition sample_grant : Grant := {|
  Grant_ID := "grant_1"; Grant_Verb := VerbComputerInput; Grant_Selector := "*";
  Grant_Scope := ScopeSession; Grant_SessionID := "ses_1"; Grant_ProjectID := "";
  Grant_RunID := ""; Grant_ApprovalID := ""; Grant_Channel := ApprovalRemoteHuman;
  Grant_ExpiresAt := zero_time; Grant_CreatedAt := 8000000; Grant_RevokedAt := zero_time |}.

Definition sample_transition (status : string) : RunTransition := {|
  RT_RunID := "run_1"; RT_Status := status; RT_At := 9000000; RT_Source := "";
  RT_ErrorCategory := ""; RT_OutputRef := ""; RT_CorrelationID := "c1"; RT_Payload := "" |}.

Definition sample_change : ControllerChange := {|
  CC_ComputerSessionID := "cmp_1";
  CC_Controller := {| Controller_Kind := ControllerHuman; Controller_Holder := "alice";
                      Controller_Channel := ChannelLocal |};
  CC_At := 9500000; CC_Source := SourceComputer; CC_CorrelationID := ""; CC_Payload := "" |}.

Fixpoint run_ops (ops : list tx_op) (d : db) : db :=
  match ops with [] => d | op :: ops' => run_ops ops' (run_op op d).2 end.

Lemma run_ops_ok ops d : db_ok d → db_ok (run_ops ops d).
Proof. revert d; induction ops as [|op ops IH]; intros d Hd; simpl; [done|]. by apply IH, run_op_preserves. Qed.

Definition sample_db : db := run_ops
  [OpPutSession sample_session; OpPutRun sample_run; OpPutComputerSession sample_computer;
   OpPutGrant sample_grant] empty_db.

Lemma sample_db_ok : db_ok sample_db.
Proof. apply run_ops_ok, empty_db_ok. Qed.

(** ** Run transitions *)



(** The statuses a run goes through: consecutive legal changes. *)
Inductive status_path : string → list string → string → Prop :=
  | path_nil s : status_path s [] s
  | path_step s t l u : canTransition s t = true → status_path t l u → status_path s (t :: l) u.

(** Any number of [TransitionRun] calls, for any runs, errors ignored. *)
Fixpoint transition_all (calls : list (TxIO * time * RunTransition)) (d : db) : db :=
  match calls with
  | [] => d
  | (io, now, tr) :: calls' => transition_all calls' (TransitionRun io now tr d).2
  end.

(** The event kinds of a run's stream, in order. *)
Definition stream_kinds (d : db) (id : string) : list string :=
  ev_kind <$> stream_rows d (StreamRun id).

Lemma StreamRun_inj id1 id2 : StreamRun id1 = StreamRun id2 → id1 = id2.
Proof.
  intros H. apply (f_equal (λ s, CutPrefix s streamRunPrefix)) in H.
  unfold StreamRun in H. rewrite !CutPrefix_app in H. congruence.
Qed.

Lemma transition_step_kinds io now tr d id old : db_ok d → runs d !! id = Some old →
  ∃ sts new, runs (TransitionRun io now tr d).2 !! id = Some new ∧
    status_path (run_status old) sts (run_status new) ∧
    stream_kinds (TransitionRun io now tr d).2 id =
      stream_kinds d id ++ ((λ s, "run." +:+ s) <$> sts).
Proof.
  intros Hd Hold. destruct (TransitionRun_cases io now tr d Hd) as [->|(old' & Hold' & Hacc & ->)].
  { exists [], old. rewrite app_nil_r. by repeat constructor. }
  unfold stream_kinds, transition_result, stream_rows; simpl. rewrite filter_app.
  destruct (decide (RT_RunID tr = id)) as [<-|Hne].
  - rewrite Hold in Hold'. injection Hold' as <-.
    unfold transition_accepts in Hacc. rewrite Hold, !andb_true_iff in Hacc.
    destruct Hacc as [[[Hcan _] _] _].
    eexists [RT_Status tr], _. rewrite lookup_insert_eq. split_and!; [done| |].
    + econstructor; [exact Hcan|constructor].
    + by rewrite filter_cons_True, fmap_app.
  - exists [], old. rewrite lookup_insert_ne by done. split_and!; [done|constructor|].
    rewrite filter_cons_False; [by rewrite app_nil_r; simpl; rewrite app_nil_r|]. simpl.
    by intros ?%StreamRun_inj.
Qed.

Lemma status_path_app s l t k u : status_path s l t → status_path t k u → status_path s (l ++ k) u.
Proof. induction 1; simpl; [done|]. intros. econstructor; eauto. Qed.

Lemma status_path_short s l u : status_path s l u → (length l ≤ 2)%nat.
Proof.
  inversion 1 as [|? t ? ? Hc1 Hp1]; subst; simpl; [lia|].
  inversion Hp1 as [|? t2 ? ? Hc2 Hp2]; subst; simpl; [lia|].
  inversion Hp2 as [|? t3 ? ? Hc3 Hp3]; subst; simpl; [lia|]. exfalso.
  apply canTransition_spec in Hc2 as [[-> H2]|[-> H2]].
  - destruct (canTransition_terminal _ _ Hc1) as [|Ht]; [discriminate|].
    vm_compute in Ht; discriminate.
  - rewrite Terminal_no_successor in Hc3; [done|]. by apply one_of_spec.
Qed.

(** C2. The journal of a run refines its state machine: whatever sequence of
    transition calls is made on a well-formed store, for this run or others,
    with failing begins and commits or not, the events added to the run's stream
    spell out the statuses it went through, each a legal change from the
    previous one, and lead to its present status; there are at most two. *)
Theorem journal_refines_run_machine calls d id old :
  db_ok d → runs d !! id = Some old →
  ∃ sts new, runs (transition_all calls d) !! id = Some new ∧
    status_path (run_status old) sts (run_status new) ∧ (length sts ≤ 2)%nat ∧
    stream_kinds (transition_all calls d) id =
      stream_kinds d id ++ ((λ s, "run." +:+ s) <$> sts).
Proof.
  intros Hd Hold. enough (∃ sts new, runs (transition_all calls d) !! id = Some new ∧
    status_path (run_status old) sts (run_status new) ∧
    stream_kinds (transition_all calls d) id =
      stream_kinds d id ++ ((λ s, "run." +:+ s) <$> sts)) as (sts & new & ? & Hp & ?).
  { exists sts, new. split_and!; try done. by eapply status_path_short. }
  revert d old Hd Hold. induction calls as [|[[io now] tr] calls IH]; intros d old Hd Hold; simpl.
  - exists [], old. rewrite app_nil_r. by repeat constructor.
  - destruct (transition_step_kinds io now tr d id old Hd Hold) as (sts & new & Hnew & Hp & Hk).
    destruct (IH _ new (preserves (P := db_ok) (m := TransitionRun io now tr) d Hd) Hnew)
      as (sts' & new' & Hnew' & Hp' & Hk').
    exists (sts ++ sts'), new'. split_and!; [done|by eapply status_path_app|].
    by rewrite Hk', Hk, fmap_app, app_assoc.
Qed.

Lemma journal_refines_run_machine_witness :
  db_ok sample_db ∧ (∃ old, runs sample_db !! "run_1" = Some old ∧
  ∃ sts new, runs (transition_all [(io_ok, 0, sample_transition RunRunning);
      (io_ok, 0, sample_transition RunQueued); (io_ok, 0, sample_transition RunFailed)] sample_db)
      !! "run_1" = Some new ∧
    status_path (run_status old) sts (run_status new) ∧ run_status new = RunFailed).
Proof.
  split; [exact sample_db_ok|].
  destruct (runs sample_db !! "run_1") as [old|] eqn:Hold; [|vm_compute in Hold; discriminate].
  exists old. split; [reflexivity|].
  destruct (journal_refines_run_machine [(io_ok, 0, sample_transition RunRunning);
      (io_ok, 0, sample_transition RunQueued); (io_ok, 0, sample_transition RunFailed)]
      sample_db "run_1" old sample_db_ok Hold) as (sts & new & Hn & Hp & _).
  exists sts, new. split; [exact Hn|]. split; [exact Hp|].
  assert (Hs : run_status <$> runs (transition_all [(io_ok, 0, sample_transition RunRunning);
      (io_ok, 0, sample_transition RunQueued); (io_ok, 0, sample_transition RunFailed)] sample_db)
      !! "run_1" = Some RunFailed) by (vm_compute; reflexivity).
  rewrite Hn in Hs. injection Hs as Hs. exact Hs.
Defined.

(** ** Invariant of the store *)

(** C3. Every store reachable from the empty one by transactions, whose
    callbacks perform any operations [Tx] offers in any order, ignoring errors or
    not, with begins and commits that may fail, is well formed: the schema's
    CHECKs, foreign keys and unique indexes hold and the journal is
    contiguous. In particular two distinct active runs never share a provider
    session. *)
Theorem reachable_store_ok d : rtc store_step empty_db d →
  db_ok d ∧
  (∀ id1 id2 r1 r2 p, runs d !! id1 = Some r1 → runs d !! id2 = Some r2 →
     one_of (run_status r1) [RunQueued; RunRunning] = true →
     one_of (run_status r2) [RunQueued; RunRunning] = true →
     run_provider_session_id r1 = Some p → run_provider_session_id r2 = Some p → id1 = id2).
Proof.
  intros Hr. assert (Hd : db_ok d).
  { assert (Hgen : ∀ a b, rtc store_step a b → db_ok a → db_ok b)
      by (induction 1; eauto using store_step_ok).
    exact (Hgen _ _ Hr empty_db_ok). }
  split; [done|]. intros id1 id2 r1 r2 p H1 H2 Ha1 Ha2 Hp1 Hp2.
  apply (ok_runs_unique d Hd id1 id2 r1 r2 p); [done..| |];
    unfold active_provider_session; by rewrite ?Ha1, ?Ha2.
Qed.

Lemma callback_op op : callback (run_op op).
Proof. intros d. apply rtc_once. by exists op. Qed.

Lemma reachable_store_ok_witness :
  rtc store_step empty_db (Update io_ok (Some (run_op (OpPutSession sample_session))) empty_db).2 ∧
  db_ok (Update io_ok (Some (run_op (OpPutSession sample_session))) empty_db).2.
Proof.
  assert (H : rtc store_step empty_db
    (Update io_ok (Some (run_op (OpPutSession sample_session))) empty_db).2).
  { apply rtc_once. exists unit, io_ok, (run_op (OpPutSession sample_session)).
    split; [apply callback_op|reflexivity]. }
  split; [exact H|]. exact (proj1 (reachable_store_ok _ H)).
Defined.

(** A stored grant obeys the approval rules in every well-formed store:
    what came through the remote human channel is scoped to one use or to a
    named session and never covers reading secrets or uploading to the cloud, and
    a project-wide grant never covers a computer verb. *)
Theorem stored_grants_bounded d id g : db_ok d → getGrant id d = Ok g →
  (Grant_Channel g = ApprovalRemoteHuman →
     (Grant_Scope g = ScopeOnce ∨ Grant_Scope g = ScopeSession) ∧
     Grant_Verb g ≠ VerbSecretRead ∧ Grant_Verb g ≠ VerbCloudUpload) ∧
  (Grant_Scope g = ScopeProject → like_computer (Grant_Verb g) = false) ∧
  (Grant_Scope g = ScopeSession →
     ∃ sid, grt_session_id <$> grants d !! id = Some (Some sid) ∧ is_Some (sessions d !! sid)).
Proof.
  intros Hd. unfold getGrant. destruct (grants d !! id) as [r|] eqn:Hr; [|done].
  intros [= <-]. destruct (ok_grants d Hd id r Hr) as [Hc Hf].
  unfold grants_check in Hc. rewrite !andb_true_iff, !orb_true_iff, !andb_true_iff, !negb_true_iff in Hc.
  destruct Hc as [[[[_ _] Hproj] Hses] Hch]. simpl. split_and!.
  - intros Hrem. destruct Hch as [H%bool_decide_eq_true|[Hs Hv]]; [done|].
    apply one_of_spec in Hs. rewrite !elem_of_cons, elem_of_nil in Hs.
    assert (Hv' : grt_verb r ∉ [VerbSecretRead; VerbCloudUpload]) by (rewrite <-one_of_spec; congruence).
    rewrite !not_elem_of_cons in Hv'. tauto.
  - intros Hp. destruct Hproj as [H%bool_decide_eq_true|?]; done.
  - intros Hs. destruct Hses as [H%bool_decide_eq_true|H%bool_decide_eq_true]; [done|].
    destruct (grt_session_id r) as [sid|] eqn:Hsid; [|done].
    exists sid. split; [done|].
    unfold grants_fk in Hf. rewrite !andb_true_iff, Hsid in Hf. by apply refers_Some, Hf.
Qed.

Lemma stored_grants_bounded_witness :
  db_ok sample_db ∧ (∃ g, getGrant "grant_1" sample_db = Ok g ∧
    Grant_Channel g = ApprovalRemoteHuman ∧ Grant_Verb g ≠ VerbSecretRead).
Proof.
  split; [exact sample_db_ok|].
  destruct (getGrant "grant_1" sample_db) as [g|] eqn:Hg; [|vm_compute in Hg; discriminate].
  exists g. split; [reflexivity|].
  assert (Hc : Grant_Channel g = ApprovalRemoteHuman) by (vm_compute in Hg; injection Hg as <-; reflexivity).
  split; [exact Hc|].
  exact (proj1 (proj2 (proj1 (stored_grants_bounded _ _ _ sample_db_ok Hg) Hc))).
Defined.

(** ** Reading back *)

(** Every Put/Get pair of the store keeps its contract: a successful put is
    read back, field by field and with its ordered child lists, up to the
    store's millisecond timestamps and the columns an upsert keeps (creation
    time, and a run's stream head); other ids are not touched; a put that fails
    changes nothing. *)
Theorem entities_read_back :
  EntityLaws Project ∧ EntityLaws Session ∧ EntityLaws ProviderSession ∧ EntityLaws Run ∧
  EntityLaws ComputerSession ∧ EntityLaws Artifact ∧ EntityLaws PolicyRule ∧
  EntityLaws Grant ∧ EntityLaws Approval.
Proof. split_and!; apply _. Qed.

(** ** Journal reads *)

(** A reader that follows the journal page by page from any cursor, with
    any requested page size, terminates having seen every event after the
    cursor exactly once, in position order. *)
Theorem journal_paging_complete d limit cursor : journal_ok d →
  ∀ fuel, (length (events d) < fuel)%nat →
  follow fuel d cursor limit = scanEvents (filter (λ r, cursor < ev_pos r) (events d)) ∧
  StronglySorted Z.lt (Event_Pos <$> follow fuel d cursor limit).
Proof.
  intros Hj fuel Hf.
  assert (Heq : follow fuel d cursor limit = scanEvents (filter (λ r, cursor < ev_pos r) (events d))).
  { apply follow_complete; [done|]. eapply Nat.le_lt_trans; [|exact Hf]. apply length_filter. }
  split; [exact Heq|]. rewrite Heq. unfold scanEvents. rewrite <-list_fmap_compose.
  apply (sorted_filter ev_pos), jo_sorted, Hj.
Qed.

Lemma journal_paging_complete_witness :
  let d := (TransitionRun io_ok 0 (sample_transition RunRunning) sample_db).2 in
  journal_ok d ∧ (length (events d) < 5)%nat ∧ length (follow 5 d 0 1) = 1%nat.
Proof.
  set (d := (TransitionRun io_ok 0 (sample_transition RunRunning) sample_db).2).
  assert (Hj : journal_ok d).
  { apply ok_journal, (preserves (P := db_ok) (m := TransitionRun io_ok 0 _)), sample_db_ok. }
  assert (Hl : (length (events d) < 5)%nat) by (apply Nat.ltb_lt; vm_compute; reflexivity).
  split; [exact Hj|]. split; [exact Hl|].
  rewrite (proj1 (journal_paging_complete d 1 0 Hj 5 Hl)). vm_compute; reflexivity.
Defined.

(** [ValidateContiguous] accepts exactly the pages that continue after
    [afterSeq] without a gap; otherwise it reports the first event out of place,
    with the number it should have had. *)
Theorem ValidateContiguous_spec evs afterSeq :
  0 ≤ afterSeq → afterSeq + Z.of_nat (length evs) < max_int64 →
  match ValidateContiguous evs afterSeq with
  | Ok _ => Event_Seq <$> evs = seqZ (afterSeq + 1) (Z.of_nat (length evs))
  | Err e => ∃ before ev rest, evs = before ++ ev :: rest ∧
      Event_Seq <$> before = seqZ (afterSeq + 1) (Z.of_nat (length before)) ∧
      Event_Seq ev ≠ afterSeq + 1 + Z.of_nat (length before) ∧
      e = ErrGap (Event_Stream ev) (afterSeq + 1 + Z.of_nat (length before)) (Event_Seq ev)
  end.
Proof.
  intros H0 Hmax. unfold ValidateContiguous. rewrite wrap64_id by (unfold min_int64; lia).
  assert (Hw : 0 ≤ afterSeq + 1) by lia. assert (Hm : afterSeq + 1 + Z.of_nat (length evs) ≤ max_int64) by lia.
  generalize dependent (afterSeq + 1). clear. intros want Hw Hm.
  revert want Hw Hm. induction evs as [|ev evs IH]; intros want Hw Hm; simpl; [done|].
  simpl in Hm. case_decide as Hev.
  - rewrite wrap64_id by (unfold min_int64; lia).
    specialize (IH (want + 1)). destruct (validate_from (want + 1) evs) as [[]|e].
    + rewrite Nat2Z.inj_succ, seqZ_cons by lia. rewrite Z.pred_succ, Hev.
      f_equal. apply IH; lia.
    + destruct IH as (before & ev' & rest & -> & Hb & Hne & ->); [lia|lia|].
      exists (ev :: before), ev', rest. cbn [length]. rewrite Nat2Z.inj_succ.
      split_and!; [done| |lia|f_equal; lia].
      rewrite fmap_cons, Hb, (seqZ_cons want) by lia. by rewrite Z.pred_succ, Hev.
  - exists [], ev, evs. simpl. split_and!; [done|done|lia|f_equal; lia].
Qed.

Definition sample_event (seq : Z) : Event :=
  event_numbered seq seq (run_event (sample_transition RunRunning) sample_run).

Lemma ValidateContiguous_spec_witness :
  ∃ before ev rest, [sample_event 4; sample_event 6] = before ++ ev :: rest ∧
    Event_Seq ev = 6.
Proof.
  pose proof (ValidateContiguous_spec [sample_event 4; sample_event 6] 3
    ltac:(lia) ltac:(vm_compute; reflexivity)) as H.
  assert (E : ValidateContiguous [sample_event 4; sample_event 6] 3 =
    Err (ErrGap "run:run_1" 5 6)) by (vm_compute; reflexivity).
  rewrite E in H. destruct H as (before & ev & rest & H1 & _ & _ & H2).
  exists before, ev, rest. split; [exact H1|]. by injection H2.
Defined.

(** Replaying one stream: a page of [EventsForStream] after any sequence
    number is accepted by [ValidateContiguous] for that number, and it is the
    next slice of the stream, so a stream whose head is [n] is read to the end
    by pages that start where the last one stopped. *)
Theorem stream_replay_contiguous d stream after limit : journal_ok d →
  0 ≤ after ≤ StreamHead d stream →
  ValidateContiguous (EventsForStream d stream after limit) after = Ok () ∧
  Event_Seq <$> EventsForStream d stream after limit =
    seqZ (after + 1) (Z.min (eventPageLimit limit) (StreamHead d stream - after)).
Proof.
  intros Hj Ha. pose proof (stream_length d stream Hj) as Hmax.
  rewrite stream_head_length in * by done. rewrite EventsForStream_eq by done.
  set (rows := stream_rows d stream) in *. pose proof (eventPageLimit_range limit) as Hn.
  set (n := eventPageLimit limit) in *.
  set (page := take (Z.to_nat n) (drop (Z.to_nat after) rows)).
  assert (Hlen : Z.of_nat (length page) = Z.min n (Z.of_nat (length rows) - after)).
  { unfold page. rewrite length_take, length_drop. lia. }
  assert (Hseq : ev_seq <$> page = seqZ (after + 1) (Z.of_nat (length page))).
  { unfold page at 1. rewrite fmap_take, fmap_drop. unfold rows. rewrite jo_contiguous by done.
    fold rows. apply list_eq. intros i.
    destruct (decide (Z.of_nat i < Z.of_nat (length page))) as [Hi|Hi].
    - rewrite lookup_take_lt, lookup_drop, !lookup_seqZ_lt by lia. f_equal; lia.
    - rewrite (lookup_seqZ_ge (after + 1)) by lia.
      destruct (decide (i < Z.to_nat n)%nat).
      + rewrite lookup_take_lt, lookup_drop by done. apply lookup_seqZ_ge. lia.
      + by rewrite lookup_take_ge by lia. }
  split.
  - unfold ValidateContiguous. destruct page as [|r page'] eqn:Hp; [done|]. rewrite <-Hp in *.
    assert (0 < Z.of_nat (length page)) by (rewrite Hp; simpl; lia).
    rewrite wrap64_id by (unfold min_int64; lia).
    apply validate_from_contiguous; [done|lia|lia].
  - unfold scanEvents. rewrite <-list_fmap_compose, <-Hlen. exact Hseq.
Qed.

Lemma stream_replay_contiguous_witness :
  let d := (TransitionRun io_ok 0 (sample_transition RunRunning) sample_db).2 in
  journal_ok d ∧ (0 ≤ 0 ≤ StreamHead d (StreamRun "run_1")) ∧
  ValidateContiguous (EventsForStream d (StreamRun "run_1") 0 10) 0 = Ok ().
Proof.
  set (d := (TransitionRun io_ok 0 (sample_transition RunRunning) sample_db).2).
  assert (Hj : journal_ok d).
  { apply ok_journal, (preserves (P := db_ok) (m := TransitionRun io_ok 0 _)), sample_db_ok. }
  assert (Hh : 0 ≤ 0 ≤ StreamHead d (StreamRun "run_1")) by (vm_compute; split; discriminate).
  split; [exact Hj|]. split; [exact Hh|].
  exact (proj1 (stream_replay_contiguous d (StreamRun "run_1") 0 10 Hj Hh)).
Defined.

(** ** Controllers *)

(** [SetComputerController] on a well-formed store: with a valid controller,
    a timestamp, a known source and a journal position left, the stored
    session carries the new controller and an epoch one higher (as long as the
    [int64] epoch is not exhausted), everything else about the session is kept,
    and the change is journalled once on the session's own stream. *)
Theorem SetComputerController_spec now cc d s : db_ok d →
  getComputerSession (CC_ComputerSessionID cc) d = Ok s →
  controller_accepts cc d = true → min_int64 ≤ CSession_ControllerEpoch s < max_int64 →
  ∃ s' ev d' stored, SetComputerController io_ok now cc d = (Ok (s', ev), d') ∧
    getComputerSession (CC_ComputerSessionID cc) d' = Ok stored ∧
    CSession_Controller stored = CC_Controller cc ∧
    CSession_ControllerEpoch stored = CSession_ControllerEpoch s + 1 ∧
    CSession_GrantedVerbs stored = CSession_GrantedVerbs s ∧
    CSession_AppSelectors stored = CSession_AppSelectors s ∧
    CSession_State stored = CSession_State s ∧
    Event_Kind ev = "computer.controller.changed" ∧
    Event_Seq ev = StreamHead d (StreamComputer (CC_ComputerSessionID cc)) + 1 ∧
    events d' = events d ++ [event_row (Event_Pos ev) (Event_Seq ev) ev] ∧
    (∀ id, id ≠ CC_ComputerSessionID cc → getComputerSession id d' = getComputerSession id d) ∧
    runs d' = runs d ∧ db_ok d'.
Proof.
  intros Hd Hs Hacc Hep.
  assert (Hold : ∃ old, computer_sessions d !! CC_ComputerSessionID cc = Some old).
  { unfold getComputerSession in Hs. destruct (computer_sessions d !! _); [eauto|done]. }
  destruct Hold as [old Hold].
  pose proof (preserves (P := db_ok) (m := SetComputerController io_ok now cc) d Hd) as Hd'.
  rewrite (SetComputerController_run now cc d old s Hd Hold Hs Hacc) in *. cbn [snd] in Hd'.
  unfold getComputerSession in Hs. rewrite Hold in Hs. injection Hs as <-.
  do 4 eexists. split; [reflexivity|].
  unfold getComputerSession at 1; simpl. rewrite lookup_insert_eq.
  split; [reflexivity|]. simpl. rewrite !select_children_same.
  split_and!; try done.
  - by destruct cc as [? [] ? ? ? ?].
  - apply wrap64_id. simpl in Hep. lia.
  - intros id Hne. unfold getComputerSession; simpl. rewrite lookup_insert_ne by done.
    destruct (computer_sessions d !! id); [|done]. by rewrite !select_children_other.
Qed.

Lemma SetComputerController_spec_witness :
  db_ok sample_db ∧ controller_accepts sample_change sample_db = true ∧
  ∃ s s' ev d' stored, getComputerSession "cmp_1" sample_db = Ok s ∧
    SetComputerController io_ok 0 sample_change sample_db = (Ok (s', ev), d') ∧
    getComputerSession "cmp_1" d' = Ok stored ∧
    CSession_ControllerEpoch stored = CSession_ControllerEpoch s + 1.
Proof.
  split; [exact sample_db_ok|].
  assert (Ha : controller_accepts sample_change sample_db = true) by (vm_compute; reflexivity).
  split; [exact Ha|].
  destruct (getComputerSession "cmp_1" sample_db) as [s|] eqn:Hs; [|vm_compute in Hs; discriminate].
  assert (He : min_int64 ≤ CSession_ControllerEpoch s < max_int64).
  { vm_compute in Hs. injection Hs as <-. vm_compute; split; [discriminate|reflexivity]. }
  destruct (SetComputerController_spec 0 sample_change sample_db s sample_db_ok Hs Ha He)
    as (s' & ev & d' & stored & H1 & H2 & _ & H3 & _).
  exists s, s', ev, d', stored. exact (conj eq_refl (conj H1 (conj H2 H3))).
Defined.

(** ** Opening a store *)

(** C38. [prepare] never damages a store. A store written by a newer binary is
    refused and untouched; one at this version is accepted untouched; below it,
    a failure leaves the file as it was, and a success, whatever ledger-keeping
    migration list was run, leaves it at this version with a backup of the
    original file if it had tables. *)
Theorem prepare_safe commit_fails now clock migs k :
  Forall (λ m, ∀ g g', mig_apply m g = Ok g' → sf_ledger g' = sf_ledger g) migs →
  let v := readVersion (dk_file k) in
  let '(r, k') := prepare commit_fails now clock migs k in
  (v > SchemaVersion → r = Err (ErrSchemaNewer v SchemaVersion) ∧ k' = k) ∧
  (v = SchemaVersion → r = Ok () ∧ k' = k) ∧
  (∀ e, r = Err e → dk_file k' = dk_file k) ∧
  (r = Ok () → readVersion (dk_file k') = SchemaVersion ∧
     (v < SchemaVersion → hasTables (dk_file k) = true →
      dk_backups k !! (v, now) = None ∧ dk_backups k' !! (v, now) = Some (dk_file k))) ∧
  (∀ name f, dk_backups k !! name = Some f → dk_backups k' !! name = Some f).
Proof.
  intros Hmigs v. unfold prepare. fold v.
  case_decide as Hgt; [split_and!; try done; try lia|].
  case_decide as Heq; [split_and!; try done; try lia|].
  assert (Hlt : v < SchemaVersion) by lia.
  set (backed := if hasTables (dk_file k) then backup now v k else Ok k).
  destruct backed as [k1|e] eqn:Hb; [|split_and!; try done; try lia].
  assert (Hk1 : dk_file k1 = dk_file k ∧
    (hasTables (dk_file k) = true →
       dk_backups k !! (v, now) = None ∧ dk_backups k1 !! (v, now) = Some (dk_file k)) ∧
    (∀ name f, dk_backups k !! name = Some f → dk_backups k1 !! name = Some f)).
  { unfold backed in Hb. destruct (hasTables (dk_file k)); [|by injection Hb as <-].
    unfold backup in Hb. destruct (dk_backups k !! (v, now)) eqn:Hn; [done|].
    injection Hb as <-; simpl. split_and!; [done|by rewrite lookup_insert_eq|].
    intros name f Hf. rewrite lookup_insert_ne; [done|]. intros <-. by rewrite Hf in Hn. }
  destruct Hk1 as (Hf & Hbk & Hkeep).
  destruct (migrate commit_fails clock v migs (dk_file k1)) as [r f'] eqn:Hm.
  split_and!; simpl; try lia; try done.
  - intros e ->. unfold migrate in Hm. rewrite <-Hf.
    destruct (pendingMigrations v migs); [by simplify_eq|].
    destruct (apply_steps _ _ _); [destruct commit_fails|]; by simplify_eq.
  - intros ->. split; [|intros _; apply Hbk].
    eapply migrate_version; [exact Hmigs| |exact Hlt|exact Hm]. by rewrite Hf.
Qed.

Definition empty_disk : disk :=
  {| dk_file := {| sf_ledger := None; sf_tables := []; sf_content := empty_db |}; dk_backups := ∅ |}.

Lemma prepare_safe_witness :
  Forall (λ m, ∀ g g', mig_apply m g = Ok g' → sf_ledger g' = sf_ledger g) migrations ∧
  readVersion (dk_file (prepare false 0 (λ _, 0) migrations empty_disk).2) = SchemaVersion.
Proof.
  assert (Hm : Forall (λ m, ∀ g g', mig_apply m g = Ok g' → sf_ledger g' = sf_ledger g) migrations).
  { repeat constructor. intros g g' [= <-]. reflexivity. }
  split; [exact Hm|].
  pose proof (prepare_safe false 0 (λ _, 0) migrations empty_disk Hm) as H.
  destruct (prepare false 0 (λ _, 0) migrations empty_disk) as [r k'] eqn:E.
  destruct H as (_ & _ & _ & H & _). simpl. apply H.
  transitivity (fst (prepare false 0 (λ _, 0) migrations empty_disk)); [by rewrite E|reflexivity].
Defined.

(** The steps [pendingMigrations] returns, for any migration list, are the
    consecutive versions from the one after the store's up to the binary's, in
    that order, and come from the list; otherwise it returns none. *)
Theorem pendingMigrations_path from migs :
  pendingMigrations from migs = [] ∨
  (mig_version <$> pendingMigrations from migs = seqZ (from + 1) (SchemaVersion - from) ∧
   sublist (pendingMigrations from migs) migs).
Proof.
  destruct (pendingMigrations from migs) as [|m l] eqn:E; [by left|right].
  rewrite <-E. apply pendingMigrations_spec. by rewrite E.
Qed.

(** The store returns a timestamp exactly when it is unset or a whole
    millisecond other than the Unix epoch, and storing what it returned again
    stores the same value (but in the zero time's own millisecond). *)
Theorem timestamp_roundtrip t :
  (timeFromMS (ms t) = t ↔ t = zero_time ∨ (t `mod` 1000000 = 0 ∧ t ≠ 0)) ∧
  (UnixMilli t ≠ UnixMilli zero_time → ms (timeFromMS (ms t)) = ms t).
Proof.
  split.
  - rewrite <-timeFromMS_ms. unfold ms_exact. by rewrite bool_decide_eq_true.
  - intros Ht. apply ms_timeFromMS. unfold ms, IsZero.
    case_bool_decide; [done|exact Ht].
Qed.

Lemma timestamp_roundtrip_witness : timeFromMS (ms 5000000) = 5000000 ∧
  ms (timeFromMS (ms 5000001)) = ms 5000001.
Proof.
  split.
  - apply (proj1 (timestamp_roundtrip 5000000)). right; split; [reflexivity|discriminate].
  - apply (proj2 (timestamp_roundtrip 5000001)). vm_compute; discriminate.
Defined.
