(* ===== verification/GoStrings.v ===== *)
(** * The strings functions the code calls

    [strings] and [bytes] of Go's standard library as far as the modelled code
    uses them. A Go string is its bytes: a [string] here, a list of [Byte.byte]
    for a [[]byte]; the functions work on the list of byte values. *)

From Stdlib Require Import Strings.Byte.
From S2P Require Import Prelude.
Open Scope Z_scope.

Definition byte_val (b : byte) : Z := Z.of_N (Byte.to_N b).
Definition char_val (c : Ascii.ascii) : Z := Z.of_N (Ascii.N_of_ascii c).
Definition codes (s : string) : list Z := char_val <$> String.list_ascii_of_string s.

(** ** White space *)

(** The UTF-8 code of a white space character at the front of the bytes
    ([unicode.IsSpace]): the number of its bytes. *)
Definition space_width (bs : list Z) : option nat :=
  match bs with
  | b :: _ =>
      if bool_decide (9 ≤ b ≤ 13) || bool_decide (b = 32) then Some 1%nat
      else match bs with
      | 194 :: c :: _ => if bool_decide (c = 133) || bool_decide (c = 160) then Some 2%nat else None
      | 225 :: 154 :: 128 :: _ => Some 3%nat
      | 226 :: 128 :: c :: _ =>
          if bool_decide (128 ≤ c ≤ 138) || bool_decide (c = 168) || bool_decide (c = 169) ||
             bool_decide (c = 175) then Some 3%nat else None
      | 226 :: 129 :: 159 :: _ => Some 3%nat
      | 227 :: 128 :: 128 :: _ => Some 3%nat
      | _ => None
      end
  | [] => None
  end.

(** The white space character that ends the bytes. *)
Definition space_width_last (bs : list Z) : option nat :=
  let n := length bs in
  let ends_with (k : nat) := bool_decide (k ≤ n)%nat && bool_decide (space_width (drop (n - k) bs) = Some k) in
  if ends_with 1%nat then Some 1%nat
  else if ends_with 2%nat then Some 2%nat
  else if ends_with 3%nat then Some 3%nat
  else None.

(** The bytes of white space at either end; every turn takes a byte at least,
    so the length is enough fuel. *)
Fixpoint space_prefix (fuel : nat) (bs : list Z) : nat :=
  match fuel with
  | O => 0
  | S fuel =>
      match space_width bs with
      | Some n => n + space_prefix fuel (drop n bs)
      | None => 0
      end
  end.

Fixpoint space_suffix (fuel : nat) (bs : list Z) : nat :=
  match fuel with
  | O => 0
  | S fuel =>
      match space_width_last bs with
      | Some n => n + space_suffix fuel (take (length bs - n) bs)
      | None => 0
      end
  end.

(** [TrimSpace] on the bytes [l] with their values. *)
Definition trim {A} (val : A → Z) (l : list A) : list A :=
  let l := drop (space_prefix (length l) (val <$> l)) l in
  take (length l - space_suffix (length l) (val <$> l)) l.

(** [bytes.TrimSpace] and [strings.TrimSpace]. *)
Definition TrimSpace_bytes (bs : list byte) : list byte := trim byte_val bs.
Definition TrimSpace (s : string) : string :=
  String.string_of_list_ascii (trim char_val (String.list_ascii_of_string s)).

(** [strings.Fields]: [cur] is the field being read. *)
Fixpoint fields_from (fuel : nat) (cur : list Ascii.ascii) (l : list Ascii.ascii) : list string :=
  let flush := match cur with [] => [] | _ => [String.string_of_list_ascii cur] end in
  match fuel, l with
  | S fuel, c :: l' =>
      match space_width (char_val <$> l) with
      | Some n => flush ++ fields_from fuel [] (drop n l)
      | None => fields_from fuel (cur ++ [c]) l'
      end
  | _, _ => flush
  end.
Definition Fields (s : string) : list string :=
  let l := String.list_ascii_of_string s in fields_from (S (length l)) [] l.

(** ** Case

    [strings.ToLower] as far as a comparison of the result with an ASCII text
    can see: ASCII letters, and the two other characters whose lower case is an
    ASCII letter (U+0130 and U+212A). Any other character lowers to one outside
    ASCII, and is left as it is. *)
Definition lower_char (v : Z) : Z := if decide (65 ≤ v ≤ 90) then v + 32 else v.
Definition to_char (v : Z) : Ascii.ascii := Ascii.ascii_of_N (Z.to_N v).

Fixpoint lower_codes (bs : list Z) : list Z :=
  match bs with
  | 196 :: 176 :: bs' => 105 :: lower_codes bs'
  | 226 :: 132 :: 170 :: bs' => 107 :: lower_codes bs'
  | b :: bs' => lower_char b :: lower_codes bs'
  | [] => []
  end.
Definition ToLower (s : string) : string :=
  String.string_of_list_ascii (to_char <$> lower_codes (codes s)).

(** ** Prefixes, suffixes, lengths *)
Definition HasSuffix (s suf : string) : bool :=
  let l := String.list_ascii_of_string s in
  let k := String.list_ascii_of_string suf in
  bool_decide (length k ≤ length l)%nat && bool_decide (drop (length l - length k) l = k).

Definition TrimSuffix (s suf : string) : string :=
  if HasSuffix s suf
  then String.string_of_list_ascii
         (take (String.length s - String.length suf) (String.list_ascii_of_string s))
  else s.

(** The first [n] bytes, [s[:n]]. *)
Definition first_bytes (n : nat) (s : string) : string :=
  String.string_of_list_ascii (take n (String.list_ascii_of_string s)).

(** [strings.Contains(s, sub)]. *)
Fixpoint Contains (s sub : string) : bool :=
  HasPrefix s sub || match s with EmptyString => false | String _ s => Contains s sub end.

(** ** Substrings *)

(** [strings.Cut]: the text before and after the first occurrence. *)
Fixpoint Cut (s sub : string) : option (string * string) :=
  match CutPrefix s sub with
  | Some after => Some ("", after)
  | None =>
      match s with
      | EmptyString => None
      | String c s => '(before, after) ← Cut s sub; Some (String c before, after)
      end
  end.

(** [strings.Count(s, sub)] for a [sub] that is not empty: every occurrence takes
    a byte at least, so the length is enough fuel. *)
Fixpoint count_from (fuel : nat) (s sub : string) : nat :=
  match fuel with
  | O => 0
  | S fuel => match Cut s sub with Some (_, after) => S (count_from fuel after sub) | None => 0 end
  end.
Definition Count (s sub : string) : nat := count_from (S (String.length s)) s sub.

(** [strings.Replace(s, old, new, 1)]. *)
Definition Replace1 (s old new : string) : string :=
  match Cut s old with Some (before, after) => before +:+ new +:+ after | None => s end.

(** [utf8.Valid] on the bytes of a string. *)
Definition cont_byte (lo hi b : Z) : bool := bool_decide (lo ≤ b ≤ hi).
Fixpoint valid_utf8 (bs : list Z) : bool :=
  match bs with
  | [] => true
  | b :: bs1 =>
      if bool_decide (b < 128) then valid_utf8 bs1
      else match bs1 with
      | [] => false
      | c :: bs2 =>
          if bool_decide (194 ≤ b ≤ 223) then cont_byte 128 191 c && valid_utf8 bs2
          else match bs2 with
          | [] => false
          | d :: bs3 =>
              if bool_decide (224 ≤ b ≤ 239)
              then cont_byte (if decide (b = 224) then 160 else 128) (if decide (b = 237) then 159 else 191) c &&
                   cont_byte 128 191 d && valid_utf8 bs3
              else match bs3 with
              | [] => false
              | e :: bs4 =>
                  bool_decide (240 ≤ b ≤ 244) &&
                  cont_byte (if decide (b = 240) then 144 else 128) (if decide (b = 244) then 143 else 191) c &&
                  cont_byte 128 191 d && cont_byte 128 191 e && valid_utf8 bs4
              end
          end
      end
  end.
Definition ValidString (s : string) : bool := valid_utf8 (codes s).

(** ** Order of strings: Go's [>], bytewise *)
Definition string_gt (s t : string) : bool := String.ltb t s.

Example trim_words : TrimSpace "  two words " = "two words". Proof. by vm_compute. Qed.
Example fields_words : Fields " git  status -s" = ["git"; "status"; "-s"]. Proof. by vm_compute. Qed.
Example lower_word : ToLower "CanCelled" = "cancelled". Proof. by vm_compute. Qed.
Example trim_star : TrimSuffix "git status*" "*" = "git status". Proof. by vm_compute. Qed.

(** ** Lemmas *)

Lemma space_width_app bs cs n : space_width bs = Some n → space_width (bs ++ cs) = Some n.
Proof.
  destruct bs as [|b [|c [|d bs]]]; cbn [app]; [done| | |].
  - cbn. intros H. repeat case_match; simplify_eq; try done.
  - cbn. intros H. repeat case_match; simplify_eq; try done.
  - done.
Qed.
Lemma space_width_pos bs n : space_width bs = Some n → (0 < n ≤ length bs)%nat.
Proof.
  destruct bs as [|b [|c [|d bs]]]; cbn; intros H; repeat case_match; simplify_eq; lia.
Qed.

(** ** Trimming and fields *)

Lemma space_width_prefix bs cs : space_width (bs ++ cs) = None → space_width bs = None.
Proof. destruct (space_width bs) eqn:E; [|done]. by rewrite (space_width_app _ cs _ E). Qed.

Lemma space_prefix_stops fuel bs : (length bs ≤ fuel)%nat →
  space_width (drop (space_prefix fuel bs) bs) = None.
Proof.
  revert bs. induction fuel as [|fuel IH]; intros bs H.
  - by destruct bs; cbn in H |- *; [|lia].
  - cbn [space_prefix]. destruct (space_width bs) as [n|] eqn:E; [|by rewrite drop_0].
    apply space_width_pos in E as Hn. rewrite <-drop_drop. apply IH. rewrite length_drop. lia.
Qed.

(** What was trimmed does not begin with white space. *)
Lemma trim_no_space {A} (val : A → Z) l : space_width (val <$> trim val l) = None.
Proof.
  unfold trim. apply (space_width_prefix _ (val <$> drop (length (drop (space_prefix (length l) (val <$> l)) l) -
    space_suffix (length (drop (space_prefix (length l) (val <$> l)) l))
      (val <$> drop (space_prefix (length l) (val <$> l)) l)) (drop (space_prefix (length l) (val <$> l)) l))).
  rewrite <-fmap_app, take_drop, fmap_drop. apply space_prefix_stops. by rewrite length_fmap.
Qed.

Lemma trim_fixed {A} (val : A → Z) l :
  space_width (val <$> l) = None → space_width_last (val <$> l) = None → trim val l = l.
Proof.
  intros H0 H1.
  assert (∀ fuel, space_prefix fuel (val <$> l) = 0%nat) as Hp.
  { intros [|]; [done|]. cbn [space_prefix]. by rewrite H0. }
  assert (∀ fuel, space_suffix fuel (val <$> l) = 0%nat) as Hs.
  { intros [|]; [done|]. cbn [space_suffix]. by rewrite H1. }
  unfold trim. rewrite Hp, drop_0, Hs, Nat.sub_0_r. by rewrite firstn_all.
Qed.

Lemma space_width_last_pos bs n : space_width_last bs = Some n → (0 < n ≤ length bs)%nat.
Proof.
  unfold space_width_last. repeat case_match; intros [= <-];
    match goal with H : _ && _ = true |- _ => apply andb_prop in H as [H%bool_decide_eq_true _] end; lia.
Qed.

Lemma space_suffix_le fuel bs : (space_suffix fuel bs ≤ length bs)%nat.
Proof.
  revert bs. induction fuel as [|fuel IH]; intros bs; cbn [space_suffix]; [lia|].
  destruct (space_width_last bs) as [n|] eqn:E; [|lia]. apply space_width_last_pos in E.
  specialize (IH (take (length bs - n) bs)). rewrite length_take in IH. lia.
Qed.

Lemma space_suffix_stops fuel bs : (length bs ≤ fuel)%nat →
  space_width_last (take (length bs - space_suffix fuel bs) bs) = None.
Proof.
  revert bs. induction fuel as [|fuel IH]; intros bs H.
  - by destruct bs; cbn in H |- *; [|lia].
  - cbn [space_suffix]. destruct (space_width_last bs) as [n|] eqn:E; [|by rewrite Nat.sub_0_r, firstn_all].
    apply space_width_last_pos in E as Hn. specialize (IH (take (length bs - n) bs)).
    pose proof (space_suffix_le fuel (take (length bs - n) bs)) as Hle.
    rewrite length_take in IH, Hle. rewrite take_take in IH.
    rewrite Nat.min_l in IH by lia. rewrite <-IH by lia. f_equal. f_equal. lia.
Qed.

Lemma trim_idemp {A} (val : A → Z) l : trim val (trim val l) = trim val l.
Proof.
  apply trim_fixed; [apply trim_no_space|]. unfold trim. rewrite fmap_take.
  set (k := drop _ l). pose proof (space_suffix_stops (length k) (val <$> k)) as H.
  rewrite length_fmap in H. by apply H.
Qed.
Lemma TrimSpace_idemp s : TrimSpace (TrimSpace s) = TrimSpace s.
Proof. unfold TrimSpace. by rewrite String.list_ascii_of_string_of_list_ascii, trim_idemp. Qed.

(** No character of white space begins inside [cur], whatever follows it. *)
Definition no_space (cur rest : list Z) : Prop :=
  ∀ k, (k < length cur)%nat → space_width (drop k (cur ++ rest)) = None.

Lemma no_space_trim l : no_space (char_val <$> l) [] → trim char_val l = l.
Proof.
  intros H.
  assert (space_width (char_val <$> l) = None) as H0.
  { destruct l as [|c l]; [done|]. specialize (H 0%nat). rewrite app_nil_r in H.
    apply H. cbn. lia. }
  assert (space_width_last (char_val <$> l) = None) as H1.
  { unfold space_width_last. rewrite length_fmap.
    assert (∀ j, (0 < j)%nat → bool_decide (j ≤ length l)%nat &&
      bool_decide (space_width (drop (length l - j) (char_val <$> l)) = Some j) = false) as Hj.
    { intros j Hj. apply andb_false_iff. destruct (decide (j ≤ length l)%nat) as [Hle|?];
        [right|left; by apply bool_decide_eq_false].
      apply bool_decide_eq_false. specialize (H (length l - j)%nat). rewrite app_nil_r in H.
      rewrite H; [done|]. rewrite length_fmap. lia. }
    by rewrite !Hj by lia. }
  by apply trim_fixed.
Qed.

Lemma string_of_nil l : String.string_of_list_ascii l = "" ↔ l = [].
Proof. by destruct l. Qed.

(** The first field of a text that does not begin with white space: a prefix of
    it, without white space. *)
Lemma fields_from_head fuel cur l :
  cur ≠ [] ∨ (l ≠ [] ∧ space_width (char_val <$> l) = None ∧ (0 < fuel)%nat) →
  no_space (char_val <$> cur) (char_val <$> l) →
  ∃ w rest l', fields_from fuel cur l = String.string_of_list_ascii w :: rest ∧
    cur ++ l = w ++ l' ∧ w ≠ [] ∧ no_space (char_val <$> w) [].
Proof.
  revert cur l. induction fuel as [|fuel IH]; intros cur l Hc Hn.
  all: assert (cur ≠ [] → no_space (char_val <$> cur) []) as Hcur.
  1,3: intros _ k Hk; specialize (Hn k Hk); rewrite app_nil_r;
    rewrite drop_app_le in Hn by lia; by apply space_width_prefix in Hn.
  { destruct Hc as [Hc|(_ & _ & ?)]; [|lia].
    exists cur, [], l. repeat split; [|done|by apply Hcur].
    destruct cur; [done|]. by cbn. }
  destruct l as [|c l].
  { destruct Hc as [Hc|(? & _)]; [|done].
    exists cur, [], []. repeat split; [|done|by apply Hcur]. by destruct cur; cbn. }
  cbn [fields_from]. destruct (space_width (char_val <$> c :: l)) as [n|] eqn:Es.
  - destruct Hc as [Hc|(_ & ? & _)]; [|done].
    exists cur, (fields_from fuel [] (drop n (c :: l))), (c :: l).
    repeat split; [|done|by apply Hcur]. by destruct cur.
  - destruct (IH (cur ++ [c]) l) as (w & rest & l' & H1 & H2 & H3).
    { left. by destruct cur. }
    { rewrite fmap_app. intros k Hk. rewrite <-app_assoc. cbn [fmap list_fmap app].
      rewrite length_app in Hk. cbn in Hk.
      destruct (decide (k < length (char_val <$> cur))%nat) as [Hlt|?].
      - by apply (Hn k).
      - replace k with (length (char_val <$> cur)) by lia. by rewrite drop_app_length. }
    exists w, rest, l'. rewrite <-app_assoc in H2. by repeat split; try done; apply H3.
Qed.

Lemma list_ascii_app s t :
  String.list_ascii_of_string (s +:+ t) = String.list_ascii_of_string s ++ String.list_ascii_of_string t.
Proof. induction s as [|c s IH]; [done|]. exact (f_equal (cons c) IH). Qed.
Lemma string_of_app k l :
  String.string_of_list_ascii (k ++ l) = String.string_of_list_ascii k +:+ String.string_of_list_ascii l.
Proof. induction k as [|c k IH]; [done|]. exact (f_equal (String c) IH). Qed.

Lemma TrimSpace_word w : no_space (char_val <$> w) [] →
  TrimSpace (String.string_of_list_ascii w) = String.string_of_list_ascii w.
Proof.
  intros H. unfold TrimSpace. rewrite String.list_ascii_of_string_of_list_ascii.
  by rewrite no_space_trim.
Qed.

(** The first field of a trimmed text, which is a prefix of it. *)
Lemma Fields_trimmed s : TrimSpace s ≠ "" →
  ∃ w rest, Fields (TrimSpace s) = w :: rest ∧ HasPrefix (TrimSpace s) w = true ∧ w ≠ "".
Proof.
  unfold TrimSpace, Fields. set (l := trim char_val (String.list_ascii_of_string s)). intros H.
  assert (l ≠ []) as Hl by (intros E; apply H; by rewrite E).
  rewrite String.list_ascii_of_string_of_list_ascii.
  destruct (fields_from_head (S (length l)) [] l) as (w & rest & l' & H1 & H2 & H3 & H4).
  { right. split; [done|]. split; [apply trim_no_space|lia]. }
  { intros k Hk. cbn in Hk. lia. }
  exists (String.string_of_list_ascii w), rest. split; [done|]. split; [|by rewrite string_of_nil].
  cbn in H2. rewrite H2, string_of_app. apply HasPrefix_app.
Qed.

Lemma fields_from_skip fuel l : (length l < fuel)%nat →
  fields_from fuel [] l = [] ∨
  ∃ fuel' k l', l = k ++ l' ∧ fields_from fuel [] l = fields_from fuel' [] l' ∧
    l' ≠ [] ∧ space_width (char_val <$> l') = None ∧ (0 < fuel')%nat.
Proof.
  revert l. induction fuel as [|fuel IH]; intros l H; [lia|].
  destruct l as [|c l]; [by left|].
  destruct (space_width (char_val <$> c :: l)) as [n|] eqn:E.
  - assert (fields_from (S fuel) [] (c :: l) = fields_from fuel [] (drop n (c :: l))) as Hf.
    { cbn [fields_from]. by rewrite E. }
    rewrite Hf. apply space_width_pos in E as Hn.
    destruct (IH (drop n (c :: l))) as [?|(f' & k & l' & H1 & H2 & H3)];
      [rewrite length_drop; cbn in *; lia|by left|].
    right. exists f', (take n (c :: l) ++ k), l'. rewrite <-app_assoc, <-H1, take_drop. done.
  - right. exists (S fuel), [], (c :: l). repeat split; [done|done|lia].
Qed.

(** The first field of any text has no white space around it. *)
Lemma Fields_word s w rest : Fields s = w :: rest → w ≠ "" ∧ TrimSpace w = w.
Proof.
  unfold Fields. set (l := String.list_ascii_of_string s). intros H.
  destruct (fields_from_skip (S (length l)) l) as [E|(f & k & l' & _ & E & H1 & H2 & H3)];
    [lia|congruence|].
  destruct (fields_from_head f [] l') as (w' & rest' & l'' & E' & _ & H4 & H5).
  { by right. }
  { intros j Hj. cbn in Hj. lia. }
  rewrite E, E' in H. simplify_eq. rewrite string_of_nil.
  split; [done|by apply TrimSpace_word].
Qed.

Lemma String_length_list s : length (String.list_ascii_of_string s) = String.length s.
Proof. induction s as [|c s IH]; [done|]. exact (f_equal S IH). Qed.

Lemma TrimSuffix_app p suf : TrimSuffix (p +:+ suf) suf = p.
Proof.
  unfold TrimSuffix, HasSuffix. rewrite !list_ascii_app, !length_app.
  replace (length (String.list_ascii_of_string p) + length (String.list_ascii_of_string suf) -
    length (String.list_ascii_of_string suf))%nat with (length (String.list_ascii_of_string p)) by lia.
  rewrite drop_app_length, !bool_decide_true by (done || lia). cbn [andb].
  rewrite <-!String_length_list, list_ascii_app, length_app, Nat.add_sub.
  by rewrite take_app_length, String.string_of_list_ascii_of_string.
Qed.

Lemma TrimSuffix_cases s suf : (∃ p, s = p +:+ suf ∧ TrimSuffix s suf = p) ∨
  ((∀ p, s ≠ p +:+ suf) ∧ TrimSuffix s suf = s).
Proof.
  destruct (HasSuffix s suf) eqn:E.
  - left. assert (∃ p, s = p +:+ suf) as [p ->]; [|by exists p; rewrite TrimSuffix_app].
    unfold HasSuffix in E. rewrite andb_true_iff, !bool_decide_eq_true in E. destruct E as [_ E].
    set (n := (length (String.list_ascii_of_string s) - length (String.list_ascii_of_string suf))%nat) in *.
    exists (String.string_of_list_ascii (take n (String.list_ascii_of_string s))).
    transitivity (String.string_of_list_ascii (String.list_ascii_of_string s));
      [by rewrite String.string_of_list_ascii_of_string|].
    rewrite <-(take_drop n (String.list_ascii_of_string s)) at 1. rewrite string_of_app, E.
    by rewrite String.string_of_list_ascii_of_string.
  - right. split; [|by unfold TrimSuffix; rewrite E].
    intros p ->. unfold HasSuffix in E. rewrite !list_ascii_app, !length_app in E.
    replace (length (String.list_ascii_of_string p) + length (String.list_ascii_of_string suf) -
      length (String.list_ascii_of_string suf))%nat with (length (String.list_ascii_of_string p)) in E by lia.
    rewrite drop_app_length, !bool_decide_true in E by (done || lia). done.
Qed.

(** ** ASCII white space at the end *)

Definition ascii_space (c : Z) : Prop := 9 ≤ c ≤ 13 ∨ c = 32.
#[export] Instance ascii_space_dec c : Decision (ascii_space c).
Proof. unfold ascii_space. apply _. Defined.

Lemma space_width_ascii c bs : ascii_space c → space_width (c :: bs) = Some 1%nat.
Proof. intros H. cbn. unfold ascii_space in H. destruct (bool_decide _ || bool_decide _) eqn:E; [done|].
  apply orb_false_iff in E as [E1%bool_decide_eq_false E2%bool_decide_eq_false]. lia. Qed.

Lemma space_width_app_ascii a s : a ≠ [] → Forall ascii_space s → space_width a = None → space_width (a ++ s) = None.
Proof.
  intros Ha Hs H. unfold ascii_space in Hs.
  destruct a as [|x [|y [|z a]]]; [done| | |done];
    (destruct s as [|u [|v s]]; [by rewrite app_nil_r| |]); inv Hs;
    try match goal with H : Forall _ (_ :: _) |- _ => inv H end;
    cbn in H |- *; repeat case_match; simplify_eq; try done; exfalso;
    repeat match goal with
    | H : _ || _ = true |- _ => apply orb_true_iff in H as [H|H]
    | H : bool_decide _ = true |- _ => apply bool_decide_eq_true in H
    | H : bool_decide _ = false |- _ => apply bool_decide_eq_false in H
    end; lia.
Qed.

Lemma space_prefix_app fuel a s : (length (a ++ s) ≤ fuel)%nat → Forall ascii_space s →
  space_prefix fuel (a ++ s) =
  if decide (space_prefix fuel a = length a) then (length a + length s)%nat else space_prefix fuel a.
Proof.
  revert a s. induction fuel as [|fuel IH]; intros a s Hl Hs.
  { rewrite length_app in Hl. destruct a, s; cbn in *; try lia. done. }
  destruct a as [|x a].
  { assert (space_prefix (S fuel) ([] : list Z) = 0%nat) as -> by done. rewrite decide_True by done. cbn [length app Nat.add].
    destruct s as [|c s]; [done|]. pose proof Hs as Hs'. apply Forall_cons in Hs as [Hc Hs]. cbn [space_prefix].
    rewrite space_width_ascii by done. change (drop 1 (c :: s)) with s. specialize (IH [] s). cbn [app length] in IH. rewrite IH; [|cbn in Hl; lia|done].
    assert (space_prefix fuel ([] : list Z) = 0%nat) as -> by by destruct fuel. rewrite decide_True by done. done. }
  cbn [space_prefix]. destruct (space_width (x :: a)) as [n|] eqn:E.
  - rewrite (space_width_app _ s _ E). apply space_width_pos in E as Hn. rewrite drop_app_le by lia.
    rewrite IH; [|rewrite length_app, length_drop in *; cbn in *; lia|done].
    rewrite length_drop. repeat case_decide; cbn [length] in *; lia.
  - rewrite space_width_app_ascii by done. rewrite decide_False by (cbn; lia). done.
Qed.

Lemma space_suffix_fuel f bs : (length bs ≤ f)%nat → space_suffix f bs = space_suffix (length bs) bs.
Proof.
  revert bs. induction f as [f IH] using lt_wf_ind. intros bs Hl.
  destruct f as [|f]; [by destruct bs; cbn in Hl |- *; [|lia]|].
  destruct (length bs) as [|n] eqn:En.
  { destruct bs; [|done]. done. }
  cbn [space_suffix]. destruct (space_width_last bs) as [w|] eqn:E; [|done]. f_equal.
  apply space_width_last_pos in E as Hw.
  rewrite En. rewrite (IH f), (IH n); rewrite ?length_take; lia || done.
Qed.

Lemma space_suffix_app f a s : (length (a ++ s) ≤ f)%nat → Forall ascii_space s →
  space_suffix f (a ++ s) = (length s + space_suffix (length a) a)%nat.
Proof.
  revert f. induction s as [|c s IH] using rev_ind; intros f Hl Hs.
  { rewrite app_nil_r in *. by apply space_suffix_fuel. }
  apply Forall_app in Hs as [Hs [Hc _]%Forall_cons]. rewrite !length_app in Hl. cbn in Hl.
  destruct f as [|f]; [lia|]. cbn [space_suffix].
  assert (space_width_last (a ++ s ++ [c]) = Some 1%nat) as ->.
  { unfold space_width_last. rewrite app_assoc. set (l := a ++ s). rewrite length_app. cbn [length].
    rewrite (bool_decide_true (1 ≤ _)%nat) by lia.
    replace (length l + 1 - 1)%nat with (length l) by lia. rewrite drop_app_length, space_width_ascii by done.
    by rewrite bool_decide_true by done. }
  rewrite app_assoc, length_app. cbn [length]. replace (length (a ++ s) + 1 - 1)%nat with (length (a ++ s)) by lia.
  rewrite take_app_length. rewrite IH by (rewrite ?length_app; done || lia). rewrite length_app. cbn. lia.
Qed.

Lemma space_prefix_fuel f bs : (length bs ≤ f)%nat → space_prefix f bs = space_prefix (length bs) bs.
Proof.
  revert bs. induction f as [f IH] using lt_wf_ind. intros bs Hl.
  destruct f as [|f]; [by destruct bs; cbn in Hl |- *; [|lia]|].
  destruct (length bs) as [|n] eqn:En; [by destruct bs|].
  cbn [space_prefix]. destruct (space_width bs) as [w|] eqn:E; [|done]. f_equal.
  apply space_width_pos in E. rewrite (IH f), (IH n); rewrite ?length_drop; lia || done.
Qed.

Lemma space_prefix_le f bs : (space_prefix f bs ≤ length bs)%nat.
Proof.
  revert bs. induction f as [|f IH]; intros bs; cbn [space_prefix]; [lia|].
  destruct (space_width bs) as [n|] eqn:E; [|lia]. apply space_width_pos in E.
  specialize (IH (drop n bs)). rewrite length_drop in IH. lia.
Qed.

(** ASCII white space at the end is trimmed away. *)
Lemma trim_app_ascii {A} (val : A → Z) a s : Forall (λ x, ascii_space (val x)) s → trim val (a ++ s) = trim val a.
Proof.
  intros Hs. assert (Forall ascii_space (val <$> s)) as Hs' by by rewrite Forall_fmap.
  unfold trim. rewrite !fmap_app. rewrite space_prefix_app; [|by rewrite <-fmap_app, length_fmap|done].
  rewrite space_prefix_fuel by (rewrite length_app, length_fmap; lia). rewrite !length_fmap.
  pose proof (space_prefix_le (length a) (val <$> a)) as Hle. rewrite length_fmap in Hle.
  set (p := space_prefix (length a) (val <$> a)) in *. case_decide as Hp.
  - rewrite Hp, (drop_ge (a ++ s)) by (rewrite length_app; lia). by rewrite (drop_ge a) by lia.
  - rewrite drop_app_le by lia. rewrite !fmap_app. rewrite space_suffix_app;
      [|by rewrite length_app, !length_fmap, <-length_app|done].
    rewrite !length_fmap, length_app, take_app_le by lia. f_equal. lia.
Qed.

Definition ascii_blank (s : string) : Prop := Forall (λ c, ascii_space (char_val c)) (String.list_ascii_of_string s).

Lemma TrimSpace_app_blank a s : ascii_blank s → TrimSpace (a +:+ s) = TrimSpace a.
Proof. intros H. unfold TrimSpace. by rewrite list_ascii_app, trim_app_ascii. Qed.

Lemma TrimSpace_blank s : ascii_blank s → TrimSpace s = "".
Proof. intros H. exact (TrimSpace_app_blank "" s H). Qed.

(** ** Concatenations and prefixes *)

Lemma str_app_assoc a b c : (a +:+ b) +:+ c = a +:+ (b +:+ c).
Proof. induction a as [|x a IH]; [done|]. exact (f_equal (String x) IH). Qed.

Lemma String_app_nil_r a : a +:+ "" = a.
Proof. induction a as [|x a IH]; [done|]. exact (f_equal (String x) IH). Qed.

Lemma length_str_app a b : String.length (a +:+ b) = (String.length a + String.length b)%nat.
Proof. by rewrite <-!String_length_list, list_ascii_app, length_app. Qed.

Lemma length_first_bytes n s : String.length (first_bytes n s) = Nat.min n (String.length s).
Proof.
  unfold first_bytes. rewrite <-!String_length_list, String.list_ascii_of_string_of_list_ascii.
  apply length_take.
Qed.

Lemma first_bytes_all n s : (String.length s ≤ n)%nat → first_bytes n s = s.
Proof.
  unfold first_bytes. intros H. rewrite take_ge by by rewrite String_length_list.
  apply String.string_of_list_ascii_of_string.
Qed.

Lemma first_bytes_min n m s : first_bytes n (first_bytes m s) = first_bytes (Nat.min n m) s.
Proof. unfold first_bytes. by rewrite String.list_ascii_of_string_of_list_ascii, take_take. Qed.

Lemma first_bytes_app n a b : (String.length a ≤ n)%nat →
  first_bytes n (a +:+ b) = a +:+ first_bytes (n - String.length a) b.
Proof.
  intros Hn. unfold first_bytes. rewrite list_ascii_app, take_app, take_ge by (by rewrite String_length_list).
  rewrite String_length_list, string_of_app. by rewrite String.string_of_list_ascii_of_string.
Qed.

Lemma first_bytes_prefix n a b : (n ≤ String.length a)%nat → first_bytes n (a +:+ b) = first_bytes n a.
Proof. intros Hn. unfold first_bytes. rewrite list_ascii_app, take_app_le by (by rewrite String_length_list). done. Qed.
