(* ===== verification/HostFrame.v ===== *)
(** * Host IPC frames

    [src/internal/hostipc/frame.go] with the error codes of [errors.go]: the
    length-prefixed framing between the daemon and the app. A byte is
    [Byte.byte]; a reader is the bytes still to come and what ends them. *)

From Stdlib Require Import Strings.Byte.
From S2P Require Import Prelude GoStrings.
Open Scope Z_scope.

(** ** Error codes *)
Definition CodeParse : Z := -32700.
Definition CodeInvalidRequest : Z := -32600.
Definition CodeUnsupported : Z := -32601.
Definition CodeInvalidParams : Z := -32602.
Definition CodeInternal : Z := -32603.
Definition CodeProtocolMajorMismatch : Z := -32000.
Definition CodeProtocolMinorUnsupported : Z := -32001.
Definition CodeNotInitialized : Z := -32002.
Definition CodeUnauthorizedPeer : Z := -32010.
Definition CodeRoleForbidden : Z := -32011.
Definition CodeFrameLimit : Z := -32020.

(** ** Bytes and big-endian words *)
#[export] Instance byte_eq_decision : EqDecision byte := Byte.byte_eq_dec.

(** Go's conversion [byte(v)] of an unsigned word: the low eight bits. *)
Definition to_byte (v : Z) : byte := default x00 (Byte.of_N (Z.to_N (Z.land v 255))).

(** [binary.BigEndian.Uint32]; the code only calls it on four bytes or more. *)
Definition Uint32 (bs : list byte) : Z :=
  match bs with
  | b0 :: b1 :: b2 :: b3 :: _ =>
      Z.lor (byte_val b3) (Z.lor (Z.shiftl (byte_val b2) 8)
        (Z.lor (Z.shiftl (byte_val b1) 16) (Z.shiftl (byte_val b0) 24)))
  | _ => 0
  end.

(** [binary.BigEndian.PutUint32]. *)
Definition PutUint32 (v : Z) : list byte :=
  [to_byte (Z.shiftr v 24); to_byte (Z.shiftr v 16); to_byte (Z.shiftr v 8); to_byte v].

(** ** Frames *)
Definition MaxJSONFrame : Z := Z.shiftl 1 20.
Definition MaxAttachmentFrame : Z := Z.shiftl 16 20.
Definition attachmentFlag : Z := Z.shiftl 1 31.

Inductive FrameKind : Type := FrameJSON | FrameAttachment.
#[export] Instance FrameKind_eq_dec : EqDecision FrameKind.
Proof. solve_decision. Defined.

Record Limits : Type := { MaxJSON : Z; MaxAttachment : Z }.

Definition WithDefaults (l : Limits) : Limits := {|
  MaxJSON := if decide (MaxJSON l ≤ 0) then MaxJSONFrame else MaxJSON l;
  MaxAttachment := if decide (MaxAttachment l ≤ 0) then MaxAttachmentFrame else MaxAttachment l
|}.

Record ProtocolError : Type := { perr_code : Z; perr_reason : string }.
Definition NewProtocolError (code : Z) (reason : string) : ProtocolError :=
  {| perr_code := code; perr_reason := reason |}.

(** What a read returns when it fails: the peer closed on a frame boundary,
    inside a frame, the connection failed, or the frame is not acceptable. *)
Inductive read_err : Type :=
  | REOF
  | RUnexpectedEOF
  | RIO (e : string)
  | RProtocol (e : ProtocolError).

(** An [io.Reader]: the bytes it will still deliver and how it ends, by EOF
    ([None]) or by an error. How the bytes are split into reads does not matter
    to [io.ReadFull], the only call made on it. *)
Record reader : Type := { rd_bytes : list byte; rd_error : option string }.

(** [io.ReadFull] of [n > 0] bytes. *)
Definition ReadFull (n : nat) (r : reader) : result read_err (list byte) * reader :=
  if decide (n ≤ length (rd_bytes r))%nat
  then (Ok (take n (rd_bytes r)), {| rd_bytes := drop n (rd_bytes r); rd_error := rd_error r |})
  else
    (Err (match rd_error r with
          | Some e => RIO e
          | None => if decide (rd_bytes r = []) then REOF else RUnexpectedEOF
          end),
     {| rd_bytes := []; rd_error := rd_error r |}).

(** The limit for a kind of frame. *)
Definition frame_max (lim : Limits) (kind : FrameKind) : Z :=
  match kind with FrameJSON => MaxJSON lim | FrameAttachment => MaxAttachment lim end.

Definition frame_limit : ProtocolError := NewProtocolError CodeFrameLimit "frame_limit".
Definition invalid_frame : ProtocolError := NewProtocolError CodeInvalidRequest "invalid_request".

(** The part of [ReadFrame] after the payload is in [buf]. *)
Definition split_payload (kind : FrameKind) (buf : list byte) :
    result read_err (FrameKind * list byte * list byte) :=
  match kind with
  | FrameJSON => Ok (kind, buf, [])
  | FrameAttachment =>
      let n := Z.of_nat (length buf) in
      if decide (n < 4) then Err (RProtocol invalid_frame)
      else
        let metaLen := Uint32 (take 4 buf) in
        if bool_decide (metaLen ≤ 0) || bool_decide (metaLen > n - 4)
        then Err (RProtocol invalid_frame)
        else Ok (kind, take (Z.to_nat metaLen) (drop 4 buf), drop (4 + Z.to_nat metaLen) buf)
  end.

Definition ReadFrame (r : reader) (lim : Limits) :
    result read_err (FrameKind * list byte * list byte) * reader :=
  let lim := WithDefaults lim in
  match ReadFull 4 r with
  | (Err e, r') => (Err e, r')
  | (Ok header, r') =>
      let raw := Uint32 header in
      let kind := if decide (Z.land raw attachmentFlag ≠ 0) then FrameAttachment else FrameJSON in
      let n := Z.ldiff raw attachmentFlag in
      if decide (n ≤ 0) then (Err (RProtocol frame_limit), r')
      else if decide (n > frame_max lim kind) then (Err (RProtocol frame_limit), r')
      else
        match ReadFull (Z.to_nat n) r' with
        | (Err REOF, r'') => (Err RUnexpectedEOF, r'')
        | (Err e, r'') => (Err e, r'')
        | (Ok buf, r'') => (split_payload kind buf, r'')
        end
  end.

(** [WriteFrame]: the bytes it hands to the writer. [uint32(len)] keeps the low
    32 bits. *)
Definition WriteFrame (kind : FrameKind) (payload : list byte) (lim : Limits) :
    result ProtocolError (list byte) :=
  let lim := WithDefaults lim in
  let n := Z.of_nat (length payload) in
  if decide (n = 0) then Err frame_limit
  else if decide (n > frame_max lim kind) then Err frame_limit
  else
    let header := n `mod` 2 ^ 32 in
    let header := match kind with FrameJSON => header | FrameAttachment => Z.lor header attachmentFlag end in
    Ok (PutUint32 header ++ payload).

(** The payload [WriteAttachmentFrame] builds from the marshalled meta block. *)
Definition attachment_payload (metaJSON data : list byte) : list byte :=
  PutUint32 (Z.of_nat (length metaJSON) `mod` 2 ^ 32) ++ metaJSON ++ data.

(** [WriteAttachmentFrame] from its length check on; [metaBytes] is the meta
    block's [Bytes] field and [metaJSON] its JSON. *)
Definition WriteAttachmentFrame (metaBytes : Z) (metaJSON data : list byte) (lim : Limits) :
    result ProtocolError (list byte) :=
  if decide (metaBytes ≠ Z.of_nat (length data))
  then Err (NewProtocolError 0 "attachment meta bytes differ from the data")
  else WriteFrame FrameAttachment (attachment_payload metaJSON data) lim.

(** ** Lemmas *)

Lemma byte_val_range b : 0 ≤ byte_val b < 256.
Proof. unfold byte_val. pose proof (Byte.to_N_bounded b). lia. Qed.

Lemma byte_val_to_byte v : byte_val (to_byte v) = v `mod` 256.
Proof.
  unfold byte_val, to_byte. change 255 with (Z.ones 8). rewrite Z.land_ones by lia.
  change (2 ^ 8) with 256. pose proof (Z.mod_pos_bound v 256 ltac:(lia)).
  destruct (Byte.of_N (Z.to_N (v `mod` 256))) as [b|] eqn:E; simpl.
  - apply Byte.to_of_N in E. rewrite E. lia.
  - apply Byte.of_N_None_iff in E. lia.
Qed.

Lemma Uint32_bytes b0 b1 b2 b3 rest :
  Uint32 (b0 :: b1 :: b2 :: b3 :: rest) =
  byte_val b3 + byte_val b2 * 2 ^ 8 + byte_val b1 * 2 ^ 16 + byte_val b0 * 2 ^ 24.
Proof.
  pose proof (byte_val_range b0). pose proof (byte_val_range b1).
  pose proof (byte_val_range b2). pose proof (byte_val_range b3).
  unfold Uint32. rewrite !Z.lor_assoc.
  rewrite (lor_add (byte_val b3)), (lor_add (byte_val b3 + _)), lor_add by lia. lia.
Qed.

Lemma Uint32_range bs : 0 ≤ Uint32 bs < 2 ^ 32.
Proof.
  destruct bs as [|b0 [|b1 [|b2 [|b3 rest]]]]; try (simpl; lia).
  rewrite Uint32_bytes.
  pose proof (byte_val_range b0). pose proof (byte_val_range b1).
  pose proof (byte_val_range b2). pose proof (byte_val_range b3). lia.
Qed.

Lemma PutUint32_length v : length (PutUint32 v) = 4%nat.
Proof. done. Qed.

Lemma Uint32_PutUint32 v rest : 0 ≤ v < 2 ^ 32 → Uint32 (PutUint32 v ++ rest) = v.
Proof.
  intros Hv. unfold PutUint32; cbn [app]. rewrite Uint32_bytes, !byte_val_to_byte.
  rewrite !Z.shiftr_div_pow2 by lia.
  change (2 ^ 8) with 256; change (2 ^ 16) with 65536; change (2 ^ 24) with 16777216.
  change (2 ^ 32) with 4294967296 in Hv.
  Z.to_euclidean_division_equations. lia.
Qed.

(** The header of a frame decodes to its kind and length. *)
Lemma header_json n : 0 ≤ n < 2 ^ 31 → Z.land n attachmentFlag = 0 ∧ Z.ldiff n attachmentFlag = n.
Proof.
  intros Hn. assert (Hl : Z.land n attachmentFlag = 0) by (apply land_shiftl_low; lia).
  split; [done|]. rewrite <-(Z.lor_ldiff_and n attachmentFlag) at 2. by rewrite Hl, Z.lor_0_r.
Qed.

Lemma header_attachment n : 0 ≤ n < 2 ^ 31 →
  Z.land (Z.lor n attachmentFlag) attachmentFlag ≠ 0 ∧
  Z.ldiff (Z.lor n attachmentFlag) attachmentFlag = n ∧
  0 ≤ Z.lor n attachmentFlag < 2 ^ 32.
Proof.
  intros Hn. destruct (header_json n Hn) as [Hl Hd]. split_and!.
  - rewrite Z.land_lor_distr_l, Hl, Z.land_diag. done.
  - rewrite <-Hd at 2. apply Z.bits_inj'. intros i Hi.
    rewrite !Z.ldiff_spec, Z.lor_spec. by destruct (Z.testbit n i), (Z.testbit attachmentFlag i).
  - unfold attachmentFlag. rewrite lor_add by lia. lia.
  - unfold attachmentFlag. rewrite lor_add by lia. lia.
Qed.

Lemma ReadFull_app n bs rest e : length bs = n →
  ReadFull n {| rd_bytes := bs ++ rest; rd_error := e |} =
  (Ok bs, {| rd_bytes := rest; rd_error := e |}).
Proof.
  intros <-. unfold ReadFull; simpl. rewrite decide_True by (rewrite length_app; lia).
  by rewrite take_app_length, drop_app_length.
Qed.

Lemma ReadFull_short n bs e : (length bs < n)%nat →
  ReadFull n {| rd_bytes := bs; rd_error := e |} =
  (Err (match e with
        | Some e => RIO e
        | None => if decide (bs = []) then REOF else RUnexpectedEOF
        end), {| rd_bytes := []; rd_error := e |}).
Proof. intros Hl. unfold ReadFull; simpl. by rewrite decide_False by lia. Qed.

(** ** What a written frame reads back as *)

(** Limits whose frames fit the 31-bit length of the header; the defaults do. *)
Definition limits_ok (lim : Limits) : Prop :=
  MaxJSON lim < 2 ^ 31 ∧ MaxAttachment lim < 2 ^ 31.

Lemma frame_max_bound lim kind : limits_ok lim → 0 < frame_max (WithDefaults lim) kind < 2 ^ 31.
Proof.
  intros [H1 H2]. unfold WithDefaults.
  change MaxJSONFrame with 1048576; change MaxAttachmentFrame with 16777216.
  destruct kind; simpl; case_decide; lia.
Qed.

(** The header [WriteFrame] emits for [n] payload bytes. *)
Definition frame_header (kind : FrameKind) (n : Z) : Z :=
  match kind with FrameJSON => n | FrameAttachment => Z.lor n attachmentFlag end.

Lemma WriteFrame_inv kind payload lim bs : limits_ok lim →
  WriteFrame kind payload lim = Ok bs →
  let n := Z.of_nat (length payload) in
  0 < n ≤ frame_max (WithDefaults lim) kind ∧ bs = PutUint32 (frame_header kind n) ++ payload.
Proof.
  intros Hlim. pose proof (frame_max_bound lim kind Hlim). unfold WriteFrame.
  do 2 (destruct (decide _); [done|]). intros [= <-]. split; [lia|].
  rewrite Z.mod_small by lia. by destruct kind.
Qed.

Lemma frame_header_kind kind n : 0 ≤ n < 2 ^ 31 →
  (if decide (Z.land (frame_header kind n) attachmentFlag ≠ 0) then FrameAttachment else FrameJSON) = kind ∧
  Z.ldiff (frame_header kind n) attachmentFlag = n ∧
  0 ≤ frame_header kind n < 2 ^ 32.
Proof.
  intros Hn. destruct (header_json n Hn) as [Hl Hd], (header_attachment n Hn) as (Hl' & Hd' & Hr).
  destruct kind; simpl; (split; [|split; [done|lia]]); by case_decide.
Qed.

(** The decoding of a header written by [WriteFrame], and of what follows. *)
Lemma ReadFrame_header kind n body e lim :
  0 < n ≤ frame_max (WithDefaults lim) kind → n < 2 ^ 31 →
  ReadFrame {| rd_bytes := PutUint32 (frame_header kind n) ++ body; rd_error := e |} lim =
  match ReadFull (Z.to_nat n) {| rd_bytes := body; rd_error := e |} with
  | (Err REOF, r'') => (Err RUnexpectedEOF, r'')
  | (Err e, r'') => (Err e, r'')
  | (Ok buf, r'') => (split_payload kind buf, r'')
  end.
Proof.
  intros Hn Hn'. destruct (frame_header_kind kind n ltac:(lia)) as (Hk & Hd & Hr).
  unfold ReadFrame. rewrite ReadFull_app by done.
  rewrite <-(app_nil_r (PutUint32 _)), Uint32_PutUint32 by done.
  rewrite Hk, Hd. by rewrite !decide_False by lia.
Qed.

Lemma ReadFrame_written kind payload lim bs rest e : limits_ok lim →
  WriteFrame kind payload lim = Ok bs →
  ReadFrame {| rd_bytes := bs ++ rest; rd_error := e |} lim =
  (split_payload kind payload, {| rd_bytes := rest; rd_error := e |}).
Proof.
  intros Hlim Hw. pose proof (frame_max_bound lim kind Hlim).
  destruct (WriteFrame_inv _ _ _ _ Hlim Hw) as [Hn ->]. rewrite <-app_assoc.
  rewrite ReadFrame_header by lia. by rewrite ReadFull_app by lia.
Qed.

(** A strict prefix of a frame: the stream ended on the boundary or inside. *)
Lemma ReadFrame_cut kind payload lim bs p : limits_ok lim →
  WriteFrame kind payload lim = Ok bs → p `prefix_of` bs → p ≠ bs →
  ReadFrame {| rd_bytes := p; rd_error := None |} lim =
  (Err (if decide (p = []) then REOF else RUnexpectedEOF), {| rd_bytes := []; rd_error := None |}).
Proof.
  intros Hlim Hw [s ->] Hne. pose proof (frame_max_bound lim kind Hlim).
  destruct (WriteFrame_inv _ _ _ _ Hlim Hw) as [Hn Hbs].
  assert (Hs : s ≠ []) by (intros ->; by rewrite app_nil_r in Hne).
  destruct (decide (length p < 4)%nat) as [Hp|Hp].
  { unfold ReadFrame. rewrite ReadFull_short by done. done. }
  set (h := frame_header _ _) in *.
  assert (p = PutUint32 h ++ drop 4 p) as Hp'.
  { rewrite <-(take_drop 4 p) at 1. f_equal.
    apply (f_equal (take 4)) in Hbs. by rewrite take_app_le in Hbs by lia. }
  rewrite (decide_False (P := p = [])) by (intros ->; simpl in Hp; lia).
  assert (Hl : (length (drop 4 p) < length payload)%nat).
  { apply (f_equal length) in Hbs. rewrite !length_app, PutUint32_length in Hbs.
    rewrite length_drop. destruct s; [done|]. simpl in Hbs. lia. }
  rewrite Hp'. unfold h. rewrite ReadFrame_header by lia.
  rewrite ReadFull_short by lia. by case_decide.
Qed.

(** The meta block and the data of an attachment come apart again. *)
Lemma split_attachment metaJSON data : metaJSON ≠ [] →
  Z.of_nat (length metaJSON) < 2 ^ 32 →
  split_payload FrameAttachment (attachment_payload metaJSON data) =
  Ok (FrameAttachment, metaJSON, data).
Proof.
  intros Hm Hl. unfold attachment_payload.
  assert (0 < length metaJSON)%nat by (destruct metaJSON; simpl; [done|lia]).
  rewrite Z.mod_small by lia. unfold split_payload.
  set (ml := Z.of_nat (length metaJSON)). set (h := PutUint32 ml).
  assert (HU : Uint32 h = ml)
    by (unfold h; rewrite <-(app_nil_r (PutUint32 _)); apply Uint32_PutUint32; lia).
  assert (Hlen : length (h ++ metaJSON ++ data) = (4 + length metaJSON + length data)%nat)
    by (rewrite !length_app; unfold h; rewrite PutUint32_length; lia).
  assert (Hh : ∀ l, take 4 (h ++ l) = h ∧ drop 4 (h ++ l) = l) by done.
  rewrite decide_False by lia. rewrite (proj1 (Hh _)), HU, Hlen.
  rewrite !bool_decide_false by lia. simpl orb. cbv iota.
  unfold ml. rewrite Nat2Z.id, <-drop_drop, (proj2 (Hh _)).
  by rewrite take_app_length, drop_app_length.
Qed.

(** ** Streams of messages *)

(** What a peer writes: a JSON message, or an attachment with its marshalled
    meta block. *)
Inductive host_message : Type :=
  | JSONMessage (payload : list byte)
  | AttachmentMessage (metaJSON data : list byte).

Definition write_message (m : host_message) (lim : Limits) : result ProtocolError (list byte) :=
  match m with
  | JSONMessage payload => WriteFrame FrameJSON payload lim
  | AttachmentMessage metaJSON data =>
      WriteAttachmentFrame (Z.of_nat (length data)) metaJSON data lim
  end.

Definition message_frame (m : host_message) : FrameKind * list byte * list byte :=
  match m with
  | JSONMessage payload => (FrameJSON, payload, [])
  | AttachmentMessage metaJSON data => (FrameAttachment, metaJSON, data)
  end.

(** A JSON meta block has at least its two braces. *)
Definition message_ok (m : host_message) : Prop :=
  match m with JSONMessage _ => True | AttachmentMessage metaJSON _ => metaJSON ≠ [] end.

(** The read loop both peers run: frames until the first error. *)
Fixpoint read_frames (fuel : nat) (r : reader) (lim : Limits) :
    list (FrameKind * list byte * list byte) * option read_err :=
  match fuel with
  | O => ([], None)
  | S fuel =>
      match ReadFrame r lim with
      | (Ok f, r') => let '(fs, e) := read_frames fuel r' lim in (f :: fs, e)
      | (Err e, _) => ([], Some e)
      end
  end.

Lemma ReadFrame_message m lim bs rest e : limits_ok lim → message_ok m →
  write_message m lim = Ok bs →
  ReadFrame {| rd_bytes := bs ++ rest; rd_error := e |} lim =
  (Ok (message_frame m), {| rd_bytes := rest; rd_error := e |}).
Proof.
  intros Hlim Hok. destruct m as [payload|metaJSON data]; simpl; intros Hw.
  { by rewrite (ReadFrame_written _ _ _ _ _ _ Hlim Hw). }
  unfold WriteAttachmentFrame in Hw. rewrite decide_False in Hw by (intros []; done).
  rewrite (ReadFrame_written _ _ _ _ _ _ Hlim Hw).
  destruct (WriteFrame_inv _ _ _ _ Hlim Hw) as [Hn _].
  pose proof (frame_max_bound lim FrameAttachment Hlim).
  rewrite split_attachment; [done..|]. unfold attachment_payload in Hn.
  rewrite !length_app in Hn. lia.
Qed.

Lemma message_frame_written m lim bs : write_message m lim = Ok bs →
  ∃ kind payload, WriteFrame kind payload lim = Ok bs.
Proof.
  destruct m as [payload|metaJSON data]; simpl; [by eauto|].
  unfold WriteAttachmentFrame. case_decide; [done|]. by eauto.
Qed.

(** [ReadFrame] takes a frame's bytes off the stream. *)
Lemma ReadFull_ok n r bs r' : ReadFull n r = (Ok bs, r') →
  length bs = n ∧ rd_bytes r = bs ++ rd_bytes r' ∧ rd_error r' = rd_error r.
Proof.
  unfold ReadFull. case_decide; [|done]. intros [= <- <-]; simpl.
  by rewrite length_take_le, take_drop by lia.
Qed.

Lemma split_payload_ok kind buf k p d : split_payload kind buf = Ok (k, p, d) →
  k = kind ∧
  match kind with
  | FrameJSON => p = buf ∧ d = []
  | FrameAttachment => ∃ h, buf = h ++ p ++ d ∧ length h = 4%nat ∧
      Uint32 h = Z.of_nat (length p) ∧ p ≠ []
  end.
Proof.
  destruct kind; simpl; [by intros [= <- <- <-]|].
  case_decide as H4; [done|]. set (ml := Uint32 _).
  destruct (bool_decide_reflect (ml ≤ 0)) as [|H0]; [done|].
  destruct (bool_decide_reflect (ml > Z.of_nat (length buf) - 4)) as [|H1]; [done|].
  intros [= <- <- <-]. split; [done|]. exists (take 4 buf).
  change (S (S (S (S (Z.to_nat ml))))) with (4 + Z.to_nat ml)%nat.
  rewrite <-drop_drop, take_drop, take_drop, length_take, length_take, length_drop.
  split_and!; [done|lia|fold ml; lia|].
  intros E%(f_equal length). rewrite length_take, length_drop in E. simpl in E. lia.
Qed.
