(* ===== verification/HostMethods.v ===== *)
(** * The Host IPC method table and handshake rules

    [src/internal/hostipc/errors.go], [methods.go] and [hello.go]: the error
    objects, the frozen method table with its direction and role checks, and
    the version and capability negotiation of [host.hello]. *)

From S2P Require Import Prelude HostFrame.
Open Scope Z_scope.

(** ** Error objects

    The text of [Message] is for people ("so a peer can branch on
    machine-readable values without parsing messages") and is left out: an
    error is its code and its stable reason. *)
Record Error : Type := { err_Code : Z; err_Reason : string }.
#[export] Instance Error_eq_dec : EqDecision Error.
Proof. solve_decision. Defined.

Definition NewError (code : Z) (reason : string) : Error := {| err_Code := code; err_Reason := reason |}.

Definition errProtocolMajor : Error := NewError CodeProtocolMajorMismatch "protocol_major_mismatch".
Definition errProtocolMinor : Error := NewError CodeProtocolMinorUnsupported "protocol_minor_unsupported".
Definition errNotInitialized : Error := NewError CodeNotInitialized "not_initialized".
Definition errUnauthorized (reason : string) : Error := NewError CodeUnauthorizedPeer reason.
Definition errRoleForbidden : Error := NewError CodeRoleForbidden "role_forbidden".
Definition errUnsupported : Error := NewError CodeUnsupported "unsupported".
Definition errInvalidParams : Error := NewError CodeInvalidParams "invalid_params".
Definition errInternal : Error := NewError CodeInternal "internal".
Definition errInvalidRequest : Error := NewError CodeInvalidRequest "invalid_request".

(** ** Roles ([Role] is a string type: any string can arrive) *)
Definition Role : Type := string.
Definition RoleApp : Role := "app".
Definition RoleDiagnostics : Role := "diagnostics".
Definition RoleHarness : Role := "harness".

Definition Known (r : Role) : bool := one_of r [RoleApp; RoleDiagnostics; RoleHarness].

Definition CallerClass (r : Role) : string :=
  if decide (r = RoleApp) then "local_ui" else "local_mcp".

(** ** The method table *)
Inductive Direction : Type := AppToDaemon | DaemonToApp | DaemonToAppNotification.
#[export] Instance Direction_eq_dec : EqDecision Direction.
Proof. solve_decision. Defined.

Record MethodSpec : Type := {
  ms_Name : string;
  ms_Direction : Direction;
  ms_Roles : list Role;
  ms_Implemented : bool
}.
#[export] Instance MethodSpec_eq_dec : EqDecision MethodSpec.
Proof. solve_decision. Defined.

Definition MethodHello : string := "host.hello".
Definition MethodHealth : string := "host.health".
Definition MethodPrepareRestart : string := "host.prepare_restart".
Definition MethodPhase0Probe : string := "host.phase0_probe".
Definition MethodNativeHostSmoke : string := "host.native_host_smoke".
Definition MethodComputerDescribe : string := "computer.describe".
Definition MethodComputerTargets : string := "computer.targets".
Definition MethodComputerOpenSession : string := "computer.open_session".
Definition MethodComputerObserve : string := "computer.observe".
Definition MethodComputerAct : string := "computer.act".
Definition MethodComputerControl : string := "computer.control".
Definition MethodComputerCloseSession : string := "computer.close_session".
Definition MethodApprovalPresent : string := "approval.present".
Definition MethodApprovalDecision : string := "approval.decision".
Definition MethodApprovalCancel : string := "approval.cancel".
Definition MethodNotifyPost : string := "notify.post".
Definition MethodRuntimeHealth : string := "runtime.health".
Definition MethodRuntimeEvents : string := "runtime.events".
Definition MethodRuntimeCommand : string := "runtime.command".

Definition spec (name : string) (d : Direction) (roles : list Role) (impl : bool) : MethodSpec :=
  {| ms_Name := name; ms_Direction := d; ms_Roles := roles; ms_Implemented := impl |}.

Definition methodTable : list MethodSpec := [
  spec MethodHello AppToDaemon [RoleApp; RoleDiagnostics; RoleHarness] true;
  spec MethodHealth AppToDaemon [RoleApp; RoleDiagnostics; RoleHarness] true;
  spec MethodNativeHostSmoke AppToDaemon [RoleApp; RoleDiagnostics; RoleHarness] true;
  spec MethodPhase0Probe AppToDaemon [RoleApp; RoleDiagnostics] false;
  spec MethodPrepareRestart AppToDaemon [RoleApp] false;
  spec MethodRuntimeHealth AppToDaemon [RoleApp] false;
  spec MethodRuntimeEvents AppToDaemon [RoleApp] false;
  spec MethodRuntimeCommand AppToDaemon [RoleApp] false;
  spec MethodApprovalDecision AppToDaemon [RoleApp] false;

  spec MethodComputerDescribe DaemonToApp [RoleApp] false;
  spec MethodComputerTargets DaemonToApp [RoleApp] false;
  spec MethodComputerOpenSession DaemonToApp [RoleApp] false;
  spec MethodComputerObserve DaemonToApp [RoleApp] false;
  spec MethodComputerAct DaemonToApp [RoleApp] false;
  spec MethodComputerControl DaemonToApp [RoleApp] false;
  spec MethodComputerCloseSession DaemonToApp [RoleApp] false;
  spec MethodApprovalPresent DaemonToApp [RoleApp] false;
  spec MethodApprovalCancel DaemonToApp [RoleApp] false;

  spec MethodNotifyPost DaemonToAppNotification [RoleApp] true
].

(** The index the package initialises: later rows overwrite earlier ones. *)
Definition methodIndex : gmap string MethodSpec :=
  foldl (λ m s, <[ms_Name s := s]> m) ∅ methodTable.

Definition LookupMethod (name : string) : option MethodSpec := methodIndex !! name.

Definition Phase0Implemented (method : string) : bool :=
  match methodIndex !! method with Some s => ms_Implemented s | None => false end.

Definition ServableByDaemon (method : string) : bool :=
  match methodIndex !! method with Some s => bool_decide (ms_Direction s = AppToDaemon) | None => false end.

Definition MethodTable : list MethodSpec := methodTable.

Definition RoleAllowed (s : MethodSpec) (role : Role) : bool :=
  existsb (λ r, bool_decide (r = role)) (ms_Roles s).

(** [Authorize]; the spec the code also returns beside an error is not used by
    its caller. *)
Definition Authorize (method : string) (role : Role) : result Error MethodSpec :=
  match LookupMethod method with
  | None => Err errUnsupported
  | Some s =>
      if decide (ms_Direction s ≠ AppToDaemon) then Err errUnsupported
      else if negb (RoleAllowed s role) then Err errRoleForbidden
      else Ok s
  end.

#[global] Arguments LookupMethod : simpl never.
#[global] Arguments Authorize : simpl never.
#[global] Arguments RoleAllowed : simpl never.

(** ** Versions *)
Definition ProtocolMajor : Z := 1.
Definition DefaultProtocolMinor : Z := 0.

Record Protocol : Type := { Major : Z; Minor : Z }.
#[export] Instance Protocol_eq_dec : EqDecision Protocol.
Proof. solve_decision. Defined.

Definition SupportedClientMinors (daemonMinor : Z) : list Z :=
  [daemonMinor] ++ (if decide (daemonMinor > 0) then [daemonMinor - 1] else []).

(** The loop of [Negotiate] over the supported minors. *)
Fixpoint find_minor (major want : Z) (supported : list Z) : result Error Protocol :=
  match supported with
  | [] => Err errProtocolMinor
  | m :: supported =>
      if decide (want = m) then Ok {| Major := major; Minor := want |}
      else find_minor major want supported
  end.

Definition Negotiate (daemon client : Protocol) : result Error Protocol :=
  if decide (Major client ≠ Major daemon) then Err errProtocolMajor
  else find_minor (Major daemon) (Minor client) (SupportedClientMinors (Minor daemon)).

(** ** Capabilities *)
Definition Capability : Type := string.
Definition CapHost : Capability := "host".
Definition CapComputer : Capability := "computer".
Definition CapApproval : Capability := "approval".
Definition CapNotify : Capability := "notify".
Definition CapRuntime : Capability := "runtime".
Definition CapNativeHostSmoke : Capability := "native_host_smoke".

(** One turn of the loop: the granted list and the set [seen]. *)
Definition grant_capability (have : gset Capability)
    (st : list Capability * gset Capability) (c : Capability) : list Capability * gset Capability :=
  let '(out, seen) := st in
  if bool_decide (c ∈ have) && negb (bool_decide (c ∈ seen))
  then (out ++ [c], {[c]} ∪ seen)
  else (out, seen).

Definition NegotiateCapabilities (daemon client : list Capability) : list Capability :=
  (foldl (grant_capability (list_to_set daemon)) ([], ∅) client).1.

(** ** The handshake messages *)
Record HelloParams : Type := {
  hp_Protocol : Protocol;
  hp_AppVersion : string;
  hp_Role : Role;
  hp_Capabilities : list Capability;
  hp_BundleID : string;
  hp_TeamID : string;
  hp_PID : Z
}.

Record HelloResult : Type := {
  hr_Accepted : bool;
  hr_Protocol : Protocol;
  hr_DaemonVersion : string;
  hr_Capabilities : list Capability;
  hr_Role : Role;
  hr_SignatureVerified : bool;
  hr_PeerUID : Z
}.

(** ** Lemmas *)

Lemma RoleAllowed_spec s role : RoleAllowed s role = true ↔ role ∈ ms_Roles s.
Proof.
  unfold RoleAllowed. rewrite existsb_exists. setoid_rewrite bool_decide_eq_true.
  setoid_rewrite <-list_elem_of_In. naive_solver.
Qed.

(** Filling an index row by row: a name's last row wins. *)
Lemma index_lookup rows (m : gmap string MethodSpec) name :
  foldl (λ m s, <[ms_Name s := s]> m) m rows !! name =
  match last (filter (λ s, ms_Name s = name) rows) with Some s => Some s | None => m !! name end.
Proof.
  revert m. induction rows as [|s rows IH]; intros m; simpl; [done|]. rewrite IH.
  destruct (decide (ms_Name s = name)) as [Hn|Hn].
  - rewrite filter_cons_True by done. rewrite last_cons.
    destruct (last _); [done|]. by rewrite Hn, lookup_insert_eq.
  - rewrite filter_cons_False by done. by rewrite lookup_insert_ne.
Qed.

(** No two rows share a name. *)
Lemma methodTable_names : NoDup (ms_Name <$> methodTable).
Proof. apply (bool_decide_unpack _). by vm_compute. Qed.

(** A row is found under its own name, and only rows of the table are. *)
Lemma LookupMethod_Some name s : LookupMethod name = Some s ↔ s ∈ methodTable ∧ ms_Name s = name.
Proof.
  unfold LookupMethod, methodIndex. rewrite index_lookup, lookup_empty.
  split.
  - destruct (last _) as [s'|] eqn:Hl; [|done]. intros [= ->].
    apply last_Some_elem_of, list_elem_of_filter in Hl. naive_solver.
  - intros [Hin Hn]. pose proof methodTable_names as Hnd.
    destruct (last _) as [s'|] eqn:Hl.
    + apply last_Some_elem_of, list_elem_of_filter in Hl as [Hn' Hin'].
      apply list_elem_of_lookup in Hin as [i Hi], Hin' as [j Hj].
      assert (i = j) as ->; [|congruence].
      eapply NoDup_lookup; [exact Hnd|..]; rewrite list_lookup_fmap.
      * rewrite Hi. by rewrite <-Hn, Hn.
      * rewrite Hj. simpl. by rewrite Hn', Hn.
    + apply last_None in Hl. assert (s ∈ filter (λ s, ms_Name s = name) methodTable) as Hs
        by (by apply list_elem_of_filter).
      rewrite Hl in Hs. by apply elem_of_nil in Hs.
Qed.

Lemma Authorize_ok method role s :
  Authorize method role = Ok s ↔
  s ∈ methodTable ∧ ms_Name s = method ∧ ms_Direction s = AppToDaemon ∧ role ∈ ms_Roles s.
Proof.
  unfold Authorize. destruct (LookupMethod method) as [s'|] eqn:HL.
  - pose proof HL as [Hin Hn]%LookupMethod_Some.
    destruct (decide _) as [Hd|Hd].
    { split; [done|]. intros (H1 & H2 & H3 & _).
      assert (LookupMethod method = Some s) as E by (by apply LookupMethod_Some). naive_solver. }
    apply dec_stable in Hd. destruct (RoleAllowed s' role) eqn:HR; simpl.
    + apply RoleAllowed_spec in HR. split; [by intros [= <-]|]. intros (H1 & H2 & _).
      assert (LookupMethod method = Some s) as E by (by apply LookupMethod_Some). congruence.
    + split; [done|]. intros (H1 & H2 & _ & H4%RoleAllowed_spec).
      assert (LookupMethod method = Some s) as E by (by apply LookupMethod_Some). congruence.
  - split; [done|]. intros (H1 & H2 & _).
    assert (LookupMethod method = Some s) as E by (by apply LookupMethod_Some). congruence.
Qed.

Lemma find_minor_spec major want supported p :
  find_minor major want supported = Ok p ↔ want ∈ supported ∧ p = {| Major := major; Minor := want |}.
Proof.
  induction supported as [|m l IH]; simpl.
  - split; [done|]. intros [[]%elem_of_nil _].
  - rewrite elem_of_cons. case_decide; [naive_solver|]. rewrite IH. naive_solver.
Qed.

Lemma grant_capabilities have client out seen :
  (∀ c, c ∈ seen ↔ c ∈ out) → NoDup out →
  let '(out', seen') := foldl (grant_capability have) (out, seen) client in
  (∀ c, c ∈ seen' ↔ c ∈ out') ∧ NoDup out' ∧
  (∀ c, c ∈ out' ↔ c ∈ out ∨ c ∈ have ∧ c ∈ client) ∧
  ∃ l, out' = out ++ l ∧ l `sublist_of` client.
Proof.
  revert out seen. induction client as [|c client IH]; intros out seen Hseen Hnd; simpl.
  { split_and!; [done|done|set_solver|]. exists []. by rewrite app_nil_r. }
  destruct (bool_decide_reflect (c ∈ have)) as [Hh|Hh],
    (bool_decide_reflect (c ∈ seen)) as [Hs|Hs]; simpl.
  1,3,4: (specialize (IH out seen Hseen Hnd); destruct (foldl _ _ _) as [out' seen'];
    destruct IH as (?&?&Hm&l&->&?); split_and!;
    [done|done|intros c'; rewrite Hm, elem_of_cons; set_solver
    |by exists l; split; [|constructor]]).
  assert (Hs' : c ∉ out) by (by rewrite <-Hseen).
  specialize (IH (out ++ [c]) ({[c]} ∪ seen)). destruct (foldl _ _ _) as [out' seen'].
  destruct IH as (?&?&Hm&l&->&?); [set_solver| |].
  { apply NoDup_app. split_and!; [done|set_solver|apply NoDup_singleton]. }
  split_and!; [done|done| |].
  - intros c'. rewrite Hm. set_solver.
  - exists (c :: l). rewrite <-app_assoc. split; [done|]. by constructor.
Qed.
