(* ===== verification/HostMessage.v ===== *)
(** * Host IPC messages

    [src/internal/hostipc/jsonrpc.go]: the JSON-RPC 2.0 message, its kinds and
    constructors, and the decoding of a frame's payload. The standard library's
    [encoding/json] enters as the record [encoding_json] of the calls the
    package makes on it; raw JSON ([json.RawMessage]) is its text. *)

From Stdlib Require Import Strings.Byte.
From S2P Require Import Prelude GoStrings HostFrame HostMethods.
Open Scope Z_scope.

Definition JSONRPCVersion : string := "2.0".

(** An empty raw field is an absent one. *)
Record Message : Type := {
  msg_JSONRPC : string;
  msg_ID : string;
  msg_Method : string;
  msg_Params : string;
  msg_Result : string;
  msg_Error : option Error
}.
#[export] Instance Message_eq_dec : EqDecision Message.
Proof. solve_decision. Defined.

Inductive MessageKind : Type := KindUnknown | KindRequest | KindNotification | KindResponse.
#[export] Instance MessageKind_eq_dec : EqDecision MessageKind.
Proof. solve_decision. Defined.

Definition Kind (m : Message) : MessageKind :=
  if bool_decide (msg_Method m ≠ "") && bool_decide (msg_ID m ≠ "") then KindRequest
  else if bool_decide (msg_Method m ≠ "") then KindNotification
  else if bool_decide (msg_ID m ≠ "") &&
          (bool_decide (msg_Result m ≠ "") || bool_decide (msg_Error m ≠ None)) then KindResponse
  else KindUnknown.

(** What marshalling a Go value gave: its JSON text, [""] for a nil value, or
    the marshaller's error. *)
Definition marshalled : Type := result string string.

(** A JSON string of plain characters. *)
Definition quote : string := String (Ascii.ascii_of_nat 34) "".
Definition quoted (s : string) : string := quote +:+ s +:+ quote.

Definition NewRequest (id method : string) (params : marshalled) : result string Message :=
  raw ← params;
  let id := if decide (id = "") then quoted "1" else id in
  mret {| msg_JSONRPC := JSONRPCVersion; msg_ID := id; msg_Method := method;
          msg_Params := raw; msg_Result := ""; msg_Error := None |}.

Definition NewNotification (method : string) (params : marshalled) : result string Message :=
  raw ← params;
  mret {| msg_JSONRPC := JSONRPCVersion; msg_ID := ""; msg_Method := method;
          msg_Params := raw; msg_Result := ""; msg_Error := None |}.

Definition NewResponse (id : string) (res : marshalled) : result string Message :=
  raw ← res;
  let raw := if decide (raw = "") then "null" else raw in
  mret {| msg_JSONRPC := JSONRPCVersion; msg_ID := id; msg_Method := "";
          msg_Params := ""; msg_Result := raw; msg_Error := None |}.

Definition NewErrorResponse (id : string) (e : Error) : Message :=
  let id := if decide (id = "") then "null" else id in
  {| msg_JSONRPC := JSONRPCVersion; msg_ID := id; msg_Method := "";
     msg_Params := ""; msg_Result := ""; msg_Error := Some e |}.

(** ** Decoding *)

(** The calls into [encoding/json]. *)
Record encoding_json : Type := {
  (** [json.Valid] *)
  json_Valid : list byte → bool;
  (** [json.Unmarshal] into a [map[string]json.RawMessage] succeeds *)
  json_probe : list byte → bool;
  (** [json.Unmarshal] into a [Message] *)
  json_message : list byte → result string Message;
  (** [Decode] of a [HelloParams] by a fresh decoder, and the bytes it leaves *)
  json_hello : list byte → result string (HelloParams * list byte);
  (** [json.Marshal] of a [Message] *)
  json_marshal : Message → result string (list byte);
  (** [json.Marshal] of a [HelloResult] *)
  json_marshal_hello : HelloResult → marshalled
}.

Definition errParse : Error := NewError CodeParse "parse".

Definition open_brace : byte := x7b.

Definition DecodeMessage (json : encoding_json) (payload : list byte) : result Error Message :=
  let trimmed := TrimSpace_bytes payload in
  match trimmed with
  | [] => Err errParse
  | b0 :: _ =>
      if negb (json_Valid json trimmed) then Err errParse
      else if bool_decide (b0 ≠ open_brace) then Err errInvalidRequest
      else if negb (json_probe json trimmed) then Err errInvalidRequest
      else
        match json_message json trimmed with
        | Err _ => Err errInvalidRequest
        | Ok m =>
            if decide (msg_JSONRPC m ≠ JSONRPCVersion) then Err errInvalidRequest
            else if bool_decide (msg_Method m = "") && bool_decide (msg_ID m = "")
            then Err errInvalidRequest
            else Ok m
        end
  end.

(** [Decoder.More] on the bytes left: something other than a closing bracket
    follows the JSON white space. *)
Fixpoint More (rest : list byte) : bool :=
  match rest with
  | [] => false
  | b :: rest' =>
      if bool_decide (byte_val b ∈ [32; 9; 10; 13]) then More rest'
      else negb (bool_decide (byte_val b ∈ [93; 125]))
  end.

(** [DecodeParams] into a value of type [V] that starts as [zero]. *)
Definition DecodeParams {V} (decode : list byte → result string (V * list byte)) (zero : V)
    (params : string) : result Error V :=
  let trimmed := TrimSpace_bytes (String.list_byte_of_string params) in
  if decide (trimmed = [] ∨ trimmed = String.list_byte_of_string "null") then Ok zero
  else
    match decode trimmed with
    | Err _ => Err errInvalidParams
    | Ok (v, rest) => if More rest then Err errInvalidParams else Ok v
    end.

Definition zero_hello : HelloParams := {|
  hp_Protocol := {| Major := 0; Minor := 0 |};
  hp_AppVersion := ""; hp_Role := ""; hp_Capabilities := [];
  hp_BundleID := ""; hp_TeamID := ""; hp_PID := 0
|}.

(** ** Lemmas *)

(** A decoded message is a version 2.0 message with a method or an id. *)
Lemma DecodeMessage_ok json payload m : DecodeMessage json payload = Ok m →
  msg_JSONRPC m = JSONRPCVersion ∧ (msg_Method m ≠ "" ∨ msg_ID m ≠ "").
Proof.
  unfold DecodeMessage. destruct (TrimSpace_bytes payload) as [|b0 l]; [done|].
  destruct (negb _); [done|]. destruct (bool_decide _); [done|]. destruct (negb _); [done|].
  destruct (json_message _ _) as [m'|]; [|done].
  case_decide as HJ; [done|].
  destruct (bool_decide_reflect (msg_Method m' = "")) as [|HM];
    destruct (bool_decide_reflect (msg_ID m' = "")) as [|HI]; simpl; [done|..];
    intros [= <-]; split; (by apply dec_stable) || auto.
Qed.

Lemma Kind_request m : Kind m = KindRequest ↔ msg_Method m ≠ "" ∧ msg_ID m ≠ "".
Proof.
  unfold Kind. repeat case_bool_decide; simpl; naive_solver.
Qed.

(** An error response is one, whatever the id it answers. *)
Lemma Kind_error_response id e : Kind (NewErrorResponse id e) = KindResponse.
Proof. unfold Kind, NewErrorResponse; simpl. by case_decide as H; simpl; [|rewrite !bool_decide_true by done]. Qed.
