(* ===== verification/HostServer.v ===== *)
(** * The Host IPC server

    [src/internal/hostipc/server.go]: a connection's state, the handshake, the
    dispatch of inbound requests, the daemon's own requests and their
    responses, and the connections of a server. The lock sections of the code
    are atomic steps; the goroutines that use a connection interleave as
    events. Log lines are left out. *)

From Stdlib Require Import Strings.Byte.
From stdpp Require Import pretty.
From S2P Require Import Prelude HostFrame HostMethods HostMessage.
Open Scope Z_scope.

(** ** Data *)

Record PeerCred : Type := { cred_UID : Z; cred_PID : Z }.

(** What [VerifyAppPeer] reports of a process: valid, or an error with the
    [SignatureError] reason ([""] for any other error). *)
Inductive verdict : Type := PeerValid | PeerInvalid (reason : string).

(** What the world answers while one frame is handled: the pid of the socket's
    live peer, the code signature of a pid, whether writes to the socket
    succeed, and what the registered handler of a method returns. *)
Record world : Type := {
  peerPID : result string Z;
  signature : Z → verdict;
  writable : bool;
  handle : string → string → result Error marshalled
}.

Record ServerOptions : Type := {
  opt_Version : string;
  opt_Protocol : Protocol;
  opt_Capabilities : list Capability;
  opt_Limits : Limits;
  opt_UID : Z;
  opt_VerifyAppPeer : bool (* a verifier is configured *)
}.

Record Conn : Type := {
  cred : PeerCred;
  role : Role;
  negotiated : Protocol;
  capabilities : list Capability;
  helloSeen : bool;
  signatureVerified : bool;
  closed : bool;
  pendSeq : Z;
  (** request id to its channel of one slot: [Some None] is an empty channel *)
  pending : gmap string (option Message)
}.

Record Server : Type := {
  srv_opt : ServerOptions;
  srv_handlers : gset string;
  srv_conns : gmap nat Conn;
  srv_next : nat;
  srv_closed : bool
}.

(** What a step does to the outside. *)
Inductive action : Type :=
  | Sent (m : Message)
  | Called (method params : string).
#[export] Instance action_eq_dec : EqDecision action.
Proof. solve_decision. Defined.

(** ** Connection updates *)
Definition zero_protocol : Protocol := {| Major := 0; Minor := 0 |}.

Definition newConn (cr : PeerCred) : Conn := {|
  cred := cr; role := ""; negotiated := zero_protocol; capabilities := [];
  helloSeen := false; signatureVerified := false; closed := false;
  pendSeq := 0; pending := ∅
|}.

Definition handshaken (c : Conn) : bool := helloSeen c.

Definition setHandshaken (r : Role) (p : Protocol) (caps : list Capability) (verified : bool)
    (c : Conn) : Conn := {|
  cred := cred c; role := r; negotiated := p; capabilities := caps;
  helloSeen := true; signatureVerified := verified; closed := closed c;
  pendSeq := pendSeq c; pending := pending c
|}.

Definition set_pending (seq : Z) (p : gmap string (option Message)) (c : Conn) : Conn := {|
  cred := cred c; role := role c; negotiated := negotiated c; capabilities := capabilities c;
  helloSeen := helloSeen c; signatureVerified := signatureVerified c; closed := closed c;
  pendSeq := seq; pending := p
|}.

(** [Conn.Close]. *)
Definition Close (c : Conn) : Conn := {|
  cred := cred c; role := role c; negotiated := negotiated c; capabilities := capabilities c;
  helloSeen := helloSeen c; signatureVerified := signatureVerified c; closed := true;
  pendSeq := pendSeq c; pending := pending c
|}.

Section server.
Context (json : encoding_json) (opt : ServerOptions) (handlers : gset string).

(** ** Sending *)

(** [Conn.send]: what was handed to the socket, and whether it was sent. *)
Definition send (w : world) (c : Conn) (msg : Message) : list action * bool :=
  match json_marshal json msg with
  | Err _ => ([], false)
  | Ok payload =>
      match WriteFrame FrameJSON payload (opt_Limits opt) with
      | Err _ => ([], false)
      | Ok _ => if negb (closed c) && writable w then ([Sent msg], true) else ([], false)
      end
  end.

Definition respond (w : world) (c : Conn) (id : string) (res : marshalled) : list action * bool :=
  match NewResponse id res with
  | Err _ => send w c (NewErrorResponse id errInternal)
  | Ok msg => send w c msg
  end.

Definition respondError (w : world) (c : Conn) (id : string) (e : Error) : list action :=
  (send w c (NewErrorResponse id e)).1.

(** ** Requests of the peer *)

(** The signature check of the [app] role in [handleHello]. *)
Definition verifyApp (w : world) (c : Conn) : result Error () :=
  match peerPID w with
  | Err _ => Err (errUnauthorized "peer_pid_unavailable")
  | Ok livePID =>
      if decide (livePID ≠ cred_PID (cred c)) then Err (errUnauthorized "peer_pid_changed")
      else if negb (opt_VerifyAppPeer opt)
      then Err (errUnauthorized "signing_identity_not_configured")
      else
        match signature w (cred_PID (cred c)) with
        | PeerInvalid reason =>
            Err (errUnauthorized (if decide (reason = "") then "app_signature_invalid" else reason))
        | PeerValid => Ok ()
        end
  end.

(** [handleHello]: the connection after it, what was sent, and whether the
    connection must be closed. *)
Definition handleHello (w : world) (c : Conn) (msg : Message) : Conn * list action * bool :=
  if handshaken c then (c, respondError w c (msg_ID msg) errInvalidRequest, false)
  else
    match DecodeParams (json_hello json) zero_hello (msg_Params msg) with
    | Err e => (c, respondError w c (msg_ID msg) e, true)
    | Ok params =>
        if negb (Known (hp_Role params))
        then (c, respondError w c (msg_ID msg) (NewError CodeInvalidParams "unknown_role"), true)
        else
          match Negotiate (opt_Protocol opt) (hp_Protocol params) with
          | Err e => (c, respondError w c (msg_ID msg) e, true)
          | Ok neg =>
              let app := bool_decide (hp_Role params = RoleApp) in
              match (if app then verifyApp w c else Ok ()) with
              | Err e => (c, respondError w c (msg_ID msg) e, true)
              | Ok _ =>
                  let caps := NegotiateCapabilities (opt_Capabilities opt) (hp_Capabilities params) in
                  let c := setHandshaken (hp_Role params) neg caps app c in
                  let res := {|
                    hr_Accepted := true; hr_Protocol := neg; hr_DaemonVersion := opt_Version opt;
                    hr_Capabilities := capabilities c; hr_Role := hp_Role params;
                    hr_SignatureVerified := app; hr_PeerUID := cred_UID (cred c) |} in
                  let '(acts, ok) := respond w c (msg_ID msg) (json_marshal_hello json res) in
                  (c, acts, negb ok)
              end
          end
    end.

(** [handleRequest]. *)
Definition handleRequest (w : world) (c : Conn) (msg : Message) : Conn * list action * bool :=
  if decide (msg_Method msg = MethodHello) then handleHello w c msg
  else if negb (handshaken c) then (c, respondError w c (msg_ID msg) errNotInitialized, true)
  else
    match Authorize (msg_Method msg) (role c) with
    | Err e => (c, respondError w c (msg_ID msg) e, false)
    | Ok _ =>
        if negb (bool_decide (msg_Method msg ∈ handlers))
        then (c, respondError w c (msg_ID msg) errUnsupported, false)
        else
          let call := Called (msg_Method msg) (msg_Params msg) in
          match handle w (msg_Method msg) (msg_Params msg) with
          | Err e => (c, call :: respondError w c (msg_ID msg) e, false)
          | Ok res =>
              let '(acts, ok) := respond w c (msg_ID msg) res in
              (c, call :: acts, negb ok)
          end
    end.

(** [deliverResponse]: into the channel if it is empty, dropped otherwise. *)
Definition deliverResponse (msg : Message) (c : Conn) : Conn :=
  match pending c !! msg_ID msg with
  | Some None => set_pending (pendSeq c) (<[msg_ID msg := Some msg]> (pending c)) c
  | _ => c
  end.

(** One turn of the loop of [serveConn] on what [ReadFrame] returned; the
    third component says that the loop returned. *)
Definition serve_frame (w : world) (c : Conn)
    (frame : result read_err (FrameKind * list byte * list byte)) : Conn * list action * bool :=
  match frame with
  | Err (RProtocol e) =>
      (c, respondError w c "" (NewError (perr_code e) (perr_reason e)), true)
  | Err _ => (c, [], true)
  | Ok (FrameAttachment, _, _) => (c, respondError w c "" errInvalidRequest, true)
  | Ok (FrameJSON, payload, _) =>
      match DecodeMessage json payload with
      | Err e => (c, respondError w c "" e, true)
      | Ok msg =>
          match Kind msg with
          | KindRequest => handleRequest w c msg
          | KindNotification => (c, [], false)
          | KindResponse => (deliverResponse msg c, [], false)
          | KindUnknown => (c, respondError w c (msg_ID msg) errInvalidRequest, false)
          end
      end
  end.

(** ** Requests of the daemon

    [Conn.Request] holds no lock while it sends and waits, so its three parts
    are separate steps: take an id and a channel, send, and leave with the
    outcome, dropping the channel. *)
Definition request_id (seq : Z) : string := quoted ("d-" +:+ pretty seq).

Definition Request_open (c : Conn) : Conn * string :=
  let seq := (pendSeq c + 1) `mod` 2 ^ 64 in
  let id := request_id seq in
  (set_pending seq (<[id := None]> (pending c)) c, id).

Definition drop_pending (id : string) (c : Conn) : Conn :=
  set_pending (pendSeq c) (delete id (pending c)) c.

Definition Request_send (w : world) (c : Conn) (id method : string) (params : marshalled) :
    Conn * list action * option Error :=
  match NewRequest id method params with
  | Err _ => (drop_pending id c, [], Some errInternal)
  | Ok msg =>
      let '(acts, ok) := send w c msg in
      if ok then (c, acts, None) else (drop_pending id c, acts, Some errInternal)
  end.

(** What the [select] of [Request] woke up on. *)
Inductive wakeup : Type := WakeCancelled | WakeShutdown | WakeResponse.

(** The outcome is the raw result (which [DecodeParams] then reads) or the
    error; [None] when the wake-up is not possible: no response is there. *)
Definition Request_finish (c : Conn) (id : string) (wake : wakeup) :
    option (Conn * result Error string) :=
  match wake with
  | WakeCancelled | WakeShutdown => Some (drop_pending id c, Err errInternal)
  | WakeResponse =>
      match pending c !! id with
      | Some (Some resp) =>
          Some (drop_pending id c,
                match msg_Error resp with Some e => Err e | None => Ok (msg_Result resp) end)
      | _ => None
      end
  end.

(** [Conn.Notify]. *)
Definition Notify (w : world) (c : Conn) (method : string) (params : marshalled) : list action * bool :=
  match NewNotification method params with
  | Err _ => ([], false)
  | Ok msg => send w c msg
  end.

(** ** A connection's events *)
Inductive conn_event : Type :=
  | EvFrame (w : world) (frame : result read_err (FrameKind * list byte * list byte))
  | EvRequestOpen
  | EvRequestSend (w : world) (id method : string) (params : marshalled)
  | EvRequestFinish (id : string) (wake : wakeup)
  | EvNotify (w : world) (method : string) (params : marshalled)
  | EvClose.

Definition conn_step (c : Conn) (ev : conn_event) : Conn * list action :=
  match ev with
  | EvFrame w frame =>
      if closed c then (c, [])
      else
        let '(c, acts, stop) := serve_frame w c frame in
        (if stop then Close c else c, acts)
  | EvRequestOpen => ((Request_open c).1, [])
  | EvRequestSend w id method params =>
      let '(c, acts, _) := Request_send w c id method params in (c, acts)
  | EvRequestFinish id wake =>
      match Request_finish c id wake with Some (c', _) => (c', []) | None => (c, []) end
  | EvNotify w method params => (c, (Notify w c method params).1)
  | EvClose => (Close c, [])
  end.

Fixpoint conn_run (c : Conn) (evs : list conn_event) : Conn * list action :=
  match evs with
  | [] => (c, [])
  | ev :: evs =>
      let '(c, acts) := conn_step c ev in
      let '(c', acts') := conn_run c evs in
      (c', acts ++ acts')
  end.
End server.

(** ** The server *)

(** [NewServer]: the options with their defaults; [getuid] is [os.Getuid]. *)
Definition NewServer (opt : ServerOptions) (getuid : Z) : Server := {|
  srv_opt := {|
    opt_Version := opt_Version opt;
    opt_Protocol := if decide (Major (opt_Protocol opt) = 0)
                    then {| Major := ProtocolMajor; Minor := DefaultProtocolMinor |}
                    else opt_Protocol opt;
    opt_Capabilities := opt_Capabilities opt;
    opt_Limits := opt_Limits opt;
    opt_UID := if decide (opt_UID opt = 0) then getuid `mod` 2 ^ 32 else opt_UID opt;
    opt_VerifyAppPeer := opt_VerifyAppPeer opt |};
  srv_handlers := ∅;
  srv_conns := ∅;
  srv_next := 0;
  srv_closed := false
|}.

Definition set_conns (conns : gmap nat Conn) (next : nat) (s : Server) : Server := {|
  srv_opt := srv_opt s; srv_handlers := srv_handlers s; srv_conns := conns;
  srv_next := next; srv_closed := srv_closed s |}.

(** [Handle]; [None] is the panic on an unknown method. *)
Definition Handle (method : string) (s : Server) : option Server :=
  match LookupMethod method with
  | None => None
  | Some _ => Some {|
      srv_opt := srv_opt s; srv_handlers := {[method]} ∪ srv_handlers s;
      srv_conns := srv_conns s; srv_next := srv_next s; srv_closed := srv_closed s |}
  end.

(** The start of [serveConn] on an accepted socket whose credentials read as
    [cr]: the new connection's key, or [None] when the socket is closed. *)
Definition Accept (cr : result string PeerCred) (s : Server) : Server * option nat :=
  match cr with
  | Err _ => (s, None)
  | Ok cr =>
      if decide (cred_UID cr ≠ opt_UID (srv_opt s)) then (s, None)
      else (set_conns (<[srv_next s := newConn cr]> (srv_conns s)) (S (srv_next s)) s,
            Some (srv_next s))
  end.

(** An event of one connection; a connection whose loop ends is removed. *)
Definition server_step (json : encoding_json) (s : Server) (k : nat) (ev : conn_event) :
    Server * list action :=
  match srv_conns s !! k with
  | None => (s, [])
  | Some c =>
      let '(c', acts) := conn_step json (srv_opt s) (srv_handlers s) c ev in
      let conns := if closed c' then delete k (srv_conns s) else <[k := c']> (srv_conns s) in
      (set_conns conns (srv_next s) s, acts)
  end.

(** [Broadcast]: the connections it sends to, with what each socket took. *)
Definition Broadcast (json : encoding_json) (w : nat → world) (s : Server) (method : string)
    (params : marshalled) : result string (list (nat * list action)) :=
  msg ← NewNotification method params;
  let targets := filter (λ kc, handshaken kc.2 = true) (map_to_list (srv_conns s)) in
  mret ((λ kc : nat * Conn, (kc.1, (send json (srv_opt s) (w kc.1) kc.2 msg).1)) <$> targets).

Definition ConnCount (s : Server) : nat := size (srv_conns s).

(** [HasHandler]: registered, and known to the frozen table. *)
Definition HasHandler (method : string) (s : Server) : bool * bool :=
  (bool_decide (method ∈ srv_handlers s),
   match LookupMethod method with Some _ => true | None => false end).

(** [Server.Close]: stops accepting and closes every connection. *)
Definition CloseServer (s : Server) : Server := {|
  srv_opt := srv_opt s; srv_handlers := srv_handlers s;
  srv_conns := if srv_closed s then srv_conns s else Close <$> srv_conns s;
  srv_next := srv_next s; srv_closed := true |}.

(** ** Lemmas *)
Section lemmas.
Context (json : encoding_json) (opt : ServerOptions) (handlers : gset string).

(** A message that can be sent: it marshals within the frame limit, to a
    socket that accepts it. *)
Definition sendable (w : world) (c : Conn) (msg : Message) : Prop :=
  (send json opt w c msg).2 = true.

Lemma send_cases w c msg :
  send json opt w c msg = ([], false) ∨ send json opt w c msg = ([Sent msg], true).
Proof.
  unfold send. destruct (json_marshal json msg); [|auto]. destruct (WriteFrame _ _ _); [|auto].
  destruct (_ && _); auto.
Qed.

Lemma send_closed w c msg : closed c = true → send json opt w c msg = ([], false).
Proof.
  intros Hc. unfold send. rewrite Hc. simpl.
  destruct (json_marshal json msg); [|done]. by destruct (WriteFrame _ _ _).
Qed.

(** The actions of an answer: one message at most, and nothing else. *)
Definition answer (id : string) (acts : list action) : Prop :=
  acts = [] ∨ ∃ m, acts = [Sent m] ∧ Kind m = KindResponse ∧ (msg_ID m = id ∨ id = "" ∧ msg_ID m = "null").

Lemma respondError_answer w c id e : answer id (respondError json opt w c id e).
Proof.
  unfold respondError. destruct (send_cases w c (NewErrorResponse id e)) as [->| ->]; [by left|].
  right. eexists. split; [done|]. split; [apply Kind_error_response|].
  unfold NewErrorResponse; simpl. case_decide; auto.
Qed.

Lemma respond_answer w c id res : id ≠ "" → answer id (respond json opt w c id res).1.
Proof.
  intros Hid. unfold respond.
  destruct (NewResponse id res) as [msg|] eqn:Hn; [|apply respondError_answer].
  destruct (send_cases w c msg) as [->| ->]; [by left|].
  right. eexists. split; [done|]. destruct res as [raw|]; [|done]. injection Hn as <-.
  split; [|by left]. unfold Kind; simpl. rewrite (bool_decide_true (id ≠ "")) by done. simpl.
  by case_decide; rewrite bool_decide_true by done.
Qed.

Lemma answer_not_called id acts m p : answer id acts → Called m p ∉ acts.
Proof. intros [->|(?&->&_)]; set_solver. Qed.

(** ** The handshake *)

(** What a [host.hello] must satisfy to be accepted, and the version agreed. *)
Definition hello_accepted (w : world) (c : Conn) (msg : Message) (params : HelloParams)
    (neg : Protocol) : Prop :=
  DecodeParams (json_hello json) zero_hello (msg_Params msg) = Ok params ∧
  Known (hp_Role params) = true ∧
  Negotiate (opt_Protocol opt) (hp_Protocol params) = Ok neg ∧
  (hp_Role params = RoleApp → verifyApp opt w c = Ok ()).

(** The connection an accepted hello leaves. *)
Definition hello_conn (c : Conn) (params : HelloParams) (neg : Protocol) : Conn :=
  setHandshaken (hp_Role params) neg
    (NegotiateCapabilities (opt_Capabilities opt) (hp_Capabilities params))
    (bool_decide (hp_Role params = RoleApp)) c.

Lemma handleHello_cases w c msg : helloSeen c = false →
  (∃ params neg, hello_accepted w c msg params neg ∧
     (handleHello json opt w c msg).1.1 = hello_conn c params neg) ∨
  ((∀ params neg, ¬ hello_accepted w c msg params neg) ∧
   ∃ e, handleHello json opt w c msg = (c, respondError json opt w c (msg_ID msg) e, true)).
Proof.
  intros Hc. unfold handleHello, handshaken, hello_accepted. rewrite Hc.
  destruct (DecodeParams _ _ _) as [params|e] eqn:HD; [|right; split; [intros ?? (?&?&?&?); simplify_eq; congruence|by eauto]].
  destruct (Known (hp_Role params)) eqn:HK; [|right; split; [intros ?? (?&?&?&?); simplify_eq; congruence|by eauto]]. simpl negb.
  destruct (Negotiate _ _) as [neg|e] eqn:HN; [|right; split; [intros ?? (?&?&?&?); simplify_eq; congruence|by eauto]].
  assert (∀ P : result Error () → Prop,
    (hp_Role params = RoleApp → verifyApp opt w c = Ok ()) →
    P (Ok ()) →
    P (if bool_decide (hp_Role params = RoleApp) then verifyApp opt w c else Ok ())) as Hif.
  { intros P H1 H2. case_bool_decide; [by rewrite H1|done]. }
  destruct (if bool_decide (hp_Role params = RoleApp) then verifyApp opt w c else Ok ())
    as [[]|e] eqn:HV.
  - left. exists params, neg. split; [|by destruct (respond _ _ _ _ _ _)]. split_and!; try done.
    intros Ha. by rewrite bool_decide_true in HV.
  - right. split; [|by eauto]. intros params' neg' ([= <-]&_&_&Hv).
    case_bool_decide; [|done]. by rewrite Hv in HV.
Qed.

Lemma verifyApp_ok w c : verifyApp opt w c = Ok () ↔
  peerPID w = Ok (cred_PID (cred c)) ∧ opt_VerifyAppPeer opt = true ∧
  signature w (cred_PID (cred c)) = PeerValid.
Proof.
  unfold verifyApp. destruct (peerPID w) as [pid|]; [|by split; [|intros [? _]]].
  case_decide as Hp; [split; [done|by intros [[= ->] _]]|]. subst pid.
  destruct (opt_VerifyAppPeer opt); simpl; [|by split; [|intros (_&?&_)]].
  destruct (signature w _); [done|]. by split; [|intros (_&_&?)].
Qed.

Lemma handleHello_answer w c msg : msg_ID msg ≠ "" →
  answer (msg_ID msg) (handleHello json opt w c msg).1.2.
Proof.
  intros Hid. unfold handleHello.
  destruct (handshaken c); [apply respondError_answer|].
  destruct (DecodeParams _ _ _); [|apply respondError_answer].
  destruct (negb _); [apply respondError_answer|].
  destruct (Negotiate _ _); [|apply respondError_answer].
  destruct (if bool_decide _ then _ else _); [|apply respondError_answer].
  cbv zeta. match goal with |- context [respond ?j ?o ?w ?c ?i ?r] =>
    pose proof (respond_answer w c i r Hid); by destruct (respond j o w c i r) end.
Qed.

(** ** One request *)

(** The actions of a request: the handler is called at most once, before the
    answer. *)
Lemma handleRequest_actions w c msg : msg_ID msg ≠ "" →
  ∃ acts, answer (msg_ID msg) acts ∧
  ((handleRequest json opt handlers w c msg).1.2 = acts ∨
   (handleRequest json opt handlers w c msg).1.2 = Called (msg_Method msg) (msg_Params msg) :: acts ∧
   (handleRequest json opt handlers w c msg).1.1 = c ∧
   msg_Method msg ≠ MethodHello ∧ helloSeen c = true ∧ msg_Method msg ∈ handlers ∧
   ∃ s, Authorize (msg_Method msg) (role c) = Ok s).
Proof.
  intros Hid. unfold handleRequest.
  case_decide; [by eexists; split; [apply handleHello_answer|left]|].
  destruct (handshaken c) eqn:Hh; cbn [negb];
    [|by eexists; split; [apply respondError_answer|left]].
  destruct (Authorize _ _) as [s|e]; [|by eexists; split; [apply respondError_answer|left]].
  destruct (bool_decide_reflect (msg_Method msg ∈ handlers)) as [Hin|Hin]; cbn [negb];
    [|by eexists; split; [apply respondError_answer|left]].
  destruct (handle w _ _) as [res|e].
  - pose proof (respond_answer w c _ res Hid). destruct (respond _ _ _ _ _ _) as [acts ok].
    exists acts. split; [done|]. right. split_and!; try done. by exists s.
  - eexists. split; [apply respondError_answer|]. right. split_and!; try done. by exists s.
Qed.

(** A request other than an accepted hello leaves the connection as it was. *)
Lemma handleRequest_conn w c msg :
  (handleRequest json opt handlers w c msg).1.1 = c ∨
  helloSeen c = false ∧ ∃ params neg, hello_accepted w c msg params neg ∧
    (handleRequest json opt handlers w c msg).1.1 = hello_conn c params neg.
Proof.
  unfold handleRequest. case_decide.
  - destruct (helloSeen c) eqn:Hc; [left; unfold handleHello, handshaken; by rewrite Hc|].
    destruct (handleHello_cases w c msg Hc) as [(params&neg&?&?)|(_&e&->)]; [right; eauto 10|by left].
  - left. destruct (handshaken c); [|done]. cbn [negb]. destruct (Authorize _ _); [|done].
    destruct (bool_decide _); [|done]. cbn [negb]. destruct (handle w _ _); [|done].
    by destruct (respond _ _ _ _ _ _).
Qed.

(** A request whose error responses can be sent is answered, or the connection
    is to be closed. *)
Lemma respondError_sent w c id e : sendable w c (NewErrorResponse id e) →
  ∃ m, Sent m ∈ respondError json opt w c id e.
Proof.
  unfold sendable, respondError.
  destruct (send_cases w c (NewErrorResponse id e)) as [->| ->]; [done|]. eexists. by constructor.
Qed.

Lemma respond_sent w c id res :
  (respond json opt w c id res).2 = true → ∃ m, Sent m ∈ (respond json opt w c id res).1.
Proof.
  unfold respond. destruct (NewResponse id res) as [msg|].
  - destruct (send_cases w c msg) as [->| ->]; [done|]. eexists. by constructor.
  - destruct (send_cases w c (NewErrorResponse id errInternal)) as [->| ->]; [done|].
    eexists. by constructor.
Qed.

Lemma handleRequest_answered w c msg :
  (∀ e, sendable w c (NewErrorResponse (msg_ID msg) e)) →
  (∃ m, Sent m ∈ (handleRequest json opt handlers w c msg).1.2) ∨
  (handleRequest json opt handlers w c msg).2 = true.
Proof.
  intros Hs.
  assert (He : ∀ e, ∃ m, Sent m ∈ respondError json opt w c (msg_ID msg) e)
    by (intros e; apply respondError_sent, Hs).
  unfold handleRequest. case_decide; [|destruct (handshaken c); [|by right]; cbn [negb]].
  - unfold handleHello. destruct (handshaken c); [left; apply He|].
    destruct (DecodeParams _ _ _); [|by right]. destruct (negb _); [by right|].
    destruct (Negotiate _ _); [|by right].
    destruct (if bool_decide _ then _ else _); [|by right].
    cbv zeta. match goal with |- context [respond ?j ?o ?w ?c ?i ?r] =>
      pose proof (respond_sent w c i r); destruct (respond j o w c i r) as [acts []] end;
      [left; auto|by right].
  - destruct (Authorize _ _); [|left; apply He]. destruct (bool_decide _); cbn [negb]; [|left; apply He].
    destruct (handle w _ _) as [res|e].
    + pose proof (respond_sent w c (msg_ID msg) res) as Hr.
      destruct (respond _ _ _ _ _ _) as [acts []]; [left|by right].
      destruct (Hr eq_refl) as [m Hm]. exists m. by constructor.
    + left. destruct (He e) as [m Hm]. exists m. by constructor.
Qed.
End lemmas.
