(* ===== verification/HostConn.v ===== *)
(** * Invariants of a Host IPC connection

    What every run of a connection's events keeps: the identity agreed at the
    handshake, the evidence behind the [app] role, and the table of the
    daemon's pending requests. *)

From Stdlib Require Import Strings.Byte.
From stdpp Require Import pretty.
From S2P Require Import Prelude HostFrame HostMethods HostMessage HostServer.
Open Scope Z_scope.

Section conn.
Context (json : encoding_json) (opt : ServerOptions) (handlers : gset string).

Lemma conn_run_snoc c evs ev :
  conn_run json opt handlers c (evs ++ [ev]) =
  let '(c1, acts1) := conn_run json opt handlers c evs in
  let '(c2, acts2) := conn_step json opt handlers c1 ev in (c2, acts1 ++ acts2).
Proof.
  revert c. induction evs as [|e evs IH]; intros c; simpl.
  - destruct (conn_step _ _ _ c ev). by rewrite app_nil_r.
  - destruct (conn_step _ _ _ c e) as [c1 a1]. rewrite IH.
    destruct (conn_run _ _ _ c1 evs) as [c2 a2]. destruct (conn_step _ _ _ c2 ev) as [c3 a3].
    by rewrite app_assoc.
Qed.

(** ** Identity *)

(** Equal but for [closed] and the pending requests. *)
Definition same_identity (c c' : Conn) : Prop :=
  cred c' = cred c ∧ role c' = role c ∧ negotiated c' = negotiated c ∧
  capabilities c' = capabilities c ∧ helloSeen c' = helloSeen c ∧
  signatureVerified c' = signatureVerified c.

#[local] Instance same_identity_refl : Reflexive same_identity.
Proof. by intros c. Qed.
#[local] Instance same_identity_trans : Transitive same_identity.
Proof. unfold same_identity. intros c1 c2 c3 (?&?&?&?&?&?) (?&?&?&?&?&?). split_and!; congruence. Qed.

Lemma deliverResponse_identity msg c : same_identity c (deliverResponse msg c).
Proof. unfold deliverResponse. by destruct (pending c !! _) as [[]|]. Qed.

(** A frame leaves the identity alone, unless it carries an accepted hello. *)
Lemma serve_frame_identity w c frame :
  let c' := (serve_frame json opt handlers w c frame).1.1 in
  same_identity c c' ∨
  helloSeen c = false ∧ ∃ msg params neg, hello_accepted json opt w c msg params neg ∧
    same_identity (hello_conn opt c params neg) c'.
Proof.
  unfold serve_frame. destruct frame as [[[[] payload] data]|[]]; try by left.
  destruct (DecodeMessage _ _) as [msg|]; [|by left].
  destruct (Kind msg); try (by left); [|left; apply deliverResponse_identity].
  destruct (handleRequest_conn json opt handlers w c msg) as [->|(?&params&neg&?&->)]; [by left|].
  right. split; [done|]. by exists msg, params, neg.
Qed.

Lemma conn_step_identity c ev :
  let c' := (conn_step json opt handlers c ev).1 in
  same_identity c c' ∨
  helloSeen c = false ∧ ∃ w frame msg params neg, ev = EvFrame w frame ∧
    hello_accepted json opt w c msg params neg ∧
    same_identity (hello_conn opt c params neg) c'.
Proof.
  destruct ev as [w frame| |w id method params|id wake|w method params|]; simpl.
  - destruct (closed c); [by left|].
    pose proof (serve_frame_identity w c frame) as H.
    destruct (serve_frame _ _ _ w c frame) as [[c' acts] stop]. simpl in *.
    assert (same_identity c' (if stop then Close c' else c')) by (by destruct stop).
    destruct H as [H|(?&msg&params&neg&?&?)]; [left; by etrans|].
    right. split; [done|]. exists w, frame, msg, params, neg. split_and!; [done..|]. by etrans.
  - by left.
  - left. unfold Request_send. destruct (NewRequest _ _ _); [|done].
    by destruct (send _ _ _ _ _) as [? []].
  - left. unfold Request_finish. destruct wake; [done..|].
    by destruct (pending c !! id) as [[]|].
  - by left.
  - by left.
Qed.

(** The live peer of the accepted socket had a valid signature when one of the
    events was handled. *)
Definition app_evidence (cr : PeerCred) (evs : list conn_event) : Prop :=
  opt_VerifyAppPeer opt = true ∧
  ∃ w frame, EvFrame w frame ∈ evs ∧ peerPID w = Ok (cred_PID cr) ∧
    signature w (cred_PID cr) = PeerValid.

(** The identity of a connection opened with [cr], after the events [evs]. *)
Record identity_ok (cr : PeerCred) (evs : list conn_event) (c : Conn) : Prop := {
  id_cred : cred c = cr;
  id_before : helloSeen c = false → role c = "" ∧ signatureVerified c = false;
  id_known : helloSeen c = true → Known (role c) = true;
  id_verified : signatureVerified c = bool_decide (role c = RoleApp);
  id_app : role c = RoleApp → app_evidence cr evs
}.

Lemma identity_ok_mono cr evs evs' c c' : identity_ok cr evs c → same_identity c c' →
  evs ⊆ evs' → identity_ok cr evs' c'.
Proof.
  intros [H1 H2 H3 H4 H5] (E1&E2&_&_&E5&E6) Hsub.
  split; rewrite ?E1, ?E2, ?E5, ?E6; try done.
  intros Ha. destruct (H5 Ha) as (?&w&frame&?&?). split; [done|].
  exists w, frame. split; [by apply Hsub|done].
Qed.

Lemma identity_ok_step cr evs c ev : identity_ok cr evs c →
  identity_ok cr (evs ++ [ev]) (conn_step json opt handlers c ev).1.
Proof.
  intros Hok. destruct (conn_step_identity c ev) as [H|(Hs&w&frame&msg&params&neg&->&Ha&H)].
  { eapply identity_ok_mono; [done..|]. set_solver. }
  eapply (identity_ok_mono _ (evs ++ [EvFrame w frame])); [|done|done].
  destruct Ha as (_&HK&_&Hv). destruct Hok as [H1 _ _ _ _]. split; simpl; try done.
  intros Happ. specialize (Hv Happ) as (Hp&Ho&Hsig)%verifyApp_ok. rewrite H1 in Hp, Hsig.
  split; [done|]. exists w, frame. split; [set_solver|done].
Qed.

Lemma identity_ok_run cr evs : identity_ok cr evs (conn_run json opt handlers (newConn cr) evs).1.
Proof.
  induction evs as [|ev evs IH] using rev_ind; [by split|].
  rewrite conn_run_snoc. pose proof (identity_ok_step _ _ _ ev IH).
  destruct (conn_run _ _ _ _ evs) as [c acts]. simpl in *.
  by destruct (conn_step _ _ _ c ev).
Qed.

(** ** Calls *)

Lemma send_not_called w c msg m p : Called m p ∉ (send json opt w c msg).1.
Proof. destruct (send_cases json opt w c msg) as [->| ->]; set_solver. Qed.

Lemma respondError_not_called w c id e m p : Called m p ∉ respondError json opt w c id e.
Proof. apply send_not_called. Qed.

Lemma not_called_nil (P : Prop) m p : Called m p ∈ [] → P.
Proof. by intros ?%not_elem_of_nil. Qed.

(** A handler only runs for an authorised request on an open, handshaken
    connection. *)
Lemma conn_step_called c ev m p : Called m p ∈ (conn_step json opt handlers c ev).2 →
  closed c = false ∧ helloSeen c = true ∧ m ∈ handlers ∧ m ≠ MethodHello ∧
  ∃ s, Authorize m (role c) = Ok s.
Proof.
  destruct ev as [w frame| |w id method params|id wake|w method params|]; simpl; try (apply not_called_nil).
  - destruct (closed c); [apply not_called_nil|].
    unfold serve_frame. destruct frame as [[[[] payload] data]|[]]; try (apply not_called_nil).
    2: { intros H. by apply respondError_not_called in H. }
    2: { intros H. by apply respondError_not_called in H. }
    destruct (DecodeMessage _ _) as [msg|].
    2: { intros H. by apply respondError_not_called in H. }
    destruct (Kind msg) eqn:HK; simpl; try (apply not_called_nil).
    { intros H. by apply respondError_not_called in H. }
    apply Kind_request in HK as [_ Hid].
    destruct (handleRequest_actions json opt handlers w c msg Hid) as (acts & Hans & Hcase).
    destruct (handleRequest _ _ _ w c msg) as [[c' acts'] stop]. simpl in *. intros Hin.
    destruct Hcase as [->|(->&_&?&?&?&?)]; [by apply (answer_not_called _ _ m p Hans) in Hin|].
    apply elem_of_cons in Hin as [[= -> ->]|Hin]; [done|].
    by apply (answer_not_called _ _ m p Hans) in Hin.
  - unfold Request_send. destruct (NewRequest _ _ _) as [msg|]; [|apply not_called_nil].
    pose proof (send_not_called w c msg m p).
    destruct (send _ _ _ _ _) as [? []]; simpl in *; done.
  - destruct (Request_finish _ _ _) as [[]|]; apply not_called_nil.
  - unfold Notify. destruct (NewNotification _ _) as [msg|]; [|apply not_called_nil].
    intros H. by apply send_not_called in H.
Qed.

(** A closed connection stays closed and does nothing. *)
Lemma conn_step_closed c ev : closed c = true →
  closed (conn_step json opt handlers c ev).1 = true ∧ (conn_step json opt handlers c ev).2 = [].
Proof.
  intros Hc. destruct ev as [w frame| |w id method params|id wake|w method params|]; simpl; try done.
  - by rewrite Hc.
  - unfold Request_send. destruct (NewRequest _ _ _); [|done]. by rewrite send_closed.
  - unfold Request_finish. destruct wake; [done..|]. by destruct (pending c !! id) as [[]|].
  - unfold Notify. destruct (NewNotification _ _); [|done]. by rewrite send_closed.
Qed.

Lemma conn_run_closed c evs : closed c = true →
  closed (conn_run json opt handlers c evs).1 = true ∧ (conn_run json opt handlers c evs).2 = [].
Proof.
  revert c. induction evs as [|ev evs IH]; intros c Hc; [done|]. simpl.
  destruct (conn_step_closed c ev Hc) as [Hc' Ha].
  destruct (conn_step _ _ _ c ev) as [c' acts]. simpl in *. subst acts.
  destruct (IH c' Hc') as [? Ha']. destruct (conn_run _ _ _ c' evs). simpl in *. by subst.
Qed.

Lemma conn_run_identity c evs : helloSeen c = true →
  same_identity c (conn_run json opt handlers c evs).1.
Proof.
  revert c. induction evs as [|ev evs IH]; intros c Hc; [done|]. simpl.
  destruct (conn_step_identity c ev) as [H|[? _]]; [|congruence].
  destruct (conn_step _ _ _ c ev) as [c' acts]. simpl in *.
  pose proof (IH c' ltac:(destruct H as (_&_&_&_&->&_); done)) as H'.
  destruct (conn_run _ _ _ c' evs). simpl in *. by etrans.
Qed.

(** ** Pending requests *)

Lemma string_app_inj_r (s s' q : string) : s +:+ q = s' +:+ q → s = s'.
Proof.
  intros H. apply (f_equal String.list_ascii_of_string) in H.
  assert (∀ a b, String.list_ascii_of_string (a +:+ b) =
    String.list_ascii_of_string a ++ String.list_ascii_of_string b) as Happ.
  { intros a b. induction a as [|c a IH]; simpl; [done|]. by rewrite <-IH. }
  rewrite !Happ in H. apply app_inv_tail in H.
  rewrite <-(String.string_of_list_ascii_of_string s), H.
  apply String.string_of_list_ascii_of_string.
Qed.

Lemma quoted_inj s s' : quoted s = quoted s' → s = s'.
Proof. unfold quoted, quote. intros H. injection H as H. by eapply string_app_inj_r. Qed.

Lemma request_id_inj n n' : request_id n = request_id n' → n = n'.
Proof.
  unfold request_id. intros H%quoted_inj. simpl in H. injection H as H. by apply (inj pretty).
Qed.

(** The number of requests a run opens. *)
Definition is_open (ev : conn_event) : bool := match ev with EvRequestOpen => true | _ => false end.
Definition opens (evs : list conn_event) : nat := length (filter (λ ev, is_open ev = true) evs).

(** The peer sent [m] in one of the frames. *)
Definition received (m : Message) (evs : list conn_event) : Prop :=
  ∃ w payload data, EvFrame w (Ok (FrameJSON, payload, data)) ∈ evs ∧
    DecodeMessage json payload = Ok m ∧ Kind m = KindResponse.

(** The pending requests after the events [evs]: [pendSeq] counts the requests
    opened, every pending id comes from an earlier count, and a channel only
    ever holds a response of the peer to its own request. *)
Record pending_ok (evs : list conn_event) (c : Conn) : Prop := {
  po_seq : pendSeq c = Z.of_nat (opens evs);
  po_ids : ∀ id om, pending c !! id = Some om → ∃ k, 1 ≤ k ≤ pendSeq c ∧ id = request_id k;
  po_msgs : ∀ id m, pending c !! id = Some (Some m) → msg_ID m = id ∧ received m evs
}.

Lemma received_mono m evs evs' : evs ⊆ evs' → received m evs → received m evs'.
Proof. intros Hs (w&payload&data&?&?). exists w, payload, data. split; [by apply Hs|done]. Qed.

Lemma opens_snoc evs ev : opens (evs ++ [ev]) = (opens evs + if is_open ev then 1 else 0)%nat.
Proof.
  unfold opens. rewrite filter_app, length_app. f_equal.
  destruct (is_open ev) eqn:H; [by rewrite filter_cons_True|by rewrite filter_cons_False by congruence].
Qed.

(** Steps that keep the count and the channels that are left. *)
Lemma pending_ok_sub evs evs' c c' : pending_ok evs c → evs ⊆ evs' → opens evs' = opens evs →
  pendSeq c' = pendSeq c → pending c' ⊆ pending c → pending_ok evs' c'.
Proof.
  intros [H1 H2 H3] Hsub Ho Hs Hp. split.
  - by rewrite Hs, H1, Ho.
  - intros id om Hid. rewrite Hs. eapply H2, lookup_weaken; done.
  - intros id m Hid. destruct (H3 id m) as [? Hr]; [by eapply lookup_weaken|].
    split; [done|by eapply received_mono].
Qed.

Lemma drop_pending_sub id c : pending (drop_pending id c) ⊆ pending c.
Proof. apply delete_subseteq. Qed.

Lemma hello_conn_pending w c msg :
  pendSeq (handleRequest json opt handlers w c msg).1.1 = pendSeq c ∧
  pending (handleRequest json opt handlers w c msg).1.1 = pending c.
Proof.
  by destruct (handleRequest_conn json opt handlers w c msg) as [->|(_&params&neg&_&->)].
Qed.

(** A response fills the empty channel of its own request, or nothing. *)
Lemma deliverResponse_cases msg c :
  deliverResponse msg c = c ∨
  pending c !! msg_ID msg = Some None ∧
  deliverResponse msg c = set_pending (pendSeq c) (<[msg_ID msg := Some msg]> (pending c)) c.
Proof. unfold deliverResponse. destruct (pending c !! msg_ID msg) as [[]|]; auto. Qed.

Lemma pending_ok_deliver evs w payload data msg c :
  DecodeMessage json payload = Ok msg → Kind msg = KindResponse → pending_ok evs c →
  pending_ok (evs ++ [EvFrame w (Ok (FrameJSON, payload, data))]) (deliverResponse msg c).
Proof.
  intros HD HK Hok. set (evs' := evs ++ _).
  assert (Hsub : evs ⊆ evs') by set_solver.
  assert (Ho : opens evs' = opens evs) by (unfold evs'; rewrite opens_snoc; simpl; lia).
  destruct (deliverResponse_cases msg c) as [->|[Hnone ->]]; [by eapply pending_ok_sub|].
  destruct Hok as [H1 H2 H3]. split; simpl.
  - by rewrite Ho.
  - intros id om [[<- <-]|[Hne Hid]]%lookup_insert_Some; [by eapply H2|by eapply H2].
  - intros id m [[<- [= <-]]|[Hne Hid]]%lookup_insert_Some.
    + split; [done|]. exists w, payload, data. split; [set_solver|done].
    + destruct (H3 id m Hid). split; [done|by eapply received_mono].
Qed.

Lemma pending_ok_open evs c : pending_ok evs c → Z.of_nat (opens evs) < 2 ^ 64 - 1 →
  pending_ok (evs ++ [EvRequestOpen]) (Request_open c).1.
Proof.
  intros [H1 H2 H3] Hlt. unfold Request_open; cbn [fst]. rewrite Z.mod_small by lia.
  split; cbn [pendSeq pending set_pending].
  - rewrite opens_snoc; simpl. lia.
  - intros id om [[<- <-]|[Hne Hid]]%lookup_insert_Some.
    + exists (pendSeq c + 1). split; [lia|done].
    + destruct (H2 id om Hid) as (k&?&?). exists k. split; [lia|done].
  - intros id m [[<- ?]|[Hne Hid]]%lookup_insert_Some; [done|].
    destruct (H3 id m Hid). split; [done|]. eapply received_mono; [|done]. set_solver.
Qed.

Lemma pending_ok_step evs c ev : pending_ok evs c → Z.of_nat (opens (evs ++ [ev])) < 2 ^ 64 →
  pending_ok (evs ++ [ev]) (conn_step json opt handlers c ev).1.
Proof.
  intros Hok Hlt.
  assert (Hsub : ∀ c', is_open ev = false → pendSeq c' = pendSeq c → pending c' ⊆ pending c →
    pending_ok (evs ++ [ev]) c').
  { intros c' Ho Hs Hp. eapply pending_ok_sub; [done| |by rewrite opens_snoc, Ho; lia|done|done].
    set_solver. }
  destruct ev as [w frame| |w id method params|id wake|w method params|]; simpl.
  - destruct (closed c); [by apply Hsub|].
    unfold serve_frame. destruct frame as [[[[] payload] data]|[]]; try by apply Hsub.
    destruct (DecodeMessage json payload) as [msg|] eqn:HD; [|by apply Hsub].
    destruct (Kind msg) eqn:HK; [by apply Hsub| |by apply Hsub|by apply pending_ok_deliver].
    destruct (hello_conn_pending w c msg) as [Hs Hp].
    destruct (handleRequest _ _ _ w c msg) as [[c' acts] stop]. simpl in *.
    destruct stop; apply Hsub; simpl; try done; by rewrite Hp.
  - apply pending_ok_open; [done|]. rewrite opens_snoc in Hlt. simpl in Hlt. lia.
  - unfold Request_send. destruct (NewRequest _ _ _); [|apply Hsub; [done..|apply drop_pending_sub]].
    destruct (send _ _ _ _ _) as [? []]; apply Hsub; try done. apply drop_pending_sub.
  - unfold Request_finish. destruct wake; [apply Hsub; [done..|apply drop_pending_sub]..|].
    destruct (pending c !! id) as [[]|]; apply Hsub; try done. apply drop_pending_sub.
  - by apply Hsub.
  - by apply Hsub.
Qed.

Lemma pending_ok_run cr evs : Z.of_nat (opens evs) < 2 ^ 64 →
  pending_ok evs (conn_run json opt handlers (newConn cr) evs).1.
Proof.
  induction evs as [|ev evs IH] using rev_ind.
  { intros _. split; simpl; [done|..]; intros id ?; by rewrite lookup_empty. }
  intros Hlt. rewrite conn_run_snoc. pose proof (pending_ok_step evs) as Hstep.
  assert (Z.of_nat (opens evs) < 2 ^ 64) as Hlt' by (rewrite opens_snoc in Hlt; lia).
  specialize (IH Hlt'). destruct (conn_run _ _ _ _ evs) as [c acts]. simpl in *.
  specialize (Hstep c ev IH Hlt). by destruct (conn_step _ _ _ c ev).
Qed.
End conn.
