(* ===== verification/HostSpec.v ===== *)
(** * What the Host IPC layer guarantees

    The properties of the framing, the role matrix, the handshake, the
    dispatch of requests and the daemon's own requests, each with a concrete
    instance where it has hypotheses. *)

From Stdlib Require Import Strings.Byte.
From stdpp Require Import pretty.
From S2P Require Import Prelude HostFrame HostMethods HostMessage HostServer HostConn.
Open Scope Z_scope.

(** ** Framing *)

(** C30. Any sequence of JSON messages and attachments that was written, followed
    by a frame that was cut short, is read back message by message, in order
    and with attachments split into the same meta block and data; the read loop
    then ends with a clean end of file exactly when the cut fell on the frame
    boundary, and with an unexpected end of file otherwise. *)
Theorem host_stream_roundtrip lim ms bss cut m' bs' :
  limits_ok lim → Forall message_ok ms →
  Forall2 (λ m bs, write_message m lim = Ok bs) ms bss →
  write_message m' lim = Ok bs' → cut `prefix_of` bs' → cut ≠ bs' →
  read_frames (S (length ms)) {| rd_bytes := concat bss ++ cut; rd_error := None |} lim =
  (message_frame <$> ms, Some (if decide (cut = []) then REOF else RUnexpectedEOF)).
Proof.
  intros Hlim Hok Hw Hw' Hpre Hne. induction Hw as [|m bs ms bss Hm Hw IH]; simpl.
  - destruct (message_frame_written _ _ _ Hw') as (kind&payload&Hf).
    by rewrite (ReadFrame_cut _ _ _ _ _ Hlim Hf Hpre Hne).
  - apply Forall_cons in Hok as [Hm' Hok]. rewrite <-app_assoc.
    rewrite (ReadFrame_message _ _ _ _ _ Hlim Hm' Hm).
    change (length ms) with (length ms). specialize (IH Hok). simpl in IH. by rewrite IH.
Qed.

Lemma host_stream_roundtrip_witness :
  read_frames 3 {| rd_bytes := [x00;x00;x00;x02;x7b;x7d] ++ [x80;x00;x00;x07;x00;x00;x00;x02;x7b;x7d;x2a]
                     ++ [x00;x00]; rd_error := None |} {| MaxJSON := 0; MaxAttachment := 0 |} =
  ([(FrameJSON, [x7b;x7d], []); (FrameAttachment, [x7b;x7d], [x2a])], Some RUnexpectedEOF).
Proof.
  apply (host_stream_roundtrip {| MaxJSON := 0; MaxAttachment := 0 |}
    [JSONMessage [x7b;x7d]; AttachmentMessage [x7b;x7d] [x2a]]
    [[x00;x00;x00;x02;x7b;x7d]; [x80;x00;x00;x07;x00;x00;x00;x02;x7b;x7d;x2a]] [x00;x00]
    (JSONMessage [x7b;x7d]) [x00;x00;x00;x02;x7b;x7d]).
  - by split.
  - by repeat constructor.
  - repeat constructor; by vm_compute.
  - by vm_compute.
  - by exists [x00;x02;x7b;x7d].
  - done.
Defined.

(** On arbitrary input, [ReadFrame] returns a frame only within the limits: it
    takes the four header bytes and a non-empty body no longer than the limit
    of the frame's kind off the stream, and returns the body, for an attachment
    split at a meta length that lies inside it. It reports a clean end of file
    exactly when the stream ended before the first byte. *)
Theorem ReadFrame_bounded r lim :
  (∀ k p d r', ReadFrame r lim = (Ok (k, p, d), r') →
    ∃ header body, rd_bytes r = header ++ body ++ rd_bytes r' ∧ length header = 4%nat ∧
      0 < Z.of_nat (length body) ≤ frame_max (WithDefaults lim) k ∧
      match k with
      | FrameJSON => body = p ∧ d = []
      | FrameAttachment => ∃ h, body = h ++ p ++ d ∧ length h = 4%nat ∧
          Uint32 h = Z.of_nat (length p) ∧ p ≠ []
      end) ∧
  ((ReadFrame r lim).1 = Err REOF ↔ rd_bytes r = [] ∧ rd_error r = None).
Proof.
  unfold ReadFrame. destruct (ReadFull 4 r) as [[header|e] r1] eqn:Hh.
  - apply ReadFull_ok in Hh as (Hl & Hb & He). set (raw := Uint32 header). cbv zeta.
    set (kind := if decide (Z.land raw attachmentFlag ≠ 0) then FrameAttachment else FrameJSON).
    assert (rd_bytes r ≠ []) as Hne by (intros E; rewrite E in Hb; by destruct header).
    destruct (decide (Z.ldiff raw attachmentFlag ≤ 0)); [by split; [|split; [|intros []]]|].
    destruct (decide (_ > _)); [by split; [|split; [|intros []]]|].
    destruct (ReadFull _ r1) as [[buf|e] r2] eqn:Hbody.
    + apply ReadFull_ok in Hbody as (Hl2 & Hb2 & He2). split.
      * intros k p d r' [= Hs <-]. destruct (split_payload_ok _ _ _ _ _ Hs) as [-> Hk].
        exists header, buf. rewrite Hb, Hb2. split_and!; [done|done|lia|lia|].
        destruct kind; [by destruct Hk|done].
      * split; [|by intros []]. unfold split_payload. cbn [fst].
        destruct kind; [done|]. destruct (decide _); [done|]. by destruct (_ || _).
    + split; [by destruct e|]. split; [by destruct e|by intros []].
  - split; [done|]. unfold ReadFull in Hh. destruct (decide _) as [|Hs]; [done|].
    injection Hh as <- <-. cbn [fst]. destruct (rd_error r); [by split; [|intros []]|].
    case_decide; [done|]. by split; [|intros []].
Qed.

(** ** The role matrix *)

(** [Authorize] lets a request through exactly for the service matrix of the
    protocol: hello, health and the native host smoke for the three roles, the
    debug probe for app and diagnostics, the runtime, restart and decision
    methods for the app alone. Nothing the daemon issues itself ([computer.*],
    approval presentation, notifications) is served to anyone. A refusal is
    "unsupported" when the daemon does not serve the method, whatever the role,
    and "role forbidden" otherwise. *)
Theorem Authorize_matrix method role :
  (is_ok (Authorize method role) = true ↔
    (method ∈ [MethodHello; MethodHealth; MethodNativeHostSmoke] ∧ Known role = true) ∨
    (method = MethodPhase0Probe ∧ (role = RoleApp ∨ role = RoleDiagnostics)) ∨
    (method ∈ [MethodPrepareRestart; MethodRuntimeHealth; MethodRuntimeEvents;
               MethodRuntimeCommand; MethodApprovalDecision] ∧ role = RoleApp)) ∧
  (∀ e, Authorize method role = Err e →
    e = if ServableByDaemon method then errRoleForbidden else errUnsupported).
Proof.
  split.
  - assert (is_ok (Authorize method role) = true ↔ ∃ s, Authorize method role = Ok s) as ->
      by (destruct (Authorize method role); split; naive_solver).
    setoid_rewrite Authorize_ok. unfold Known. rewrite one_of_spec. unfold methodTable.
    split.
    + intros (s & Hin & <- & Hd & Hr).
      repeat (apply elem_of_cons in Hin as [->|Hin]; [|try done]); try done.
      all: simpl in *; set_solver.
    + intros [[Hm Hr]|[[-> Hr]|[Hm ->]]].
      * assert (∃ b, spec method AppToDaemon [RoleApp; RoleDiagnostics; RoleHarness] b ∈ methodTable) as [b Hb].
        { exists true. unfold methodTable.
          repeat (apply elem_of_cons in Hm as [->|Hm]; [repeat constructor|]). by apply elem_of_nil in Hm. }
        by exists (spec method AppToDaemon [RoleApp; RoleDiagnostics; RoleHarness] b).
      * exists (spec MethodPhase0Probe AppToDaemon [RoleApp; RoleDiagnostics] false).
        split_and!; [repeat constructor|done|done|]. simpl. set_solver.
      * exists (spec method AppToDaemon [RoleApp] false). split_and!; [|done|done|simpl; set_solver].
        repeat (apply elem_of_cons in Hm as [->|Hm]; [repeat constructor|]). by apply elem_of_nil in Hm.
  - intros e. unfold Authorize, ServableByDaemon, LookupMethod.
    destruct (methodIndex !! method) as [s|]; [|by intros [= <-]].
    destruct (decide (ms_Direction s ≠ AppToDaemon)) as [Hd|Hd].
    { intros [= <-]. by rewrite bool_decide_false. }
    apply dec_stable in Hd. rewrite bool_decide_true by done.
    destruct (RoleAllowed s role); simpl; [done|]. by intros [= <-].
Qed.

(** ** The handshake *)

(** The version rule accepts exactly the daemon's major with its minor or
    the one before it, and agrees on the client's version; the capabilities
    granted are the client's requests that the daemon offers, in the order of
    the request and without repetition. *)
Theorem negotiation_spec daemon client offered wanted :
  (∀ p, Negotiate daemon client = Ok p ↔
    p = client ∧ Major client = Major daemon ∧
    (Minor client = Minor daemon ∨ 0 < Minor daemon ∧ Minor client = Minor daemon - 1)) ∧
  (∀ e, Negotiate daemon client = Err e →
    e = if decide (Major client = Major daemon) then errProtocolMinor else errProtocolMajor) ∧
  (let granted := NegotiateCapabilities offered wanted in
   NoDup granted ∧ granted `sublist_of` wanted ∧
   ∀ c, c ∈ granted ↔ c ∈ offered ∧ c ∈ wanted).
Proof.
  split_and!.
  - intros p. unfold Negotiate. destruct (decide (Major client ≠ Major daemon)) as [H|H].
    { split; [done|]. by intros (_&?&_). }
    apply dec_stable in H. rewrite find_minor_spec. unfold SupportedClientMinors.
    destruct client as [cM cm]; simpl in *. subst cM.
    assert (cm ∈ Minor daemon :: (if decide (Minor daemon > 0) then [Minor daemon - 1] else []) ↔
      cm = Minor daemon ∨ 0 < Minor daemon ∧ cm = Minor daemon - 1) as ->
      by (case_decide; set_unfold; intuition lia).
    naive_solver.
  - intros e. unfold Negotiate. destruct (decide (Major client ≠ Major daemon)) as [H|H].
    { intros [= <-]. by rewrite decide_False by done. }
    apply dec_stable in H. rewrite decide_True by done.
    generalize (SupportedClientMinors (Minor daemon)) as l. induction l as [|m l IH]; simpl.
    + by intros [= <-].
    + case_decide; [done|]. apply IH.
  - pose proof (grant_capabilities (list_to_set offered) wanted [] ∅) as H.
    unfold NegotiateCapabilities. destruct (foldl _ _ _) as [out seen]. simpl.
    destruct H as (_ & Hnd & Hm & l & -> & Hsub); [set_solver|constructor|].
    split_and!; [done|done|]. intros c. rewrite Hm. set_solver.
Qed.

Lemma negotiation_spec_witness :
  Negotiate {| Major := 1; Minor := 2 |} {| Major := 1; Minor := 1 |} = Ok {| Major := 1; Minor := 1 |} ∧
  NegotiateCapabilities [CapHost; CapNotify; CapRuntime] [CapRuntime; CapComputer; CapHost; CapRuntime]
    = [CapRuntime; CapHost].
Proof.
  split; [|by vm_compute].
  apply (negotiation_spec {| Major := 1; Minor := 2 |} {| Major := 1; Minor := 1 |} [] []).
  split; [done|]. simpl. lia.
Defined.

Section server.
Context (json : encoding_json) (opt : ServerOptions) (handlers : gset string).

(** The handshake fails closed. On a connection without one, [host.hello]
    either satisfies every check (it decodes, names a defined role, negotiates a
    version and, for the app role, comes from the process that opened the
    socket, validated by the configured verifier) and leaves exactly the agreed
    role, version, granted capabilities and verification on the connection; or
    it fails one, and then the connection is unchanged and is closed after the
    error. On a connection that had one, hello is refused and changes nothing. *)
Theorem handleHello_spec w c msg :
  (helloSeen c = false →
    (∃ params neg, hello_accepted json opt w c msg params neg ∧
      (hp_Role params = RoleApp →
        peerPID w = Ok (cred_PID (cred c)) ∧ opt_VerifyAppPeer opt = true ∧
        signature w (cred_PID (cred c)) = PeerValid) ∧
      (handleHello json opt w c msg).1.1 = hello_conn opt c params neg) ∨
    (∀ params neg, ¬ hello_accepted json opt w c msg params neg) ∧
     ∃ e, handleHello json opt w c msg = (c, respondError json opt w c (msg_ID msg) e, true)) ∧
  (helloSeen c = true →
    handleHello json opt w c msg = (c, respondError json opt w c (msg_ID msg) errInvalidRequest, false)).
Proof.
  split; intros Hc.
  - destruct (handleHello_cases json opt w c msg Hc) as [(params&neg&Ha&?)|?]; [left|by right].
    exists params, neg. split_and!; [done| |done]. intros Happ.
    destruct Ha as (_&_&_&Hv). by apply verifyApp_ok, Hv.
  - unfold handleHello, handshaken. by rewrite Hc.
Qed.

(** C4. Whatever events a connection goes through, a handler runs only on a
    connection that is open and handshaken, for a registered method the role
    matrix allows; and if the role is app, then a verifier is configured and the
    process that opened the socket was the live peer with a valid signature when
    an earlier frame was handled. *)
Theorem handler_calls_authorised cr evs ev m p :
  let c := (conn_run json opt handlers (newConn cr) evs).1 in
  Called m p ∈ (conn_step json opt handlers c ev).2 →
  closed c = false ∧ m ∈ handlers ∧ m ≠ MethodHello ∧ Known (role c) = true ∧
  is_ok (Authorize m (role c)) = true ∧
  (role c = RoleApp → opt_VerifyAppPeer opt = true ∧
    ∃ w frame, EvFrame w frame ∈ evs ∧ peerPID w = Ok (cred_PID cr) ∧
      signature w (cred_PID cr) = PeerValid).
Proof.
  intros c Hin. destruct (conn_step_called json opt handlers c ev m p Hin) as (?&Hs&?&?&s&Ha).
  destruct (identity_ok_run json opt handlers cr evs) as [_ _ Hk _ Happ]. fold c in Hk, Happ.
  split_and!; [done..|by apply Hk|by rewrite Ha|done].
Qed.

(** The identity agreed at the handshake is final: no later event changes
    the role, version, capabilities or verification of a handshaken connection;
    a closed connection answers nothing and runs nothing, ever. *)
Theorem handshake_final c evs :
  let c' := (conn_run json opt handlers c evs).1 in
  (helloSeen c = true →
    role c' = role c ∧ negotiated c' = negotiated c ∧ capabilities c' = capabilities c ∧
    signatureVerified c' = signatureVerified c ∧ helloSeen c' = true) ∧
  (closed c = true → closed c' = true ∧ (conn_run json opt handlers c evs).2 = []).
Proof.
  split; intros Hc.
  - destruct (conn_run_identity json opt handlers c evs Hc) as (_&->&->&->&->&->). by rewrite Hc.
  - by apply conn_run_closed.
Qed.

(** A request frame is answered at most once, by a response that carries the
    request's own id, after at most one call of the handler; and when an error
    response to that id can be sent, the request is not left hanging: it is
    answered or the connection is closed. *)
Theorem one_answer_per_request w c payload data msg :
  closed c = false → DecodeMessage json payload = Ok msg → Kind msg = KindRequest →
  let '(c', acts) := conn_step json opt handlers c (EvFrame w (Ok (FrameJSON, payload, data))) in
  ∃ calls answers, acts = calls ++ answers ∧
    (calls = [] ∨ calls = [Called (msg_Method msg) (msg_Params msg)]) ∧
    (answers = [] ∨ ∃ m, answers = [Sent m] ∧ Kind m = KindResponse ∧ msg_ID m = msg_ID msg) ∧
    ((∀ e, sendable json opt w c (NewErrorResponse (msg_ID msg) e)) →
     answers ≠ [] ∨ closed c' = true).
Proof.
  intros Hc HD HK. simpl. rewrite Hc, HD, HK. pose proof HK as [_ Hid]%Kind_request.
  destruct (handleRequest_actions json opt handlers w c msg Hid) as (acts & Hans & Hcase).
  pose proof (handleRequest_answered json opt handlers w c msg) as Hne.
  destruct (handleRequest _ _ _ w c msg) as [[c' acts'] stop]. simpl in *.
  assert (answers_ok : acts = [] ∨
    ∃ m, acts = [Sent m] ∧ Kind m = KindResponse ∧ msg_ID m = msg_ID msg).
  { destruct Hans as [->|(m&->&?&[?|[? _]])]; [by left| |done]. right. by exists m. }
  assert (answered : ∀ calls, (∀ m, Sent m ∈ acts' → Sent m ∈ acts) → acts' = calls ++ acts →
    (∀ e, sendable json opt w c (NewErrorResponse (msg_ID msg) e)) →
    acts ≠ [] ∨ closed (if stop then Close c' else c') = true).
  { intros calls Hin _ Hsend. destruct (Hne Hsend) as [[m Hm]| ->]; [left|by right].
    intros ->. by apply Hin, elem_of_nil in Hm. }
  destruct Hcase as [->|(->&_)].
  - exists [], acts. split_and!; [done|by left|done|]. by apply (answered []).
  - exists [Called (msg_Method msg) (msg_Params msg)], acts.
    split_and!; [done|by right|done|]. apply (answered [Called (msg_Method msg) (msg_Params msg)]); [|done].
    intros m Hm. by apply elem_of_cons in Hm as [|].
Qed.

(** In a run with fewer than [2^64] requests of the daemon, a new request
    takes an id that no pending request has, and the outcome of a request that
    wakes on a response is that of a message the peer sent, carrying that very
    id; the id is free again afterwards. *)
Theorem daemon_requests_matched cr evs :
  Z.of_nat (opens evs) < 2 ^ 64 - 1 →
  let c := (conn_run json opt handlers (newConn cr) evs).1 in
  (let '(c', id) := Request_open c in
   pending c !! id = None ∧ pending c' = <[id := None]> (pending c)) ∧
  (∀ id c' outcome, Request_finish c id WakeResponse = Some (c', outcome) →
    pending c' !! id = None ∧
    ∃ m, msg_ID m = id ∧ received json m evs ∧
      outcome = match msg_Error m with Some e => Err e | None => Ok (msg_Result m) end).
Proof.
  intros Hlt c. destruct (pending_ok_run json opt handlers cr evs) as [Hs Hids Hms]; [lia|].
  fold c in Hs, Hids, Hms. split.
  - unfold Request_open. rewrite Z.mod_small by lia. split; [|done].
    destruct (pending c !! request_id (pendSeq c + 1)) as [om|] eqn:E; [|done].
    destruct (Hids _ _ E) as (k & Hk & Heq%request_id_inj). lia.
  - intros id c' outcome. unfold Request_finish.
    destruct (pending c !! id) as [[m|]|] eqn:E; [|done..]. intros [= <- <-].
    destruct (Hms _ _ E) as [Hid Hr]. split; [apply lookup_delete_eq|]. by exists m.
Qed.
End server.

(** ** A concrete connection

    A codec of three messages, told apart by the payload's length: an app's
    hello, a [runtime.events] request, and a response to the daemon's first
    request. *)
Definition sample_message (bs : list byte) : Message := {|
  msg_JSONRPC := JSONRPCVersion;
  msg_ID := match bs with [_] => "1" | [_; _] => "2" | _ => request_id 1 end;
  msg_Method := match bs with [_] => MethodHello | [_; _] => MethodRuntimeEvents | _ => "" end;
  msg_Params := "{}";
  msg_Result := match bs with [_] | [_; _] => "" | _ => "7" end;
  msg_Error := None
|}.

Definition sample_json : encoding_json := {|
  json_Valid _ := true;
  json_probe _ := true;
  json_message bs := Ok (sample_message bs);
  json_hello _ := Ok ({|
    hp_Protocol := {| Major := 1; Minor := 0 |}; hp_AppVersion := "1"; hp_Role := RoleApp;
    hp_Capabilities := [CapRuntime]; hp_BundleID := ""; hp_TeamID := ""; hp_PID := 0 |}, []);
  json_marshal _ := Ok [x7b; x7d];
  json_marshal_hello _ := Ok "{}"
|}.

Definition sample_options : ServerOptions := {|
  opt_Version := "0.1.0"; opt_Protocol := {| Major := 1; Minor := 0 |};
  opt_Capabilities := [CapHost; CapRuntime]; opt_Limits := {| MaxJSON := 0; MaxAttachment := 0 |};
  opt_UID := 501; opt_VerifyAppPeer := true
|}.

Definition sample_world : world := {|
  peerPID := Ok 77; signature _ := PeerValid; writable := true;
  handle _ _ := Ok (Ok "[]")
|}.

Definition sample_frame (n : nat) : conn_event :=
  EvFrame sample_world (Ok (FrameJSON, replicate n x7b, [])).
Definition sample_cred : PeerCred := {| cred_UID := 501; cred_PID := 77 |}.

Lemma handler_calls_authorised_witness :
  let c := (conn_run sample_json sample_options {[MethodRuntimeEvents]} (newConn sample_cred)
    [sample_frame 1]).1 in
  is_ok (Authorize MethodRuntimeEvents (role c)) = true ∧ role c = RoleApp.
Proof.
  intros c. split; [|by vm_compute].
  destruct (handler_calls_authorised sample_json sample_options {[MethodRuntimeEvents]} sample_cred
    [sample_frame 1] (sample_frame 2) MethodRuntimeEvents "{}") as (_&_&_&_&Ha&_); [|exact Ha].
  apply (bool_decide_unpack _). by vm_compute.
Defined.

Lemma one_answer_per_request_witness :
  let '(c', acts) := conn_step sample_json sample_options {[MethodRuntimeEvents]}
    (newConn sample_cred) (sample_frame 2) in
  ∃ calls answers, acts = calls ++ answers ∧
    (calls = [] ∨ calls = [Called MethodRuntimeEvents "{}"]) ∧
    (answers = [] ∨ ∃ m, answers = [Sent m] ∧ Kind m = KindResponse ∧ msg_ID m = "2") ∧
    ((∀ e, sendable sample_json sample_options sample_world (newConn sample_cred)
        (NewErrorResponse "2" e)) → answers ≠ [] ∨ closed c' = true).
Proof.
  apply (one_answer_per_request sample_json sample_options {[MethodRuntimeEvents]} sample_world
    (newConn sample_cred) [x7b; x7b] [] (sample_message [x7b; x7b])).
  - done.
  - by vm_compute.
  - by vm_compute.
Defined.

Lemma daemon_requests_matched_witness :
  let c := (conn_run sample_json sample_options ∅ (newConn sample_cred)
    [EvRequestOpen; sample_frame 3]).1 in
  let '(c', id) := Request_open c in
  pending c !! id = None ∧ pending c' = <[id := None]> (pending c).
Proof.
  apply (daemon_requests_matched sample_json sample_options ∅ sample_cred
    [EvRequestOpen; sample_frame 3]).
  by vm_compute.
Defined.

(** The response did arrive: the request of the run above finishes with it. *)
Example daemon_request_answered :
  (Request_finish (conn_run sample_json sample_options ∅ (newConn sample_cred)
     [EvRequestOpen; sample_frame 3]).1 (request_id 1) WakeResponse) =
  Some (drop_pending (request_id 1) (conn_run sample_json sample_options ∅ (newConn sample_cred)
     [EvRequestOpen; sample_frame 3]).1, Ok "7").
Proof. by vm_compute. Qed.

(** ** The server's connections *)

(** The states a server goes through, from [NewServer] on. *)
Inductive server_run (json : encoding_json) (s0 : Server) : Server → Prop :=
  | run_start : server_run json s0 s0
  | run_handle s s' m : server_run json s0 s → Handle m s = Some s' → server_run json s0 s'
  | run_accept s cr : server_run json s0 s → server_run json s0 (Accept cr s).1
  | run_event s k ev : server_run json s0 s → server_run json s0 (server_step json s k ev).1
  | run_close s : server_run json s0 s → server_run json s0 (CloseServer s).

Lemma server_step_conn json s k ev k' c' :
  srv_conns (server_step json s k ev).1 !! k' = Some c' →
  ∃ c, srv_conns s !! k' = Some c ∧ cred c' = cred c.
Proof.
  unfold server_step. destruct (srv_conns s !! k) as [c|] eqn:Hk; [|by eauto].
  pose proof (conn_step_identity json (srv_opt s) (srv_handlers s) c ev) as Hid.
  destruct (conn_step _ _ _ c ev) as [c1 acts]. simpl in *.
  assert (cred c1 = cred c) as Hcred.
  { destruct Hid as [(?&_)|(_&?&?&?&?&?&_&_&(?&_))]; done. }
  destruct (closed c1); simpl.
  - intros [_ ?]%lookup_delete_Some. by eauto.
  - intros [[<- <-]|[_ ?]]%lookup_insert_Some; eauto.
Qed.

(** Every connection of a running server belongs to the daemon's user: the
    server keeps its options, and each connection in its table was accepted
    with the configured peer uid; only methods of the frozen table have
    handlers. *)
Theorem server_peers_trusted json opt getuid s :
  let s0 := NewServer opt getuid in
  server_run json s0 s →
  srv_opt s = srv_opt s0 ∧
  (∀ k c, srv_conns s !! k = Some c → cred_UID (cred c) = opt_UID (srv_opt s0)) ∧
  (∀ m, m ∈ srv_handlers s → is_Some (LookupMethod m)).
Proof.
  intros s0 Hrun. induction Hrun as [|s s' m _ IH Hh|s cr _ IH|s k ev _ IH|s _ IH].
  - split_and!; [done| |].
    + intros k c Hk. simpl in Hk. by rewrite lookup_empty in Hk.
    + intros m Hm. exfalso. simpl in Hm. set_solver.
  - destruct IH as (Ho&Hc&Hm). unfold Handle in Hh.
    destruct (LookupMethod m) as [sp|] eqn:Hl; [|done]. injection Hh as <-. simpl.
    split_and!; [done..|]. intros m' [->%elem_of_singleton|?]%elem_of_union; [by rewrite Hl|auto].
  - destruct IH as (Ho&Hc&Hm). unfold Accept. destruct cr as [cr|]; [|done].
    destruct (decide (cred_UID cr ≠ opt_UID (srv_opt s))) as [|Hu]; [done|].
    apply dec_stable in Hu. rewrite Ho in Hu. simpl. split_and!; [done| |done].
    intros k c [[_ <-]|[_ ?]]%lookup_insert_Some; [done|by eapply Hc].
  - destruct IH as (Ho&Hc&Hm). split_and!.
    + unfold server_step. destruct (srv_conns s !! k); [|done].
      destruct (conn_step _ _ _ _ _). exact Ho.
    + intros k' c' Hk'. destruct (server_step_conn _ _ _ _ _ _ Hk') as (c & Hk & ->). by eapply Hc.
    + unfold server_step. destruct (srv_conns s !! k); [|exact Hm].
      destruct (conn_step _ _ _ _ _). exact Hm.
  - destruct IH as (Ho&Hc&Hm). simpl. split_and!; [done| |done].
    intros k c. destruct (srv_closed s); [by apply Hc|].
    rewrite lookup_fmap, fmap_Some. intros (c0 & Hk & ->). exact (Hc k c0 Hk).
Qed.

Lemma server_peers_trusted_witness :
  srv_opt (Accept (Ok sample_cred) (NewServer sample_options 501)).1 =
  srv_opt (NewServer sample_options 501).
Proof.
  apply (server_peers_trusted sample_json sample_options 501
    (Accept (Ok sample_cred) (NewServer sample_options 501)).1).
  apply run_accept, run_start.
Defined.
