(* ===== verification/RunBroker.v ===== *)
(** * The manager's run-event broker

    [src/internal/manager/run_events.go] with the wire types of
    [src/internal/protocol/protocol.go]: per account, device and run, the
    highest contiguous event sequence received, the bounded set of events
    received ahead of it, and the replay the manager asks a reconnecting client
    for. *)

From S2P Require Import Prelude Entities.
Open Scope Z_scope.

(** ** Wire types *)
Module protocol.
Record RunEvent : Type := {
  RunID : string;
  Seq : Z;
  At : time;
  Source : string;
  Kind : string;
  Payload : string
}.
#[export] Instance RunEvent_eq_dec : EqDecision RunEvent.
Proof. solve_decision. Defined.

Record RunHead : Type := { head_RunID : string; LastSeq : Z; Status : string }.

Record RunReplayCursor : Type := { cur_RunID : string; AfterSeq : Z; ThroughSeq : Z }.
#[export] Instance RunReplayCursor_eq_dec : EqDecision RunReplayCursor.
Proof. solve_decision. Defined.
End protocol.
Import protocol.

(** ** State *)
Definition maxPendingRunEvents : Z := 512.
Definition maxRunSyncHeads : Z := 256.

(** account, device, run *)
Abbreviation runEventKey := (string * string * string)%type.

Record runEventState : Type := {
  head : Z;
  pending : gmap Z RunEvent;
  last : option RunEvent (* [None]: the zero value, before any event *)
}.

Abbreviation RunEventBroker := (gmap runEventKey runEventState).
Definition NewRunEventBroker : RunEventBroker := ∅.

Inductive broker_err : Type :=
  | EKeyRequired | ERunIDRequired | ESeqNotPositive | EKindRequired
  | EGapTooLarge (run : string) (head seq : Z)
  | ETooManyHeads | EInvalidHead | EDuplicateHead (run : string).
#[export] Instance broker_err_eq_dec : EqDecision broker_err.
Proof. solve_decision. Defined.

Definition new_state : runEventState := {| head := 0; pending := ∅; last := None |}.
Definition state_of (b : RunEventBroker) (k : runEventKey) : runEventState := default new_state (b !! k).

(** ** Operations *)

(** The inner loop of [Accept]: while the event after the head is pending, move
    the head over it. Every turn takes an event out of [pending], so its size is
    enough fuel. *)
Fixpoint drain (fuel : nat) (st : runEventState) : runEventState :=
  match fuel with
  | O => st
  | S fuel =>
      match pending st !! wrap64 (head st + 1) with
      | None => st
      | Some next =>
          drain fuel {| head := Seq next; pending := delete (wrap64 (head st + 1)) (pending st);
                        last := Some next |}
      end
  end.

(** [Accept] on the state of the event's run: the new state, and the head with
    the [accepted] flag or the error. *)
Definition accept_event (st : runEventState) (ev : RunEvent) :
    runEventState * result (Z * broker_err) (Z * bool) :=
  if decide (Seq ev ≤ head st) then (st, Ok (head st, false))
  else if decide (is_Some (pending st !! Seq ev)) then (st, Ok (head st, false))
  else if decide (Seq ev = wrap64 (head st + 1)) then
    let st := {| head := Seq ev; pending := pending st; last := Some ev |} in
    let st := drain (S (size (pending st))) st in
    (st, Ok (head st, true))
  else if decide (maxPendingRunEvents ≤ Z.of_nat (size (pending st)))
  then (st, Err (head st, EGapTooLarge (RunID ev) (head st) (Seq ev)))
  else
    ({| head := head st; pending := <[Seq ev := ev]> (pending st); last := last st |},
     Ok (head st, true)).

(** [Accept]; the head also comes with an error. *)
Definition Accept (account deviceID : string) (ev : RunEvent) (b : RunEventBroker) :
    RunEventBroker * result (Z * broker_err) (Z * bool) :=
  if bool_decide (account = "") || bool_decide (deviceID = "") then (b, Err (0, EKeyRequired))
  else if decide (RunID ev = "") then (b, Err (0, ERunIDRequired))
  else if decide (Seq ev ≤ 0) then (b, Err (0, ESeqNotPositive))
  else if decide (Kind ev = "") then (b, Err (0, EKindRequired))
  else
    let key := (account, deviceID, RunID ev) in
    let '(st, r) := accept_event (state_of b key) ev in
    (<[key := st]> b, r).

Definition Head (account deviceID runID : string) (b : RunEventBroker) : Z :=
  match b !! (account, deviceID, runID) with Some st => head st | None => 0 end.

Definition Last (account deviceID runID : string) (b : RunEventBroker) : option RunEvent :=
  match b !! (account, deviceID, runID) with
  | None => None
  | Some st => if decide (head st = 0) then None else last st
  end.

(** The loop of [Missing] over the advertised heads. *)
Fixpoint missing_from (account deviceID : string) (b : RunEventBroker) (seen : gset string)
    (heads : list RunHead) : result broker_err (list RunReplayCursor) :=
  match heads with
  | [] => Ok []
  | h :: heads =>
      if bool_decide (head_RunID h = "") || bool_decide (LastSeq h < 0) then Err EInvalidHead
      else if decide (head_RunID h ∈ seen) then Err (EDuplicateHead (head_RunID h))
      else
        let managerHead := Head account deviceID (head_RunID h) b in
        rest ← missing_from account deviceID b ({[head_RunID h]} ∪ seen) heads;
        mret (if decide (LastSeq h > managerHead)
              then {| cur_RunID := head_RunID h; AfterSeq := managerHead; ThroughSeq := LastSeq h |} :: rest
              else rest)
  end.

Definition Missing (account deviceID : string) (heads : list RunHead) (b : RunEventBroker) :
    result broker_err (list RunReplayCursor) :=
  if bool_decide (account = "") || bool_decide (deviceID = "") then Err EKeyRequired
  else if decide (Z.of_nat (length heads) > maxRunSyncHeads) then Err ETooManyHeads
  else missing_from account deviceID b ∅ heads.

(** ** The set of sequences received

    The abstract state of one run: the sequences accepted so far. The head is
    the end of its gap-free prefix and [pending] holds the rest. *)
Record broker_ok (st : runEventState) (S : gset Z) : Prop := {
  bo_head : 0 ≤ head st ≤ max_int64;
  bo_prefix : ∀ q, 1 ≤ q ≤ head st → q ∈ S;
  bo_gap : head st + 1 ∉ S;
  bo_pending : ∀ q ev, pending st !! q = Some ev → Seq ev = q ∧ q ∈ S ∧ head st < q ≤ max_int64;
  bo_rest : ∀ q, q ∈ S → 1 ≤ q ∧ (q ≤ head st ∨ is_Some (pending st !! q));
  bo_bound : Z.of_nat (size (pending st)) ≤ maxPendingRunEvents;
  bo_last : (head st = 0 → last st = None) ∧
            (0 < head st → ∃ ev, last st = Some ev ∧ Seq ev = head st)
}.

Lemma broker_ok_new : broker_ok new_state ∅.
Proof.
  split; simpl; try set_solver; try done; unfold max_int64; try lia.
Qed.

(** A state whose head may still have its successor pending. *)
Record drain_ok (st : runEventState) (S : gset Z) : Prop := {
  do_head : 1 ≤ head st ≤ max_int64;
  do_prefix : ∀ q, 1 ≤ q ≤ head st → q ∈ S;
  do_pending : ∀ q ev, pending st !! q = Some ev → Seq ev = q ∧ q ∈ S ∧ head st < q ≤ max_int64;
  do_rest : ∀ q, q ∈ S → 1 ≤ q ∧ (q ≤ head st ∨ is_Some (pending st !! q));
  do_bound : Z.of_nat (size (pending st)) ≤ maxPendingRunEvents;
  do_last : ∃ ev, last st = Some ev ∧ Seq ev = head st
}.

Lemma drain_ok_done st S : drain_ok st S → pending st !! (wrap64 (head st + 1)) = None →
  broker_ok st S.
Proof.
  intros [H1 H2 H3 H4 H5 H6] Hn. split; try done; [lia| |].
  - intros Hin. destruct (H4 _ Hin) as [? [?|[ev Hp]]]; [lia|].
    destruct (H3 _ _ Hp) as (_&_&?). rewrite wrap64_id in Hn by (unfold min_int64; lia). congruence.
  - split; [lia|done].
Qed.

Lemma drain_spec fuel st S : drain_ok st S → (size (pending st) < fuel)%nat →
  broker_ok (drain fuel st) S ∧ head st ≤ head (drain fuel st).
Proof.
  revert st. induction fuel as [|fuel IH]; intros st Hst Hf; [lia|]. simpl.
  destruct (pending st !! wrap64 (head st + 1)) as [next|] eqn:Hp.
  2: { split; [by apply drain_ok_done|lia]. }
  destruct Hst as [H1 H2 H3 H4 H5 H6].
  destruct (H3 _ _ Hp) as (Hs & Hin & Hlt).
  assert (head st < max_int64).
  { destruct (decide (head st = max_int64)) as [E|]; [|lia]. exfalso. rewrite E in Hlt.
    pose proof (wrap64_range (max_int64 + 1)). lia. }
  rewrite wrap64_id in Hs, Hp, Hin |- * by (unfold min_int64; lia).
  assert (Hsz : size (delete (head st + 1) (pending st)) = (size (pending st) - 1)%nat)
    by (rewrite map_size_delete, Hp; lia).
  assert (0 < size (pending st))%nat.
  { destruct (decide (size (pending st) = 0%nat)) as [E|]; [|lia].
    apply map_size_empty_inv in E. by rewrite E, lookup_empty in Hp. }
  destruct (IH {| head := Seq next; pending := delete (head st + 1) (pending st); last := Some next |})
    as [Hok Hle]; simpl; [|lia|split; [done|simpl in Hle; lia]].
  split; simpl; rewrite ?Hs; try done; [lia| | | | |by exists next].
  - intros q Hq. destruct (decide (q = head st + 1)) as [->|]; [done|]. apply H2. lia.
  - intros q ev [Hne Hq]%lookup_delete_Some. destruct (H3 _ _ Hq) as (?&?&?).
    split_and!; [done|done|lia|lia].
  - intros q Hq. destruct (H4 _ Hq) as [? [?|[ev Hev]]]; [split; [done|left; lia]|].
    split; [done|]. destruct (decide (q = head st + 1)) as [->|]; [left; lia|].
    right. exists ev. by rewrite lookup_delete_ne.
  - lia.
Qed.

(** One event: the received set grows by a new sequence, unless too many are
    already waiting for an earlier one. *)
Lemma accept_event_spec st S ev : broker_ok st S → 1 ≤ Seq ev ≤ max_int64 →
  let '(st', r) := accept_event st ev in
  (Seq ev ∈ S → st' = st ∧ r = Ok (head st, false)) ∧
  (Seq ev ∉ S →
    (broker_ok st' ({[Seq ev]} ∪ S) ∧ r = Ok (head st', true) ∧ head st ≤ head st') ∨
    (st' = st ∧ Z.of_nat (size (pending st)) = maxPendingRunEvents ∧ Seq ev ≠ head st + 1 ∧
     r = Err (head st, EGapTooLarge (RunID ev) (head st) (Seq ev)))).
Proof.
  intros Hok Hseq. pose proof Hok as [H1 H2 H3 H4 H5 H6 H7]. unfold accept_event.
  destruct (decide (Seq ev ≤ head st)) as [Hle|Hgt].
  { split; [done|]. intros Hn. destruct Hn. apply H2. lia. }
  destruct (decide (is_Some (pending st !! Seq ev))) as [[e He]|Hnp].
  { split; [done|]. intros Hn. destruct Hn. by destruct (H4 _ _ He) as (_&?&_). }
  assert (Hnew : Seq ev ∉ S) by (intros Hin; destruct (H5 _ Hin) as [_ [?|?]]; [lia|done]).
  destruct (decide (Seq ev = _)) as [Hnext|Hahead].
  { assert (head st < max_int64).
    { destruct (decide (head st = max_int64)) as [E|]; lia. }
    rewrite wrap64_id in Hnext by (unfold min_int64; lia).
    destruct (drain_spec (Datatypes.S (size (pending st)))
      {| head := Seq ev; pending := pending st; last := Some ev |} ({[Seq ev]} ∪ S)) as [Hd Hle];
      simpl; [|lia|].
    2: { cbv zeta. split; [done|]. intros _. left. simpl pending. simpl in Hle. split_and!; [done|done|lia]. }
    split; simpl; try done; [| | |by exists ev].
    - intros q Hq. destruct (decide (q = Seq ev)) as [->|]; [set_solver|].
      apply elem_of_union_r, H2. lia.
    - intros q e He. destruct (H4 _ _ He) as (?&?&?).
      assert (q ≠ Seq ev) by (intros ->; by apply Hnp). split_and!; [done|set_solver|lia|lia].
    - intros q [->%elem_of_singleton|Hq]%elem_of_union; [split; [lia|left; lia]|].
      destruct (H5 _ Hq) as [? [?|?]]; split; try done; [left; lia|by right]. }
  destruct (decide (maxPendingRunEvents ≤ _)) as [Hfull|Hroom].
  { split; [done|]. intros _. right. split_and!; [done|lia| |done].
    intros E. apply Hahead. rewrite wrap64_id; [done|unfold min_int64; lia]. }
  split; [done|]. intros _. left. split_and!; [|done|simpl; lia].
  assert (Hne : Seq ev ≠ head st + 1).
  { intros E. apply Hahead. rewrite wrap64_id; [done|unfold min_int64; lia]. }
  split; simpl; try done.
  - intros q Hq. by apply elem_of_union_r, H2.
  - set_solver.
  - intros q e [[<- <-]|[Hq He]]%lookup_insert_Some; [split_and!; [done|set_solver|lia|lia]|].
    destruct (H4 _ _ He) as (?&?&?). split_and!; [done|set_solver|lia|lia].
  - intros q [->%elem_of_singleton|Hq]%elem_of_union.
    + split; [lia|]. right. rewrite lookup_insert_eq. by eexists.
    + destruct (H5 _ Hq) as [? [?|Hp]]; split; [done|by left|done|]. right.
      destruct (decide (q = Seq ev)) as [->|]; [rewrite lookup_insert_eq; by eexists|].
      by rewrite lookup_insert_ne.
  - rewrite map_size_insert_None by (by apply eq_None_not_Some). lia.
Qed.
