(* ===== verification/AgentRuns.v ===== *)
(** * Managed agent runs

    [src/internal/agentops/run_manager.go], [run_store.go] and [run_events.go]
    with the harness selection of [subagent.go]: the run records, their store,
    and the operations of the run manager. The manager is an explicit state;
    its lock sections are functions on it, and the goroutine that drives a run
    is a sequence of steps ([AgentSteps]). *)

From S2P Require Import Prelude Entities GoStrings.
Open Scope Z_scope.

(** ** Run statuses *)
Definition RunStatus : Type := string.
Definition RunQueued : RunStatus := "queued".
Definition RunRunning : RunStatus := "running".
Definition RunCompleted : RunStatus := "completed".
Definition RunFailed : RunStatus := "failed".
Definition RunCancelled : RunStatus := "cancelled".
Definition RunTimeout : RunStatus := "timeout".
Definition RunInterrupted : RunStatus := "interrupted".

(** A status with no entry has no successors. *)
Definition runTransitions (s : RunStatus) : list RunStatus :=
  if decide (s = RunQueued) then [RunRunning; RunCancelled]
  else if decide (s = RunRunning)
  then [RunCompleted; RunFailed; RunCancelled; RunTimeout; RunInterrupted]
  else [].

Definition terminalRunStatus (s : RunStatus) : bool :=
  one_of s [RunCompleted; RunFailed; RunCancelled; RunTimeout; RunInterrupted].

Definition canTransition (from to : RunStatus) : bool :=
  existsb (λ next, bool_decide (next = to)) (runTransitions from).

Definition runStatusEventKind (s : RunStatus) : string :=
  if decide (s = RunQueued) then "run.queued"
  else if decide (s = RunRunning) then "run.started"
  else if decide (s = RunCompleted) then "run.completed"
  else if decide (s = RunFailed) then "run.failed"
  else if decide (s = RunCancelled) then "run.cancelled"
  else if decide (s = RunTimeout) then "run.timeout"
  else if decide (s = RunInterrupted) then "run.interrupted"
  else "run.status".

(** [statusFromResult]: the second component says whether the status was
    unknown, which is an error beside [RunFailed]. *)
Definition statusFromResult (s : string) : RunStatus * bool :=
  let w := ToLower (TrimSpace s) in
  if one_of w [""; "completed"] then (RunCompleted, false)
  else if decide (w = "failed") then (RunFailed, false)
  else if decide (w = "timeout") then (RunTimeout, false)
  else if one_of w ["cancelled"; "canceled"] then (RunCancelled, false)
  else (RunFailed, true).

(** ** Run specifications *)
Record RunSpec : Type := {
  Workspace : string;
  Task : string;
  Client : string;
  Agent : string;
  Model : string;
  Thinking : string;
  TimeoutSeconds : Z
}.

Definition SubagentClientOMP : string := "omp".
Definition SubagentClientOpencode : string := "opencode".
Definition SubagentClientCodex : string := "codex".
Definition DefaultSubagentClient : string := SubagentClientOMP.

Definition supportedSubagentClient (client : string) : bool :=
  one_of client [SubagentClientOMP; SubagentClientOpencode; SubagentClientCodex].

Record SubagentProfile : Type := {
  prof_Name : string;
  prof_Description : string;
  prof_Client : string;
  prof_Agent : string;
  prof_Model : string;
  prof_Thinking : string;
  prof_TimeoutSec : Z;
  prof_ExtraArgs : list string;
  prof_Tab : string
}.

Definition orDefault (v def : string) : string := if decide (TrimSpace v = "") then def else v.

(** [resolveSubagentCall] over the configured profiles: client, agent, model,
    thinking, timeout and extra arguments. *)
Fixpoint resolveSubagentCall (profiles : list SubagentProfile)
    (client agent model thinking : string) (timeoutSeconds : Z) :
    string * string * string * string * Z * list string :=
  match profiles with
  | [] => (if decide (client = "") then DefaultSubagentClient else client,
           agent, model, thinking, timeoutSeconds, [])
  | p :: profiles =>
      if bool_decide (prof_Name p ≠ "") && bool_decide (prof_Name p = TrimSpace agent) &&
         (bool_decide (client = "") || bool_decide (client = prof_Client p))
      then
        (orDefault (prof_Client p) DefaultSubagentClient,
         orDefault (prof_Agent p) (prof_Name p),
         (if decide (model = "") then prof_Model p else model),
         (if decide (thinking = "") then prof_Thinking p else thinking),
         (if decide (timeoutSeconds ≤ 0) then prof_TimeoutSec p else timeoutSeconds),
         prof_ExtraArgs p)
      else resolveSubagentCall profiles client agent model thinking timeoutSeconds
  end.

(** [validIdentifierish]: a byte outside ASCII is part of a rune that is not
    allowed. *)
Definition identifier_char (v : Z) : bool :=
  bool_decide (v = 95) || bool_decide (v = 45) || bool_decide (97 ≤ v ≤ 122) ||
  bool_decide (65 ≤ v ≤ 90) || bool_decide (48 ≤ v ≤ 57).
Definition validIdentifierish (s : string) : bool :=
  if decide (s = "") then true
  else if decide (64 < String.length s)%nat then false
  else forallb identifier_char (codes s).

Inductive run_err : Type :=
  | ETaskRequired | EUnsupportedClient (c : string) | EInvalidAgent (a : string)
  | EUnsupportedThinking (t : string) | EManagerClosed | ERunNotFound (id : string)
  | EContext (e : string) | EPreflight (e : string).

Definition validateSubagentCall (client agent thinking : string) : result run_err () :=
  if negb (supportedSubagentClient client) then Err (EUnsupportedClient client)
  else if bool_decide (agent ≠ "") && negb (validIdentifierish agent) then Err (EInvalidAgent agent)
  else if bool_decide (thinking ≠ "") &&
          negb (one_of thinking ["off"; "minimal"; "low"; "medium"; "high"; "xhigh"; "max"])
  then Err (EUnsupportedThinking thinking)
  else Ok ().

Definition normalizeRunSpec (profiles : list SubagentProfile) (s : RunSpec) : RunSpec :=
  let '(client, agent, model, thinking, timeoutSeconds, _) :=
    resolveSubagentCall profiles (Client s) (Agent s) (Model s) (Thinking s) (TimeoutSeconds s) in
  let client := TrimSpace client in
  {| Workspace := Workspace s; Task := Task s;
     Client := if decide (client ≠ "") then client else Client s;
     Agent := agent; Model := model; Thinking := thinking;
     TimeoutSeconds := if decide (0 < timeoutSeconds) then timeoutSeconds else TimeoutSeconds s |}.

Definition validateRunSpec (s : RunSpec) : result run_err () :=
  if decide (TrimSpace (Task s) = "") then Err ETaskRequired
  else validateSubagentCall (Client s) (Agent s) (Thinking s).

(** ** Snapshots, events, results *)
Record AgentRun : Type := {
  run_ID : string;
  run_Workspace : string;
  run_Client : string;
  run_Agent : string;
  run_Model : string;
  run_Thinking : string;
  run_Task : string;
  run_Status : RunStatus;
  run_StartedAt : time;
  run_FinishedAt : time;
  run_ElapsedMS : Z;
  run_Output : string;
  run_Error : string;
  run_EventCount : nat;
  run_LastEvent : string;
  run_LastSeq : Z
}.

Record RunEvent : Type := {
  ev_RunID : string;
  ev_Seq : Z;
  ev_At : time;
  ev_Source : string;
  ev_Kind : string;
  ev_Payload : string
}.
#[export] Instance RunEvent_eq_dec : EqDecision RunEvent.
Proof. solve_decision. Defined.

(** The fields of a [SubagentResult] the manager reads. *)
Record SubagentResult : Type := { res_Status : string; res_Output : string }.
Definition zero_result : SubagentResult := {| res_Status := ""; res_Output := "" |}.

Definition subagentMaxOutput : Z := 256 * 1024.
Definition subagentMaxConcurrent : Z := 2.
Definition ellipsis : string := String.string_of_list_ascii (to_char <$> [226; 128; 166]).
Definition truncateText (s : string) (max : Z) : string :=
  if decide (Z.of_nat (String.length s) ≤ max) then s
  else first_bytes (Z.to_nat max) s +:+ ellipsis.

(** ** The run store *)
Record run_row : Type := {
  rr_id : string;
  rr_workspace : string;
  rr_client : string;
  rr_agent : string;
  rr_model : string;
  rr_thinking : string;
  rr_task : string;
  rr_status : RunStatus;
  rr_started_at : Z;
  rr_finished_at : Z;
  rr_elapsed_ms : Z;
  rr_output : string;
  rr_error : string;
  rr_event_count : nat
}.

Record event_row : Type := {
  er_run_id : string;
  er_seq : Z;
  er_at_ms : Z;
  er_source : string;
  er_kind : string;
  er_payload : string
}.

(** The tables [agent_runs] (by primary key) and [agent_run_events]. *)
Record runStore : Type := {
  agent_runs : gmap string run_row;
  agent_run_events : list event_row
}.
Definition empty_store : runStore := {| agent_runs := ∅; agent_run_events := [] |}.

Definition unixMilli (t : time) : Z := if IsZero t then 0 else UnixMilli t.
Definition timeFromMilli (v : Z) : time := if decide (v = 0) then zero_time else v * 1000000.

Definition upsert (snap : AgentRun) (s : runStore) : runStore := {|
  agent_runs := <[run_ID snap := {|
    rr_id := run_ID snap; rr_workspace := run_Workspace snap; rr_client := run_Client snap;
    rr_agent := run_Agent snap; rr_model := run_Model snap; rr_thinking := run_Thinking snap;
    rr_task := run_Task snap; rr_status := run_Status snap;
    rr_started_at := unixMilli (run_StartedAt snap); rr_finished_at := unixMilli (run_FinishedAt snap);
    rr_elapsed_ms := run_ElapsedMS snap; rr_output := run_Output snap; rr_error := run_Error snap;
    rr_event_count := run_EventCount snap |}]> (agent_runs s);
  agent_run_events := agent_run_events s |}.

Definition scanRun (r : run_row) : AgentRun := {|
  run_ID := rr_id r; run_Workspace := rr_workspace r; run_Client := rr_client r;
  run_Agent := rr_agent r; run_Model := rr_model r; run_Thinking := rr_thinking r;
  run_Task := rr_task r; run_Status := rr_status r;
  run_StartedAt := timeFromMilli (rr_started_at r); run_FinishedAt := timeFromMilli (rr_finished_at r);
  run_ElapsedMS := rr_elapsed_ms r; run_Output := rr_output r; run_Error := rr_error r;
  run_EventCount := rr_event_count r; run_LastEvent := ""; run_LastSeq := 0 |}.

Definition get (id : string) (s : runStore) : option AgentRun := scanRun <$> agent_runs s !! id.

(** [ORDER BY started_at DESC, id DESC]. *)
Definition row_before (r1 r2 : run_row) : Prop :=
  rr_started_at r2 < rr_started_at r1 ∨
  rr_started_at r1 = rr_started_at r2 ∧ string_gt (rr_id r2) (rr_id r1) = false.
#[export] Instance row_before_dec r1 r2 : Decision (row_before r1 r2).
Proof. unfold row_before. apply _. Defined.

Definition all (s : runStore) : list AgentRun :=
  scanRun <$> merge_sort row_before (map_to_list (agent_runs s)).*2.

(** The rows of one run, and [COALESCE(MAX(seq), 0)]. *)
Definition run_rows (id : string) (s : runStore) : list event_row :=
  filter (λ r, er_run_id r = id) (agent_run_events s).
Definition lastSeq (id : string) (s : runStore) : Z :=
  coalesce (sql_max (er_seq <$> run_rows id s)) 0.

Definition event_to_row (ev : RunEvent) : event_row := {|
  er_run_id := ev_RunID ev; er_seq := ev_Seq ev; er_at_ms := unixMilli (ev_At ev);
  er_source := ev_Source ev; er_kind := ev_Kind ev; er_payload := ev_Payload ev |}.
Definition row_to_event (r : event_row) : RunEvent := {|
  ev_RunID := er_run_id r; ev_Seq := er_seq r; ev_At := timeFromMilli (er_at_ms r);
  ev_Source := er_source r; ev_Kind := er_kind r; ev_Payload := er_payload r |}.

Definition same_key (r1 r2 : event_row) : Prop := er_run_id r1 = er_run_id r2 ∧ er_seq r1 = er_seq r2.
#[export] Instance same_key_dec r1 r2 : Decision (same_key r1 r2).
Proof. unfold same_key. apply _. Defined.

(** [INSERT OR REPLACE] and [INSERT OR IGNORE] into [agent_run_events]. *)
Definition replace_event (r : event_row) (s : runStore) : runStore := {|
  agent_runs := agent_runs s;
  agent_run_events := filter (λ r', ¬ same_key r r') (agent_run_events s) ++ [r] |}.
Definition insert_or_ignore (r : event_row) (s : runStore) : runStore :=
  if decide (Exists (same_key r) (agent_run_events s)) then s
  else {| agent_runs := agent_runs s; agent_run_events := agent_run_events s ++ [r] |}.

Definition appendEvent (ev : RunEvent) (s : runStore) : runStore := replace_event (event_to_row ev) s.

Definition defaultRunEventCapacity : Z := 200.

Definition eventsAfter (runID : string) (afterSeq limit : Z) (s : runStore) : list RunEvent :=
  let limit := if decide (limit ≤ 0) then defaultRunEventCapacity else limit in
  row_to_event <$> take (Z.to_nat limit)
    (order_by er_seq (filter (λ r, er_run_id r = runID ∧ afterSeq < er_seq r) (agent_run_events s))).

(** [status IN ('queued', 'running')]. *)
Definition stale (r : run_row) : bool := one_of (rr_status r) [RunQueued; RunRunning].

Definition interrupted_event (now : time) (id : string) (s : runStore) : event_row := {|
  er_run_id := id; er_seq := lastSeq id s + 1; er_at_ms := unixMilli now;
  er_source := "codebridge"; er_kind := "run.interrupted"; er_payload := "" |}.

(** [recordInterruptedRunEvents]. *)
Definition recordInterruptedRunEvents (now : time) (s : runStore) : runStore :=
  let ids := (filter (λ kr, stale kr.2 = true) (map_to_list (agent_runs s))).*1 in
  foldl (λ s id, insert_or_ignore (interrupted_event now id s) s) s ids.

Definition set_status (st : RunStatus) (r : run_row) : run_row := {|
  rr_id := rr_id r; rr_workspace := rr_workspace r; rr_client := rr_client r;
  rr_agent := rr_agent r; rr_model := rr_model r; rr_thinking := rr_thinking r;
  rr_task := rr_task r; rr_status := st; rr_started_at := rr_started_at r;
  rr_finished_at := rr_finished_at r; rr_elapsed_ms := rr_elapsed_ms r;
  rr_output := rr_output r; rr_error := rr_error r; rr_event_count := rr_event_count r |}.

(** [openRunStore] on the tables found in the file (both created empty when
    missing): [None] when persistence is off. *)
Definition openRunStore (path : string) (now : time) (file : runStore) : option runStore :=
  if decide (TrimSpace path = "") then None
  else
    let s := recordInterruptedRunEvents now file in
    Some {| agent_runs := (λ r, if stale r then set_status RunInterrupted r else r) <$> agent_runs s;
            agent_run_events := agent_run_events s |}.

(** ** The manager *)

(** A live subscriber: the run it follows ([""] for all) and its channel. *)
Record runSubscriber : Type := { sub_runID : string; sub_cap : nat; sub_queue : list RunEvent }.

(** [life] is the run's context: [None] for a run loaded from the store, which
    has none, else whether it was cancelled. [done] is whether the channel was
    closed. *)
Record runState : Type := {
  id : string;
  spec : RunSpec;
  status : RunStatus;
  startedAt : time;
  finishedAt : time;
  elapsedMS : Z;
  output : string;
  errText : string;
  eventTotal : nat;
  lastEvent : string;
  events : list string;
  eventNext : nat;
  eventKept : nat;
  eventSeq : Z;
  journal : list RunEvent;
  journalNext : nat;
  journalKept : nat;
  life : option bool;
  done_closed : bool
}.

Record RunManager : Type := {
  maxConcurrent : Z;
  eventCapacity : nat;
  store : option runStore;
  runs : gmap string runState;
  subscribers : gmap Z runSubscriber;
  subNext : Z;
  closed : bool;
  root_cancelled : bool
}.

(** What the world answers while a step runs: the clock, and whether the
    store's writes succeed. A failing store is only logged. *)
Record world : Type := { now : time; db_up : bool }.

(** *** Field updates *)
Definition set_store (s : option runStore) (m : RunManager) : RunManager := {|
  maxConcurrent := maxConcurrent m; eventCapacity := eventCapacity m; store := s;
  runs := runs m; subscribers := subscribers m; subNext := subNext m; closed := closed m;
  root_cancelled := root_cancelled m |}.
Definition set_runs (rs : gmap string runState) (m : RunManager) : RunManager := {|
  maxConcurrent := maxConcurrent m; eventCapacity := eventCapacity m; store := store m;
  runs := rs; subscribers := subscribers m; subNext := subNext m; closed := closed m;
  root_cancelled := root_cancelled m |}.
Definition set_subscribers (subs : gmap Z runSubscriber) (next : Z) (m : RunManager) : RunManager := {|
  maxConcurrent := maxConcurrent m; eventCapacity := eventCapacity m; store := store m;
  runs := runs m; subscribers := subs; subNext := next; closed := closed m;
  root_cancelled := root_cancelled m |}.
Definition put_run (rs : runState) (m : RunManager) : RunManager := set_runs (<[id rs := rs]> (runs m)) m.

Definition set_lifecycle (st : RunStatus) (started finished : time) (elapsed : Z) (closed : bool)
    (rs : runState) : runState := {|
  id := id rs; spec := spec rs; status := st; startedAt := started; finishedAt := finished;
  elapsedMS := elapsed; output := output rs; errText := errText rs; eventTotal := eventTotal rs;
  lastEvent := lastEvent rs; events := events rs; eventNext := eventNext rs; eventKept := eventKept rs;
  eventSeq := eventSeq rs; journal := journal rs; journalNext := journalNext rs;
  journalKept := journalKept rs; life := life rs; done_closed := closed |}.
Definition set_outcome (out err : string) (rs : runState) : runState := {|
  id := id rs; spec := spec rs; status := status rs; startedAt := startedAt rs; finishedAt := finishedAt rs;
  elapsedMS := elapsedMS rs; output := out; errText := err; eventTotal := eventTotal rs;
  lastEvent := lastEvent rs; events := events rs; eventNext := eventNext rs; eventKept := eventKept rs;
  eventSeq := eventSeq rs; journal := journal rs; journalNext := journalNext rs;
  journalKept := journalKept rs; life := life rs; done_closed := done_closed rs |}.
Definition set_life (l : option bool) (rs : runState) : runState := {|
  id := id rs; spec := spec rs; status := status rs; startedAt := startedAt rs; finishedAt := finishedAt rs;
  elapsedMS := elapsedMS rs; output := output rs; errText := errText rs; eventTotal := eventTotal rs;
  lastEvent := lastEvent rs; events := events rs; eventNext := eventNext rs; eventKept := eventKept rs;
  eventSeq := eventSeq rs; journal := journal rs; journalNext := journalNext rs;
  journalKept := journalKept rs; life := l; done_closed := done_closed rs |}.
Definition set_journal (seq : Z) (j : list RunEvent) (next kept : nat) (rs : runState) : runState := {|
  id := id rs; spec := spec rs; status := status rs; startedAt := startedAt rs; finishedAt := finishedAt rs;
  elapsedMS := elapsedMS rs; output := output rs; errText := errText rs; eventTotal := eventTotal rs;
  lastEvent := lastEvent rs; events := events rs; eventNext := eventNext rs; eventKept := eventKept rs;
  eventSeq := seq; journal := j; journalNext := next; journalKept := kept; life := life rs;
  done_closed := done_closed rs |}.
Definition set_ring (total : nat) (last : string) (ring : list string) (next kept : nat)
    (rs : runState) : runState := {|
  id := id rs; spec := spec rs; status := status rs; startedAt := startedAt rs; finishedAt := finishedAt rs;
  elapsedMS := elapsedMS rs; output := output rs; errText := errText rs; eventTotal := total;
  lastEvent := last; events := ring; eventNext := next; eventKept := kept;
  eventSeq := eventSeq rs; journal := journal rs; journalNext := journalNext rs;
  journalKept := journalKept rs; life := life rs; done_closed := done_closed rs |}.

(** *** Snapshots and persistence *)
Definition snapshotLocked (rs : runState) : AgentRun := {|
  run_ID := id rs; run_Workspace := Workspace (spec rs); run_Client := Client (spec rs);
  run_Agent := Agent (spec rs); run_Model := Model (spec rs); run_Thinking := Thinking (spec rs);
  run_Task := Task (spec rs); run_Status := status rs; run_StartedAt := startedAt rs;
  run_FinishedAt := finishedAt rs; run_ElapsedMS := elapsedMS rs; run_Output := output rs;
  run_Error := errText rs; run_EventCount := eventTotal rs; run_LastEvent := lastEvent rs;
  run_LastSeq := eventSeq rs |}.

(** A write to the store: nothing without one, or when it fails. *)
Definition store_write (w : world) (f : runStore → runStore) (m : RunManager) : RunManager :=
  if db_up w then set_store (f <$> store m) m else m.

Definition persistLocked (w : world) (rs : runState) (m : RunManager) : RunManager :=
  store_write w (upsert (snapshotLocked rs)) m.

(** *** Runtime events *)

(** One subscriber's turn of [publishRuntimeEventLocked]: dropped when the
    channel is full. *)
Definition offer (ev : RunEvent) (s : runSubscriber) : runSubscriber :=
  if bool_decide (sub_runID s ≠ "") && bool_decide (sub_runID s ≠ ev_RunID ev) then s
  else if decide (length (sub_queue s) < sub_cap s)%nat
  then {| sub_runID := sub_runID s; sub_cap := sub_cap s; sub_queue := sub_queue s ++ [ev] |}
  else s.

Definition publishRuntimeEventLocked (ev : RunEvent) (m : RunManager) : RunManager :=
  set_subscribers (offer ev <$> subscribers m) (subNext m) m.

(** The ring write of an event: at [journalNext mod len], when there is a ring. *)
Definition journal_push (ev : RunEvent) (rs : runState) : runState :=
  let len := length (journal rs) in
  if decide (len = 0%nat) then set_journal (eventSeq rs) (journal rs) (journalNext rs) (journalKept rs) rs
  else
    set_journal (eventSeq rs) (<[(journalNext rs `mod` len)%nat := ev]> (journal rs))
      (S (journalNext rs))
      (if decide (journalKept rs < len)%nat then S (journalKept rs) else journalKept rs) rs.

Definition next_event (w : world) (rs : runState) (source kind payload : string) : RunEvent := {|
  ev_RunID := id rs; ev_Seq := eventSeq rs + 1; ev_At := now w;
  ev_Source := if decide (source = "") then "codebridge" else source;
  ev_Kind := kind; ev_Payload := payload |}.

Definition appendRuntimeEventLocked (w : world) (rs : runState) (source kind payload : string)
    (m : RunManager) : runState * RunManager :=
  let ev := next_event w rs source kind payload in
  let rs := set_journal (eventSeq rs + 1) (journal rs) (journalNext rs) (journalKept rs) rs in
  let rs := journal_push ev rs in
  (rs, publishRuntimeEventLocked ev (store_write w (appendEvent ev) m)).

(** *** Transitions *)

(** [transitionLocked]: [None] when the move is not legal. *)
Definition transitionLocked (w : world) (rs : runState) (to : RunStatus) (m : RunManager) :
    option (runState * RunManager) :=
  if negb (canTransition (status rs) to) then None
  else
    let rs :=
      if decide (to = RunRunning)
      then set_lifecycle to (now w) (finishedAt rs) (elapsedMS rs) (done_closed rs) rs
      else if terminalRunStatus to
      then set_lifecycle to (startedAt rs) (now w)
             (if IsZero (startedAt rs) then elapsedMS rs else Z.quot (now w - startedAt rs) 1000000)
             true rs
      else set_lifecycle to (startedAt rs) (finishedAt rs) (elapsedMS rs) (done_closed rs) rs in
    let '(rs, m) := appendRuntimeEventLocked w rs "codebridge" (runStatusEventKind to) "" m in
    Some (rs, persistLocked w rs m).

Definition cancel_life (rs : runState) : runState := set_life ((λ _, true) <$> life rs) rs.

(** [finish] on a run of the manager; [runErr] is the error's text, if any. *)
Definition finish (w : world) (rid : string) (st : RunStatus) (res : SubagentResult)
    (runErr : option string) (m : RunManager) : RunManager :=
  match runs m !! rid with
  | None => m
  | Some rs =>
      if terminalRunStatus (status rs) then m
      else
        let st := if canTransition (status rs) st then st else RunCancelled in
        if negb (canTransition (status rs) st) then m
        else
          let rs := set_outcome (truncateText (res_Output res) subagentMaxOutput) (default "" runErr) rs in
          match transitionLocked w rs st m with
          | None => put_run (cancel_life rs) m
          | Some (rs, m) => put_run (cancel_life rs) m
          end
  end.

(** What the run's own context reported when the executor returned. *)
Inductive ctx_err : Type := CtxNone | CtxDeadline | CtxCanceled.

Definition unknown_status : string := "subagent reported unknown status".

Definition finishOutcome (w : world) (rid : string) (ctx : ctx_err) (res : SubagentResult)
    (execErr : option string) (m : RunManager) : RunManager :=
  match ctx with
  | CtxDeadline => finish w rid RunTimeout res None m
  | CtxCanceled => finish w rid RunCancelled res None m
  | CtxNone =>
      match execErr with
      | Some e => finish w rid RunFailed res (Some e) m
      | None =>
          let '(st, unknown) := statusFromResult (res_Status res) in
          finish w rid st res (if unknown then Some unknown_status else None) m
      end
  end.

(** [recordEvent]. *)
Definition recordEvent (w : world) (rid : string) (line : string) (m : RunManager) : RunManager :=
  match runs m !! rid with
  | None => m
  | Some rs =>
      if terminalRunStatus (status rs) then m
      else
        let len := length (events rs) in
        let rs := set_ring (S (eventTotal rs)) line (<[(eventNext rs `mod` len)%nat := line]> (events rs))
                    (S (eventNext rs))
                    (if decide (eventKept rs < len)%nat then S (eventKept rs) else eventKept rs) rs in
        let '(rs, m) := appendRuntimeEventLocked w rs (Client (spec rs)) "harness.raw" line m in
        put_run rs m
  end.

(** *** Starting *)
Definition zero_event : RunEvent := {|
  ev_RunID := ""; ev_Seq := 0; ev_At := zero_time; ev_Source := ""; ev_Kind := ""; ev_Payload := "" |}.

Definition new_run (cap : nat) (rid : string) (s : RunSpec) : runState := {|
  id := rid; spec := s; status := RunQueued; startedAt := zero_time; finishedAt := zero_time;
  elapsedMS := 0; output := ""; errText := ""; eventTotal := 0; lastEvent := "";
  events := replicate cap ""; eventNext := 0; eventKept := 0;
  eventSeq := 0; journal := replicate cap zero_event; journalNext := 0; journalKept := 0;
  life := Some false; done_closed := false |}.

(** [Start] with the id [newRunID] drew and the preflight's verdict; the caller
    starts the goroutine of the run. *)
Definition Start (w : world) (profiles : list SubagentProfile) (ctx : option string)
    (preflight : RunSpec → option string) (s : RunSpec) (rid : string) (m : RunManager) :
    result run_err (RunManager * AgentRun) :=
  match ctx with
  | Some e => Err (EContext e)
  | None =>
      let s := normalizeRunSpec profiles s in
      _ ← validateRunSpec s;
      match preflight s with
      | Some e => Err (EPreflight e)
      | None =>
          if closed m then Err EManagerClosed
          else
            let rs := new_run (eventCapacity m) rid s in
            let '(rs, m) := appendRuntimeEventLocked w rs "codebridge" "run.queued" "" m in
            mret (persistLocked w rs (put_run rs m), snapshotLocked rs)
      end
  end.

(** *** Loading *)
Definition loadedRunState (snap : AgentRun) (cap : nat) (lastSeq : Z) : runState := {|
  id := run_ID snap;
  spec := {| Workspace := run_Workspace snap; Task := run_Task snap; Client := run_Client snap;
             Agent := run_Agent snap; Model := run_Model snap; Thinking := run_Thinking snap;
             TimeoutSeconds := 0 |};
  status := if terminalRunStatus (run_Status snap) then run_Status snap else RunInterrupted;
  startedAt := run_StartedAt snap; finishedAt := run_FinishedAt snap;
  elapsedMS := run_ElapsedMS snap; output := run_Output snap; errText := run_Error snap;
  eventTotal := run_EventCount snap; lastEvent := run_LastEvent snap;
  events := replicate cap ""; eventNext := 0; eventKept := 0;
  eventSeq := lastSeq; journal := replicate cap zero_event; journalNext := 0; journalKept := 0;
  life := None; done_closed := true |}.

(** The options of [NewRunManager] that are data; those that install a function
    (executor, preflight, root context) are the inputs of the steps. *)
Inductive RunManagerOption : Type :=
  | WithMaxConcurrent (n : Z)
  | WithEventCapacity (n : Z)
  | WithStore (path : string).

Definition defaultRunConcurrency : Z := subagentMaxConcurrent.

Definition apply_option (cfg : Z * Z * string) (o : RunManagerOption) : Z * Z * string :=
  let '(conc, cap, path) := cfg in
  match o with
  | WithMaxConcurrent n => (if decide (0 < n) then n else conc, cap, path)
  | WithEventCapacity n => (conc, if decide (0 < n) then n else cap, path)
  | WithStore p => (conc, cap, p)
  end.

(** [NewRunManager] on the contents of the database file; [db_up] says whether
    the store opened. *)
Definition NewRunManager (w : world) (opts : list RunManagerOption) (file : runStore) : RunManager :=
  let '(conc, cap, path) :=
    foldl apply_option (defaultRunConcurrency, defaultRunEventCapacity, "") opts in
  let st := if db_up w then openRunStore path (now w) file else None in
  {| maxConcurrent := conc; eventCapacity := Z.to_nat cap; store := st;
     runs := match st with
             | None => ∅
             | Some s =>
                 foldl (λ m snap, <[run_ID snap := loadedRunState snap (Z.to_nat cap) (lastSeq (run_ID snap) s)]> m)
                   ∅ (all s)
             end;
     subscribers := ∅; subNext := 0; closed := false; root_cancelled := false |}.

(** *** Reading *)

Definition set_last_seq (seq : Z) (s : AgentRun) : AgentRun := {|
  run_ID := run_ID s; run_Workspace := run_Workspace s; run_Client := run_Client s;
  run_Agent := run_Agent s; run_Model := run_Model s; run_Thinking := run_Thinking s;
  run_Task := run_Task s; run_Status := run_Status s; run_StartedAt := run_StartedAt s;
  run_FinishedAt := run_FinishedAt s; run_ElapsedMS := run_ElapsedMS s; run_Output := run_Output s;
  run_Error := run_Error s; run_EventCount := run_EventCount s; run_LastEvent := run_LastEvent s;
  run_LastSeq := seq |}.

(** [Get], with the caching of a run found in the store. *)
Definition Get (w : world) (rid : string) (m : RunManager) : RunManager * option AgentRun :=
  match runs m !! rid with
  | Some rs => (m, Some (snapshotLocked rs))
  | None =>
      match store m with
      | None => (m, None)
      | Some s =>
          if negb (db_up w) then (m, None)
          else
            match get rid s with
            | None => (m, None)
            | Some snap =>
                let seq := lastSeq rid s in
                (put_run (loadedRunState snap (eventCapacity m) seq) m,
                 Some (set_last_seq seq snap))
            end
      end
  end.

(** The order of [List]: newest first, then the greater id. *)
Definition listed_before (a b : AgentRun) : Prop :=
  if decide (run_StartedAt a = run_StartedAt b) then string_gt (run_ID b) (run_ID a) = false
  else run_StartedAt b < run_StartedAt a.
#[export] Instance listed_before_dec a b : Decision (listed_before a b).
Proof. unfold listed_before. case_decide; apply _. Defined.

(** [List] (without the method's conventional name). *)
Definition ListRuns (limit : Z) (m : RunManager) : list AgentRun :=
  let out := merge_sort listed_before (snapshotLocked <$> (map_to_list (runs m)).*2) in
  if bool_decide (0 < limit) && bool_decide (limit < Z.of_nat (length out))
  then take (Z.to_nat limit) out else out.

(** [Events]: the loop over the last [n] ring slots. *)
Definition Events (rid : string) (limit : Z) (m : RunManager) : list string :=
  match runs m !! rid with
  | None => []
  | Some rs =>
      let n := if bool_decide (0 < limit) && bool_decide (limit < Z.of_nat (eventKept rs))
               then Z.to_nat limit else eventKept rs in
      (λ i, default "" (events rs !! (i `mod` length (events rs))%nat)) <$> seq (eventTotal rs - n) n
  end.

(** The loop of [EventsAfter] over the ring. *)
Fixpoint collect (afterSeq limit : Z) (kept : nat) (evs : list RunEvent) : list RunEvent :=
  match evs with
  | [] => []
  | ev :: evs =>
      if decide (ev_Seq ev ≤ afterSeq) then collect afterSeq limit kept evs
      else if decide (limit ≤ Z.of_nat (S kept)) then [ev]
      else ev :: collect afterSeq limit (S kept) evs
  end.

Definition ring_events (rs : runState) : list RunEvent :=
  (λ i, default zero_event (journal rs !! (i `mod` length (journal rs))%nat)) <$>
    seq (journalNext rs - journalKept rs) (journalKept rs).

(** [EventsAfter]; [db_up] says whether the store's query succeeds. *)
Definition EventsAfter (w : world) (runID : string) (afterSeq limit : Z) (m : RunManager) : list RunEvent :=
  let limit := if decide (limit ≤ 0) then Z.of_nat (eventCapacity m) else limit in
  let from_ring :=
    match runs m !! runID with
    | None => []
    | Some rs => collect afterSeq limit 0 (ring_events rs)
    end in
  match store m with
  | Some s => if db_up w then eventsAfter runID afterSeq limit s else from_ring
  | None => from_ring
  end.

(** *** Cancelling, waiting, subscribing, closing *)

(** The run's context is done: its own, or the root it derives from. *)
Definition life_done (m : RunManager) (rs : runState) : bool :=
  match life rs with Some b => b || root_cancelled m | None => true end.

(** [Cancel]. A run loaded from the store has no [lifeStop]: calling the nil
    function panics. *)
Inductive cancelled : Type := CancelNotFound | CancelPanics | CancelOk (m : RunManager).

Definition Cancel (rid : string) (m : RunManager) : cancelled :=
  match runs m !! rid with
  | None => CancelNotFound
  | Some rs =>
      match life rs with
      | None => CancelPanics
      | Some _ => CancelOk (put_run (cancel_life rs) m)
      end
  end.

(** [Wait] when it does not block: the snapshot of a run that is done. *)
Definition Wait (rid : string) (m : RunManager) : option AgentRun :=
  match runs m !! rid with
  | Some rs => if done_closed rs then Some (snapshotLocked rs) else None
  | None => store m ≫= get rid
  end.

Definition defaultRunSubscriberBuffer : Z := 64.
Definition maxRunSubscriberBuffer : Z := 1024.

(** [SubscribeEvents]: the new subscriber's id, or [None] for the closed
    channel of a closed manager. *)
Definition SubscribeEvents (runID : string) (buffer : Z) (m : RunManager) : RunManager * option Z :=
  let buffer := if decide (buffer ≤ 0) then defaultRunSubscriberBuffer else buffer in
  let buffer := if decide (maxRunSubscriberBuffer < buffer) then maxRunSubscriberBuffer else buffer in
  if closed m then (m, None)
  else
    let sid := (subNext m + 1) `mod` 2 ^ 64 in
    (set_subscribers
       (<[sid := {| sub_runID := runID; sub_cap := Z.to_nat buffer; sub_queue := [] |}]> (subscribers m))
       sid m, Some sid).

(** The [cancel] function [SubscribeEvents] returns. *)
Definition Unsubscribe (sid : Z) (m : RunManager) : RunManager :=
  set_subscribers (delete sid (subscribers m)) (subNext m) m.

(** A receive from a subscriber's channel. *)
Definition Receive (sid : Z) (m : RunManager) : RunManager * option RunEvent :=
  match subscribers m !! sid with
  | Some {| sub_runID := r; sub_cap := c; sub_queue := ev :: q |} =>
      (set_subscribers (<[sid := {| sub_runID := r; sub_cap := c; sub_queue := q |}]> (subscribers m))
         (subNext m) m, Some ev)
  | _ => (m, None)
  end.

(** [Close] up to the wait for the runs' goroutines. *)
Definition Close (m : RunManager) : RunManager :=
  if closed m then m
  else {| maxConcurrent := maxConcurrent m; eventCapacity := eventCapacity m; store := store m;
          runs := runs m; subscribers := ∅; subNext := subNext m; closed := true;
          root_cancelled := true |}.
