(* ===== verification/AgentSteps.v ===== *)
(** * The run manager at work

    The goroutine of each run ([RunManager.run] in
    [src/internal/agentops/run_manager.go]) as steps that interleave with the
    calls of the manager's clients, and the invariants of every reachable
    state. *)

From S2P Require Import Prelude Entities GoStrings AgentRuns.
Open Scope Z_scope.

(** Where the goroutine of a run is: at the [select] for a slot, past it, or in
    the executor. It has returned when it is not in [procs]. *)
Inductive phase : Type := Waiting | Acquired | Executing.
#[export] Instance phase_eq_dec : EqDecision phase.
Proof. solve_decision. Defined.

Record system : Type := {
  mgr : RunManager;
  procs : gmap string phase;
  sem : Z (* permits taken *)
}.

Inductive event : Type :=
  | SStart (w : world) (profiles : list SubagentProfile) (ctx : option string)
      (preflight : RunSpec → option string) (s : RunSpec) (rid : string)
  | SAcquire (rid : string)
  | SAbandon (w : world) (rid : string)
  | SBegin (w : world) (rid : string)
  | SLine (w : world) (rid line : string)
  | SReturn (w : world) (rid : string) (ctx : ctx_err) (res : SubagentResult) (execErr : option string)
  | SCancel (rid : string)
  | SGet (w : world) (rid : string)
  | SSubscribe (runID : string) (buffer : Z)
  | SUnsubscribe (sid : Z)
  | SReceive (sid : Z)
  | SClose.

Definition with_mgr (m : RunManager) (s : system) : system :=
  {| mgr := m; procs := procs s; sem := sem s |}.

(** The goroutine returns; [held] says whether the deferred release runs. *)
Definition proc_end (rid : string) (held : bool) (m : RunManager) (s : system) : system := {|
  mgr := m; procs := delete rid (procs s); sem := if held then sem s - 1 else sem s |}.

(** The executor's context error is that of the run's context, or a deadline if
    the run has a budget. *)
Definition ctx_possible (m : RunManager) (rs : runState) (ctx : ctx_err) : bool :=
  match ctx with
  | CtxNone => negb (life_done m rs)
  | CtxCanceled => life_done m rs
  | CtxDeadline => bool_decide (0 < TimeoutSeconds (spec rs))
  end.

(** [None]: the step is not possible in this state. *)
Definition step (s : system) (ev : event) : option system :=
  let m := mgr s in
  match ev with
  | SStart w profiles ctx preflight sp rid =>
      (* the 128 random bits of an id do not repeat *)
      if decide (is_Some (runs m !! rid)) then None
      else
        match Start w profiles ctx preflight sp rid m with
        | Err _ => Some s
        | Ok (m, _) => Some {| mgr := m; procs := <[rid := Waiting]> (procs s); sem := sem s |}
        end
  | SAcquire rid =>
      if bool_decide (procs s !! rid = Some Waiting) && bool_decide (sem s < maxConcurrent m)
      then Some {| mgr := m; procs := <[rid := Acquired]> (procs s); sem := sem s + 1 |}
      else None
  | SAbandon w rid =>
      match procs s !! rid, runs m !! rid with
      | Some Waiting, Some rs =>
          if life_done m rs
          then Some (proc_end rid false (finish w rid RunCancelled zero_result None m) s)
          else None
      | _, _ => None
      end
  | SBegin w rid =>
      match procs s !! rid, runs m !! rid with
      | Some Acquired, Some rs =>
          if life_done m rs
          then Some (proc_end rid true (finish w rid RunCancelled zero_result None m) s)
          else
            match transitionLocked w rs RunRunning m with
            | None => Some (proc_end rid true m s)
            | Some (rs, m) =>
                Some {| mgr := put_run rs m; procs := <[rid := Executing]> (procs s); sem := sem s |}
            end
      | _, _ => None
      end
  | SLine w rid line => Some (with_mgr (recordEvent w rid line m) s)
  | SReturn w rid ctx res execErr =>
      match procs s !! rid, runs m !! rid with
      | Some Executing, Some rs =>
          if ctx_possible m rs ctx
          then Some (proc_end rid true (finishOutcome w rid ctx res execErr m) s)
          else None
      | _, _ => None
      end
  | SCancel rid =>
      match Cancel rid m with
      | CancelNotFound => Some s
      | CancelPanics => None
      | CancelOk m => Some (with_mgr m s)
      end
  | SGet w rid => Some (with_mgr (Get w rid m).1 s)
  | SSubscribe runID buffer => Some (with_mgr (SubscribeEvents runID buffer m).1 s)
  | SUnsubscribe sid => Some (with_mgr (Unsubscribe sid m) s)
  | SReceive sid => Some (with_mgr (Receive sid m).1 s)
  | SClose => Some (with_mgr (Close m) s)
  end.

(** The states a new manager reaches. *)
Definition start_system (m : RunManager) : system := {| mgr := m; procs := ∅; sem := 0 |}.

Inductive reachable (s0 : system) : system → Prop :=
  | reach_start : reachable s0 s0
  | reach_step s ev s' : reachable s0 s → step s ev = Some s' → reachable s0 s'.

(** ** The effect of the manager's operations on its runs *)

(** The run after [appendRuntimeEventLocked]. *)
Definition push_event (w : world) (source kind payload : string) (rs : runState) : runState :=
  journal_push (next_event w rs source kind payload)
    (set_journal (eventSeq rs + 1) (journal rs) (journalNext rs) (journalKept rs) rs).

Lemma append_run w rs src kind pl m :
  (appendRuntimeEventLocked w rs src kind pl m).1 = push_event w src kind pl rs.
Proof. done. Qed.

(** Operations that leave everything but the store and the subscribers. *)
Definition same_runs (m m' : RunManager) : Prop :=
  runs m' = runs m ∧ maxConcurrent m' = maxConcurrent m ∧ eventCapacity m' = eventCapacity m ∧
  closed m' = closed m ∧ root_cancelled m' = root_cancelled m ∧ subNext m' = subNext m ∧
  (is_Some (store m') ↔ is_Some (store m)).

#[export] Instance same_runs_refl : Reflexive same_runs.
Proof. by intros m. Qed.
#[export] Instance same_runs_trans : Transitive same_runs.
Proof.
  unfold same_runs. intros m1 m2 m3 (?&?&?&?&?&?&E1) (?&?&?&?&?&?&E2).
  split_and!; [congruence..|by rewrite E2].
Qed.

Lemma store_write_same w f m : same_runs m (store_write w f m).
Proof.
  unfold store_write. destruct (db_up w); [|done]. split_and!; try done.
  simpl. by rewrite fmap_is_Some.
Qed.

Lemma append_same w rs src kind pl m :
  same_runs m (appendRuntimeEventLocked w rs src kind pl m).2.
Proof.
  unfold appendRuntimeEventLocked. cbn [snd]. etrans; [apply store_write_same|]. by split_and!.
Qed.

Lemma persist_same w rs m : same_runs m (persistLocked w rs m).
Proof. apply store_write_same. Qed.

(** Everything but the status fields and the events of a run. *)
Lemma push_event_fields w src kind pl rs :
  let rs' := push_event w src kind pl rs in
  id rs' = id rs ∧ spec rs' = spec rs ∧ status rs' = status rs ∧ startedAt rs' = startedAt rs ∧
  finishedAt rs' = finishedAt rs ∧ elapsedMS rs' = elapsedMS rs ∧ output rs' = output rs ∧
  errText rs' = errText rs ∧ eventTotal rs' = eventTotal rs ∧ life rs' = life rs ∧
  done_closed rs' = done_closed rs ∧ eventSeq rs' = eventSeq rs + 1 ∧
  events rs' = events rs ∧ eventNext rs' = eventNext rs ∧ eventKept rs' = eventKept rs.
Proof. unfold push_event, journal_push. by destruct (decide _). Qed.

Lemma journal_push_length ev rs : length (journal (journal_push ev rs)) = length (journal rs).
Proof. unfold journal_push. case_decide; simpl; [done|]. by rewrite length_insert. Qed.

(** The status fields a transition sets. *)
Definition moved (w : world) (to : RunStatus) (rs : runState) : runState :=
  if decide (to = RunRunning)
  then set_lifecycle to (now w) (finishedAt rs) (elapsedMS rs) (done_closed rs) rs
  else if terminalRunStatus to
  then set_lifecycle to (startedAt rs) (now w)
         (if IsZero (startedAt rs) then elapsedMS rs else Z.quot (now w - startedAt rs) 1000000) true rs
  else set_lifecycle to (startedAt rs) (finishedAt rs) (elapsedMS rs) (done_closed rs) rs.

(** The run after a legal transition. *)
Definition transitioned (w : world) (to : RunStatus) (rs : runState) : runState :=
  push_event w "codebridge" (runStatusEventKind to) "" (moved w to rs).

Lemma transition_spec w rs to m :
  match transitionLocked w rs to m with
  | None => canTransition (status rs) to = false
  | Some (rs', m') => canTransition (status rs) to = true ∧ rs' = transitioned w to rs ∧ same_runs m m'
  end.
Proof.
  unfold transitionLocked. destruct (canTransition _ _); [|done]. cbn [negb]. fold (moved w to rs).
  pose proof (append_run w (moved w to rs) "codebridge" (runStatusEventKind to) "" m) as Hr.
  pose proof (append_same w (moved w to rs) "codebridge" (runStatusEventKind to) "" m) as Hs.
  destruct (appendRuntimeEventLocked _ _ _ _ _ _) as [rs' m']. simpl in Hr, Hs.
  split_and!; [done|done|]. etrans; [done|apply persist_same].
Qed.

Lemma moved_fields w to rs :
  let rs' := moved w to rs in
  id rs' = id rs ∧ spec rs' = spec rs ∧ status rs' = to ∧ output rs' = output rs ∧
  errText rs' = errText rs ∧ eventTotal rs' = eventTotal rs ∧ life rs' = life rs ∧
  eventSeq rs' = eventSeq rs ∧ events rs' = events rs ∧ eventNext rs' = eventNext rs ∧
  eventKept rs' = eventKept rs ∧ journal rs' = journal rs ∧ journalNext rs' = journalNext rs ∧
  journalKept rs' = journalKept rs ∧
  (done_closed rs' = if terminalRunStatus to then true else done_closed rs).
Proof.
  unfold moved. case_decide as H; [by subst to|]. by destruct (terminalRunStatus to).
Qed.

(** ** The status machine *)
Lemma canTransition_cases from to : canTransition from to = true →
  from = RunQueued ∧ (to = RunRunning ∨ to = RunCancelled) ∨
  from = RunRunning ∧ terminalRunStatus to = true.
Proof.
  unfold canTransition, runTransitions. rewrite existsb_exists. intros (x & Hx & Heq).
  apply bool_decide_eq_true in Heq as ->. apply list_elem_of_In in Hx.
  destruct (decide (from = RunQueued)) as [->|]; [left; set_solver|].
  destruct (decide (from = RunRunning)) as [->|]; [right|by apply elem_of_nil in Hx].
  split; [done|]. by apply one_of_spec.
Qed.

Lemma terminal_no_successor from to : terminalRunStatus from = true → canTransition from to = false.
Proof.
  intros Ht. destruct (canTransition from to) eqn:E; [|done].
  by destruct (canTransition_cases _ _ E) as [[-> _]|[-> _]].
Qed.

(** The run [finish] leaves. *)
Definition finished (w : world) (st : RunStatus) (res : SubagentResult) (err : option string)
    (rs : runState) : runState :=
  let st := if canTransition (status rs) st then st else RunCancelled in
  cancel_life (transitioned w st
    (set_outcome (truncateText (res_Output res) subagentMaxOutput) (default "" err) rs)).

Lemma finish_spec w rid st res err m rs : runs m !! rid = Some rs → id rs = rid →
  let m' := finish w rid st res err m in
  let to := if canTransition (status rs) st then st else RunCancelled in
  if canTransition (status rs) to && negb (terminalRunStatus (status rs))
  then ∃ m1, same_runs m m1 ∧ m' = put_run (finished w st res err rs) m1
  else m' = m.
Proof.
  intros Hrs Hid. unfold finish. rewrite Hrs.
  destruct (terminalRunStatus (status rs)); [by rewrite andb_false_r|]. rewrite andb_true_r.
  cbv zeta. set (to := if canTransition (status rs) st then st else RunCancelled).
  destruct (canTransition (status rs) to) eqn:Hto; [|done]. cbn [negb].
  set (rs1 := set_outcome _ _ rs).
  pose proof (transition_spec w rs1 to m) as Ht.
  destruct (transitionLocked w rs1 to m) as [[rs2 m2]|].
  - destruct Ht as (_&->&Hs). by exists m2.
  - change (status rs1) with (status rs) in Ht. congruence.
Qed.
