(* ===== verification/AgentInv.v ===== *)
(** * Invariants of the run manager

    Every step moves a run along its status machine or leaves it, keeps its two
    rings and its event numbering, and keeps the goroutines, the permits and the
    statuses in agreement. *)

From S2P Require Import Prelude Entities GoStrings AgentRuns AgentSteps.
Open Scope Z_scope.

(** ** One run *)

(** The journal ring of a run started here: the last of its events, numbered
    from 1 without a gap. *)
Definition journal_history (rs : runState) (h : list RunEvent) : Prop :=
  ring_ok (journal rs) (journalNext rs) (journalKept rs) h ∧
  ev_Seq <$> h = seqZ 1 (eventSeq rs) ∧ Forall (λ ev, ev_RunID ev = id rs) h.

Record run_ok (cap : nat) (rs : runState) : Prop := {
  ro_status : status rs = RunQueued ∨ status rs = RunRunning ∨ terminalRunStatus (status rs) = true;
  ro_done : done_closed rs = terminalRunStatus (status rs);
  ro_lens : length (events rs) = cap ∧ length (journal rs) = cap;
  ro_seq : is_Some (life rs) → 0 ≤ eventSeq rs;
  ro_ring : ∃ h, ring_ok (events rs) (eventNext rs) (eventKept rs) h;
  ro_total : is_Some (life rs) → eventTotal rs = eventNext rs;
  ro_journal : is_Some (life rs) → ∃ h, journal_history rs h;
  ro_loaded : life rs = None →
    terminalRunStatus (status rs) = true ∧ eventKept rs = 0%nat ∧ journalKept rs = 0%nat
}.

Lemma journal_history_cancel rs h : journal_history rs h → journal_history (cancel_life rs) h.
Proof. done. Qed.

(** An event extends the history by its next number. *)
Lemma journal_history_push cap w src kind pl rs h :
  (0 < cap)%nat → length (journal rs) = cap → 0 ≤ eventSeq rs → journal_history rs h →
  journal_history (push_event w src kind pl rs) (h ++ [next_event w rs src kind pl]).
Proof.
  intros Hcap Hlen Hseq (Hr&Hs&Hid).
  destruct (push_event_fields w src kind pl rs) as (Hidf&_&_&_&_&_&_&_&_&_&_&Hsf&_).
  split_and!.
  - unfold push_event, journal_push; simpl. rewrite decide_False by lia. simpl.
    apply ring_push_ok; [lia|done].
  - rewrite Hsf, fmap_app, Hs. replace (eventSeq rs + 1) with (Z.succ (eventSeq rs)) by lia.
    rewrite <-(Z2Nat.id (eventSeq rs)) at 1 2 by done. rewrite <-Nat2Z.inj_succ, seqZ_S.
    f_equal. simpl. f_equal. lia.
  - rewrite Hidf. apply Forall_app. split; [done|]. by constructor.
Qed.

Lemma run_ok_push cap w src kind pl rs : (0 < cap)%nat → is_Some (life rs) →
  run_ok cap rs → run_ok cap (push_event w src kind pl rs).
Proof.
  intros Hcap Hl [H1 H2 [H3 H3'] H4 H5 H6 H7 H8].
  destruct (push_event_fields w src kind pl rs)
    as (Eid&Esp&Est&_&_&_&_&_&Etot&Elife&Edone&Eseq&Eev&Enext&Ekept).
  split; rewrite ?Est, ?Edone, ?Elife, ?Eev, ?Enext, ?Ekept, ?Etot; try done.
  - split; [done|]. unfold push_event. by rewrite journal_push_length.
  - rewrite Eseq. intros _. specialize (H4 Hl). lia.
  - intros _. destruct (H7 Hl) as [h Hh]. eexists.
    apply (journal_history_push cap); [done|done|by apply H4|exact Hh].
  - intros E. rewrite E in Hl. by destruct Hl.
Qed.

(** The status fields move without touching the rings. *)
Lemma run_ok_moved cap w to rs : canTransition (status rs) to = true → is_Some (life rs) →
  run_ok cap rs → run_ok cap (moved w to rs).
Proof.
  intros Hc Hl [H1 H2 H3 H4 H5 H6 H7 H8].
  destruct (moved_fields w to rs)
    as (Eid&_&Est&_&_&Etot&Elife&Eseq&Eev&Enext&Ekept&Ej&Ejn&Ejk&Edone).
  assert (Hto : to = RunRunning ∨ terminalRunStatus to = true)
    by (destruct (canTransition_cases _ _ Hc) as [[_ [->| ->]]|[_ ?]]; auto).
  assert (Hnt : terminalRunStatus (status rs) = false).
  { destruct (terminalRunStatus (status rs)) eqn:E; [|done].
    by rewrite terminal_no_successor in Hc. }
  split; rewrite ?Est, ?Etot, ?Elife, ?Eseq, ?Eev, ?Enext, ?Ekept, ?Ej; try done.
  - destruct Hto; auto.
  - rewrite Edone. destruct Hto as [->|Ht]; [by rewrite H2, Hnt|by rewrite Ht].
  - intros _. destruct (H7 Hl) as (h&Hr&Hs&Hf). exists h.
    split_and!; rewrite ?Ej, ?Ejn, ?Ejk, ?Eseq, ?Eid; done.
  - intros E. rewrite E in Hl. by destruct Hl.
Qed.

Lemma run_ok_transitioned cap w to rs : (0 < cap)%nat → canTransition (status rs) to = true →
  is_Some (life rs) → run_ok cap rs → run_ok cap (transitioned w to rs).
Proof.
  intros Hcap Hc Hl Hok. apply run_ok_push; [done| |by apply run_ok_moved].
  destruct (moved_fields w to rs) as (_&_&_&_&_&_&->&_). done.
Qed.

Lemma run_ok_cancel cap rs : run_ok cap rs → run_ok cap (cancel_life rs).
Proof.
  intros [H1 H2 H3 H4 H5 H6 H7 H8]. split; simpl; try done; rewrite ?fmap_is_Some; auto.
  intros E. apply H8. by destruct (life rs).
Qed.

Lemma run_ok_outcome cap out err rs : run_ok cap rs → run_ok cap (set_outcome out err rs).
Proof. intros [H1 H2 H3 H4 H5 H6 H7 H8]. by split. Qed.

(** The fields of a run [recordEvent] sets before the journal's. *)
Definition ring_line (line : string) (rs : runState) : runState :=
  set_ring (S (eventTotal rs)) line (ring_push line (events rs) (eventNext rs)) (S (eventNext rs))
    (if decide (eventKept rs < length (events rs))%nat then S (eventKept rs) else eventKept rs) rs.

Definition recorded (w : world) (line : string) (rs : runState) : runState :=
  push_event w (Client (spec rs)) "harness.raw" line (ring_line line rs).

Lemma run_ok_recorded cap w line rs : (0 < cap)%nat → is_Some (life rs) → run_ok cap rs →
  run_ok cap (recorded w line rs).
Proof.
  intros Hcap Hl [H1 H2 [H3 H3'] H4 [h H5] H6 H7 H8]. apply run_ok_push; [done|done|].
  split; simpl; try done.
  - split; [|done]. unfold ring_push. by rewrite length_insert.
  - exists (h ++ [line]). apply ring_push_ok; [lia|done].
  - intros _. by rewrite H6.
  - intros E. rewrite E in Hl. by destruct Hl.
Qed.

(** *** How a run evolves in one step *)

(** The part of a run that a terminal status freezes. *)
Definition same_outcome (rs rs' : runState) : Prop :=
  status rs' = status rs ∧ startedAt rs' = startedAt rs ∧ finishedAt rs' = finishedAt rs ∧
  elapsedMS rs' = elapsedMS rs ∧ output rs' = output rs ∧ errText rs' = errText rs ∧
  eventTotal rs' = eventTotal rs ∧ lastEvent rs' = lastEvent rs ∧ eventSeq rs' = eventSeq rs.

Record evolves (cap : nat) (rs rs' : runState) : Prop := {
  ev_id : id rs' = id rs;
  ev_spec : spec rs' = spec rs;
  ev_life : is_Some (life rs') ↔ is_Some (life rs);
  ev_status : status rs' = status rs ∨ canTransition (status rs) (status rs') = true;
  ev_frozen : terminalRunStatus (status rs) = true → same_outcome rs rs';
  ev_ok : run_ok cap rs → run_ok cap rs'
}.

Lemma evolves_refl cap rs : evolves cap rs rs.
Proof. split; try done; try (by left). Qed.

Lemma evolves_cancel cap rs : evolves cap rs (cancel_life rs).
Proof.
  split; try done; try (by left); [by simpl; rewrite fmap_is_Some|apply run_ok_cancel].
Qed.

Lemma evolves_transitioned cap w to rs : (0 < cap)%nat → canTransition (status rs) to = true →
  is_Some (life rs) → evolves cap rs (transitioned w to rs).
Proof.
  intros Hcap Hc Hl. unfold transitioned.
  destruct (push_event_fields w "codebridge" (runStatusEventKind to) "" (moved w to rs))
    as (Eid&Esp&Est&_&_&_&_&_&_&Elife&_).
  destruct (moved_fields w to rs) as (Mid&Msp&Mst&_&_&_&Mlife&_).
  split; rewrite ?Eid, ?Esp, ?Est, ?Elife, ?Mid, ?Msp, ?Mst, ?Mlife; try done; [by right| |].
  - intros Ht. by rewrite terminal_no_successor in Hc.
  - intros Hok. by apply run_ok_transitioned.
Qed.

Lemma evolves_recorded cap w line rs : (0 < cap)%nat → terminalRunStatus (status rs) = false →
  is_Some (life rs) → evolves cap rs (recorded w line rs).
Proof.
  intros Hcap Ht Hl. unfold recorded.
  destruct (push_event_fields w (Client (spec rs)) "harness.raw" line (ring_line line rs))
    as (Eid&Esp&Est&_&_&_&_&_&_&Elife&_).
  split; rewrite ?Eid, ?Esp, ?Est, ?Elife; try done; [by left|congruence|].
  intros Hok. by apply run_ok_recorded.
Qed.

Lemma evolves_finished cap w st res err rs : (0 < cap)%nat →
  canTransition (status rs) (if canTransition (status rs) st then st else RunCancelled) = true →
  is_Some (life rs) → evolves cap rs (finished w st res err rs).
Proof.
  intros Hcap Hc Hl. unfold finished. set (to := if canTransition _ _ then _ else _) in *.
  set (rs1 := set_outcome _ _ rs).
  destruct (evolves_transitioned cap w to rs1 Hcap Hc Hl) as [E1 E2 E3 E4 E5 E6].
  destruct (evolves_cancel cap (transitioned w to rs1)) as [F1 F2 F3 F4 F5 F6].
  split; simpl in *; try congruence.
  - by rewrite F3, E3.
  - intros Ht. by rewrite terminal_no_successor in Hc.
  - intros Hok. by apply F6, E6, run_ok_outcome.
Qed.

(** ** One step of the system *)

(** What a manager operation does to the table of runs. *)
Inductive runs_step (m m' : RunManager) : Prop :=
  | rs_same : runs m' = runs m → runs_step m m'
  | rs_update rid rs rs' : runs m !! rid = Some rs → runs m' = <[rid := rs']> (runs m) →
      evolves (eventCapacity m) rs rs' → runs_step m m'
  | rs_new rid rs : runs m !! rid = None → runs m' = <[rid := rs]> (runs m) → id rs = rid →
      run_ok (eventCapacity m) rs → runs_step m m'.

Definition same_config (m m' : RunManager) : Prop :=
  maxConcurrent m' = maxConcurrent m ∧ eventCapacity m' = eventCapacity m.

(** Every run is stored under its own id, in a good state. *)
Record runs_ok (m : RunManager) : Prop := {
  mo_cap : (0 < eventCapacity m)%nat;
  mo_max : 0 < maxConcurrent m;
  mo_runs : ∀ rid rs, runs m !! rid = Some rs → id rs = rid ∧ run_ok (eventCapacity m) rs
}.

Lemma runs_ok_step m m' : runs_ok m → runs_step m m' → same_config m m' → runs_ok m'.
Proof.
  intros [H1 H2 H3] Hs [E1 E2]. split; rewrite ?E1, ?E2; [done..|].
  intros rid rs Hrs. destruct Hs as [E|rid' r0 r1 Hr E Hev|rid' r0 Hr E Hid Hok]; rewrite E in Hrs.
  - by apply H3.
  - apply lookup_insert_Some in Hrs as [[<- <-]|[_ Hrs]]; [|by apply H3].
    destruct (H3 _ _ Hr) as [Hid Hok]. split; [by rewrite (ev_id _ _ _ Hev)|by apply (ev_ok _ _ _ Hev)].
  - apply lookup_insert_Some in Hrs as [[<- <-]|[_ Hrs]]; [done|by apply H3].
Qed.

Lemma new_run_ok cap rid sp : run_ok cap (new_run cap rid sp).
Proof.
  split; simpl; try done; [by left|by rewrite !length_replicate| |].
  - exists []. apply ring_empty.
  - intros _. exists []. split_and!; [apply ring_empty|done|by constructor].
Qed.

Lemma loaded_run_ok cap snap seq : run_ok cap (loadedRunState snap cap seq).
Proof.
  assert (Ht : terminalRunStatus (status (loadedRunState snap cap seq)) = true).
  { simpl. by destruct (terminalRunStatus (run_Status snap)) eqn:E. }
  split.
  - by right; right.
  - by rewrite Ht.
  - simpl. by rewrite !length_replicate.
  - by intros [].
  - exists []. apply ring_empty.
  - by intros [].
  - by intros [].
  - done.
Qed.

Lemma new_run_queued_ok cap w rid sp : (0 < cap)%nat →
  run_ok cap (push_event w "codebridge" "run.queued" "" (new_run cap rid sp)).
Proof. intros Hcap. apply run_ok_push; [done|done|apply new_run_ok]. Qed.

Lemma Start_spec w profiles ctx pre sp rid m m' snap :
  Start w profiles ctx pre sp rid m = Ok (m', snap) →
  ctx = None ∧ closed m = false ∧
  let sp' := normalizeRunSpec profiles sp in
  validateRunSpec sp' = Ok () ∧ pre sp' = None ∧
  let rs := push_event w "codebridge" "run.queued" "" (new_run (eventCapacity m) rid sp') in
  runs m' = <[rid := rs]> (runs m) ∧ snap = snapshotLocked rs ∧ same_config m m' ∧
  root_cancelled m' = root_cancelled m ∧ closed m' = closed m.
Proof.
  unfold Start. destruct ctx; [done|]. intros H.
  destruct (validateRunSpec _) as [[]|]; [|done].
  cbv [mbind result_bind mret result_ret] in H.
  destruct (pre _) eqn:Hp; [done|]. destruct (closed m) eqn:Hc; [done|].
  set (rs0 := new_run _ rid _) in *.
  pose proof (append_run w rs0 "codebridge" "run.queued" "" m) as Hr.
  pose proof (append_same w rs0 "codebridge" "run.queued" "" m) as (F1&F2&F3&F4&F5&_).
  destruct (appendRuntimeEventLocked w rs0 _ _ _ m) as [rs1 m1].
  cbn [fst snd] in *. injection H as <- <-. rewrite <-Hr.
  destruct (persist_same w rs1 (put_run rs1 m1)) as (E1&E2&E3&E4&E5&_).
  destruct (push_event_fields w "codebridge" "run.queued" "" rs0) as [Hid _].
  assert (Hid' : id rs1 = rid) by (rewrite Hr; exact Hid).
  split_and!; try done.
  - etrans; [exact E1|]. unfold put_run; cbn [runs set_runs]. by rewrite F1, Hid'.
  - split; [etrans; [exact E2|exact F2]|etrans; [exact E3|exact F3]].
  - etrans; [exact E5|]. exact F5.
  - etrans; [exact E4|]. cbn [closed put_run set_runs]. congruence.
Qed.

Lemma same_runs_config m m' : same_runs m m' → same_config m m'.
Proof. by intros (_&?&?&_). Qed.

Lemma finish_step w rid st res err m rs : (0 < eventCapacity m)%nat →
  runs m !! rid = Some rs → id rs = rid → is_Some (life rs) →
  runs_step m (finish w rid st res err m) ∧ same_config m (finish w rid st res err m).
Proof.
  intros Hcap Hrs Hid Hl. pose proof (finish_spec w rid st res err m rs Hrs Hid) as H.
  cbv zeta in H. destruct (_ && _) eqn:Hc; [|rewrite H; by split; [by apply rs_same|]].
  apply andb_true_iff in Hc as [Hc _]. destruct H as (m1&Hs&->).
  pose proof (evolves_finished (eventCapacity m) w st res err rs Hcap Hc Hl) as Hev.
  destruct Hs as (E1&E2&E3&_). split; [|done].
  eapply rs_update; [done| |done]. unfold put_run; cbn [runs set_runs].
  by rewrite E1, (ev_id _ _ _ Hev), Hid.
Qed.

Lemma finishOutcome_finish w rid ctx res err m :
  ∃ st e, finishOutcome w rid ctx res err m = finish w rid st res e m ∧
    terminalRunStatus st = true.
Proof.
  unfold finishOutcome. destruct ctx; [|by do 2 eexists..].
  destruct err as [e|]; [by do 2 eexists|].
  unfold statusFromResult. repeat case_match; simplify_eq; by do 2 eexists.
Qed.

Lemma recordEvent_cases w rid line m :
  recordEvent w rid line m = m ∨
  ∃ rs m1, runs m !! rid = Some rs ∧ terminalRunStatus (status rs) = false ∧ same_runs m m1 ∧
    recordEvent w rid line m = put_run (recorded w line rs) m1.
Proof.
  unfold recordEvent. destruct (runs m !! rid) as [rs|] eqn:Hrs; [|by left].
  destruct (terminalRunStatus (status rs)) eqn:Ht; [by left|]. right.
  cbv zeta. fold (ring_push line (events rs) (eventNext rs)). fold (ring_line line rs).
  pose proof (append_run w (ring_line line rs) (Client (spec rs)) "harness.raw" line m) as Hr.
  pose proof (append_same w (ring_line line rs) (Client (spec rs)) "harness.raw" line m) as Hs.
  change (Client (spec (ring_line line rs))) with (Client (spec rs)).
  destruct (appendRuntimeEventLocked _ _ _ _ _ _) as [rs' m']. simpl in Hr, Hs. subst rs'.
  by exists rs, m'.
Qed.

Lemma recorded_fields w line rs :
  let rs' := recorded w line rs in
  id rs' = id rs ∧ status rs' = status rs ∧ life rs' = life rs ∧ eventSeq rs' = eventSeq rs + 1 ∧
  eventTotal rs' = S (eventTotal rs) ∧ events rs' = ring_push line (events rs) (eventNext rs) ∧
  eventNext rs' = S (eventNext rs) ∧
  eventKept rs' = (if decide (eventKept rs < length (events rs))%nat then S (eventKept rs) else eventKept rs).
Proof.
  destruct (push_event_fields w (Client (spec rs)) "harness.raw" line (ring_line line rs))
    as (Eid&_&Est&_&_&_&_&_&Etot&Elife&_&Eseq&Eev&Enext&Ekept).
  by split_and!.
Qed.

Lemma live_run m rid rs : runs_ok m → runs m !! rid = Some rs →
  terminalRunStatus (status rs) = false → is_Some (life rs).
Proof.
  intros Hm Hr Ht. destruct (mo_runs m Hm _ _ Hr) as [_ Hok].
  destruct (life rs) eqn:E; [by eexists|]. destruct (ro_loaded _ _ Hok E) as [? _]. congruence.
Qed.

(** On a run that has not finished, [recordEvent] records. *)
Lemma recordEvent_recorded w rid line m rs : runs_ok m → runs m !! rid = Some rs →
  terminalRunStatus (status rs) = false →
  runs (recordEvent w rid line m) !! rid = Some (recorded w line rs) ∧
  runs (recordEvent w rid line m) = <[rid := recorded w line rs]> (runs m).
Proof.
  intros Hm Hr Ht. assert (E : runs (recordEvent w rid line m) = <[rid := recorded w line rs]> (runs m)).
  { unfold recordEvent. rewrite Hr, Ht. cbv zeta.
    fold (ring_push line (events rs) (eventNext rs)). fold (ring_line line rs).
    change (Client (spec (ring_line line rs))) with (Client (spec rs)).
    pose proof (append_run w (ring_line line rs) (Client (spec rs)) "harness.raw" line m) as Hrs.
    pose proof (append_same w (ring_line line rs) (Client (spec rs)) "harness.raw" line m) as (E1&_).
    destruct (appendRuntimeEventLocked _ _ _ _ _ _) as [rs1 m1]. cbn [fst snd] in *. subst rs1.
    fold (recorded w line rs). unfold put_run; cbn [runs set_runs].
    destruct (mo_runs m Hm _ _ Hr) as [Hid _]. by rewrite E1, (proj1 (recorded_fields w line rs)), Hid. }
  by rewrite E, lookup_insert_eq.
Qed.

Lemma recordEvent_step w rid line m : runs_ok m →
  runs_step m (recordEvent w rid line m) ∧ same_config m (recordEvent w rid line m).
Proof.
  intros Hm. destruct (recordEvent_cases w rid line m) as [->|(rs&m1&Hr&Ht&(E1&E2&E3&_)&->)];
    [by split; [apply rs_same|]|]. split; [|done].
  apply (rs_update _ _ rid rs (recorded w line rs)); [done| |].
  - unfold put_run; cbn [runs set_runs]. destruct (recorded_fields w line rs) as [-> _].
    destruct (mo_runs m Hm _ _ Hr) as [-> _]. by rewrite E1.
  - apply evolves_recorded; [by destruct Hm|done|by eapply live_run].
Qed.

Lemma Cancel_step rid m m' : runs_ok m → Cancel rid m = CancelOk m' →
  runs_step m m' ∧ same_config m m'.
Proof.
  intros Hm. unfold Cancel. destruct (runs m !! rid) as [rs|] eqn:Hrs; [|done].
  destruct (life rs) eqn:Hl; [|done]. intros [= <-]. split; [|done].
  destruct (mo_runs m Hm _ _ Hrs) as [Hid Hok].
  eapply rs_update; [done| |apply evolves_cancel]. simpl. by rewrite Hid.
Qed.

Lemma Get_step w rid m : (∀ s r, store m = Some s → agent_runs s !! rid = Some r → rr_id r = rid) →
  runs_step m (Get w rid m).1 ∧ same_config m (Get w rid m).1.
Proof.
  intros Hst. unfold Get. destruct (runs m !! rid) eqn:Hrs; [by split; [by apply rs_same|]|].
  destruct (store m) as [s|] eqn:Hs; [|by split; [by apply rs_same|]].
  destruct (db_up w); [|by split; [by apply rs_same|]]. cbn [negb].
  unfold get. destruct (agent_runs s !! rid) as [r|] eqn:Hr; [|by split; [by apply rs_same|]].
  simpl. split; [|done]. specialize (Hst s r eq_refl Hr).
  apply (rs_new _ _ rid (loadedRunState (scanRun r) (eventCapacity m) (lastSeq rid s))); [done| |exact Hst|apply loaded_run_ok]. simpl. by rewrite Hst.
Qed.

(** *** The store *)
Definition store_all (P : runStore → Prop) (m : RunManager) : Prop := ∀ s, store m = Some s → P s.

Section store_all.
Context (P : runStore → Prop) (Hup : ∀ snap s, P s → P (upsert snap s))
  (Hev : ∀ ev s, P s → P (appendEvent ev s)).

Lemma store_all_write w f m : (∀ s, P s → P (f s)) → store_all P m → store_all P (store_write w f m).
Proof.
  intros Hf Hm s. unfold store_write. destruct (db_up w); [|apply Hm]. simpl.
  destruct (store m) as [s0|] eqn:E; [|done]. intros [= <-]. by apply Hf, Hm.
Qed.

Lemma store_all_append w rs src kind pl m :
  store_all P m → store_all P (appendRuntimeEventLocked w rs src kind pl m).2.
Proof. intros Hm. apply (store_all_write w); [|done]. intros s. apply Hev. Qed.

Lemma store_all_transition w rs to m rs' m' : store_all P m →
  transitionLocked w rs to m = Some (rs', m') → store_all P m'.
Proof.
  intros Hm. unfold transitionLocked. destruct (negb _); [done|]. fold (moved w to rs).
  pose proof (store_all_append w (moved w to rs) "codebridge" (runStatusEventKind to) "" m Hm) as Ha.
  destruct (appendRuntimeEventLocked _ _ _ _ _ _) as [rs1 m1]. intros [= <- <-].
  apply store_all_write; [|done]. apply Hup.
Qed.

Lemma store_all_finish w rid st res err m : store_all P m → store_all P (finish w rid st res err m).
Proof.
  intros Hm. unfold finish. destruct (runs m !! rid) as [rs|]; [|done].
  destruct (terminalRunStatus _); [done|]. cbv zeta. destruct (negb _); [done|].
  destruct (transitionLocked _ _ _ _) as [[rs1 m1]|] eqn:Ht; [|done].
  by eapply store_all_transition in Ht.
Qed.

Lemma store_all_step s ev s' : store_all P (mgr s) → step s ev = Some s' → store_all P (mgr s').
Proof.
  intros Hm. destruct ev as [w profiles ctx pre sp rid|rid|w rid|w rid|w rid line|w rid ctx res e
    |rid|w rid|run buf|sid|sid|]; simpl.
  - destruct (decide _); [done|]. unfold Start. destruct ctx; [by intros [= <-]|].
    destruct (validateRunSpec _) as [[]|]; cbv [mbind result_bind mret result_ret]; [|by intros [= <-]].
    destruct (pre _); [by intros [= <-]|]. destruct (closed _); [by intros [= <-]|].
    set (rs0 := new_run _ rid _).
    pose proof (store_all_append w rs0 "codebridge" "run.queued" "" (mgr s) Hm) as Ha.
    destruct (appendRuntimeEventLocked w rs0 _ _ _ _) as [rs1 m1]. cbn [snd] in Ha.
    intros [= <-]. apply store_all_write; [|exact Ha]. apply Hup.
  - destruct (_ && _); [|done]. by intros [= <-].
  - destruct (procs s !! rid) as [[]|]; try done. destruct (runs _ !! rid); [|done].
    destruct (life_done _ _); [|done]. intros [= <-]. by apply store_all_finish.
  - destruct (procs s !! rid) as [[]|]; try done. destruct (runs _ !! rid) as [rs|]; [|done].
    destruct (life_done _ _); [intros [= <-]; by apply store_all_finish|].
    destruct (transitionLocked _ _ _ _) as [[rs1 m1]|] eqn:Ht; intros [= <-]; [|done].
    by eapply store_all_transition in Ht.
  - intros [= <-]. simpl. unfold recordEvent. destruct (runs _ !! rid) as [rs|]; [|done].
    destruct (terminalRunStatus _); [done|]. cbv zeta. set (rs1 := set_ring _ _ _ _ _ _).
    pose proof (store_all_append w rs1 (Client (spec rs1)) "harness.raw" line (mgr s) Hm) as Ha.
    by destruct (appendRuntimeEventLocked _ _ _ _ _ _).
  - destruct (procs s !! rid) as [[]|]; try done. destruct (runs _ !! rid); [|done].
    destruct (ctx_possible _ _ _); [|done]. intros [= <-]. simpl.
    destruct (finishOutcome_finish w rid ctx res e (mgr s)) as (st&e'&->&_). by apply store_all_finish.
  - unfold Cancel. destruct (runs _ !! rid) as [rs|]; [|by intros [= <-]].
    destruct (life rs); [|done]. by intros [= <-].
  - intros [= <-]. simpl. unfold Get. destruct (runs _ !! rid); [done|].
    destruct (store (mgr s)) eqn:E; [|done]. destruct (negb _); [done|]. by destruct (get rid _).
  - intros [= <-]. simpl. unfold SubscribeEvents. by destruct (closed _).
  - by intros [= <-].
  - intros [= <-]. simpl. unfold Receive. by destruct (subscribers _ !! sid) as [[? ? []]|].
  - intros [= <-]. simpl. unfold Close. by destruct (closed _).
Qed.
End store_all.

(** Rows are stored under their own id. *)
Definition keys_ok (s : runStore) : Prop := ∀ rid r, agent_runs s !! rid = Some r → rr_id r = rid.

Lemma keys_ok_upsert snap s : keys_ok s → keys_ok (upsert snap s).
Proof. intros Hs rid r. simpl. intros [[<- <-]|[_ H]]%lookup_insert_Some; [done|by apply Hs]. Qed.

(** *** Goroutines and permits *)
Definition phase_status (ph : phase) : RunStatus :=
  match ph with Executing => RunRunning | _ => RunQueued end.
Definition holds (ph : phase) : Prop := ph ≠ Waiting.
#[export] Instance holds_dec ph : Decision (holds ph).
Proof. unfold holds. apply _. Defined.
Definition holders (p : gmap string phase) : gmap string phase := filter (λ kv, holds kv.2) p.

Record sys_ok (s : system) : Prop := {
  so_mgr : runs_ok (mgr s);
  so_keys : store_all keys_ok (mgr s);
  so_procs : ∀ rid ph, procs s !! rid = Some ph →
    ∃ rs, runs (mgr s) !! rid = Some rs ∧ is_Some (life rs) ∧ status rs = phase_status ph;
  so_live : ∀ rid rs, runs (mgr s) !! rid = Some rs → terminalRunStatus (status rs) = false →
    is_Some (procs s !! rid);
  so_sem : sem s = Z.of_nat (size (holders (procs s))) ∧ sem s ≤ maxConcurrent (mgr s)
}.

Lemma holders_insert_hold rid ph p : p !! rid = Some Waiting → holds ph →
  size (holders (<[rid := ph]> p)) = S (size (holders p)).
Proof.
  intros Hp Hh. unfold holders. rewrite map_filter_insert_True by done.
  apply map_size_insert_None. apply map_lookup_filter_None. right. intros ph'. rewrite Hp.
  intros [= <-] Hw. by destruct Hw.
Qed.

Lemma holders_insert_same rid ph ph' p : p !! rid = Some ph → holds ph → holds ph' →
  size (holders (<[rid := ph']> p)) = size (holders p).
Proof.
  intros Hp H1 H2. unfold holders. rewrite map_filter_insert_True by done.
  apply map_size_insert_Some. exists ph. by apply map_lookup_filter_Some.
Qed.

Lemma holders_insert_wait rid p : p !! rid = None →
  size (holders (<[rid := Waiting]> p)) = size (holders p).
Proof.
  intros Hp. unfold holders. rewrite map_filter_insert_False by (by intros []).
  by rewrite delete_id.
Qed.

Lemma holders_delete rid ph p : p !! rid = Some ph →
  Z.of_nat (size (holders (delete rid p))) =
  Z.of_nat (size (holders p)) - (if decide (holds ph) then 1 else 0).
Proof.
  intros Hp. unfold holders. rewrite map_filter_delete. case_decide as Hh.
  - assert (holders p !! rid = Some ph) as Hl by (by apply map_lookup_filter_Some).
    rewrite map_size_delete. unfold holders in Hl. rewrite Hl.
    assert (size (filter (λ kv : string * phase, holds kv.2) p) ≠ 0%nat).
    { intros E. apply map_size_empty_inv in E. by rewrite E, lookup_empty in Hl. }
    lia.
  - rewrite delete_id; [lia|]. apply map_lookup_filter_None. right. intros ph' E.
    rewrite Hp in E. by injection E as <-.
Qed.

(** *** Preservation *)

(** Every run keeps its status; a run that appears has finished. *)
Definition quiet (m m' : RunManager) : Prop := ∀ rid,
  match runs m !! rid with
  | Some rs => ∃ rs', runs m' !! rid = Some rs' ∧ status rs' = status rs ∧
                 (is_Some (life rs) → is_Some (life rs'))
  | None => ∀ rs', runs m' !! rid = Some rs' → terminalRunStatus (status rs') = true
  end.

Lemma quiet_same m m' : runs m' = runs m → quiet m m'.
Proof. intros E rid. rewrite E. destruct (runs m !! rid) as [rs|]; [by exists rs|done]. Qed.

Lemma quiet_update m m' rid rs rs' : runs m !! rid = Some rs → runs m' = <[rid := rs']> (runs m) →
  status rs' = status rs → (is_Some (life rs) → is_Some (life rs')) → quiet m m'.
Proof.
  intros Hr E Hs Hl rid'. rewrite E. destruct (decide (rid' = rid)) as [->|Hne].
  - rewrite Hr, lookup_insert_eq. by exists rs'.
  - rewrite lookup_insert_ne by done. destruct (runs m !! rid') as [r|]; [by exists r|done].
Qed.

(** What a run's goroutine does to the run it drives. *)
Lemma finish_lands w rid st res err m rs : runs_ok m → runs m !! rid = Some rs →
  terminalRunStatus (status rs) = false → terminalRunStatus st = true →
  ∃ rs', runs (finish w rid st res err m) = <[rid := rs']> (runs m) ∧
    terminalRunStatus (status rs') = true.
Proof.
  intros Hm Hr Ht Hst. destruct (mo_runs m Hm _ _ Hr) as [Hid Hok].
  pose proof (finish_spec w rid st res err m rs Hr Hid) as H. cbv zeta in H.
  set (to := if canTransition (status rs) st then st else RunCancelled) in *.
  assert (Hto : canTransition (status rs) to = true ∧ terminalRunStatus to = true).
  { unfold to. destruct (canTransition (status rs) st) eqn:Hc; [done|].
    destruct (ro_status _ _ Hok) as [->|[->|]]; [done|done|congruence]. }
  destruct Hto as [Hc Htt]. rewrite Hc, Ht in H. simpl in H. destruct H as (m1&(E1&_)&->).
  exists (finished w st res err rs).
  assert (Hst' : status (finished w st res err rs) = to ∧ id (finished w st res err rs) = rid).
  { unfold finished. fold to. set (rs1 := set_outcome _ _ rs). unfold cancel_life, transitioned; cbn.
    destruct (push_event_fields w "codebridge" (runStatusEventKind to) "" (moved w to rs1))
      as (Eid&_&Est&_).
    destruct (moved_fields w to rs1) as (Mid&_&Mst&_).
    split; [by etrans; [exact Est|]|]. etrans; [exact Eid|]. etrans; [exact Mid|exact Hid]. }
  destruct Hst' as [Hs Hi]. unfold put_run; cbn [runs set_runs]. by rewrite E1, Hs, Hi.
Qed.

Lemma sys_ok_quiet s m' : sys_ok s → runs_step (mgr s) m' → same_config (mgr s) m' →
  store_all keys_ok m' → quiet (mgr s) m' → sys_ok (with_mgr m' s).
Proof.
  intros [H1 H2 H3 H4 [H5 H6]] Hst Hc Hk Hq.
  split; simpl; [by eapply runs_ok_step|done| | |by rewrite (proj1 Hc)].
  - intros rid ph Hp. destruct (H3 _ _ Hp) as (rs&Hr&Hl&Hs). specialize (Hq rid). rewrite Hr in Hq.
    destruct Hq as (rs'&Hr'&Hs'&Hl'). exists rs'. split_and!; [done|by apply Hl'|congruence].
  - intros rid rs' Hr' Ht. specialize (Hq rid). destruct (runs (mgr s) !! rid) as [rs|] eqn:Hr.
    + destruct Hq as (rs''&Hr''&Hs&_). rewrite Hr' in Hr''. injection Hr'' as <-.
      eapply H4; [done|congruence].
    + by rewrite (Hq _ Hr') in Ht.
Qed.

(** The goroutine of [rid] ends once its run has. *)
Lemma sys_ok_end s rid ph m' rs' : sys_ok s → procs s !! rid = Some ph →
  runs_step (mgr s) m' → same_config (mgr s) m' → store_all keys_ok m' →
  runs m' = <[rid := rs']> (runs (mgr s)) → terminalRunStatus (status rs') = true →
  sys_ok (proc_end rid (bool_decide (holds ph)) m' s).
Proof.
  intros [H1 H2 H3 H4 [H5 H6]] Hp Hst Hc Hk E Ht.
  split; simpl; [by eapply runs_ok_step|done| | |].
  - intros rid' ph' [Hne Hp']%lookup_delete_Some. rewrite E, lookup_insert_ne by done. by apply H3.
  - intros rid' rs. rewrite E. intros [[<- <-]|[Hne Hr]]%lookup_insert_Some Hnt; [congruence|].
    rewrite lookup_delete_ne by done. by eapply H4.
  - rewrite (holders_delete _ _ _ Hp), (proj1 Hc), H5.
    case_bool_decide; [rewrite decide_True by done|rewrite decide_False by done]; lia.
Qed.

(** A finishing step of the goroutine that drives [rid]. *)
Lemma sys_ok_finish s w rid ph st res err : sys_ok s → procs s !! rid = Some ph →
  terminalRunStatus st = true →
  let m' := finish w rid st res err (mgr s) in
  runs_step (mgr s) m' ∧ same_config (mgr s) m' ∧
  sys_ok (proc_end rid (bool_decide (holds ph)) m' s).
Proof.
  intros Hok Hp Hst m'. destruct (so_procs _ Hok _ _ Hp) as (rs&Hr&Hl&Hs).
  destruct (mo_runs _ (so_mgr _ Hok) _ _ Hr) as [Hid Hro].
  destruct (finish_step w rid st res err (mgr s) rs) as [H1 H2]; [|done..|].
  { apply so_mgr in Hok. by destruct Hok. }
  destruct (finish_lands w rid st res err (mgr s) rs) as (rs'&E&Ht);
    [by apply so_mgr|done|by rewrite Hs; destruct ph|done|].
  split_and!; [done|done|]. eapply sys_ok_end; [done|done|done|done| |exact E|done].
  apply store_all_finish; [apply keys_ok_upsert|done|by apply so_keys].
Qed.

Lemma recordEvent_quiet w rid line m : runs_ok m → quiet m (recordEvent w rid line m).
Proof.
  intros Hm. destruct (recordEvent_cases w rid line m) as [->|(rs&m1&Hr&Ht&(E1&_)&->)];
    [by apply quiet_same|]. destruct (mo_runs m Hm _ _ Hr) as [Hid _].
  destruct (recorded_fields w line rs) as (Eid&Est&El&_).
  apply (quiet_update _ _ rid rs (recorded w line rs)); [done| |done|by rewrite El].
  unfold put_run; cbn [runs set_runs]. by rewrite E1, Eid, Hid.
Qed.

Lemma Cancel_quiet rid m m' : runs_ok m → Cancel rid m = CancelOk m' → quiet m m'.
Proof.
  intros Hm. unfold Cancel. destruct (runs m !! rid) as [rs|] eqn:Hr; [|done].
  destruct (life rs) eqn:Hl; [|done]. intros [= <-]. destruct (mo_runs m Hm _ _ Hr) as [Hid _].
  apply (quiet_update _ _ rid rs (cancel_life rs)); [done| |done|by simpl; rewrite Hl].
  simpl. by rewrite Hid.
Qed.

Lemma Get_quiet w rid m : store_all keys_ok m → quiet m (Get w rid m).1.
Proof.
  intros Hk. unfold Get. destruct (runs m !! rid) eqn:Hr; [by apply quiet_same|].
  destruct (store m) as [s|] eqn:Hs; [|by apply quiet_same].
  destruct (negb _); [by apply quiet_same|]. unfold get.
  destruct (agent_runs s !! rid) as [r|] eqn:Hrow; [|by apply quiet_same].
  intros rid'. simpl. rewrite (Hk s Hs _ _ Hrow). destruct (decide (rid' = rid)) as [->|Hne].
  - rewrite Hr, lookup_insert_eq. intros rs' [= <-].
    by destruct (loaded_run_ok 0 (scanRun r) 0) as [_ H _ _ _ _ _ _].
  - rewrite lookup_insert_ne by done. destruct (runs m !! rid') as [rs|]; [by exists rs|done].
Qed.

(** A run starts, queued and driven by a new goroutine. *)
Lemma sys_ok_start s m' rid rs : sys_ok s → runs (mgr s) !! rid = None →
  runs m' = <[rid := rs]> (runs (mgr s)) → id rs = rid → run_ok (eventCapacity (mgr s)) rs →
  status rs = RunQueued → is_Some (life rs) → same_config (mgr s) m' → store_all keys_ok m' →
  sys_ok {| mgr := m'; procs := <[rid := Waiting]> (procs s); sem := sem s |}.
Proof.
  intros [H1 H2 H3 H4 [H5 H6]] Hn E Hid Hok Hs Hl Hc Hk.
  assert (Hp : procs s !! rid = None).
  { destruct (procs s !! rid) eqn:Hp; [|done]. destruct (H3 _ _ Hp) as (?&?&_). congruence. }
  split; simpl.
  - eapply runs_ok_step; [done|by eapply rs_new|done].
  - done.
  - intros rid' ph [[<- <-]|[Hne Hp']]%lookup_insert_Some; rewrite E.
    + exists rs. by rewrite lookup_insert_eq.
    + rewrite lookup_insert_ne by done. by apply H3.
  - intros rid' rs'. rewrite E. intros [[<- <-]|[Hne Hr]]%lookup_insert_Some Hnt.
    + rewrite lookup_insert_eq. by eexists.
    + rewrite lookup_insert_ne by done. by eapply H4.
  - rewrite holders_insert_wait by done. by rewrite (proj1 Hc).
Qed.

(** The goroutine of [rid] moves on, its run to [rs']. *)
Lemma sys_ok_phase s m' rid ph ph' rs' : sys_ok s → procs s !! rid = Some ph → holds ph → holds ph' →
  runs_step (mgr s) m' → same_config (mgr s) m' → store_all keys_ok m' →
  runs m' = <[rid := rs']> (runs (mgr s)) → is_Some (life rs') → status rs' = phase_status ph' →
  sys_ok {| mgr := m'; procs := <[rid := ph']> (procs s); sem := sem s |}.
Proof.
  intros [H1 H2 H3 H4 [H5 H6]] Hp Hh Hh' Hst Hc Hk E Hl Hs. split; simpl.
  - by eapply runs_ok_step.
  - done.
  - intros rid' ph0 [[<- <-]|[Hne Hp']]%lookup_insert_Some; rewrite E.
    + exists rs'. by rewrite lookup_insert_eq.
    + rewrite lookup_insert_ne by done. by apply H3.
  - intros rid' rs0. rewrite E. intros [[<- <-]|[Hne Hr]]%lookup_insert_Some Hnt.
    + rewrite lookup_insert_eq. by eexists.
    + rewrite lookup_insert_ne by done. by eapply H4.
  - rewrite (holders_insert_same _ _ _ _ Hp Hh Hh'). by rewrite (proj1 Hc).
Qed.

Lemma sys_ok_acquire s rid : sys_ok s → procs s !! rid = Some Waiting → sem s < maxConcurrent (mgr s) →
  sys_ok {| mgr := mgr s; procs := <[rid := Acquired]> (procs s); sem := sem s + 1 |}.
Proof.
  intros [H1 H2 H3 H4 [H5 H6]] Hp Hlt. split; simpl; try done.
  - intros rid' ph [[<- <-]|[Hne Hp']]%lookup_insert_Some; [by apply (H3 _ _ Hp)|by apply H3].
  - intros rid' rs Hr Hnt. destruct (decide (rid = rid')) as [->|];
      [rewrite lookup_insert_eq; by eexists|]. rewrite lookup_insert_ne by done. by eapply H4.
  - rewrite holders_insert_hold by done. lia.
Qed.

(** The three parts of a step's preservation. *)
Definition step_ok (s s' : system) : Prop :=
  runs_step (mgr s) (mgr s') ∧ same_config (mgr s) (mgr s') ∧ sys_ok s'.

(** A step that leaves the runs alone. *)
Lemma step_ok_same s m' : sys_ok s → runs m' = runs (mgr s) → same_config (mgr s) m' →
  store_all keys_ok m' → step_ok s (with_mgr m' s).
Proof.
  intros Hok E Hc Hk. split_and!; [by apply rs_same|done|].
  apply sys_ok_quiet; try done; [by apply rs_same|by apply quiet_same].
Qed.

Lemma step_ok_start s w profiles ctx pre sp rid m' snap : sys_ok s → runs (mgr s) !! rid = None →
  Start w profiles ctx pre sp rid (mgr s) = Ok (m', snap) → store_all keys_ok m' →
  step_ok s {| mgr := m'; procs := <[rid := Waiting]> (procs s); sem := sem s |}.
Proof.
  intros Hok Hn (_&_&_&_&E&_&Hc&_)%Start_spec Hk. pose proof (so_mgr _ Hok) as Hm.
  set (rs := push_event _ _ _ _ _) in E.
  assert (Hr : run_ok (eventCapacity (mgr s)) rs) by (apply new_run_queued_ok; by destruct Hm).
  destruct (push_event_fields w "codebridge" "run.queued" ""
    (new_run (eventCapacity (mgr s)) rid (normalizeRunSpec profiles sp)))
    as (Hid&_&Hst&_&_&_&_&_&_&Hl&_).
  split_and!; [by eapply rs_new|done|].
  apply (sys_ok_start s m' rid rs); try done. unfold rs. by rewrite Hl.
Qed.

Lemma step_ok_run s w rid rs rs1 m1 : sys_ok s → procs s !! rid = Some Acquired →
  runs (mgr s) !! rid = Some rs → transitionLocked w rs RunRunning (mgr s) = Some (rs1, m1) →
  store_all keys_ok (put_run rs1 m1) →
  step_ok s {| mgr := put_run rs1 m1; procs := <[rid := Executing]> (procs s); sem := sem s |}.
Proof.
  intros Hok Hp Hr HT Hk. pose proof (so_mgr _ Hok) as Hm.
  destruct (so_procs _ Hok _ _ Hp) as (rs0&Hr0&Hl&Hs). rewrite Hr in Hr0. injection Hr0 as <-.
  pose proof (transition_spec w rs RunRunning (mgr s)) as Ht. rewrite HT in Ht.
  destruct Ht as (Hc&->&(E1&E2&E3&_)). destruct (mo_runs _ Hm _ _ Hr) as [Hid _].
  pose proof (evolves_transitioned (eventCapacity (mgr s)) w RunRunning rs) as Hev.
  specialize (Hev ltac:(by destruct Hm) Hc Hl).
  assert (E : runs (put_run (transitioned w RunRunning rs) m1) =
    <[rid := transitioned w RunRunning rs]> (runs (mgr s))).
  { unfold put_run; cbn [runs set_runs]. by rewrite E1, (ev_id _ _ _ Hev), Hid. }
  assert (Hst : runs_step (mgr s) (put_run (transitioned w RunRunning rs) m1)) by (by eapply rs_update).
  split_and!; [done|done|].
  apply (sys_ok_phase s _ rid Acquired Executing (transitioned w RunRunning rs)); try done.
  - by apply (ev_life _ _ _ Hev).
  - destruct (push_event_fields w "codebridge" (runStatusEventKind RunRunning) "" (moved w RunRunning rs))
      as (_&_&Est&_). by etrans; [exact Est|].
Qed.

(** The calls on a run from outside its goroutine. *)
Lemma step_ok_quiet s m' : sys_ok s → runs_step (mgr s) m' ∧ same_config (mgr s) m' →
  quiet (mgr s) m' → store_all keys_ok m' → step_ok s (with_mgr m' s).
Proof. intros Hok [H1 H2] Hq Hk. split_and!; [done|done|]. by apply sys_ok_quiet. Qed.

Lemma subscriptions_same m run buf sid :
  (runs (SubscribeEvents run buf m).1 = runs m ∧ same_config m (SubscribeEvents run buf m).1) ∧
  (runs (Receive sid m).1 = runs m ∧ same_config m (Receive sid m).1) ∧
  (runs (Close m) = runs m ∧ same_config m (Close m)).
Proof.
  unfold SubscribeEvents, Receive, Close.
  destruct (closed m), (subscribers m !! sid) as [[? ? []]|]; by split_and!.
Qed.

Lemma sys_ok_step s ev s' : sys_ok s → step s ev = Some s' → step_ok s s'.
Proof.
  intros Hok Hstep. pose proof (so_mgr _ Hok) as Hm.
  pose proof (store_all_step keys_ok keys_ok_upsert (λ _ _ H, H) s ev s' (so_keys _ Hok) Hstep) as Hk.
  revert Hstep Hk. destruct ev as [w profiles ctx pre sp rid|rid|w rid|w rid|w rid line|w rid ctx res e
    |rid|w rid|run buf|sid|sid|]; simpl.
  - destruct (decide _) as [|Hn%eq_None_not_Some]; [done|].
    destruct (Start _ _ _ _ _ _ _) as [[m' snap]|e] eqn:HS; intros [= <-] Hk;
      [by eapply step_ok_start|by split_and!; [apply rs_same| |]].
  - destruct (bool_decide_reflect (procs s !! rid = Some Waiting)) as [Hp|]; [|done].
    destruct (bool_decide_reflect (sem s < maxConcurrent (mgr s))) as [Hlt|]; [|done]. simpl.
    intros [= <-] _. split_and!; [by apply rs_same|done|by apply sys_ok_acquire].
  - destruct (procs s !! rid) as [[]|] eqn:Hp; try done. destruct (runs (mgr s) !! rid); [|done].
    destruct (life_done _ _); [|done]. intros [= <-] _. by apply (sys_ok_finish s w rid Waiting).
  - destruct (procs s !! rid) as [[]|] eqn:Hp; try done.
    destruct (runs (mgr s) !! rid) as [rs|] eqn:Hr; [|done].
    destruct (life_done _ _); [intros [= <-] _; by apply (sys_ok_finish s w rid Acquired)|].
    destruct (so_procs _ Hok _ _ Hp) as (rs0&Hr0&_&Hs). rewrite Hr in Hr0. injection Hr0 as <-.
    destruct (transitionLocked _ _ _ _) as [[rs1 m1]|] eqn:HT; intros [= <-] Hk.
    + by eapply step_ok_run.
    + pose proof (transition_spec w rs RunRunning (mgr s)) as Ht. rewrite HT, Hs in Ht. done.
  - intros [= <-] Hk. by apply step_ok_quiet; [|apply recordEvent_step|apply recordEvent_quiet|].
  - destruct (procs s !! rid) as [[]|] eqn:Hp; try done. destruct (runs (mgr s) !! rid); [|done].
    destruct (ctx_possible _ _ _); [|done]. intros [= <-] _. simpl.
    destruct (finishOutcome_finish w rid ctx res e (mgr s)) as (st&e'&->&Hst).
    by apply (sys_ok_finish s w rid Executing).
  - destruct (Cancel rid (mgr s)) as [| |m'] eqn:HC; [|done|]; intros [= <-] Hk.
    + by split_and!; [apply rs_same| |].
    + by apply step_ok_quiet; [|eapply Cancel_step|eapply Cancel_quiet|].
  - intros [= <-] Hk. apply step_ok_quiet; [done| |apply Get_quiet, Hok|done].
    apply Get_step. intros st r Hst Hrow. by eapply (so_keys _ Hok).
  - intros [= <-] Hk. destruct (subscriptions_same (mgr s) run buf 0) as ([]&_). by apply step_ok_same.
  - intros [= <-] Hk. by apply step_ok_same.
  - intros [= <-] Hk. destruct (subscriptions_same (mgr s) "" 0 sid) as (_&[]&_). by apply step_ok_same.
  - intros [= <-] Hk. destruct (subscriptions_same (mgr s) "" 0 0) as (_&_&[]). by apply step_ok_same.
Qed.

(** ** New managers *)

Lemma insert_or_ignore_runs r s : agent_runs (insert_or_ignore r s) = agent_runs s.
Proof. unfold insert_or_ignore. by case_decide. Qed.

Lemma recordInterrupted_runs now s : agent_runs (recordInterruptedRunEvents now s) = agent_runs s.
Proof.
  unfold recordInterruptedRunEvents. generalize ((filter (λ kr, stale kr.2 = true) (map_to_list (agent_runs s))).*1).
  intros ids. revert s. induction ids as [|id ids IH]; intros s; simpl; [done|].
  by rewrite IH, insert_or_ignore_runs.
Qed.

Lemma openRunStore_runs path now file s : openRunStore path now file = Some s →
  agent_runs s = (λ r, if stale r then set_status RunInterrupted r else r) <$> agent_runs file.
Proof. unfold openRunStore. case_decide; [done|]. intros [= <-]. simpl. by rewrite recordInterrupted_runs. Qed.

Lemma openRunStore_keys path now file s : keys_ok file → openRunStore path now file = Some s → keys_ok s.
Proof.
  intros Hk HO rid r. rewrite (openRunStore_runs _ _ _ _ HO), lookup_fmap, fmap_Some.
  intros (r0&Hr&->). specialize (Hk _ _ Hr). by destruct (stale r0).
Qed.

(** The runs a manager loads: one per row. *)
Lemma load_lookup cap f (l : list AgentRun) (m : gmap string runState) rid :
  foldl (λ m snap, <[run_ID snap := loadedRunState snap cap (f (run_ID snap))]> m) m l !! rid =
  match last (filter (λ snap, run_ID snap = rid) l) with
  | Some snap => Some (loadedRunState snap cap (f rid))
  | None => m !! rid
  end.
Proof.
  revert m. induction l as [|snap l IH]; intros m; simpl; [done|]. rewrite IH.
  destruct (decide (run_ID snap = rid)) as [Hn|Hn].
  - rewrite filter_cons_True by done. rewrite last_cons.
    destruct (last _); [done|]. by rewrite Hn, lookup_insert_eq.
  - rewrite filter_cons_False by done. by rewrite lookup_insert_ne.
Qed.

Lemma all_elem s snap : snap ∈ all s ↔ ∃ rid r, agent_runs s !! rid = Some r ∧ snap = scanRun r.
Proof.
  unfold all. rewrite list_elem_of_fmap. setoid_rewrite merge_sort_Permutation.
  setoid_rewrite list_elem_of_fmap. split.
  - intros (r&->&([rid r']&->&Hin)). exists rid, r'. by rewrite <-elem_of_map_to_list.
  - intros (rid&r&Hr&->). exists r. split; [done|]. exists (rid, r). by rewrite elem_of_map_to_list.
Qed.

(** A run of a new manager is a row of its store. *)
Lemma loaded_runs cap s rid : keys_ok s →
  foldl (λ m snap, <[run_ID snap := loadedRunState snap cap (lastSeq (run_ID snap) s)]> m)
    (∅ : gmap string runState) (all s) !! rid =
  (λ r, loadedRunState (scanRun r) cap (lastSeq rid s)) <$> agent_runs s !! rid.
Proof.
  intros Hk. rewrite (load_lookup cap (λ rid, lastSeq rid s)), lookup_empty.
  destruct (last _) as [snap|] eqn:Hl.
  - apply last_Some_elem_of, list_elem_of_filter in Hl as [Hid (rid'&r&Hr&->)%all_elem].
    simpl in Hid. specialize (Hk _ _ Hr). assert (rid' = rid) as -> by congruence. by rewrite Hr.
  - apply last_None in Hl. destruct (agent_runs s !! rid) as [r|] eqn:Hr; [|done]. exfalso.
    assert (scanRun r ∈ filter (λ snap, run_ID snap = rid) (all s)) as Hin.
    { apply list_elem_of_filter. split; [by apply Hk|]. apply all_elem. by exists rid, r. }
    rewrite Hl in Hin. by apply elem_of_nil in Hin.
Qed.

Lemma apply_options_positive opts cfg : 0 < cfg.1.1 → 0 < cfg.1.2 →
  0 < (foldl apply_option cfg opts).1.1 ∧ 0 < (foldl apply_option cfg opts).1.2.
Proof.
  revert cfg. induction opts as [|o opts IH]; intros [[conc cap] path] H1 H2; simpl in *; [done|].
  apply IH; destruct o; simpl; try case_decide; simpl; lia.
Qed.

Lemma NewRunManager_ok w opts file : keys_ok file → sys_ok (start_system (NewRunManager w opts file)).
Proof.
  intros Hk. unfold NewRunManager.
  destruct (apply_options_positive opts (defaultRunConcurrency, defaultRunEventCapacity, ""))
    as [H1 H2]; [done..|].
  destruct (foldl apply_option _ opts) as [[conc cap] path]. simpl in H1, H2.
  set (st := if db_up w then _ else None).
  assert (Hst : ∀ s, st = Some s → keys_ok s).
  { intros s. unfold st. destruct (db_up w); [|done]. by apply openRunStore_keys. }
  assert (Hruns : ∀ rid rs, match st with
      | None => (∅ : gmap string runState)
      | Some s => foldl (λ m snap, <[run_ID snap := loadedRunState snap (Z.to_nat cap) (lastSeq (run_ID snap) s)]> m)
                    ∅ (all s) end !! rid = Some rs →
      id rs = rid ∧ run_ok (Z.to_nat cap) rs ∧ terminalRunStatus (status rs) = true).
  { intros rid rs. destruct st as [s|]; [|by rewrite lookup_empty].
    rewrite loaded_runs by (by apply Hst). rewrite fmap_Some. intros (r&Hr&->).
    split_and!; [by apply (Hst s eq_refl)|apply loaded_run_ok|].
    by destruct (loaded_run_ok 0 (scanRun r) 0) as [_ H _ _ _ _ _ _]. }
  split; simpl.
  - split; simpl; [lia|done|]. intros rid rs Hr. by destruct (Hruns rid rs Hr) as (?&?&_).
  - intros s Hs. by apply Hst.
  - intros rid ph. by rewrite lookup_empty.
  - intros rid rs Hr Hnt. destruct (Hruns rid rs Hr) as (_&_&?). congruence.
  - unfold holders. rewrite map_filter_empty, map_size_empty. simpl. lia.
Qed.

Lemma reachable_ok s0 s : sys_ok s0 → reachable s0 s → sys_ok s.
Proof. intros H0. induction 1 as [|s ev s' _ IH Hs]; [done|]. by destruct (sys_ok_step _ _ _ IH Hs) as (_&_&?). Qed.
