(* ===== verification/AgentJournal.v ===== *)
(** * The durable journal of agent runs

    While the store's writes succeed, the rows of every run are numbered from 1
    without a gap up to the run's last event, across transitions, harness lines,
    loading and restarts. *)

From S2P Require Import Prelude Entities GoStrings AgentRuns AgentSteps AgentInv.
Open Scope Z_scope.

(** ** Rows *)

(** The rows of run [rid] are numbered [1..n]. *)
Definition numbered (rid : string) (n : Z) (s : runStore) : Prop :=
  0 ≤ n ∧ er_seq <$> run_rows rid s = seqZ 1 n.

Lemma run_rows_replace_other rid r s : er_run_id r ≠ rid →
  run_rows rid (replace_event r s) = run_rows rid s.
Proof.
  intros Hne. unfold run_rows, replace_event; simpl.
  rewrite filter_app, (filter_cons_False _ r) by done. rewrite filter_nil, app_nil_r.
  induction (agent_run_events s) as [|r' l IH]; [done|].
  destruct (decide (er_run_id r' = rid)) as [E|E].
  - rewrite (filter_cons_True _ r') by (intros [? _]; congruence).
    by rewrite !(filter_cons_True _ r'), IH by done.
  - rewrite (filter_cons_False (λ r, er_run_id r = rid) r') by done. rewrite <-IH.
    destruct (decide (same_key r r')).
    + by rewrite (filter_cons_False (λ r', ¬ same_key r r') r') by auto.
    + rewrite (filter_cons_True (λ r', ¬ same_key r r') r') by done. by rewrite filter_cons_False.
Qed.

Lemma run_rows_replace_new r s : er_seq r ∉ er_seq <$> run_rows (er_run_id r) s →
  replace_event r s = {| agent_runs := agent_runs s; agent_run_events := agent_run_events s ++ [r] |}.
Proof.
  intros Hn. unfold replace_event. f_equal. f_equal. apply list_filter_all.
  intros r' Hin [E1 E2]. apply Hn. rewrite E2. apply list_elem_of_fmap. exists r'. split; [done|].
  by apply list_elem_of_filter.
Qed.

Lemma numbered_fresh rid n s q : numbered rid n s → n < q → q ∉ er_seq <$> run_rows rid s.
Proof. intros [_ ->] Hq. rewrite elem_of_seqZ. lia. Qed.

Lemma numbered_append rid n s r : numbered rid n s → er_run_id r = rid → er_seq r = n + 1 →
  agent_run_events (replace_event r s) = agent_run_events s ++ [r] ∧
  numbered rid (n + 1) (replace_event r s).
Proof.
  intros Hn Hid Hs. assert (Hf : er_seq r ∉ er_seq <$> run_rows (er_run_id r) s).
  { rewrite Hid. eapply numbered_fresh; [done|lia]. }
  rewrite (run_rows_replace_new _ _ Hf). split; [done|]. destruct Hn as [H0 Hn].
  split; [lia|]. unfold run_rows in *; simpl. rewrite filter_app, fmap_app, Hn.
  rewrite filter_cons_True by done. rewrite filter_nil. simpl. rewrite Hs.
  rewrite <-(Z2Nat.id n) by done. rewrite Z.add_1_r, <-Nat2Z.inj_succ, seqZ_S. f_equal. f_equal. lia.
Qed.

Lemma run_rows_upsert rid snap s : run_rows rid (upsert snap s) = run_rows rid s.
Proof. done. Qed.

Lemma numbered_lastSeq rid n s : numbered rid n s → lastSeq rid s = n.
Proof.
  intros [Hn Hs]. unfold lastSeq. rewrite Hs. rewrite <-(Z2Nat.id n) at 1 by done.
  rewrite sql_max_seqZ. lia.
Qed.

(** A page of the journal: what [eventsAfter] returns of a numbered run. *)
Lemma eventsAfter_numbered rid n s after limit : numbered rid n s → 0 ≤ after →
  eventsAfter rid after limit s =
  row_to_event <$> take (Z.to_nat (if decide (limit ≤ 0) then defaultRunEventCapacity else limit))
    (drop (Z.to_nat after) (run_rows rid s)).
Proof.
  intros [Hn Hs] Ha. unfold eventsAfter. f_equal. f_equal.
  assert (Hlen : Z.of_nat (length (run_rows rid s)) = n).
  { apply (f_equal length) in Hs. rewrite length_fmap, length_seqZ in Hs. lia. }
  assert (filter (λ r, er_run_id r = rid ∧ after < er_seq r) (agent_run_events s) =
    drop (Z.to_nat after) (run_rows rid s)) as ->.
  { pose proof (filter_contiguous er_seq (run_rows rid s) 1 after ltac:(by rewrite Hs, Hlen)) as Hf.
    replace (after + 1 - 1) with after in Hf by lia. rewrite <-Hf.
    unfold run_rows. rewrite list_filter_filter. apply list_filter_iff. intros r. tauto. }
  apply order_by_sorted. rewrite fmap_drop, Hs. apply sorted_drop, sorted_seqZ.
Qed.

(** ** The journal invariant *)

(** The store agrees with the runs [rm]: each is numbered up to its counter, and
    nothing else is in the tables. *)
Record journal_of (s : runStore) (rm : gmap string runState) : Prop := {
  jo_runs : ∀ rid rs, rm !! rid = Some rs → numbered rid (eventSeq rs) s;
  jo_events : ∀ r, r ∈ agent_run_events s → is_Some (rm !! er_run_id r);
  jo_rows : ∀ rid, is_Some (agent_runs s !! rid) → is_Some (rm !! rid)
}.

Definition journal_sync (m : RunManager) : Prop := store_all (λ s, journal_of s (runs m)) m.

Lemma insert_is_Some {A} (m : gmap string A) i j x : is_Some (m !! j) → is_Some (<[i := x]> m !! j).
Proof. intros H. apply lookup_insert_is_Some'. by right. Qed.

(** A write of the run's next event. *)
Lemma journal_of_append s rm rid rs' ev :
  journal_of s rm → ev_RunID ev = rid → eventSeq rs' = ev_Seq ev →
  ev_Seq ev = (match rm !! rid with Some rs => eventSeq rs | None => 0 end) + 1 →
  journal_of (appendEvent ev s) (<[rid := rs']> rm).
Proof.
  intros [H1 H2 H3] Hid Hs Hq.
  assert (Hn : numbered rid (match rm !! rid with Some rs => eventSeq rs | None => 0 end) s).
  { destruct (rm !! rid) as [rs|] eqn:Hr; [by apply H1|]. split; [done|].
    unfold run_rows. rewrite list_filter_none; [done|]. intros r Hin E.
    apply H2 in Hin. rewrite E, Hr in Hin. by destruct Hin. }
  destruct (numbered_append _ _ _ (event_to_row ev) Hn Hid Hq) as [Hevs Hn'].
  split.
  - intros rid' r [[<- <-]|[Hne Hr]]%lookup_insert_Some; [by rewrite Hs, Hq|].
    unfold numbered, appendEvent. rewrite run_rows_replace_other by (simpl; congruence). by apply H1.
  - intros r. unfold appendEvent. rewrite Hevs. rewrite elem_of_app, list_elem_of_singleton.
    intros [Hin| ->]; [by apply insert_is_Some, H2|]. simpl. rewrite Hid, lookup_insert_eq. by eexists.
  - intros rid' Hr. by apply insert_is_Some, H3.
Qed.

Lemma journal_of_upsert s rm snap : journal_of s rm → is_Some (rm !! run_ID snap) →
  journal_of (upsert snap s) rm.
Proof.
  intros [H1 H2 H3] Hs. split; [done|done|]. intros rid. simpl.
  intros [<-|[_ ?]]%lookup_insert_is_Some; [done|by apply H3].
Qed.

Lemma journal_of_same s rm rid rs rs' : journal_of s rm → rm !! rid = Some rs →
  eventSeq rs' = eventSeq rs → journal_of s (<[rid := rs']> rm).
Proof.
  intros [H1 H2 H3] Hr Hs. split.
  - intros rid' r [[<- <-]|[Hne Hr']]%lookup_insert_Some; [rewrite Hs|]; by apply H1.
  - intros r Hin. by apply insert_is_Some, H2.
  - intros rid' Hin. by apply insert_is_Some, H3.
Qed.

(** ** Preservation *)

(** The store's writes of a step succeed. *)
Definition writes_ok (ev : event) : Prop :=
  match ev with
  | SStart w _ _ _ _ _ | SAbandon w _ | SBegin w _ | SLine w _ _ | SReturn w _ _ _ _ => db_up w = true
  | _ => True
  end.

(** The store of [m] goes with the runs [rm]. *)
Definition sync_with (m : RunManager) (rm : gmap string runState) : Prop :=
  store_all (λ s, journal_of s rm) m.

Lemma sync_write w f m rm rm' : db_up w = true → sync_with m rm →
  (∀ s, journal_of s rm → journal_of (f s) rm') → sync_with (store_write w f m) rm'.
Proof.
  intros Hw Hm Hf s. unfold store_write. rewrite Hw. simpl.
  destruct (store m) as [s0|] eqn:E; [|done]. intros [= <-]. by apply Hf, Hm.
Qed.

Lemma sync_append w rs src kind pl m rs' : db_up w = true → journal_sync m →
  eventSeq rs = match runs m !! id rs with Some r => eventSeq r | None => 0 end →
  eventSeq rs' = eventSeq rs + 1 →
  sync_with (appendRuntimeEventLocked w rs src kind pl m).2 (<[id rs := rs']> (runs m)).
Proof.
  intros Hw Hm Hs Hs'. unfold appendRuntimeEventLocked; cbn [snd].
  apply (sync_write w _ m (runs m)); [done|done|]. intros s Hj.
  apply journal_of_append; [done|done|by rewrite Hs'|by rewrite <-Hs].
Qed.

Lemma sync_persist w rs m rm : db_up w = true → sync_with m rm → is_Some (rm !! id rs) →
  sync_with (persistLocked w rs m) rm.
Proof. intros Hw Hm Hr. apply (sync_write w _ m rm); [done|done|]. intros s Hj. by apply journal_of_upsert. Qed.

Lemma transitioned_fields w to rs :
  id (transitioned w to rs) = id rs ∧ eventSeq (transitioned w to rs) = eventSeq rs + 1.
Proof.
  unfold transitioned.
  destruct (push_event_fields w "codebridge" (runStatusEventKind to) "" (moved w to rs))
    as (->&_&_&_&_&_&_&_&_&_&_&->&_).
  by destruct (moved_fields w to rs) as (->&_&_&_&_&_&_&->&_).
Qed.

Lemma sync_transition w rs to m rs1 m1 rs' : db_up w = true → journal_sync m →
  eventSeq rs = match runs m !! id rs with Some r => eventSeq r | None => 0 end →
  transitionLocked w rs to m = Some (rs1, m1) → eventSeq rs' = eventSeq rs1 →
  sync_with m1 (<[id rs := rs']> (runs m)).
Proof.
  intros Hw Hm Hs HT Hs'. pose proof (transition_spec w rs to m) as Ht. rewrite HT in Ht.
  destruct Ht as (_&->&_). revert HT. unfold transitionLocked. destruct (negb _); [done|].
  fold (moved w to rs). destruct (moved_fields w to rs) as (Mid&_&_&_&_&_&_&Mseq&_).
  destruct (transitioned_fields w to rs) as [Tid Tseq].
  pose proof (sync_append w (moved w to rs) "codebridge" (runStatusEventKind to) "" m rs' Hw Hm) as Ha.
  rewrite Mid, Mseq in Ha. specialize (Ha Hs ltac:(congruence)).
  pose proof (append_run w (moved w to rs) "codebridge" (runStatusEventKind to) "" m) as Hr.
  destruct (appendRuntimeEventLocked _ _ _ _ _ _) as [rs2 m2]. cbn [fst snd] in *.
  intros [= Hrs2 <-]. apply sync_persist; [done|done|]. rewrite Hrs2, Tid, lookup_insert_eq. by eexists.
Qed.

(** [finish] when it does something. *)
Lemma finish_cases w rid st res err m :
  finish w rid st res err m = m ∨
  ∃ rs to rs1 m1, runs m !! rid = Some rs ∧
    transitionLocked w (set_outcome (truncateText (res_Output res) subagentMaxOutput) (default "" err) rs)
      to m = Some (rs1, m1) ∧
    finish w rid st res err m = put_run (cancel_life rs1) m1.
Proof.
  unfold finish. destruct (runs m !! rid) as [rs|]; [|by left].
  destruct (terminalRunStatus _); [by left|]. cbv zeta.
  set (to := if canTransition (status rs) st then st else RunCancelled).
  destruct (canTransition (status rs) to) eqn:Hc; [|by left]. cbn [negb]. set (rs0 := set_outcome _ _ rs).
  pose proof (transition_spec w rs0 to m) as Ht.
  destruct (transitionLocked w rs0 to m) as [[rs1 m1]|] eqn:HT.
  - right. by exists rs, to, rs1, m1.
  - change (status rs0) with (status rs) in Ht. congruence.
Qed.

Lemma sync_finish w rid st res err m : db_up w = true → runs_ok m → journal_sync m →
  journal_sync (finish w rid st res err m).
Proof.
  intros Hw Hm Hj. destruct (finish_cases w rid st res err m) as [->|(rs&to&rs1&m1&Hr&HT&->)]; [done|].
  destruct (mo_runs m Hm _ _ Hr) as [Hid _]. set (rs0 := set_outcome _ _ rs) in HT.
  pose proof (transition_spec w rs0 to m) as Ht. rewrite HT in Ht. destruct Ht as (_&->&(E1&_)).
  assert (Hseq : eventSeq rs0 = match runs m !! id rs0 with Some r => eventSeq r | None => 0 end)
    by (change (id rs0) with (id rs); by rewrite Hid, Hr).
  pose proof (sync_transition w rs0 to m _ _ (cancel_life (transitioned w to rs0)) Hw Hj Hseq HT eq_refl)
    as Hsync.
  intros s Hs. specialize (Hsync s Hs). unfold put_run; cbn [runs set_runs]. rewrite E1.
  change (id (cancel_life ?r)) with (id r). by rewrite (proj1 (transitioned_fields w to rs0)).
Qed.

Lemma sync_recordEvent w rid line m : db_up w = true → runs_ok m → journal_sync m →
  journal_sync (recordEvent w rid line m).
Proof.
  intros Hw Hm Hj. unfold recordEvent. destruct (runs m !! rid) as [rs|] eqn:Hr; [|done].
  destruct (terminalRunStatus (status rs)); [done|]. cbv zeta.
  fold (ring_push line (events rs) (eventNext rs)). fold (ring_line line rs).
  change (Client (spec (ring_line line rs))) with (Client (spec rs)).
  destruct (mo_runs m Hm _ _ Hr) as [Hid _]. destruct (recorded_fields w line rs) as (Rid&_&_&Rseq&_).
  pose proof (sync_append w (ring_line line rs) (Client (spec rs)) "harness.raw" line m (recorded w line rs)
    Hw Hj ltac:(simpl; by rewrite Hid, Hr) Rseq) as Ha.
  pose proof (append_run w (ring_line line rs) (Client (spec rs)) "harness.raw" line m) as Hrs.
  pose proof (append_same w (ring_line line rs) (Client (spec rs)) "harness.raw" line m) as (E1&_).
  destruct (appendRuntimeEventLocked _ _ _ _ _ _) as [rs1 m1]. cbn [fst snd] in *. subst rs1.
  fold (recorded w line rs). intros s Hs. specialize (Ha s Hs). unfold put_run; cbn [runs set_runs].
  rewrite E1, Rid. exact Ha.
Qed.

Lemma sync_start w profiles ctx pre sp rid m m' snap : db_up w = true → journal_sync m →
  runs m !! rid = None → Start w profiles ctx pre sp rid m = Ok (m', snap) → journal_sync m'.
Proof.
  intros Hw Hj Hn. unfold Start. destruct ctx; [done|].
  destruct (validateRunSpec _) as [[]|]; [|done]. cbv [mbind result_bind mret result_ret].
  destruct (pre _); [done|]. destruct (closed m); [done|]. set (rs0 := new_run _ rid _).
  pose proof (append_run w rs0 "codebridge" "run.queued" "" m) as Hr.
  pose proof (append_same w rs0 "codebridge" "run.queued" "" m) as (E1&_).
  destruct (push_event_fields w "codebridge" "run.queued" "" rs0) as (Pid&_&_&_&_&_&_&_&_&_&_&Pseq&_).
  pose proof (sync_append w rs0 "codebridge" "run.queued" "" m (push_event w "codebridge" "run.queued" "" rs0)
    Hw Hj ltac:(simpl; by rewrite Hn) Pseq) as Ha.
  destruct (appendRuntimeEventLocked w rs0 _ _ _ m) as [rs1 m1]. cbn [fst snd] in *. subst rs1.
  intros [= <- <-]. change (id rs0) with rid in *. set (rs1 := push_event _ _ _ _ rs0) in *.
  assert (Hp : sync_with (put_run rs1 m1) (<[rid := rs1]> (runs m))) by exact Ha.
  apply (sync_persist w rs1) in Hp; [|done|rewrite Pid, lookup_insert_eq; by eexists].
  intros s Hs. specialize (Hp s Hs).
  destruct (persist_same w rs1 (put_run rs1 m1)) as (F1&_). rewrite F1.
  unfold put_run; cbn [runs set_runs]. by rewrite E1, Pid.
Qed.

(** A step keeps the journal in agreement with the runs. *)
Lemma journal_sync_step s ev s' : sys_ok s → journal_sync (mgr s) → writes_ok ev →
  step s ev = Some s' → journal_sync (mgr s').
Proof.
  intros Hok Hj Hw. pose proof (so_mgr _ Hok) as Hm.
  destruct ev as [w profiles ctx pre sp rid|rid|w rid|w rid|w rid line|w rid ctx res e
    |rid|w rid|run buf|sid|sid|]; simpl in *.
  - destruct (decide _) as [|Hn%eq_None_not_Some]; [done|].
    destruct (Start _ _ _ _ _ _ _) as [[m' snap]|] eqn:HS; intros [= <-]; [|done]. by eapply sync_start.
  - destruct (_ && _); [|done]. by intros [= <-].
  - destruct (procs s !! rid) as [[]|]; try done. destruct (runs (mgr s) !! rid); [|done].
    destruct (life_done _ _); [|done]. intros [= <-]. by apply sync_finish.
  - destruct (procs s !! rid) as [[]|]; try done. destruct (runs (mgr s) !! rid) as [rs|] eqn:Hr; [|done].
    destruct (life_done _ _); [intros [= <-]; by apply sync_finish|].
    destruct (mo_runs _ Hm _ _ Hr) as [Hid _].
    destruct (transitionLocked _ _ _ _) as [[rs1 m1]|] eqn:HT; intros [= <-]; [|done].
    pose proof (transition_spec w rs RunRunning (mgr s)) as Ht. rewrite HT in Ht.
    destruct Ht as (_&Hrs&(E1&_)).
    pose proof (sync_transition w rs RunRunning _ _ _ rs1 Hw Hj ltac:(by rewrite Hid, Hr) HT eq_refl) as Hsync.
    intros st Hs. specialize (Hsync st Hs). cbn [mgr]. unfold put_run; cbn [runs set_runs].
    destruct (transitioned_fields w RunRunning rs) as [Tid _]. by rewrite E1, Hrs, Tid, <-Hrs.
  - intros [= <-]. by apply sync_recordEvent.
  - destruct (procs s !! rid) as [[]|]; try done. destruct (runs (mgr s) !! rid); [|done].
    destruct (ctx_possible _ _ _); [|done]. intros [= <-]. simpl.
    destruct (finishOutcome_finish w rid ctx res e (mgr s)) as (st&e'&->&_). by apply sync_finish.
  - unfold Cancel. destruct (runs (mgr s) !! rid) as [rs|] eqn:Hr; [|by intros [= <-]].
    destruct (life rs); [|done]. intros [= <-]. intros st Hs. destruct (mo_runs _ Hm _ _ Hr) as [Hid _].
    simpl. rewrite Hid. by apply (journal_of_same _ _ _ rs); [apply Hj| |].
  - intros [= <-]. simpl. unfold Get. destruct (runs (mgr s) !! rid) eqn:Hr; [done|].
    destruct (store (mgr s)) as [st|] eqn:Hs; [|done]. destruct (negb _); [done|].
    unfold get. destruct (agent_runs st !! rid) as [row|] eqn:Hrow; [|done]. exfalso.
    destruct (jo_rows _ _ (Hj st Hs) rid) as [rs Hrs]; [by rewrite Hrow; eexists|]. congruence.
  - intros [= <-]. unfold SubscribeEvents. destruct (closed _); done.
  - by intros [= <-].
  - intros [= <-]. unfold Receive. by destruct (subscribers _ !! sid) as [[? ? []]|].
  - intros [= <-]. unfold Close. by destruct (closed _).
Qed.

(** ** Restarts *)

Lemma interrupted_fresh now rid s :
  er_seq (interrupted_event now rid s) ∉ er_seq <$> run_rows rid s.
Proof.
  simpl. unfold lastSeq. destruct (sql_max (er_seq <$> run_rows rid s)) as [q|] eqn:Hm; simpl; intros Hin.
  - apply sql_max_upper in Hm. rewrite Forall_forall in Hm. specialize (Hm _ Hin). lia.
  - destruct (er_seq <$> run_rows rid s); [by apply elem_of_nil in Hin|]. done.
Qed.

Lemma insert_or_ignore_fresh r s : er_seq r ∉ er_seq <$> run_rows (er_run_id r) s →
  insert_or_ignore r s = {| agent_runs := agent_runs s; agent_run_events := agent_run_events s ++ [r] |}.
Proof.
  intros Hn. unfold insert_or_ignore. rewrite decide_False; [done|].
  rewrite Exists_exists. intros (r'&Hin&E1&E2). apply Hn. rewrite E2. apply list_elem_of_fmap.
  exists r'. split; [done|]. by apply list_elem_of_filter.
Qed.

(** The rows of a run after an interruption was recorded for each of [ids]. *)
Lemma interrupt_rows now ids s rid : NoDup ids →
  run_rows rid (foldl (λ s id, insert_or_ignore (interrupted_event now id s) s) s ids) =
  run_rows rid s ++ (if decide (rid ∈ ids) then [interrupted_event now rid s] else []).
Proof.
  revert s. induction ids as [|id ids IH]; intros s Hnd; simpl; [by rewrite app_nil_r|].
  apply NoDup_cons in Hnd as [Hni Hnd]. rewrite IH by done.
  rewrite insert_or_ignore_fresh by apply interrupted_fresh.
  set (s1 := {| agent_runs := agent_runs s; agent_run_events := _ |}).
  assert (Hrows : run_rows rid s1 = run_rows rid s ++
    (if decide (id = rid) then [interrupted_event now id s] else [])).
  { unfold run_rows, s1; simpl. rewrite filter_app. done. }
  rewrite Hrows. destruct (decide (id = rid)) as [->|Hne].
  - rewrite decide_False by done. rewrite decide_True by (by left). by rewrite app_nil_r.
  - rewrite app_nil_r. destruct (decide (rid ∈ ids)) as [Hin|Hnin].
    + rewrite decide_True by (by right). rewrite app_nil_r in Hrows.
      unfold interrupted_event, lastSeq. by rewrite Hrows.
    + rewrite decide_False; [done|]. rewrite elem_of_cons. naive_solver.
Qed.

Definition stale_ids (s : runStore) : list string :=
  (filter (λ kr, stale kr.2 = true) (map_to_list (agent_runs s))).*1.

Lemma stale_ids_elem s rid : rid ∈ stale_ids s ↔ ∃ r, agent_runs s !! rid = Some r ∧ stale r = true.
Proof.
  unfold stale_ids. rewrite list_elem_of_fmap. split.
  - intros ([rid' r]&->&[Hs Hin]%list_elem_of_filter). apply elem_of_map_to_list in Hin. by exists r.
  - intros (r&Hr&Hs). exists (rid, r). split; [done|]. apply list_elem_of_filter.
    by rewrite elem_of_map_to_list.
Qed.

Lemma stale_ids_NoDup s : NoDup (stale_ids s).
Proof.
  unfold stale_ids. pose proof (NoDup_fst_map_to_list (agent_runs s)) as H.
  revert H. generalize (map_to_list (agent_runs s)) as l. induction l as [|[k r] l IH]; simpl; [done|].
  rewrite NoDup_cons. intros [Hn Hnd]. destruct (decide (stale r = true)).
  - rewrite filter_cons_True by done. simpl. apply NoDup_cons. split; [|by apply IH].
    rewrite list_elem_of_fmap. intros ([k' r']&->&[_ Hin]%list_elem_of_filter). apply Hn.
    apply list_elem_of_fmap. by exists (k', r').
  - rewrite filter_cons_False by done. by apply IH.
Qed.

(** A file of a previous process: rows under their own id, each run's events
    numbered, no events without a run. *)
Record file_ok (f : runStore) : Prop := {
  fo_keys : keys_ok f;
  fo_runs : ∀ rid, is_Some (agent_runs f !! rid) → ∃ n, numbered rid n f;
  fo_events : ∀ r, r ∈ agent_run_events f → is_Some (agent_runs f !! er_run_id r)
}.

Lemma openRunStore_rows path now f s rid : openRunStore path now f = Some s →
  run_rows rid s = run_rows rid f ++
    (if decide (rid ∈ stale_ids f) then [interrupted_event now rid f] else []).
Proof.
  unfold openRunStore. case_decide; [done|]. intros [= <-].
  apply (interrupt_rows now (stale_ids f) f rid), stale_ids_NoDup.
Qed.

Lemma openRunStore_numbered path now f s rid n : openRunStore path now f = Some s →
  numbered rid n f → numbered rid (n + if decide (rid ∈ stale_ids f) then 1 else 0) s.
Proof.
  intros HO Hn. pose proof (numbered_lastSeq _ _ _ Hn) as Hl. destruct Hn as [H0 Hn].
  unfold numbered. rewrite (openRunStore_rows _ _ _ _ rid HO), fmap_app, Hn.
  case_decide; simpl; [|split; [lia|by rewrite app_nil_r, Z.add_0_r]].
  split; [lia|]. rewrite Hl. rewrite <-(Z2Nat.id n) by done.
  rewrite Z.add_1_r, <-Nat2Z.inj_succ, seqZ_S. f_equal. f_equal. lia.
Qed.

Lemma openRunStore_events path now f s r : openRunStore path now f = Some s →
  r ∈ agent_run_events s → r ∈ agent_run_events f ∨ er_run_id r ∈ stale_ids f.
Proof.
  intros HO Hin.
  assert (Hr : r ∈ run_rows (er_run_id r) s) by (by apply list_elem_of_filter).
  rewrite (openRunStore_rows _ _ _ _ _ HO) in Hr. apply elem_of_app in Hr as [Hr|Hr].
  - apply list_elem_of_filter in Hr as [_ ?]. by left.
  - case_decide; [by right|by apply elem_of_nil in Hr].
Qed.

(** A manager opened on a good file starts in agreement with its store. *)
Lemma NewRunManager_sync w opts file : file_ok file → journal_sync (NewRunManager w opts file).
Proof.
  intros [Hk Hr He]. unfold NewRunManager. destruct (foldl apply_option _ opts) as [[conc cap] path].
  destruct (db_up w); [|done]. intros s. cbn [store runs]. intros HO. rewrite HO.
  pose proof (openRunStore_keys _ _ _ _ Hk HO) as Hks.
  pose proof (openRunStore_runs _ _ _ _ HO) as Hrows.
  assert (Hdom : ∀ rid, is_Some (agent_runs s !! rid) ↔ is_Some (agent_runs file !! rid))
    by (intros rid; by rewrite Hrows, lookup_fmap, fmap_is_Some).
  split.
  - intros rid rs. rewrite loaded_runs, fmap_Some by done. intros (row&Hrow&->). simpl.
    destruct (Hr rid) as [n Hn]; [by apply Hdom; rewrite Hrow; eexists|].
    apply (openRunStore_numbered _ _ _ _ _ _ HO) in Hn. by rewrite (numbered_lastSeq _ _ _ Hn).
  - intros r Hin. rewrite loaded_runs, fmap_is_Some by done. apply Hdom.
    destruct (openRunStore_events _ _ _ _ _ HO Hin) as [?|(row&Hrow&_)%stale_ids_elem]; [by apply He|].
    rewrite Hrow. by eexists.
  - intros rid Hin. by rewrite loaded_runs, fmap_is_Some by done.
Qed.

(** *** Every run has its row *)
Definition rows_stored (m : RunManager) : Prop :=
  store_all (λ s, ∀ rid, is_Some (runs m !! rid) → is_Some (agent_runs s !! rid)) m.

Lemma upsert_keeps (X : string → Prop) snap s :
  (∀ rid, X rid → is_Some (agent_runs s !! rid)) →
  ∀ rid, X rid → is_Some (agent_runs (upsert snap s) !! rid).
Proof. intros H rid Hx. simpl. by apply insert_is_Some, H. Qed.

(** No run appears but by a start, or by loading a row. *)
Definition no_new (m m' : RunManager) : Prop := ∀ rid, runs m !! rid = None → runs m' !! rid = None.

Lemma no_new_same m m' : runs m' = runs m → no_new m m'.
Proof. intros E rid. by rewrite E. Qed.

#[local] Instance no_new_refl : Reflexive no_new.
Proof. by intros m rid. Qed.

Lemma no_new_put m m1 rid rs rs' : runs m !! rid = Some rs → runs m1 = runs m → id rs' = rid →
  no_new m (put_run rs' m1).
Proof.
  intros Hr E Hid rid' Hn. unfold put_run; cbn [runs set_runs].
  rewrite E, Hid, lookup_insert_ne by congruence. done.
Qed.

Lemma finish_no_new w rid st res err m : runs_ok m → no_new m (finish w rid st res err m).
Proof.
  intros Hm. destruct (finish_cases w rid st res err m) as [->|(rs&to&rs1&m1&Hr&HT&->)]; [by apply no_new_same|].
  destruct (mo_runs m Hm _ _ Hr) as [Hid _]. set (rs0 := set_outcome _ _ rs) in HT.
  pose proof (transition_spec w rs0 to m) as Ht. rewrite HT in Ht. destruct Ht as (_&->&(E1&_)).
  apply (no_new_put _ _ rid rs); [done|done|]. change (id (cancel_life ?r)) with (id r).
  by rewrite (proj1 (transitioned_fields w to rs0)).
Qed.

Lemma step_no_new s ev s' : sys_ok s → journal_sync (mgr s) → step s ev = Some s' →
  match ev with SStart _ _ _ _ _ _ => True | _ => no_new (mgr s) (mgr s') end.
Proof.
  intros Hok Hj. pose proof (so_mgr _ Hok) as Hm.
  destruct ev as [w profiles ctx pre sp rid|rid|w rid|w rid|w rid line|w rid ctx res e
    |rid|w rid|run buf|sid|sid|]; simpl; [done|..].
  - destruct (_ && _); [|done]. by intros [= <-].
  - destruct (procs s !! rid) as [[]|]; try done. destruct (runs (mgr s) !! rid); [|done].
    destruct (life_done _ _); [|done]. intros [= <-]. by apply finish_no_new.
  - destruct (procs s !! rid) as [[]|]; try done. destruct (runs (mgr s) !! rid) as [rs|] eqn:Hr; [|done].
    destruct (life_done _ _); [intros [= <-]; by apply finish_no_new|].
    pose proof (transition_spec w rs RunRunning (mgr s)) as Ht.
    destruct (transitionLocked _ _ _ _) as [[rs1 m1]|]; intros [= <-]; [|done].
    destruct Ht as (_&->&(E1&_)). apply (no_new_put _ _ rid rs); [done|done|].
    rewrite (proj1 (transitioned_fields w RunRunning rs)). by apply (mo_runs _ Hm).
  - intros [= <-]. destruct (recordEvent_cases w rid line (mgr s)) as [E|(rs&m1&Hr&_&(E1&_)&E)];
      cbn [mgr with_mgr]; rewrite E; [done|].
    apply (no_new_put _ _ rid rs); [done|done|]. rewrite (proj1 (recorded_fields w line rs)).
    by apply (mo_runs _ Hm).
  - destruct (procs s !! rid) as [[]|]; try done. destruct (runs (mgr s) !! rid); [|done].
    destruct (ctx_possible _ _ _); [|done]. intros [= <-]. simpl.
    destruct (finishOutcome_finish w rid ctx res e (mgr s)) as (st&e'&->&_). by apply finish_no_new.
  - unfold Cancel. destruct (runs (mgr s) !! rid) as [rs|] eqn:Hr; [|by intros [= <-]].
    destruct (life rs); [|done]. intros [= <-]. apply (no_new_put _ _ rid rs); [done|done|].
    destruct (mo_runs _ Hm _ _ Hr) as [Hid _]. exact Hid.
  - intros [= <-]. simpl. unfold Get. destruct (runs (mgr s) !! rid) eqn:Hr; [done|].
    destruct (store (mgr s)) as [st|] eqn:Hs; [|done]. destruct (negb _); [done|].
    unfold get. destruct (agent_runs st !! rid) as [row|] eqn:Hrow; [|done]. exfalso.
    destruct (jo_rows _ _ (Hj st Hs) rid) as [rs Hrs]; [by rewrite Hrow; eexists|]. congruence.
  - intros [= <-]. apply no_new_same. by apply subscriptions_same.
  - intros [= <-]. by apply no_new_same.
  - intros [= <-]. apply no_new_same. apply (subscriptions_same (mgr s) "" 0).
  - intros [= <-]. apply no_new_same. apply (subscriptions_same (mgr s) "" 0 0).
Qed.

(** A start writes the new run's row. *)
Lemma start_stored w profiles ctx pre sp rid m m' snap : db_up w = true → rows_stored m →
  Start w profiles ctx pre sp rid m = Ok (m', snap) → rows_stored m'.
Proof.
  intros Hw Hs HS. pose proof (Start_spec _ _ _ _ _ _ _ _ _ HS) as (_&_&_&_&E&_).
  intros s Hst rid'. rewrite E. intros Hin. revert HS. unfold Start. destruct ctx; [done|].
  destruct (validateRunSpec _) as [[]|]; [|done]. cbv [mbind result_bind mret result_ret].
  destruct (pre _); [done|]. destruct (closed m); [done|]. set (rs0 := new_run _ rid _) in *.
  pose proof (append_run w rs0 "codebridge" "run.queued" "" m) as Hr.
  assert (Ha : store_all (λ s, ∀ rid, is_Some (runs m !! rid) → is_Some (agent_runs s !! rid))
    (appendRuntimeEventLocked w rs0 "codebridge" "run.queued" "" m).2).
  { apply store_all_append; [|done]. intros ev s0 H. exact H. }
  destruct (push_event_fields w "codebridge" "run.queued" "" rs0) as (Pid&_).
  destruct (appendRuntimeEventLocked w rs0 _ _ _ m) as [rs1 m1]. cbn [fst snd] in *. subst rs1.
  intros [= <- _]. revert Hst. unfold persistLocked, store_write. rewrite Hw. cbn [store set_store].
  change (store (put_run ?r m1)) with (store m1).
  destruct (store m1) as [s1|] eqn:Hs1; [|done]. intros [= <-]. cbn [agent_runs upsert].
  apply lookup_insert_is_Some' in Hin as [<-|Hin].
  - change (run_ID (snapshotLocked ?r)) with (id r). rewrite Pid. change (id rs0) with rid.
    rewrite lookup_insert_eq. by eexists.
  - by apply insert_is_Some, Ha.
Qed.

Lemma rows_stored_step s ev s' : sys_ok s → journal_sync (mgr s) → writes_ok ev → rows_stored (mgr s) →
  step s ev = Some s' → rows_stored (mgr s').
Proof.
  intros Hok Hj Hw Hs Hstep. pose proof (step_no_new s ev s' Hok Hj Hstep) as Hn.
  pose proof (store_all_step (λ st, ∀ rid, is_Some (runs (mgr s) !! rid) → is_Some (agent_runs st !! rid))
    (λ snap st H, upsert_keeps _ snap st H) (λ ev st H, H) s ev s' Hs Hstep) as Hs'.
  destruct ev as [w profiles ctx pre sp rid|rid|w rid|w rid|w rid line|w rid ctx res e
    |rid|w rid|run buf|sid|sid|].
  { simpl in Hstep. destruct (decide _); [done|].
    destruct (Start _ _ _ _ _ _ _) as [[m' snap]|] eqn:HS; injection Hstep as <-; [|done].
    by eapply start_stored. }
  all: intros st Hst rid' Hin; apply (Hs' st Hst);
    destruct (runs (mgr s) !! rid') eqn:E; [by eexists|]; apply Hn in E; rewrite E in Hin; by destruct Hin.
Qed.

(** A manager opened on a file, and every state it reaches while its writes
    succeed. *)
Inductive reachable_writing (s0 : system) : system → Prop :=
  | rw_start : reachable_writing s0 s0
  | rw_step s ev s' : reachable_writing s0 s → writes_ok ev → step s ev = Some s' →
      reachable_writing s0 s'.

Lemma NewRunManager_stored w opts file : file_ok file → rows_stored (NewRunManager w opts file).
Proof.
  intros [Hk _ _]. unfold NewRunManager. destruct (foldl apply_option _ opts) as [[conc cap] path].
  destruct (db_up w); [|done]. intros s. cbn [store runs]. intros HO rid. rewrite HO.
  rewrite loaded_runs by (by eapply openRunStore_keys). by rewrite fmap_is_Some.
Qed.

Lemma reachable_writing_ok w opts file s : file_ok file →
  reachable_writing (start_system (NewRunManager w opts file)) s →
  sys_ok s ∧ journal_sync (mgr s) ∧ rows_stored (mgr s).
Proof.
  intros Hf. induction 1 as [|s ev s' _ (IH1&IH2&IH3) Hw Hs].
  - split_and!; [apply NewRunManager_ok, Hf|by apply NewRunManager_sync|by apply NewRunManager_stored].
  - split_and!; [by apply (sys_ok_step _ _ _ IH1 Hs)|by eapply journal_sync_step|by eapply rows_stored_step].
Qed.
