(* ===== verification/AgentSpec.v ===== *)
(** * What the run manager guarantees

    The properties of managed agent runs: the life of a run, the slots, the
    outcome, the event rings, the durable journal, recovery after a crash, and
    that every run comes to an end. *)

From S2P Require Import Prelude Entities GoStrings AgentRuns AgentSteps AgentInv AgentJournal.
Open Scope Z_scope.


(** The runs in a status. *)
Definition runs_in (st : RunStatus) (m : RunManager) : gmap string runState :=
  filter (λ kv, status kv.2 = st) (runs m).

(** Slots and goroutines agree with the statuses in every reachable state: the
    permits taken are those of the goroutines past the semaphore, at most the
    configured number of runs are running, a run is driven by a goroutine
    exactly when its status is not terminal, and its done channel is closed, so
    that [Wait] returns its snapshot, exactly when it is. *)
Theorem agent_run_slots w opts file s :
  keys_ok file → reachable (start_system (NewRunManager w opts file)) s →
  sem s = Z.of_nat (size (holders (procs s))) ∧
  Z.of_nat (size (runs_in RunRunning (mgr s))) ≤ sem s ≤ maxConcurrent (mgr s) ∧
  ∀ rid rs, runs (mgr s) !! rid = Some rs →
    (is_Some (procs s !! rid) ↔ terminalRunStatus (status rs) = false) ∧
    Wait rid (mgr s) = if terminalRunStatus (status rs) then Some (snapshotLocked rs) else None.
Proof.
  intros Hk Hreach.
  pose proof (reachable_ok _ _ (NewRunManager_ok w opts file Hk) Hreach) as [Hm Hst Hp Hl [Hs Hmax]].
  split_and!; [done| |done|].
  - rewrite Hs. apply inj_le. rewrite <-!size_dom. apply subseteq_size. intros rid.
    rewrite !elem_of_dom. intros [rs [Hr Hrun]%map_lookup_filter_Some]. simpl in Hrun.
    destruct (Hl rid rs Hr) as [ph Hph]; [by rewrite Hrun|].
    destruct (Hp _ _ Hph) as (rs'&Hr'&_&Hph'). rewrite Hr in Hr'. injection Hr' as <-.
    exists ph. apply map_lookup_filter_Some. split; [done|]. simpl. intros ->.
    rewrite Hrun in Hph'. done.
  - intros rid rs Hr. destruct (mo_runs _ Hm _ _ Hr) as [_ Hok]. split.
    + split; [|by apply Hl]. intros [ph Hph]. destruct (Hp _ _ Hph) as (rs'&Hr'&_&E).
      rewrite Hr in Hr'. injection Hr' as <-. rewrite E. by destruct ph.
    + unfold Wait. by rewrite Hr, (ro_done _ _ Hok).
Qed.

(** The terminal states of a running run. *)
Definition ended (w : world) (to : RunStatus) (res : SubagentResult) (err : string)
    (rs rs' : runState) : Prop :=
  status rs' = to ∧ terminalRunStatus to = true ∧ errText rs' = err ∧
  output rs' = truncateText (res_Output res) subagentMaxOutput ∧
  finishedAt rs' = now w ∧ startedAt rs' = startedAt rs ∧ done_closed rs' = true ∧
  eventSeq rs' = eventSeq rs + 1 ∧ life rs' = (λ _, true) <$> life rs.

Lemma finished_ended w to res err rs : canTransition (status rs) to = true →
  terminalRunStatus to = true →
  ended w to res (default "" err) rs (finished w to res err rs) ∧ id (finished w to res err rs) = id rs.
Proof.
  intros Hc Hto. unfold ended, finished. rewrite Hc.
  set (rs1 := set_outcome _ _ rs). unfold cancel_life, transitioned; cbn.
  destruct (push_event_fields w "codebridge" (runStatusEventKind to) "" (moved w to rs1))
    as (Pid&_&Pst&Psta&Pfin&_&Pout&Perr&_&Plife&Pdone&Pseq&_).
  destruct (moved_fields w to rs1) as (Mid&_&Mst&Mout&Merr&_&Mlife&Mseq&_&_&_&_&_&_&Mdone).
  rewrite Hto in Mdone. assert (Hne : to ≠ RunRunning) by (intros ->; done).
  assert (Htimes : startedAt (moved w to rs1) = startedAt rs ∧ finishedAt (moved w to rs1) = now w)
    by (unfold moved; by rewrite decide_False, Hto by done).
  destruct Htimes as [Ht1 Ht2]. change (errText rs1) with (default "" err) in Merr.
  change (output rs1) with (truncateText (res_Output res) subagentMaxOutput) in Mout.
  split_and!; try done; try congruence.
  - etrans; [exact Pseq|]. by rewrite Mseq.
  - by rewrite Plife, Mlife.
  - etrans; [exact Pid|exact Mid].
Qed.

Lemma finish_running w rid to res err m rs : runs m !! rid = Some rs → id rs = rid →
  status rs = RunRunning → terminalRunStatus to = true →
  ∃ rs', runs (finish w rid to res err m) = <[rid := rs']> (runs m) ∧
    ended w to res (default "" err) rs rs'.
Proof.
  intros Hr Hid Hst Hto. pose proof (finish_spec w rid to res err m rs Hr Hid) as H. cbv zeta in H.
  assert (Hc : canTransition (status rs) to = true).
  { rewrite Hst. unfold canTransition. apply existsb_exists.
    exists to. rewrite bool_decide_eq_true, <-list_elem_of_In. split; [|done]. by apply one_of_spec in Hto. }
  destruct (finished_ended w to res err rs Hc Hto) as [He Hi].
  rewrite Hc, Hc, Hst in H. simpl in H. destruct H as (m1&(E1&_)&->).
  exists (finished w to res err rs). split; [|done].
  unfold put_run; cbn [runs set_runs]. by rewrite E1, Hi, Hid.
Qed.

(** The outcome of a running run is decided once, by the first of: its
    deadline, its cancellation, the executor's error, the status the harness
    reported (an unknown one is a failure). The run then has that terminal
    status, the output cut to the limit, the error if any, its finishing time
    and one more event; its done channel is closed and its context cancelled. *)
Theorem finishOutcome_spec w rid ctx res execErr m rs :
  runs m !! rid = Some rs → id rs = rid → status rs = RunRunning →
  let '(st, unknown) := statusFromResult (res_Status res) in
  let st' := match ctx, execErr with
             | CtxDeadline, _ => RunTimeout | CtxCanceled, _ => RunCancelled
             | CtxNone, Some _ => RunFailed | CtxNone, None => st end in
  let err := match ctx, execErr with
             | CtxNone, Some e => e | CtxNone, None => if unknown then unknown_status else ""
             | _, _ => "" end in
  ∃ rs', runs (finishOutcome w rid ctx res execErr m) = <[rid := rs']> (runs m) ∧
    ended w st' res err rs rs'.
Proof.
  intros Hr Hid Hst. destruct (statusFromResult (res_Status res)) as [st unknown] eqn:HS. cbv zeta.
  assert (Hterm : terminalRunStatus st = true)
    by (unfold statusFromResult in HS; repeat case_match; by simplify_eq).
  pose proof (λ to err, finish_running w rid to res err m rs Hr Hid Hst) as Hgen.
  unfold finishOutcome. destruct ctx; [|by apply (Hgen RunTimeout None)|by apply (Hgen RunCancelled None)].
  destruct execErr as [e|]; [by apply (Hgen RunFailed (Some e))|]. rewrite HS.
  destruct unknown; [by apply (Hgen st (Some unknown_status))|by apply (Hgen st None)].
Qed.

(** Recording lines one by one leaves them in the ring as its history. *)
Lemma lines_recorded rid rs m (ws : list (world * string)) :
  runs_ok m → runs m !! rid = Some rs → terminalRunStatus (status rs) = false → eventNext rs = 0%nat →
  let m' := foldl (λ m wl, recordEvent wl.1 rid wl.2 m) m ws in
  ∃ rs', runs m' !! rid = Some rs' ∧ status rs' = status rs ∧ runs_ok m' ∧
    eventCapacity m' = eventCapacity m ∧ eventTotal rs' = length ws ∧
    ring_ok (events rs') (eventNext rs') (eventKept rs') ws.*2.
Proof.
  intros Hm Hr Ht Hn. induction ws as [|[w line] ws IH] using rev_ind; cbv zeta.
  - destruct (mo_runs m Hm _ _ Hr) as [_ Hok]. exists rs. split_and!; try done.
    + rewrite (ro_total _ _ Hok), Hn; [done|by eapply live_run].
    + destruct (ro_ring _ _ Hok) as [h [E1 E2 E3]].
      rewrite Hn in E1, E2 |- *. simpl. rewrite E2. apply ring_empty.
  - rewrite foldl_app. simpl. set (m1 := foldl _ m ws) in *.
    destruct IH as (rs1&Hr1&Hs1&Hm1&Hc1&Ht1&Hring).
    destruct (recordEvent_step w rid line m1 Hm1) as [Hstep Hconf].
    destruct (recordEvent_recorded w rid line m1 rs1 Hm1 Hr1 ltac:(by rewrite Hs1)) as [Hr2 _].
    destruct (recorded_fields w line rs1) as (_&Est&_&_&Etot&Eev&Enext&Ekept).
    destruct (mo_runs _ Hm1 _ _ Hr1) as [_ Hok1].
    exists (recorded w line rs1). split_and!; [done|by rewrite Est|by eapply runs_ok_step| | |].
    + rewrite <-Hc1. apply Hconf.
    + rewrite Etot, Ht1, length_app. simpl. lia.
    + rewrite Eev, Enext, Ekept, fmap_app. apply ring_push_ok; [|done].
      rewrite (proj1 (ro_lens _ _ Hok1)). by destruct Hm1.
Qed.

(** A run keeps its last harness lines. After any lines [ws] were recorded for a
    run that had recorded none and has not finished, [Events] with a limit
    returns the last of them, oldest first, as many as the ring holds and the
    limit allows, and the run has counted them all. *)
Theorem events_are_last_lines rid rs m (ws : list (world * string)) limit :
  runs_ok m → runs m !! rid = Some rs → terminalRunStatus (status rs) = false → eventNext rs = 0%nat →
  let m' := foldl (λ m wl, recordEvent wl.1 rid wl.2 m) m ws in
  let n := min (eventCapacity m) (length ws) in
  let n := if decide (0 < limit) then min (Z.to_nat limit) n else n in
  Events rid limit m' = drop (length ws - n) ws.*2 ∧
  ∃ rs', runs m' !! rid = Some rs' ∧ eventTotal rs' = length ws ∧ status rs' = status rs.
Proof.
  intros Hm Hr Ht Hn m' n0 n. subst n0.
  destruct (lines_recorded rid rs m ws Hm Hr Ht Hn) as (rs'&Hr'&Hs'&Hm'&Hc'&Ht'&Hring).
  fold m' in Hr', Hm', Hc'. split; [|by exists rs'].
  destruct (mo_runs _ Hm' _ _ Hr') as [_ Hok'].
  assert (Hlive : is_Some (life rs')) by (eapply live_run; [done|done|by rewrite Hs']).
  pose proof (ro_total _ _ Hok' Hlive) as Htot. pose proof (proj1 (ro_lens _ _ Hok')) as Hlen.
  pose proof (ring_kept _ _ _ _ Hring) as Hkept. rewrite Hlen, Hc' in Hkept.
  unfold Events. rewrite Hr'. cbv zeta.
  set (k := if bool_decide (0 < limit) && _ then _ else _).
  assert (Hk : k = n ∧ (k ≤ eventKept rs')%nat).
  { unfold k, n. repeat case_bool_decide; repeat case_decide; simpl; lia. }
  destruct Hk as [Hk Hle]. rewrite <-Hk, Htot, (ring_read _ _ _ _ _ _ Hring Hle). f_equal. lia.
Qed.

(** C27. The durable journal has no gaps. While the store's writes succeed, in
    every state reached from a manager opened on a well-formed file, the events
    of each run are stored under the numbers [1..LastSeq] in order, a page of
    [EventsAfter] is exactly the stored events that follow the cursor, as many as
    the limit allows, and the tables are again a well-formed file for the next
    process. *)
Theorem agent_journal_complete w opts file s st :
  file_ok file → reachable_writing (start_system (NewRunManager w opts file)) s →
  store (mgr s) = Some st →
  file_ok st ∧
  ∀ rid rs, runs (mgr s) !! rid = Some rs →
    er_seq <$> run_rows rid st = seqZ 1 (eventSeq rs) ∧
    ∀ w' after limit, db_up w' = true → 0 ≤ after → 0 < limit →
      EventsAfter w' rid after limit (mgr s) =
        row_to_event <$> take (Z.to_nat limit) (drop (Z.to_nat after) (run_rows rid st)) ∧
      ev_Seq <$> EventsAfter w' rid after limit (mgr s) =
        take (Z.to_nat limit) (seqZ (after + 1) (eventSeq rs - after)).
Proof.
  intros Hf Hreach Hst. destruct (reachable_writing_ok _ _ _ _ Hf Hreach) as (Hok&Hj&Hs).
  pose proof (Hj st Hst) as [J1 J2 J3]. split.
  - split; [by apply (so_keys _ Hok)| |].
    + intros rid Hin. destruct (J3 rid Hin) as [rs Hr]. eexists. by eapply J1.
    + intros r Hin. by apply (Hs st Hst), J2.
  - intros rid rs Hr. pose proof (J1 rid rs Hr) as Hn. split; [apply Hn|].
    intros w' after limit Hw Ha Hl. unfold EventsAfter. rewrite decide_False by lia. rewrite Hst, Hw.
    rewrite (eventsAfter_numbered _ _ _ _ _ Hn Ha), decide_False by lia. split; [done|].
    rewrite <-list_fmap_compose. change (ev_Seq ∘ row_to_event) with er_seq.
    rewrite fmap_take, fmap_drop. destruct Hn as [H0 Hn]. rewrite Hn. f_equal.
    unfold seqZ. rewrite <-fmap_drop, drop_seq. apply list_eq. intros i.
    rewrite !list_lookup_fmap. destruct (decide (i < Z.to_nat (eventSeq rs) - Z.to_nat after)%nat).
    + rewrite !lookup_seq_lt by lia. simpl. f_equal. lia.
    + by rewrite !lookup_seq_ge by lia.
Qed.

(** Recovery of a crashed process. Opening the run store marks exactly the runs
    left queued or running as interrupted, adds to each of them one
    [run.interrupted] event after its last, and changes no other row; opening
    the result again changes nothing. *)
Theorem recovery_once path now f s : openRunStore path now f = Some s →
  (∀ rid, agent_runs s !! rid =
     (λ r, if stale r then set_status RunInterrupted r else r) <$> agent_runs f !! rid) ∧
  (∀ rid, run_rows rid s = run_rows rid f ++
     match agent_runs f !! rid with
     | Some r => if stale r then [interrupted_event now rid f] else []
     | None => []
     end) ∧
  (∀ now', openRunStore path now' s = Some s).
Proof.
  intros HO. pose proof (openRunStore_runs _ _ _ _ HO) as Hruns.
  assert (Hns : ∀ rid r, agent_runs s !! rid = Some r → stale r = false).
  { intros rid r. rewrite Hruns, lookup_fmap, fmap_Some. intros (r0&_&->).
    destruct (stale r0) eqn:E; done. }
  split_and!.
  - intros rid. by rewrite Hruns, lookup_fmap.
  - intros rid. rewrite (openRunStore_rows _ _ _ _ rid HO). f_equal.
    destruct (decide (rid ∈ stale_ids f)) as [(r&->&->)%stale_ids_elem|Hn]; [done|].
    destruct (agent_runs f !! rid) as [r|] eqn:Hr; [|done]. destruct (stale r) eqn:E; [|done].
    destruct Hn. apply stale_ids_elem. by exists r.
  - intros now'. unfold openRunStore in HO |- *. case_decide; [done|].
    assert (Hids : (filter (λ kr, stale kr.2 = true) (map_to_list (agent_runs s))).*1 = []).
    { rewrite list_filter_none; [done|]. intros [rid r] Hin%elem_of_map_to_list. simpl.
      by rewrite (Hns _ _ Hin). }
    unfold recordInterruptedRunEvents at 1 2. rewrite Hids. simpl. destruct s as [rs es]. simpl in *.
    f_equal. f_equal. apply map_eq. intros rid. rewrite lookup_fmap.
    destruct (rs !! rid) as [r|] eqn:Hr; [|done]. simpl. by rewrite (Hns _ _ Hr).
Qed.

(** ** Every run comes to an end *)

(** How far a goroutine is from its end. *)
Definition phase_weight (ph : phase) : nat := match ph with Waiting => 3 | Acquired => 2 | Executing => 1 end.
Definition weight (p : gmap string phase) : nat := map_fold (λ _ ph n, phase_weight ph + n)%nat 0%nat p.

(** The steps of the goroutines themselves. *)
Definition own_step (ev : event) : bool :=
  match ev with SAcquire _ | SAbandon _ _ | SBegin _ _ | SReturn _ _ _ _ _ => true | _ => false end.

Lemma weight_delete rid ph p : p !! rid = Some ph → weight p = (phase_weight ph + weight (delete rid p))%nat.
Proof. intros Hp. unfold weight. by rewrite (map_fold_delete_L _ _ rid ph) by (done || lia). Qed.

Lemma weight_insert rid ph ph' p : p !! rid = Some ph →
  (weight (<[rid := ph']> p) + phase_weight ph = weight p + phase_weight ph')%nat.
Proof.
  intros Hp. rewrite (weight_delete rid ph p Hp).
  rewrite (weight_delete rid ph' (<[rid := ph']> p)) by (by rewrite lookup_insert_eq).
  rewrite delete_insert_eq. lia.
Qed.

(** Each of a goroutine's own steps brings it nearer to its end. *)
Lemma own_step_weight s ev s' : own_step ev = true → step s ev = Some s' →
  (weight (procs s') < weight (procs s))%nat.
Proof.
  destruct ev as [w profiles ctx pre sp rid|rid|w rid|w rid|w rid line|w rid ctx res e
    |rid|w rid|run buf|sid|sid|]; simpl; try done; intros _.
  - destruct (bool_decide_reflect (procs s !! rid = Some Waiting)) as [Hp|]; [|done].
    destruct (bool_decide _); [|done]. intros [= <-]. simpl.
    pose proof (weight_insert rid Waiting Acquired _ Hp). simpl in *. lia.
  - destruct (procs s !! rid) as [[]|] eqn:Hp; try done. destruct (runs _ !! rid); [|done].
    destruct (life_done _ _); [|done]. intros [= <-]. simpl. rewrite (weight_delete _ _ _ Hp). simpl. lia.
  - destruct (procs s !! rid) as [[]|] eqn:Hp; try done. destruct (runs _ !! rid); [|done].
    destruct (life_done _ _); [intros [= <-]; simpl; rewrite (weight_delete _ _ _ Hp); simpl; lia|].
    destruct (transitionLocked _ _ _ _) as [[]|]; intros [= <-]; simpl.
    + pose proof (weight_insert rid Acquired Executing _ Hp). simpl in *. lia.
    + rewrite (weight_delete _ _ _ Hp). simpl. lia.
  - destruct (procs s !! rid) as [[]|] eqn:Hp; try done. destruct (runs _ !! rid); [|done].
    destruct (ctx_possible _ _ _); [|done]. intros [= <-]. simpl. rewrite (weight_delete _ _ _ Hp). simpl. lia.
Qed.

(** No deadlock: while a goroutine is left, one of them can step. *)
Lemma own_step_enabled s (w : world) : sys_ok s → procs s ≠ ∅ →
  ∃ ev s', own_step ev = true ∧ step s ev = Some s'.
Proof.
  intros [Hm _ Hp _ [Hs Hmax]] Hne.
  destruct (decide (holders (procs s) = ∅)) as [E|E].
  - apply map_choose in Hne as (rid&ph&Hph). destruct (decide (holds ph)) as [Hh|Hh].
    + assert (holders (procs s) !! rid = Some ph) as Hl by (by apply map_lookup_filter_Some).
      by rewrite E, lookup_empty in Hl.
    + assert (ph = Waiting) as -> by (unfold holds in Hh; by destruct ph; [|destruct Hh..]).
      exists (SAcquire rid). simpl. rewrite Hs, E, map_size_empty. destruct Hm as [_ Hmx _].
      rewrite !bool_decide_true by (done || (simpl; lia)). by eexists.
  - apply map_choose in E as (rid&ph&[Hph Hh]%map_lookup_filter_Some). simpl in Hh.
    destruct (Hp _ _ Hph) as (rs&Hr&_&Hst). destruct ph; [by destruct Hh| |].
    + exists (SBegin w rid). simpl. rewrite Hph, Hr. destruct (life_done _ _); [by eexists|].
      destruct (transitionLocked _ _ _ _) as [[]|]; by eexists.
    + exists (SReturn w rid (if life_done (mgr s) rs then CtxCanceled else CtxNone) zero_result None).
      simpl. rewrite Hph, Hr. destruct (life_done (mgr s) rs) eqn:El; simpl; rewrite El; by eexists.
Qed.

(** Runs of the system. *)
Fixpoint steps (s : system) (evs : list event) : option system :=
  match evs with [] => Some s | ev :: evs => step s ev ≫= λ s, steps s evs end.

(** C31. No run is left hanging. In every reachable state, each step of a run's
    goroutine brings the system nearer to the state without goroutines, and
    while one is left some goroutine can step, whatever the others wait for; so
    at most three steps per goroutine lead to a state where every known run has
    a terminal status and every [Wait] returns. *)
Theorem runs_terminate w opts file s :
  keys_ok file → reachable (start_system (NewRunManager w opts file)) s →
  (∀ ev s', own_step ev = true → step s ev = Some s' → (weight (procs s') < weight (procs s))%nat) ∧
  ∃ evs s', (length evs ≤ weight (procs s))%nat ∧ Forall (λ ev, own_step ev = true) evs ∧
    steps s evs = Some s' ∧ procs s' = ∅ ∧ sem s' = 0 ∧
    ∀ rid rs, runs (mgr s') !! rid = Some rs →
      terminalRunStatus (status rs) = true ∧ Wait rid (mgr s') = Some (snapshotLocked rs).
Proof.
  intros Hk Hreach. split; [intros ev s'; apply own_step_weight|].
  pose proof (reachable_ok _ _ (NewRunManager_ok w opts file Hk) Hreach) as Hok. clear Hreach.
  remember (weight (procs s)) as k eqn:Ek. revert s Hok Ek.
  induction (lt_wf k) as [k _ IH]. intros s Hok Ek.
  destruct (decide (procs s = ∅)) as [E|Hne].
  - exists [], s. split_and!; [simpl; lia|done|done|done| |].
    + destruct (so_sem _ Hok) as [-> _]. rewrite E. unfold holders. by rewrite map_filter_empty.
    + intros rid rs Hr. destruct (mo_runs _ (so_mgr _ Hok) _ _ Hr) as [_ Hro].
      assert (Ht : terminalRunStatus (status rs) = true).
      { destruct (terminalRunStatus (status rs)) eqn:Ht; [done|].
        destruct (so_live _ Hok _ _ Hr Ht) as [ph Hph]. by rewrite E, lookup_empty in Hph. }
      split; [done|]. unfold Wait. by rewrite Hr, (ro_done _ _ Hro), Ht.
  - destruct (own_step_enabled s w Hok Hne) as (ev&s1&Hown&Hstep).
    pose proof (own_step_weight _ _ _ Hown Hstep) as Hlt.
    destruct (IH (weight (procs s1)) ltac:(lia) s1) as (evs&s'&Hl&Hf&Hs&Hrest);
      [by apply (sys_ok_step _ _ _ Hok Hstep)|done|].
    exists (ev :: evs), s'. split_and!; try apply Hrest; [simpl; lia|by constructor|].
    simpl. by rewrite Hstep.
Qed.

(** ** A concrete manager

    A file that a crashed process left with a running run, and a second run
    started, scheduled and finished on it. *)
Lemma steps_reachable s0 s evs s' : reachable s0 s → steps s evs = Some s' → reachable s0 s'.
Proof.
  revert s. induction evs as [|ev evs IH]; intros s Hs; simpl; [by intros [= <-]|].
  destruct (step s ev) as [s1|] eqn:E; [|done]. simpl. apply IH. by eapply reach_step.
Qed.

Lemma steps_reachable_writing s0 s evs s' : reachable_writing s0 s → Forall writes_ok evs →
  steps s evs = Some s' → reachable_writing s0 s'.
Proof.
  revert s. induction evs as [|ev evs IH]; intros s Hs Hw; simpl; [by intros [= <-]|].
  apply Forall_cons in Hw as [Hw Hws].
  destruct (step s ev) as [s1|] eqn:E; [|done]. simpl. apply IH; [|done]. by eapply rw_step.
Qed.

Definition sample_world : world := {| now := 5000000000; db_up := true |}.
Definition sample_row : run_row := {|
  rr_id := "old"; rr_workspace := "/w"; rr_client := "omp"; rr_agent := ""; rr_model := "";
  rr_thinking := ""; rr_task := "fix"; rr_status := RunRunning; rr_started_at := 7; rr_finished_at := 0;
  rr_elapsed_ms := 0; rr_output := ""; rr_error := ""; rr_event_count := 0 |}.
Definition sample_file : runStore := {|
  agent_runs := {[ "old" := sample_row ]};
  agent_run_events := [
    {| er_run_id := "old"; er_seq := 1; er_at_ms := 6; er_source := "codebridge";
       er_kind := "run.queued"; er_payload := "" |};
    {| er_run_id := "old"; er_seq := 2; er_at_ms := 7; er_source := "codebridge";
       er_kind := "run.started"; er_payload := "" |}] |}.
Definition sample_options : list RunManagerOption := [WithStore "runs.db"; WithEventCapacity 2].
Definition sample_spec : RunSpec := {|
  Workspace := "/w"; Task := "test"; Client := ""; Agent := ""; Model := ""; Thinking := "low";
  TimeoutSeconds := 0 |}.
Definition sample_system : system := start_system (NewRunManager sample_world sample_options sample_file).
Definition sample_events : list event := [
  SStart sample_world [] None (λ _, None) sample_spec "r1"; SAcquire "r1"; SBegin sample_world "r1"].
Definition sample_running : system := default sample_system (steps sample_system sample_events).
Definition sample_return : event :=
  SReturn sample_world "r1" CtxNone {| res_Status := "completed"; res_Output := "ok" |} None.
Definition sample_done : system := default sample_running (step sample_running sample_return).
Definition sample_run : runState := default (new_run 0 "" sample_spec) (runs (mgr sample_running) !! "r1").

Lemma sample_keys : keys_ok sample_file.
Proof. intros rid r H. simpl in H. by apply lookup_singleton_Some in H as [<- <-]. Qed.

Lemma sample_file_ok : file_ok sample_file.
Proof.
  split; [apply sample_keys| |].
  - intros rid [r H]. simpl in H. apply lookup_singleton_Some in H as [<- <-]. by exists 2.
  - intros r. simpl. rewrite !elem_of_cons, elem_of_nil. intros [->|[->|[]]]; by eexists.
Qed.

Lemma sample_steps : steps sample_system sample_events = Some sample_running.
Proof. by vm_compute. Qed.

Lemma sample_reachable : reachable sample_system sample_running.
Proof. apply (steps_reachable _ sample_system sample_events); [constructor|apply sample_steps]. Qed.

Lemma sample_run_known : runs (mgr sample_running) !! "r1" = Some sample_run.
Proof. by vm_compute. Qed.


Lemma agent_run_slots_witness : sem sample_running = Z.of_nat (size (holders (procs sample_running))).
Proof.
  apply (agent_run_slots sample_world sample_options sample_file sample_running sample_keys sample_reachable).
Defined.

Lemma finishOutcome_spec_witness :
  ∃ rs', runs (finishOutcome sample_world "r1" CtxNone {| res_Status := " Completed "; res_Output := "ok" |}
                 None (mgr sample_running)) = <[ "r1" := rs' ]> (runs (mgr sample_running)) ∧
    ended sample_world RunCompleted {| res_Status := " Completed "; res_Output := "ok" |} "" sample_run rs'.
Proof.
  apply (finishOutcome_spec sample_world "r1" CtxNone {| res_Status := " Completed "; res_Output := "ok" |}
    None (mgr sample_running) sample_run).
  - apply sample_run_known.
  - by vm_compute.
  - by vm_compute.
Defined.

Lemma sample_runs_ok : runs_ok (mgr sample_running).
Proof. eapply so_mgr, reachable_ok; [|apply sample_reachable]. apply NewRunManager_ok, sample_keys. Qed.

Lemma events_are_last_lines_witness :
  Events "r1" 0 (foldl (λ m wl, recordEvent wl.1 "r1" wl.2 m) (mgr sample_running)
    [(sample_world, "a"); (sample_world, "b"); (sample_world, "c")]) = ["b"; "c"].
Proof.
  apply (events_are_last_lines "r1" sample_run (mgr sample_running)
    [(sample_world, "a"); (sample_world, "b"); (sample_world, "c")] 0).
  - apply sample_runs_ok.
  - apply sample_run_known.
  - by vm_compute.
  - by vm_compute.
Defined.

Definition sample_store : runStore := default empty_store (store (mgr sample_running)).

Lemma agent_journal_complete_witness : file_ok sample_store ∧
  ev_Seq <$> EventsAfter sample_world "old" 1 10 (mgr sample_running) = [2; 3].
Proof.
  destruct (agent_journal_complete sample_world sample_options sample_file sample_running sample_store)
    as [Hf Hruns]; [apply sample_file_ok| |by vm_compute|].
  - apply (steps_reachable_writing _ sample_system sample_events); [constructor| |apply sample_steps].
    by repeat constructor.
  - split; [exact Hf|].
    destruct (runs (mgr sample_running) !! "old") as [rs|] eqn:Hr; [|by vm_compute in Hr].
    destruct (Hruns "old" rs Hr) as [_ Hp]. destruct (Hp sample_world 1 10) as [_ ->]; [done|done|done|].
    assert (eventSeq rs = 3) as -> by (vm_compute in Hr; by injection Hr as <-). done.
Defined.

Lemma recovery_once_witness :
  run_rows "old" (default empty_store (openRunStore "runs.db" 5000000000 sample_file)) =
  run_rows "old" sample_file ++ [interrupted_event 5000000000 "old" sample_file].
Proof.
  apply (recovery_once "runs.db" 5000000000 sample_file
    (default empty_store (openRunStore "runs.db" 5000000000 sample_file))).
  by vm_compute.
Defined.

Lemma runs_terminate_witness :
  ∃ evs s', (length evs ≤ weight (procs sample_running))%nat ∧ Forall (λ ev, own_step ev = true) evs ∧
    steps sample_running evs = Some s' ∧ procs s' = ∅ ∧ sem s' = 0 ∧
    ∀ rid rs, runs (mgr s') !! rid = Some rs →
      terminalRunStatus (status rs) = true ∧ Wait rid (mgr s') = Some (snapshotLocked rs).
Proof.
  apply (runs_terminate sample_world sample_options sample_file sample_running sample_keys sample_reachable).
Defined.

(** [Cancel] of a run loaded from the store calls its nil [lifeStop] and panics,
    although the run is finished and cancelling it should change nothing. *)
Lemma Cancel_loaded_panics : Cancel "old" (mgr sample_running) = CancelPanics.
Proof. by vm_compute. Qed.
