(* ===== verification/Replay.v ===== *)
(** * Replaying runs to the manager

    [src/cmd/client/runtime_events.go]: the heads a client advertises after it
    reconnects and the replay of the suffixes the manager asks for. *)

From stdpp Require Import pretty.
From S2P Require Import Prelude Entities GoStrings AgentRuns RunBroker.
Import protocol.
Open Scope Z_scope.

Definition maxClientRunHeads : Z := 256.
Definition runReplayBatchSize : Z := 200.
(** [maxAgentResponseBytes] of [src/cmd/client/main.go]. *)
Definition maxAgentResponseBytes : Z := 768 * 1024.

Section replay.
(** The length of the JSON ([json.Marshal]) of an event and of a list of heads,
    and whether the stream takes the next envelope after those already sent. *)
Context (json_len : protocol.RunEvent → Z) (heads_len : list RunHead → Z)
  (send_ok : list protocol.RunEvent → bool).

Definition wire_event (ev : AgentRuns.RunEvent) : protocol.RunEvent := {|
  RunID := ev_RunID ev; Seq := ev_Seq ev; At := ev_At ev; Source := ev_Source ev;
  Kind := ev_Kind ev; Payload := ev_Payload ev |}.

(** [runtimeEventEnvelope]: the event in the envelope's payload. *)
Definition runtimeEventEnvelope (ev : AgentRuns.RunEvent) : protocol.RunEvent :=
  let wire := wire_event ev in
  if decide (maxAgentResponseBytes < json_len wire)
  then {| RunID := RunID wire; Seq := Seq wire; At := At wire; Source := Source wire; Kind := Kind wire;
          Payload := "[runtime event payload omitted: " +:+ pretty (String.length (ev_Payload ev))
                     +:+ " bytes]" |}
  else wire.

(** [sendRunHeads]: the heads of the envelope that is sent; [Ok None] when there
    is nothing to advertise, an error when the list is too long to send. *)
Definition run_heads (m : RunManager) : list RunHead :=
  omap (λ snap,
    if bool_decide (run_ID snap = "") || bool_decide (run_LastSeq snap ≤ 0) then None
    else Some {| head_RunID := run_ID snap; LastSeq := run_LastSeq snap; Status := run_Status snap |})
    (ListRuns maxClientRunHeads m).

Definition sendRunHeads (m : RunManager) : result string (option (list RunHead)) :=
  match run_heads m with
  | [] => Ok None
  | heads =>
      if decide (maxAgentResponseBytes < heads_len heads) then Err "runtime run-head payload exceeds the limit"
      else Ok (Some heads)
  end.

Inductive replay_err : Type :=
  | ETooManyCursors | EInvalidCursor (run : string) | EReplayGap (run : string) (after through : Z)
  | EReplayOrder (run : string) (got after : Z) | ENoProgress (run : string) (after : Z) | ESend.

(** The inner loop over one page: the events sent so far, the cursor, and
    whether it moved. *)
Fixpoint replay_page (through : Z) (sent : list protocol.RunEvent) (next : Z) (progressed : bool)
    (page : list AgentRuns.RunEvent) : list protocol.RunEvent * result replay_err (Z * bool) :=
  match page with
  | [] => (sent, Ok (next, progressed))
  | ev :: page =>
      if decide (ev_Seq ev ≤ next) then replay_page through sent next progressed page
      else if decide (through < ev_Seq ev) then (sent, Ok (next, progressed))
      else if decide (ev_Seq ev ≠ next + 1) then (sent, Err (EReplayOrder (ev_RunID ev) (ev_Seq ev) next))
      else if negb (send_ok sent) then (sent, Err ESend)
      else replay_page through (sent ++ [runtimeEventEnvelope ev]) (ev_Seq ev) true page
  end.

(** The loop over the pages of one cursor. Every turn moves the cursor, so the
    distance to its end is enough fuel. *)
Fixpoint replay_cursor (fuel : nat) (pages : Z → list AgentRuns.RunEvent) (run : string) (through : Z)
    (sent : list protocol.RunEvent) (next : Z) : list protocol.RunEvent * result replay_err () :=
  if decide (through ≤ next) then (sent, Ok ())
  else
    match fuel with
    | O => (sent, Ok ())
    | S fuel =>
        let page := pages next in
        match page with
        | [] => (sent, Err (EReplayGap run next through))
        | _ :: _ =>
            match replay_page through sent next false page with
            | (sent, Err e) => (sent, Err e)
            | (sent, Ok (next, progressed)) =>
                if negb progressed then (sent, Err (ENoProgress run next))
                else replay_cursor fuel pages run through sent next
            end
        end
    end.

(** [replayRunEvents] with [EventsAfter] as the client's manager answers it. *)
Fixpoint replay_cursors (eventsAfter : string → Z → Z → list AgentRuns.RunEvent)
    (sent : list protocol.RunEvent) (cursors : list RunReplayCursor) :
    list protocol.RunEvent * result replay_err () :=
  match cursors with
  | [] => (sent, Ok ())
  | c :: cursors =>
      if bool_decide (cur_RunID c = "") || bool_decide (AfterSeq c < 0) ||
         bool_decide (ThroughSeq c < AfterSeq c)
      then (sent, Err (EInvalidCursor (cur_RunID c)))
      else
        match replay_cursor (Z.to_nat (ThroughSeq c - AfterSeq c))
                (λ next, eventsAfter (cur_RunID c) next runReplayBatchSize)
                (cur_RunID c) (ThroughSeq c) sent (AfterSeq c) with
        | (sent, Err e) => (sent, Err e)
        | (sent, Ok _) => replay_cursors eventsAfter sent cursors
        end
  end.

Definition replayRunEvents (eventsAfter : string → Z → Z → list AgentRuns.RunEvent)
    (cursors : list RunReplayCursor) : list protocol.RunEvent * result replay_err () :=
  if decide (maxClientRunHeads < Z.of_nat (length cursors)) then ([], Err ETooManyCursors)
  else replay_cursors eventsAfter [] cursors.

(** ** Lemmas *)

(** The envelope keeps what the broker looks at. *)
Lemma envelope_fields ev :
  RunID (runtimeEventEnvelope ev) = ev_RunID ev ∧ Seq (runtimeEventEnvelope ev) = ev_Seq ev ∧
  Kind (runtimeEventEnvelope ev) = ev_Kind ev.
Proof. unfold runtimeEventEnvelope. by case_decide. Qed.

(** A page numbered from the cursor is sent up to the end of the request. *)
Lemma replay_page_numbered through sent next progressed page :
  (∀ l, send_ok l = true) → ev_Seq <$> page = seqZ (next + 1) (Z.of_nat (length page)) →
  next ≤ through →
  let k := Z.to_nat (through - next) in
  replay_page through sent next progressed page =
  (sent ++ (runtimeEventEnvelope <$> take k page),
   Ok (next + Z.of_nat (min k (length page)), progressed || bool_decide (0 < min k (length page))%nat)).
Proof.
  intros Hsend. revert sent next progressed. induction page as [|ev page IH]; intros sent next progressed; simpl.
  - intros _ Hle. rewrite take_nil, app_nil_r, Nat.min_0_r, orb_false_r. simpl. by rewrite Z.add_0_r.
  - rewrite Nat2Z.inj_succ, seqZ_cons by lia. rewrite Z.pred_succ. intros [= Hs Hpage] Hle.
    rewrite decide_False by lia. destruct (decide (through < ev_Seq ev)) as [Hlt|Hge].
    + replace (Z.to_nat (through - next)) with 0%nat by lia. simpl. rewrite app_nil_r, orb_false_r.
      by rewrite Z.add_0_r.
    + rewrite decide_False by (intros Hx; by apply Hx). rewrite Hsend. cbn [negb].
      rewrite Hs. rewrite IH; [|by replace (next + 1 + 1) with (Z.succ (next + 1)) by lia|lia].
      replace (Z.to_nat (through - next)) with (S (Z.to_nat (through - (next + 1)))) by lia. simpl.
      rewrite <-app_assoc. simpl. f_equal. f_equal. f_equal; [lia|]. by rewrite orb_true_r.
Qed.

(** Pages of a journal numbered from 1: the replay of a cursor sends exactly the
    events after it, up to its end. *)
Lemma replay_cursor_numbered fuel run through sent next evs pages :
  (∀ l, send_ok l = true) → ev_Seq <$> evs = seqZ 1 (Z.of_nat (length evs)) →
  (∀ q, 0 ≤ q → pages q = take (Z.to_nat runReplayBatchSize) (drop (Z.to_nat q) evs)) →
  0 ≤ next → next ≤ through ≤ Z.of_nat (length evs) → (Z.to_nat (through - next) ≤ fuel)%nat →
  replay_cursor fuel pages run through sent next =
  (sent ++ (runtimeEventEnvelope <$> take (Z.to_nat (through - next)) (drop (Z.to_nat next) evs)), Ok ()).
Proof.
  intros Hsend Hseq. assert (HB : (0 < Z.to_nat runReplayBatchSize)%nat) by (vm_compute; lia).
  revert HB. generalize (Z.to_nat runReplayBatchSize) as B. intros B HB Hpages. revert sent next.
  induction fuel as [|fuel IH]; intros sent next Hn Hle Hf; simpl.
  { rewrite decide_True by lia. replace (Z.to_nat (through - next)) with 0%nat by lia. by rewrite app_nil_r. }
  case_decide as Hdone.
  { replace (Z.to_nat (through - next)) with 0%nat by lia. by rewrite app_nil_r. }
  rewrite (Hpages next Hn). set (rest := drop (Z.to_nat next) evs).
  set (page := take B rest).
  assert (Hrest : Z.of_nat (length rest) = Z.of_nat (length evs) - next)
    by (unfold rest; rewrite length_drop; lia).
  assert (Hlen : length page = min B (length rest)) by (unfold page; by rewrite length_take).
  assert (Hpage : ev_Seq <$> page = seqZ (next + 1) (Z.of_nat (length page))).
  { rewrite Hlen. unfold page, rest. rewrite fmap_take, fmap_drop, Hseq. unfold seqZ.
    change (length (drop (Z.to_nat next) evs)) with (length rest).
    apply list_eq. intros i. rewrite !list_lookup_fmap.
    destruct (decide (i < min B (length rest))%nat).
    - rewrite lookup_take_lt, lookup_drop, list_lookup_fmap by lia.
      rewrite !lookup_seq_lt by lia. simpl. apply (f_equal Some). lia.
    - rewrite (lookup_seq_ge _ _ i) by lia. apply lookup_ge_None.
      rewrite length_take, length_drop, length_fmap, length_seq. lia. }
  assert (Htake : take (Z.to_nat (through - next)) page =
    take (min (Z.to_nat (through - next)) (length page)) rest).
  { unfold page. rewrite take_take. f_equal. rewrite length_take. lia. }
  pose proof (replay_page_numbered through sent next false page Hsend Hpage ltac:(lia)) as Hp.
  cbv zeta in Hp. clearbody page.
  assert (Hm : ∀ X Y : list protocol.RunEvent * result replay_err (),
    match page with [] => X | _ :: _ => Y end = Y) by (intros; destruct page; [simpl in Hlen; lia|done]).
  rewrite Hm, Hp. set (k := min (Z.to_nat (through - next)) (length page)) in *.
  assert (Hk : (0 < k)%nat) by (unfold k; lia). rewrite bool_decide_true by done. cbn [negb orb].
  rewrite IH by lia. rewrite <-app_assoc. f_equal. f_equal. rewrite <-fmap_app. f_equal.
  rewrite Htake. unfold rest. rewrite <-(take_drop k (take (Z.to_nat (through - next)) _)).
  rewrite take_take, Nat.min_l by lia. f_equal.
  rewrite skipn_firstn_comm, drop_drop. f_equal; [lia|]. f_equal. lia.
Qed.
End replay.
