(* ===== verification/BrokerSpec.v ===== *)
(** * What run-event synchronisation guarantees

    The broker's head against the set of events received, the exactness of the
    replay it asks for, and that a reconnecting client's replay closes the
    gap. *)

From stdpp Require Import pretty.
From S2P Require Import Prelude Entities GoStrings RunBroker AgentRuns Replay.
Import protocol.
Open Scope Z_scope.

(** Events given to the state of one run, in order; the sequences accepted. *)
Fixpoint accept_all (st : runEventState) (evs : list protocol.RunEvent) :
    runEventState * list Z :=
  match evs with
  | [] => (st, [])
  | ev :: evs =>
      let '(st1, r) := accept_event st ev in
      let '(st2, qs) := accept_all st1 evs in
      (st2, match r with Ok (_, true) => Seq ev :: qs | _ => qs end)
  end.

Lemma accept_all_ok st S evs : broker_ok st S → Forall (λ ev, 1 ≤ Seq ev ≤ max_int64) evs →
  let '(st', qs) := accept_all st evs in
  broker_ok st' (list_to_set qs ∪ S) ∧ head st ≤ head st' ∧ NoDup qs ∧ (∀ q, q ∈ qs → q ∉ S).
Proof.
  revert st S. induction evs as [|ev evs IH]; intros st S Hok Hseq; simpl.
  { split_and!; [by rewrite union_empty_l_L|lia|constructor|set_solver]. }
  apply Forall_cons in Hseq as [Hs Hseq].
  pose proof (accept_event_spec st S ev Hok Hs) as H. destruct (accept_event st ev) as [st1 r].
  destruct H as [Hdup Hnew]. destruct (decide (Seq ev ∈ S)) as [Hin|Hin].
  { destruct (Hdup Hin) as [-> ->]. specialize (IH st S Hok Hseq). by destruct (accept_all st evs). }
  destruct (Hnew Hin) as [(Hok1&->&Hle)|(->&_&_&->)].
  - specialize (IH st1 _ Hok1 Hseq). destruct (accept_all st1 evs) as [st2 qs].
    destruct IH as (H1&H2&H3&H4). split_and!.
    + by rewrite list_to_set_cons, (comm_L (∪) {[Seq ev]}), <-(assoc_L (∪)).
    + lia.
    + constructor; [|done]. intros Hq. apply (H4 _ Hq). set_solver.
    + intros q [->|Hq]%elem_of_cons; [done|]. specialize (H4 q Hq). set_solver.
  - specialize (IH st S Hok Hseq). by destruct (accept_all st evs).
Qed.

(** C28. Whatever events arrive for a run, in whatever order and however often,
    each sequence number is accepted at most once, the head is the end of the
    gap-free prefix of the numbers accepted so far, the events waiting for an
    earlier one are exactly the accepted ones beyond it, never more than the
    bound, and the last event is the one that moved the head there. *)
Theorem broker_head_is_prefix evs : Forall (λ ev, 1 ≤ Seq ev ≤ max_int64) evs →
  let '(st, accepted) := accept_all new_state evs in
  NoDup accepted ∧
  (∀ q, 1 ≤ q ≤ head st → q ∈ accepted) ∧ (head st + 1 ∉ accepted) ∧
  (∀ q, is_Some (pending st !! q) ↔ q ∈ accepted ∧ head st < q) ∧
  Z.of_nat (size (pending st)) ≤ maxPendingRunEvents ∧
  (0 < head st → ∃ ev, last st = Some ev ∧ Seq ev = head st).
Proof.
  intros Hseq. pose proof (accept_all_ok new_state ∅ evs broker_ok_new Hseq) as H.
  destruct (accept_all new_state evs) as [st qs]. destruct H as (Hok&_&Hnd&_).
  rewrite union_empty_r_L in Hok. destruct Hok as [H1 H2 H3 H4 H5 H6 [_ H7]].
  split_and!; try done.
  - intros q Hq. by apply H2, elem_of_list_to_set in Hq.
  - intros Hin. apply H3. by apply elem_of_list_to_set.
  - intros q. split.
    + intros [ev Hev]. destruct (H4 _ _ Hev) as (_&Hin&Hlt). apply elem_of_list_to_set in Hin.
      split; [done|lia].
    + intros [Hin Hlt]. assert (q ∈ (list_to_set qs : gset Z)) as Hin' by (by apply elem_of_list_to_set).
      destruct (H5 _ Hin') as [_ [?|?]]; [lia|done].
Qed.

(** All numbers up to [n] accepted: nothing is left waiting below. *)
Lemma head_complete st S n : broker_ok st S → 0 ≤ n → (∀ q, 1 ≤ q ≤ n → q ∈ S) → n ≤ head st.
Proof.
  intros [H1 H2 H3 H4 H5 H6 H7] Hn Hall. destruct (decide (n ≤ head st)) as [|Hlt]; [done|].
  exfalso. apply H3, Hall. lia.
Qed.

(** Within a window of [n] numbers there is room for every event that is not the
    next one: the waiting events are other numbers between the head and [n]. *)
Lemma window_room st S n q : broker_ok st S → (∀ p, p ∈ S → p ≤ n) → n ≤ maxPendingRunEvents + 1 →
  1 ≤ q ≤ n → q ∉ S → q ≠ head st + 1 → Z.of_nat (size (pending st)) < maxPendingRunEvents.
Proof.
  intros Hok Hmax Hn Hq Hnew Hne.
  assert (Hlt : head st < q).
  { destruct (decide (head st < q)); [done|]. destruct Hnew. apply (bo_prefix _ _ Hok). lia. }
  assert (Hnp : q ∉ dom (pending st)).
  { intros [ev E]%elem_of_dom. by destruct (bo_pending _ _ Hok _ _ E) as (_&?&_). }
  assert (Hsub : {[q]} ∪ dom (pending st) ⊆ list_to_set (seqZ (head st + 2) (n - head st - 1))).
  { intros p [->%elem_of_singleton|[e He]%elem_of_dom]%elem_of_union;
      apply elem_of_list_to_set, elem_of_seqZ; [lia|].
    destruct (bo_pending _ _ Hok _ _ He) as (_&Hp&Hlt'). pose proof (Hmax p Hp).
    assert (p ≠ head st + 1) by (intros ->; by apply (bo_gap _ _ Hok)). lia. }
  pose proof (bo_head _ _ Hok). apply subseteq_size in Hsub.
  rewrite size_list_to_set in Hsub by apply NoDup_seqZ.
  rewrite length_seqZ, size_union, size_singleton, size_dom in Hsub by (by apply disjoint_singleton_l).
  lia.
Qed.

(** So nothing is refused within the window. *)
Lemma accept_all_window n evs st S : n ≤ maxPendingRunEvents + 1 →
  Forall (λ ev, 1 ≤ Seq ev ≤ n) evs → broker_ok st S → (∀ q, q ∈ S → q ≤ n) →
  ∀ q, q ∈ (list_to_set (accept_all st evs).2 ∪ S : gset Z) ↔ q ∈ S ∨ q ∈ Seq <$> evs.
Proof.
  intros Hn Hseq. revert st S. induction evs as [|ev evs IH]; intros st S Hok Hmax q; simpl; [set_solver|].
  apply Forall_cons in Hseq as [Hs Hseq]. specialize (IH Hseq).
  assert (Hs' : 1 ≤ Seq ev ≤ max_int64) by (unfold maxPendingRunEvents, max_int64 in *; lia).
  pose proof (accept_event_spec st S ev Hok Hs') as H. destruct (accept_event st ev) as [st1 r].
  destruct H as [Hdup Hnew]. destruct (decide (Seq ev ∈ S)) as [Hin|Hin].
  { destruct (Hdup Hin) as [-> ->]. specialize (IH st S Hok Hmax q). destruct (accept_all st evs).
    simpl in *. rewrite IH. set_solver. }
  destruct (Hnew Hin) as [(Hok1&->&_)|(_&Hfull&Hne&_)].
  - specialize (IH st1 _ Hok1 ltac:(set_solver) q). destruct (accept_all st1 evs) as [st2 qs].
    simpl in *. rewrite <-(assoc_L (∪)), elem_of_union, elem_of_cons. rewrite elem_of_union in IH.
    set_solver.
  - pose proof (window_room st S n (Seq ev) Hok Hmax Hn Hs Hin Hne). lia.
Qed.

(** Order does not matter within the window. When events of the numbers
    [1..n] arrive, each at least once and in any order, and [n] is at most one
    more than the bound on waiting events, none is refused and the head ends at
    [n]. *)
Theorem broker_order_independent n evs :
  0 ≤ n ≤ maxPendingRunEvents + 1 → Forall (λ ev, 1 ≤ Seq ev ≤ n) evs →
  (∀ q, 1 ≤ q ≤ n → q ∈ Seq <$> evs) →
  let '(st, accepted) := accept_all new_state evs in
  head st = n ∧ pending st = ∅ ∧ accepted ≡ₚ seqZ 1 n.
Proof.
  intros Hn Hseq Hall.
  pose proof (accept_all_window n evs new_state ∅ (proj2 Hn) Hseq broker_ok_new ltac:(set_solver)) as Hgen.
  assert (Hseq' : Forall (λ ev, 1 ≤ Seq ev ≤ max_int64) evs).
  { eapply Forall_impl; [exact Hseq|]. intros ev Hev. unfold maxPendingRunEvents, max_int64 in *.
    simpl in *. lia. }
  pose proof (accept_all_ok new_state ∅ evs broker_ok_new Hseq') as H.
  destruct (accept_all new_state evs) as [st qs]. destruct H as (Hok&_&Hnd&_). simpl in Hgen.
  rewrite union_empty_r_L in Hok. setoid_rewrite union_empty_r_L in Hgen.
  assert (Hiff : ∀ q, q ∈ (list_to_set qs : gset Z) ↔ 1 ≤ q ≤ n).
  { intros q. rewrite Hgen. split; [|by right; apply Hall].
    intros [?|(ev&->&Hin)%list_elem_of_fmap]; [set_solver|]. rewrite Forall_forall in Hseq. by apply Hseq. }
  assert (Hhead : head st = n).
  { assert (n ≤ head st) by (eapply head_complete; [exact Hok|lia|]; intros q Hq; by apply Hiff).
    destruct (decide (head st = n)) as [|Hne]; [done|].
    assert (1 ≤ head st ≤ n) by (apply Hiff, (bo_prefix _ _ Hok); lia). lia. }
  split_and!; [done| |].
  - apply map_empty. intros q. destruct (pending st !! q) as [ev|] eqn:E; [|done]. exfalso.
    destruct (bo_pending _ _ Hok _ _ E) as (_&Hin&Hlt). apply Hiff in Hin. lia.
  - apply NoDup_Permutation; [done|apply NoDup_seqZ|]. intros q.
    rewrite <-(elem_of_list_to_set (C:=gset Z)), Hiff, elem_of_seqZ. lia.
Qed.

(** ** What the manager asks for *)

(** A head the broker takes: a named run and a position. *)
Definition valid_head (h : RunHead) : Prop := head_RunID h ≠ "" ∧ 0 ≤ LastSeq h.

(** The suffix of one advertised run that is missing. *)
Definition missing_cursor (account deviceID : string) (b : RunEventBroker) (h : RunHead) :
    option RunReplayCursor :=
  let managerHead := Head account deviceID (head_RunID h) b in
  if decide (managerHead < LastSeq h)
  then Some {| cur_RunID := head_RunID h; AfterSeq := managerHead; ThroughSeq := LastSeq h |}
  else None.

Lemma missing_from_ok account deviceID b seen heads cursors :
  missing_from account deviceID b seen heads = Ok cursors ↔
  Forall valid_head heads ∧ NoDup (head_RunID <$> heads) ∧
  (∀ h, h ∈ heads → head_RunID h ∉ seen) ∧
  cursors = omap (missing_cursor account deviceID b) heads.
Proof.
  revert seen cursors. induction heads as [|h heads IH]; intros seen cursors; simpl.
  { split; [intros [= <-]|intros (_&_&_&->)]; [|done].
    split_and!; [constructor|constructor|set_solver|done]. }
  rewrite Forall_cons, NoDup_cons. unfold valid_head at 1.
  destruct (bool_decide_reflect (head_RunID h = "")) as [|Hid]; [simpl; split; [done|naive_solver]|].
  destruct (bool_decide_reflect (LastSeq h < 0)) as [|Hseq]; [simpl; split; [done|intros (((_&?)&_)&_); lia]|].
  simpl. destruct (decide (head_RunID h ∈ seen)) as [Hs|Hs].
  { split; [done|]. intros (_&_&Hn&_). by destruct (Hn h ltac:(by left)). }
  specialize (IH ({[head_RunID h]} ∪ seen)). unfold missing_cursor at 1.
  destruct (missing_from _ _ _ _ heads) as [rest|e]; cbn.
  - destruct (IH rest) as [IH1 _]. destruct (IH1 eq_refl) as (Hf&Hnd&Hns&Hrest). clear IH IH1.
    assert (Hcons : (∀ h', h' ∈ h :: heads → head_RunID h' ∉ seen) ∧ head_RunID h ∉ head_RunID <$> heads).
    { split.
      - intros h' [->|Hin]%elem_of_cons; [done|]. specialize (Hns h' Hin). set_solver.
      - intros (h'&E&Hin)%list_elem_of_fmap. specialize (Hns h' Hin). rewrite <-E in Hns. set_solver. }
    destruct Hcons as [Hc1 Hc2]. subst rest. split.
    + intros [= <-]. split_and!; try done; [lia|]. by repeat case_decide; try lia.
    + intros (_&_&_&->). f_equal. by repeat case_decide; try lia.
  - split; [done|]. intros ((_&Hf)&(Hni&Hnd)&Hns&_).
    destruct (IH (omap (missing_cursor account deviceID b) heads)) as [_ IH2].
    discriminate IH2. split_and!; [done|done| |done].
    intros h' Hin [E%elem_of_singleton|Hx]%elem_of_union.
    + apply Hni. apply list_elem_of_fmap. by exists h'.
    + by apply (Hns h' ltac:(by right)).
Qed.

(** The manager asks a reconnecting client for exactly what it lacks: it
    accepts at most 256 well-formed, distinct heads of an identified device, and
    answers one cursor for each run whose advertised position is beyond its own
    contiguous head, from that head to that position, in the order advertised. *)
Theorem Missing_spec account deviceID heads b cursors :
  Missing account deviceID heads b = Ok cursors ↔
  account ≠ "" ∧ deviceID ≠ "" ∧ Z.of_nat (length heads) ≤ maxRunSyncHeads ∧
  Forall valid_head heads ∧ NoDup (head_RunID <$> heads) ∧
  cursors = omap (missing_cursor account deviceID b) heads.
Proof.
  unfold Missing.
  destruct (bool_decide_reflect (account = "")) as [|Ha]; [simpl; split; [done|naive_solver]|].
  destruct (bool_decide_reflect (deviceID = "")) as [|Hd]; [simpl; split; [done|naive_solver]|].
  simpl. destruct (decide (Z.of_nat (length heads) > maxRunSyncHeads)) as [Hl|Hl].
  { split; [done|]. intros (_&_&?&_). lia. }
  rewrite missing_from_ok. split.
  - intros (?&?&_&?). split_and!; done || lia.
  - intros (_&_&_&?&?&?). split_and!; try done.
Qed.

(** ** Reconnection *)

(** Every run of the broker is in a good state. *)
Definition broker_all_ok (b : RunEventBroker) : Prop :=
  ∀ key, ∃ S, broker_ok (state_of b key) S.

Lemma Head_state account deviceID run b : Head account deviceID run b = head (state_of b (account, deviceID, run)).
Proof. unfold Head, state_of. by destruct (b !! _). Qed.

(** An event the broker looks at; it never moves a head back. *)
Definition acceptable (ev : protocol.RunEvent) : Prop :=
  RunID ev ≠ "" ∧ 1 ≤ Seq ev ≤ max_int64 ∧ Kind ev ≠ "".

Lemma Accept_event account deviceID ev b : account ≠ "" → deviceID ≠ "" → acceptable ev →
  (Accept account deviceID ev b).1 =
  <[(account, deviceID, RunID ev) := (accept_event (state_of b (account, deviceID, RunID ev)) ev).1]> b.
Proof.
  intros Ha Hd (Hr&Hs&Hk). unfold Accept. rewrite !bool_decide_false by done. simpl.
  rewrite (decide_False (P := RunID ev = "")), (decide_False (P := Seq ev ≤ 0)),
    (decide_False (P := Kind ev = "")) by (done || lia).
  by destruct (accept_event _ _).
Qed.

Lemma state_of_insert b k st k' : state_of (<[k := st]> b) k' = if decide (k = k') then st else state_of b k'.
Proof. unfold state_of. rewrite lookup_insert. by case_decide. Qed.

Lemma Accept_mono account deviceID ev b : account ≠ "" → deviceID ≠ "" → acceptable ev → broker_all_ok b →
  let b' := (Accept account deviceID ev b).1 in
  broker_all_ok b' ∧ (∀ run, Head account deviceID run b ≤ Head account deviceID run b') ∧
  (Seq ev ≤ Head account deviceID (RunID ev) b + 1 → Seq ev ≤ Head account deviceID (RunID ev) b').
Proof.
  intros Ha Hd Hev Hb. cbv zeta. rewrite (Accept_event _ _ _ _ Ha Hd Hev).
  set (k := (account, deviceID, RunID ev)). destruct (Hb k) as [S HS].
  pose proof (accept_event_spec _ S ev HS (proj1 (proj2 Hev))) as H.
  destruct (accept_event (state_of b k) ev) as [st r]. destruct H as [Hdup Hnew]. cbn [fst].
  assert (Hst : (∃ S', broker_ok st S') ∧ head (state_of b k) ≤ head st ∧
    (Seq ev ≤ head (state_of b k) + 1 → Seq ev ≤ head st)).
  { destruct (decide (Seq ev ∈ S)) as [Hin|Hin].
    - destruct (Hdup Hin) as [-> _]. split_and!; [by exists S|lia|]. intros Hle.
      destruct (decide (Seq ev = head (state_of b k) + 1)) as [E|]; [|lia].
      rewrite E in Hin. by destruct (bo_gap _ _ HS).
    - destruct (Hnew Hin) as [(Hok&_&Hle)|(->&_&Hne&_)].
      + split_and!; [by eexists|done|]. intros Hseq. destruct (decide (Seq ev ≤ head st)) as [|Hgt]; [done|].
        destruct (bo_gap _ _ Hok). assert (head st + 1 = Seq ev) as -> by lia. set_solver.
      + split_and!; [by exists S|lia|]. intros Hseq. lia. }
  destruct Hst as (HS'&Hle&Hnext). split_and!.
  - intros k'. rewrite state_of_insert. case_decide; [done|apply Hb].
  - intros run. rewrite !Head_state, state_of_insert. case_decide as E; [|lia]. by injection E as <-.
  - rewrite !Head_state, state_of_insert, decide_True by done. exact Hnext.
Qed.

Definition receive_all (account deviceID : string) (b : RunEventBroker) (evs : list protocol.RunEvent) :
    RunEventBroker := foldl (λ b ev, (Accept account deviceID ev b).1) b evs.

Lemma receive_all_mono account deviceID b evs : account ≠ "" → deviceID ≠ "" → Forall acceptable evs →
  broker_all_ok b →
  broker_all_ok (receive_all account deviceID b evs) ∧
  ∀ run, Head account deviceID run b ≤ Head account deviceID run (receive_all account deviceID b evs).
Proof.
  intros Ha Hd Hevs. revert b. induction Hevs as [|ev evs Hev _ IH]; intros b Hb; simpl.
  - split; [done|]. intros run. unfold receive_all; simpl. lia.
  - destruct (Accept_mono _ _ _ _ Ha Hd Hev Hb) as (Hb1&Hle&_).
    destruct (IH _ Hb1) as [H1 H2]. split; [done|]. intros run. specialize (Hle run). specialize (H2 run).
    unfold receive_all in *. simpl. lia.
Qed.

(** Events of one run that follow on from its head bring the head to their end. *)
Lemma receive_run account deviceID run q b evs : account ≠ "" → deviceID ≠ "" → Forall acceptable evs →
  broker_all_ok b → Forall (λ ev, RunID ev = run) evs → Seq <$> evs = seqZ (q + 1) (Z.of_nat (length evs)) →
  q ≤ Head account deviceID run b →
  q + Z.of_nat (length evs) ≤ Head account deviceID run (receive_all account deviceID b evs).
Proof.
  intros Ha Hd Hevs. revert q b. induction Hevs as [|ev evs Hev _ IH]; intros q b Hb Hrun; simpl.
  { unfold receive_all; simpl. lia. }
  apply Forall_cons in Hrun as [Hr Hrun].
  rewrite Nat2Z.inj_succ, seqZ_cons, Z.pred_succ by lia. intros [= Hs Hseq] Hq.
  destruct (Accept_mono _ _ _ _ Ha Hd Hev Hb) as (Hb1&_&Hnext). rewrite Hr in Hnext.
  specialize (IH (q + 1) _ Hb1 Hrun). unfold receive_all in *. simpl.
  replace (Z.succ (q + 1)) with (q + 1 + 1) in Hseq by lia.
  specialize (IH Hseq ltac:(lia)). lia.
Qed.

Section reconnect.
Context (json_len : protocol.RunEvent → Z) (send_ok : list protocol.RunEvent → bool).
Context (journal : string → list AgentRuns.RunEvent).

(** The client's journals: numbered from 1, within the width of the counter. *)
Definition journal_ok (run : string) : Prop :=
  ev_Seq <$> journal run = seqZ 1 (Z.of_nat (length (journal run))) ∧
  Z.of_nat (length (journal run)) ≤ max_int64 ∧
  Forall (λ ev, ev_RunID ev = run ∧ ev_Kind ev ≠ "") (journal run).

(** The client pages through its journals. *)
Definition pages_of (run : string) (after limit : Z) : list AgentRuns.RunEvent :=
  take (Z.to_nat limit) (drop (Z.to_nat after) (journal run)).

(** What the replay of a cursor sends. *)
Definition cursor_events (c : RunReplayCursor) : list protocol.RunEvent :=
  runtimeEventEnvelope json_len <$>
    take (Z.to_nat (ThroughSeq c - AfterSeq c)) (drop (Z.to_nat (AfterSeq c)) (journal (cur_RunID c))).

Definition cursor_ok (c : RunReplayCursor) : Prop :=
  cur_RunID c ≠ "" ∧ journal_ok (cur_RunID c) ∧
  0 ≤ AfterSeq c ≤ ThroughSeq c ∧ ThroughSeq c ≤ Z.of_nat (length (journal (cur_RunID c))).

Lemma replay_cursors_ok sent cursors : (∀ l, send_ok l = true) → Forall cursor_ok cursors →
  replay_cursors json_len send_ok pages_of sent cursors = (sent ++ concat (cursor_events <$> cursors), Ok ()).
Proof.
  intros Hsend Hc. revert sent. induction Hc as [|c cursors (Hid&(Hs&_)&Ha&Ht) _ IH]; intros sent; simpl.
  { by rewrite app_nil_r. }
  rewrite !bool_decide_false by (done || lia). simpl.
  rewrite (replay_cursor_numbered json_len send_ok _ _ _ _ _ (journal (cur_RunID c)));
    [|done|done|done|lia|lia|lia].
  rewrite IH, <-app_assoc. done.
Qed.

Lemma cursor_events_run c : cursor_ok c →
  Forall acceptable (cursor_events c) ∧ Forall (λ ev, RunID ev = cur_RunID c) (cursor_events c) ∧
  Seq <$> cursor_events c = seqZ (AfterSeq c + 1) (Z.of_nat (length (cursor_events c))) ∧
  Z.of_nat (length (cursor_events c)) = ThroughSeq c - AfterSeq c.
Proof.
  intros (Hid&(Hs&Hmax&Hf)&Ha&Ht). set (evs := journal (cur_RunID c)) in *.
  assert (Hlen : Z.of_nat (length (cursor_events c)) = ThroughSeq c - AfterSeq c).
  { unfold cursor_events. rewrite length_fmap, length_take, length_drop. fold evs. lia. }
  assert (Hseqs : Seq <$> cursor_events c = seqZ (AfterSeq c + 1) (Z.of_nat (length (cursor_events c)))).
  { rewrite Hlen. unfold cursor_events. fold evs. rewrite <-list_fmap_compose.
    rewrite (list_fmap_ext _ ev_Seq) by (intros i ev _; apply (envelope_fields json_len ev)).
    rewrite fmap_take, fmap_drop, Hs. unfold seqZ. apply list_eq. intros i. rewrite list_lookup_fmap.
    destruct (decide (i < Z.to_nat (ThroughSeq c - AfterSeq c))%nat).
    - rewrite lookup_take_lt, lookup_drop, list_lookup_fmap by lia.
      rewrite !lookup_seq_lt by lia. simpl. apply (f_equal Some). lia.
    - rewrite (lookup_seq_ge _ _ i) by lia. apply lookup_ge_None.
      rewrite length_take, length_drop, length_fmap, length_seq. lia. }
  assert (Hsub : ∀ ev, ev ∈ cursor_events c → ∃ ev0, ev0 ∈ evs ∧ ev = runtimeEventEnvelope json_len ev0).
  { intros ev (ev0&->&Hin)%list_elem_of_fmap. exists ev0. split; [|done]. fold evs in Hin.
    apply elem_of_take in Hin as (i&Hi&_). rewrite lookup_drop in Hi. by apply list_elem_of_lookup_2 in Hi. }
  rewrite Forall_forall in Hf. split_and!; [| |done|done]; apply Forall_forall; intros ev Hin;
    destruct (Hsub ev Hin) as (ev0&Hin0&->); destruct (envelope_fields json_len ev0) as (Hr&Hq&Hk);
    destruct (Hf ev0 Hin0) as [Hr0 Hk0]; [|by rewrite Hr].
  unfold acceptable. rewrite Hr, Hq, Hk, Hr0. split_and!; [done| | |done].
  all: assert (ev_Seq ev0 ∈ ev_Seq <$> evs) as Hse by (apply list_elem_of_fmap; by exists ev0);
    rewrite Hs in Hse; apply elem_of_seqZ in Hse; lia.
Qed.

Lemma receive_cursors account deviceID b cursors : account ≠ "" → deviceID ≠ "" → broker_all_ok b →
  Forall cursor_ok cursors → Forall (λ c, AfterSeq c ≤ Head account deviceID (cur_RunID c) b) cursors →
  let b' := receive_all account deviceID b (concat (cursor_events <$> cursors)) in
  broker_all_ok b' ∧ (∀ run, Head account deviceID run b ≤ Head account deviceID run b') ∧
  Forall (λ c, ThroughSeq c ≤ Head account deviceID (cur_RunID c) b') cursors.
Proof.
  intros Ha Hd Hb Hc. revert b Hb. induction Hc as [|c cursors Hc _ IH]; intros b Hb Hle; simpl.
  { split_and!; [done| |constructor]. intros run. unfold receive_all; simpl. lia. }
  apply Forall_cons in Hle as [Hle Hles]. destruct (cursor_events_run c Hc) as (Hacc&Hrun&Hseq&Hlen).
  destruct (receive_all_mono _ _ _ _ Ha Hd Hacc Hb) as [Hb1 Hmono].
  pose proof (receive_run _ _ _ _ _ _ Ha Hd Hacc Hb Hrun Hseq Hle) as Hhead.
  unfold receive_all in *. rewrite foldl_app. set (b1 := foldl _ b (cursor_events c)) in *.
  destruct (IH b1 Hb1) as (Hb2&Hmono2&Hthrough).
  { eapply Forall_impl; [exact Hles|]. intros c' Hc'. specialize (Hmono (cur_RunID c')). simpl in *. lia. }
  split_and!; [done| |].
  - intros run. etrans; [apply Hmono|apply Hmono2].
  - constructor; [|done]. etrans; [|apply Hmono2]. lia.
Qed.

(** C29. A reconnecting client catches the manager up. If the client's journals are
    numbered without a gap, it advertises positions it has reached, and the
    stream takes its envelopes, then the manager's request is answered in full,
    with the missing events of each run in order, and once it has received them
    its head for every advertised run is at or beyond the advertised position;
    no head moved back. *)
Theorem reconnect_catches_up account deviceID b heads cursors :
  (∀ l, send_ok l = true) → broker_all_ok b →
  Missing account deviceID heads b = Ok cursors →
  Forall (λ h, journal_ok (head_RunID h) ∧ LastSeq h ≤ Z.of_nat (length (journal (head_RunID h)))) heads →
  replayRunEvents json_len send_ok pages_of cursors = (concat (cursor_events <$> cursors), Ok ()) ∧
  let b' := receive_all account deviceID b (concat (cursor_events <$> cursors)) in
  broker_all_ok b' ∧ (∀ run, Head account deviceID run b ≤ Head account deviceID run b') ∧
  Forall (λ h, LastSeq h ≤ Head account deviceID (head_RunID h) b') heads.
Proof.
  intros Hsend Hb (Ha&Hd&Hlen&Hv&_&->)%Missing_spec Hj.
  set (cursors := omap (missing_cursor account deviceID b) heads).
  assert (Hmem : ∀ c, c ∈ cursors → ∃ h, h ∈ heads ∧ missing_cursor account deviceID b h = Some c)
    by (intros c (h&?&?)%list_elem_of_omap; by exists h).
  rewrite Forall_forall in Hv, Hj.
  assert (Hok : Forall cursor_ok cursors ∧
    Forall (λ c, AfterSeq c ≤ Head account deviceID (cur_RunID c) b) cursors).
  { split; apply Forall_forall; intros c (h&Hin&Hc)%Hmem; unfold missing_cursor in Hc;
      case_decide as Hlt; [|done| |done]; injection Hc as <-; simpl; [|lia].
    destruct (Hv h Hin) as [Hid _], (Hj h Hin) as [Hjo Hle]. split_and!; [done|done| |simpl; lia|done].
    rewrite Head_state. destruct (Hb (account, deviceID, head_RunID h)) as [S HS].
    apply (bo_head _ _ HS). }
  destruct Hok as [Hok Hafter]. split.
  - unfold replayRunEvents. rewrite decide_False.
    + by rewrite (replay_cursors_ok _ _ Hsend Hok).
    + pose proof (length_omap_le (missing_cursor account deviceID b) heads) as Hl. fold cursors in Hl.
      unfold maxClientRunHeads, maxRunSyncHeads in *. lia.
  - destruct (receive_cursors account deviceID b cursors Ha Hd Hb Hok Hafter) as (H1&H2&H3).
    split_and!; [done|done|]. apply Forall_forall. intros h Hin. rewrite Forall_forall in H3.
    destruct (decide (Head account deviceID (head_RunID h) b < LastSeq h)) as [Hlt|Hge].
    + assert (Hc : {| cur_RunID := head_RunID h; AfterSeq := Head account deviceID (head_RunID h) b;
        ThroughSeq := LastSeq h |} ∈ cursors).
      { apply list_elem_of_omap. exists h. split; [done|]. unfold missing_cursor. by rewrite decide_True. }
      by specialize (H3 _ Hc).
    + specialize (H2 (head_RunID h)). lia.
Qed.
End reconnect.

(** ** Concrete events *)
Definition sample_event (q : Z) : protocol.RunEvent := {|
  RunID := "r"; Seq := q; At := 0; Source := "codebridge"; Kind := "harness.raw"; Payload := "" |}.

Lemma broker_head_is_prefix_witness :
  let '(st, accepted) := accept_all new_state (sample_event <$> [2; 1; 4; 1]) in
  head st = 2 ∧ head st + 1 ∉ accepted.
Proof.
  pose proof (broker_head_is_prefix (sample_event <$> [2; 1; 4; 1])) as H.
  assert (Hs : Forall (λ ev, 1 ≤ Seq ev ≤ max_int64) (sample_event <$> [2; 1; 4; 1]))
    by (repeat constructor; simpl; unfold max_int64; lia).
  specialize (H Hs). assert (E : (accept_all new_state (sample_event <$> [2; 1; 4; 1])).1 =
    (accept_all new_state (sample_event <$> [2; 1; 4; 1])).1) by done.
  destruct (accept_all _ _) as [st accepted] eqn:Ea. destruct H as (_&_&Hn&_).
  split; [|exact Hn]. vm_compute in Ea. by injection Ea as <- _.
Defined.

Lemma broker_order_independent_witness :
  let '(st, accepted) := accept_all new_state (sample_event <$> [3; 1; 3; 2]) in
  head st = 3 ∧ pending st = ∅ ∧ accepted ≡ₚ seqZ 1 3.
Proof.
  apply (broker_order_independent 3 (sample_event <$> [3; 1; 3; 2])).
  - unfold maxPendingRunEvents. lia.
  - repeat constructor; simpl; lia.
  - intros q Hq. assert (q = 1 ∨ q = 2 ∨ q = 3) as [->|[->| ->]] by lia; simpl; set_solver.
Defined.

Definition sample_journal (run : string) : list AgentRuns.RunEvent :=
  (λ q, {| ev_RunID := run; ev_Seq := q; ev_At := 0; ev_Source := "codebridge"; ev_Kind := "harness.raw";
           ev_Payload := "" |}) <$> [1; 2; 3].

Lemma reconnect_catches_up_witness :
  let b := (Accept "a" "d" (sample_event 1) NewRunEventBroker).1 in
  3 ≤ Head "a" "d" "r" (receive_all "a" "d" b (concat (cursor_events (λ _, 0) sample_journal <$>
        [{| cur_RunID := "r"; AfterSeq := 1; ThroughSeq := 3 |}]))).
Proof.
  intros b.
  assert (Hb : broker_all_ok b).
  { apply Accept_mono; [done|done| |].
    - unfold acceptable, max_int64; simpl. split_and!; [done|lia|lia|done].
    - intros key. exists ∅. unfold state_of, NewRunEventBroker. rewrite lookup_empty. apply broker_ok_new. }
  destruct (reconnect_catches_up (λ _, 0) (λ _, true) sample_journal "a" "d" b
    [{| head_RunID := "r"; LastSeq := 3; Status := "running" |}]
    [{| cur_RunID := "r"; AfterSeq := 1; ThroughSeq := 3 |}]) as (_&_&_&Hh).
  - done.
  - exact Hb.
  - by vm_compute.
  - constructor; [|constructor]. split; [|simpl; lia]. split_and!; [done|unfold max_int64; simpl; lia|].
    by repeat constructor.
  - by apply Forall_cons in Hh as [Hh _].
Defined.
