(* ===== verification/Permissions.v ===== *)
(** * Command permissions

    [src/internal/agentops/permissions.go] and the two gates that consult it:
    [runBash] with [pendingBashRequest] and [consumeGrantOnce]
    ([src/internal/agentops/bash.go]) and [subagentPreflight] with
    [pendingSubagentRequest] ([run_manager.go], [subagent.go]).

    The package variable [perms] is the state. Every function below that takes
    the store and returns it is one critical section of its mutex, or the
    sequence of them that one call runs. A call reads the clock as [now]; the
    order in which a [range] over a Go map visits the keys is an argument. The
    workspace root, which the file system decides, is an argument too, and
    running a command ([execBash]) is an outcome. *)

From stdpp Require Import gmap strings.
From S2P Require Import Prelude Entities GoStrings AgentRuns.
Open Scope Z_scope.

(** ** Data *)
Record PermissionRule : Type := {
  rule_Effect : string;
  rule_Tool : string;
  rule_Pattern : string;
  rule_Reason : string
}.

Record PermissionRequest : Type := {
  req_ID : string;
  req_Tool : string;
  req_Command : string;
  req_Workspace : string;
  req_CreatedAt : time;
  req_ExpiresAt : time
}.

Definition permissionRequestTTL : Z := 5 * 60 * 10 ^ 9.

Record permissionStore : Type := {
  perm_rules : list PermissionRule;
  perm_pending : gmap string PermissionRequest;
  perm_granted : gmap string bool
}.

Definition empty_perms : permissionStore :=
  {| perm_rules := []; perm_pending := ∅; perm_granted := ∅ |}.

Definition set_rules (rs : list PermissionRule) (s : permissionStore) : permissionStore :=
  {| perm_rules := rs; perm_pending := perm_pending s; perm_granted := perm_granted s |}.
Definition set_pending (p : gmap string PermissionRequest) (s : permissionStore) : permissionStore :=
  {| perm_rules := perm_rules s; perm_pending := p; perm_granted := perm_granted s |}.
Definition set_granted (g : gmap string bool) (s : permissionStore) : permissionStore :=
  {| perm_rules := perm_rules s; perm_pending := perm_pending s; perm_granted := g |}.

(** [SetPermissions]. *)
Definition SetPermissions (rs : list PermissionRule) (s : permissionStore) : permissionStore :=
  set_rules rs s.

(** ** Rules *)
Definition ruleMatches (pattern command firstWord : string) : bool :=
  let pattern := TrimSpace pattern in
  if bool_decide (pattern = "") || bool_decide (pattern = "*") then true
  else
    let prefix := TrimSuffix pattern "*" in
    if decide (prefix = pattern) then bool_decide (firstWord = pattern)
    else HasPrefix command prefix.

Definition first_word (command : string) : string := default "" (head (Fields command)).

(** The loop of [permissionDecision]. *)
Fixpoint decision_from (tool command first : string) (rs : list PermissionRule)
    (effect pattern : string) : string * string :=
  match rs with
  | [] => (effect, pattern)
  | rule :: rs =>
      if bool_decide (rule_Tool rule ≠ "") && bool_decide (rule_Tool rule ≠ tool)
      then decision_from tool command first rs effect pattern
      else if ruleMatches (rule_Pattern rule) command first then
        if decide (rule_Effect rule = "deny") then ("deny", rule_Pattern rule)
        else if decide (effect ≠ "deny")
          then decision_from tool command first rs "allow" (rule_Pattern rule)
          else decision_from tool command first rs effect pattern
      else decision_from tool command first rs effect pattern
  end.

Definition permissionDecision (tool command : string) (s : permissionStore) : string * string :=
  decision_from tool command (first_word command) (perm_rules s) "ask" "".

(** ** Requests *)
Inductive perm_err : Type :=
  | PRequestIDRequired
  | PNotFound (id : string)
  | PExpired (id : string)
  | PBadDecision
  | PCommandRequired
  | PDenied (what : string)
  | PNeeded (id command pattern : string)
  | PWorkspace (e : string).

(** [parkRequest]: [id] is [pr_] and the hexadecimal digits of eight random
    bytes. *)
Definition parkRequest (now : time) (id tool command workspace : string) (s : permissionStore) :
    permissionStore :=
  let req := {| req_ID := id; req_Tool := tool; req_Command := command; req_Workspace := workspace;
                req_CreatedAt := now; req_ExpiresAt := now + permissionRequestTTL |} in
  set_pending (filter (λ kv : string * PermissionRequest, ¬ req_ExpiresAt kv.2 < now)
                 (<[id := req]> (perm_pending s))) s.

Definition lookupRequest (now : time) (id : string) (s : permissionStore) :
    result perm_err PermissionRequest * permissionStore :=
  match perm_pending s !! id with
  | None => (Err (PNotFound id), s)
  | Some req =>
      if decide (req_ExpiresAt req < now)
      then (Err (PExpired id), set_pending (delete id (perm_pending s)) s)
      else (Ok req, s)
  end.

Definition PermissionRuleForRequest (req : PermissionRequest) : PermissionRule :=
  {| rule_Effect := "allow"; rule_Tool := req_Tool req;
     rule_Pattern := match Fields (req_Command req) with [] => "*" | w :: _ => w end;
     rule_Reason := "" |}.

(** The second critical section of [permissionGrant], by decision. *)
Definition grantOnce (id : string) (s : permissionStore) : permissionStore :=
  set_granted (<[id := true]> (perm_granted s)) s.
Definition grantAlways (id : string) (rule : PermissionRule) (s : permissionStore) : permissionStore :=
  set_pending (delete id (perm_pending s)) (set_rules (perm_rules s ++ [rule]) s).
Definition grantDeny (id : string) (s : permissionStore) : permissionStore :=
  set_granted (delete id (perm_granted s)) (set_pending (delete id (perm_pending s)) s).

(** What [permissionGrant] answers; an always-grant also hands the rules to the
    callback that persists them. *)
Inductive grant_answer : Type :=
  | GrantedOnce
  | GrantedAlways (rule : PermissionRule) (persisted : list PermissionRule)
  | GrantDenied.

Definition permissionGrant (now : time) (requestID decision : string) (s : permissionStore) :
    result perm_err grant_answer * permissionStore :=
  if decide (requestID = "") then (Err PRequestIDRequired, s)
  else
    match lookupRequest now requestID s with
    | (Err e, s) => (Err e, s)
    | (Ok req, s) =>
        let decision := TrimSpace (ToLower decision) in
        if decide (decision = "once") then (Ok GrantedOnce, grantOnce requestID s)
        else if decide (decision = "always") then
          let rule := PermissionRuleForRequest req in
          let s := grantAlways requestID rule s in
          (Ok (GrantedAlways rule (perm_rules s)), s)
        else if decide (decision = "deny") then (Ok GrantDenied, grantDeny requestID s)
        else (Err PBadDecision, s)
    end.

(** [consumeGrant]. *)
Definition consumeGrant (requestID : string) (s : permissionStore) : bool * permissionStore :=
  match perm_granted s !! requestID with
  | Some true => (true, set_granted (delete requestID (perm_granted s)) s)
  | _ => (false, s)
  end.

(** ** The gates *)

(** The loop of [consumeGrantOnce] over the granted ids, visited in the order
    [ids]. *)
Fixpoint find_grant (ids : list string) (command : string) (s : permissionStore) : option string :=
  match ids with
  | [] => None
  | id :: ids =>
      match perm_granted s !! id, perm_pending s !! id with
      | Some true, Some req =>
          if decide (req_Command req = command) then Some id else find_grant ids command s
      | _, _ => find_grant ids command s
      end
  end.

Definition consumeGrantOnce (ids : list string) (command : string) (s : permissionStore) :
    bool * permissionStore :=
  match find_grant ids command s with
  | Some id =>
      (true, set_pending (delete id (perm_pending s)) (set_granted (delete id (perm_granted s)) s))
  | None => (false, s)
  end.

(** The loop of [pendingBashRequest] ([tool] is bash) and
    [pendingSubagentRequest] (agent) over the pending ids, visited in the order
    [ids]. *)
Fixpoint pending_request (now : time) (tool : string) (ids : list string) (command : string)
    (s : permissionStore) : option string :=
  match ids with
  | [] => None
  | id :: ids =>
      match perm_pending s !! id with
      | Some req =>
          if bool_decide (req_Tool req = tool) && bool_decide (req_Command req = command) &&
             bool_decide (now < req_ExpiresAt req)
          then Some id else pending_request now tool ids command s
      | None => pending_request now tool ids command s
      end
  end.

Definition pendingBashRequest (now : time) (ids : list string) (command : string)
    (s : permissionStore) : string :=
  default "" (pending_request now "bash" ids command s).
Definition pendingSubagentRequest (now : time) (ids : list string) (client : string)
    (s : permissionStore) : string :=
  default "" (pending_request now "agent" ids client s).

(** What the environment of a gate decides: the clock, the visiting orders of
    the two maps, the next request id and the resolved workspace root. *)
Record gate_env : Type := {
  ge_now : time;
  ge_granted : list string;
  ge_pending : list string;
  ge_id : string;
  ge_root : result string string
}.

(** [execBash] is called with a root and a command. *)
Record executed : Type := { ex_root : string; ex_command : string }.

Definition exec_in (e : gate_env) (command : string) : result perm_err executed :=
  match ge_root e with
  | Err x => Err (PWorkspace x)
  | Ok root => Ok {| ex_root := root; ex_command := command |}
  end.

Definition runBash (e : gate_env) (command : string) (s : permissionStore) :
    result perm_err executed * permissionStore :=
  let command := TrimSpace command in
  if decide (command = "") then (Err PCommandRequired, s)
  else
    let '(effect, pattern) := permissionDecision "bash" command s in
    if decide (effect = "deny") then (Err (PDenied command), s)
    else if decide (effect = "ask") then
      match consumeGrantOnce (ge_granted e) command s with
      | (true, s) => (exec_in e command, s)
      | (false, s) =>
          let requestID := pendingBashRequest (ge_now e) (ge_pending e) command s in
          if decide (requestID = "")
          then (Err (PNeeded (ge_id e) command pattern),
                parkRequest (ge_now e) (ge_id e) "bash" command "" s)
          else (Err (PNeeded requestID command pattern), s)
      end
    else (exec_in e command, s).

(** [subagentPreflight]. *)
Definition subagent_client (profiles : list SubagentProfile) (spec : RunSpec) : string :=
  let '(client, _, _, _, _, _) :=
    resolveSubagentCall profiles (Client spec) (Agent spec) (Model spec) (Thinking spec)
      (TimeoutSeconds spec) in
  if decide (TrimSpace client = "") then DefaultSubagentClient else TrimSpace client.

Definition subagentPreflight (e : gate_env) (profiles : list SubagentProfile) (spec : RunSpec)
    (s : permissionStore) : result perm_err () * permissionStore :=
  match ge_root e with
  | Err x => (Err (PWorkspace x), s)
  | Ok _ =>
      let client := subagent_client profiles spec in
      let effect := (permissionDecision "agent" client s).1 in
      if decide (effect = "deny") then (Err (PDenied client), s)
      else if decide (effect = "ask") then
        let requestID := pendingSubagentRequest (ge_now e) (ge_pending e) client s in
        if decide (requestID = "")
        then (Err (PNeeded (ge_id e) (client +:+ " subagent") ""),
              parkRequest (ge_now e) (ge_id e) "agent" client "" s)
        else (Err (PNeeded requestID (client +:+ " subagent") ""), s)
      else (Ok (), s)
  end.
