(* ===== verification/PermissionSpec.v ===== *)
(** * What the command permissions guarantee

    The rule table, the gate in front of [bash], the life of a once-grant under
    every interleaving of the critical sections, and the scope of an
    always-grant. *)

From stdpp Require Import gmap strings.
From S2P Require Import Prelude Entities GoStrings AgentRuns Permissions.
Open Scope Z_scope.

(** ** The rule table *)

(** The rule applies to the tool and covers the command. *)
Definition covers (tool command : string) (r : PermissionRule) : bool :=
  (bool_decide (rule_Tool r = "") || bool_decide (rule_Tool r = tool)) &&
  ruleMatches (rule_Pattern r) command (first_word command).

Definition denied (tool command : string) (s : permissionStore) : Prop :=
  Exists (λ r, covers tool command r = true ∧ rule_Effect r = "deny") (perm_rules s).
#[export] Instance denied_dec tool command s : Decision (denied tool command s).
Proof. unfold denied. apply _. Defined.

Definition permitted (tool command : string) (s : permissionStore) : Prop :=
  Exists (λ r, covers tool command r = true) (perm_rules s).
#[export] Instance permitted_dec tool command s : Decision (permitted tool command s).
Proof. unfold permitted. apply _. Defined.

(** The decision as one look at the covering rules. *)
Definition decision_ref (ms : list PermissionRule) (effect pattern : string) : string * string :=
  match head (filter (λ r, rule_Effect r = "deny") ms), list.last ms with
  | Some r, _ => ("deny", rule_Pattern r)
  | None, Some r => ("allow", rule_Pattern r)
  | None, None => (effect, pattern)
  end.

Lemma decision_from_ref tool command rs effect pattern : effect ≠ "deny" →
  decision_from tool command (first_word command) rs effect pattern =
  decision_ref (filter (λ r, covers tool command r = true) rs) effect pattern.
Proof.
  revert effect pattern. induction rs as [|r rs IH]; intros effect pattern He; [done|].
  cbn [decision_from].
  assert (bool_decide (rule_Tool r ≠ "") && bool_decide (rule_Tool r ≠ tool) =
    negb (bool_decide (rule_Tool r = "") || bool_decide (rule_Tool r = tool))) as ->.
  { rewrite negb_orb. by rewrite !bool_decide_not. }
  assert (covers tool command r = (bool_decide (rule_Tool r = "") || bool_decide (rule_Tool r = tool)) &&
    ruleMatches (rule_Pattern r) command (first_word command)) as Hc by done.
  rewrite filter_cons. destruct (bool_decide (rule_Tool r = "") || _).
  2: { rewrite (decide_False (P := covers tool command r = true)) by (by rewrite Hc). by apply IH. }
  cbn [negb]. destruct (ruleMatches _ _ _).
  2: { rewrite (decide_False (P := covers tool command r = true)) by (by rewrite Hc). by apply IH. }
  rewrite (decide_True (P := covers tool command r = true)) by done.
  unfold decision_ref. rewrite filter_cons. case_decide as Hd; [done|].
  rewrite decide_True, IH by done. unfold decision_ref.
  destruct (head _); [done|]. rewrite last_cons. by destruct (list.last _).
Qed.

Lemma permissionDecision_effect tool command s :
  (permissionDecision tool command s).1 =
  if decide (denied tool command s) then "deny"
  else if decide (permitted tool command s) then "allow" else "ask".
Proof.
  unfold permissionDecision. rewrite decision_from_ref by done. unfold decision_ref.
  set (ms := filter _ (perm_rules s)).
  assert (denied tool command s ↔ filter (λ r, rule_Effect r = "deny") ms ≠ []) as Hd.
  { unfold denied. rewrite Exists_exists. split.
    - intros (r & Hr & Hc & He) E. apply (not_elem_of_nil r). rewrite <-E.
      unfold ms. by rewrite !list_elem_of_filter.
    - intros H. destruct (filter _ ms) as [|r l] eqn:E; [done|]. exists r.
      assert (r ∈ filter (λ r, rule_Effect r = "deny") ms) as Hin by (rewrite E; left).
      unfold ms in Hin. rewrite !list_elem_of_filter in Hin. naive_solver. }
  assert (permitted tool command s ↔ ms ≠ []) as Hp.
  { unfold permitted. rewrite Exists_exists. split.
    - intros (r & Hr & Hc) E. apply (not_elem_of_nil r). rewrite <-E. by apply list_elem_of_filter.
    - intros H. destruct ms as [|r l] eqn:E; [done|]. exists r.
      assert (r ∈ ms) as Hin by (rewrite E; left). apply list_elem_of_filter in Hin. naive_solver. }
  clearbody ms. destruct (filter _ ms) as [|r l].
  - cbn [head]. rewrite decide_False by naive_solver. destruct ms as [|r0 ms0] using rev_ind.
    + by rewrite decide_False by naive_solver.
    + rewrite last_snoc, decide_True; [done|]. apply Hp. by destruct ms0.
  - cbn [head]. by rewrite decide_True by (apply Hd; done).
Qed.

Lemma decision_cases tool command s :
  (permissionDecision tool command s).1 = "deny" ∨ (permissionDecision tool command s).1 = "allow" ∨
  (permissionDecision tool command s).1 = "ask".
Proof. rewrite permissionDecision_effect. repeat case_decide; auto. Qed.

Lemma ask_pattern tool command s :
  (permissionDecision tool command s).1 = "ask" → permissionDecision tool command s = ("ask", "").
Proof.
  unfold permissionDecision. rewrite decision_from_ref by done. unfold decision_ref.
  destruct (head _); [done|]. by destruct (list.last _).
Qed.

(** The rule table decides as documented: a command is denied when some rule
    for its tool that covers it denies, wherever the rule stands; otherwise it is
    allowed when some rule covers it; otherwise it must ask. The pattern reported
    is that of the first denying rule, or of the last covering rule when none
    denies; reordering the rules does not change the effect. *)
Theorem permissionDecision_spec tool command s :
  let ms := filter (λ r, covers tool command r = true) (perm_rules s) in
  permissionDecision tool command s =
    match head (filter (λ r, rule_Effect r = "deny") ms), list.last ms with
    | Some r, _ => ("deny", rule_Pattern r)
    | None, Some r => ("allow", rule_Pattern r)
    | None, None => ("ask", "")
    end ∧
  ∀ rs, rs ≡ₚ perm_rules s →
    (permissionDecision tool command (SetPermissions rs s)).1 = (permissionDecision tool command s).1.
Proof.
  cbn zeta. split.
  - unfold permissionDecision. by rewrite decision_from_ref.
  - intros rs Hp. rewrite !permissionDecision_effect.
    assert (denied tool command (SetPermissions rs s) ↔ denied tool command s) as Hd
      by (unfold denied; cbn; by rewrite Hp).
    assert (permitted tool command (SetPermissions rs s) ↔ permitted tool command s) as Hq
      by (unfold permitted; cbn; by rewrite Hp).
    by rewrite (decide_ext _ _ _ _ Hd), (decide_ext _ _ _ _ Hq).
Qed.

Lemma permissionDecision_spec_witness :
  let s := {| perm_rules := [{| rule_Effect := "allow"; rule_Tool := "bash"; rule_Pattern := "git"; rule_Reason := "" |};
                             {| rule_Effect := "deny"; rule_Tool := ""; rule_Pattern := "git push*"; rule_Reason := "" |}];
              perm_pending := ∅; perm_granted := ∅ |} in
  permissionDecision "bash" "git status" s = ("allow", "git") ∧
  permissionDecision "bash" "git push origin" s = ("deny", "git push*") ∧
  (permissionDecision "bash" "git push origin" (SetPermissions (rev (perm_rules s)) s)).1 = "deny".
Proof.
  split; [by vm_compute|]. split; [by vm_compute|].
  rewrite (proj2 (permissionDecision_spec "bash" "git push origin" _)); [by vm_compute|].
  apply Permutation_swap.
Defined.

(** ** The gate of bash *)

(** The order of a [range] over a map: every key once. *)
Definition visits {A} (ids : list string) (m : gmap string A) : Prop :=
  NoDup ids ∧ ∀ id, id ∈ ids ↔ is_Some (m !! id).

(** A once-grant the store holds for a command. *)
Definition usable_grant (command id : string) (s : permissionStore) : Prop :=
  perm_granted s !! id = Some true ∧
  ∃ req, perm_pending s !! id = Some req ∧ req_Command req = command.

Definition spend (id : string) (s : permissionStore) : permissionStore :=
  set_pending (delete id (perm_pending s)) (set_granted (delete id (perm_granted s)) s).

(** A parked request that can still be granted. *)
Definition live_request (now : time) (tool command id : string) (s : permissionStore) : Prop :=
  ∃ req, perm_pending s !! id = Some req ∧ req_Tool req = tool ∧ req_Command req = command ∧
    now < req_ExpiresAt req.

Lemma find_grant_Some ids command s id : find_grant ids command s = Some id →
  id ∈ ids ∧ usable_grant command id s.
Proof.
  unfold usable_grant. induction ids as [|i ids IH]; [done|]. cbn [find_grant]. rewrite elem_of_cons.
  intros H. repeat case_match; simplify_eq; try naive_solver.
Qed.

Lemma find_grant_None ids command s : find_grant ids command s = None →
  ∀ id, id ∈ ids → ¬ usable_grant command id s.
Proof.
  unfold usable_grant. induction ids as [|i ids IH]; cbn [find_grant]; intros H id Hin.
  - by apply not_elem_of_nil in Hin.
  - apply elem_of_cons in Hin as [->|Hin]; intros (Hg & req & Hp & Hc).
    + rewrite Hg, Hp, decide_True in H by done. done.
    + repeat case_match; simplify_eq; try (by eapply IH; eauto).
Qed.

Lemma pending_request_Some now tool ids command s id : pending_request now tool ids command s = Some id →
  id ∈ ids ∧ live_request now tool command id s.
Proof.
  unfold live_request. induction ids as [|i ids IH]; [done|]. cbn [pending_request]. rewrite elem_of_cons.
  intros H. destruct (perm_pending s !! i) as [req|] eqn:E; [|naive_solver].
  destruct (_ && _ && _) eqn:Eb; [|naive_solver].
  rewrite !andb_true_iff, !bool_decide_eq_true in Eb. simplify_eq. naive_solver.
Qed.

Lemma pending_request_None now tool ids command s : pending_request now tool ids command s = None →
  ∀ id, id ∈ ids → ¬ live_request now tool command id s.
Proof.
  unfold live_request. induction ids as [|i ids IH]; cbn [pending_request]; intros H id Hin.
  - by apply not_elem_of_nil in Hin.
  - apply elem_of_cons in Hin as [->|Hin].
    + intros (req & Hp & Ht & Hc & He). rewrite Hp, !bool_decide_true in H by done. done.
    + apply IH; [|done]. by repeat case_match.
Qed.

Lemma parked_live now id tool command ws s :
  live_request now tool command id (parkRequest now id tool command ws s).
Proof.
  eexists. split; [apply map_lookup_filter_Some_2; [apply lookup_insert_eq|]|]; cbn;
    unfold permissionRequestTTL; repeat split; lia.
Qed.

(** The gate of [bash], completely. It looks only at the trimmed command. An
    empty one is refused; a denied one is refused whatever was granted; an
    allowed one runs. One that must ask runs if a once-grant for exactly this
    command is there, which is used up; otherwise nothing runs and the answer
    names a live request for exactly this command, which [permission_grant] will
    find: the one already parked, if any, else a new one. *)
Theorem runBash_gate e command s :
  visits (ge_granted e) (perm_granted s) → visits (ge_pending e) (perm_pending s) →
  perm_pending s !! "" = None →
  let c := TrimSpace command in
  let effect := (permissionDecision "bash" c s).1 in
  let '(r, s') := runBash e command s in
  if decide (c = "") then r = Err PCommandRequired ∧ s' = s
  else if decide (effect = "deny") then r = Err (PDenied c) ∧ s' = s
  else if decide (effect = "allow") then r = exec_in e c ∧ s' = s
  else
    (∃ id, usable_grant c id s ∧ r = exec_in e c ∧ s' = spend id s) ∨
    ((∀ id, ¬ usable_grant c id s) ∧
     ∃ id req, r = Err (PNeeded id c "") ∧ live_request (ge_now e) "bash" c id s' ∧
       lookupRequest (ge_now e) id s' = (Ok req, s') ∧
       (s' = s ∨ (∀ i, ¬ live_request (ge_now e) "bash" c i s) ∧ id = ge_id e ∧
                 s' = parkRequest (ge_now e) id "bash" c "" s)).
Proof.
  intros [_ Hg] [_ Hp] H0. cbn zeta. unfold runBash.
  set (c := TrimSpace command).
  destruct (decide (c = "")); [done|].
  destruct (permissionDecision "bash" c s) as [effect pattern] eqn:Ed. cbn [fst].
  destruct (decide (effect = "deny")); [done|].
  destruct (decision_cases "bash" c s) as [E|[E|E]]; rewrite Ed in E; cbn in E; [done| |].
  { subst effect. by rewrite decide_False. }
  assert (pattern = "") as ->.
  { pose proof (ask_pattern "bash" c s) as Ha. rewrite Ed in Ha. cbn in Ha. specialize (Ha E). congruence. }
  subst effect. rewrite decide_True by done. unfold consumeGrantOnce.
  destruct (find_grant _ c s) as [id|] eqn:Ef.
  { apply find_grant_Some in Ef as [_ Hu]. left. by exists id. }
  assert (∀ id, ¬ usable_grant c id s) as Hno.
  { intros id Hu. eapply find_grant_None; [done| |exact Hu]. apply Hg. destruct Hu as [-> _]. eauto. }
  unfold pendingBashRequest.
  assert (∀ id s', live_request (ge_now e) "bash" c id s' →
    ∃ req, lookupRequest (ge_now e) id s' = (Ok req, s')) as Hlook.
  { intros id s' (req & Hq & _ & _ & Hlt). exists req. unfold lookupRequest. rewrite Hq.
    by rewrite decide_False by lia. }
  destruct (pending_request _ _ _ c s) as [id|] eqn:Er; cbn [default from_option Datatypes.id].
  - apply pending_request_Some in Er as [_ Hl]. rewrite decide_False.
    2: { intros ->. destruct Hl as (? & ? & _). simplify_eq. }
    right. split; [done|]. destruct (Hlook _ _ Hl) as [req Hreq]. exists id, req. auto.
  - rewrite decide_True by done. right. split; [done|].
    pose proof (parked_live (ge_now e) (ge_id e) "bash" c "" s) as Hl.
    destruct (Hlook _ _ Hl) as [req Hreq]. exists (ge_id e), req.
    split; [done|]. split; [done|]. split; [done|]. right. split; [|done].
    intros i Hi. eapply pending_request_None; [done| |exact Hi]. apply Hp. destruct Hi as (? & -> & _). eauto.
Qed.

Definition sample_env : gate_env :=
  {| ge_now := 7; ge_granted := []; ge_pending := []; ge_id := "pr_00"; ge_root := Ok "/work" |}.

Lemma runBash_gate_witness :
  visits [] (perm_granted empty_perms) ∧
  ∃ id req, (runBash sample_env " git status " empty_perms).1 = Err (PNeeded id "git status" "") ∧
    lookupRequest 7 id (runBash sample_env " git status " empty_perms).2 =
      (Ok req, (runBash sample_env " git status " empty_perms).2).
Proof.
  assert (visits [] (∅ : gmap string bool)) as Hv.
  { split; [constructor|]. intros id. rewrite lookup_empty.
    split; [by intros ?%not_elem_of_nil|by intros [? ?]]. }
  split; [exact Hv|].
  pose proof (runBash_gate sample_env " git status " empty_perms Hv) as H.
  assert (visits [] (∅ : gmap string PermissionRequest)) as Hv'.
  { split; [constructor|]. intros id. rewrite lookup_empty.
    split; [by intros ?%not_elem_of_nil|by intros [? ?]]. }
  specialize (H Hv' eq_refl).
  destruct (runBash sample_env " git status " empty_perms) as [r s'] eqn:E.
  change (TrimSpace " git status ") with (TrimSpace " git status ") in H.
  assert (TrimSpace " git status " = "git status") as Et by (by vm_compute).
  rewrite Et in H. cbn zeta in H. rewrite decide_False in H by done.
  assert ((permissionDecision "bash" "git status" empty_perms).1 = "ask") as Ea by (by vm_compute).
  rewrite Ea in H. do 2 rewrite decide_False in H by done.
  destruct H as [(id & [Hu _] & _)|(_ & id & req & -> & _ & Hl & _)].
  - cbn in Hu. simplify_eq.
  - by exists id, req.
Defined.

(** ** Once-grants under interleaving

    The critical sections of [perms.mu]: concurrent calls interleave these, in
    any order. *)
Inductive perm_op : Type :=
  | OpSet (rs : list PermissionRule)
  | OpPark (now : time) (id tool command ws : string)
  | OpLookup (now : time) (id : string)
  | OpOnce (id : string)
  | OpAlways (id : string) (rule : PermissionRule)
  | OpDeny (id : string)
  | OpConsume (ids : list string) (command : string).

Definition perm_step (s : permissionStore) (op : perm_op) : permissionStore :=
  match op with
  | OpSet rs => SetPermissions rs s
  | OpPark now id tool command ws => parkRequest now id tool command ws s
  | OpLookup now id => (lookupRequest now id s).2
  | OpOnce id => grantOnce id s
  | OpAlways id rule => grantAlways id rule s
  | OpDeny id => grantDeny id s
  | OpConsume ids command => (consumeGrantOnce ids command s).2
  end.

(** The state after the steps, and the ids of the grants used, in order. *)
Fixpoint perm_run (s : permissionStore) (ops : list perm_op) : permissionStore * list string :=
  match ops with
  | [] => (s, [])
  | op :: ops =>
      let '(s', used) := perm_run (perm_step s op) ops in
      (s', match op with
           | OpConsume ids command => option_list (find_grant ids command s)
           | _ => []
           end ++ used)
  end.

Definition parked_id (op : perm_op) : option string :=
  match op with OpPark _ id _ _ _ => Some id | _ => None end.

Lemma perm_run_snoc s ops op :
  perm_run s (ops ++ [op]) =
  (perm_step (perm_run s ops).1 op,
   (perm_run s ops).2 ++
   match op with
   | OpConsume ids command => option_list (find_grant ids command (perm_run s ops).1)
   | _ => []
   end).
Proof.
  revert s. induction ops as [|op' ops IH]; intros s.
  - cbn. by rewrite app_nil_r.
  - cbn [perm_run app]. rewrite IH. destruct (perm_run (perm_step s op') ops) as [s' used]. cbn.
    by rewrite app_assoc.
Qed.

(** What the store remembers of the steps. *)
Record perm_ok (ops : list perm_op) (s : permissionStore) (used : list string) : Prop := {
  po_pending id req : perm_pending s !! id = Some req →
    (id ∉ used) ∧ (∃ now ws, OpPark now id (req_Tool req) (req_Command req) ws ∈ ops);
  po_granted id : perm_granted s !! id = Some true → OpOnce id ∈ ops;
  po_used id : id ∈ used → id ∈ omap parked_id ops;
  po_nodup : NoDup used
}.

Lemma perm_ok_weaken ops op s used s' :
  perm_ok ops s used → perm_pending s' ⊆ perm_pending s →
  (∀ id, perm_granted s' !! id = Some true → perm_granted s !! id = Some true ∨ op = OpOnce id) →
  perm_ok (ops ++ [op]) s' used.
Proof.
  intros [Hp Hg Hu Hn] Hsub Hg'. split; [| | |done].
  - intros id req H. eapply lookup_weaken in H; [|done].
    destruct (Hp id req H) as (? & now & ws & ?). split; [done|]. exists now, ws. set_solver.
  - intros id H. apply Hg' in H as [H|Ho]; [apply Hg in H|rewrite Ho]; set_solver.
  - intros id H%Hu. rewrite omap_app. set_solver.
Qed.

Lemma perm_run_ok ops : NoDup (omap parked_id ops) →
  perm_ok ops (perm_run empty_perms ops).1 (perm_run empty_perms ops).2.
Proof.
  induction ops as [|op ops IH] using rev_ind; intros Hnd.
  { by split; cbn; [intros ? ? H; rewrite lookup_empty in H|intros ? H; rewrite lookup_empty in H|
      intros ? H; apply not_elem_of_nil in H|constructor]. }
  rewrite omap_app in Hnd. apply NoDup_app in Hnd as (Hnd & Hfresh & _). specialize (IH Hnd).
  rewrite perm_run_snoc. destruct (perm_run empty_perms ops) as [s used].
  destruct op as [rs|now i tool command ws|now i|i|i rule|i|ids command]; cbn [fst snd perm_step] in *;
    rewrite ?app_nil_r.
  - eapply perm_ok_weaken; [done|done|auto].
  - destruct IH as [Hp Hg Hu Hn]. assert (i ∉ used) as Hi.
    { intros H%Hu. apply (Hfresh i H). cbn. left. }
    split; [| | |done].
    + intros id req [H _]%map_lookup_filter_Some. cbn in H.
      apply lookup_insert_Some in H as [[<- <-]|[_ H]]; cbn.
      * split; [done|]. exists now, ws. set_solver.
      * destruct (Hp id req H) as (? & n & w & ?). split; [done|]. exists n, w. set_solver.
    + intros id H%Hg. set_solver.
    + intros id H%Hu. rewrite omap_app. set_solver.
  - unfold lookupRequest. repeat case_match; cbn; (eapply perm_ok_weaken; [done| |by auto]); cbn;
      first [done|apply delete_subseteq].
  - eapply perm_ok_weaken; [done|done|]. intros id H. cbn in H.
    apply lookup_insert_Some in H as [[<- _]|[_ H]]; auto.
  - eapply perm_ok_weaken; [done|cbn; apply delete_subseteq|auto].
  - eapply perm_ok_weaken; [done|cbn; apply delete_subseteq|].
    intros id H. cbn in H. apply lookup_delete_Some in H as [_ H]. auto.
  - unfold consumeGrantOnce. destruct (find_grant ids command s) as [i|] eqn:Ef; cbn [option_list];
      [|rewrite app_nil_r; eapply perm_ok_weaken; [done|done|auto]].
    apply find_grant_Some in Ef as (_ & Hgi & req & Hpi & _).
    destruct IH as [Hp Hg Hu Hn]. destruct (Hp i req Hpi) as (Hni & n & w & Hpark). split; cbn.
    + intros id r [Hne H]%lookup_delete_Some. destruct (Hp id r H) as (? & n' & w' & ?).
      split; [|exists n', w'; set_solver]. rewrite elem_of_app, list_elem_of_singleton. naive_solver.
    + intros id [_ H%Hg]%lookup_delete_Some. set_solver.
    + intros id. rewrite elem_of_app, list_elem_of_singleton, omap_app, elem_of_app. intros [H%Hu| ->]; [by left|].
      left. apply list_elem_of_omap. by eexists.
    + apply NoDup_app. split; [done|]. split; [|apply NoDup_singleton].
      intros id H ->%list_elem_of_singleton. done.
Qed.

(** The calls run these steps: what a gate or a grant does to the store is a
    sequence of them. *)
Lemma calls_are_steps s :
  (∀ e command, ∃ ops, (runBash e command s).2 = (perm_run s ops).1) ∧
  (∀ e profiles spec, ∃ ops, (subagentPreflight e profiles spec s).2 = (perm_run s ops).1) ∧
  (∀ now id decision, ∃ ops, (permissionGrant now id decision s).2 = (perm_run s ops).1).
Proof.
  split; [|split].
  - intros e command. unfold runBash. case_decide; [by exists []|].
    destruct (permissionDecision _ _ s) as [effect pattern]. case_decide; [by exists []|].
    case_decide; [|by exists []]. unfold consumeGrantOnce.
    destruct (find_grant (ge_granted e) (TrimSpace command) s) as [id|] eqn:E.
    + exists [OpConsume (ge_granted e) (TrimSpace command)]. cbn. unfold consumeGrantOnce. by rewrite E.
    + case_decide; [|by exists []]. by exists [OpPark (ge_now e) (ge_id e) "bash" (TrimSpace command) ""].
  - intros e profiles spec. unfold subagentPreflight. destruct (ge_root e); [|by exists []].
    case_decide; [by exists []|]. case_decide; [|by exists []]. case_decide; [|by exists []].
    by exists [OpPark (ge_now e) (ge_id e) "agent" (subagent_client profiles spec) ""].
  - intros now i decision. unfold permissionGrant. case_decide; [by exists []|].
    destruct (lookupRequest now i s) as [[req|err] s'] eqn:E.
    2: { exists [OpLookup now i]. cbn. by rewrite E. }
    assert (s' = (perm_step s (OpLookup now i))) as -> by (cbn; by rewrite E).
    repeat case_decide.
    + by exists [OpLookup now i; OpOnce i].
    + by exists [OpLookup now i; OpAlways i (PermissionRuleForRequest req)].
    + by exists [OpLookup now i; OpDeny i].
    + by exists [OpLookup now i].
Qed.

(** C26. A once-grant is good for one command, once, under every interleaving of
    concurrent calls: when request ids do not repeat, a grant that lets a
    command through was made for a request parked for that very command, after
    [permission_grant] said once for it, and was not used before; it is gone
    afterwards. So no command that must ask runs more often than it was
    granted. *)
Theorem once_grant_single_use ops ids c s' :
  NoDup (omap parked_id ops) →
  let '(s, used) := perm_run empty_perms ops in
  consumeGrantOnce ids c s = (true, s') →
  ∃ id, OpOnce id ∈ ops ∧ (∃ now tool ws, OpPark now id tool c ws ∈ ops) ∧ (id ∉ used) ∧
    perm_run empty_perms (ops ++ [OpConsume ids c]) = (s', used ++ [id]) ∧ NoDup (used ++ [id]) ∧
    ¬ usable_grant c id s'.
Proof.
  intros Hnd. pose proof (perm_run_ok ops Hnd) as Hok.
  pose proof (perm_run_snoc empty_perms ops (OpConsume ids c)) as Hsnoc.
  destruct (perm_run empty_perms ops) as [s used]. cbn [fst snd perm_step] in *.
  unfold consumeGrantOnce in *. destruct (find_grant ids c s) as [i|] eqn:Ef; [|done].
  intros Heq. simplify_eq. cbn [snd option_list] in Hsnoc.
  pose proof Ef as (_ & Hgi & req & Hpi & Hc)%find_grant_Some. destruct Hok as [Hp Hg Hu Hn].
  destruct (Hp i req Hpi) as (Hni & now & ws & Hpark). exists i.
  split; [by apply Hg|]. rewrite <-Hc. split; [by eauto|]. split; [done|]. split; [by rewrite Hc|].
  split; [|intros [H _]; cbn in H; by rewrite lookup_delete_eq in H].
  apply NoDup_app. split; [done|]. split; [|apply NoDup_singleton].
  intros x H ->%list_elem_of_singleton. done.
Qed.

Lemma once_grant_single_use_witness :
  let ops := [OpPark 1 "pr_1" "bash" "make" ""; OpPark 2 "pr_2" "bash" "ls" ""; OpOnce "pr_1"] in
  NoDup (omap parked_id ops) ∧
  ∃ id, OpOnce id ∈ ops ∧ ¬ usable_grant "make" id (perm_step (perm_run empty_perms ops).1 (OpConsume ["pr_1"] "make")).
Proof.
  set (ops := [_; _; _]). assert (NoDup (omap parked_id ops)) as Hnd by (vm_compute; by apply (bool_decide_unpack _)).
  split; [done|].
  pose proof (once_grant_single_use ops ["pr_1"] "make"
    (perm_step (perm_run empty_perms ops).1 (OpConsume ["pr_1"] "make")) Hnd) as H.
  destruct (perm_run empty_perms ops) as [s used] eqn:E. cbn [fst] in *.
  destruct H as (id & Ho & _ & _ & _ & _ & Hu); [|by exists id].
  replace s with (perm_run empty_perms ops).1 by (by rewrite E). by vm_compute.
Defined.

(** ** The scope of an always-grant *)

(** What the rule made from a command's first word [w] covers. *)
Definition word_scope (w command : string) : Prop :=
  first_word command = w ∨ ∃ p, w = p +:+ "*" ∧ HasPrefix command p = true.

Lemma HasPrefix_trans s p q : HasPrefix s (p +:+ q) = true → HasPrefix s p = true.
Proof.
  rewrite !HasPrefix_spec. intros [r ->]. exists (q +:+ r).
  clear. induction p as [|c p IH]; [done|]. exact (f_equal (String c) IH).
Qed.

Lemma ruleMatches_word w command : w ≠ "" → TrimSpace w = w → TrimSpace command ≠ "" →
  ruleMatches w (TrimSpace command) (first_word (TrimSpace command)) = true ↔
  word_scope w (TrimSpace command).
Proof.
  intros Hw Ht Hc. unfold ruleMatches, word_scope. rewrite Ht.
  rewrite (bool_decide_false (w = "")) by done. cbn [orb].
  destruct (TrimSuffix_cases w "*") as [(p & Hp & Hs)|[Hno Hs]]; rewrite Hs.
  - case_bool_decide as Hstar.
    { split; [|done]. intros _. right. exists "". rewrite Hstar. by split; [|apply HasPrefix_spec; eauto]. }
    assert (p ≠ w) as Hpw.
    { intros ->. apply (f_equal String.list_ascii_of_string), (f_equal length) in Hp.
      rewrite list_ascii_app, length_app in Hp. cbn [String.list_ascii_of_string length] in Hp. lia. }
    rewrite decide_False by done. split; [intros H; right; by exists p|].
    intros [H|(p' & Hp' & H)].
    + destruct (Fields_trimmed command Hc) as (w' & rest & Hf & Hpre & _).
      unfold first_word in H. rewrite Hf in H. cbn in H. subst w'. rewrite Hp in Hpre.
      by apply HasPrefix_trans in Hpre.
    + assert (p' = p) as ->; [|done]. rewrite <-(TrimSuffix_app p' "*"), <-Hp'. by rewrite Hs.
  - case_bool_decide as Hstar; [by destruct (Hno "")|].
    rewrite decide_True by done. rewrite bool_decide_eq_true. split; [by left|].
    intros [H|(p & Hp & _)]; [done|by destruct (Hno p)].
Qed.

(** What an always-grant opens. Granting a live request always, appends one
    allow rule for the request's tool to the table, which it also hands to the
    persister, and forgets the request; afterwards a command of that tool is
    denied exactly when it was denied before, and allowed exactly when it was
    before or its first word is the granted command's, or that word ends in a
    star and the command begins with what precedes the star. *)
Theorem always_grant_scope now id decision req s w rest command :
  id ≠ "" → perm_pending s !! id = Some req → now ≤ req_ExpiresAt req →
  TrimSpace (ToLower decision) = "always" →
  Fields (req_Command req) = w :: rest → TrimSpace command ≠ "" →
  let c := TrimSpace command in
  let '(r, s') := permissionGrant now id decision s in
  let rule := {| rule_Effect := "allow"; rule_Tool := req_Tool req; rule_Pattern := w; rule_Reason := "" |} in
  r = Ok (GrantedAlways rule (perm_rules s')) ∧ perm_rules s' = perm_rules s ++ [rule] ∧
  perm_pending s' = delete id (perm_pending s) ∧ perm_granted s' = perm_granted s ∧
  (denied (req_Tool req) c s' ↔ denied (req_Tool req) c s) ∧
  (permitted (req_Tool req) c s' ↔ permitted (req_Tool req) c s ∨ word_scope w c).
Proof.
  intros Hid Hp Hlive Hd Hf Hc. cbn zeta. unfold permissionGrant, lookupRequest.
  rewrite (decide_False (P := id = "")), Hp, decide_False by (done || lia). rewrite Hd.
  rewrite decide_False, decide_True by done. unfold PermissionRuleForRequest. rewrite Hf.
  cbn [grantAlways perm_rules perm_pending perm_granted set_pending set_rules].
  apply Fields_word in Hf as [Hw Ht]. repeat (split; [done|]).
  assert (covers (req_Tool req) (TrimSpace command)
    {| rule_Effect := "allow"; rule_Tool := req_Tool req; rule_Pattern := w; rule_Reason := "" |} = true ↔
    word_scope w (TrimSpace command)) as Hcov.
  { rewrite <-(ruleMatches_word w command) by done. unfold covers. cbn [rule_Tool rule_Pattern].
    rewrite (bool_decide_true (req_Tool req = req_Tool req)) by done. by rewrite orb_true_r. }
  unfold denied, permitted. cbn [perm_rules set_pending set_rules grantAlways].
  rewrite !Exists_app, !Exists_cons, !Exists_nil, Hcov. cbn [rule_Effect]. naive_solver.
Qed.

Definition sample_req (tool command : string) : PermissionRequest := {|
  req_ID := "pr_1"; req_Tool := tool; req_Command := command; req_Workspace := "";
  req_CreatedAt := 1; req_ExpiresAt := 1 + permissionRequestTTL |}.
Definition sample_request (tool command : string) : permissionStore :=
  parkRequest 1 "pr_1" tool command "" empty_perms.

Lemma always_grant_scope_witness :
  permitted "bash" "git push" (permissionGrant 2 "pr_1" " Always" (sample_request "bash" "git status")).2.
Proof.
  pose proof (always_grant_scope 2 "pr_1" " Always" (sample_req "bash" "git status")
    (sample_request "bash" "git status") "git" ["status"] "git push" ltac:(done) eq_refl ltac:(done) ltac:(by vm_compute) ltac:(by vm_compute)
    ltac:(by vm_compute)) as H.
  destruct (permissionGrant _ _ _ _) as [r s']. cbn zeta in H.
  assert (TrimSpace "git push" = "git push") as E by (by vm_compute). rewrite E in H.
  apply H. right. left. by vm_compute.
Defined.

(** A command that begins with a word ending in a star opens more than itself:
    always-granting ["ls*"] to [bash] allows every command that begins with [ls]. *)
Example always_grant_star :
  let s := (permissionGrant 2 "pr_1" "always" (sample_request "bash" "ls* -d")).2 in
  permissionDecision "bash" "lsof -i" s = ("allow", "ls*").
Proof. by vm_compute. Qed.

(** A once-grant is spent by [bash] whatever tool it was asked for. After
    [permission_grant] said once for a live request of a subagent whose client
    must ask, the retried call asks again, while [bash] with the client's name as
    its command, which must ask too, runs. *)
Theorem once_grant_ignores_tool e profiles spec now id req s root :
  let c := subagent_client profiles spec in
  id ≠ "" → perm_pending s !! id = Some req → now ≤ req_ExpiresAt req →
  req_Tool req = "agent" → req_Command req = c → TrimSpace c = c → c ≠ "" →
  (permissionDecision "agent" c s).1 = "ask" → (permissionDecision "bash" c s).1 = "ask" →
  ge_root e = Ok root → visits (ge_granted e) (<[id := true]> (perm_granted s)) →
  let s' := (permissionGrant now id "once" s).2 in
  (∃ i, (subagentPreflight e profiles spec s').1 = Err (PNeeded i (c +:+ " subagent") "")) ∧
  ∃ i, usable_grant c i s' ∧ runBash e c s' = (Ok {| ex_root := root; ex_command := c |}, spend i s').
Proof.
  intros c Hid Hp Hlive _ Hc Ht Hne Hagent Hbash Hroot [_ Hv]. cbn zeta.
  assert (permissionGrant now id "once" s = (Ok GrantedOnce, grantOnce id s)) as ->.
  { unfold permissionGrant, lookupRequest.
    rewrite (decide_False (P := id = "")), Hp, decide_False by (done || lia).
    assert (TrimSpace (ToLower "once") = "once") as -> by (by vm_compute). done. }
  cbn [snd]. split.
  - unfold subagentPreflight. rewrite Hroot. fold c.
    change (permissionDecision "agent" c (grantOnce id s)) with (permissionDecision "agent" c s).
    rewrite Hagent, decide_False, decide_True by done. case_decide; eauto.
  - unfold runBash. rewrite Ht. rewrite decide_False by done.
    change (permissionDecision "bash" c (grantOnce id s)) with (permissionDecision "bash" c s).
    destruct (permissionDecision "bash" c s) as [effect pattern]. cbn in Hbash. subst effect.
    rewrite decide_False, decide_True by done. unfold consumeGrantOnce.
    destruct (find_grant (ge_granted e) c (grantOnce id s)) as [i|] eqn:E.
    + apply find_grant_Some in E as [_ Hu]. exists i. split; [done|]. unfold exec_in. by rewrite Hroot.
    + exfalso. eapply find_grant_None; [exact E| |].
      * apply Hv. rewrite lookup_insert_eq. eauto.
      * split; [apply lookup_insert_eq|]. by exists req.
Qed.

Definition sample_spec (client : string) : RunSpec := {|
  Workspace := "w"; Task := "t"; Client := client; Agent := ""; Model := ""; Thinking := "";
  TimeoutSeconds := 0 |}.

Lemma once_grant_ignores_tool_witness :
  let e := {| ge_now := 7; ge_granted := ["pr_1"]; ge_pending := []; ge_id := "pr_2"; ge_root := Ok "/w" |} in
  let s' := (permissionGrant 2 "pr_1" "once" (sample_request "agent" "codex")).2 in
  ∃ i, runBash e "codex" s' = (Ok {| ex_root := "/w"; ex_command := "codex" |}, spend i s').
Proof.
  intros e s'.
  destruct (once_grant_ignores_tool e [] (sample_spec "codex") 2 "pr_1" (sample_req "agent" "codex")
    (sample_request "agent" "codex") "/w" ltac:(done) eq_refl ltac:(done) eq_refl ltac:(by vm_compute) ltac:(by vm_compute) ltac:(by vm_compute)
    ltac:(by vm_compute) ltac:(by vm_compute) eq_refl) as [_ (i & _ & H)]; [|by exists i].
  split; [apply NoDup_singleton|]. intros x. cbn.
  rewrite list_elem_of_singleton, lookup_insert_is_Some, lookup_empty. split; [by intros ->; left|].
  intros [->|[_ [? ?]]]; done.
Defined.
