(* ===== verification/DeviceAuth.v ===== *)
(** * Device enrollment and credentials

    [src/internal/authstore/store.go]: enrollment codes, device credentials and
    the file that holds them. The digest of a secret (SHA-256 in hexadecimal) is
    a parameter, about which nothing is assumed; the random part of a secret,
    the clock and whether writing the file succeeds are arguments of a call. The
    file is the value its JSON decodes to. Every method holds the store's mutex
    while it uses the state, so a call is one step. *)

From stdpp Require Import sorting.
From S2P Require Import Prelude Entities GoStrings.
Open Scope Z_scope.

Definition stateVersion : Z := 2.
Definition DefaultAccount : string := "default".
Definition maxAccountIDBytes : nat := 128.

Record Device : Type := {
  dev_ID : string;
  dev_Name : string;
  dev_AccountID : string;
  dev_CredentialHash : string;
  dev_CreatedAt : time;
  dev_UpdatedAt : time
}.

Record PublicDevice : Type := {
  pub_ID : string;
  pub_Name : string;
  pub_AccountID : string;
  pub_CreatedAt : time;
  pub_UpdatedAt : time
}.

Record Enrollment : Type := {
  enr_Hash : string;
  enr_AccountID : string;
  enr_CreatedAt : time;
  enr_ExpiresAt : time
}.

Record persistedState : Type := {
  Version : Z;
  Devices : gmap string Device;
  Enrollments : gmap string Enrollment
}.

(** [Store] with what its file holds. *)
Record Store : Type := {
  path : string;
  state : persistedState;
  file : option persistedState
}.

Inductive auth_err : Type :=
  | EAccountRequired | EAccountTooLong | ERandom | EPersist | ECodeRequired | EDeviceRequired
  | EInvalidCode | EAlreadyEnrolled | ENotEnrolled | EReadFile | EDecodeFile
  | EUnsupportedVersion (v : Z).

Definition set_devices (ds : gmap string Device) (s : Store) : Store := {|
  path := path s;
  state := {| Version := Version (state s); Devices := ds; Enrollments := Enrollments (state s) |};
  file := file s |}.
Definition set_enrollments (es : gmap string Enrollment) (s : Store) : Store := {|
  path := path s;
  state := {| Version := Version (state s); Devices := Devices (state s); Enrollments := es |};
  file := file s |}.

(** ** Opening *)

(** What reading and decoding the file gives; a field is [None] when the JSON
    object does not have it, and [Some ∅] when it is null. *)
Inductive file_read : Type :=
  | FileAbsent
  | FileUnreadable
  | FileMalformed
  | FileDecoded (version : option Z) (devices : option (gmap string Device))
      (enrollments : option (gmap string Enrollment)).

Definition in_account (account : string) (d : Device) : Device := {|
  dev_ID := dev_ID d; dev_Name := dev_Name d; dev_AccountID := account;
  dev_CredentialHash := dev_CredentialHash d; dev_CreatedAt := dev_CreatedAt d;
  dev_UpdatedAt := dev_UpdatedAt d |}.
Definition for_account (account : string) (e : Enrollment) : Enrollment := {|
  enr_Hash := enr_Hash e; enr_AccountID := account; enr_CreatedAt := enr_CreatedAt e;
  enr_ExpiresAt := enr_ExpiresAt e |}.

(** [Open]. The fields the file lacks keep the values of a new store. *)
Definition Open (p : string) (r : file_read) : result auth_err Store :=
  let fresh := {| Version := stateVersion; Devices := ∅; Enrollments := ∅ |} in
  if decide (p = "") then Ok {| path := p; state := fresh; file := None |}
  else
    match r with
    | FileAbsent => Ok {| path := p; state := fresh; file := None |}
    | FileUnreadable => Err EReadFile
    | FileMalformed => Err EDecodeFile
    | FileDecoded v ds es =>
        let st := {| Version := default stateVersion v; Devices := default ∅ ds;
                     Enrollments := default ∅ es |} in
        if bool_decide (Version st ≠ 1) && bool_decide (Version st ≠ stateVersion)
        then Err (EUnsupportedVersion (Version st))
        else
          let st' :=
            if decide (Version st = 1)
            then {| Version := stateVersion;
                    Devices := in_account DefaultAccount <$> Devices st;
                    Enrollments := for_account DefaultAccount <$> Enrollments st |}
            else st in
          Ok {| path := p; state := st'; file := Some st |}
    end.

(** Reading back what [persistLocked] wrote. *)
Definition read_back (f : option persistedState) : file_read :=
  match f with
  | None => FileAbsent
  | Some st => FileDecoded (Some (Version st)) (Some (Devices st)) (Some (Enrollments st))
  end.

(** ** Operations *)

(** The surroundings of one call: the clock, the random text of a new secret
    ([None] when the generator fails) and whether the file can be written. *)
Record call_env : Type := { ce_now : time; ce_random : option string; ce_writes : bool }.

Definition persistLocked (e : call_env) (s : Store) : result auth_err Store :=
  if decide (path s = "") then Ok s
  else if ce_writes e then Ok {| path := path s; state := state s; file := Some (state s) |}
  else Err EPersist.

Definition pruneExpiredLocked (now : time) (s : Store) : Store :=
  set_enrollments
    (filter (λ he : string * Enrollment, ¬ enr_ExpiresAt he.2 < now) (Enrollments (state s))) s.

Definition validateAccountID (accountID : string) : result auth_err () :=
  if decide (accountID = "") then Err EAccountRequired
  else if decide (maxAccountIDBytes < String.length accountID)%nat then Err EAccountTooLong
  else Ok ().

Definition minute : Z := 60 * 10 ^ 9.

(** The life of an enrollment code. *)
Definition enrollment_ttl (ttl : Z) : Z :=
  let ttl := if decide (ttl ≤ 0) then 10 * minute else ttl in
  if decide (24 * 60 * minute < ttl) then 24 * 60 * minute else ttl.

Section authstore.
Variable digest : string → string.

Definition randomSecret (prefix : string) (e : call_env) : result auth_err string :=
  match ce_random e with None => Err ERandom | Some r => Ok (prefix +:+ r) end.

Definition CreateEnrollment (e : call_env) (ttl : Z) (accountID : string) (s : Store) :
    result auth_err (string * time) * Store :=
  let accountID := TrimSpace accountID in
  match validateAccountID accountID with
  | Err x => (Err x, s)
  | Ok _ =>
      match randomSecret "enr_" e with
      | Err x => (Err x, s)
      | Ok secret =>
          let expires := ce_now e + enrollment_ttl ttl in
          let h := digest secret in
          let s := pruneExpiredLocked (ce_now e) s in
          let s := set_enrollments (<[h := {| enr_Hash := h; enr_AccountID := accountID;
                     enr_CreatedAt := ce_now e; enr_ExpiresAt := expires |}]> (Enrollments (state s))) s in
          match persistLocked e s with
          | Err x => (Err x, set_enrollments (delete h (Enrollments (state s))) s)
          | Ok s => (Ok (secret, expires), s)
          end
      end
  end.

Definition EnrollDevice (e : call_env) (code deviceID deviceName : string) (s : Store) :
    result auth_err string * Store :=
  if decide (code = "") then (Err ECodeRequired, s)
  else if bool_decide (deviceID = "") || bool_decide (deviceName = "") then (Err EDeviceRequired, s)
  else
    let codeHash := digest code in
    let s := pruneExpiredLocked (ce_now e) s in
    match Enrollments (state s) !! codeHash with
    | None => (Err EInvalidCode, s)
    | Some entry =>
        if decide (enr_ExpiresAt entry < ce_now e) then (Err EInvalidCode, s)
        else if decide (is_Some (Devices (state s) !! deviceID)) then (Err EAlreadyEnrolled, s)
        else
          match randomSecret "dev_" e with
          | Err x => (Err x, s)
          | Ok credential =>
              let s := set_enrollments (delete codeHash (Enrollments (state s))) s in
              let s := set_devices (<[deviceID := {|
                         dev_ID := deviceID; dev_Name := deviceName;
                         dev_AccountID := enr_AccountID entry; dev_CredentialHash := digest credential;
                         dev_CreatedAt := ce_now e; dev_UpdatedAt := ce_now e |}]> (Devices (state s))) s in
              match persistLocked e s with
              | Err x =>
                  (Err x, set_enrollments (<[codeHash := entry]> (Enrollments (state s)))
                            (set_devices (delete deviceID (Devices (state s))) s))
              | Ok s => (Ok credential, s)
              end
          end
    end.

Definition VerifyDevice (deviceID credential : string) (s : Store) : bool :=
  if bool_decide (deviceID = "") || bool_decide (credential = "") then false
  else
    match Devices (state s) !! deviceID with
    | None => false
    | Some d => bool_decide (digest credential = dev_CredentialHash d)
    end.

Definition renamed (name : string) (now : time) (d : Device) : Device := {|
  dev_ID := dev_ID d; dev_Name := name; dev_AccountID := dev_AccountID d;
  dev_CredentialHash := dev_CredentialHash d; dev_CreatedAt := dev_CreatedAt d; dev_UpdatedAt := now |}.

(** Unlike the other calls, this one keeps the change when the file cannot be
    written. *)
Definition UpdateDeviceName (e : call_env) (deviceID name : string) (s : Store) :
    result auth_err () * Store :=
  if decide (name = "") then (Ok (), s)
  else
    match Devices (state s) !! deviceID with
    | None => (Err ENotEnrolled, s)
    | Some d =>
        if decide (dev_Name d = name) then (Ok (), s)
        else
          let s := set_devices (<[deviceID := renamed name (ce_now e) d]> (Devices (state s))) s in
          match persistLocked e s with
          | Err x => (Err x, s)
          | Ok s => (Ok (), s)
          end
    end.

Definition with_credential (credential : string) (now : time) (d : Device) : Device := {|
  dev_ID := dev_ID d; dev_Name := dev_Name d; dev_AccountID := dev_AccountID d;
  dev_CredentialHash := digest credential; dev_CreatedAt := dev_CreatedAt d; dev_UpdatedAt := now |}.

Definition RotateDevice (e : call_env) (deviceID : string) (s : Store) :
    result auth_err string * Store :=
  match Devices (state s) !! deviceID with
  | None => (Err ENotEnrolled, s)
  | Some old =>
      match randomSecret "dev_" e with
      | Err x => (Err x, s)
      | Ok credential =>
          let s := set_devices (<[deviceID := with_credential credential (ce_now e) old]>
                     (Devices (state s))) s in
          match persistLocked e s with
          | Err x => (Err x, set_devices (<[deviceID := old]> (Devices (state s))) s)
          | Ok s => (Ok credential, s)
          end
      end
  end.

Definition RevokeDevice (e : call_env) (deviceID : string) (s : Store) : result auth_err () * Store :=
  match Devices (state s) !! deviceID with
  | None => (Err ENotEnrolled, s)
  | Some d =>
      let s := set_devices (delete deviceID (Devices (state s))) s in
      match persistLocked e s with
      | Err x => (Err x, set_devices (<[deviceID := d]> (Devices (state s))) s)
      | Ok s => (Ok (), s)
      end
  end.
End authstore.

Definition public_device (d : Device) : PublicDevice := {|
  pub_ID := dev_ID d; pub_Name := dev_Name d; pub_AccountID := dev_AccountID d;
  pub_CreatedAt := dev_CreatedAt d; pub_UpdatedAt := dev_UpdatedAt d |}.

(** [sort.Slice] with [<] on ids: the ids of a store differ. *)
Definition id_le (a b : PublicDevice) : Prop := string_gt (pub_ID a) (pub_ID b) = false.
#[export] Instance id_le_dec a b : Decision (id_le a b).
Proof. unfold id_le. apply _. Defined.
Definition ListDevices (s : Store) : list PublicDevice :=
  merge_sort id_le (public_device <$> (map_to_list (Devices (state s))).*2).

Definition DeviceAccount (deviceID : string) (s : Store) : option string :=
  if decide (deviceID = "") then None
  else
    match Devices (state s) !! deviceID with
    | None => None
    | Some d => if decide (dev_AccountID d = "") then None else Some (dev_AccountID d)
    end.
