(* ===== verification/DeviceAuthSpec.v ===== *)
(** * What device enrollment guarantees

    The life of enrollment codes and credentials over any sequence of calls, and
    what a restart of the manager preserves. *)

From stdpp Require Import sorting.
From S2P Require Import Prelude Entities GoStrings DeviceAuth.
Open Scope Z_scope.

Lemma store_eta s : s = {| path := path s;
  state := {| Version := Version (state s); Devices := Devices (state s); Enrollments := Enrollments (state s) |};
  file := file s |}.
Proof. by destruct s as [? []]. Qed.

(** Undoing an enrollment. *)
Lemma undo_enroll s h entry id d :
  Enrollments (state s) !! h = Some entry → Devices (state s) !! id = None →
  let s1 := set_enrollments (delete h (Enrollments (state s))) s in
  let s2 := set_devices (<[id := d]> (Devices (state s1))) s1 in
  set_enrollments (<[h := entry]> (Enrollments (state s2))) (set_devices (delete id (Devices (state s2))) s2) = s.
Proof.
  destruct s as [p [v D E] f]. cbn. intros HE HD. unfold set_enrollments, set_devices. cbn.
  rewrite insert_delete_id by done. by rewrite delete_insert_id by done.
Qed.

Lemma undo_create s h x : Enrollments (state s) !! h = None →
  let s2 := set_enrollments (<[h := x]> (Enrollments (state s))) s in
  set_enrollments (delete h (Enrollments (state s2))) s2 = s.
Proof.
  destruct s as [p [v D E] f]. cbn. intros HE. unfold set_enrollments. cbn. by rewrite delete_insert_id.
Qed.

(** The store after a successful write. *)
Definition saved (s : Store) : Store :=
  if decide (path s = "") then s else {| path := path s; state := state s; file := Some (state s) |}.

Lemma persistLocked_cases e s :
  persistLocked e s = Ok (saved s) ∨ persistLocked e s = Err EPersist.
Proof. unfold persistLocked, saved. case_decide; [by left|]. destruct (ce_writes e); auto. Qed.

Ltac persist_cases e :=
  match goal with |- context [persistLocked e ?x] =>
    let E := fresh "E" in destruct (persistLocked_cases e x) as [E|E]; rewrite E
  end.

Lemma saved_state s : state (saved s) = state s.
Proof. unfold saved. by case_decide. Qed.
Lemma saved_path s : path (saved s) = path s.
Proof. unfold saved. by case_decide. Qed.

Section spec.
Variable digest : string → string.

(** ** The outcomes of the calls *)

Definition new_enrollment (h account : string) (now expires : time) : Enrollment := {|
  enr_Hash := h; enr_AccountID := account; enr_CreatedAt := now; enr_ExpiresAt := expires |}.

Lemma CreateEnrollment_cases e ttl account s :
  let acct := TrimSpace account in
  let expires := ce_now e + enrollment_ttl ttl in
  (∃ x, CreateEnrollment digest e ttl account s = (Err x, s)) ∨
  ∃ rnd, ce_random e = Some rnd ∧ acct ≠ "" ∧ (String.length acct ≤ maxAccountIDBytes)%nat ∧
    let secret := "enr_" +:+ rnd in
    let s1 := pruneExpiredLocked (ce_now e) s in
    let s2 := set_enrollments (<[digest secret := new_enrollment (digest secret) acct (ce_now e) expires]>
                (Enrollments (state s1))) s1 in
    CreateEnrollment digest e ttl account s = (Ok (secret, expires), saved s2) ∨
    CreateEnrollment digest e ttl account s =
      (Err EPersist, set_enrollments (delete (digest secret) (Enrollments (state s2))) s2).
Proof.
  cbn zeta. unfold CreateEnrollment, validateAccountID.
  case_decide as H1; [left; by eexists|]. case_decide as H2; [left; by eexists|].
  unfold randomSecret. destruct (ce_random e) as [rnd|]; [|left; by eexists].
  right. exists rnd. repeat (split; [done || lia|]). cbn zeta.
  persist_cases e; auto.
Qed.

Definition new_device (id name account credential : string) (now : time) : Device := {|
  dev_ID := id; dev_Name := name; dev_AccountID := account; dev_CredentialHash := digest credential;
  dev_CreatedAt := now; dev_UpdatedAt := now |}.

Lemma EnrollDevice_cases e code id name s :
  let s1 := pruneExpiredLocked (ce_now e) s in
  (∃ x, EnrollDevice digest e code id name s = (Err x, s) ∨
        EnrollDevice digest e code id name s = (Err x, s1)) ∨
  ∃ rnd entry, Enrollments (state s) !! digest code = Some entry ∧ ce_now e ≤ enr_ExpiresAt entry ∧
    Devices (state s) !! id = None ∧ code ≠ "" ∧ id ≠ "" ∧ name ≠ "" ∧
    let credential := "dev_" +:+ rnd in
    EnrollDevice digest e code id name s =
      (Ok credential, saved (set_devices (<[id := new_device id name (enr_AccountID entry) credential (ce_now e)]>
         (Devices (state s1))) (set_enrollments (delete (digest code) (Enrollments (state s1))) s1))).
Proof.
  cbn zeta. unfold EnrollDevice.
  case_decide as H1; [left; eexists; by left|].
  destruct (_ || _) eqn:H2; [left; eexists; by left|].
  apply orb_false_iff in H2 as [H2 H3]. apply bool_decide_eq_false in H2, H3.
  destruct (Enrollments (state (pruneExpiredLocked (ce_now e) s)) !! digest code) as [entry|] eqn:E;
    [|left; eexists; by right].
  case_decide as H4; [left; eexists; by right|].
  case_decide as H5; [left; eexists; by right|].
  apply eq_None_not_Some in H5. cbn in H5.
  unfold randomSecret. destruct (ce_random e) as [rnd|]; [|left; eexists; by right].
  persist_cases e.
  - right. exists rnd, entry. cbn in E. apply map_lookup_filter_Some in E as [E _].
    by repeat (split; [done || lia|]).
  - left. exists EPersist. right. f_equal. by apply undo_enroll.
Qed.

Lemma RotateDevice_cases e id s :
  (∃ x, RotateDevice digest e id s = (Err x, s)) ∨
  ∃ rnd d, Devices (state s) !! id = Some d ∧
    RotateDevice digest e id s = (Ok ("dev_" +:+ rnd),
      saved (set_devices (<[id := with_credential digest ("dev_" +:+ rnd) (ce_now e) d]> (Devices (state s))) s)).
Proof.
  unfold RotateDevice. destruct (Devices (state s) !! id) as [d|] eqn:E; [|left; by eexists].
  unfold randomSecret. destruct (ce_random e) as [rnd|]; [|left; by eexists].
  persist_cases e.
  - right. by exists rnd, d.
  - left. exists EPersist. f_equal. unfold set_devices. cbn. rewrite insert_insert_eq, insert_id by done.
    by rewrite <-store_eta.
Qed.

Lemma RevokeDevice_cases e id s :
  (∃ x, RevokeDevice e id s = (Err x, s)) ∨
  is_Some (Devices (state s) !! id) ∧
  RevokeDevice e id s = (Ok (), saved (set_devices (delete id (Devices (state s))) s)).
Proof.
  unfold RevokeDevice. destruct (Devices (state s) !! id) as [d|] eqn:E; [|left; by eexists].
  persist_cases e.
  - by right.
  - left. exists EPersist. f_equal. unfold set_devices. cbn. rewrite insert_delete_id by done.
    by rewrite <-store_eta.
Qed.

Lemma UpdateDeviceName_cases e id name s :
  (∃ r, UpdateDeviceName e id name s = (r, s)) ∨
  ∃ d r, Devices (state s) !! id = Some d ∧
    let s1 := set_devices (<[id := renamed name (ce_now e) d]> (Devices (state s))) s in
    (UpdateDeviceName e id name s = (r, saved s1) ∨ UpdateDeviceName e id name s = (r, s1)).
Proof.
  unfold UpdateDeviceName. case_decide; [left; by eexists|].
  destruct (Devices (state s) !! id) as [d|] eqn:E; [|left; by eexists].
  case_decide; [left; by eexists|]. right. exists d. cbn zeta.
  persist_cases e; eexists; (split; [done|]); [by left|by right].
Qed.

(** ** Histories *)

Inductive call : Type :=
  | CCreate (e : call_env) (ttl : Z) (account : string)
  | CEnroll (e : call_env) (code id name : string)
  | CRename (e : call_env) (id name : string)
  | CRotate (e : call_env) (id : string)
  | CRevoke (e : call_env) (id : string).

(** What a successful call hands out or takes away. *)
Inductive fact : Type :=
  | Created (now : time) (secret account : string) (expires : time)
  | Enrolled (now : time) (code id account credential : string)
  | Rotated (id credential : string)
  | Revoked (id : string).

Definition call_step (s : Store) (c : call) : Store * option fact :=
  match c with
  | CCreate e ttl account =>
      match CreateEnrollment digest e ttl account s with
      | (Ok (secret, expires), s') => (s', Some (Created (ce_now e) secret (TrimSpace account) expires))
      | (Err _, s') => (s', None)
      end
  | CEnroll e code id name =>
      match EnrollDevice digest e code id name s with
      | (Ok credential, s') =>
          (s', Some (Enrolled (ce_now e) code id (default "" (DeviceAccount id s')) credential))
      | (Err _, s') => (s', None)
      end
  | CRename e id name => ((UpdateDeviceName e id name s).2, None)
  | CRotate e id =>
      match RotateDevice digest e id s with
      | (Ok credential, s') => (s', Some (Rotated id credential))
      | (Err _, s') => (s', None)
      end
  | CRevoke e id =>
      match RevokeDevice e id s with
      | (Ok _, s') => (s', Some (Revoked id))
      | (Err _, s') => (s', None)
      end
  end.

(** The store after the calls, and their facts, the latest first. *)
Definition run_calls (s : Store) (cs : list call) : Store * list fact :=
  foldl (λ sf c, let '(s', f) := call_step sf.1 c in (s', option_list f ++ sf.2)) (s, []) cs.

Lemma run_calls_snoc s cs c :
  run_calls s (cs ++ [c]) =
  ((call_step (run_calls s cs).1 c).1, option_list (call_step (run_calls s cs).1 c).2 ++ (run_calls s cs).2).
Proof. unfold run_calls. rewrite foldl_app. cbn. by destruct (call_step _ c). Qed.

(** The digests of the enrollment codes that calls try to make. *)
Definition code_digest (c : call) : option string :=
  match c with
  | CCreate e _ _ => (λ r, digest ("enr_" +:+ r)) <$> ce_random e
  | _ => None
  end.
Definition fresh_codes (cs : list call) : Prop := NoDup (omap code_digest cs).

Definition call_now (c : call) : time :=
  match c with
  | CCreate e _ _ | CEnroll e _ _ _ | CRename e _ _ | CRotate e _ | CRevoke e _ => ce_now e
  end.

Definition enrolled_digest (f : fact) : option string :=
  match f with Enrolled _ code _ _ _ => Some (digest code) | _ => None end.

(** What a device presents and belongs to. *)
Definition identity (d : Device) : string * string := (dev_AccountID d, dev_CredentialHash d).

(** The devices as the facts tell: account and credential. *)
Fixpoint known_devices (fs : list fact) : gmap string (string * string) :=
  match fs with
  | [] => ∅
  | Created _ _ _ _ :: fs => known_devices fs
  | Enrolled _ _ id account credential :: fs => <[id := (account, credential)]> (known_devices fs)
  | Rotated id credential :: fs =>
      alter (λ ac : string * string, (ac.1, credential)) id (known_devices fs)
  | Revoked id :: fs => delete id (known_devices fs)
  end.

Definition new_store (p : string) : Store := {|
  path := p; state := {| Version := stateVersion; Devices := ∅; Enrollments := ∅ |}; file := None |}.

(** ** Devices *)

Definition devices_agree (s : Store) (fs : list fact) : Prop :=
  identity <$> Devices (state s) = (λ ac : string * string, (ac.1, digest ac.2)) <$> known_devices fs.

Lemma known_digest_alter id c (m : gmap string (string * string)) :
  (λ ac : string * string, (ac.1, digest ac.2)) <$> alter (λ ac : string * string, (ac.1, c)) id m =
  alter (λ ah : string * string, (ah.1, digest c)) id ((λ ac : string * string, (ac.1, digest ac.2)) <$> m).
Proof.
  apply map_eq. intros i. rewrite lookup_fmap. destruct (decide (i = id)) as [->|].
  - rewrite !lookup_alter_eq, lookup_fmap. by destruct (m !! id).
  - by rewrite !lookup_alter_ne, lookup_fmap by done.
Qed.

Lemma identity_update id d d' (ds : gmap string Device) : ds !! id = Some d →
  dev_AccountID d' = dev_AccountID d →
  identity <$> <[id := d']> ds =
  alter (λ ah : string * string, (ah.1, dev_CredentialHash d')) id (identity <$> ds).
Proof.
  intros H1 H2. apply map_eq. intros i. rewrite lookup_fmap. destruct (decide (i = id)) as [->|].
  - rewrite lookup_insert_eq, lookup_alter_eq, lookup_fmap, H1. cbn. unfold identity. by rewrite H2.
  - by rewrite lookup_insert_ne, lookup_alter_ne, lookup_fmap by done.
Qed.

(** ** Enrollment codes *)

Lemma enrollment_ttl_range ttl : 0 < enrollment_ttl ttl ≤ 24 * 60 * minute.
Proof. unfold enrollment_ttl, minute. repeat case_decide; lia. Qed.

Record codes_ok (cs : list call) (s : Store) (fs : list fact) : Prop := {
  co_entry h en : Enrollments (state s) !! h = Some en →
    h ∈ omap code_digest cs ∧ (h ∉ omap enrolled_digest fs) ∧
    ∃ now secret, Created now secret (enr_AccountID en) (enr_ExpiresAt en) ∈ fs ∧ digest secret = h;
  co_used h : h ∈ omap enrolled_digest fs → h ∈ omap code_digest cs;
  co_nodup : NoDup (omap enrolled_digest fs);
  co_enrolled now code i account credential : Enrolled now code i account credential ∈ fs →
    ∃ now0 secret expires, Created now0 secret account expires ∈ fs ∧ digest secret = digest code ∧
      now ≤ expires;
  co_created now secret account expires : Created now secret account expires ∈ fs →
    account ≠ "" ∧ (String.length account ≤ maxAccountIDBytes)%nat ∧ now < expires ≤ now + 24 * 60 * minute
}.

(** A call that makes no fact and no entry. *)
Lemma codes_ok_weaken cs c s s' fs : codes_ok cs s fs → Enrollments (state s') ⊆ Enrollments (state s) →
  codes_ok (cs ++ [c]) s' fs.
Proof.
  intros [H1 H2 H3 H4 H5] Hsub. split; [intros h en H|intros h|done..]; rewrite omap_app, elem_of_app.
  - eapply lookup_weaken in H; [|done]. destruct (H1 h en H) as [? ?]. auto.
  - auto.
Qed.

(** A call whose fact concerns no code. *)
Lemma codes_ok_other cs c s s' fs f : codes_ok cs s fs → Enrollments (state s') = Enrollments (state s) →
  (∀ now x y z, f ≠ Created now x y z) → (∀ now x y z u, f ≠ Enrolled now x y z u) →
  codes_ok (cs ++ [c]) s' (f :: fs).
Proof.
  intros [H1 H2 H3 H4 H5] He Hc Hf.
  assert (omap enrolled_digest (f :: fs) = omap enrolled_digest fs) as Ho.
  { destruct f as [| now code i account credential| |]; [done| |done..]. by destruct (Hf now code i account credential). }
  split; rewrite ?Ho, ?He; [| |done|..]; intros *; rewrite ?omap_app, ?elem_of_app, ?elem_of_cons.
  - intros (Hin & Hno & now & secret & ? & ?)%H1. split; [by left|]. split; [done|].
    exists now, secret. split; [by right|done].
  - auto.
  - intros [E|H]; [by destruct (Hf _ _ _ _ _ (eq_sym E))|].
    destruct (H4 _ _ _ _ _ H) as (? & ? & ? & ? & ?). eexists _, _, _. split; [by right|done].
  - intros [E|H]; [by destruct (Hc _ _ _ _ (eq_sym E))|]. by eapply H5.
Qed.

Lemma pruned_subseteq now s : Enrollments (state (pruneExpiredLocked now s)) ⊆ Enrollments (state s).
Proof. apply map_filter_subseteq. Qed.

Lemma codes_ok_create cs e ttl account s fs s2 rnd :
  let c := CCreate e ttl account in
  let secret := "enr_" +:+ rnd in
  let acct := TrimSpace account in
  let expires := ce_now e + enrollment_ttl ttl in
  codes_ok cs s fs → fresh_codes (cs ++ [c]) → ce_random e = Some rnd →
  acct ≠ "" → (String.length acct ≤ maxAccountIDBytes)%nat →
  Enrollments (state s2) = <[digest secret := new_enrollment (digest secret) acct (ce_now e) expires]>
                             (Enrollments (state (pruneExpiredLocked (ce_now e) s))) →
  codes_ok (cs ++ [c]) s2 (Created (ce_now e) secret acct expires :: fs).
Proof.
  cbn zeta. intros [H1 H2 H3 H4 H5] Hfresh Hr Ha Hl He. unfold fresh_codes in Hfresh.
  rewrite omap_app in Hfresh. cbn in Hfresh. rewrite Hr in Hfresh. cbn in Hfresh.
  apply NoDup_app in Hfresh as (_ & Hfresh & _).
  split; rewrite ?He; cbn [omap list_omap enrolled_digest]; [| |done|..]; intros *;
    rewrite ?omap_app, ?elem_of_app, ?elem_of_cons.
  - intros [[<- <-]|[Hne [H _]%map_lookup_filter_Some]]%lookup_insert_Some.
    + split; [right; cbn; rewrite Hr; by left|]. split.
      { intros Hin%H2. apply (Hfresh _ Hin). by left. }
      exists (ce_now e), ("enr_" +:+ rnd). split; [by left|done].
    + cbn in H. destruct (H1 _ _ H) as (? & ? & now & secret & ? & ?). split; [by left|]. split; [done|].
      exists now, secret. split; [by right|done].
  - auto.
  - intros [E|H]; [done|]. destruct (H4 _ _ _ _ _ H) as (? & ? & ? & ? & ?).
    eexists _, _, _. split; [by right|done].
  - intros [E|H]; [|by eapply H5]. simplify_eq. split; [done|]. split; [done|].
    pose proof (enrollment_ttl_range ttl). lia.
Qed.

Lemma codes_ok_enroll cs c s fs s2 now code i account credential entry :
  codes_ok cs s fs → Enrollments (state s) !! digest code = Some entry → now ≤ enr_ExpiresAt entry →
  account = enr_AccountID entry →
  Enrollments (state s2) = delete (digest code) (Enrollments (state (pruneExpiredLocked now s))) →
  codes_ok (cs ++ [c]) s2 (Enrolled now code i account credential :: fs).
Proof.
  intros [H1 H2 H3 H4 H5] Hen Hle -> He. destruct (H1 _ _ Hen) as (Hin & Hno & now0 & secret & Hcr & Hd).
  split; rewrite ?He; cbn [omap list_omap enrolled_digest]; intros *; rewrite ?omap_app, ?elem_of_app, ?elem_of_cons.
  - intros [Hne [H _]%map_lookup_filter_Some]%lookup_delete_Some. cbn in H.
    destruct (H1 _ _ H) as (? & ? & n & sec & ? & ?). split; [by left|]. split; [intros [?|?]; congruence|].
    exists n, sec. split; [by right|done].
  - intros [->|?]; auto.
  - by constructor.
  - intros [E|H].
    + simplify_eq. exists now0, secret, (enr_ExpiresAt entry). split; [by right|done].
    + destruct (H4 _ _ _ _ _ H) as (? & ? & ? & ? & ?). eexists _, _, _. split; [by right|done].
  - intros [E|H]; [done|]. by eapply H5.
Qed.

Lemma codes_ok_run p cs : fresh_codes cs →
  codes_ok cs (run_calls (new_store p) cs).1 (run_calls (new_store p) cs).2.
Proof.
  induction cs as [|c cs IH] using rev_ind; intros Hfresh.
  { split; cbn; [intros h en H; by rewrite lookup_empty in H|intros h H; by inversion H|constructor|
      intros * H; by inversion H..]. }
  assert (fresh_codes cs) as Hcs by (unfold fresh_codes in *; rewrite omap_app in Hfresh; by apply NoDup_app in Hfresh as [? _]).
  specialize (IH Hcs). rewrite run_calls_snoc. destruct (run_calls (new_store p) cs) as [s fs]. cbn [fst snd] in *.
  destruct c as [e ttl account|e code i name|e i name|e i|e i]; cbn [call_step].
  - destruct (CreateEnrollment_cases e ttl account s) as [[x ->]|(rnd & Hr & Ha & Hl & [-> | ->])]; cbn [fst snd option_list app].
    + by eapply codes_ok_weaken.
    + eapply codes_ok_create; eauto. by rewrite saved_state.
    + eapply codes_ok_weaken; [done|]. cbn. rewrite delete_insert_eq. etrans; [apply delete_subseteq|].
      apply map_filter_subseteq.
  - destruct (EnrollDevice_cases e code i name s) as [[x [-> | ->]]|(rnd & entry & He & Hle & Hn & _ & Hi & _ & ->)];
      cbn [fst snd option_list app].
    + by eapply codes_ok_weaken.
    + eapply codes_ok_weaken; [done|]. apply pruned_subseteq.
    + eapply codes_ok_enroll; eauto; [|by rewrite saved_state].
      unfold DeviceAccount. rewrite decide_False, saved_state by done. cbn. rewrite lookup_insert_eq. cbn.
      by case_decide as E; rewrite ?E.
  - eapply codes_ok_weaken; [done|].
    destruct (UpdateDeviceName_cases e i name s) as [[r ->]|(d & r & Hd & [-> | ->])]; cbn; rewrite ?saved_state; done.
  - destruct (RotateDevice_cases e i s) as [[x ->]|(rnd & d & Hd & ->)]; cbn [fst snd option_list app].
    + by eapply codes_ok_weaken.
    + eapply codes_ok_other; [done|by rewrite saved_state|done|done].
  - destruct (RevokeDevice_cases e i s) as [[x ->]|[_ ->]]; cbn [fst snd option_list app].
    + by eapply codes_ok_weaken.
    + eapply codes_ok_other; [done|by rewrite saved_state|done|done].
Qed.

(** C32. An enrollment code admits one device, in time, into its own account. After
    any calls on a new store whose generated codes have different digests,
    however they failed in between: no two enrollments used codes of the same
    digest, and each used a code that was created for the account the device
    then belongs to, at most 24 hours before it expired, and not after. *)
Theorem enrollment_codes_single_use p cs : fresh_codes cs →
  let '(s, fs) := run_calls (new_store p) cs in
  NoDup (omap enrolled_digest fs) ∧
  ∀ now code i account credential, Enrolled now code i account credential ∈ fs →
    account ≠ "" ∧
    ∃ created secret expires, Created created secret account expires ∈ fs ∧
      digest secret = digest code ∧ now ≤ expires ≤ created + 24 * 60 * minute.
Proof.
  intros Hfresh. pose proof (codes_ok_run p cs Hfresh) as [_ _ Hn He Hc].
  destruct (run_calls (new_store p) cs) as [s fs]. cbn in *. split; [done|].
  intros now code i account credential H. destruct (He _ _ _ _ _ H) as (created & secret & expires & H1 & H2 & H3).
  destruct (Hc _ _ _ _ H1) as (? & _ & ?). split; [done|]. exists created, secret, expires. repeat split; (done || lia).
Qed.

Lemma devices_agree_step s fs c : devices_agree s fs →
  devices_agree (call_step s c).1 (option_list (call_step s c).2 ++ fs).
Proof.
  unfold devices_agree. intros H. destruct c as [e ttl account|e code i name|e i name|e i|e i]; cbn [call_step].
  - destruct (CreateEnrollment_cases e ttl account s) as [[x ->]|(rnd & _ & _ & _ & [-> | ->])]; cbn;
      rewrite ?saved_state; done.
  - destruct (EnrollDevice_cases e code i name s) as [[x [-> | ->]]|(rnd & entry & _ & _ & Hn & _ & Hi & _ & ->)];
      [done..|]. cbn [fst snd option_list app known_devices]. rewrite saved_state. cbn.
    unfold DeviceAccount. rewrite decide_False by done. rewrite saved_state. cbn.
    rewrite lookup_insert_eq, !fmap_insert, H. cbn. unfold identity. cbn. by case_decide as E; rewrite ?E.
  - destruct (UpdateDeviceName_cases e i name s) as [[r ->]|(d & r & Hd & [-> | ->])]; cbn; [done| |];
      rewrite ?saved_state; cbn; rewrite (identity_update i d) by done; cbn;
      rewrite <-H; apply map_eq; intros j; (destruct (decide (j = i)) as [->|];
        [rewrite lookup_alter_eq, lookup_fmap, Hd; done|by rewrite lookup_alter_ne by done]).
  - destruct (RotateDevice_cases e i s) as [[x ->]|(rnd & d & Hd & ->)]; [done|].
    cbn [fst snd option_list app known_devices]. rewrite saved_state. cbn.
    by rewrite (identity_update i d), known_digest_alter, <-H by done.
  - destruct (RevokeDevice_cases e i s) as [[x ->]|[_ ->]]; [done|].
    cbn [fst snd option_list app known_devices]. rewrite saved_state. cbn.
    by rewrite !fmap_delete, H.
Qed.

Lemma devices_agree_run p cs : devices_agree (run_calls (new_store p) cs).1 (run_calls (new_store p) cs).2.
Proof.
  induction cs as [|c cs IH] using rev_ind; [unfold devices_agree; cbn; by rewrite !fmap_empty|].
  rewrite run_calls_snoc. by apply devices_agree_step.
Qed.


(** ** Restarts *)

(** What the file lacks of the memory's devices is at most their names; what it
    has more of enrollments has expired. *)
Definition disk_ok (cs : list call) (s : Store) : Prop :=
  Version (state s) = stateVersion ∧
  match file s with
  | None => Devices (state s) = ∅ ∧ Enrollments (state s) = ∅
  | Some f =>
      Version f = stateVersion ∧ identity <$> Devices f = identity <$> Devices (state s) ∧
      Enrollments (state s) ⊆ Enrollments f ∧
      ∀ h en, Enrollments f !! h = Some en → Enrollments (state s) !! h = None →
        ∃ c, c ∈ cs ∧ enr_ExpiresAt en < call_now c
  end.

Lemma disk_ok_saved cs s : path s ≠ "" → Version (state s) = stateVersion → disk_ok cs (saved s).
Proof.
  intros Hp Hv. unfold disk_ok. rewrite saved_state. unfold saved. rewrite decide_False by done. cbn.
  repeat (split; [done|]). intros h en H1 H2. congruence.
Qed.

Lemma disk_ok_same cs c s : disk_ok cs s → disk_ok (cs ++ [c]) s.
Proof.
  unfold disk_ok. intros [? H]. split; [done|]. destruct (file s); [|done].
  destruct H as (? & ? & ? & H). repeat (split; [done|]). intros h en Hf Hm.
  destruct (H h en Hf Hm) as (c' & ? & ?). exists c'. split; [|done]. apply elem_of_app. by left.
Qed.

Lemma disk_ok_prune cs c now s : disk_ok cs s → call_now c = now →
  disk_ok (cs ++ [c]) (pruneExpiredLocked now s).
Proof.
  intros H%(disk_ok_same _ c) <-. unfold disk_ok in *. cbn. destruct (file s) as [f|]; destruct H as [Hv H].
  - destruct H as (Hvf & Hd & Hsub & H). repeat (split; [done|]).
    split; [by etrans; [apply map_filter_subseteq|]|]. intros h en H1 H2.
    destruct (Enrollments (state s) !! h) as [en'|] eqn:E; [|by apply (H h)].
    eapply lookup_weaken in Hsub; [|done]. simplify_eq.
    exists c. split; [apply elem_of_app; right; by left|].
    apply map_lookup_filter_None in H2 as [H2|H2]; [congruence|]. specialize (H2 _ E). cbn in H2. lia.
  - destruct H as [-> ->]. by rewrite map_filter_empty.
Qed.

Lemma run_path p cs : path (run_calls (new_store p) cs).1 = p.
Proof.
  induction cs as [|c cs IH] using rev_ind; [done|]. rewrite run_calls_snoc. cbn [fst].
  set (s := (run_calls (new_store p) cs).1) in *. rewrite <-IH.
  destruct c as [e ttl account|e code i name|e i name|e i|e i]; cbn [call_step].
  - by destruct (CreateEnrollment_cases e ttl account s) as [[x ->]|(? & ? & ? & ? & [-> | ->])]; cbn; rewrite ?saved_path.
  - by destruct (EnrollDevice_cases e code i name s) as [[x [-> | ->]]|(? & ? & ? & ? & ? & ? & ? & ? & ->)]; cbn; rewrite ?saved_path.
  - by destruct (UpdateDeviceName_cases e i name s) as [[r ->]|(? & ? & ? & [-> | ->])]; cbn; rewrite ?saved_path.
  - by destruct (RotateDevice_cases e i s) as [[x ->]|(? & ? & ? & ->)]; cbn; rewrite ?saved_path.
  - by destruct (RevokeDevice_cases e i s) as [[x ->]|[? ->]]; cbn; rewrite ?saved_path.
Qed.

Lemma disk_ok_run p cs : p ≠ "" → fresh_codes cs → disk_ok cs (run_calls (new_store p) cs).1.
Proof.
  intros Hp. induction cs as [|c cs IH] using rev_ind; intros Hfresh; [done|].
  assert (fresh_codes cs) as Hcs by (unfold fresh_codes in *; rewrite omap_app in Hfresh; by apply NoDup_app in Hfresh as [? _]).
  specialize (IH Hcs). pose proof (run_path p cs) as Hpath. pose proof (codes_ok_run p cs Hcs) as Hcodes.
  rewrite run_calls_snoc. destruct (run_calls (new_store p) cs) as [s fs]. cbn [fst snd] in *.
  assert (path s ≠ "") as Hps by congruence. pose proof (proj1 IH) as Hv.
  destruct c as [e ttl account|e code i name|e i name|e i|e i]; cbn [call_step].
  - destruct (CreateEnrollment_cases e ttl account s) as [[x ->]|(rnd & Hr & _ & _ & [-> | ->])]; cbn [fst].
    + by apply disk_ok_same.
    + by apply disk_ok_saved.
    + assert (Enrollments (state (pruneExpiredLocked (ce_now e) s)) !! digest ("enr_" +:+ rnd) = None) as Hn.
      { apply map_lookup_filter_None. left. apply eq_None_not_Some. intros [en Hen].
        apply (co_entry _ _ _ Hcodes) in Hen as [Hin _]. unfold fresh_codes in Hfresh.
        rewrite omap_app in Hfresh. cbn in Hfresh. rewrite Hr in Hfresh. cbn in Hfresh.
        apply NoDup_app in Hfresh as (_ & Hf & _). apply (Hf _ Hin). by left. }
      pose proof (disk_ok_prune cs (CCreate e ttl account) (ce_now e) s IH eq_refl) as H.
      rewrite undo_create by done. exact H.
  - destruct (EnrollDevice_cases e code i name s) as [[x [-> | ->]]|(? & ? & _ & _ & _ & _ & _ & _ & ->)]; cbn [fst].
    + by apply disk_ok_same.
    + by apply disk_ok_prune.
    + by apply disk_ok_saved.
  - destruct (UpdateDeviceName_cases e i name s) as [[r ->]|(d & r & Hd & [-> | ->])]; cbn [snd].
    + by apply disk_ok_same.
    + by apply disk_ok_saved.
    + apply (disk_ok_same _ (CRename e i name)) in IH. unfold disk_ok in *. cbn. destruct (file s) as [f|].
      * destruct IH as (? & ? & Hi & ? & ?). repeat (split; [done|]). split; [|done].
        rewrite Hi, (identity_update i d) by done. cbn. apply map_eq. intros j.
        destruct (decide (j = i)) as [->|]; [by rewrite lookup_alter_eq, lookup_fmap, Hd|by rewrite lookup_alter_ne].
      * destruct IH as (_ & He & _). by rewrite He, lookup_empty in Hd.
  - destruct (RotateDevice_cases e i s) as [[x ->]|(? & ? & _ & ->)]; cbn [fst]; [by apply disk_ok_same|].
    by apply disk_ok_saved.
  - destruct (RevokeDevice_cases e i s) as [[x ->]|[_ ->]]; cbn [fst]; [by apply disk_ok_same|].
    by apply disk_ok_saved.
Qed.

(** A restart loses nothing that counts. Whatever calls were made on a new
    store with a file and however often writing it failed, opening the file
    again succeeds; the reopened store accepts the same credentials and binds
    the same accounts, has every enrollment code that is still open, and
    otherwise only codes that had already expired at one of the calls. *)
Theorem restart_preserves p cs : p ≠ "" → fresh_codes cs →
  let s := (run_calls (new_store p) cs).1 in
  ∃ s', Open p (read_back (file s)) = Ok s' ∧
    (∀ i x, VerifyDevice digest i x s' = VerifyDevice digest i x s) ∧
    (∀ i, DeviceAccount i s' = DeviceAccount i s) ∧
    Enrollments (state s) ⊆ Enrollments (state s') ∧
    ∀ h en, Enrollments (state s') !! h = Some en → Enrollments (state s) !! h = None →
      ∃ c, c ∈ cs ∧ enr_ExpiresAt en < call_now c.
Proof.
  intros Hp Hfresh s. pose proof (disk_ok_run p cs Hp Hfresh) as [_ H]. fold s in H.
  unfold Open. rewrite decide_False by done. destruct (file s) as [f|]; cbn [read_back].
  - destruct H as (Hvf & Hi & Hsub & Hx). cbn [default from_option Datatypes.id Version]. rewrite Hvf.
    cbn. rewrite (decide_False (P := stateVersion = 1)) by done. eexists. split; [done|]. cbn.
    assert (∀ i, identity <$> Devices f !! i = identity <$> Devices (state s) !! i) as Hl.
    { intros i. by rewrite <-!lookup_fmap, Hi. }
    split; [|split; [|done]]; intros i; specialize (Hl i); unfold VerifyDevice, DeviceAccount; cbn;
      destruct (Devices f !! i), (Devices (state s) !! i); cbn in Hl; unfold identity in Hl; simplify_eq; try done.
    + intros x. destruct (_ || _); [done|]. apply bool_decide_ext. split; congruence.
    + repeat case_decide; congruence.
  - destruct H as [HD HE]. eexists. split; [done|]. unfold VerifyDevice, DeviceAccount. cbn. rewrite HD, HE.
    split; [done|]. split; [done|]. split; [done|]. intros h en H. by rewrite lookup_empty in H.
Qed.
End spec.

(** ** Witnesses *)

Definition sample_env (now : time) (random : string) (writes : bool) : call_env :=
  {| ce_now := now; ce_random := Some random; ce_writes := writes |}.
Definition sample_calls : list call := [
  CCreate (sample_env 1 "a" true) 0 " team ";
  CCreate (sample_env 2 "b" false) 0 "team";
  CEnroll (sample_env 3 "c" true) "enr_a" "mac" "Mac";
  CRename (sample_env 4 "d" false) "mac" "Mini";
  CRotate (sample_env 5 "e" true) "mac"].

Lemma sample_fresh : fresh_codes id sample_calls.
Proof. unfold fresh_codes. apply (bool_decide_unpack _). by vm_compute. Qed.

Example sample_facts :
  (run_calls id (new_store "auth.json") sample_calls).2 =
  [Rotated "mac" "dev_e"; Enrolled 3 "enr_a" "mac" "team" "dev_c"; Created 1 "enr_a" "team" 600000000001].
Proof. by vm_compute. Qed.

Lemma enrollment_codes_single_use_witness :
  fresh_codes id sample_calls ∧ ∃ created secret expires, 3 ≤ expires ≤ created + 24 * 60 * minute ∧
    Created created secret "team" expires ∈ (run_calls id (new_store "auth.json") sample_calls).2.
Proof.
  split; [exact sample_fresh|].
  pose proof (enrollment_codes_single_use id "auth.json" sample_calls sample_fresh) as H.
  pose proof sample_facts as E. destruct (run_calls id (new_store "auth.json") sample_calls) as [s fs].
  cbn [snd] in E. subst fs. destruct H as [_ H].
  destruct (H 3 "enr_a" "mac" "team" "dev_c") as (_ & created & secret & expires & H1 & _ & H2);
    [right; by left|]. by exists created, secret, expires.
Defined.

Lemma restart_preserves_witness :
  let s := (run_calls id (new_store "auth.json") sample_calls).1 in
  ∃ s', Open "auth.json" (read_back (file s)) = Ok s' ∧ VerifyDevice id "mac" "dev_e" s' = true.
Proof.
  destruct (restart_preserves id "auth.json" sample_calls ltac:(done) sample_fresh) as (s' & H1 & H2 & _).
  exists s'. split; [exact H1|]. rewrite H2. by vm_compute.
Defined.
