(* ===== verification/AuthServer.v ===== *)
(** * The embedded authorization server

    [src/internal/authserver]: authorization codes with PKCE, login sessions,
    refresh-token rotation and client registration ([server.go], [store.go],
    [token.go]).

    Parameters: the URL parser of [net/url] (the parts of a URL the code looks
    at), bcrypt, and the S256 transformation of a PKCE verifier; nothing is
    assumed of them. The answer of a fetched client metadata URL, the random
    tokens and the clock belong to a request's environment. A token request has
    two critical sections, taking the grant and storing the new refresh token;
    they are two steps here, with the request in flight in between. Signing a
    token is recording its claims; HTML and JSON rendering are left out. *)

From S2P Require Import Prelude Entities GoStrings.
Open Scope Z_scope.

Definition second : Z := 10 ^ 9.
Definition accessTokenTTL : Z := 60 * 60 * second.
Definition refreshTokenTTL : Z := 30 * 24 * 60 * 60 * second.
Definition authCodeTTL : Z := 5 * 60 * second.
Definition sessionTTL : Z := 24 * 60 * 60 * second.

(** ** State *)
Record Config : Type := {
  Issuer : string;
  Resource : string;
  Users : gmap string string
}.

Record authCode : Type := {
  code_ClientID : string;
  code_RedirectURI : string;
  code_Resource : string;
  code_Scopes : list string;
  code_Subject : string;
  code_Challenge : string;
  code_ExpiresAt : time
}.

Record session : Type := { sess_Subject : string; sess_ExpiresAt : time }.

Record refreshGrant : Type := {
  ref_ClientID : string;
  ref_Resource : string;
  ref_Scopes : list string;
  ref_Subject : string;
  ref_ExpiresAt : time
}.

Record dcrClient : Type := { dcr_ID : string; dcr_RedirectURIs : list string; dcr_CreatedAt : time }.

Record persisted : Type := {
  per_DCRClients : gmap string dcrClient;
  per_Refresh : gmap string refreshGrant
}.

(** [Server]; [disk] is the store file. *)
Record Server : Type := {
  cfg : Config;
  codes : gmap string authCode;
  sessions : gmap string session;
  refresh : gmap string refreshGrant;
  dcrClients : gmap string dcrClient;
  disk : option persisted
}.

Definition set_codes (c : gmap string authCode) (s : Server) : Server := {|
  cfg := cfg s; codes := c; sessions := sessions s; refresh := refresh s;
  dcrClients := dcrClients s; disk := disk s |}.
Definition set_sessions (x : gmap string session) (s : Server) : Server := {|
  cfg := cfg s; codes := codes s; sessions := x; refresh := refresh s;
  dcrClients := dcrClients s; disk := disk s |}.
Definition set_refresh (x : gmap string refreshGrant) (s : Server) : Server := {|
  cfg := cfg s; codes := codes s; sessions := sessions s; refresh := x;
  dcrClients := dcrClients s; disk := disk s |}.
Definition set_dcr (x : gmap string dcrClient) (s : Server) : Server := {|
  cfg := cfg s; codes := codes s; sessions := sessions s; refresh := refresh s;
  dcrClients := x; disk := disk s |}.

(** [persist]: the error of a failing write is ignored. *)
Definition persist (writes : bool) (s : Server) : Server :=
  if writes then {|
    cfg := cfg s; codes := codes s; sessions := sessions s; refresh := refresh s;
    dcrClients := dcrClients s;
    disk := Some {| per_DCRClients := dcrClients s; per_Refresh := refresh s |} |}
  else s.

Definition prune (now : time) (s : Server) : Server :=
  set_sessions (filter (λ kv : string * session, ¬ sess_ExpiresAt kv.2 < now) (sessions s))
    (set_refresh (filter (λ kv : string * refreshGrant, ¬ ref_ExpiresAt kv.2 < now) (refresh s)) s).

(** What the store file decodes to ([None]: there is no such file); a map that
    is null or missing is [None]. *)
Definition loadStore (now : time)
    (f : option (option (gmap string dcrClient) * option (gmap string refreshGrant))) (s : Server) : Server :=
  match f with
  | None => s
  | Some (d, r) =>
      prune now (set_refresh (default (refresh s) r) (set_dcr (default (dcrClients s) d) s))
  end.

Inductive config_err : Type := EIssuer | EUsers.

(** [New] with a readable key and store file. *)
Definition New (now : time) (c : Config)
    (f : option (option (gmap string dcrClient) * option (gmap string refreshGrant))) :
    result config_err Server :=
  if bool_decide (Issuer c = "") || negb (HasPrefix (Issuer c) "https://") then Err EIssuer
  else
    let c := {| Issuer := Issuer c;
                Resource := if decide (Resource c = "") then Issuer c else Resource c;
                Users := Users c |} in
    if decide (Users c = ∅) then Err EUsers
    else Ok (loadStore now f {| cfg := c; codes := ∅; sessions := ∅; refresh := ∅; dcrClients := ∅;
                                disk := None |}).

(** ** Requests and their environment *)

(** A form: [r.Form.Get] and [r.PostFormValue]; the latter reads the body
    only. *)
Record form : Type := { Get : string → string; PostFormValue : string → string }.

(** What fetching the client's metadata URL answers. *)
Inductive fetched : Type :=
  | Unreachable
  | BadStatus (status : Z)
  | Undecodable
  | Document (clientID : string) (redirectURIs : list string).

Record env : Type := {
  e_now : time;
  e_fetch : fetched;
  e_writes : bool;
  e_signs : bool;
  e_session : string; (* the random tokens of the request *)
  e_code : string;
  e_refresh : string;
  e_jti : string;
  e_client : string
}.

Record authorizeRequest : Type := {
  ar_ClientID : string;
  ar_RedirectURI : string;
  ar_CodeChallenge : string;
  ar_Method : string;
  ar_Resource : string;
  ar_State : string
}.

Inductive authorize_err : Type :=
  | EMissing | EPKCERequired | ENotMetadataURL | EFetch | EStatus (n : Z) | EDecode | EMismatch
  | EUnknownClient | ERedirect.

(** The published metadata documents pinned in the program. *)
Definition builtinCIMD : list (string * list string) := [
  ("https://chatgpt.com/oauth/client.json",
   ["https://chatgpt.com/connector_platform_oauth_redirect";
    "https://chatgpt.com/aip/connector/callback";
    "https://chatgpt.com/backend-api/codex/connect"]);
  ("https://chatgpt.com/oauth/codex/client.json",
   ["http://127.0.0.1/callback"; "http://localhost/callback"; "http://127.0.0.1:57917/callback"])].

Definition builtin_redirects (clientID : string) : option (list string) :=
  snd <$> find (λ kv, bool_decide (kv.1 = clientID)) builtinCIMD.

(** [strings.Contains(s, "/")]. *)
Fixpoint has_slash (s : string) : bool :=
  match s with
  | EmptyString => false
  | String c s => if decide (c = Ascii.ascii_of_N 47) then true else has_slash s
  end.

Definition fetchCIMD (f : fetched) (clientID : string) : result authorize_err (list string) :=
  match CutPrefix clientID "https://" with
  | None => Err ENotMetadataURL
  | Some rest =>
      if negb (has_slash rest) then Err ENotMetadataURL
      else
        let pinned (e : authorize_err) :=
          match builtin_redirects clientID with Some uris => Ok uris | None => Err e end in
        match f with
        | Unreachable => pinned EFetch
        | BadStatus n => pinned (EStatus n)
        | Undecodable => Err EDecode
        | Document cid uris => if decide (cid ≠ clientID) then Err EMismatch else Ok uris
        end
  end.

Definition allowedRedirectURIs (f : fetched) (clientID : string) (s : Server) :
    result authorize_err (list string) :=
  if HasPrefix clientID "https://" then fetchCIMD f clientID
  else
    match dcrClients s !! clientID with
    | Some c => Ok (dcr_RedirectURIs c)
    | None => Err EUnknownClient
    end.

(** The parts of a parsed URL the redirect check looks at. *)
Record url : Type := { Hostname : string; Path : string }.

Definition isLoopback (u : url) : bool := one_of (Hostname u) ["127.0.0.1"; "localhost"; "::1"].

Section authserver.
Variable Parse : string → option url.
Variable bcryptCompare : string → string → bool.
Variable pkceS256 : string → string.

Definition redirectAllowed (allowed : list string) (want : string) : bool :=
  match Parse want with
  | None => false
  | Some wu =>
      existsb (λ a,
        bool_decide (a = want) ||
        match Parse a with
        | None => false
        | Some au => isLoopback au && isLoopback wu && bool_decide (Path au = Path wu)
        end) allowed
  end.

Definition validateAuthorizeRequest (f : fetched) (q : string → string) (s : Server) :
    result authorize_err authorizeRequest :=
  let req := {|
    ar_ClientID := TrimSpace (q "client_id");
    ar_RedirectURI := TrimSpace (q "redirect_uri");
    ar_CodeChallenge := TrimSpace (q "code_challenge");
    ar_Method := TrimSpace (q "code_challenge_method");
    ar_Resource := if decide (TrimSpace (q "resource") = "") then Resource (cfg s)
                   else TrimSpace (q "resource");
    ar_State := q "state" |} in
  if bool_decide (ar_ClientID req = "") || bool_decide (ar_RedirectURI req = "") then Err EMissing
  else if bool_decide (ar_Method req ≠ "S256") || bool_decide (ar_CodeChallenge req = "")
  then Err EPKCERequired
  else
    match allowedRedirectURIs f (ar_ClientID req) s with
    | Err e => Err e
    | Ok allowed => if redirectAllowed allowed (ar_RedirectURI req) then Ok req else Err ERedirect
    end.

(** ** The authorization endpoint *)
Record access_token : Type := {
  at_iss : string;
  at_sub : string;
  at_aud : string;
  at_iat : Z;
  at_exp : Z;
  at_jti : string;
  at_scope : option string;
  at_client_id : option string
}.

Inductive reply : Type :=
  | BadRequest (e : option authorize_err)
  | LoginForm (failed : bool)
  | Redirect (uri code state iss : string)
  | TokenError (code : string)
  | Tokens (access : access_token) (refresh : string) (scope : string)
  | MethodNotAllowed
  | CreatedClient (clientID : string) (redirectURIs : list string).

(** [sessionSubject]; the cookie is [None] when the request has none. *)
Definition sessionSubject (now : time) (cookie : option string) (s : Server) : string :=
  match cookie with
  | None => ""
  | Some c =>
      if decide (c = "") then ""
      else
        match sessions s !! c with
        | None => ""
        | Some sess => if decide (sess_ExpiresAt sess < now) then "" else sess_Subject sess
        end
  end.

Definition issueCode (e : env) (q : string → string) (subject : string) (s : Server) : Server * reply :=
  match validateAuthorizeRequest (e_fetch e) q s with
  | Err x => (s, BadRequest (Some x))
  | Ok req =>
      let c := {|
        code_ClientID := ar_ClientID req; code_RedirectURI := ar_RedirectURI req;
        code_Resource := ar_Resource req; code_Scopes := Fields (q "scope"); code_Subject := subject;
        code_Challenge := ar_CodeChallenge req; code_ExpiresAt := e_now e + authCodeTTL |} in
      (set_codes (filter (λ kv : string * authCode, ¬ code_ExpiresAt kv.2 < e_now e)
                    (<[e_code e := c]> (codes s))) s,
       Redirect (ar_RedirectURI req) (e_code e) (ar_State req) (Issuer (cfg s)))
  end.

Definition authorizePost (e : env) (f : form) (s : Server) : Server * reply :=
  let username := TrimSpace (PostFormValue f "username") in
  let password := PostFormValue f "password" in
  match Users (cfg s) !! username with
  | None => (s, LoginForm true)
  | Some hash =>
      if negb (bcryptCompare password hash) then (s, LoginForm true)
      else
        issueCode e (Get f) username
          (set_sessions (<[e_session e := {| sess_Subject := username;
                                             sess_ExpiresAt := e_now e + sessionTTL |}]> (sessions s)) s)
  end.

(** [Authorize] on a form that parses. *)
Definition Authorize (e : env) (post : bool) (cookie : option string) (f : form) (s : Server) :
    Server * reply :=
  if post then authorizePost e f s
  else
    match validateAuthorizeRequest (e_fetch e) (Get f) s with
    | Err x => (s, BadRequest (Some x))
    | Ok _ =>
        let subj := sessionSubject (e_now e) cookie s in
        if decide (subj ≠ "") then issueCode e (Get f) subj s else (s, LoginForm false)
    end.

(** ** The token endpoint *)

(** A grant between the two critical sections: the fields of the new tokens. *)
Record taken : Type := {
  tk_ClientID : string;
  tk_Subject : string;
  tk_Resource : string;
  tk_Scopes : list string
}.

Definition tokenCode (e : env) (f : form) (s : Server) : Server * result string taken :=
  let code := TrimSpace (PostFormValue f "code") in
  let verifier := TrimSpace (PostFormValue f "code_verifier") in
  let clientID := TrimSpace (PostFormValue f "client_id") in
  let redirectURI := TrimSpace (PostFormValue f "redirect_uri") in
  match codes s !! code with
  | None => (s, Err "invalid_grant")
  | Some gr =>
      (set_codes (delete code (codes s)) s,
       if decide (code_ExpiresAt gr < e_now e) then Err "invalid_grant"
       else if bool_decide (clientID ≠ code_ClientID gr) || bool_decide (redirectURI ≠ code_RedirectURI gr)
       then Err "invalid_grant"
       else if decide (pkceS256 verifier ≠ code_Challenge gr) then Err "invalid_grant"
       else Ok {| tk_ClientID := code_ClientID gr; tk_Subject := code_Subject gr;
                  tk_Resource := code_Resource gr; tk_Scopes := code_Scopes gr |})
  end.

Definition tokenRefresh (e : env) (f : form) (s : Server) : Server * result string taken :=
  let raw := TrimSpace (PostFormValue f "refresh_token") in
  let clientID := TrimSpace (PostFormValue f "client_id") in
  match refresh s !! raw with
  | None => (s, Err "invalid_grant")
  | Some gr =>
      (set_refresh (delete raw (refresh s)) s,
       if decide (ref_ExpiresAt gr < e_now e) then Err "invalid_grant"
       else if decide (ref_ClientID gr ≠ clientID) then Err "invalid_grant"
       else Ok {| tk_ClientID := ref_ClientID gr; tk_Subject := ref_Subject gr;
                  tk_Resource := ref_Resource gr; tk_Scopes := ref_Scopes gr |})
  end.

(** The first critical section of a token request, by grant type. *)
Definition Token_take (e : env) (f : form) (s : Server) : Server * result string taken :=
  let grant := PostFormValue f "grant_type" in
  if decide (grant = "authorization_code") then tokenCode e f s
  else if decide (grant = "refresh_token") then tokenRefresh e f s
  else (s, Err "unsupported_grant_type").

(** The claims of a signed access token; [nbf] is [iat]. *)
Definition join_scopes (scopes : list string) : string := String.concat " " scopes.
Definition signAccessToken (now : time) (issuer jti : string) (t : taken) : access_token := {|
  at_iss := issuer; at_sub := tk_Subject t; at_aud := tk_Resource t;
  at_iat := now / second; at_exp := (now + accessTokenTTL) / second; at_jti := jti;
  at_scope := if decide (tk_Scopes t = []) then None else Some (join_scopes (tk_Scopes t));
  at_client_id := if decide (tk_ClientID t = "") then None else Some (tk_ClientID t) |}.

Definition issueTokens (e : env) (t : taken) (s : Server) : Server * reply :=
  if negb (e_signs e) then (s, TokenError "server_error")
  else
    let s := set_refresh (<[e_refresh e := {|
               ref_ClientID := tk_ClientID t; ref_Resource := tk_Resource t; ref_Scopes := tk_Scopes t;
               ref_Subject := tk_Subject t; ref_ExpiresAt := e_now e + refreshTokenTTL |}]> (refresh s)) s in
    let s := persist (e_writes e) (prune (e_now e) s) in
    (s, Tokens (signAccessToken (e_now e) (Issuer (cfg s)) (e_jti e) t) (e_refresh e) (join_scopes (tk_Scopes t))).

(** [Register] on a body that decodes. *)
Definition Register (e : env) (redirectURIs : list string) (s : Server) : Server * reply :=
  let clientID := "cb-" +:+ e_client e in
  (persist (e_writes e)
     (set_dcr (<[clientID := {| dcr_ID := clientID; dcr_RedirectURIs := redirectURIs;
                               dcr_CreatedAt := e_now e |}]> (dcrClients s)) s),
   CreatedClient clientID redirectURIs).
End authserver.
