(* ===== verification/AuthServerSpec.v ===== *)
(** * What the authorization server guarantees

    Where every token comes from, over any interleaving of requests, and when
    the authorization endpoint hands out a code. *)

From S2P Require Import Prelude Entities GoStrings AuthServer.
Open Scope Z_scope.

Section spec.
Variable Parse : string → option url.
Variable bcryptCompare : string → string → bool.
Variable pkceS256 : string → string.

(** ** The system

    The server and the token requests between their two critical sections. *)
Inductive grant : Type := GCode (code : string) | GRefresh (token : string).

Record system : Type := { srv : Server; flights : gmap nat (grant * taken) }.

Inductive event : Type :=
  | AAuthorize (e : env) (post : bool) (cookie : option string) (f : form)
  | ATake (k : nat) (e : env) (f : form)
  | AIssue (k : nat) (e : env)
  | ARegister (e : env) (redirectURIs : list string).

(** What happened: a password was accepted, a code was issued, a grant was
    taken with a verifier, tokens were issued. *)
Inductive fact : Type :=
  | LLogin (sid subject : string)
  | LCode (code : string) (c : authCode)
  | LTaken (g : grant) (verifier : string) (t : taken)
  | LTokens (g : grant) (t : taken) (refresh : string) (access : access_token).

(** The grant a token request names. *)
Definition requested_grant (f : form) : option grant :=
  if decide (PostFormValue f "grant_type" = "authorization_code")
  then Some (GCode (TrimSpace (PostFormValue f "code")))
  else if decide (PostFormValue f "grant_type" = "refresh_token")
  then Some (GRefresh (TrimSpace (PostFormValue f "refresh_token")))
  else None.

Definition login_fact (e : env) (post : bool) (f : form) (s : Server) : list fact :=
  let username := TrimSpace (PostFormValue f "username") in
  match Users (cfg s) !! username with
  | Some hash =>
      if post && bcryptCompare (PostFormValue f "password") hash
      then [LLogin (e_session e) username] else []
  | None => []
  end.

Definition code_fact (r : reply) (s' : Server) : list fact :=
  match r with
  | Redirect _ code _ _ => match codes s' !! code with Some c => [LCode code c] | None => [] end
  | _ => []
  end.

Definition step (y : system) (ev : event) : option (system * list fact) :=
  match ev with
  | AAuthorize e post cookie f =>
      let '(s', r) := Authorize Parse bcryptCompare e post cookie f (srv y) in
      Some ({| srv := s'; flights := flights y |}, code_fact r s' ++ login_fact e post f (srv y))
  | ATake k e f =>
      if decide (is_Some (flights y !! k)) then None
      else
        let '(s', r) := Token_take pkceS256 e f (srv y) in
        match r, requested_grant f with
        | Ok t, Some g =>
            Some ({| srv := s'; flights := <[k := (g, t)]> (flights y) |},
                  [LTaken g (TrimSpace (PostFormValue f "code_verifier")) t])
        | _, _ => Some ({| srv := s'; flights := flights y |}, [])
        end
  | AIssue k e =>
      match flights y !! k with
      | None => None
      | Some (g, t) =>
          let '(s', r) := issueTokens e t (srv y) in
          Some ({| srv := s'; flights := delete k (flights y) |},
                match r with
                | Tokens access token _ => [LTokens g t token access]
                | _ => []
                end)
      end
  | ARegister e uris => Some ({| srv := (Register e uris (srv y)).1; flights := flights y |}, [])
  end.

(** The states a server reaches, with the facts, the latest first. *)
Inductive reachable (s0 : Server) : system → list fact → Prop :=
  | reach_new : reachable s0 {| srv := s0; flights := ∅ |} []
  | reach_step y log ev y' fs : reachable s0 y log → step y ev = Some (y', fs) →
      reachable s0 y' (fs ++ log).

Definition issued_code (f : fact) : option string := match f with LCode c _ => Some c | _ => None end.
Definition issued_refresh (f : fact) : option string :=
  match f with LTokens _ _ r _ => Some r | _ => None end.
Definition taken_grant (f : fact) : option grant := match f with LTaken g _ _ => Some g | _ => None end.
Definition token_grant (f : fact) : option grant := match f with LTokens g _ _ _ => Some g | _ => None end.

(** The random tokens do not repeat. *)
Definition fresh_tokens (log : list fact) : Prop :=
  NoDup (omap issued_code log) ∧ NoDup (omap issued_refresh log).

(** ** The authorization endpoint *)

Definition issued_for (e : env) (subject : string) (req : authorizeRequest) (q : string → string) : authCode := {|
  code_ClientID := ar_ClientID req; code_RedirectURI := ar_RedirectURI req;
  code_Resource := ar_Resource req; code_Scopes := Fields (q "scope"); code_Subject := subject;
  code_Challenge := ar_CodeChallenge req; code_ExpiresAt := e_now e + authCodeTTL |}.

Lemma issueCode_cases e q subject s :
  (∃ x, validateAuthorizeRequest Parse (e_fetch e) q s = Err x ∧
     issueCode Parse e q subject s = (s, BadRequest (Some x))) ∨
  ∃ req, validateAuthorizeRequest Parse (e_fetch e) q s = Ok req ∧
    let '(s', r) := issueCode Parse e q subject s in
    r = Redirect (ar_RedirectURI req) (e_code e) (ar_State req) (Issuer (cfg s)) ∧
    sessions s' = sessions s ∧ refresh s' = refresh s ∧ cfg s' = cfg s ∧ dcrClients s' = dcrClients s ∧
    codes s' !! e_code e = Some (issued_for e subject req q) ∧
    (∀ c a, codes s' !! c = Some a → c ≠ e_code e → codes s !! c = Some a).
Proof.
  unfold issueCode. destruct (validateAuthorizeRequest _ _ _ _) as [req|x]; [right|left; by exists x].
  exists req. split; [done|]. repeat (split; [done|]). split.
  - cbn. apply map_lookup_filter_Some_2; [apply lookup_insert_eq|]. cbn. unfold authCodeTTL, second. lia.
  - intros c a [H _]%map_lookup_filter_Some Hne. by rewrite lookup_insert_ne in H.
Qed.

Lemma validate_ok f q s req : validateAuthorizeRequest Parse f q s = Ok req →
  ar_ClientID req ≠ "" ∧ ar_RedirectURI req ≠ "" ∧ ar_Method req = "S256" ∧ ar_CodeChallenge req ≠ "" ∧
  ar_Resource req = (if decide (TrimSpace (q "resource") = "") then Resource (cfg s) else TrimSpace (q "resource")) ∧
  ∃ allowed, allowedRedirectURIs f (ar_ClientID req) s = Ok allowed ∧
    redirectAllowed Parse allowed (ar_RedirectURI req) = true.
Proof.
  unfold validateAuthorizeRequest. cbv zeta.
  destruct (_ || _) eqn:E1; [done|]. destruct (bool_decide (_ ≠ "S256") || _) eqn:E2; [done|].
  rewrite orb_false_iff, !bool_decide_eq_false in E1, E2.
  destruct (allowedRedirectURIs _ _ s) as [allowed|] eqn:Ea; [|done].
  destruct (redirectAllowed Parse allowed _) eqn:Er; [|done]. intros [= <-]. cbn in *.
  destruct E1, E2 as [E2 ?]. apply dec_stable in E2. repeat (split; [done|]). by exists allowed.
Qed.

(** Who a request to the authorization endpoint speaks for. *)
Definition authenticated (e : env) (post : bool) (cookie : option string) (f : form) (s : Server)
    (subject : string) : Prop :=
  if post then
    subject = TrimSpace (PostFormValue f "username") ∧
    ∃ hash, Users (cfg s) !! subject = Some hash ∧
      bcryptCompare (PostFormValue f "password") hash = true
  else
    subject ≠ "" ∧ ∃ sid sess, cookie = Some sid ∧ sessions s !! sid = Some sess ∧
      sess_Subject sess = subject ∧ e_now e ≤ sess_ExpiresAt sess.

Lemma sessionSubject_ok now cookie s : sessionSubject now cookie s ≠ "" →
  ∃ sid sess, cookie = Some sid ∧ sessions s !! sid = Some sess ∧
    sess_Subject sess = sessionSubject now cookie s ∧ now ≤ sess_ExpiresAt sess.
Proof.
  unfold sessionSubject. destruct cookie as [sid|]; [|done]. case_decide; [done|].
  destruct (sessions s !! sid) as [sess|] eqn:E; [|done]. case_decide; [done|].
  intros _. exists sid, sess. repeat split; (done || lia).
Qed.

(** The outcomes of [Authorize]: a code for an authenticated subject and a valid
    request, or none. *)
Lemma Authorize_cases e post cookie f s :
  let '(s', r) := Authorize Parse bcryptCompare e post cookie f s in
  refresh s' = refresh s ∧ cfg s' = cfg s ∧ dcrClients s' = dcrClients s ∧
  (∀ sid sess, sessions s' !! sid = Some sess → sessions s !! sid = Some sess ∨
     LLogin sid (sess_Subject sess) ∈ login_fact e post f s) ∧
  ((∃ subject req, authenticated e post cookie f s subject ∧
      validateAuthorizeRequest Parse (e_fetch e) (Get f) s = Ok req ∧
      r = Redirect (ar_RedirectURI req) (e_code e) (ar_State req) (Issuer (cfg s)) ∧
      codes s' !! e_code e = Some (issued_for e subject req (Get f)) ∧
      (∀ c a, codes s' !! c = Some a → c ≠ e_code e → codes s !! c = Some a) ∧
      ((∃ sid, LLogin sid subject ∈ login_fact e post f s) ∨
       (∃ sid sess, sessions s !! sid = Some sess ∧ sess_Subject sess = subject))) ∨
   (∀ uri code state iss, r ≠ Redirect uri code state iss) ∧ codes s' = codes s).
Proof.
  unfold Authorize. destruct post.
  - unfold authorizePost, login_fact. set (username := TrimSpace _).
    destruct (Users (cfg s) !! username) as [hash|] eqn:Eu; [|by repeat (split; [by auto|]); right].
    destruct (bcryptCompare (PostFormValue f "password") hash) eqn:Eb; cbn [negb andb];
      [|by repeat (split; [by auto|]); right].
    set (s1 := set_sessions _ s).
    assert (∀ sid sess, sessions s1 !! sid = Some sess →
      sessions s !! sid = Some sess ∨ LLogin sid (sess_Subject sess) ∈ [LLogin (e_session e) username]) as Hs.
    { intros sid sess H. unfold s1 in H. cbn in H. apply lookup_insert_Some in H as [[<- <-]|[_ H]]; [right; by left|by left]. }
    destruct (issueCode_cases e (Get f) username s1) as [(x & Hx & ->)|(req & Hv & H)].
    + repeat (split; [done|]). by right.
    + destruct (issueCode Parse e (Get f) username s1) as [s' r].
      destruct H as (-> & Hse & Hre & Hc & Hd & Hcode & Hold).
      split; [done|]. split; [done|]. split; [done|]. split; [by rewrite Hse|]. left.
      exists username, req. split; [split; [done|]; by exists hash|]. repeat (split; [done|]).
      left. exists (e_session e). by left.
  - destruct (validateAuthorizeRequest Parse (e_fetch e) (Get f) s) as [req|x] eqn:Ev;
      [|by repeat (split; [by auto|]); right].
    case_decide as Hsub; [|by repeat (split; [by auto|]); right].
    destruct (issueCode_cases e (Get f) (sessionSubject (e_now e) cookie s) s) as [(x & Hx & _)|(req' & Hv & H)];
      [congruence|].
    destruct (issueCode Parse e (Get f) (sessionSubject (e_now e) cookie s) s) as [s' r].
    destruct H as (-> & Hse & Hre & Hc & Hd & Hcode & Hold).
    split; [done|]. split; [done|]. split; [done|]. split; [rewrite Hse; by auto|]. left.
    destruct (sessionSubject_ok _ _ _ Hsub) as (sid & sess & -> & Hsess & Hsubj & Hexp).
    exists (sessionSubject (e_now e) (Some sid) s), req'.
    split; [split; [done|]; by exists sid, sess|]. rewrite <-Hv, Ev. repeat (split; [done|]).
    right. by exists sid, sess.
Qed.

(** The authorization endpoint hands out a code only to an authenticated user
    for a request that is fully checked: the user gave a right password with
    this request, or presented the cookie of a live session; the client is
    known, the redirect URI is one it registered or published (on a loopback
    host, up to the port), and the request carries an S256 challenge. The code
    is bound to all of it for five minutes and goes to that redirect URI only.
    Otherwise no code is made. *)
Theorem Authorize_spec e post cookie f s :
  let '(s', r) := Authorize Parse bcryptCompare e post cookie f s in
  match r with
  | Redirect uri code state iss =>
      ∃ subject client challenge resource allowed,
        authenticated e post cookie f s subject ∧
        client ≠ "" ∧ uri ≠ "" ∧ challenge ≠ "" ∧ TrimSpace (Get f "code_challenge_method") = "S256" ∧
        allowedRedirectURIs (e_fetch e) client s = Ok allowed ∧ redirectAllowed Parse allowed uri = true ∧
        iss = Issuer (cfg s) ∧
        codes s' !! code = Some {|
          code_ClientID := client; code_RedirectURI := uri; code_Resource := resource;
          code_Scopes := Fields (Get f "scope"); code_Subject := subject; code_Challenge := challenge;
          code_ExpiresAt := e_now e + authCodeTTL |} ∧
        (∀ c a, codes s' !! c = Some a → c ≠ code → codes s !! c = Some a)
  | _ => codes s' = codes s
  end.
Proof.
  pose proof (Authorize_cases e post cookie f s) as H.
  destruct (Authorize Parse bcryptCompare e post cookie f s) as [s' r].
  destruct H as (_ & Hcfg & _ & _ & [(subject & req & Ha & Hv & -> & Hc & Hold & _)|[Hno Hc]]).
  - pose proof (validate_ok _ _ _ _ Hv) as (H1 & H2 & H3 & H4 & _ & allowed & H5 & H6).
    exists subject, (ar_ClientID req), (ar_CodeChallenge req), (ar_Resource req), allowed.
    assert (TrimSpace (Get f "code_challenge_method") = "S256") as Hm.
    { rewrite <-H3. unfold validateAuthorizeRequest in Hv. repeat case_match; by simplify_eq. }
    by repeat (split; [done|]).
  - destruct r; try done. by destruct (Hno uri code state iss).
Qed.

(** The run of a list of events. *)
Fixpoint run (y : system) (log : list fact) (evs : list event) : option (system * list fact) :=
  match evs with
  | [] => Some (y, log)
  | ev :: evs =>
      match step y ev with
      | Some (y', fs) => run y' (fs ++ log) evs
      | None => None
      end
  end.

Lemma run_reachable s0 y log evs y' log' : reachable s0 y log →
  run y log evs = Some (y', log') → reachable s0 y' log'.
Proof.
  revert y log. induction evs as [|ev evs IH]; intros y log Hr; cbn; [by intros [= <- <-]|].
  destruct (step y ev) as [[y1 fs]|] eqn:E; [|done]. intros H. apply (IH _ _ (reach_step _ _ _ _ _ _ Hr E) H).
Qed.

(** ** Where tokens come from *)

Definition taken_of_code (a : authCode) : taken := {|
  tk_ClientID := code_ClientID a; tk_Subject := code_Subject a;
  tk_Resource := code_Resource a; tk_Scopes := code_Scopes a |}.

(** A grant taken with verifier [v] for [t] was issued for [t]: a code whose
    challenge the verifier answers, or the refresh token of an earlier answer. *)
Definition granted (log : list fact) (g : grant) (v : string) (t : taken) : Prop :=
  match g with
  | GCode c => ∃ a, LCode c a ∈ log ∧ pkceS256 v = code_Challenge a ∧ t = taken_of_code a
  | GRefresh r => ∃ g' acc, LTokens g' t r acc ∈ log
  end.

Definition grant_fields (t : taken) (expires : time) : refreshGrant := {|
  ref_ClientID := tk_ClientID t; ref_Resource := tk_Resource t; ref_Scopes := tk_Scopes t;
  ref_Subject := tk_Subject t; ref_ExpiresAt := expires |}.

Record Inv (y : system) (log : list fact) : Prop := {
  i_sess : ∀ sid ss, sessions (srv y) !! sid = Some ss → LLogin sid (sess_Subject ss) ∈ log;
  i_code : ∀ c a, codes (srv y) !! c = Some a →
    LCode c a ∈ log ∧ (GCode c ∉ omap taken_grant log);
  i_refresh : ∀ r gr, refresh (srv y) !! r = Some gr →
    (∃ g t acc, LTokens g t r acc ∈ log ∧ gr = grant_fields t (ref_ExpiresAt gr)) ∧
    (GRefresh r ∉ omap taken_grant log);
  i_flight : ∀ k g t, flights y !! k = Some (g, t) →
    (∃ v, LTaken g v t ∈ log) ∧ (g ∉ omap token_grant log);
  i_flights : ∀ k k' g t t', flights y !! k = Some (g, t) → flights y !! k' = Some (g, t') → k = k';
  i_lcode : ∀ c a, LCode c a ∈ log → ∃ sid, LLogin sid (code_Subject a) ∈ log;
  i_taken : ∀ g v t, LTaken g v t ∈ log → granted log g v t ∧ ∃ sid, LLogin sid (tk_Subject t) ∈ log;
  i_tokens : ∀ g t r acc, LTokens g t r acc ∈ log → ∃ v, LTaken g v t ∈ log;
  i_once : NoDup (omap taken_grant log) ∧ NoDup (omap token_grant log)
}.

Lemma granted_mono (log log' : list fact) g v t : log ⊆ log' → granted log g v t → granted log' g v t.
Proof.
  intros Hs. destruct g as [c|r]; cbn.
  - intros (a & ? & ?). exists a. by auto.
  - intros (g' & acc & ?). exists g', acc. by auto.
Qed.

Lemma taken_in_log (log : list fact) g v t : LTaken g v t ∈ log → g ∈ omap taken_grant log.
Proof. intros H. apply list_elem_of_omap. by exists (LTaken g v t). Qed.

Lemma taken_from_log (log : list fact) g : g ∈ omap taken_grant log → ∃ v t, LTaken g v t ∈ log.
Proof. intros (f & Hf & E)%list_elem_of_omap. destruct f; simplify_eq/=. by eauto. Qed.

(** An issued code or refresh token has not been taken. *)
Lemma fresh_not_taken y log g : Inv y log →
  match g with
  | GCode c => c ∉ omap issued_code log
  | GRefresh r => r ∉ omap issued_refresh log
  end → g ∉ omap taken_grant log.
Proof.
  intros HI Hn (v & t & H)%taken_from_log. apply (i_taken _ _ HI) in H as [H _].
  destruct g as [c|r]; cbn in H.
  - destruct H as (a & H & _). apply Hn, list_elem_of_omap. by exists (LCode c a).
  - destruct H as (g' & acc & H). apply Hn, list_elem_of_omap. by exists (LTokens g' t r acc).
Qed.

(** A step that takes and issues nothing: it may drop entries, log users in and
    issue codes. *)
Lemma Inv_quiet y y' log fs : Inv y log →
  omap taken_grant fs = [] → omap token_grant fs = [] →
  flights y' ⊆ flights y → refresh (srv y') ⊆ refresh (srv y) →
  (∀ sid ss, sessions (srv y') !! sid = Some ss →
     sessions (srv y) !! sid = Some ss ∨ LLogin sid (sess_Subject ss) ∈ fs) →
  (∀ c a, codes (srv y') !! c = Some a →
     codes (srv y) !! c = Some a ∨ LCode c a ∈ fs ∧ (c ∉ omap issued_code log)) →
  (∀ c a, LCode c a ∈ fs → ∃ sid, LLogin sid (code_Subject a) ∈ fs ++ log) →
  Inv y' (fs ++ log).
Proof.
  intros HI Ht Hk Hf Hr Hs Hc Hl.
  assert (log ⊆ fs ++ log) as Hsub by set_solver.
  assert (∀ f : fact, f ∈ fs ++ log → taken_grant f ≠ None ∨ token_grant f ≠ None → f ∈ log) as Hold.
  { intros f [H|H]%elem_of_app Hn; [|done]. exfalso.
    destruct Hn as [Hn|Hn]; [destruct (taken_grant f) as [g|] eqn:E|destruct (token_grant f) as [g|] eqn:E];
      try done.
    - assert (g ∈ omap taken_grant fs) as Hg by (apply list_elem_of_omap; eauto). rewrite Ht in Hg. set_solver.
    - assert (g ∈ omap token_grant fs) as Hg by (apply list_elem_of_omap; eauto). rewrite Hk in Hg. set_solver. }
  split; rewrite ?omap_app, ?Ht, ?Hk; cbn [app].
  - intros sid ss [H|H]%Hs; [apply Hsub, (i_sess _ _ HI), H|set_solver].
  - intros c a [H|[H Hn]]%Hc.
    + destruct (i_code _ _ HI c a H). auto.
    + split; [set_solver|]. by apply (fresh_not_taken _ _ (GCode c) HI).
  - intros r gr H. apply (lookup_weaken _ _ _ _ H) in Hr as [(g & t & acc & ? & ?) ?]%(i_refresh _ _ HI).
    split; [|done]. exists g, t, acc. auto.
  - intros k g t H. apply (lookup_weaken _ _ _ _ H) in Hf as [(v & ?) ?]%(i_flight _ _ HI).
    split; [|done]. exists v. auto.
  - intros k k' g t t' H1 H2.
    exact (i_flights _ _ HI _ _ _ _ _ (lookup_weaken _ _ _ _ H1 Hf) (lookup_weaken _ _ _ _ H2 Hf)).
  - intros c a [H|H]%elem_of_app; [by apply (Hl c)|].
    apply (i_lcode _ _ HI) in H as [sid ?]. exists sid. auto.
  - intros g v t H. apply Hold in H; [|by left]. apply (i_taken _ _ HI) in H as [? [sid ?]].
    split; [by apply (granted_mono log)|]. exists sid. auto.
  - intros g t r acc H. apply Hold in H; [|by right]. apply (i_tokens _ _ HI) in H as [v ?]. exists v. auto.
  - exact (i_once _ _ HI).
Qed.

Lemma login_no_code c a e post f s : LCode c a ∉ login_fact e post f s.
Proof.
  unfold login_fact. cbv zeta. destruct (Users (cfg s) !! _); [|apply not_elem_of_nil].
  destruct (post && _); [|apply not_elem_of_nil]. by intros H%list_elem_of_singleton.
Qed.

Lemma inv_authorize y log e post cookie f : Inv y log →
  let '(s', r) := Authorize Parse bcryptCompare e post cookie f (srv y) in
  fresh_tokens ((code_fact r s' ++ login_fact e post f (srv y)) ++ log) →
  Inv {| srv := s'; flights := flights y |} ((code_fact r s' ++ login_fact e post f (srv y)) ++ log).
Proof.
  intros HI. pose proof (Authorize_cases e post cookie f (srv y)) as H.
  destruct (Authorize Parse bcryptCompare e post cookie f (srv y)) as [s' r].
  destruct H as (Hre & _ & _ & Hse & Hc). intros [Hn _].
  assert (omap taken_grant (login_fact e post f (srv y)) = [] ∧
          omap token_grant (login_fact e post f (srv y)) = []) as [L1 L2].
  { unfold login_fact. cbv zeta. destruct (Users _ !! _); [|done]. destruct (post && _); by split. }
  assert (omap taken_grant (code_fact r s') = [] ∧ omap token_grant (code_fact r s') = []) as [C1 C2].
  { unfold code_fact. destruct r as [| |? c| | | |]; try done. destruct (codes s' !! c); by split. }
  apply (Inv_quiet y); try done; rewrite ?omap_app, ?L1, ?L2, ?C1, ?C2; try done; cbn [srv].
  - by rewrite Hre.
  - intros sid ss [H|H]%Hse; [by left|right; apply elem_of_app; by right].
  - destruct Hc as [(sub & req & _ & _ & -> & Hcode & Hold & _)|[_ Hc]]; [|rewrite Hc; by auto].
    intros c a H. destruct (decide (c = e_code e)) as [->|Hne]; [|left; by apply Hold].
    right. cbn in Hn, Hcode, H |- *. rewrite Hcode in H, Hn |- *. injection H as <-. split; [by left|].
    cbn in Hn. apply NoDup_cons in Hn as [Hn _]. rewrite omap_app, not_elem_of_app in Hn. apply Hn.
  - intros c a H. destruct Hc as [(sub & req & _ & _ & -> & Hcode & _ & Hsub)|[Hno _]].
    + assert (code_Subject a = sub) as ->.
      { cbn in H. rewrite Hcode in H. apply elem_of_app in H as [H|H]; [|by apply login_no_code in H].
        apply list_elem_of_singleton in H. by injection H as _ ->. }
      destruct Hsub as [[sid ?]|(sid & ss & Hss & <-)]; exists sid; rewrite !elem_of_app; [by auto|].
      right. by apply (i_sess _ _ HI).
    + exfalso. apply elem_of_app in H as [H|H]; [|by apply login_no_code in H].
      unfold code_fact in H. destruct r; try by apply elem_of_nil in H. by edestruct Hno.
Qed.

Lemma Token_take_cases e f s :
  let '(s', r) := Token_take pkceS256 e f s in
  sessions s' = sessions s ∧ cfg s' = cfg s ∧ codes s' ⊆ codes s ∧ refresh s' ⊆ refresh s ∧
  match r with
  | Err _ => True
  | Ok t =>
      let v := TrimSpace (PostFormValue f "code_verifier") in
      (∃ c a, requested_grant f = Some (GCode c) ∧ codes s !! c = Some a ∧ codes s' !! c = None ∧
         pkceS256 v = code_Challenge a ∧ t = taken_of_code a ∧ e_now e ≤ code_ExpiresAt a ∧
         TrimSpace (PostFormValue f "client_id") = code_ClientID a ∧
         TrimSpace (PostFormValue f "redirect_uri") = code_RedirectURI a) ∨
      (∃ r gr, requested_grant f = Some (GRefresh r) ∧ refresh s !! r = Some gr ∧ refresh s' !! r = None ∧
         gr = grant_fields t (ref_ExpiresAt gr) ∧ e_now e ≤ ref_ExpiresAt gr ∧
         TrimSpace (PostFormValue f "client_id") = ref_ClientID gr)
  end.
Proof.
  unfold Token_take, requested_grant. case_decide as Hg; [|case_decide as Hr; [|done]].
  - unfold tokenCode. destruct (codes s !! _) as [gr|] eqn:E; [|done]. cbn [sessions cfg codes refresh set_codes].
    repeat (split; [first [done|apply delete_subseteq]|]).
    case_decide; [done|]. destruct (bool_decide _ || bool_decide _) eqn:Eb; [done|].
    rewrite orb_false_iff, !bool_decide_eq_false in Eb. destruct Eb as [E1%dec_stable E2%dec_stable].
    case_decide as Hp; [done|]. left. do 2 eexists. split; [done|]. split; [exact E|].
    split; [apply lookup_delete_eq|]. split; [exact Hp|]. repeat split; (done || lia).
  - unfold tokenRefresh. destruct (refresh s !! _) as [gr|] eqn:E; [|done]. cbn [sessions cfg codes refresh set_refresh].
    repeat (split; [first [done|apply delete_subseteq]|]).
    case_decide; [done|]. case_decide as Hc; [done|].
    right. do 2 eexists. split; [done|]. split; [exact E|]. split; [apply lookup_delete_eq|].
    repeat split; [by destruct gr|lia|done].
Qed.

Lemma tokens_are_taken y log g : Inv y log → g ∈ omap token_grant log → g ∈ omap taken_grant log.
Proof.
  intros HI (f & Hf & E)%list_elem_of_omap. destruct f as [| | |? t r acc]; simplify_eq/=.
  apply (i_tokens _ _ HI) in Hf as [v Hv]. by apply (taken_in_log _ _ v t).
Qed.

(** What a successful first critical section took. *)
Lemma take_ok y log e f s' t : Inv y log → Token_take pkceS256 e f (srv y) = (s', Ok t) →
  ∃ g, requested_grant f = Some g ∧
    granted log g (TrimSpace (PostFormValue f "code_verifier")) t ∧
    (∃ sid, LLogin sid (tk_Subject t) ∈ log) ∧
    (g ∉ omap taken_grant log) ∧
    match g with GCode c => codes s' !! c = None | GRefresh r => refresh s' !! r = None end.
Proof.
  intros HI E. pose proof (Token_take_cases e f (srv y)) as H. rewrite E in H.
  destruct H as (_ & _ & _ & _ & [(c & a & -> & Hc & Hn & Hp & -> & _)|(r & gr & -> & Hr & Hn & Hg & _)]).
  - destruct (i_code _ _ HI _ _ Hc) as [Hl Hnt]. exists (GCode c). split; [done|].
    split; [by exists a|]. split; [exact (i_lcode _ _ HI _ _ Hl)|done].
  - destruct (i_refresh _ _ HI _ _ Hr) as [(g & t' & acc & Hl & Hgr) Hnt].
    assert (t' = t) as ->.
    { rewrite Hg in Hgr. unfold grant_fields in Hgr. destruct t, t'. cbn in Hgr. by simplify_eq. }
    exists (GRefresh r). split; [done|]. split; [by exists g, acc|]. split; [|done].
    apply (i_tokens _ _ HI) in Hl as [v Hl]. apply (i_taken _ _ HI) in Hl as [_ Hl]. exact Hl.
Qed.

Lemma inv_take y log k e f s' t g : Inv y log → flights y !! k = None →
  Token_take pkceS256 e f (srv y) = (s', Ok t) → requested_grant f = Some g →
  Inv {| srv := s'; flights := <[k := (g, t)]> (flights y) |}
      (LTaken g (TrimSpace (PostFormValue f "code_verifier")) t :: log).
Proof.
  intros HI Hk E Hg. destruct (take_ok _ _ _ _ _ _ HI E) as (g' & Hg' & Hgr & [sid Hsid] & Hnt & Hgone).
  rewrite Hg in Hg'. injection Hg' as <-.
  pose proof (Token_take_cases e f (srv y)) as H. rewrite E in H.
  destruct H as (Hs & _ & Hcs & Hrs & _). set (v := TrimSpace _) in *.
  assert (∀ k' t', flights y !! k' = Some (g, t') → False) as Hnof.
  { intros k' t' [[v' ?%taken_in_log] _]%(i_flight _ _ HI). done. }
  split; cbn [srv flights omap list_omap taken_grant token_grant].
  - intros sid' ss. rewrite Hs. intros ?%(i_sess _ _ HI). by right.
  - intros c a H. pose proof (lookup_weaken _ _ _ _ H Hcs) as [? ?]%(i_code _ _ HI). split; [by right|].
    apply not_elem_of_cons. split; [|done]. intros <-. congruence.
  - intros r gr H. pose proof (lookup_weaken _ _ _ _ H Hrs) as [(g0 & t0 & acc & ? & ?) ?]%(i_refresh _ _ HI).
    split; [exists g0, t0, acc; split; [by right|done]|].
    apply not_elem_of_cons. split; [|done]. intros <-. congruence.
  - intros k' g0 t0 [[<- [= <- <-]]|[Hne H]]%lookup_insert_Some.
    + split; [exists v; by left|]. intros ?%(tokens_are_taken _ _ _ HI). done.
    + apply (i_flight _ _ HI) in H as [[v' ?] ?]. split; [exists v'; by right|done].
  - intros k1 k2 g0 t1 t2 [[<- [= <- <-]]|[H1 E1]]%lookup_insert_Some [[<- [= <-]]|[H2 E2]]%lookup_insert_Some;
      try done; try (by edestruct Hnof).
    by apply (i_flights _ _ HI _ _ g0 t1 t2).
  - intros c a [?|H]%elem_of_cons; [done|]. apply (i_lcode _ _ HI) in H as [sid' ?]. exists sid'. by right.
  - intros g0 v0 t0 [[= -> -> ->]|H]%elem_of_cons.
    + split; [by apply (granted_mono log); [apply list_subseteq_cons|]|]. exists sid. by right.
    + apply (i_taken _ _ HI) in H as [? [sid' ?]].
      split; [by apply (granted_mono log); [apply list_subseteq_cons|]|]. exists sid'. by right.
  - intros g0 t0 r acc [?|H]%elem_of_cons; [done|]. apply (i_tokens _ _ HI) in H as [v' ?]. exists v'. by right.
  - destruct (i_once _ _ HI). split; [by apply NoDup_cons|done].
Qed.

Lemma inv_issue y log k e g t : Inv y log → flights y !! k = Some (g, t) →
  let '(s', r) := issueTokens e t (srv y) in
  let fs := match r with Tokens access token _ => [LTokens g t token access] | _ => [] end in
  fresh_tokens (fs ++ log) → Inv {| srv := s'; flights := delete k (flights y) |} (fs ++ log).
Proof.
  intros HI Hk. unfold issueTokens. destruct (e_signs e); cbn [negb].
  2:{ intros _. apply (Inv_quiet y); try done; [apply delete_subseteq|by auto..|].
      intros ?? H. by apply elem_of_nil in H. }
  set (s1 := persist _ _). set (acc := signAccessToken _ _ _ _). cbn zeta. intros [_ Hfresh].
  assert (sessions s1 ⊆ sessions (srv y) ∧ codes s1 = codes (srv y) ∧
    refresh s1 ⊆ <[e_refresh e := grant_fields t (e_now e + refreshTokenTTL)]> (refresh (srv y)))
    as (Hs & Hc & Hr).
  { unfold s1, persist. destruct (e_writes e); cbn; (split; [apply map_filter_subseteq|]);
      (split; [done|]); apply map_filter_subseteq. }
  clearbody s1 acc. destruct (i_flight _ _ HI _ _ _ Hk) as [[v Hv] Hnt].
  cbn in Hfresh. apply NoDup_cons in Hfresh as [Hfresh _].
  assert (log ⊆ LTokens g t (e_refresh e) acc :: log) as Hsub by (by apply list_subseteq_cons).
  split; cbn [app srv flights omap list_omap taken_grant token_grant].
  - intros sid ss H. right. by apply (i_sess _ _ HI), (lookup_weaken _ _ _ _ H).
  - intros c a. rewrite Hc. intros [? ?]%(i_code _ _ HI). split; [by right|done].
  - intros r gr H. apply (lookup_weaken _ _ _ _ H) in Hr as [[<- <-]|[_ H']]%lookup_insert_Some.
    + split; [exists g, t, acc; split; [by left|done]|]. by apply (fresh_not_taken _ _ (GRefresh _) HI).
    + apply (i_refresh _ _ HI) in H' as [(g0 & t0 & acc0 & ? & ?) ?].
      split; [|done]. exists g0, t0, acc0. split; [by right|done].
  - intros k' g0 t0 [Hne H]%lookup_delete_Some. destruct (i_flight _ _ HI _ _ _ H) as [[v' ?] ?].
    split; [exists v'; by right|]. apply not_elem_of_cons. split; [|done].
    intros ->. by apply Hne, (i_flights _ _ HI _ _ g t t0).
  - intros k1 k2 g0 t1 t2 [_ H1]%lookup_delete_Some [_ H2]%lookup_delete_Some.
    by apply (i_flights _ _ HI _ _ g0 t1 t2).
  - intros c a [?|H]%elem_of_cons; [done|]. apply (i_lcode _ _ HI) in H as [sid' ?]. exists sid'. by right.
  - intros g0 v0 t0 [?|H]%elem_of_cons; [done|]. apply (i_taken _ _ HI) in H as [? [sid' ?]].
    split; [by apply (granted_mono log)|]. exists sid'. by right.
  - intros g0 t0 r acc0 [[= -> -> -> ->]|H]%elem_of_cons; [exists v; by right|].
    apply (i_tokens _ _ HI) in H as [v' ?]. exists v'. by right.
  - destruct (i_once _ _ HI). split; [done|by apply NoDup_cons].
Qed.

Lemma fresh_app (fs log : list fact) : fresh_tokens (fs ++ log) → fresh_tokens log.
Proof. unfold fresh_tokens. rewrite !omap_app, !NoDup_app. tauto. Qed.

Lemma Inv_New now c s0 : New now c None = Ok s0 → Inv {| srv := s0; flights := ∅ |} [].
Proof.
  unfold New. destruct (_ || _); [done|]. cbv zeta. case_decide; [done|]. intros [= <-].
  split; cbn; [..|by split; constructor]; intros; exfalso;
    match goal with
    | H : ∅ !! _ = Some _ |- _ => by apply lookup_empty_Some in H
    | H : _ ∈ [] |- _ => by apply elem_of_nil in H
    end.
Qed.

Lemma reachable_Inv now c s0 y log : New now c None = Ok s0 → reachable s0 y log →
  fresh_tokens log → Inv y log.
Proof.
  intros Hnew. induction 1 as [|y log ev y' fs _ IH Hst]; intros Hf; [by apply (Inv_New now c)|].
  specialize (IH (fresh_app _ _ Hf)). destruct ev as [e post cookie f|k e f|k e|e uris]; cbn in Hst.
  - pose proof (inv_authorize y log e post cookie f IH) as H.
    destruct (Authorize _ _ _ _ _ _ _) as [s' r]. simplify_eq. auto.
  - case_decide as Hk; [done|]. apply eq_None_not_Some in Hk.
    pose proof (Token_take_cases e f (srv y)) as Hq.
    destruct (Token_take pkceS256 e f (srv y)) as [s' r] eqn:E.
    destruct Hq as (Hs & _ & Hc & Hr & _).
    destruct r as [t|]; [destruct (requested_grant f) as [g|] eqn:Eg|]; simplify_eq;
      [by apply (inv_take _ _ _ e)| |];
      (apply (Inv_quiet y); try done; cbn; [rewrite Hs; by auto| |intros ?? H; by apply elem_of_nil in H];
       intros c0 a H; left; exact (lookup_weaken _ _ _ _ H Hc)).
  - destruct (flights y !! k) as [[g t]|] eqn:Ek; [|done].
    pose proof (inv_issue _ _ _ e _ _ IH Ek) as H. cbv zeta in H.
    destruct (issueTokens e t (srv y)) as [s' r]. simplify_eq. auto.
  - simplify_eq. apply (Inv_quiet y); try done; unfold Register, persist; destruct (e_writes e); cbn; auto;
      intros ?? H; by apply elem_of_nil in H.
Qed.


(** What a token request's first critical section checks: a grant passes only
    if it is stored, unexpired, belongs to the client that asks, and, for a
    code, comes with the redirect URI and the PKCE verifier of its
    authorization request. Whatever the outcome, a grant that was found is
    gone, no other is touched, and none is added. *)
Theorem Token_take_spec e f s :
  let '(s', r) := Token_take pkceS256 e f s in
  let field k := TrimSpace (PostFormValue f k) in
  sessions s' = sessions s ∧ dcrClients s' = dcrClients s ∧ cfg s' = cfg s ∧
  match requested_grant f with
  | None => s' = s ∧ r = Err "unsupported_grant_type"
  | Some (GCode c) =>
      codes s' = delete c (codes s) ∧ refresh s' = refresh s ∧
      ∀ t, r = Ok t ↔ ∃ a, codes s !! c = Some a ∧ e_now e ≤ code_ExpiresAt a ∧
        field "client_id" = code_ClientID a ∧ field "redirect_uri" = code_RedirectURI a ∧
        pkceS256 (field "code_verifier") = code_Challenge a ∧ t = taken_of_code a
  | Some (GRefresh x) =>
      refresh s' = delete x (refresh s) ∧ codes s' = codes s ∧
      ∀ t, r = Ok t ↔ ∃ g, refresh s !! x = Some g ∧ e_now e ≤ ref_ExpiresAt g ∧
        field "client_id" = ref_ClientID g ∧ g = grant_fields t (ref_ExpiresAt g)
  end.
Proof.
  unfold Token_take, requested_grant. case_decide as Hg; [|case_decide as Hr; [|done]].
  - unfold tokenCode. destruct (codes s !! _) as [gr|] eqn:E; cbn.
    + do 5 (split; [done|]). intros t. split.
      * case_decide; [done|]. destruct (bool_decide _ || bool_decide _) eqn:Eb; [done|].
        rewrite orb_false_iff, !bool_decide_eq_false in Eb. destruct Eb as [E1%dec_stable E2%dec_stable].
        case_decide; [done|]. intros [= <-]. exists gr. repeat split; (done || lia).
      * intros (a & [= <-] & He & Hc & Hu & Hp & ->).
        rewrite decide_False by lia. rewrite !bool_decide_false by (by intros []). cbn.
        by rewrite decide_False by (by intros []).
    + do 3 (split; [done|]). rewrite delete_id by done. do 2 (split; [done|]).
      intros t. split; [done|]. by intros (a & ? & _).
  - unfold tokenRefresh. destruct (refresh s !! _) as [gr|] eqn:E; cbn.
    + do 5 (split; [done|]). intros t. split.
      * case_decide; [done|]. case_decide; [done|]. intros [= <-]. exists gr.
        repeat split; [lia|done|by destruct gr].
      * intros (a & [= <-] & He & Hc & Hu).
        rewrite decide_False by lia. rewrite decide_False by (intros []; done).
        rewrite Hu. by destruct t.
    + do 3 (split; [done|]). rewrite delete_id by done. do 2 (split; [done|]).
      intros t. split; [done|]. by intros (a & ? & _).
Qed.
End spec.

(** A login by password, its code exchanged, and the refresh token used. *)
Section example.
Let Parse (s : string) : option url := Some {| Hostname := s; Path := s |}.
Let bcrypt (password hash : string) : bool := bool_decide (password = hash).
Let pkce (verifier : string) : string := verifier.

Let config : Config := {|
  Issuer := "https://auth.example"; Resource := ""; Users := {["ada" := "pw"]} |}.
Let at_time (now : Z) (token : string) : env := {|
  e_now := now; e_fetch := Unreachable; e_writes := true; e_signs := true; e_session := token;
  e_code := token; e_refresh := token; e_jti := token; e_client := token |}.
Let fields (l : list (string * string)) (k : string) : string := default "" (list_to_map (M := gmap string string) l !! k).
Let form_of (l : list (string * string)) : form := {| Get := fields l; PostFormValue := fields l |}.

Let login : form := form_of [
  ("username", "ada"); ("password", "pw"); ("client_id", "cb-1"); ("redirect_uri", "https://app/cb");
  ("code_challenge", "v"); ("code_challenge_method", "S256"); ("scope", "a b")].
Let exchange : form := form_of [
  ("grant_type", "authorization_code"); ("code", "2"); ("code_verifier", "v"); ("client_id", "cb-1");
  ("redirect_uri", "https://app/cb")].
Let renewal : form := form_of [
  ("grant_type", "refresh_token"); ("refresh_token", "4"); ("client_id", "cb-1")].
Let history : list event := [
  ARegister (at_time 1 "1") ["https://app/cb"]; AAuthorize (at_time 2 "2") true None login;
  ATake 0 (at_time 3 "3") exchange; AIssue 0 (at_time 4 "4");
  ATake 0 (at_time 5 "5") renewal; AIssue 0 (at_time 6 "6")].

End example.
