(* ===== verification/Json.v ===== *)
(** * JSON values, output schemas and texts

    The values of decoded JSON ([any] in the code), and the output schemas of
    [src/internal/manager/tool_output.go] with the standard meaning of the
    keywords they use: [type], [enum], [properties], [required] and [items]; and
    what the code does with [json.Unmarshal] when it keeps parts of a text as
    they are ([json.RawMessage]): a parsed text is a tree in which every value
    still has its text, and decoding into a struct reads members of it by name.
    The parser itself and the encoder are an interface. *)

From S2P Require Import Prelude GoStrings.
Open Scope Z_scope.
Set Warnings "-register-all".

(** An object is the list of its fields; the first of a name counts. *)
Inductive json : Type :=
  | JNull
  | JBool (b : bool)
  | JInt (n : Z)
  | JNumber (text : string) (* a number that is no integer *)
  | JString (s : string)
  | JArray (items : list json)
  | JObject (fields : list (string * json)).

Fixpoint field (k : string) (fields : list (string * json)) : option json :=
  match fields with
  | [] => None
  | (k', v) :: fields => if String.eqb k' k then Some v else field k fields
  end.

(** [object[k] = v]. *)
Fixpoint set_field (k : string) (v : json) (fields : list (string * json)) : list (string * json) :=
  match fields with
  | [] => [(k, v)]
  | (k', w) :: fields => if String.eqb k' k then (k, v) :: fields else (k', w) :: set_field k v fields
  end.

Lemma field_set k v fields j : field j (set_field k v fields) = if String.eqb k j then Some v else field j fields.
Proof.
  induction fields as [|[k' w] fields IH]; cbn; [done|].
  destruct (String.eqb_spec k' k) as [->|Hne]; cbn; [by destruct (String.eqb k j)|].
  rewrite IH. destruct (String.eqb_spec k j) as [->|]; [|done]. by destruct (String.eqb_spec k' j).
Qed.

(** ** Schemas *)
Inductive schema : Type :=
  | SString
  | SBool
  | SInt
  | SEnum (values : list string)
  | SArray (items : schema)
  | SObject (properties : list (string * schema)) (required : list string).

(** The value conforms to the schema. *)
Fixpoint conforms (s : schema) (j : json) {struct s} : bool :=
  match s, j with
  | SString, JString _ | SBool, JBool _ | SInt, JInt _ => true
  | SEnum values, JString v => bool_decide (v ∈ values)
  | SArray items, JArray l => forallb (conforms items) l
  | SObject properties required, JObject fields =>
      forallb (λ k, bool_decide (is_Some (field k fields))) required &&
      (fix go (ps : list (string * schema)) : bool :=
         match ps with
         | [] => true
         | (k, p) :: ps =>
             match field k fields with Some v => conforms p v | None => true end && go ps
         end) properties
  | _, _ => false
  end.

Lemma conforms_object properties required fields :
  conforms (SObject properties required) (JObject fields) = true ↔
  (∀ k, k ∈ required → is_Some (field k fields)) ∧
  (∀ k p v, (k, p) ∈ properties → field k fields = Some v → conforms p v = true).
Proof.
  cbn. rewrite andb_true_iff, forallb_forall. split; intros [Hr Hp]; split.
  - intros k Hk%list_elem_of_In%Hr. by apply bool_decide_eq_true in Hk.
  - clear Hr. induction properties as [|[k' p'] ps IH]; [by intros ??? H%elem_of_nil|].
    apply andb_true_iff in Hp as [H1 H2]. intros k p v [[= -> ->]|H]%elem_of_cons Hf; [by rewrite Hf in H1|].
    by apply (IH H2 k).
  - intros k Hk%list_elem_of_In. apply bool_decide_eq_true_2. by apply Hr.
  - clear Hr. induction properties as [|[k p] ps IH]; [done|]. apply andb_true_iff. split.
    + destruct (field k fields) as [v|] eqn:E; [|done]. apply (Hp k p v); [by left|done].
    + apply IH. intros j q v Hj. apply Hp. by right.
Qed.

Lemma conforms_array items l : conforms (SArray items) (JArray l) = true ↔
  ∀ j, j ∈ l → conforms items j = true.
Proof. cbn. rewrite forallb_forall. split; intros H j Hj; by apply H, list_elem_of_In. Qed.

(** ** Texts *)

Inductive shape (A : Type) : Type :=
| RNull
| RBool (b : bool)
| RNumber
| RString (s : string)
| RArray (items : list A)
| RObject (members : list (string * A)).
Arguments RNull {A}.
Arguments RBool {A} b.
Arguments RNumber {A}.
Arguments RString {A} s.
Arguments RArray {A} items.
Arguments RObject {A} members.

(** A value with the text it was parsed from, without space around it. *)
Inductive raw : Type := Raw (text : string) (v : shape raw).

Definition raw_text (r : raw) : string := let '(Raw t _) := r in t.
Definition raw_shape (r : raw) : shape raw := let '(Raw _ v) := r in v.

(** What the code uses of [encoding/json] and of [time.Parse]. *)
Class JSON : Type := {
  parse : string → option raw;                 (* of a whole text, [None] when invalid *)
  integer : string → option Z;                 (* a number as an [int64] *)
  positive : string → option Z;                (* a number that is a [float64] above 0, as an [int64] *)
  encode : raw → string;                       (* [json.Marshal] of a decoded value *)
  encode_string : string → string;             (* of a string *)
  parse_time : string → option Z     (* RFC 3339, in nanoseconds *)
}.

(** [json.RawMessage]: [None] is the one that was not set. *)
Abbreviation RawMessage := (option raw).

Section decode.
Context `{JSON}.

(** [json.Valid]. *)
Definition Valid (text : string) : bool := bool_decide (is_Some (parse text)).

(** A member of an object is the one of the name, in any case of its letters; of
    several, each is decoded over the ones before. *)
Definition named (name : string) (m : list (string * raw)) : list raw :=
  omap (λ '(k, v), if decide (ToLower k = ToLower name) then Some v else None) m.
Definition member {A} (dec : A → raw → option A) (zero : A) (name : string) (m : list (string * raw)) : option A :=
  foldl (λ acc r, a ← acc; dec a r) (Some zero) (named name m).

(** The decoders of Go's types: null leaves what is there. *)
Definition dec_string (old : string) (r : raw) : option string :=
  match raw_shape r with RNull => Some old | RString s => Some s | _ => None end.
Definition dec_bool (old : bool) (r : raw) : option bool :=
  match raw_shape r with RNull => Some old | RBool b => Some b | _ => None end.
Definition dec_int (old : Z) (r : raw) : option Z :=
  match raw_shape r with RNull => Some old | RNumber => integer (raw_text r) | _ => None end.
(** [*int]. *)
Definition dec_int_ptr (old : option Z) (r : raw) : option (option Z) :=
  match raw_shape r with RNull => Some None | RNumber => Some <$> integer (raw_text r) | _ => None end.
Definition dec_raw (old : RawMessage) (r : raw) : option RawMessage := Some (Some r).
Definition dec_list {A} (dec : raw → option A) (old : list A) (r : raw) : option (list A) :=
  match raw_shape r with RNull => Some [] | RArray l => mapM dec l | _ => None end.

Definition get_string := member dec_string "".
Definition get_bool := member dec_bool false.
Definition get_int := member dec_int 0.
Definition get_int_ptr := member dec_int_ptr None.
Definition get_raw := member dec_raw None.
Definition get_list {A} (dec : raw → option A) := member (dec_list dec) [].

(** A struct from an object: [f] reads its members, from null comes the zero
    value. *)
Definition dec_struct {A} (f : list (string * raw) → option A) (r : raw) : option A :=
  match raw_shape r with RNull => f [] | RObject m => f m | _ => None end.
(** A struct within a struct: members of several such objects count together. *)
Definition get_struct {A} (f : list (string * raw) → option A) (name : string) (m : list (string * raw)) : option A :=
  inner ← foldl (λ acc r, ms ← acc; match raw_shape r with RNull => Some ms | RObject m => Some (ms ++ m) | _ => None end)
            (Some []) (named name m);
  f inner.

(** [json.Unmarshal] of a text and of a [json.RawMessage]. *)
Definition Unmarshal {A} (dec : raw → option A) (text : string) : option A := r ← parse text; dec r.
Definition Unmarshal_raw {A} (dec : raw → option A) (m : RawMessage) : option A := r ← m; dec r.

Definition is_null (r : raw) : bool := match raw_shape r with RNull => true | _ => false end.

(** [json.Marshal] of a map of one entry. *)
Definition encode_entry (key value : string) : raw :=
  Raw ("{" +:+ encode_string key +:+ ":" +:+ encode_string value +:+ "}") (RObject [(key, Raw (encode_string value) (RString value))]).

(** ** Times *)

(** [time.UnixMilli]. *)
Definition from_milli (n : Z) : Z := n * 1000000.
End decode.

(** [strings.TrimSpace] is not empty. *)
Definition nonblank (s : string) : bool := bool_decide (TrimSpace s ≠ "").

Definition firstNonEmptyString (values : list string) : string :=
  default "" (find nonblank values).

(** [Time.Sub], which saturates, and its absolute value as the code takes it: the
    least duration has no opposite. *)
Definition Sub (a b : Z) : Z := Z.max min_int64 (Z.min max_int64 (a - b)).
Definition distance (a b : Z) : Z := let d := Sub a b in if decide (d < 0) then wrap64 (- d) else d.
