(* ===== verification/Registry.v ===== *)
(** * The manager's device registry

    [src/internal/manager/registry.go] with the wire types of
    [src/internal/protocol/protocol.go]: the connected devices, and the calls in
    flight on their connections.

    [CallProgress] runs on the caller's goroutine, so it is one step for each
    point where another goroutine can come in between: looking the device up,
    taking a slot of the connection's semaphore, opening the call (the request
    id and the pending entry), writing the request, and leaving with an answer
    or with the context's error. A connection is a place in [conns], so that a
    call goes on with the connection it found after the device has a new one.
    The stream under a connection is a parameter, the class [StreamConn]. A
    channel of capacity one is its content; sending to it never blocks, so a
    sender's lookup and its send are one step. *)

From stdpp Require Import pretty.
From S2P Require Import Prelude Entities Json.
Open Scope Z_scope.

(** ** Wire types *)
Record Workspace : Type := { wk_Name : string; wk_Path : string; wk_Writable : bool }.

(** [map[string]any] *)
Abbreviation arguments := (gmap string json).

Record CustomTool : Type := {
  ct_Name : string;
  ct_Description : string;
  ct_Tool : string;
  ct_Args : arguments
}.

Record ToolPolicy : Type := {
  EnabledTools : list string;
  DisabledTools : list string;
  CustomTools : list CustomTool
}.

Record Envelope : Type := {
  env_Type : string;
  env_RequestID : string;
  env_DeviceID : string;
  env_Payload : string
}.

Definition TypeRegister : string := "register".
Definition TypeRegistered : string := "registered".
Definition TypeHeartbeat : string := "heartbeat".
Definition TypeRequest : string := "request".
Definition TypeResponse : string := "response".
Definition TypeProgress : string := "progress".
Definition TypeRunEvent : string := "run_event".
Definition TypeRunHeads : string := "run_heads".
Definition TypeRunReplay : string := "run_replay".

Record AgentRequest : Type := { req_Tool : string; req_Workspace : string; req_Args : arguments }.
Record AgentResponse : Type := { resp_OK : bool; resp_Data : string; resp_Error : string }.

(** ** State *)
Record Device : Type := {
  d_ID : string;
  d_Name : string;
  d_AccountID : string;
  d_Version : string;
  d_Online : bool;
  d_ConnectedAt : time;
  d_LastSeen : time;
  d_Workspaces : option (list Workspace); (* [None]: the nil slice *)
  d_ToolPolicy : option ToolPolicy
}.

Definition set_online (d : Device) : Device := {|
  d_ID := d_ID d; d_Name := d_Name d; d_AccountID := d_AccountID d; d_Version := d_Version d;
  d_Online := true; d_ConnectedAt := d_ConnectedAt d; d_LastSeen := d_LastSeen d;
  d_Workspaces := d_Workspaces d; d_ToolPolicy := d_ToolPolicy d |}.
Definition set_last_seen (t : time) (d : Device) : Device := {|
  d_ID := d_ID d; d_Name := d_Name d; d_AccountID := d_AccountID d; d_Version := d_Version d;
  d_Online := d_Online d; d_ConnectedAt := d_ConnectedAt d; d_LastSeen := t;
  d_Workspaces := d_Workspaces d; d_ToolPolicy := d_ToolPolicy d |}.

(** [streamConn]. [WriteJSON pick env w] is [None] while the write blocks; [pick]
    says which ready branch of a select is taken. *)
Class StreamConn (W : Type) : Type := {
  WriteJSON : bool → Envelope → W → option (result string W);
  Close : W → W
}.

(** A pending call: the channel of call [ch], and whether it has a hook. *)
Record pendingCall : Type := { ch : nat; onEvent : bool }.

Record AgentConn {W : Type} : Type := {
  device : Device;
  ws : option W;
  pend : gmap string pendingCall;
  sem : nat (* the slots taken *)
}.
Arguments AgentConn : clear implicits.

Record callArgs : Type := {
  c_account : string;
  c_deviceID : string;
  c_request : AgentRequest;
  c_onEvent : bool
}.

(** Where a running [CallProgress] stands: at the semaphore, before it opens, before
    it writes, at the answer. *)
Inductive pc : Type :=
  | AtSem (c : nat)
  | AtOpen (c : nat)
  | AtWrite (c : nat) (id : string) (payload : string)
  | AtWait (c : nat) (id : string).

(** [Registry] with the connections and calls around it; [chans] holds the full
    answer channels. *)
Record Registry {W : Type} : Type := {
  devices : gmap string nat;
  maxInflight : nat;
  seq : N;
  conns : gmap nat (AgentConn W);
  calls : gmap nat (callArgs * pc);
  chans : gmap nat AgentResponse
}.
Arguments Registry : clear implicits.

Definition NewRegistry {W} (maxInflight : list Z) : Registry W := {|
  devices := ∅;
  maxInflight := match maxInflight with
                 | n :: _ => if decide (0 < n) then Z.to_nat n else 8
                 | [] => 8
                 end;
  seq := 0; conns := ∅; calls := ∅; chans := ∅ |}.

Inductive call_err : Type :=
  | EUnknownDevice (deviceID : string)
  | EContext
  | EMarshal (e : string)
  | EWrite (e : string)
  | EAgent (message : string).

Section registry.
Context {W : Type} `{StreamConn W}.
(** [json.Marshal] of a request. *)
Variable json_request : AgentRequest → result string string.

Implicit Types r : Registry W.
Implicit Types c : AgentConn W.

Definition set_conns (m : gmap nat (AgentConn W)) r : Registry W := {|
  devices := devices r; maxInflight := maxInflight r; seq := seq r; conns := m; calls := calls r;
  chans := chans r |}.
Definition set_reg_devices (m : gmap string nat) r : Registry W := {|
  devices := m; maxInflight := maxInflight r; seq := seq r; conns := conns r; calls := calls r;
  chans := chans r |}.
Definition set_calls (m : gmap nat (callArgs * pc)) r : Registry W := {|
  devices := devices r; maxInflight := maxInflight r; seq := seq r; conns := conns r; calls := m;
  chans := chans r |}.
Definition set_chans (m : gmap nat AgentResponse) r : Registry W := {|
  devices := devices r; maxInflight := maxInflight r; seq := seq r; conns := conns r; calls := calls r;
  chans := m |}.
Definition set_seq (n : N) r : Registry W := {|
  devices := devices r; maxInflight := maxInflight r; seq := n; conns := conns r; calls := calls r;
  chans := chans r |}.

Definition set_pend (m : gmap string pendingCall) c : AgentConn W := {|
  device := device c; ws := ws c; pend := m; sem := sem c |}.
Definition set_sem (n : nat) c : AgentConn W := {|
  device := device c; ws := ws c; pend := pend c; sem := n |}.
Definition set_ws (w : option W) c : AgentConn W := {|
  device := device c; ws := w; pend := pend c; sem := sem c |}.
Definition set_device (d : Device) c : AgentConn W := {|
  device := d; ws := ws c; pend := pend c; sem := sem c |}.

Definition update_conn (k : nat) (f : AgentConn W → AgentConn W) r : Registry W :=
  set_conns (alter f k (conns r)) r.

(** ** Devices *)

(** A send to a channel that does not wait. *)
Definition offer (resp : AgentResponse) (m : gmap nat AgentResponse) (k : nat) : gmap nat AgentResponse :=
  if decide (is_Some (m !! k)) then m else <[k := resp]> m.

Definition waiters (c : AgentConn W) : list nat := ch <$> (map_to_list (pend c)).*2.

Definition FailPending (k : nat) (message : string) r : Registry W :=
  match conns r !! k with
  | None => r
  | Some c =>
      let message := if decide (message = "") then "agent disconnected" else message in
      let resp := {| resp_OK := false; resp_Data := ""; resp_Error := message |} in
      set_chans (foldl (offer resp) (chans r) (waiters c)) r
  end.

Definition close_ws (k : nat) r : Registry W := update_conn k (λ c, set_ws (Close <$> ws c) c) r.

(** [Put]; the new connection is [k], a place not used so far. *)
Definition Put (dev : Device) (w : option W) r : Registry W * nat :=
  let k := fresh (dom (conns r)) in
  let old := devices r !! d_ID dev in
  let r := set_conns (<[k := {| device := dev; ws := w; pend := ∅; sem := 0 |}]> (conns r)) r in
  let r := set_reg_devices (<[d_ID dev := k]> (devices r)) r in
  (match old with
   | Some o => close_ws o (FailPending o "agent connection replaced" r)
   | None => r
   end, k).

Definition Remove (id : string) (target : nat) r : Registry W :=
  let r := if decide (devices r !! id = Some target) then set_reg_devices (delete id (devices r)) r else r in
  FailPending target "agent disconnected" r.

Definition Touch (now : time) (id : string) r : Registry W :=
  match devices r !! id with
  | Some k => update_conn k (λ c, set_device (set_last_seen now (device c)) c) r
  | None => r
  end.

Definition Disconnect (id : string) r : Registry W * bool :=
  match devices r !! id with
  | None => (r, false)
  | Some k => (close_ws k (FailPending k "agent disconnected" r), true)
  end.

(** The device a connected id stands for. *)
Definition Get (id : string) r : option (AgentConn W) :=
  k ← devices r !! id; conns r !! k.

(** [List] and [ListAccount]; [order] is the order in which the map is walked. *)
Definition List (order : list string) r : list Device :=
  omap (λ id, (λ c, set_online (device c)) <$> Get id r) order.
Definition ListAccount (order : list string) (account : string) r : list Device :=
  omap (λ id, c ← Get id r;
    if decide (d_AccountID (device c) ≠ account) then None else Some (set_online (device c))) order.

(** A copy: nil when there is none to copy. *)
Definition Workspaces (account id : string) r : result call_err (option (list Workspace)) :=
  match Get id r with
  | Some c =>
      if decide (d_AccountID (device c) ≠ account) then Err (EUnknownDevice id)
      else Ok (match d_Workspaces (device c) with
               | Some (w :: ws) => Some (w :: ws)
               | Some [] | None => None
               end)
  | None => Err (EUnknownDevice id)
  end.

(** ** Calls *)

(** The steps of [CallProgress] by call [k]; [None]: the step cannot be taken
    now. A step that ends the call gives its result. *)
Definition at_pc (k : nat) (a : callArgs) (p : pc) r : Registry W := set_calls (<[k := (a, p)]> (calls r)) r.
Definition left (k : nat) r : Registry W := set_chans (delete k (chans r)) (set_calls (delete k (calls r)) r).

Definition call_lookup (k : nat) (a : callArgs) r : option (Registry W * option (result call_err string)) :=
  if decide (is_Some (calls r !! k)) then None
  else
    match (c ← devices r !! c_deviceID a; conn ← conns r !! c; Some (c, conn)) with
    | None => Some (r, Some (Err (EUnknownDevice (c_deviceID a))))
    | Some (c, conn) =>
        if decide (d_AccountID (device conn) ≠ c_account a)
        then Some (r, Some (Err (EUnknownDevice (c_deviceID a))))
        else Some (at_pc k a (AtSem c) r, None)
    end.

Definition call_acquire (k : nat) r : option (Registry W) :=
  match calls r !! k with
  | Some (a, AtSem c) =>
      match conns r !! c with
      | Some conn =>
          if decide (sem conn < maxInflight r)%nat
          then Some (at_pc k a (AtOpen c) (update_conn c (set_sem (S (sem conn))) r))
          else None
      | None => None
      end
  | _ => None
  end.

(** The deferred release of the semaphore. *)
Definition release (c : nat) r : Registry W := update_conn c (λ conn, set_sem (pred (sem conn)) conn) r.

(** [fmt.Sprintf("%d", r.seq.Add(1))] *)
Definition next_seq (n : N) : N := ((n + 1) `mod` 2 ^ 64)%N.

Definition call_open (k : nat) r : option (Registry W * option (result call_err string)) :=
  match calls r !! k with
  | Some (a, AtOpen c) =>
      let n := next_seq (seq r) in
      let id := pretty n in
      let r := set_seq n r in
      match json_request (c_request a) with
      | Err e => Some (left k (release c r), Some (Err (EMarshal e)))
      | Ok payload =>
          let r := update_conn c (λ conn,
            set_pend (<[id := {| ch := k; onEvent := c_onEvent a |}]> (pend conn)) conn) r in
          Some (at_pc k a (AtWrite c id payload) r, None)
      end
  | _ => None
  end.

(** The deferred calls: drop the pending entry, then release the slot. *)
Definition call_exit (k c : nat) (id : string) r : Registry W :=
  left k (release c (update_conn c (λ conn, set_pend (delete id (pend conn)) conn) r)).

Definition call_write (pick : bool) (k : nat) r : option (Registry W * option (result call_err string)) :=
  match calls r !! k with
  | Some (a, AtWrite c id payload) =>
      conn ← conns r !! c;
      w ← ws conn;
      out ← WriteJSON pick {| env_Type := TypeRequest; env_RequestID := id;
                              env_DeviceID := c_deviceID a; env_Payload := payload |} w;
      match out with
      | Err e => Some (call_exit k c id r, Some (Err (EWrite e)))
      | Ok w => Some (at_pc k a (AtWait c id) (update_conn c (set_ws (Some w)) r), None)
      end
  | _ => None
  end.

Definition answer_of (resp : AgentResponse) : result call_err string :=
  if resp_OK resp then Ok (resp_Data resp)
  else Err (EAgent (if decide (resp_Error resp = "") then "agent request failed" else resp_Error resp)).

Definition call_answer (k : nat) r : option (Registry W * result call_err string) :=
  match calls r !! k with
  | Some (_, AtWait c id) =>
      resp ← chans r !! k;
      Some (call_exit k c id r, answer_of resp)
  | _ => None
  end.

(** The context ends, at either select. *)
Definition call_cancelled (k : nat) r : option (Registry W * result call_err string) :=
  match calls r !! k with
  | Some (_, AtSem _) => Some (left k r, Err EContext)
  | Some (_, AtWait c id) => Some (call_exit k c id r, Err EContext)
  | _ => None
  end.

(** [DeliverEvent]: the call whose hook runs, if any. *)
Definition DeliverEvent (c : nat) (requestID : string) r : option nat :=
  conn ← conns r !! c;
  p ← pend conn !! requestID;
  if onEvent p then Some (ch p) else None.

Definition Deliver (c : nat) (requestID : string) (resp : AgentResponse) r : Registry W :=
  match conns r !! c with
  | None => r
  | Some conn =>
      match pend conn !! requestID with
      | Some p => set_chans (offer resp (chans r) (ch p)) r
      | None => r
      end
  end.
End registry.
