(* ===== verification/RegistryInv.v ===== *)
(** * The registry as a system of calls and connections

    The steps of callers, of the devices' streams and of their connections coming
    and going, with what happened, and the invariant of the reachable states. *)

From stdpp Require Import pretty.
From S2P Require Import Prelude Entities Registry.
Open Scope Z_scope.

Section inv.
Context {W : Type} `{StreamConn W}.
Variable json_request : AgentRequest → result string string.
Implicit Types r : Registry W.

(** ** Steps *)
Inductive action : Type :=
  | ACall (k : nat) (a : callArgs)
  | AAcquire (k : nat)
  | AOpen (k : nat)
  | AWrite (pick : bool) (k : nat)
  | AAnswer (k : nat)
  | ACancel (k : nat)
  | APut (dev : Device) (w : option W)
  | ARemove (id : string) (target : nat)
  | ADisconnect (id : string)
  | ATouch (now : time) (id : string)
  | AStream (c : nat) (f : W → W)
  | ADeliver (c : nat) (id : string) (resp : AgentResponse)
  | AProgress (c : nat) (id : string) (payload : string).

Inductive fact : Type :=
  | FCalled (k : nat) (a : callArgs)
  | FOpened (k c : nat) (id : string)
  | FSent (k c : nat) (id : string) (req : AgentRequest)
  | FReturned (k : nat) (res : result call_err string)
  | FPut (c : nat) (dev : Device)
  | FFailed (c : nat) (message : string)
  | FResponse (c : nat) (id : string) (resp : AgentResponse)
  | FProgress (c : nat) (id : string) (payload : string)
  | FHook (k : nat) (payload : string).

Definition returned (k : nat) (res : option (result call_err string)) : list fact :=
  match res with Some res => [FReturned k res] | None => [] end.

(** What opening, or writing, did. *)
Definition open_facts (k : nat) r : list fact :=
  match calls r !! k with
  | Some (_, AtOpen c) => [FOpened k c (pretty (next_seq (seq r)))]
  | _ => []
  end.
Definition write_facts (k : nat) r : list fact :=
  match calls r !! k with
  | Some (a, AtWrite c id _) => [FSent k c id (c_request a)]
  | _ => []
  end.

Definition step r (x : action) : option (Registry W * list fact) :=
  match x with
  | ACall k a =>
      '(r', res) ← call_lookup k a r; Some (r', returned k res ++ [FCalled k a])
  | AAcquire k => (λ r', (r', [])) <$> call_acquire k r
  | AOpen k => '(r', res) ← call_open json_request k r; Some (r', returned k res ++ open_facts k r)
  | AWrite pick k =>
      '(r', res) ← call_write pick k r;
      Some (r', match res with Some res => [FReturned k res] | None => write_facts k r end)
  | AAnswer k => '(r', res) ← call_answer k r; Some (r', [FReturned k res])
  | ACancel k => '(r', res) ← call_cancelled k r; Some (r', [FReturned k res])
  | APut dev w =>
      let '(r', c) := Put dev w r in
      Some (r', FPut c dev :: match devices r !! d_ID dev with
                              | Some old => [FFailed old "agent connection replaced"]
                              | None => []
                              end)
  | ARemove id target => Some (Remove id target r, [FFailed target "agent disconnected"])
  | ADisconnect id =>
      Some ((Disconnect id r).1, match devices r !! id with
                                 | Some c => [FFailed c "agent disconnected"]
                                 | None => []
                                 end)
  | ATouch now id => Some (Touch now id r, [])
  | AStream c f => Some (update_conn c (λ conn, set_ws (f <$> ws conn) conn) r, [])
  | ADeliver c id resp => Some (Deliver c id resp r, [FResponse c id resp])
  | AProgress c id payload =>
      Some (r, match DeliverEvent c id r with Some k => [FHook k payload] | None => [] end ++
               [FProgress c id payload])
  end.

Inductive reachable (inflight : list Z) : Registry W → list fact → Prop :=
  | reach_new : reachable inflight (NewRegistry inflight) []
  | reach_step r log x r' fs : reachable inflight r log → step r x = Some (r', fs) →
      reachable inflight r' (fs ++ log).

(** Several steps in a row. *)
Fixpoint run_actions r (l : list action) : option (Registry W * list fact) :=
  match l with
  | [] => Some (r, [])
  | x :: l => '(r', fs) ← step r x; '(r'', fs') ← run_actions r' l; Some (r'', fs' ++ fs)
  end.

Lemma run_actions_reachable n r log l r' fs : reachable n r log →
  run_actions r l = Some (r', fs) → reachable n r' (fs ++ log).
Proof.
  revert r log r' fs. induction l as [|x l IH]; intros r log r' fs Hr; cbn; [by intros [= <- <-]|].
  destruct (step r x) as [[r1 f1]|] eqn:E; [|done]. cbn.
  destruct (run_actions r1 l) as [[r2 f2]|] eqn:E2; [|done]. intros [= <- <-].
  rewrite <-app_assoc. exact (IH r1 _ _ _ (reach_step _ _ _ _ _ _ Hr E) E2).
Qed.

Definition called (f : fact) : option nat := match f with FCalled k _ => Some k | _ => None end.
Definition opened (f : fact) : option string := match f with FOpened _ _ id => Some id | _ => None end.
Definition has_returned (f : fact) : option nat := match f with FReturned k _ => Some k | _ => None end.

(** Calls are told apart, and the request counter has not wrapped around. *)
Definition distinct_calls (log : list fact) : Prop :=
  NoDup (omap called log) ∧ (N.of_nat (length (omap opened log)) < 2 ^ 64)%N.

(** ** Positions of a call *)
Definition conn_of (p : pc) : nat :=
  match p with AtSem c | AtOpen c | AtWrite c _ _ | AtWait c _ => c end.
(** The connection whose slot a call holds, and its pending entry. *)
Definition slot (p : pc) : option nat :=
  match p with AtSem _ => None | AtOpen c | AtWrite c _ _ | AtWait c _ => Some c end.
Definition entry (p : pc) : option (nat * string) :=
  match p with AtWrite c id _ | AtWait c id => Some (c, id) | _ => None end.

Definition holds (c : nat) (kp : nat * (callArgs * pc)) : Prop := slot kp.2.2 = Some c.
#[export] Instance holds_dec c kp : Decision (holds c kp).
Proof. unfold holds. apply _. Defined.
Definition inflight (c : nat) (m : gmap nat (callArgs * pc)) : nat := size (filter (holds c) m).

Lemma inflight_insert c m k x : m !! k = None →
  inflight c (<[k := x]> m) = ((if decide (slot x.2 = Some c) then 1 else 0) + inflight c m)%nat.
Proof.
  intros Hk. unfold inflight. case_decide as Hs.
  - rewrite map_filter_insert_True by done. rewrite map_size_insert_None; [done|].
    apply map_lookup_filter_None. by left.
  - by rewrite map_filter_insert_False, delete_id.
Qed.

Lemma inflight_delete c m k x : m !! k = Some x →
  inflight c m = ((if decide (slot x.2 = Some c) then 1 else 0) + inflight c (delete k m))%nat.
Proof.
  intros Hk. rewrite <-(insert_delete_id m k x Hk) at 1. apply inflight_insert, lookup_delete_eq.
Qed.

(** A call that moves from [x] to [y]. *)
Lemma inflight_move c m k x y : m !! k = Some x →
  ((if decide (slot x.2 = Some c) then 1 else 0) + inflight c (<[k := y]> m) =
   (if decide (slot y.2 = Some c) then 1 else 0) + inflight c m)%nat.
Proof.
  intros Hk. rewrite (inflight_delete c m k x Hk), <-insert_delete_eq, inflight_insert by apply lookup_delete_eq. lia.
Qed.

(** ** The invariant *)

(** The connection of a call is to the device it asks for, inside its account. *)
Definition serves (conn : AgentConn W) (a : callArgs) : Prop :=
  d_ID (device conn) = c_deviceID a ∧ d_AccountID (device conn) = c_account a.

Record wf r : Prop := {
  w_device : ∀ id c, devices r !! id = Some c → ∃ conn, conns r !! c = Some conn ∧ d_ID (device conn) = id;
  w_call : ∀ k a p, calls r !! k = Some (a, p) → ∃ conn, conns r !! conn_of p = Some conn ∧ serves conn a ∧
    ∀ c id, entry p = Some (c, id) →
      pend conn !! id = Some {| ch := k; onEvent := c_onEvent a |};
  w_pend : ∀ c conn id q, conns r !! c = Some conn → pend conn !! id = Some q →
    ∃ a p, calls r !! ch q = Some (a, p) ∧ entry p = Some (c, id);
  w_chan : ∀ k resp, chans r !! k = Some resp →
    ∃ a p c id, calls r !! k = Some (a, p) ∧ entry p = Some (c, id);
  w_sem : ∀ c conn, conns r !! c = Some conn →
    sem conn = inflight c (calls r) ∧ (sem conn ≤ maxInflight r)%nat
}.

(** Where a stored answer comes from. *)
Definition origin (log : list fact) (c : nat) (id : string) (resp : AgentResponse) : Prop :=
  FResponse c id resp ∈ log ∨
  ∃ m, FFailed c m ∈ log ∧ resp = {| resp_OK := false; resp_Data := ""; resp_Error := m |}.

Record traced r (log : list fact) : Prop := {
  t_conn : ∀ c conn, conns r !! c = Some conn →
    ∃ dev, FPut c dev ∈ log ∧ d_ID dev = d_ID (device conn) ∧ d_AccountID dev = d_AccountID (device conn);
  t_put : ∀ c dev, FPut c dev ∈ log → ∃ conn, conns r !! c = Some conn ∧
    d_ID dev = d_ID (device conn) ∧ d_AccountID dev = d_AccountID (device conn);
  t_call : ∀ k a p, calls r !! k = Some (a, p) → FCalled k a ∈ log ∧ (k ∉ omap has_returned log) ∧
    (∀ c id, entry p = Some (c, id) → FOpened k c id ∈ log) ∧
    (∀ c id, p = AtWait c id → FSent k c id (c_request a) ∈ log);
  t_chan : ∀ k resp a p c id, chans r !! k = Some resp → calls r !! k = Some (a, p) →
    entry p = Some (c, id) → origin log c id resp;
  t_seq : seq r = N.of_nat (length (omap opened log));
  t_opened : ∀ id, id ∈ omap opened log → ∃ n, id = pretty n ∧ (1 ≤ n ≤ seq r)%N;
  t_once : NoDup (omap opened log) ∧ NoDup (omap has_returned log);
  t_sent : ∀ k c id q, FSent k c id q ∈ log → FOpened k c id ∈ log;
  t_returned : ∀ k, k ∈ omap has_returned log → k ∈ omap called log
}.

Lemma wf_new n : wf (NewRegistry n : Registry W).
Proof. split; cbn; intros *; by rewrite lookup_empty. Qed.

Lemma traced_new n : traced (NewRegistry n : Registry W) [].
Proof.
  split; cbn; try (intros *; by rewrite lookup_empty); try (intros * Hx; by apply elem_of_nil in Hx); try done.
  split; constructor.
Qed.

(** *** Changes that leave calls and pending entries alone *)

Definition same_conn (f : AgentConn W → AgentConn W) : Prop := ∀ conn,
  d_ID (device (f conn)) = d_ID (device conn) ∧
  d_AccountID (device (f conn)) = d_AccountID (device conn) ∧
  pend (f conn) = pend conn ∧ sem (f conn) = sem conn.

Lemma same_set_ws w : same_conn (λ conn, set_ws (w conn) conn).
Proof. by intros conn. Qed.
Lemma same_last_seen now : same_conn (λ conn, set_device (set_last_seen now (device conn)) conn).
Proof. by intros conn. Qed.

Lemma update_conn_lookup c f r d :
  conns (update_conn c f r) !! d = if decide (c = d) then f <$> conns r !! d else conns r !! d.
Proof.
  unfold update_conn. cbn. case_decide as E; [subst; apply lookup_alter_eq|by apply lookup_alter_ne].
Qed.

Lemma same_conn_lookup c f r d conn : same_conn f → conns r !! d = Some conn →
  ∃ conn', conns (update_conn c f r) !! d = Some conn' ∧
    d_ID (device conn') = d_ID (device conn) ∧ d_AccountID (device conn') = d_AccountID (device conn) ∧
    pend conn' = pend conn ∧ sem conn' = sem conn.
Proof.
  intros Hf Hd. rewrite update_conn_lookup, Hd. case_decide; [exists (f conn)|exists conn]; by auto.
Qed.

Lemma same_conn_lookup_inv c f r d conn' : same_conn f → conns (update_conn c f r) !! d = Some conn' →
  ∃ conn, conns r !! d = Some conn ∧
    d_ID (device conn') = d_ID (device conn) ∧ d_AccountID (device conn') = d_AccountID (device conn) ∧
    pend conn' = pend conn ∧ sem conn' = sem conn.
Proof.
  intros Hf. rewrite update_conn_lookup. case_decide; [|by eauto 6].
  intros (conn & Hc & ->)%fmap_Some. exists conn. split; [done|]. apply Hf.
Qed.

Lemma wf_same c f r : same_conn f → wf r → wf (update_conn c f r).
Proof.
  intros Hf [Hd Hc Hp Hch Hs]. split.
  - intros id d H1. destruct (Hd _ _ H1) as (conn & H2 & <-).
    destruct (same_conn_lookup c f r d conn Hf H2) as (conn' & ? & ? & _). by exists conn'.
  - intros k a p H1. destruct (Hc _ _ _ H1) as (conn & H2 & [S1 S2] & H3).
    destruct (same_conn_lookup c f r _ conn Hf H2) as (conn' & ? & E1 & E2 & E3 & _).
    exists conn'. split; [done|]. split; [split; congruence|]. intros c' id. rewrite E3. apply H3.
  - intros d conn' id q H1 H2. destruct (same_conn_lookup_inv c f r d conn' Hf H1) as (conn & ? & _ & _ & E & _).
    rewrite E in H2. by apply (Hp d conn).
  - exact Hch.
  - intros d conn' H1. destruct (same_conn_lookup_inv c f r d conn' Hf H1) as (conn & ? & _ & _ & _ & ->).
    by apply Hs.
Qed.

Lemma traced_same c f r log : same_conn f → traced r log → traced (update_conn c f r) log.
Proof.
  intros Hf [T1 T2 T3 T4 T5 T6 T7 T8 T9]. split; try done.
  - intros d conn' H1. destruct (same_conn_lookup_inv c f r d conn' Hf H1) as (conn & ? & -> & -> & _).
    by apply T1.
  - intros d dev H1. destruct (T2 _ _ H1) as (conn & ? & -> & ->).
    destruct (same_conn_lookup c f r d conn Hf) as (conn' & ? & ? & ? & _); [done|]. by exists conn'.
Qed.

(** *** Answers put into channels *)

Lemma offer_lookup resp (m : gmap nat AgentResponse) l k x :
  foldl (offer resp) m l !! k = Some x → m !! k = Some x ∨ (x = resp ∧ k ∈ l).
Proof.
  revert m. induction l as [|j l IH]; intros m; cbn; [by left|].
  intros [Hx|[-> Hk]]%IH; [|right; split; [done|by right]].
  unfold offer in Hx. case_decide; [by left|].
  apply lookup_insert_Some in Hx as [[<- <-]|[_ Hx]]; [right; split; [done|by left]|by left].
Qed.

Lemma offer_keeps resp (m : gmap nat AgentResponse) l k :
  is_Some (m !! k) → is_Some (foldl (offer resp) m l !! k).
Proof.
  revert m. induction l as [|j l IH]; intros m Hm; cbn; [done|]. apply IH. unfold offer.
  case_decide as Hj; [done|]. rewrite lookup_insert_ne; [done|]. by intros <-.
Qed.

Lemma offer_fills resp (m : gmap nat AgentResponse) l k : k ∈ l → is_Some (foldl (offer resp) m l !! k).
Proof.
  revert m. induction l as [|j l IH]; intros m; [by intros Hx%elem_of_nil|].
  intros [<-|Hk]%elem_of_cons; cbn; [|by apply IH]. apply offer_keeps. unfold offer.
  case_decide; [done|]. rewrite lookup_insert_eq. by eexists.
Qed.

Lemma waiters_spec (conn : AgentConn W) k :
  k ∈ waiters conn ↔ ∃ id q, pend conn !! id = Some q ∧ ch q = k.
Proof.
  unfold waiters. rewrite list_elem_of_fmap. split.
  - intros (q & -> & Hq). apply list_elem_of_fmap in Hq as ([id q'] & -> & Hq%elem_of_map_to_list).
    by exists id, q'.
  - intros (id & q & Hq & <-). exists q. split; [done|]. apply list_elem_of_fmap. exists (id, q).
    split; [done|]. by apply elem_of_map_to_list.
Qed.

(** Sending [resp] on the channels of pending entries of connection [c]. *)
Lemma wf_offers resp r c conn l : wf r → conns r !! c = Some conn →
  (∀ k, k ∈ l → k ∈ waiters conn) → wf (set_chans (foldl (offer resp) (chans r) l) r).
Proof.
  intros [Hd Hc Hp Hch Hs] Hconn Hl. split; try done. cbn.
  intros k x [Hx|[-> Hk]]%offer_lookup; [by eapply Hch|].
  apply Hl, waiters_spec in Hk as (id & q & Hq & <-).
  destruct (Hp _ _ _ _ Hconn Hq) as (a & p & ? & ?). by exists a, p, c, id.
Qed.

Lemma traced_offers resp r c conn l log : wf r → traced r log → conns r !! c = Some conn →
  (∀ k, k ∈ l → ∃ id q, pend conn !! id = Some q ∧ ch q = k ∧ origin log c id resp) →
  traced (set_chans (foldl (offer resp) (chans r) l) r) log.
Proof.
  intros Hwf [T1 T2 T3 T4 T5 T6 T7 T8 T9] Hconn Hl. split; try done. cbn.
  intros k x a p c' id [Hx|[-> Hk]]%offer_lookup Hk' Hp; [by eapply T4|].
  destruct (Hl _ Hk) as (id' & q & Hq & <- & Ho).
  destruct (w_pend _ Hwf _ _ _ _ Hconn Hq) as (a' & p' & ? & ?). by simplify_eq.
Qed.

(** *** Facts that neither open nor end a call *)
Lemma origin_mono (log log' : list fact) c id resp : log ⊆ log' → origin log c id resp → origin log' c id resp.
Proof. intros Hs [?|(m & ? & ?)]; [left; auto|right; exists m; auto]. Qed.

Definition quiet (f : fact) : Prop :=
  match f with FOpened _ _ _ | FSent _ _ _ _ | FReturned _ _ | FPut _ _ => False | _ => True end.

Lemma omap_quiet {A} (g : fact → option A) fs : Forall quiet fs →
  (∀ f, quiet f → g f = None) → omap g fs = [].
Proof. intros Hq Hg. induction Hq as [|f fs Hf _ IH]; cbn; [done|]. by rewrite (Hg _ Hf). Qed.

Lemma traced_quiet r log fs : Forall quiet fs → traced r log → traced r (fs ++ log).
Proof.
  intros Hq [T1 T2 T3 T4 T5 T6 T7 T8 T9].
  assert (log ⊆ fs ++ log) as Hsub by (intros x Hx; apply elem_of_app; by right).
  assert (∀ f : fact, ¬ quiet f → f ∈ fs ++ log → f ∈ log) as Hold.
  { intros f Hnf [Hf|Hf]%elem_of_app; [|done]. rewrite Forall_forall in Hq. by destruct (Hnf (Hq _ Hf)). }
  assert (omap opened fs = []) as E1 by (apply omap_quiet; [done|by intros []]).
  assert (omap has_returned fs = []) as E2 by (apply omap_quiet; [done|by intros []]).
  split; rewrite ?omap_app, ?E1, ?E2; cbn [app]; try done.
  - intros c conn Hc. destruct (T1 _ _ Hc) as (dev & ? & ?). exists dev. auto.
  - intros c dev Hx%Hold; [|by intros []]. by apply T2.
  - intros k a p Hk. destruct (T3 _ _ _ Hk) as (? & ? & ? & ?). split_and!; auto.
  - intros k resp a p c id ? ? ?. apply (origin_mono log); [done|]. by eapply T4.
  - intros k c id q Hx%Hold; [|by intros []]. by apply Hsub, (T8 _ _ _ q).
  - intros k Hk. apply elem_of_app. right. auto.
Qed.

Lemma fail_ok c m r log : m ≠ "" → wf r → traced r log → FFailed c m ∈ log →
  wf (FailPending c m r) ∧ traced (FailPending c m r) log.
Proof.
  intros Hm Hwf Ht Hf. unfold FailPending. destruct (conns r !! c) as [conn|] eqn:Hc; [|done].
  rewrite decide_False by done. split.
  - by apply (wf_offers _ _ c conn).
  - apply (traced_offers _ _ c conn); [done..|]. intros k (id & q & Hq & <-)%waiters_spec.
    exists id, q. split; [done|]. split; [done|]. right. by exists m.
Qed.

Lemma deliver_ok c id resp r log : wf r → traced r log → FResponse c id resp ∈ log →
  wf (Deliver c id resp r) ∧ traced (Deliver c id resp r) log.
Proof.
  intros Hwf Ht Hf. unfold Deliver. destruct (conns r !! c) as [conn|] eqn:Hc; [|done].
  destruct (pend conn !! id) as [q|] eqn:Hq; [|done].
  change (offer resp (chans r) (ch q)) with (foldl (offer resp) (chans r) [ch q]). split.
  - apply (wf_offers _ _ c conn); [done..|]. intros k ->%list_elem_of_singleton. apply waiters_spec. by eauto.
  - apply (traced_offers _ _ c conn); [done..|]. intros k ->%list_elem_of_singleton.
    exists id, q. split; [done|]. split; [done|]. by left.
Qed.

(** *** The steps of a call: well-formedness *)

Lemma conns_at_pc k a p r : conns (at_pc k a p r) = conns r.
Proof. done. Qed.
Lemma conns_left k r : conns (left k r) = conns r.
Proof. done. Qed.

(** A call moves to a position with the same slot and entry. *)
Lemma wf_move k a p p' r : wf r → calls r !! k = Some (a, p) →
  conn_of p' = conn_of p → slot p' = slot p → entry p' = entry p → wf (at_pc k a p' r).
Proof.
  intros [Hd Hc Hp Hch Hs] Hk E1 E2 E3. split; cbn; [done|..].
  - intros j b q [[<- [= <- <-]]|[_ Hj]]%lookup_insert_Some; [|by apply Hc].
    rewrite E1, E3. by apply Hc.
  - intros c conn id q Hconn Hq. destruct (Hp _ _ _ _ Hconn Hq) as (b & p0 & Hb & He).
    destruct (decide (k = ch q)) as [->|Hne].
    + exists a, p'. rewrite lookup_insert_eq. simplify_eq. by rewrite E3.
    + exists b, p0. by rewrite lookup_insert_ne.
  - intros j resp Hj. destruct (Hch _ _ Hj) as (b & q & c & id & Hb & He).
    destruct (decide (k = j)) as [->|Hne].
    + exists a, p', c, id. rewrite lookup_insert_eq. simplify_eq. by rewrite E3.
    + exists b, q, c, id. by rewrite lookup_insert_ne.
  - intros c conn Hconn. destruct (Hs _ _ Hconn) as [-> ?]. split; [|done].
    pose proof (inflight_move c (calls r) k (a, p) (a, p') Hk) as Hm. cbn in Hm. rewrite E2 in Hm. lia.
Qed.

Lemma wf_called k a c conn r : wf r → calls r !! k = None → conns r !! c = Some conn → serves conn a →
  wf (at_pc k a (AtSem c) r).
Proof.
  intros [Hd Hc Hp Hch Hs] Hk Hconn Hsv. split; cbn; [done|..].
  - intros j b q [[<- [= <- <-]]|[_ Hj]]%lookup_insert_Some; [|by apply Hc].
    exists conn. split; [done|]. split; [done|]. by intros ?? [=].
  - intros d conn' id q H1 H2. destruct (Hp _ _ _ _ H1 H2) as (b & p & Hb & ?). exists b, p.
    rewrite lookup_insert_ne; [done|]. intros ->. by rewrite Hk in Hb.
  - intros j resp Hj. destruct (Hch _ _ Hj) as (b & q & d & id & Hb & ?). exists b, q, d, id.
    rewrite lookup_insert_ne; [done|]. intros ->. by rewrite Hk in Hb.
  - intros d conn' H1. rewrite inflight_insert by done. cbn. by apply Hs.
Qed.

Lemma wf_acquire k a c conn r : wf r → calls r !! k = Some (a, AtSem c) → conns r !! c = Some conn →
  (sem conn < maxInflight r)%nat →
  wf (at_pc k a (AtOpen c) (update_conn c (set_sem (S (sem conn))) r)).
Proof.
  intros [Hd Hc Hp Hch Hs] Hk Hconn Hlt. split; cbn.
  - intros id d H1. destruct (Hd _ _ H1) as (conn' & ? & <-). rewrite lookup_alter. case_decide; [subst|by eauto].
    simplify_eq. rewrite Hconn. by eexists.
  - intros j b q Hj. assert (∃ q', calls r !! j = Some (b, q') ∧ conn_of q' = conn_of q ∧
      ∀ d id, entry q = Some (d, id) → entry q' = Some (d, id)) as (q' & Hj' & E1 & E2).
    { apply lookup_insert_Some in Hj as [[<- [= <- <-]]|[_ Hj]]; [by exists (AtSem c)|by exists q]. }
    destruct (Hc _ _ _ Hj') as (conn' & Hq & Hsv & He). rewrite E1 in Hq. rewrite lookup_alter.
    case_decide as Ed;
      [|exists conn'; split; [done|]; split; [done|]; intros d id Hd'; eapply He, E2, Hd']. rewrite <-Ed in Hq. rewrite Hconn in Hq |- *. simplify_eq.
    eexists. split; [done|]. split; [done|]. intros d id Hd'. eapply He, E2, Hd'.
  - intros d conn' id q Hdl Hq. assert (∃ conn0, conns r !! d = Some conn0 ∧ pend conn0 !! id = Some q) as (conn0 & H0 & Hq0).
    { rewrite lookup_alter in Hdl. case_decide; [subst|by eauto]. rewrite Hconn in Hdl. simplify_eq/=. by eauto. }
    destruct (Hp _ _ _ _ H0 Hq0) as (b & p & Hb & He). exists b, p. rewrite lookup_insert_ne; [done|].
    intros ->. simplify_eq.
  - intros j resp Hj. destruct (Hch _ _ Hj) as (b & q & d & id & Hb & He). exists b, q, d, id.
    rewrite lookup_insert_ne; [done|]. intros ->. simplify_eq.
  - intros d conn' Hdl. pose proof (inflight_move d (calls r) k _ (a, AtOpen c) Hk) as Hm. cbn in Hm.
    destruct (decide (c = d)) as [<-|Ed].
    + rewrite lookup_alter_eq, Hconn in Hdl. simplify_eq/=. destruct (Hs _ _ Hconn) as [E ?].
      rewrite decide_True in Hm by done. split; lia.
    + rewrite lookup_alter_ne in Hdl by done. rewrite !decide_False in Hm by congruence.
      destruct (Hs _ _ Hdl) as [-> ?]. split; [lia|done].
Qed.

Lemma wf_open k a c id payload conn n r : wf r → calls r !! k = Some (a, AtOpen c) →
  conns r !! c = Some conn → pend conn !! id = None →
  wf (at_pc k a (AtWrite c id payload) (update_conn c (λ conn,
    set_pend (<[id := {| ch := k; onEvent := c_onEvent a |}]> (pend conn)) conn) (set_seq n r))).
Proof.
  intros [Hd Hc Hp Hch Hs] Hk Hconn Hid. split; cbn.
  - intros i d H1. destruct (Hd _ _ H1) as (conn' & ? & <-). rewrite lookup_alter. case_decide; [subst|by eauto].
    simplify_eq. rewrite Hconn. by eexists.
  - intros j b q Hj. apply lookup_insert_Some in Hj as [[<- [= <- <-]]|[Hne Hj]]; cbn.
    + destruct (Hc _ _ _ Hk) as (conn' & Hq & Hsv & _). cbn in Hq. simplify_eq.
      rewrite lookup_alter_eq, Hconn. eexists. split; [done|]. split; [done|].
      intros d i [= <- <-]. cbn. apply lookup_insert_eq.
    + destruct (Hc _ _ _ Hj) as (conn' & Hq & Hsv & He). rewrite lookup_alter. case_decide as Ed; [|by exists conn'].
      rewrite <-Ed in Hq. rewrite Hconn in Hq |- *. simplify_eq. eexists. split; [done|]. split; [done|].
      intros d i Hdi. cbn. pose proof (He _ _ Hdi). rewrite lookup_insert_ne; [done|]. intros <-. congruence.
  - intros d conn' i q Hdl Hq. rewrite lookup_alter in Hdl. case_decide as Ed.
    + subst d. rewrite Hconn in Hdl. simplify_eq/=.
      apply lookup_insert_Some in Hq as [[<- <-]|[Hne Hq]]; [by rewrite lookup_insert_eq; eauto|].
      destruct (Hp _ _ _ _ Hconn Hq) as (b & p & Hb & He). exists b, p. rewrite lookup_insert_ne; [done|].
      intros ->. simplify_eq.
    + destruct (Hp _ _ _ _ Hdl Hq) as (b & p & Hb & He). exists b, p. rewrite lookup_insert_ne; [done|].
      intros ->. simplify_eq.
  - intros j resp Hj. destruct (Hch _ _ Hj) as (b & q & d & i & Hb & He). exists b, q, d, i.
    rewrite lookup_insert_ne; [done|]. intros ->. simplify_eq.
  - intros d conn' Hdl. pose proof (inflight_move d (calls r) k _ (a, AtWrite c id payload) Hk) as Hm. cbn in Hm.
    destruct (decide (c = d)) as [<-|Ed].
    + rewrite lookup_alter_eq, Hconn in Hdl. simplify_eq/=. destruct (Hs _ _ Hconn) as [-> ?]. split; [lia|done].
    + rewrite lookup_alter_ne in Hdl by done. destruct (Hs _ _ Hdl) as [-> ?]. split; [lia|done].
Qed.

(** A call leaves from the semaphore, or with its slot. *)
Lemma wf_left k a p r : wf r → calls r !! k = Some (a, p) → slot p = None → wf (left k r).
Proof.
  intros [Hd Hc Hp Hch Hs] Hk Hsl. assert (entry p = None) as He by (by destruct p).
  split; cbn; [done|..].
  - intros j b q [_ Hj]%lookup_delete_Some. by apply Hc.
  - intros d conn id q H1 H2. destruct (Hp _ _ _ _ H1 H2) as (b & p' & Hb & He'). exists b, p'.
    rewrite lookup_delete_ne; [done|]. intros ->. simplify_eq.
  - intros j resp [Hne Hj]%lookup_delete_Some. destruct (Hch _ _ Hj) as (b & q & d & id & ? & ?).
    exists b, q, d, id. by rewrite lookup_delete_ne.
  - intros d conn Hdl. destruct (Hs _ _ Hdl) as [-> ?]. split; [|done].
    rewrite (inflight_delete d _ _ _ Hk). cbn. by rewrite Hsl.
Qed.

(** What a connection loses when a call of it leaves: its slot and its entry. *)
Definition left_conn (p : pc) (conn : AgentConn W) : AgentConn W :=
  set_sem (pred (sem conn))
    (match entry p with Some (_, id) => set_pend (delete id (pend conn)) conn | None => conn end).

Lemma wf_exit k a p r : wf r → calls r !! k = Some (a, p) → slot p = Some (conn_of p) →
  wf (left k (update_conn (conn_of p) (left_conn p) r)).
Proof.
  intros [Hd Hc Hp Hch Hs] Hk Hsl. set (c := conn_of p) in *.
  assert (∀ d id, entry p = Some (d, id) → d = c) as Hec by (destruct p; by intros ?? [= <- <-]).
  assert (∀ conn, device (left_conn p conn) = device conn) as Hdev.
  { intros conn. unfold left_conn. by destruct (entry p) as [[? ?]|]. }
  assert (∀ conn id q, pend (left_conn p conn) !! id = Some q ↔
    pend conn !! id = Some q ∧ entry p ≠ Some (c, id)) as Hpend.
  { intros conn id q. unfold left_conn. destruct (entry p) as [[d i]|] eqn:E; cbn; [|by split; [|intros []]].
    rewrite (Hec d i eq_refl), lookup_delete_Some.
    split; [intros [? ?]; split; [done|by intros [= <-]]|intros [? Hne]; split; [by intros <-|done]]. }
  destruct (Hc _ _ _ Hk) as (conn0 & Hconn0 & _ & He0). fold c in Hconn0.
  split; cbn.
  - intros id d H1. destruct (Hd _ _ H1) as (conn' & H2 & <-). rewrite lookup_alter.
    case_decide as Ed; [rewrite Ed, H2|by eauto]. eexists. split; [done|]. by rewrite Hdev.
  - intros j b q [Hne Hj]%lookup_delete_Some. destruct (Hc _ _ _ Hj) as (conn' & Hq & [S1 S2] & He).
    rewrite lookup_alter. case_decide as Ed; [rewrite Ed, Hq|by exists conn'].
    eexists. split; [done|]. unfold serves. rewrite !Hdev. split; [done|].
    intros d id Hdi. apply Hpend. split; [by eapply He|]. intros Hp0.
    pose proof (He _ _ Hdi) as E1. pose proof (He0 _ _ Hp0) as E2. rewrite <-Ed in Hq. congruence.
  - intros d conn' id q Hdl Hq. rewrite lookup_alter in Hdl. case_decide as Ed.
    + subst d. rewrite Hconn0 in Hdl. injection Hdl as <-. apply Hpend in Hq as [Hq Hne].
      destruct (Hp _ _ _ _ Hconn0 Hq) as (b & p' & Hb & He). exists b, p'.
      rewrite lookup_delete_ne; [done|]. intros ->. simplify_eq.
    + destruct (Hp _ _ _ _ Hdl Hq) as (b & p' & Hb & He). exists b, p'.
      rewrite lookup_delete_ne; [done|]. intros ->. simplify_eq. by destruct Ed; rewrite (Hec _ _ He).
  - intros j resp [Hne Hj]%lookup_delete_Some. destruct (Hch _ _ Hj) as (b & q & d & id & ? & ?).
    exists b, q, d, id. by rewrite lookup_delete_ne.
  - intros d conn' Hdl. pose proof (inflight_delete d _ _ _ Hk) as Hm. cbn in Hm. rewrite Hsl in Hm.
    destruct (decide (c = d)) as [<-|Ed].
    + rewrite lookup_alter_eq, Hconn0 in Hdl. injection Hdl as <-. destruct (Hs _ _ Hconn0) as [E ?].
      rewrite decide_True in Hm by done. cbn. lia.
    + rewrite lookup_alter_ne in Hdl by done. rewrite decide_False in Hm by congruence.
      destruct (Hs _ _ Hdl) as [-> ?]. split; [lia|done].
Qed.

(** *** The steps of a call: the facts *)

(** A step of the calls in progress: they keep their arguments; new entries are
    opened and new waits are written by the step; ended calls are gone. *)
Lemma traced_step r r' log fs : wf r → traced r log →
  (∀ d, (λ conn, (d_ID (device conn), d_AccountID (device conn))) <$> conns r' !! d =
        (λ conn, (d_ID (device conn), d_AccountID (device conn))) <$> conns r !! d) →
  chans r' ⊆ chans r →
  (∀ k a p, calls r' !! k = Some (a, p) → (k ∉ omap has_returned fs) ∧
     ∃ p0, calls r !! k = Some (a, p0) ∧
       (∀ c id, entry p = Some (c, id) → entry p0 = Some (c, id) ∨ FOpened k c id ∈ fs ∧ entry p0 = None) ∧
       (∀ c id, p = AtWait c id → p0 = p ∨ FSent k c id (c_request a) ∈ fs)) →
  (omap opened fs = [] ∧ seq r' = seq r ∨
   omap opened fs = [pretty (seq r')] ∧ seq r' = (seq r + 1)%N) →
  NoDup (omap has_returned fs) → (∀ k, k ∈ omap has_returned fs → is_Some (calls r !! k)) →
  (∀ k c id q, FSent k c id q ∈ fs → FOpened k c id ∈ fs ++ log) →
  (∀ c dev, FPut c dev ∉ fs) →
  traced r' (fs ++ log).
Proof.
  intros Hwf [T1 T2 T3 T4 T5 T6 T7 T8 T9] Hconns Hchans Hcalls Hseq Hret Hlive Hsent Hput.
  assert (log ⊆ fs ++ log) as Hsub by (intros x Hx; apply elem_of_app; by right).
  assert (∀ k, k ∈ omap has_returned fs → k ∉ omap has_returned log) as Hnr.
  { intros k [[a p] Hk]%Hlive. by apply (T3 _ _ _ Hk). }
  split; rewrite ?omap_app.
  - intros c conn Hc. specialize (Hconns c). rewrite Hc in Hconns. symmetry in Hconns.
    apply fmap_Some in Hconns as (conn0 & H0 & [= E1 E2]). destruct (T1 _ _ H0) as (dev & ? & ? & ?).
    exists dev. split_and!; [auto|congruence..].
  - intros c dev [H1|H1]%elem_of_app; [by destruct (Hput c dev)|]. destruct (T2 _ _ H1) as (conn0 & H0 & E1 & E2).
    specialize (Hconns c). rewrite H0 in Hconns. apply fmap_Some in Hconns as (conn & Hc & [= ? ?]).
    exists conn. split_and!; [done|congruence..].
  - intros k a p Hk. destruct (Hcalls _ _ _ Hk) as (Hn & p0 & Hk0 & He & Hw).
    destruct (T3 _ _ _ Hk0) as (? & ? & H3 & H4). split; [auto|]. split; [rewrite elem_of_app; tauto|]. split.
    + intros c id [E|[E _]]%He; [auto|apply elem_of_app; by left].
    + intros c id E. destruct (Hw _ _ E) as [->|?]; [auto|apply elem_of_app; by left].
  - intros k resp a p c id Hr Hk E. pose proof (lookup_weaken _ _ _ _ Hr Hchans) as Hr0.
    destruct (Hcalls _ _ _ Hk) as (_ & p0 & Hk0 & He & _). destruct (He _ _ E) as [E0|[_ E0]].
    + apply (origin_mono log); [done|]. by eapply T4.
    + destruct (w_chan _ Hwf _ _ Hr0) as (a' & p' & c' & id' & ? & ?). simplify_eq.
  - rewrite length_app. destruct Hseq as [[-> ->]|[-> ->]]; cbn; [done|]. lia.
  - intros id Hid. destruct Hseq as [[E1 E2]|[E1 E2]]; rewrite E1 in Hid; cbn in Hid.
    + rewrite E2. auto.
    + apply elem_of_cons in Hid as [->|Hid]; [exists (seq r'); split; [done|lia]|].
      destruct (T6 _ Hid) as (n & -> & ?). exists n. split; [done|lia].
  - destruct T7 as [N1 N2]. split; [|apply NoDup_app; by auto].
    destruct Hseq as [[-> E2]|[-> E2]]; [done|]. apply NoDup_cons. split; [|done].
    intros (n & En%(inj pretty) & Hn)%T6. lia.
  - intros k c id q [H1|H1]%elem_of_app; [by eapply Hsent|]. by apply Hsub, (T8 _ _ _ q).
  - intros k [H1|H1]%elem_of_app; [|apply elem_of_app; right; auto].
    apply Hlive in H1 as [[a p] Hk]. destruct (T3 _ _ _ Hk) as [Hf _]. apply elem_of_app. right.
    apply list_elem_of_omap. by exists (FCalled k a).
Qed.

(** *** Every step *)
Definition ok r (log : list fact) : Prop := wf r ∧ traced r log.

Lemma ok_call k a r r' log fs : ok r log → k ∉ omap called log →
  call_lookup k a r = Some (r', fs) → ok r' ((returned k fs ++ [FCalled k a]) ++ log).
Proof.
  intros [Hwf Ht] Hk. unfold call_lookup. case_decide as Hn; [done|]. apply eq_None_not_Some in Hn.
  assert (k ∉ omap has_returned log) as Hnr by (intros Hx; apply Hk; exact (t_returned _ _ Ht _ Hx)).
  pose proof (traced_quiet r log [FCalled k a] ltac:(repeat constructor) Ht) as Ht1.
  assert (traced r ((returned k (Some (Err (EUnknownDevice (c_deviceID a)))) ++ [FCalled k a]) ++ log)) as Herr.
  { destruct Ht1 as [T1 T2 T3 T4 T5 T6 T7 T8 T9]. cbn in *.
    assert (FCalled k a :: log ⊆ FReturned k (Err (EUnknownDevice (c_deviceID a))) :: FCalled k a :: log)
      as Hsub by (by apply list_subseteq_cons).
    split; cbn; try done.
    - intros d conn Hd. destruct (T1 _ _ Hd) as (dev & ? & ?). exists dev. auto.
    - intros d dev [?|Hx]%elem_of_cons; [done|]. by apply T2.
    - intros j b p Hj. destruct (T3 _ _ _ Hj) as (? & ? & ? & ?). split_and!; auto.
      apply not_elem_of_cons. split; [|done]. intros ->. by rewrite Hn in Hj.
    - intros j resp b p d id H1 H2 H3. apply (origin_mono (FCalled k a :: log)); [done|]. by eapply T4.
    - destruct T7. split; [done|]. by apply NoDup_cons.
    - intros j d id q [?|Hx]%elem_of_cons; [done|]. by apply Hsub, (T8 _ _ _ q).
    - intros j [->|Hx]%elem_of_cons; [by left|]. by apply T9. }
  destruct (devices r !! c_deviceID a) as [c|] eqn:Ec; [|by intros [= <- <-]]. cbn.
  destruct (conns r !! c) as [conn|] eqn:Econn; cbn; [|by intros [= <- <-]].
  case_decide as Ha; [by intros [= <- <-]|]. intros [= <- <-]. cbn [returned app].
  destruct (w_device _ Hwf _ _ Ec) as (conn' & E & Eid). rewrite Econn in E. injection E as <-.
  split; [by apply (wf_called _ _ _ conn)|].
  destruct Ht1 as [T1 T2 T3 T4 T5 T6 T7 T8 T9]. split; try done.
  - cbn. intros j b p [[<- [= <- <-]]|[_ Hj]]%lookup_insert_Some; [|by apply T3].
    split; [by left|]. split; [done|]. by split; intros ??.
  - cbn. intros j resp b p d id H1 H2 H3.
    destruct (w_chan _ Hwf _ _ H1) as (b' & p' & d' & id' & H4 & H5).
    apply lookup_insert_Some in H2 as [[<- _]|[_ H2]]; [congruence|]. exact (T4 _ _ _ _ _ _ H1 H2 H3).
Qed.

Lemma ok_acquire k r r' log : ok r log → call_acquire k r = Some r' → ok r' log.
Proof.
  intros [Hwf Ht]. unfold call_acquire. destruct (calls r !! k) as [[a [c| | |]]|] eqn:Hk; try done.
  destruct (conns r !! c) as [conn|] eqn:Hc; [|done]. case_decide; [|done]. intros [= <-].
  split; [by apply wf_acquire|]. apply (traced_step r _ log []); try done.
  - intros d. cbn. rewrite lookup_alter. case_decide as Ed; [subst; by rewrite Hc|done].
  - cbn. intros j b p Hj. split; [by apply not_elem_of_nil|].
    apply lookup_insert_Some in Hj as [[<- [= <- <-]]|[_ Hj]]; [exists (AtSem c)|exists p]; auto.
    by split; [|split; [by intros ??|by intros ??]].
  - by left.
  - constructor.
  - by intros j Hj%elem_of_nil.
  - by intros j d id q Hj%elem_of_nil.
  - intros d dev. apply not_elem_of_nil.
Qed.

Lemma set_seq_id r : set_seq (seq r) r = r.
Proof. by destruct r. Qed.

Lemma wf_set_seq n r : wf r → wf (set_seq n r).
Proof. by intros [? ? ? ? ?]. Qed.

Lemma call_exit_eq k c id p r : entry p = Some (c, id) →
  call_exit k c id r = left k (update_conn (conn_of p) (left_conn p) r).
Proof.
  intros He. assert (conn_of p = c) as -> by (destruct p; by simplify_eq/=).
  unfold call_exit, release, update_conn, left_conn. rewrite He. f_equal. unfold set_conns. cbn. f_equal.
  by rewrite alter_alter_eq.
Qed.

(** The streams keep their places and their devices. *)
Lemma left_conn_same p c r d :
  (λ conn, (d_ID (device conn), d_AccountID (device conn))) <$>
    conns (update_conn c (left_conn p) r) !! d =
  (λ conn : AgentConn W, (d_ID (device conn), d_AccountID (device conn))) <$> conns r !! d.
Proof.
  rewrite update_conn_lookup. case_decide; [|done]. destruct (conns r !! d); [|done]. cbn.
  unfold left_conn. by destruct (entry p) as [[? ?]|].
Qed.

Lemma ok_exit k a p n r log fs : ok r log → calls r !! k = Some (a, p) → omap has_returned fs = [k] →
  (omap opened fs = [] ∧ n = seq r ∨ omap opened fs = [pretty n] ∧ n = (seq r + 1)%N) →
  (∀ j c id q, FSent j c id q ∉ fs) → (∀ c dev, FPut c dev ∉ fs) →
  ok (if decide (slot p = None) then left k (set_seq n r)
      else left k (update_conn (conn_of p) (left_conn p) (set_seq n r))) (fs ++ log).
Proof.
  intros [Hwf Ht] Hk Hr Ho Hs Hp. pose proof (wf_set_seq n r Hwf) as Hwf'. split.
  - case_decide as Hsl; [by apply (wf_left k a p)|]. apply (wf_exit k a); [done..|]. by destruct p.
  - apply (traced_step r); try done.
    + intros d. case_decide; [done|]. exact (left_conn_same p (conn_of p) (set_seq n r) d).
    + case_decide; apply delete_subseteq.
    + intros j b q Hj. assert (j ≠ k ∧ calls r !! j = Some (b, q)) as [Hne Hj'].
      { case_decide; cbn in Hj; apply lookup_delete_Some in Hj as [? ?]; by split. }
      rewrite Hr. split; [by intros ->%list_elem_of_singleton|]. exists q. split; [done|].
      split; [by left|by left].
    + destruct Ho as [[E1 E2]|[E1 E2]]; [left|right]; (split; [|by case_decide]); [done|].
      rewrite E1. by case_decide.
    + rewrite Hr. apply NoDup_singleton.
    + rewrite Hr. intros j ->%list_elem_of_singleton. by rewrite Hk.
    + intros j c id q Hx. by destruct (Hs j c id q).
Qed.

Lemma ok_exit_entry k a p c id res r log : ok r log → calls r !! k = Some (a, p) →
  entry p = Some (c, id) → ok (call_exit k c id r) (FReturned k res :: log).
Proof.
  intros Hok Hk He. rewrite (call_exit_eq _ _ _ p) by done.
  pose proof (ok_exit k a p (seq r) r log [FReturned k res] Hok Hk eq_refl) as Hx.
  rewrite set_seq_id, decide_False in Hx by (by destruct p). apply Hx; [by left|..];
    intros *; rewrite list_elem_of_singleton; done.
Qed.

Lemma entry_opened r log k a c : ok r log → calls r !! k = Some (a, AtOpen c) →
  (N.of_nat (S (length (omap opened log))) < 2 ^ 64)%N →
  next_seq (seq r) = (seq r + 1)%N ∧ ∃ conn, conns r !! c = Some conn ∧ pend conn !! pretty (next_seq (seq r)) = None.
Proof.
  intros [Hwf Ht] Hk Hlt. assert (next_seq (seq r) = (seq r + 1)%N) as En.
  { unfold next_seq. rewrite (t_seq _ _ Ht), N.mod_small; lia. }
  split; [done|]. rewrite En. destruct (w_call _ Hwf _ _ _ Hk) as (conn & Hc & _). exists conn. split; [done|].
  apply eq_None_not_Some. intros [q Hq]. destruct (w_pend _ Hwf _ _ _ _ Hc Hq) as (b & p & Hb & He).
  destruct (t_call _ _ Ht _ _ _ Hb) as (_ & _ & Ho & _). specialize (Ho _ _ He).
  assert (pretty (seq r + 1)%N ∈ omap opened log) as Hin.
  { apply list_elem_of_omap. by exists (FOpened (ch q) c (pretty (seq r + 1)%N)). }
  apply (t_opened _ _ Ht) in Hin as (n & E%(inj pretty) & ?). lia.
Qed.

Lemma ok_open k r r' res log : ok r log → call_open json_request k r = Some (r', res) →
  (N.of_nat (length (omap opened (open_facts k r ++ log))) < 2 ^ 64)%N →
  ok r' ((returned k res ++ open_facts k r) ++ log).
Proof.
  intros Hok. unfold call_open, open_facts. destruct (calls r !! k) as [[a [|c| |]]|] eqn:Hk; try done.
  intros Hst Hlt. cbn in Hlt. destruct (entry_opened _ _ _ _ _ Hok Hk Hlt) as (En & conn & Hc & Hid).
  rewrite En in *. destruct (json_request (c_request a)) as [payload|e]; injection Hst as <- <-; cbn [returned app].
  - destruct Hok as [Hwf Ht]. split; [by apply (wf_open _ _ _ _ _ conn)|].
    apply (traced_step r _ log [_]); try done; cbn.
    + intros d. rewrite lookup_alter. case_decide as Ed; [subst; by rewrite Hc|done].
    + intros j b p Hj. split; [apply not_elem_of_nil|].
      apply lookup_insert_Some in Hj as [[<- [= <- <-]]|[_ Hj]].
      * exists (AtOpen c). split; [done|]. split; [|done]. intros d id [= <- <-]. right. split; [by left|done].
      * exists p. split; [done|]. split; [by left|by left].
    + by right.
    + constructor.
    + by intros j Hj%elem_of_nil.
    + intros j d id q Hx%list_elem_of_singleton. done.
    + intros d dev Hx%list_elem_of_singleton. done.
  - pose proof (ok_exit k a _ (seq r + 1)%N r log [FReturned k (Err (EMarshal e)); FOpened k c (pretty (seq r + 1)%N)]
      Hok Hk eq_refl) as Hx.
    apply Hx; [by right|..]; intros *; rewrite !elem_of_cons; (intros [?|[?|Hy%elem_of_nil]]; done).
Qed.

Lemma ok_write pick k r r' res log : ok r log → call_write pick k r = Some (r', res) →
  ok r' (match res with Some res => [FReturned k res] | None => write_facts k r end ++ log).
Proof.
  intros Hok. unfold call_write, write_facts.
  destruct (calls r !! k) as [[a [| |c id payload|]]|] eqn:Hk; try done.
  destruct (conns r !! c) as [conn|] eqn:Hc; [cbn|done]. destruct (ws conn) as [w|]; [cbn|done].
  destruct (WriteJSON _ _ _) as [[w'|e]|]; [..|done]; intros [= <- <-].
  2:{ by apply (ok_exit_entry k a (AtWrite c id payload)). }
  destruct Hok as [Hwf Ht]. assert (same_conn (set_ws (Some w'))) as Hsame by (apply (same_set_ws (λ _, Some w'))).
  split.
  - by apply (wf_move k a (AtWrite c id payload)); [apply wf_same|..].
  - cbn [app]. apply (traced_step r _ log [_]); try done; cbn.
    + intros d. rewrite lookup_alter. case_decide as Ed; [subst; by rewrite Hc|done].
    + intros j b p Hj. split; [apply not_elem_of_nil|].
      apply lookup_insert_Some in Hj as [[<- [= <- <-]]|[_ Hj]].
      * exists (AtWrite c id payload). split; [done|]. split; [by left|]. intros d i [= <- <-]. right. by left.
      * exists p. split; [done|]. split; [by left|by left].
    + by left.
    + constructor.
    + by intros j Hj%elem_of_nil.
    + intros j d i q [= -> -> -> ->]%list_elem_of_singleton. right.
      destruct (t_call _ _ Ht _ _ _ Hk) as (_ & _ & Ho & _). by apply Ho.
    + intros d dev Hx%list_elem_of_singleton. done.
Qed.

(** *** Connections that come and go *)

Lemma ok_quiet r log fs : Forall quiet fs → ok r log → ok r (fs ++ log).
Proof. intros Hq [? ?]. split; [done|by apply traced_quiet]. Qed.

Lemma ok_same c f r log : same_conn f → ok r log → ok (update_conn c f r) log.
Proof. intros Hf [? ?]. split; [by apply wf_same|by apply traced_same]. Qed.

Lemma ok_fail c m r log : m ≠ "" → ok r log → FFailed c m ∈ log → ok (FailPending c m r) log.
Proof. intros ? [? ?] ?. by apply fail_ok. Qed.

Lemma ok_register c dev w r log : ok r log → conns r !! c = None →
  ok (set_reg_devices (<[d_ID dev := c]> (devices r))
        (set_conns (<[c := {| device := dev; ws := w; pend := ∅; sem := 0 |}]> (conns r)) r))
     (FPut c dev :: log).
Proof.
  intros [[Hd Hc Hp Hch Hs] [T1 T2 T3 T4 T5 T6 T7 T8 T9]] Hn.
  assert (∀ d conn, conns r !! d = Some conn → c ≠ d) as Hne by (intros d conn Hdl ->; congruence).
  assert (log ⊆ FPut c dev :: log) as Hsub by (by apply list_subseteq_cons). split; split; cbn; try done.
  - intros id d [[<- <-]|[_ Hx]]%lookup_insert_Some; [rewrite lookup_insert_eq; by eauto|].
    destruct (Hd _ _ Hx) as (conn & H1 & H2). exists conn. rewrite lookup_insert_ne; eauto.
  - intros k a p Hk. destruct (Hc _ _ _ Hk) as (conn & H1 & H2). exists conn. rewrite lookup_insert_ne; eauto.
  - intros d conn id q [[<- <-]|[_ H1]]%lookup_insert_Some H2; [cbn in H2; by apply lookup_empty_Some in H2|by eapply Hp].
  - intros d conn [[<- <-]|[_ H1]]%lookup_insert_Some; [|by apply Hs]. cbn. split; [|lia]. symmetry.
    apply map_size_empty_iff, map_empty. intros k. apply map_lookup_filter_None. right.
    intros [a p] Hk Hh. unfold holds in Hh. cbn in Hh. destruct (Hc _ _ _ Hk) as (conn & H1 & _). apply (Hne _ _ H1). by destruct p; simplify_eq/=.
  - intros d conn [[<- <-]|[_ H1]]%lookup_insert_Some; [exists dev; split; [by left|done]|].
    destruct (T1 _ _ H1) as (dev' & ? & ?). exists dev'. auto.
  - intros d dev' [[= -> ->]|H1]%elem_of_cons; [rewrite lookup_insert_eq; by eauto|].
    destruct (T2 _ _ H1) as (conn & H2 & ?). exists conn. rewrite lookup_insert_ne; eauto.
  - intros k a p Hk. destruct (T3 _ _ _ Hk) as (? & ? & ? & ?). split_and!; auto.
  - intros k resp a p d id H1 H2 H3. apply (origin_mono log); [done|]. by eapply T4.
  - intros k d id q [?|Hx]%elem_of_cons; [done|]. by apply Hsub, (T8 _ _ _ q).
Qed.

Lemma ok_put dev w r log : ok r log →
  let '(r', c) := Put dev w r in
  ok r' ((FPut c dev :: match devices r !! d_ID dev with
                        | Some old => [FFailed old "agent connection replaced"]
                        | None => []
                        end) ++ log).
Proof.
  intros Hok. unfold Put. set (c := fresh (dom (conns r))).
  assert (conns r !! c = None) as Hc by (apply not_elem_of_dom, is_fresh).
  destruct (devices r !! d_ID dev) as [old|]; [|exact (ok_register c dev w r log Hok Hc)].
  apply ok_same; [apply (same_set_ws (λ conn, Close <$> ws conn))|].
  apply ok_fail; [done| |by right; left]. cbn [app].
  refine (ok_register c dev w r (FFailed old "agent connection replaced" :: log) _ Hc).
  apply (ok_quiet r log [_]); [by repeat constructor|done].
Qed.

Lemma ok_remove id target r log : ok r log →
  ok (Remove id target r) (FFailed target "agent disconnected" :: log).
Proof.
  intros Hok. apply ok_fail; [done| |by left].
  apply (ok_quiet _ log [_]); [by repeat constructor|]. case_decide; [|done].
  destruct Hok as [[Hd Hc Hp Hch Hs] Ht]. split; [split; try done|by destruct Ht; split].
  cbn. intros i c [_ Hx]%lookup_delete_Some. by apply Hd.
Qed.

(** The state and the history a registry reaches are well-formed. *)
Lemma registry_reachable_ok n r log : reachable n r log → distinct_calls log → ok r log.
Proof.
  induction 1 as [|r log x r' fs _ IH Hst]; intros [Hn Hlt]; [split; [apply wf_new|apply traced_new]|].
  rewrite omap_app in Hn. rewrite omap_app, length_app in Hlt.
  assert (ok r log) as Hok. { apply IH. split; [by apply NoDup_app in Hn as (_ & _ & ?)|lia]. } clear IH.
  destruct x as [k a|k|k|pick k|k|k|dev w|id target|id|now id|c f|c id resp|c id payload]; cbn in Hst.
  - destruct (call_lookup k a r) as [[r1 res]|] eqn:E; [|done]. injection Hst as <- <-.
    apply (ok_call _ _ _ _ _ _ Hok); [|done]. apply NoDup_app in Hn as (_ & Hn & _).
    intros Hin. apply (Hn k); [|done]. rewrite omap_app, elem_of_app. right. by left.
  - destruct (call_acquire k r) as [r1|] eqn:E; [|done]. injection Hst as <- <-. by apply (ok_acquire k r).
  - destruct (call_open json_request k r) as [[r1 res]|] eqn:E; [|done]. injection Hst as <- <-.
    apply (ok_open _ _ _ _ _ Hok E). rewrite omap_app, !length_app in *. lia.
  - destruct (call_write pick k r) as [[r1 res]|] eqn:E; [|done]. injection Hst as <- <-.
    by apply (ok_write _ _ _ _ _ _ Hok E).
  - destruct (call_answer k r) as [[r1 res]|] eqn:E; [|done]. injection Hst as <- <-.
    unfold call_answer in E. destruct (calls r !! k) as [[a [| | |c id]]|] eqn:Hk; try done.
    destruct (chans r !! k); [|done]. injection E as <- <-. by apply (ok_exit_entry k a (AtWait c id)).
  - destruct (call_cancelled k r) as [[r1 res]|] eqn:E; [|done]. injection Hst as <- <-.
    unfold call_cancelled in E. destruct (calls r !! k) as [[a [c| | |c id]]|] eqn:Hk; try done; injection E as <- <-.
    + pose proof (ok_exit k a _ (seq r) r log [FReturned k (Err EContext)] Hok Hk eq_refl) as Hx.
      rewrite set_seq_id in Hx. apply Hx; [by left|..]; intros *; rewrite list_elem_of_singleton; done.
    + by apply (ok_exit_entry k a (AtWait c id)).
  - pose proof (ok_put dev w r log Hok) as Hx. injection Hst as <- <-. exact Hx.
  - injection Hst as <- <-. by apply ok_remove.
  - injection Hst as <- <-. unfold Disconnect. destruct (devices r !! id) as [c|]; cbn; [|done].
    apply ok_same; [apply (same_set_ws (λ conn, Close <$> ws conn))|]. apply ok_fail; [done| |by left].
    apply (ok_quiet r log [_]); [by repeat constructor|done].
  - injection Hst as <- <-. unfold Touch. destruct (devices r !! id) as [c|]; [|done].
    apply ok_same; [apply same_last_seen|done].
  - injection Hst as <- <-. apply ok_same; [apply (same_set_ws (λ conn, f <$> ws conn))|done].
  - injection Hst as <- <-. assert (ok r (FResponse c id resp :: log)) as [? ?].
    { apply (ok_quiet r log [_]); [by repeat constructor|done]. } apply deliver_ok; [done..|by left].
  - injection Hst as <- <-. apply ok_quiet; [|done].
    destruct (DeliverEvent c id r); repeat constructor.
Qed.
End inv.
