(* ===== verification/RegistrySpec.v ===== *)
(** * What the registry guarantees its callers

    Answers reach the call they answer, on the connection it used and inside its
    account; the calls in flight are bounded; and a caller of a lost connection
    is woken. *)

From stdpp Require Import pretty.
From S2P Require Import Prelude Entities Registry RegistryInv.
Open Scope Z_scope.

(** ** Accounts

    What the registry shows an account: its own devices. *)
Section accounts.
Context {W : Type} `{StreamConn W}.
Implicit Types r : Registry W.

Definition view (account : string) r : gmap string Device :=
  omap (λ k, c ← conns r !! k;
    if decide (d_AccountID (device c) = account) then Some (device c) else None) (devices r).

Lemma view_lookup account r id :
  view account r !! id = (c ← Get id r;
    if decide (d_AccountID (device c) = account) then Some (device c) else None).
Proof.
  unfold view, Get. rewrite lookup_omap. by destruct (devices r !! id).
Qed.

Lemma omap_nodup_map {A} (m : gmap string A) (order : list string) :
  NoDup order → (∀ id, is_Some (m !! id) → id ∈ order) →
  omap (m !!.) order ≡ₚ (map_to_list m).*2.
Proof.
  revert m. induction order as [|id order IH]; intros m Hn Hd.
  - assert (m = ∅) as ->; [|by rewrite map_to_list_empty].
    apply map_empty. intros i. destruct (m !! i) eqn:E; [|done].
    exfalso. eapply not_elem_of_nil, Hd. by rewrite E.
  - apply NoDup_cons in Hn as [Hni Hn].
    assert (omap (m !!.) order = omap (delete id m !!.) order) as Heq.
    { apply list_omap_ext, Forall_Forall2_diag, Forall_forall. intros x Hx.
      rewrite lookup_delete_ne; [done|]. by intros ->. }
    assert (omap (delete id m !!.) order ≡ₚ (map_to_list (delete id m)).*2) as HIH.
    { apply IH; [done|]. intros x [y [Hne Hy]%lookup_delete_Some].
      assert (x ∈ id :: order) as Hx by (apply Hd; by rewrite Hy).
      by apply elem_of_cons in Hx as [->|]. }
    cbn. destruct (m !! id) as [x|] eqn:E; rewrite Heq, HIH.
    + rewrite <-(insert_delete_id m id x E) at 2. rewrite map_to_list_insert by apply lookup_delete_eq. done.
    + by rewrite delete_id.
Qed.

(** The devices an account lists are those of its view. *)
Lemma ListAccount_view account r order :
  NoDup order → (∀ id, id ∈ order ↔ is_Some (devices r !! id)) →
  ListAccount order account r ≡ₚ set_online <$> (map_to_list (view account r)).*2.
Proof.
  intros Hn Ho. rewrite <-(omap_nodup_map _ order); [|done|].
  - unfold ListAccount. rewrite list_fmap_omap. apply reflexive_eq, list_omap_ext, Forall_Forall2_diag, Forall_forall.
    intros id _. cbn. rewrite view_lookup. destruct (Get id r) as [c|]; [|done]. cbn.
    by repeat case_decide.
  - intros id. rewrite view_lookup, Ho. unfold Get. destruct (devices r !! id); [done|]. by intros [].
Qed.

(** Accounts are isolated: what a caller of an account learns from the
    registry, its device list, a device's workspaces, and whether a call finds
    its device, is a function of the devices of that account alone. A device of
    another account answers exactly as one that does not exist. *)
Theorem accounts_isolated account r order :
  NoDup order → (∀ id, id ∈ order ↔ is_Some (devices r !! id)) →
  ListAccount order account r ≡ₚ set_online <$> (map_to_list (view account r)).*2 ∧
  ∀ id,
    Workspaces account id r = match view account r !! id with
                              | Some d => Ok (match d_Workspaces d with Some [] => None | l => l end)
                              | None => Err (EUnknownDevice id)
                              end ∧
    ∀ k a, c_account a = account → c_deviceID a = id → calls r !! k = None → view account r !! id = None →
      call_lookup k a r = Some (r, Some (Err (EUnknownDevice id))).
Proof.
  intros Hn Ho. split; [by apply ListAccount_view|intros id; split].
  - rewrite view_lookup. unfold Workspaces. destruct (Get id r) as [c|]; [|done]. cbn.
    case_decide as E1; case_decide as E2; try done; by destruct (d_Workspaces (device c)) as [[|]|].
  - intros k a <- <- Hk. rewrite view_lookup. unfold Get, call_lookup. rewrite Hk.
    rewrite decide_False by (by intros []).
    destruct (devices r !! c_deviceID a) as [c|]; [|done]. cbn.
    destruct (conns r !! c) as [conn|]; cbn; [|done]. by repeat case_decide.
Qed.
End accounts.

(** ** Calls *)
Section calls.
Context {W : Type} `{StreamConn W}.
Variable json_request : AgentRequest → result string string.
Implicit Types r : Registry W.

(** The call asked a device of its account, over one of its connections, and this
    is the answer that came for its request there, or what the loss of that
    connection left in its place. *)
Definition answered (log : list fact) (k : nat) (a : callArgs) (res : result call_err string) : Prop :=
  ∃ c id dev resp, FPut c dev ∈ log ∧ d_ID dev = c_deviceID a ∧ d_AccountID dev = c_account a ∧
    FSent k c id (c_request a) ∈ log ∧ answer_of resp = res ∧
    (FResponse c id resp ∈ log ∨
     ∃ m, FFailed c m ∈ log ∧ resp = {| resp_OK := false; resp_Data := ""; resp_Error := m |}).

Definition explained (log : list fact) (k : nat) (res : result call_err string) : Prop :=
  ∃ a, FCalled k a ∈ log ∧
    match res with
    | Ok _ | Err (EAgent _) => answered log k a res
    | Err (EUnknownDevice d) => d = c_deviceID a
    | Err EContext | Err (EMarshal _) | Err (EWrite _) => True
    end.

Lemma explained_mono (log log' : list fact) k res : log ⊆ log' → explained log k res → explained log' k res.
Proof.
  intros Hs (a & Ha & Hx). exists a. split; [auto|].
  assert (answered log k a res → answered log' k a res).
  { intros (c & id & dev & resp & ? & ? & ? & ? & ? & Ho). exists c, id, dev, resp. split_and!; auto.
    destruct Ho as [?|(m & ? & ?)]; [left; auto|right; exists m; auto]. }
  destruct res as [|[]]; auto.
Qed.

Lemma step_explained r log x r' fs k res : ok r log → step json_request r x = Some (r', fs) →
  FReturned k res ∈ fs → explained (fs ++ log) k res.
Proof.
  intros [Hwf Ht] Hst Hin.
  assert (log ⊆ fs ++ log) as Hsub by (intros f Hf; apply elem_of_app; by right).
  destruct x as [j a|j|j|pick j|j|j|dev w|id target|id|now id|c f|c id resp|c id payload]; cbn in Hst.
  - destruct (call_lookup j a r) as [[r1 o]|] eqn:E; [|done]. injection Hst as <- <-.
    apply elem_of_app in Hin as [Hin|Hin]; [|by apply list_elem_of_singleton in Hin].
    destruct o as [o|]; [|by apply elem_of_nil in Hin].
    apply list_elem_of_singleton in Hin. injection Hin as -> ->. exists a. split; [by right; left|].
    unfold call_lookup in E. case_decide; [done|]. repeat case_match; by simplify_eq.
  - destruct (call_acquire j r); [|done]. injection Hst as <- <-. by apply elem_of_nil in Hin.
  - destruct (call_open json_request j r) as [[r1 o]|] eqn:E; [|done]. injection Hst as <- <-.
    unfold call_open in E. unfold open_facts in *. destruct (calls r !! j) as [[a [|c| |]]|] eqn:Hk; try done.
    apply elem_of_app in Hin as [Hin|Hin]; [|by apply list_elem_of_singleton in Hin].
    destruct (json_request (c_request a)); injection E as <- <-; [by apply elem_of_nil in Hin|].
    apply list_elem_of_singleton in Hin. injection Hin as -> ->. exists a. split; [|done].
    apply Hsub, (t_call _ _ Ht _ _ _ Hk).
  - destruct (call_write pick j r) as [[r1 o]|] eqn:E; [|done]. injection Hst as <- <-.
    unfold call_write in E. unfold write_facts in *. destruct (calls r !! j) as [[a [| |c id p|]]|] eqn:Hk; try done.
    destruct (conns r !! c); [cbn in E|done]. destruct (ws a0); [cbn in E|done].
    destruct (WriteJSON _ _ _) as [[|e]|]; [..|done]; injection E as <- <-;
      apply list_elem_of_singleton in Hin; [done|]. injection Hin as -> ->. exists a. split; [|done].
    apply Hsub, (t_call _ _ Ht _ _ _ Hk).
  - destruct (call_answer j r) as [[r1 o]|] eqn:E; [|done]. injection Hst as <- <-.
    apply list_elem_of_singleton in Hin. injection Hin as -> ->. unfold call_answer in E.
    destruct (calls r !! j) as [[a [| | |c id]]|] eqn:Hk; try done.
    destruct (chans r !! j) as [resp|] eqn:Hr; [|done]. injection E as <- <-.
    destruct (t_call _ _ Ht _ _ _ Hk) as (Hf & _ & _ & Hw).
    apply (explained_mono log); [done|]. exists a. split; [done|].
    destruct (w_call _ Hwf _ _ _ Hk) as (conn & Hc & [S1 S2] & _).
    destruct (t_conn _ _ Ht _ _ Hc) as (dev & Hp & E1 & E2).
    assert (answered log j a (answer_of resp)) as Ha.
    { exists c, id, dev, resp. split_and!; [done|congruence|congruence|by apply Hw|done|].
      by apply (t_chan _ _ Ht _ _ _ _ _ _ Hr Hk). }
    unfold answer_of in *. by destruct (resp_OK resp).
  - destruct (call_cancelled j r) as [[r1 o]|] eqn:E; [|done]. injection Hst as <- <-.
    apply list_elem_of_singleton in Hin. injection Hin as -> ->. unfold call_cancelled in E.
    destruct (calls r !! j) as [[a p]|] eqn:Hk; [|done]. exists a.
    split; [apply Hsub, (t_call _ _ Ht _ _ _ Hk)|]. destruct p; try done; by injection E as <- <-.
  - injection Hst as <- <-. apply elem_of_cons in Hin as [?|Hin]; [done|].
    destruct (devices r !! d_ID dev); [by apply list_elem_of_singleton in Hin|by apply elem_of_nil in Hin].
  - injection Hst as <- <-. by apply list_elem_of_singleton in Hin.
  - injection Hst as <- <-. destruct (devices r !! id); [by apply list_elem_of_singleton in Hin|by apply elem_of_nil in Hin].
  - injection Hst as <- <-. by apply elem_of_nil in Hin.
  - injection Hst as <- <-. by apply elem_of_nil in Hin.
  - injection Hst as <- <-. by apply list_elem_of_singleton in Hin.
  - injection Hst as <- <-. apply elem_of_app in Hin as [Hin|Hin]; [|by apply list_elem_of_singleton in Hin].
    destruct (DeliverEvent c id r); [by apply list_elem_of_singleton in Hin|by apply elem_of_nil in Hin].
Qed.

Lemma distinct_tail (fs log : list fact) : distinct_calls (fs ++ log) → distinct_calls log.
Proof.
  unfold distinct_calls. rewrite !omap_app, NoDup_app, length_app. intros [(_ & _ & ?) ?]. split; [done|lia].
Qed.

Lemma returned_explained n r log : reachable json_request n r log → distinct_calls log →
  ∀ k res, FReturned k res ∈ log → explained log k res.
Proof.
  induction 1 as [|r log x r' fs Hr IH Hst]; intros Hd k res Hin; [by apply elem_of_nil in Hin|].
  pose proof (distinct_tail _ _ Hd) as Hd'. apply elem_of_app in Hin as [Hin|Hin].
  - eapply step_explained; [by eapply registry_reachable_ok|done|done].
  - apply (explained_mono log); [intros f Hf; apply elem_of_app; by right|by apply IH].
Qed.


(** The calls in flight are bounded: at any time at most [maxInflight] calls of
    one connection are past its semaphore; the slots taken are exactly those of
    these calls, and the pending entries are exactly theirs, so that none is
    left behind when the calls have returned. *)
Theorem inflight_bounded n r log c conn : reachable json_request n r log → distinct_calls log →
  conns r !! c = Some conn →
  sem conn = inflight c (calls r) ∧ (inflight c (calls r) ≤ maxInflight r)%nat ∧
  ∀ id k, (∃ e, pend conn !! id = Some {| ch := k; onEvent := e |}) ↔
    ∃ a p, calls r !! k = Some (a, p) ∧ entry p = Some (c, id).
Proof.
  intros Hr Hd Hc. destruct (registry_reachable_ok _ _ _ _ Hr Hd) as [Hwf _].
  destruct (w_sem _ Hwf _ _ Hc) as [E Hle]. split; [done|]. split; [by rewrite <-E|]. intros id k. split.
  - intros [e Hp]. exact (w_pend _ Hwf _ _ _ _ Hc Hp).
  - intros (a & p & Hk & He). destruct (w_call _ Hwf _ _ _ Hk) as (conn' & Hc' & _ & Hp).
    assert (conn_of p = c) as Ec by (destruct p; by simplify_eq/=). rewrite Ec in Hc'. simplify_eq.
    exists (c_onEvent a). exact (Hp _ _ He).
Qed.

(** The loss of a connection wakes its callers: once its pending calls are
    failed, a call that waits on it can return at once, with the answer that
    had already come or with the notice. *)
Theorem fail_pending_wakes n r log c m k a id : reachable json_request n r log → distinct_calls log →
  calls r !! k = Some (a, AtWait c id) →
  ∃ r' res, call_answer k (FailPending c m r) = Some (r', res) ∧
    (chans r !! k = None → res = Err (EAgent (if decide (m = "") then "agent disconnected" else m))).
Proof.
  intros Hr Hd Hk. destruct (registry_reachable_ok _ _ _ _ Hr Hd) as [Hwf _].
  destruct (w_call _ Hwf _ _ _ Hk) as (conn & Hc & _ & Hp). specialize (Hp _ _ eq_refl). cbn in Hc.
  unfold FailPending. rewrite Hc. set (m' := if decide (m = "") then _ else m).
  set (resp := {| resp_OK := false; resp_Data := ""; resp_Error := m' |}).
  assert (k ∈ waiters conn) as Hw by (apply waiters_spec; by exists id, {| ch := k; onEvent := c_onEvent a |}).
  destruct (offer_fills resp (chans r) _ _ Hw) as [x Hx].
  unfold call_answer. cbn [calls set_chans chans]. rewrite Hk, Hx. cbn. do 2 eexists. split; [done|].
  intros Hn. apply offer_lookup in Hx as [Hx|[-> _]]; [congruence|]. unfold answer_of. cbn.
  rewrite decide_False; [done|]. unfold m'. by case_decide.
Qed.
End calls.

(** Two accounts, one call answered and one that waits. *)
Section example.
Instance queue : StreamConn (list Envelope) := {
  WriteJSON _ e q := Some (Ok (q ++ [e]));
  Close q := []
}.
Let json (q : AgentRequest) : result string string := Ok (req_Tool q).
Let dev (id account : string) : Device := {|
  d_ID := id; d_Name := id; d_AccountID := account; d_Version := "1"; d_Online := true; d_ConnectedAt := 0;
  d_LastSeen := 0; d_Workspaces := Some []; d_ToolPolicy := None |}.
Let asks (id account : string) : callArgs := {|
  c_account := account; c_deviceID := id;
  c_request := {| req_Tool := "read"; req_Workspace := "w"; req_Args := ∅ |}; c_onEvent := false |}.
Let answer : AgentResponse := {| resp_OK := true; resp_Data := "data"; resp_Error := "" |}.

Let history : list (@action (list Envelope)) := [
  APut (dev "a" "A") (Some []); APut (dev "b" "B") (Some []);
  ACall 0 (asks "a" "A"); ACall 1 (asks "b" "A"); AAcquire 0; AOpen 0; AWrite true 0;
  ADeliver 0 "1" answer; AAnswer 0; ACall 2 (asks "a" "A"); AAcquire 2; AOpen 2; AWrite true 2].

Let final : option (Registry (list Envelope) * list fact) := run_actions json (NewRegistry []) history.

Lemma final_ok r log : final = Some (r, log) → reachable json [] r log ∧ distinct_calls log.
Proof.
  intros E. split; [rewrite <-(app_nil_r log); exact (run_actions_reachable _ _ _ _ _ _ _ (reach_new json []) E)|].
  vm_compute in E. injection E as _ <-. split; [|reflexivity].
  apply (bool_decide_unpack _ (dec := NoDup_dec _)). vm_compute. exact I.
Qed.


Lemma inflight_bounded_witness : ∃ r log conn, final = Some (r, log) ∧ conns r !! 0%nat = Some conn ∧
  sem conn = 1%nat ∧ sem conn = inflight 0 (calls r) ∧ (inflight 0 (calls r) ≤ 8)%nat.
Proof.
  destruct final as [[r log]|] eqn:E; [|vm_compute in E; discriminate].
  destruct (final_ok r log E) as [Hr Hd].
  assert (∃ conn, conns r !! 0%nat = Some conn ∧ sem conn = 1%nat ∧ maxInflight r = 8%nat) as (conn & Hc & Hs & Hm).
  { clear Hr Hd. vm_compute in E. injection E as <- _. vm_compute. eexists. repeat split. }
  exists r, log, conn. split; [reflexivity|]. split; [exact Hc|]. split; [exact Hs|].
  destruct (inflight_bounded json [] r log 0 conn Hr Hd Hc) as (H1 & H2 & _). rewrite Hm in H2. by split.
Defined.

Lemma fail_pending_wakes_witness : ∃ r log, final = Some (r, log) ∧
  ∃ r' res, call_answer 2 (FailPending 0 "agent disconnected" r) = Some (r', res) ∧
    res = Err (EAgent "agent disconnected").
Proof.
  destruct final as [[r log]|] eqn:E; [|vm_compute in E; discriminate]. exists r, log.
  split; [reflexivity|]. destruct (final_ok r log E) as [Hr Hd].
  assert (calls r !! 2%nat = Some (asks "a" "A", AtWait 0 "2") ∧ chans r !! 2%nat = None) as [H1 H2].
  { clear Hr Hd. vm_compute in E. injection E as <- _. by split. }
  destruct (fail_pending_wakes json [] r log 0 "agent disconnected" 2 _ "2" Hr Hd H1) as (r' & res & H3 & H4).
  exists r', res. split; [exact H3|exact (H4 H2)].
Defined.

Lemma accounts_isolated_witness : ∃ r log, final = Some (r, log) ∧
  (d_ID <$> ListAccount ["a"; "b"] "A" r) = ["a"] ∧
  ListAccount ["a"; "b"] "A" r ≡ₚ set_online <$> (map_to_list (view "A" r)).*2.
Proof.
  destruct final as [[r log]|] eqn:E; [|vm_compute in E; discriminate]. exists r, log.
  split; [reflexivity|].
  assert (NoDup ["a"; "b"] ∧ (∀ id, id ∈ ["a"; "b"] ↔ is_Some (devices r !! id)) ∧
    (d_ID <$> ListAccount ["a"; "b"] "A" r) = ["a"]) as (H1 & H2 & H3).
  { assert (devices r = {["a" := 0%nat; "b" := 1%nat]} ∧ (d_ID <$> ListAccount ["a"; "b"] "A" r) = ["a"]) as [-> ?].
    { vm_compute in E. injection E as <- _. by split. }
    split; [apply (bool_decide_unpack _ (dec := NoDup_dec _)); vm_compute; exact I|]. split; [|done].
    intros id. rewrite <-elem_of_dom, dom_insert, dom_singleton, elem_of_union, !elem_of_singleton.
    rewrite !elem_of_cons, elem_of_nil. tauto. }
  split; [exact H3|]. exact (proj1 (accounts_isolated "A" r ["a"; "b"] H1 H2)).
Defined.
End example.
