(* ===== verification/GoPath.v ===== *)
(** * Paths and the file tree

    [path/filepath] of Go's standard library on Unix and the file-system calls
    of [os] the modelled code makes, as far as it uses them. A relative path is
    a string; an absolute path that is clean is the list of its names. The tree
    maps such paths to files, directories and symbolic links; [walk] is the
    resolution of a path by the kernel, by [filepath.EvalSymlinks], and, with a
    jail, by the operations of an [os.Root]. *)

From S2P Require Import Prelude GoStrings.
Open Scope Z_scope.

(** ** Splitting and joining *)

Definition slash_char : Ascii.ascii := Ascii.ascii_of_N 47.

(** [strings.Split(s, sep)] for a separator of one byte: there is always a
    first part. *)
Fixpoint Split (sep : Ascii.ascii) (s : string) : list string :=
  match s with
  | EmptyString => [""]
  | String c s =>
      if decide (c = sep) then "" :: Split sep s
      else match Split sep s with
           | p :: ps => String c p :: ps
           | [] => [String c ""]
           end
  end.

(** [strings.Join(l, sep)]. *)
Fixpoint Join (sep : string) (l : list string) : string :=
  match l with
  | [] => ""
  | [x] => x
  | x :: l => x +:+ sep +:+ Join sep l
  end.

Definition no_sep (sep : Ascii.ascii) (s : string) : Prop := sep ∉ String.list_ascii_of_string s.
#[export] Instance no_sep_dec sep s : Decision (no_sep sep s).
Proof. unfold no_sep. apply _. Defined.

(** ** [path/filepath] *)

Definition IsAbs (s : string) : bool := HasPrefix s "/".

(** One part of a path on the names before it, last one first. *)
Definition clean_step (rooted : bool) (stack : list string) (part : string) : list string :=
  if bool_decide (part = "") || bool_decide (part = ".") then stack
  else if decide (part = "..") then
    match stack with
    | [] => if rooted then [] else [".."]
    | top :: rest => if decide (top = "..") then ".." :: stack else rest
    end
  else part :: stack.

(** The names of a cleaned path. *)
Definition clean_parts (rooted : bool) (s : string) : list string :=
  reverse (foldl (clean_step rooted) [] (Split slash_char s)).

Definition render (names : list string) : string :=
  match names with [] => "." | _ => Join "/" names end.

Definition Clean (s : string) : string :=
  if decide (s = "") then "."
  else if IsAbs s then "/" +:+ Join "/" (clean_parts true s)
  else render (clean_parts false s).

(** [filepath.Join] of a directory and a name. *)
Definition join_dir (dir name : string) : string := if decide (dir = "") then name else Clean (dir +:+ "/" +:+ name).

(** [filepath.Dir] and [filepath.Base] of a clean relative path. *)
Definition Dir_of (s : string) : string := render (removelast (clean_parts false s)).

(** [filepath.Ext]: from the last dot of the name; [acc] is the extension found so far. *)
Fixpoint ext_from (acc : string) (s : string) : string :=
  match s with
  | EmptyString => acc
  | String c s' => ext_from (if decide (c = Ascii.ascii_of_N 46) then s
                             else if decide (c = slash_char) then "" else acc) s'
  end.
Definition Ext (s : string) : string := ext_from "" s.

Abbreviation abspath := (list string).

(** [filepath.Join(base, rel)] for an absolute, clean [base]. *)
Definition Join_path (base : abspath) (rel : string) : abspath :=
  reverse (foldl (clean_step true) (reverse base) (Split slash_char rel)).

Fixpoint Rel_parts (base target : abspath) : list string :=
  match base, target with
  | b :: base', t :: target' =>
      if decide (b = t) then Rel_parts base' target' else ((λ _, "..") <$> base) ++ target
  | _, _ => ((λ _, "..") <$> base) ++ target
  end.
(** [filepath.Rel] of absolute paths, which does not fail. *)
Definition Rel (base target : abspath) : string := render (Rel_parts base target).

(** [filepath.Base] of an absolute path. *)
Definition Base (p : abspath) : string := default "/" (last p).

(** ** The file tree *)

Inductive node : Type :=
| File (content : string) (mode : Z)
| Dir
| Link (target : string).

#[export] Instance node_eq_dec : EqDecision node.
Proof. solve_decision. Defined.

Abbreviation tree := (gmap abspath node).

Definition node_at (t : tree) (p : abspath) : option node :=
  match p with [] => Some Dir | _ => t !! p end.

Inductive io_err : Type :=
| ENOENT | ENOTDIR | EISDIR | EEXIST | ENOTEMPTY | ELOOP | EACCES | EESCAPES | EIO.

#[export] Instance io_err_eq_dec : EqDecision io_err.
Proof. solve_decision. Defined.

(** Resolution of the parts [todo] from the directory [base], following at most
    [links] symbolic links, the last one only with [follow]. A part that does
    not exist may only be the last. In a jail, [..] above it and absolute links
    are refused. *)
Fixpoint walk (jail : option abspath) (t : tree) (follow : bool) (links : nat) {struct links} :
    abspath → list string → result io_err (abspath * option node) :=
  fix go (base : abspath) (todo : list string) {struct todo} :=
    match todo with
    | [] => Ok (base, node_at t base)
    | part :: rest =>
        if bool_decide (part = "") || bool_decide (part = ".") then go base rest
        else if decide (part = "..") then
          if bool_decide (jail = Some base) then Err EESCAPES else go (removelast base) rest
        else
          let p := base ++ [part] in
          match t !! p with
          | None => if decide (rest = []) then Ok (p, None) else Err ENOENT
          | Some Dir => go p rest
          | Some (File c m) => if decide (rest = []) then Ok (p, Some (File c m)) else Err ENOTDIR
          | Some (Link target) =>
              if bool_decide (rest = []) && negb follow then Ok (p, Some (Link target))
              else
                match links with
                | O => Err ELOOP
                | S links =>
                    if IsAbs target
                    then match jail with
                         | Some _ => Err EESCAPES
                         | None => walk jail t follow links [] (Split slash_char target ++ rest)
                         end
                    else walk jail t follow links base (Split slash_char target ++ rest)
                end
          end
    end.

(** A name as a part of a path: not empty, no dots alone, no slash. *)
Definition plain (name : string) : Prop :=
  name ≠ "" ∧ name ≠ "." ∧ name ≠ ".." ∧ no_sep slash_char name.
#[export] Instance plain_dec name : Decision (plain name).
Proof. unfold plain. apply _. Defined.

Record limits : Type := { eval_links : nat; kernel_links : nat; root_links : nat }.

Section calls.
Context (lim : limits) (t : tree).

Definition EvalSymlinks (p : abspath) : result io_err abspath :=
  match walk None t true (eval_links lim) [] p with
  | Ok (q, Some _) => Ok q
  | Ok (_, None) => Err ENOENT
  | Err e => Err e
  end.

Definition stat (follow : bool) (p : abspath) : result io_err node :=
  match walk None t follow (kernel_links lim) [] p with
  | Ok (_, Some n) => Ok n
  | Ok (_, None) => Err ENOENT
  | Err e => Err e
  end.
Definition Lstat : abspath → result io_err node := stat false.
Definition Stat : abspath → result io_err node := stat true.

(** [os.OpenRoot]: the directory the handle stands for. *)
Definition OpenRoot (root : abspath) : result io_err abspath :=
  match walk None t true (kernel_links lim) [] root with
  | Ok (q, Some Dir) => Ok q
  | Ok (_, Some _) => Err ENOTDIR
  | Ok (_, None) => Err ENOENT
  | Err e => Err e
  end.

(** Where a name leads in the directory of an [os.Root]. *)
Definition root_walk (r : abspath) (follow : bool) (name : string) : result io_err (abspath * option node) :=
  if IsAbs name then Err EESCAPES
  else walk (Some r) t follow (root_links lim) r (Split slash_char name).
End calls.

(** ** Lemmas on strings and lists of parts *)

Lemma split_no_sep sep s : no_sep sep s → Split sep s = [s].
Proof.
  unfold no_sep. induction s as [|c s IH]; simpl; [done|]. intros H.
  apply not_elem_of_cons in H as [H1 H2]. rewrite decide_False by congruence. by rewrite IH.
Qed.

Lemma split_app sep p s : no_sep sep p → Split sep (p +:+ String sep s) = p :: Split sep s.
Proof.
  unfold no_sep. induction p as [|c p IH]; simpl; intros H.
  - by rewrite decide_True.
  - apply not_elem_of_cons in H as [H1 H2]. rewrite decide_False by congruence. by rewrite IH.
Qed.

Lemma Join_cons x y l : Join "/" (x :: y :: l) = x +:+ String slash_char (Join "/" (y :: l)).
Proof. done. Qed.

Lemma split_join l : l ≠ [] → Forall (no_sep slash_char) l → Split slash_char (Join "/" l) = l.
Proof.
  induction l as [|x l IH]; [done|]. intros _ H. apply Forall_cons in H as [Hx Hl].
  destruct l as [|y l]; [by apply split_no_sep|].
  rewrite Join_cons, split_app by done. f_equal. by apply IH.
Qed.

Lemma split_parts sep s : Forall (no_sep sep) (Split sep s).
Proof.
  induction s as [|c s IH]; simpl; [repeat constructor; apply not_elem_of_nil|].
  case_decide; [constructor; [apply not_elem_of_nil|done]|].
  destruct (Split sep s) as [|p ps]; [by repeat constructor; unfold no_sep; cbn; rewrite list_elem_of_singleton|].
  apply Forall_cons in IH as [Hp Hps]. constructor; [|done].
  unfold no_sep in *; cbn. rewrite not_elem_of_cons. split; congruence.
Qed.

(** What a cleaned relative path looks like: dots first, then plain names. *)
Definition clean_shape (stack : list string) : Prop :=
  ∃ k names, stack = names ++ replicate k ".." ∧ Forall plain names.

Lemma clean_step_shape rooted stack part : no_sep slash_char part → clean_shape stack →
  clean_shape (clean_step rooted stack part).
Proof.
  intros Hp (k & names & -> & Hn). unfold clean_step.
  destruct (bool_decide (part = "")) eqn:E1; cbn; [by exists k, names|].
  destruct (bool_decide (part = ".")) eqn:E2; cbn; [by exists k, names|].
  apply bool_decide_eq_false in E1, E2. case_decide as E3.
  - destruct names as [|n names]; cbn.
    + destruct k; cbn; [destruct rooted; [by exists 0%nat, []|by exists 1%nat, []]|].
      exists (S (S k)), []. split; [done|constructor].
    + apply Forall_cons in Hn as [(?&?&?&?) Hn]. rewrite decide_False by done. by exists k, names.
  - exists k, (part :: names). split; [done|]. constructor; [done|done].
Qed.

Lemma clean_fold_shape rooted parts stack : Forall (no_sep slash_char) parts → clean_shape stack →
  clean_shape (foldl (clean_step rooted) stack parts).
Proof.
  revert stack. induction parts as [|p ps IH]; intros stack Hp Hs; cbn; [done|].
  apply Forall_cons in Hp as [? ?]. apply IH; [done|]. by apply clean_step_shape.
Qed.

Lemma clean_parts_shape rooted s : ∃ k names,
  clean_parts rooted s = replicate k ".." ++ names ∧ Forall plain names.
Proof.
  destruct (clean_fold_shape rooted (Split slash_char s) []) as (k & names & E & H);
    [apply split_parts|by exists 0%nat, []|].
  exists k, (reverse names). unfold clean_parts. rewrite E, reverse_app, reverse_replicate.
  split; [done|]. by apply Forall_reverse.
Qed.

Lemma plain_no_sep names : Forall plain names → Forall (no_sep slash_char) names.
Proof. intros H. eapply Forall_impl; [exact H|]. by intros x (_ & _ & _ & ?). Qed.

Lemma dots_no_slash : no_sep slash_char "..".
Proof. apply (bool_decide_unpack _). by vm_compute. Qed.

Lemma dots_no_sep k : Forall (no_sep slash_char) (replicate k "..").
Proof. apply Forall_replicate, dots_no_slash. Qed.

Lemma Clean_rel s : IsAbs s = false → Clean s = render (clean_parts false s).
Proof. unfold Clean. intros ->. by case_decide as E; [rewrite E|]. Qed.

Lemma split_render names : Forall (no_sep slash_char) names →
  Split slash_char (render names) = match names with [] => ["."] | _ => names end.
Proof. intros H. destruct names as [|n names]; [done|]. by apply split_join. Qed.

(** The stack of a cleaned path in clean form. *)
Lemma clean_fold_names rooted stack names : Forall plain names →
  foldl (clean_step rooted) stack names = reverse names ++ stack.
Proof.
  revert stack. induction names as [|n names IH]; intros stack H; [done|].
  apply Forall_cons in H as [(?&?&?&?) Hn]. cbn [foldl]. rewrite IH by done.
  unfold clean_step. rewrite !bool_decide_eq_false_2, decide_False by done.
  cbn [orb]. by rewrite reverse_cons, <-(assoc_L app).
Qed.

Lemma clean_fold_dots k j : foldl (clean_step false) (replicate j "..") (replicate k "..") = replicate (k + j) "..".
Proof.
  revert j. induction k as [|k IH]; intros j; [done|]. cbn [replicate foldl].
  replace (clean_step false (replicate j "..") "..") with (replicate (S j) ".."); [|by destruct j].
  rewrite IH. f_equal. lia.
Qed.

Lemma clean_parts_render k names : Forall plain names →
  clean_parts false (render (replicate k ".." ++ names)) = replicate k ".." ++ names.
Proof.
  intros H. unfold clean_parts.
  rewrite split_render by (apply Forall_app; split; [apply dots_no_sep|by apply plain_no_sep]).
  destruct (replicate k ".." ++ names) eqn:E; [done|]. rewrite <-E, foldl_app.
  pose proof (clean_fold_dots k 0) as Hd. rewrite Nat.add_0_r in Hd. cbn [replicate] in Hd.
  rewrite Hd, clean_fold_names by done.
  by rewrite reverse_app, reverse_involutive, reverse_replicate.
Qed.

Lemma Join_path_render base names : Forall plain names → Join_path base (render names) = base ++ names.
Proof.
  intros H. unfold Join_path. rewrite split_render by by apply plain_no_sep.
  destruct names as [|n names].
  { change (reverse (reverse base) = base ++ []). by rewrite reverse_involutive, app_nil_r. }
  rewrite clean_fold_names by done. by rewrite reverse_app, !reverse_involutive.
Qed.

(** ** A path that climbs *)

(** [p == ".." || strings.HasPrefix(p, "../")] *)
Definition climbs (p : string) : bool := bool_decide (p = "..") || HasPrefix p "../".

Lemma HasPrefix_slash x y l : no_sep slash_char x → HasPrefix (Join "/" (x :: y :: l)) "../" = true → x = "..".
Proof.
  rewrite Join_cons, HasPrefix_spec. intros Hx [r Hr].
  assert (Split slash_char (x +:+ String slash_char (Join "/" (y :: l))) = Split slash_char ("../" +:+ r)) as E
    by by rewrite Hr.
  rewrite split_app in E by done. change ("../" +:+ r) with (".." +:+ String slash_char r) in E.
  rewrite split_app in E by apply dots_no_slash. by injection E.
Qed.

Lemma climbs_render k names : Forall plain names →
  climbs (render (replicate k ".." ++ names)) = bool_decide (k ≠ 0%nat).
Proof.
  intros H. unfold climbs. destruct k as [|k].
  - rewrite (bool_decide_eq_false_2 (0%nat ≠ 0%nat)) by auto. cbn [replicate app].
    destruct names as [|x [|y l]]; [done| |]; apply Forall_cons in H as [(?&?&?&Hs) _].
    + cbn. rewrite bool_decide_eq_false_2 by done. destruct (HasPrefix x "../") eqn:E; [|done].
      apply HasPrefix_spec in E as [r ->]. exfalso. apply Hs. cbn. set_unfold. tauto.
    + unfold render. rewrite bool_decide_eq_false_2.
      * destruct (HasPrefix _ _) eqn:E; [|done]. by apply HasPrefix_slash in E.
      * intros E. apply (f_equal (Split slash_char)) in E. rewrite Join_cons, split_app in E by done. by injection E.
  - rewrite (bool_decide_eq_true_2 (S k ≠ 0%nat)) by lia. cbn [replicate app]. destruct (replicate k ".." ++ names) as [|y l] eqn:E.
    + done.
    + unfold render. rewrite Join_cons. 
      change (".." +:+ String slash_char (Join "/" (y :: l))) with ("../" +:+ Join "/" (y :: l)).
      by rewrite HasPrefix_app, orb_true_r.
Qed.

(** [filepath.Rel] climbs exactly out of what is not below the base. *)
Lemma Rel_parts_prefix base q : Rel_parts base (base ++ q) = q.
Proof. induction base as [|b base IH]; cbn; [done|]. by rewrite decide_True. Qed.

Lemma Rel_parts_cases base target :
  (∃ q, target = base ++ q) ∨
  ∃ k q, Rel_parts base target = replicate (S k) ".." ++ q ∧ q `suffix_of` target.
Proof.
  revert target. induction base as [|b base IH]; intros target; [left; by exists target|].
  assert (∀ l : list string, (λ _, "..") <$> l = replicate (length l) "..") as Hl.
  { intros l. induction l as [|y l IHl]; [done|]. cbn. by f_equal. }
  destruct target as [|x target]; cbn [Rel_parts].
  - right. exists (length base), []. by rewrite Hl.
  - case_decide as E.
    + subst x. destruct (IH target) as [[q ->]|(k & q & E & Hq)]; [left; by exists q|].
      right. exists k, q. split; [done|]. by apply suffix_cons_r.
    + right. exists (length base), (x :: target). by rewrite Hl.
Qed.

Lemma climbs_Rel base target : Forall plain target →
  climbs (Rel base target) = false ↔ ∃ q, target = base ++ q.
Proof.
  intros Hp. unfold Rel. split.
  - intros H. destruct (Rel_parts_cases base target) as [?|(k & q & E & Hq)]; [done|].
    rewrite E, climbs_render, bool_decide_eq_true_2 in H; [done|done|].
    destruct Hq as [l ->]. by apply Forall_app in Hp as [_ ?].
  - intros [q ->]. rewrite Rel_parts_prefix. apply Forall_app in Hp as [_ Hq]. apply (climbs_render 0 q Hq).
Qed.

(** ** Resolution *)

Section walk.
Context (jail : option abspath) (t : tree) (follow : bool).

Lemma walk_nil links base : walk jail t follow links base [] = Ok (base, node_at t base).
Proof. by destruct links. Qed.

Lemma walk_cons links base part rest :
  walk jail t follow links base (part :: rest) =
    if bool_decide (part = "") || bool_decide (part = ".") then walk jail t follow links base rest
    else if decide (part = "..") then
      if bool_decide (jail = Some base) then Err EESCAPES else walk jail t follow links (removelast base) rest
    else
      let p := base ++ [part] in
      match t !! p with
      | None => if decide (rest = []) then Ok (p, None) else Err ENOENT
      | Some Dir => walk jail t follow links p rest
      | Some (File c m) => if decide (rest = []) then Ok (p, Some (File c m)) else Err ENOTDIR
      | Some (Link target) =>
          if bool_decide (rest = []) && negb follow then Ok (p, Some (Link target))
          else
            match links with
            | O => Err ELOOP
            | S links =>
                if IsAbs target
                then match jail with
                     | Some _ => Err EESCAPES
                     | None => walk jail t follow links [] (Split slash_char target ++ rest)
                     end
                else walk jail t follow links base (Split slash_char target ++ rest)
            end
      end.
Proof. by destruct links. Qed.

(** Induction along a resolution that succeeds: the cases are its moves. *)
Lemma walk_rect (P : nat → abspath → list string → abspath * option node → Prop) :
  (∀ links base, P links base [] (base, node_at t base)) →
  (∀ links base part rest x, part = "" ∨ part = "." → P links base rest x → P links base (part :: rest) x) →
  (∀ links base rest x, jail ≠ Some base → P links (removelast base) rest x → P links base (".." :: rest) x) →
  (∀ links base part o, part ≠ "" ∧ part ≠ "." ∧ part ≠ ".." → t !! (base ++ [part]) = o →
     match o with Some Dir => False | Some (Link _) => follow = false | _ => True end →
     P links base [part] (base ++ [part], o)) →
  (∀ links base part rest x, part ≠ "" ∧ part ≠ "." ∧ part ≠ ".." → t !! (base ++ [part]) = Some Dir →
     P links (base ++ [part]) rest x → P links base (part :: rest) x) →
  (∀ links base part rest target x, part ≠ "" ∧ part ≠ "." ∧ part ≠ ".." →
     t !! (base ++ [part]) = Some (Link target) → (rest ≠ [] ∨ follow = true) →
     IsAbs target = true ∧ jail = None ∧ P links [] (Split slash_char target ++ rest) x ∨
     IsAbs target = false ∧ P links base (Split slash_char target ++ rest) x →
     P (S links) base (part :: rest) x) →
  ∀ links base todo x, walk jail t follow links base todo = Ok x → P links base todo x.
Proof.
  intros Hnil Hskip Hup Hlast Hdir Hlink links.
  induction links as [|links IHl]; intros base todo; revert base;
    (induction todo as [|part rest IH]; intros base x; [rewrite walk_nil; intros [= <-]; apply Hnil|]);
    rewrite walk_cons;
    (destruct (bool_decide (part = "") || bool_decide (part = ".")) eqn:E1;
      [apply orb_true_iff in E1 as [E1|E1]; apply bool_decide_eq_true in E1; eauto|]);
    apply orb_false_iff in E1 as [E1%bool_decide_eq_false E2%bool_decide_eq_false];
    (case_decide as E3; [subst; case_bool_decide; [done|eauto]|]); cbv zeta;
    (destruct (t !! (base ++ [part])) as [[c m| |target]|] eqn:En;
      [case_decide; [subst; intros [= <-]; by apply Hlast|done]|by eauto| |
       case_decide; [subst; intros [= <-]; by apply Hlast|done]]);
    (destruct (bool_decide (rest = []) && negb follow) eqn:E4;
      [apply andb_true_iff in E4 as [->%bool_decide_eq_true E4%negb_true_iff]; intros [= <-]; by apply Hlast|]);
    [done|].
  apply andb_false_iff in E4. rewrite bool_decide_eq_false, negb_false_iff in E4.
  destruct (IsAbs target) eqn:Ea.
  - destruct jail eqn:Ej; [done|]. intros Hw. eapply Hlink; eauto 7.
  - intros Hw. eapply Hlink; eauto 7.
Qed.
End walk.

(** All directories above a path are directories: it goes through no link. *)
Definition above (t : tree) (p : abspath) : Prop :=
  ∀ k, (k < length p)%nat → node_at t (take k p) = Some Dir.

Definition dir_at (t : tree) (p : abspath) : Prop := above t p ∧ node_at t p = Some Dir.

Lemma node_at_snoc t p part : node_at t (p ++ [part]) = t !! (p ++ [part]).
Proof. by destruct p. Qed.

Lemma dir_at_root t : dir_at t [].
Proof. split; [|done]. intros k Hk. cbn in Hk. lia. Qed.

Lemma above_snoc t p part : dir_at t p → above t (p ++ [part]).
Proof.
  intros [Ha Hd] k Hk. rewrite length_app in Hk. cbn in Hk. destruct (decide (k = length p)) as [->|].
  - by rewrite take_app_length.
  - rewrite take_app_le by lia. apply Ha. lia.
Qed.

Lemma removelast_take (p : abspath) : removelast p = take (length p - 1) p.
Proof.
  induction p as [|x p IH]; [done|]. destruct p as [|y p]; [done|].
  change (removelast (x :: y :: p)) with (x :: removelast (y :: p)). rewrite IH. cbn. by rewrite Nat.sub_0_r.
Qed.

Lemma dir_at_up t p : dir_at t p → dir_at t (removelast p).
Proof.
  intros [Ha Hd]. destruct p as [|x p]; [apply dir_at_root|]. rewrite removelast_take. split.
  - intros k Hk. rewrite take_take. apply Ha. rewrite length_take in Hk. cbn in Hk |- *. lia.
  - apply Ha. cbn. lia.
Qed.

(** Where a resolution ends: below directories only, and at a link only when it
    was not to be followed. *)
Lemma walk_above jail t follow links base todo x :
  walk jail t follow links base todo = Ok x → dir_at t base →
  above t x.1 ∧ x.2 = node_at t x.1 ∧ (follow = true → ∀ target, x.2 ≠ Some (Link target)).
Proof.
  apply (walk_rect jail t follow (λ _ base _ x, dir_at t base →
    above t x.1 ∧ x.2 = node_at t x.1 ∧ (follow = true → ∀ target, x.2 ≠ Some (Link target)))); cbn; clear.
  - intros _ base [Ha Hd]. split; [done|]. split; [done|]. by rewrite Hd.
  - auto.
  - intros _ base rest x _ IH Hb. by apply IH, dir_at_up.
  - intros _ base part o _ Ho Hc Hb. split; [by apply above_snoc|]. rewrite node_at_snoc. split; [done|].
    intros -> target ->. by subst.
  - intros _ base part rest x _ Hn IH Hb. apply IH. split; [by apply above_snoc|]. by rewrite node_at_snoc.
  - intros _ base part rest target x _ _ _ [(_ & _ & IH)|(_ & IH)] Hb; [apply IH, dir_at_root|by apply IH].
Qed.

(** A jail holds, and what is found in it is found without it. *)
Lemma walk_inside r t follow links base todo x :
  walk (Some r) t follow links base todo = Ok x → r `prefix_of` base → r `prefix_of` x.1.
Proof.
  apply (walk_rect (Some r) t follow (λ _ base _ x, r `prefix_of` base → r `prefix_of` x.1)); cbn; clear.
  - done.
  - auto.
  - intros _ base rest x Hr IH [q ->]. apply IH. destruct q as [|y q] using rev_ind; [by rewrite app_nil_r in Hr|].
    rewrite (assoc_L app), removelast_last. by apply prefix_app_r.
  - intros _ base part o _ _ _ Hb. by apply prefix_app_r.
  - intros _ base part rest x _ _ IH Hb. by apply IH, prefix_app_r.
  - intros _ base part rest target x _ _ _ [(_ & ? & _)|(_ & IH)] Hb; [done|by apply IH].
Qed.

Lemma walk_free jail t follow links base todo x :
  walk jail t follow links base todo = Ok x →
  ∀ links', (links ≤ links')%nat → walk None t follow links' base todo = Ok x.
Proof.
  apply (walk_rect jail t follow (λ links base todo x,
    ∀ links', (links ≤ links')%nat → walk None t follow links' base todo = Ok x)); clear.
  - intros. apply walk_nil.
  - intros links base part rest x Hp IH l Hl. rewrite walk_cons.
    destruct Hp as [-> | ->]; cbn [bool_decide orb]; by apply IH.
  - intros links base rest x _ IH l Hl. rewrite walk_cons. cbn. by apply IH.
  - intros links base part o (?&?&?) Ho Hc l Hl. rewrite walk_cons, !bool_decide_eq_false_2, decide_False by done.
    cbn. rewrite Ho. destruct o as [[| |]|]; try done. by rewrite Hc.
  - intros links base part rest x (?&?&?) Hn IH l Hl.
    rewrite walk_cons, !bool_decide_eq_false_2, decide_False by done. cbn. rewrite Hn. by apply IH.
  - intros links base part rest target x (?&?&?) Hn Hr IH l Hl.
    rewrite walk_cons, (bool_decide_eq_false_2 (part = "")), (bool_decide_eq_false_2 (part = ".")), decide_False by done.
    cbn. rewrite Hn. destruct (bool_decide (rest = []) && negb follow) eqn:E.
    + apply andb_true_iff in E as [E1%bool_decide_eq_true ->%negb_true_iff]. by destruct Hr.
    + destruct l as [|l]; [lia|]. destruct IH as [(-> & _ & IH)|(-> & IH)]; apply IH; lia.
Qed.

(** What is found by following links is there without following the last one. *)
Lemma walk_nofollow t links base todo x :
  walk None t true links base todo = Ok x → is_Some x.2 →
  ∃ y, walk None t false links base todo = Ok y ∧ is_Some y.2.
Proof.
  apply (walk_rect None t true (λ links base todo x, is_Some x.2 →
    ∃ y, walk None t false links base todo = Ok y ∧ is_Some y.2)); clear.
  - intros links base Hs. rewrite walk_nil. eexists. split; [reflexivity|exact Hs].
  - intros links base part rest x Hp IH Hs. rewrite walk_cons.
    destruct Hp as [-> | ->]; cbn [bool_decide orb]; by apply IH.
  - intros links base rest x _ IH Hs. rewrite walk_cons. cbn. by apply IH.
  - intros links base part o (?&?&?) Ho Hc Hs. rewrite walk_cons, !bool_decide_eq_false_2, decide_False by done.
    cbn. rewrite Ho. destruct o as [[| |]|]; try done; (eexists; split; [reflexivity|exact Hs]).
  - intros links base part rest x (?&?&?) Hn IH Hs.
    rewrite walk_cons, !bool_decide_eq_false_2, decide_False by done. cbn. rewrite Hn. by apply IH.
  - intros links base part rest target x (?&?&?) Hn Hr IH Hs.
    rewrite walk_cons, (bool_decide_eq_false_2 (part = "")), (bool_decide_eq_false_2 (part = ".")), decide_False by done.
    cbn. rewrite Hn. destruct (bool_decide (rest = [])); cbn; [eexists; split; [reflexivity|by eexists]|].
    destruct IH as [(-> & _ & IH)|(-> & IH)]; by apply IH.
Qed.

(** The names of what is found are plain when those of the base are. *)
Lemma walk_plain jail t follow links base todo x :
  walk jail t follow links base todo = Ok x →
  Forall plain base → Forall (no_sep slash_char) todo → Forall plain x.1.
Proof.
  apply (walk_rect jail t follow (λ _ base todo x,
    Forall plain base → Forall (no_sep slash_char) todo → Forall plain x.1)); cbn; clear.
  - done.
  - intros _ base part rest x _ IH Hb Ht. apply Forall_cons in Ht as [_ Ht]. auto.
  - intros _ base rest x _ IH Hb Ht. apply Forall_cons in Ht as [_ Ht]. apply IH; [|done].
    rewrite removelast_take. by apply Forall_take.
  - intros _ base part o (?&?&?) _ _ Hb Ht. apply Forall_cons in Ht as [? _]. apply Forall_app; by repeat constructor.
  - intros _ base part rest x (?&?&?) _ IH Hb Ht. apply Forall_cons in Ht as [? Ht].
    apply IH; [|done]. apply Forall_app; by repeat constructor.
  - intros _ base part rest target x _ _ _ IH Hb Ht. apply Forall_cons in Ht as [_ Ht].
    destruct IH as [(_ & _ & IH)|(_ & IH)]; (apply IH; [done|]);
      (apply Forall_app; split; [apply split_parts|done]).
Qed.

Lemma walk_plain_cons jail t follow links base part rest : plain part →
  t !! (base ++ [part]) = Some Dir →
  walk jail t follow links base (part :: rest) = walk jail t follow links (base ++ [part]) rest.
Proof.
  intros (?&?&?&_) Hn. rewrite walk_cons, !bool_decide_eq_false_2, decide_False by done. cbn. by rewrite Hn.
Qed.

(** Directories are walked through name by name. *)
Lemma walk_down jail t follow links base p rest : Forall plain p →
  dir_at t (base ++ p) →
  walk jail t follow links base (p ++ rest) = walk jail t follow links (base ++ p) rest.
Proof.
  revert base. induction p as [|x p IH]; intros base Hp Hd; [by rewrite app_nil_r|].
  apply Forall_cons in Hp as [Hx Hp]. cbn [app].
  replace (base ++ x :: p) with ((base ++ [x]) ++ p) in * by by rewrite <-(assoc_L app).
  rewrite walk_plain_cons; [by apply IH|done|].
  destruct Hd as [Ha Hn]. destruct p as [|y p]; [by rewrite app_nil_r, node_at_snoc in Hn|].
  specialize (Ha (length (base ++ [x]))). rewrite take_app_length, node_at_snoc in Ha.
  apply Ha. rewrite !length_app. cbn. lia.
Qed.

(** A path through no link leads to itself. *)
Lemma walk_physical jail t follow links base p : Forall plain p →
  (∀ k, (k < length p)%nat → node_at t (base ++ take k p) = Some Dir) → node_at t base = Some Dir →
  (∀ target, node_at t (base ++ p) ≠ Some (Link target)) →
  walk jail t follow links base p = Ok (base ++ p, node_at t (base ++ p)).
Proof.
  revert base. induction p as [|x p IH]; intros base Hp Ha Hb Hl; [by rewrite walk_nil, app_nil_r|].
  apply Forall_cons in Hp as [Hx Hp].
  replace (base ++ x :: p) with ((base ++ [x]) ++ p) in * by by rewrite <-(assoc_L app).
  destruct p as [|y p].
  - rewrite app_nil_r in *. destruct Hx as (?&?&?&_).
    rewrite walk_cons, !bool_decide_eq_false_2, decide_False by done. cbn.
    rewrite node_at_snoc in *. destruct (t !! (base ++ [x])) as [[| |tg]|] eqn:E; try done.
    + by rewrite walk_nil, node_at_snoc, E.
    + by specialize (Hl tg).
  - assert (node_at t (base ++ [x]) = Some Dir) as Hd by (apply (Ha 1%nat); cbn; lia).
    rewrite walk_plain_cons; [|done|by rewrite node_at_snoc in Hd]. apply IH; [done| |done|done].
    intros k Hk. specialize (Ha (S k)). cbn [take] in Ha. rewrite <-(assoc_L app). apply Ha. cbn in Hk |- *. lia.
Qed.
