(* ===== verification/Paths.v ===== *)
(** * Workspace paths and the sensitive-file policy (agentops/security.go, sensitive.go)

    Which path of the file tree a caller's workspace-relative path stands for,
    and which paths the local policy blocks. *)

From S2P Require Import Prelude GoStrings GoPath.
Open Scope Z_scope.

Inductive error_class : Type := NotFound | PermissionDenied | Failed.

Inductive path_err : Type :=
| EWorkspaceRoot                              (* workspace root is unavailable *)
| EAbsolute
| EEscape
| EPath (action path : string) (c : error_class)
| ESensitive (path : string)
| ERootSensitive
| EInvalid (what : string).                   (* the request itself is refused *)

#[export] Instance error_class_eq_dec : EqDecision error_class.
Proof. solve_decision. Defined.
#[export] Instance path_err_eq_dec : EqDecision path_err.
Proof. solve_decision. Defined.

Definition logicalPath (rel : string) : string :=
  let rel := TrimSpace rel in
  if decide (rel = "") then "." else Clean rel.

Definition logicalChildPath (dir name : string) : string :=
  let dir := logicalPath dir in
  if decide (dir = ".") then name else Clean (dir +:+ "/" +:+ name).

Definition safePathError (action rel : string) (e : io_err) : path_err :=
  EPath action (logicalPath rel)
    (match e with ENOENT => NotFound | EACCES => PermissionDenied | _ => Failed end).

Definition contained (root target : abspath) : bool := negb (climbs (Rel root target)).

(** ** sensitive.go *)

Definition sensitiveDirNames : list string :=
  [".git"; ".ssh"; ".gnupg"; ".aws"; ".azure"; ".kube"; ".docker"; ".secrets"].

Definition sensitiveBaseNames : list string :=
  [".envrc"; ".npmrc"; ".pypirc"; ".netrc"; ".git-credentials"; "id_rsa"; "id_dsa"; "id_ecdsa"; "id_ed25519"].

Definition isSafeEnvExample (base : string) : bool :=
  one_of base [".env.example"; ".env.sample"; ".env.template"; ".env.dist"].

Definition isSensitivePath (rel : string) : bool :=
  let clean := logicalPath rel in
  if decide (clean = ".") then false
  else
    let parts := Split slash_char (ToLower clean) in
    let base := default "" (last parts) in
    existsb (λ part, one_of part sensitiveDirNames) parts ||
    one_of base sensitiveBaseNames ||
    bool_decide (base = ".env") ||
    (HasPrefix base ".env." && negb (isSafeEnvExample base)) ||
    (HasSuffix base ".tfstate" || Contains base ".tfstate." ||
     HasSuffix base ".tfvars" || HasSuffix base ".tfvars.json") ||
    one_of (ToLower (Ext base)) [".pem"; ".key"; ".p12"; ".pfx"; ".jks"; ".keystore"].

Definition sensitivePathError (rel : string) : path_err := ESensitive (logicalPath rel).

(** ** Resolution under a workspace root *)

Section resolve.
Context (lim : limits) (t : tree).

(** [root] is what [filepath.Abs] makes of the configured root. *)
Definition ResolveUnderRoot (root : abspath) (rel : string) : result path_err abspath :=
  match EvalSymlinks lim t root with
  | Err _ => Err EWorkspaceRoot
  | Ok rootReal =>
      if bool_decide (rel = "") || bool_decide (rel = ".") then Ok rootReal
      else if IsAbs rel then Err EAbsolute
      else
        let clean := Clean rel in
        if climbs clean then Err EEscape
        else
          let joined := Join_path rootReal clean in
          let candidate :=
            match Lstat lim t joined with
            | Ok _ => match EvalSymlinks lim t joined with
                      | Ok real => Ok real
                      | Err e => Err (safePathError "resolve path" rel e)
                      end
            | Err _ => Ok joined
            end in
          match candidate with
          | Err e => Err e
          | Ok candidate =>
              if contained rootReal candidate then Ok candidate
              else
                let rootReal := match EvalSymlinks lim t root with Ok link => link | Err _ => rootReal end in
                if contained rootReal candidate then Ok candidate else Err EEscape
          end
  end.

Definition openWorkspaceRoot (root : abspath) : result path_err abspath :=
  match OpenRoot lim t root with Ok r => Ok r | Err _ => Err EWorkspaceRoot end.

Section policy.
Context (AllowSensitiveFiles : bool).

Definition resolveWorkspaceRoot (root : abspath) : result path_err abspath :=
  match ResolveUnderRoot root "." with
  | Err e => Err e
  | Ok rootReal =>
      if negb AllowSensitiveFiles && isSensitivePath (Base rootReal) then Err ERootSensitive
      else Ok rootReal
  end.

Definition resolveAllowedPath (root : abspath) (rel : string) : result path_err abspath :=
  if negb AllowSensitiveFiles && isSensitivePath rel then Err (sensitivePathError rel)
  else
    match resolveWorkspaceRoot root with
    | Err e => Err e
    | Ok rootReal =>
        match ResolveUnderRoot root rel with
        | Err e => Err e
        | Ok target =>
            if AllowSensitiveFiles then Ok target
            else if isSensitivePath (Rel rootReal target) then Err (sensitivePathError rel)
            else Ok target
        end
    end.
End policy.
End resolve.

(** ** What a resolved path is *)

Lemma Clean_names rel : IsAbs rel = false → climbs (Clean rel) = false →
  ∃ names, Clean rel = render names ∧ Forall plain names.
Proof.
  intros Ha. rewrite Clean_rel by done. destruct (clean_parts_shape false rel) as (k & names & -> & Hn).
  rewrite climbs_render, bool_decide_eq_false by done. intros H.
  destruct k; [by exists names|]. destruct H. lia.
Qed.

Lemma plain_not_abs names : Forall plain names → IsAbs (render names) = false.
Proof.
  intros H. destruct (IsAbs (render names)) eqn:E; [|done]. unfold IsAbs in E.
  apply HasPrefix_spec in E as [r E]. apply (f_equal (Split slash_char)) in E.
  rewrite split_render in E by by apply plain_no_sep. change ("/" +:+ r) with ("" +:+ String slash_char r) in E.
  rewrite split_app in E by apply not_elem_of_nil. destruct names as [|x names]; [done|].
  injection E as -> _. apply Forall_cons in H as [[? _] _]. done.
Qed.

Lemma walk_render jail t follow links base names : Forall plain names →
  walk jail t follow links base (Split slash_char (render names)) = walk jail t follow links base names.
Proof.
  intros H. rewrite split_render by by apply plain_no_sep. destruct names; [|done]. by rewrite walk_cons.
Qed.

Section spec.
Context (lim : limits) (t : tree).

Lemma EvalSymlinks_ok p q : Forall (no_sep slash_char) p → EvalSymlinks lim t p = Ok q →
  Forall plain q ∧ above t q ∧ (∃ n, node_at t q = Some n ∧ ∀ target, n ≠ Link target).
Proof.
  unfold EvalSymlinks. intros Hp H. destruct (walk _ _ _ _ _ _) as [[x [n|]]|] eqn:E; [|done..].
  injection H as <-. pose proof (walk_above _ _ _ _ _ _ _ E (dir_at_root t)) as (? & Ho & Hf). cbn in *.
  split; [by apply (walk_plain _ _ _ _ _ _ _ E)|]. split; [done|]. exists n. split; [done|].
  intros target ->. by apply (Hf eq_refl target).
Qed.

Lemma ResolveUnderRoot_ok root rel target : Forall plain root →
  ResolveUnderRoot lim t root rel = Ok target →
  ∃ rootReal, EvalSymlinks lim t root = Ok rootReal ∧
    ((rel = "" ∨ rel = ".") ∧ target = rootReal ∨
     ∃ names q, IsAbs rel = false ∧ Clean rel = render names ∧ Forall plain names ∧
       target = rootReal ++ q ∧ Forall plain target ∧
       (is_ok (Lstat lim t (rootReal ++ names)) = true ∧ EvalSymlinks lim t (rootReal ++ names) = Ok target ∨
        is_ok (Lstat lim t (rootReal ++ names)) = false ∧ target = rootReal ++ names)).
Proof.
  unfold ResolveUnderRoot. intros Hr H. destruct (EvalSymlinks lim t root) as [rootReal|] eqn:E; [|done].
  pose proof (EvalSymlinks_ok _ _ (plain_no_sep _ Hr) E) as (Hp & _).
  exists rootReal. split; [done|].
  destruct (bool_decide (rel = "") || bool_decide (rel = ".")) eqn:E1.
  { apply orb_true_iff in E1. rewrite !bool_decide_eq_true in E1. injection H as <-. by left. }
  destruct (IsAbs rel) eqn:E2; [done|]. destruct (climbs (Clean rel)) eqn:E3; [done|].
  destruct (Clean_names rel E2 E3) as (names & Hc & Hn). rewrite Hc, Join_path_render in H by done.
  right. exists names.
  assert (∀ x, Forall plain x →
    (if contained rootReal x then Ok x else if contained rootReal x then Ok x else Err EEscape) = Ok target →
    ∃ q, x = rootReal ++ q ∧ target = x) as Hcon.
  { unfold contained. intros x Hx Hk. destruct (climbs (Rel rootReal x)) eqn:Ec; [done|].
    apply climbs_Rel in Ec as [q ->]; [|done]. exists q. by injection Hk. }
  destruct (Lstat lim t (rootReal ++ names)) eqn:EL.
  - destruct (EvalSymlinks lim t (rootReal ++ names)) as [x|] eqn:Ex; [|done].
    assert (Forall plain x) as Hx.
    { apply (EvalSymlinks_ok _ _ (plain_no_sep _ (proj2 (Forall_app _ _ _) (conj Hp Hn))) Ex). }
    destruct (Hcon x Hx H) as (q & -> & ->). exists q. repeat (split; [done|]). by left.
  - assert (Forall plain (rootReal ++ names)) as Hx by by apply Forall_app.
    destruct (Hcon _ Hx H) as (q & Hq & ->). exists q. repeat (split; [done|]). by right.
Qed.

(** What an [os.Root] finds under a name is what the path resolves to. *)
Lemma root_walk_resolved r names x n : (root_links lim ≤ eval_links lim)%nat →
  Forall plain r → dir_at t r → Forall plain names →
  root_walk lim t r true (render names) = Ok (x, Some n) →
  EvalSymlinks lim t (r ++ names) = Ok x ∧ r `prefix_of` x ∧
  ((root_links lim ≤ kernel_links lim)%nat → is_ok (Lstat lim t (r ++ names)) = true).
Proof.
  unfold root_walk. intros Hl Hr Hd Hn H. rewrite plain_not_abs, walk_render in H by done.
  split; [|split].
  - unfold EvalSymlinks. rewrite walk_down by done. cbn [app]. by rewrite (walk_free _ _ _ _ _ _ _ H).
  - by apply (walk_inside _ _ _ _ _ _ _ H).
  - intros Hk. unfold Lstat, stat. rewrite walk_down by done. cbn [app].
    destruct (walk_nofollow t (kernel_links lim) r names (x, Some n)) as ([y o] & E & [m Hm]); [by apply (walk_free _ _ _ _ _ _ _ H)|done|].
    cbn in Hm. by rewrite E, Hm.
Qed.

(** The root as a handle and the root as a resolved path are the same directory. *)
Lemma openWorkspaceRoot_ok root r : (kernel_links lim ≤ eval_links lim)%nat → Forall plain root →
  openWorkspaceRoot lim t root = Ok r →
  EvalSymlinks lim t root = Ok r ∧ dir_at t r ∧ Forall plain r.
Proof.
  unfold openWorkspaceRoot, OpenRoot. intros Hl Hp H.
  destruct (walk _ _ _ _ _ _) as [[x [[| |]|]]|] eqn:E; try done. injection H as <-.
  assert (EvalSymlinks lim t root = Ok x) as He.
  { unfold EvalSymlinks. by rewrite (walk_free _ _ _ _ _ _ _ E). }
  split; [done|]. pose proof (EvalSymlinks_ok _ _ (plain_no_sep _ Hp) He) as (? & ? & _).
  split; [|done]. split; [done|]. by pose proof (walk_above _ _ _ _ _ _ _ E (dir_at_root t)) as (_ & Ho & _).
Qed.
End spec.
