(* ===== verification/FileOps.v ===== *)
(** * Reading tools (agentops/ops.go)

    [list] and [read] of a workspace, the filters the git tools apply, and the
    small readers of request arguments. A file or directory that the kernel does
    not let the client read is the environment's [fault]; the order of a
    directory's entries and the size of what is no file are its choices too. *)

From S2P Require Import Prelude GoStrings Json GoPath Paths.
Open Scope Z_scope.

Definition maxReadBytes : Z := 256 * 1024.
Definition maxOutputBytes : Z := 512 * 1024.
Definition maxDirectoryEntries : Z := 1000.

Record Service : Type := {
  Roots : gmap string abspath;
  AllowSensitiveFiles : bool;
  Writable : gmap string bool
}.

Record DirEntry : Type := { de_Name : string; de_Path : string; de_Type : string; de_Size : Z }.

Record ReadFileResult : Type := {
  rf_Path : string; rf_Content : string; rf_Truncated : bool; rf_BytesRead : Z }.

Record fs_env : Type := {
  fault : abspath → option io_err;             (* opening or reading what is there *)
  listing : abspath → list string;             (* a directory's names, in its order *)
  unstattable : abspath → bool;                (* [Info] of an entry fails *)
  node_size : abspath → Z;                     (* of directories and links *)
  sort_slice : (DirEntry → DirEntry → bool) → list DirEntry → list DirEntry
}.

(** ** The file tools *)

Section tools.
Context (lim : limits) (env : fs_env) (s : Service) (t : tree).

(** [rootHandle.Open(name)]. *)
Definition root_open (r : abspath) (name : string) : result io_err (abspath * node) :=
  match root_walk lim t r true name with
  | Ok (p, Some n) => match fault env p with Some e => Err e | None => Ok (p, n) end
  | Ok (_, None) => Err ENOENT
  | Err e => Err e
  end.

Definition entry_type (n : node) : string :=
  match n with File _ _ => "file" | Dir => "dir" | Link _ => "symlink" end.

Definition entry_size (p : abspath) (n : node) : Z :=
  match n with File c _ => Z.of_nat (String.length c) | _ => node_size env p end.

(** The loop over the entries of [listDirectory]. *)
Definition dir_entry (p : abspath) (rel name : string) : option DirEntry :=
  n ← t !! (p ++ [name]);
  if unstattable env (p ++ [name]) then None
  else
    let childPath := logicalChildPath rel name in
    if negb (AllowSensitiveFiles s) && isSensitivePath childPath then None
    else Some {| de_Name := name; de_Path := childPath; de_Type := entry_type n;
                 de_Size := entry_size (p ++ [name]) n |}.

(** The comparison given to [sort.Slice]. It does not order files against links,
    so the place of a link among the files is the sort's choice. *)
Definition entry_less (x y : DirEntry) : bool :=
  if decide (de_Type x ≠ de_Type y) then bool_decide (de_Type x = "dir")
  else string_gt (ToLower (de_Name y)) (ToLower (de_Name x)).

Definition listDirectory (root : abspath) (rel : string) : result path_err (list DirEntry) :=
  match resolveAllowedPath lim t (AllowSensitiveFiles s) root rel with
  | Err e => Err e
  | Ok _ =>
      match openWorkspaceRoot lim t root with
      | Err e => Err e
      | Ok r =>
          match root_open r (logicalPath rel) with
          | Err e => Err (safePathError "list directory" rel e)
          | Ok (p, Dir) =>
              let entries := listing env p in
              if decide (maxDirectoryEntries < Z.of_nat (length entries))
              then Err (EInvalid "directory entries")
              else Ok (sort_slice env entry_less (omap (dir_entry p rel) entries))
          | Ok (_, _) => Err (safePathError "list directory" rel ENOTDIR)
          end
      end
  end.

Definition readFile (root : abspath) (rel : string) (limit : Z) : result path_err ReadFileResult :=
  if decide (rel = "") then Err (EInvalid "path is required")
  else
    let limit := if bool_decide (limit ≤ 0) || bool_decide (maxReadBytes < limit) then maxReadBytes else limit in
    match resolveAllowedPath lim t (AllowSensitiveFiles s) root rel with
    | Err e => Err e
    | Ok _ =>
        match openWorkspaceRoot lim t root with
        | Err e => Err e
        | Ok r =>
            match root_open r (logicalPath rel) with
            | Err e => Err (safePathError "read file" rel e)
            | Ok (_, File content _) =>
                let buf := first_bytes (Z.to_nat (limit + 1)) content in
                let truncated := bool_decide (limit < Z.of_nat (String.length buf)) in
                let buf := if truncated then first_bytes (Z.to_nat limit) buf else buf in
                Ok {| rf_Path := logicalPath rel; rf_Content := buf; rf_Truncated := truncated;
                      rf_BytesRead := Z.of_nat (String.length buf) |}
            | Ok (_, _) => Err (EInvalid "read file failed")
            end
        end
    end.
End tools.

(** ** Arguments of a request *)

Abbreviation arguments := (gmap string json).

Definition boolArg (m : arguments) (key : string) (def : bool) : bool :=
  match m !! key with Some (JBool v) => v | _ => def end.

(** ** Output of git *)

(** [limitedBuffer.Write]: the whole of [p] is reported as written. *)
Definition limitedBuffer_Write (max : Z) (buf p : string) : string * Z :=
  let remaining := max - Z.of_nat (String.length buf) in
  (if decide (0 < remaining) then
     buf +:+ (if decide (remaining < Z.of_nat (String.length p)) then first_bytes (Z.to_nat remaining) p else p)
   else buf,
   Z.of_nat (String.length p)).

Definition shouldSkipDir (name : string) : bool :=
  one_of name [".git"; "node_modules"; "target"; "dist"; "build"; ".idea"; ".vscode"; ".next"; ".gradle";
    "Library"; "System"; "Applications"; "usr"; "var"; "opt"; "proc"; "sys"; "dev"; "run"; "Volumes"; ".Trash"].
