(* ===== verification/Search.v ===== *)
(** * Searching tools and the git filters (agentops/ops.go)

    [find_files], [search_code] with and without ripgrep, [git_status],
    [git_diff] and [project_info]. What git and ripgrep print, and what the
    kernel does not let the client read, is the environment; the glob of
    [filepath.Match] is a parameter. *)

From S2P Require Import Prelude GoStrings Json GoPath Paths FileOps.
Open Scope Z_scope.

Definition maxFindResults : nat := 500.
Definition maxSearchLines : nat := 200.

Record SearchMatch : Type := { sm_Path : string; sm_Line : Z; sm_Text : string }.

Inductive search_err : Type :=
| SRequired (what : string)
| SPath (e : path_err)
| SContext                                     (* the context is done *)
| STool (tool : string).                       (* not installed, or it failed *)

(** A run of an external program: whether it is installed, what it wrote to its
    output, piece by piece, and its exit code. *)
Record process : Type := { proc_found : bool; proc_writes : list string; proc_exit : Z }.

Record search_env : Type := {
  se_fault : abspath → bool;                   (* [os.Open] of a file fails *)
  se_unstattable : abspath → bool;             (* [Info] of an entry fails *)
  se_lost : abspath → string → bool;           (* [ReadDir] does not deliver a name *)
  se_size : abspath → Z;                       (* of directories and links *)
  se_expired : bool;                           (* the context ends during the walk *)
  se_rg : string → abspath → process;          (* a query and a target *)
  se_git : list string → process;
  se_match : string → string → bool            (* [filepath.Match] *)
}.

(** ** [bytes.Buffer] behind a [limitedBuffer], and [bufio.Scanner] *)

Definition captured (writes : list string) : string :=
  foldl (λ buf p, (limitedBuffer_Write maxOutputBytes buf p).1) "" writes.

Definition newline : Ascii.ascii := Ascii.ascii_of_N 10.
Definition return_char : string := String (Ascii.ascii_of_N 13) "".

(** The lines a scanner delivers: a line that does not fit its buffer ends the
    scan. *)
Fixpoint scan_within (limit : nat) (lines : list string) : list string :=
  match lines with
  | [] => []
  | [x] => if decide (x = "") then [] else
           if decide (limit < String.length x)%nat then [] else [TrimSuffix x return_char]
  | x :: lines =>
      if decide (limit < String.length x)%nat then [] else TrimSuffix x return_char :: scan_within limit lines
  end.
(** The buffer has 64 KiB when none is given. *)
Definition max_token : nat := Z.to_nat 65535.
Definition scan : list string → list string := scan_within max_token.
Definition Scan (text : string) : list string := scan (Split newline text).

(** [strings.Split] for a longer separator: every turn takes a byte at least. *)
Fixpoint split_from (fuel : nat) (sep s : string) : list string :=
  match fuel with
  | O => [s]
  | S fuel => match Cut s sep with Some (before, after) => before :: split_from fuel sep after | None => [s] end
  end.
Definition SplitBy (sep s : string) : list string := split_from (String.length s) sep s.

(** [strconv.Atoi], whose result is used when it fails too: 0 for what is no
    number, the bound for what is out of range. *)
Definition digits (s : string) : option Z :=
  if decide (s = "") then None
  else foldl (λ acc c, acc ← acc; if bool_decide (48 ≤ c ≤ 57) then Some (acc * 10 + (c - 48)) else None)
         (Some 0) (codes s).
Definition Atoi (s : string) : Z :=
  match CutPrefix s "-" with
  | Some s => match digits s with Some n => Z.max (- n) min_int64 | None => 0 end
  | None =>
      match digits (default s (CutPrefix s "+")) with Some n => Z.min n max_int64 | None => 0 end
  end.

(** [strconv.Atoi] with its error, [None]. *)
Definition Atoi_ok (s : string) : option Z :=
  let neg := HasPrefix s "-" in
  n ← digits (default (default s (CutPrefix s "+")) (CutPrefix s "-"));
  let n := if neg then - n else n in
  if bool_decide (min_int64 ≤ n ≤ max_int64) then Some n else None.

(** ** [filepath.WalkDir] *)

(** No path of the tree is longer. *)
Definition depth (t : tree) : nat := max_list (length <$> (map_to_list t).*1).

Definition name_before (a b : string) : Prop := string_gt a b = false.
#[export] Instance name_before_dec a b : Decision (name_before a b).
Proof. unfold name_before. apply _. Defined.

(** The names in a directory, sorted, as [os.ReadDir] returns them. *)
Definition child_name (p q : abspath) : option string :=
  match last q with Some name => if decide (q = p ++ [name]) then Some name else None | None => None end.
Definition ReadDir (env : search_env) (t : tree) (p : abspath) : list string :=
  merge_sort name_before
    (filter (λ name, se_lost env p name = false) (omap (child_name p) (map_to_list t).*1)).

(** The entries given to the callback, without those below a directory for which
    it answers [SkipDir]; errors of the walk are dropped by every callback. *)
Fixpoint walk_dir (fuel : nat) (env : search_env) (t : tree) (skip : abspath → bool) (p : abspath) :
    list (abspath * node) :=
  match t !! p with
  | None => []
  | Some Dir =>
      (p, Dir) ::
      if skip p then []
      else match fuel with
           | O => []
           | S fuel => ReadDir env t p ≫= λ name, walk_dir fuel env t skip (p ++ [name])
           end
  | Some n => [(p, n)]
  end.

(** The root of a file tree has no entry of its own. *)
Definition WalkDir (env : search_env) (t : tree) (skip : abspath → bool) (p : abspath) : list (abspath * node) :=
  if decide (p = []) then
    ([], Dir) :: if skip [] then [] else ReadDir env t [] ≫= λ name, walk_dir (depth t) env t skip [name]
  else walk_dir (depth t) env t skip p.

(** ** The tools *)

Section tools.
Context (lim : limits) (env : search_env) (s : Service) (t : tree).
Let allow : bool := AllowSensitiveFiles s.

(** [!allow && isSensitivePath(rel)]. *)
Definition hidden (rel : string) : bool := negb allow && isSensitivePath rel.

(** When the callbacks answer [SkipDir] for a directory other than the [top] one. *)
Definition skip_dir (root top p : abspath) : bool :=
  bool_decide (p ≠ top) && (shouldSkipDir (Base p) || hidden (Rel root p)).

Definition is_dir (n : node) : bool := match n with Dir => true | _ => false end.

(** A glob matches the name, any other pattern is looked for in the path. *)
Definition matched (pattern rel name : string) : bool :=
  if Contains pattern "*" || Contains pattern "?" then se_match env pattern name
  else Contains (ToLower rel) (ToLower pattern).

Definition found (pattern : string) (rootReal : abspath) (pn : abspath * node) : option string :=
  let '(p, n) := pn in
  let rel := Rel rootReal p in
  if is_dir n || hidden rel then None
  else if matched pattern rel (Base p) then Some rel else None.

Definition findFiles (root : abspath) (pattern : string) : result search_err (list string) :=
  let pattern := TrimSpace pattern in
  if decide (pattern = "") then Err (SRequired "pattern")
  else
    match resolveWorkspaceRoot lim t allow root with
    | Err e => Err (SPath e)
    | Ok rootReal =>
        Ok (take maxFindResults
          (omap (found pattern rootReal) (WalkDir env t (skip_dir rootReal rootReal) rootReal)))
    end.

(** One line of ripgrep, [path:line:text]. *)
Definition rg_line (root : abspath) (line : string) : option SearchMatch :=
  '(path, rest) ← Cut line ":";
  '(number, text) ← Cut rest ":";
  if negb (IsAbs path) then None
  else
    let rel := Rel root (clean_parts true path) in
    if hidden rel then None else Some {| sm_Path := rel; sm_Line := Atoi number; sm_Text := text |}.

Definition parseRG (root : abspath) (output : string) : list SearchMatch :=
  take maxSearchLines (omap (rg_line root) (Scan output)).

(** [os.Open] and a scanner on it: a directory has no lines. *)
Definition file_lines (p : abspath) : list string :=
  if se_fault env p then []
  else match Stat lim t p with Ok (File content _) => Scan content | _ => [] end.

Definition lstat_size (p : abspath) (n : node) : Z :=
  match n with File c _ => Z.of_nat (String.length c) | _ => se_size env p end.

Fixpoint matches_from (path query : string) (lineNo : Z) (lines : list string) : list SearchMatch :=
  match lines with
  | [] => []
  | x :: lines =>
      (if Contains x query then [{| sm_Path := path; sm_Line := lineNo; sm_Text := x |}] else []) ++
      matches_from path query (lineNo + 1) lines
  end.

Definition file_matches (root : abspath) (query : string) (pn : abspath * node) : list SearchMatch :=
  let '(p, n) := pn in
  let rel := Rel root p in
  if is_dir n || hidden rel then []
  else if se_unstattable env p || bool_decide (2 * 1024 * 1024 < lstat_size p n) then []
  else matches_from rel query 1 (file_lines p).

Definition fallbackSearch (root target : abspath) (query : string) : result search_err (list SearchMatch) :=
  if se_expired env then Err SContext
  else Ok (take maxSearchLines (WalkDir env t (skip_dir root target) target ≫= file_matches root query)).

Definition searchCode (root : abspath) (query rel : string) : result search_err (list SearchMatch) :=
  if decide (TrimSpace query = "") then Err (SRequired "query")
  else
    match resolveWorkspaceRoot lim t allow root with
    | Err e => Err (SPath e)
    | Ok rootReal =>
        match resolveAllowedPath lim t allow root rel with
        | Err e => Err (SPath e)
        | Ok target =>
            let rg := se_rg env query target in
            if proc_found rg then
              if decide (proc_exit rg = 0) then Ok (parseRG rootReal (captured (proc_writes rg)))
              else if decide (proc_exit rg = 1) then Ok []
              else Err (STool "rg")
            else fallbackSearch rootReal target query
        end
    end.

(** ** git *)

Definition gitOutput (args : list string) : result search_err string :=
  let p := se_git env args in
  if negb (proc_found p) then Err (STool "git")
  else if decide (proc_exit p = 0) then Ok (captured (proc_writes p)) else Err (STool "git").

Definition git_result (output : string) (truncated : bool) : json :=
  JObject [("output", JString output); ("truncated", JBool truncated)].

(** [gitRun]: the output and whether the buffer is full. *)
Definition gitRun (args : list string) : result search_err (string * bool) :=
  match gitOutput args with
  | Err e => Err e
  | Ok out => Ok (out, bool_decide (maxOutputBytes ≤ Z.of_nat (String.length out)))
  end.

(** [strings.Trim] of quotation marks. *)
Definition quote : Ascii.ascii := Ascii.ascii_of_N 34.
Fixpoint drop_quotes (l : list Ascii.ascii) : list Ascii.ascii :=
  match l with c :: l' => if decide (c = quote) then drop_quotes l' else l | [] => [] end.
Definition TrimQuotes (x : string) : string :=
  String.string_of_list_ascii (reverse (drop_quotes (reverse (drop_quotes (String.list_ascii_of_string x))))).

(** The bytes from the fourth on. *)
Definition path_field (line : string) : string :=
  TrimSpace (String.string_of_list_ascii (drop 3 (String.list_ascii_of_string line))).

(** Does [filterGitStatus] keep the line? *)
Definition keep_status (line : string) : bool :=
  if decide (line = "") then false
  else if HasPrefix line "## " || bool_decide (String.length line < 3)%nat then true
  else forallb (λ path, negb (isSensitivePath (TrimQuotes path))) (SplitBy " -> " (path_field line)).

Definition filterGitStatus (output : string) : string :=
  let filtered := filter (λ line, keep_status line = true) (Split newline output) in
  if decide (filtered = []) then "" else Join (String newline "") filtered +:+ String newline "".

Definition gitStatus : result search_err (string * bool) :=
  match gitRun ["status"; "--short"; "--branch"] with
  | Ok (output, truncated) => Ok (if allow then output else filterGitStatus output, truncated)
  | Err e => Err e
  end.

Definition nul : Ascii.ascii := Ascii.ascii_of_N 0.

(** The names whose diffs are asked for. *)
Definition diff_names (names : string) : list string :=
  filter (λ name, name ≠ "" ∧ hidden name = false) (Split nul names).

Definition gitDiff (root : abspath) (rel : string) : result search_err (string * bool) :=
  match resolveWorkspaceRoot lim t allow root with
  | Err e => Err (SPath e)
  | Ok _ =>
      match (if decide (rel = "") then Ok [] else resolveAllowedPath lim t allow root rel) with
      | Err e => Err (SPath e)
      | Ok _ =>
          match gitOutput (["diff"; "--name-only"; "-z"; "--"] ++ (if decide (rel = "") then [] else [rel])) with
          | Err e => Err e
          | Ok names =>
              let safe := diff_names names in
              if decide (safe = []) then Ok ("", false)
              else gitRun (["diff"; "--no-ext-diff"; "--no-textconv"; "--"] ++ safe)
          end
      end
  end.

(** ** [project_info] *)

Definition markers : list string := [
  "go.mod"; "pom.xml"; "build.gradle"; "build.gradle.kts"; "package.json"; "pyproject.toml"; "Cargo.toml";
  "requirements.txt"; "Makefile"; "Dockerfile"; "docker-compose.yml"; "compose.yml"].

Definition dirExists (p : abspath) : bool :=
  match Stat lim t p with Ok Dir => true | _ => false end.

Definition projectInfo (root : abspath) : list string * bool :=
  (filter (λ name, is_ok (Stat lim t (root ++ [name])) = true) markers, dirExists (root ++ [".git"])).
End tools.
