(* ===== verification/FileSpec.v ===== *)
(** * What the reading and searching tools show

    The workspace boundary and the sensitive-file policy of [read] and [list];
    that the walk of a directory visits what it should, and that what
    [find_files], [search_code] and the git tools return is bounded and within
    the policy. *)

From S2P Require Import Prelude GoStrings Json GoPath Paths FileOps Search.
Open Scope Z_scope.

(** An [os.Root] follows no more links than the kernel, and the kernel no more
    than [filepath.EvalSymlinks]. *)
Definition limits_ok (lim : limits) : Prop :=
  (root_links lim ≤ kernel_links lim)%nat ∧ (kernel_links lim ≤ eval_links lim)%nat.

Definition go_limits : limits := {| eval_links := 255; kernel_links := 40; root_links := 8 |}.

Section spec.
Context (lim : limits) (env : fs_env) (s : Service) (t : tree).
Context (Hlim : limits_ok lim).

(** A tool that resolves a path and then opens its logical form reaches what
    the policy looked at. *)
Lemma opened_allowed root rel target r p n : Forall plain root → TrimSpace rel = rel →
  resolveAllowedPath lim t (AllowSensitiveFiles s) root rel = Ok target →
  openWorkspaceRoot lim t root = Ok r → rel ≠ "" →
  root_open lim env t r (logicalPath rel) = Ok (p, n) → p = target.
Proof.
  destruct Hlim as [Hl1 Hl2]. intros Hr Ht Ha Ho Hne Hw.
  apply openWorkspaceRoot_ok in Ho as (He & Hd & Hp); [|done|done].
  unfold resolveAllowedPath in Ha. destruct (_ && isSensitivePath rel); [done|].
  destruct (resolveWorkspaceRoot _ _ _ _) as [r'|]; [|done].
  destruct (ResolveUnderRoot lim t root rel) as [x|] eqn:Ex; [|done].
  assert (x = target) as -> by (destruct (AllowSensitiveFiles s); [congruence|]; destruct (isSensitivePath _); congruence).
  clear Ha. apply ResolveUnderRoot_ok in Ex as (rr & E & Hx); [|done].
  rewrite He in E. injection E as <-. unfold logicalPath in Hw. rewrite Ht, decide_False in Hw by done.
  unfold root_open in Hw. destruct (root_walk _ _ _ _ _) as [[x [m|]]|] eqn:Ew; [|done..].
  destruct (fault env x); [done|]. injection Hw as -> ->.
  destruct Hx as [[[-> | ->] ->]|(names & q & Ha & Hc & Hn & -> & Hpl & Hx)]; [done| |].
  - replace (Clean ".") with (render []) in Ew by done.
    apply (root_walk_resolved lim t r [] p n) in Ew as [Ee _]; [|lia|done|done|constructor].
    rewrite app_nil_r in Ee. unfold EvalSymlinks in Ee.
    rewrite <-(app_nil_r r), walk_down, walk_nil in Ee by done. cbn [app] in Ee.
    rewrite (proj2 Hd) in Ee. by injection Ee.
  - rewrite Hc in Ew. apply root_walk_resolved in Ew as (Ee & _ & Hls); [|lia|done|done|done].
    destruct Hx as [[_ Hx]|[Hx _]]; [congruence|]. by rewrite Hls in Hx.
Qed.

Lemma opened_inside root r name p n : Forall plain root → openWorkspaceRoot lim t root = Ok r →
  root_open lim env t r name = Ok (p, n) →
  ∃ q, p = r ++ q ∧ above t p ∧ node_at t p = Some n.
Proof.
  destruct Hlim as [Hl1 Hl2]. intros Hr Ho Hw. apply openWorkspaceRoot_ok in Ho as (He & Hd & Hp); [|done|done].
  unfold root_open in Hw. destruct (root_walk _ _ _ _ _) as [[x [m|]]|] eqn:Ew; [|done..].
  destruct (fault env x); [done|]. injection Hw as -> ->. unfold root_walk in Ew.
  destruct (IsAbs name); [done|]. pose proof (walk_above _ _ _ _ _ _ _ Ew Hd) as (? & ? & _).
  destruct (walk_inside _ _ _ _ _ _ _ Ew) as [q Hq]; [done|]. cbn in Hq. subst p. by exists q.
Qed.

(** The policy on a resolved path. *)
Lemma resolveAllowedPath_policy root rel target r : Forall plain root →
  resolveAllowedPath lim t (AllowSensitiveFiles s) root rel = Ok target →
  EvalSymlinks lim t root = Ok r → AllowSensitiveFiles s = false →
  isSensitivePath rel = false ∧ isSensitivePath (Rel r target) = false.
Proof.
  intros Hr Ha He Hs. unfold resolveAllowedPath, resolveWorkspaceRoot, ResolveUnderRoot in Ha.
  rewrite Hs, He, (bool_decide_eq_true_2 ("." = ".")), orb_true_r in Ha by done. cbn in Ha.
  destruct (isSensitivePath rel); [done|]. destruct (isSensitivePath (Base r)); [done|]. split; [done|].
  match type of Ha with match ?x with _ => _ end = _ => destruct x as [y|]; [|done] end.
  destruct (isSensitivePath (Rel r y)) eqn:E; [done|]. by injection Ha as <-.
Qed.

(** What [read] returns: the first bytes, up to the limit and never more than
    256 KiB, of a regular file that lies in the workspace after all links, and
    whether there were more. With the local policy on, the path asked for is not
    sensitive; and when it has no white space around it, neither is the place
    in the workspace the content came from, whatever links led there. *)
Theorem readFile_policy root rel limit res : Forall plain root →
  readFile lim env s t root rel limit = Ok res →
  ∃ r q content mode,
    EvalSymlinks lim t root = Ok r ∧
    node_at t (r ++ q) = Some (File content mode) ∧ above t (r ++ q) ∧
    (let n := if bool_decide (limit ≤ 0) || bool_decide (maxReadBytes < limit) then maxReadBytes else limit in
     rf_Content res = first_bytes (Z.to_nat n) content ∧
     rf_Truncated res = bool_decide (n < Z.of_nat (String.length content)) ∧
     rf_BytesRead res = Z.of_nat (String.length (rf_Content res)) ∧ rf_BytesRead res ≤ maxReadBytes) ∧
    (AllowSensitiveFiles s = false →
      isSensitivePath rel = false ∧ (TrimSpace rel = rel → isSensitivePath (render q) = false)).
Proof.
  intros Hr H. unfold readFile in H. case_decide as Hne; [done|].
  set (n := if bool_decide (limit ≤ 0) || bool_decide (maxReadBytes < limit) then maxReadBytes else limit) in *.
  assert (0 < n ≤ maxReadBytes) as Hn.
  { subst n. destruct (_ || _) eqn:E; [unfold maxReadBytes; lia|].
    apply orb_false_iff in E as [E1%bool_decide_eq_false E2%bool_decide_eq_false]. lia. }
  destruct (resolveAllowedPath _ _ _ _ _) as [target|] eqn:Ea; [|done].
  destruct (openWorkspaceRoot _ _ _) as [r|] eqn:Eo; [|done].
  destruct (root_open _ _ _ _ _) as [[p [content mode| |]]|] eqn:Ew; try done.
  destruct (opened_inside _ _ _ _ _ Hr Eo Ew) as (q & -> & Hab & Hnode).
  assert (EvalSymlinks lim t root = Ok r) as He by by (destruct Hlim; eapply openWorkspaceRoot_ok; [..|exact Eo]).
  exists r, q, content, mode. repeat (split; [done|]). split.
  - injection H as <-. cbn [rf_Content rf_Truncated rf_BytesRead]. rewrite length_first_bytes.
    destruct (bool_decide (n < Z.of_nat (Nat.min _ _))) eqn:E.
    + apply bool_decide_eq_true in E. rewrite first_bytes_min, bool_decide_eq_true_2 by lia.
      rewrite Nat.min_l by lia. repeat (split; [done|]). rewrite length_first_bytes. lia.
    + apply bool_decide_eq_false in E. rewrite bool_decide_eq_false_2 by lia.
      rewrite !first_bytes_all by lia. repeat (split; [done|]). lia.
  - intros Hs. destruct (resolveAllowedPath_policy _ _ _ _ Hr Ea He Hs) as [H1 H2]. split; [done|].
    intros Ht. pose proof (opened_allowed _ _ _ _ _ _ Hr Ht Ea Eo Hne Ew) as <-.
    unfold Rel in H2. by rewrite Rel_parts_prefix in H2.
Qed.

(** What [list] shows: entries of a directory that lies in the workspace, at
    most a thousand names; with the local policy on, none whose path is
    sensitive, and every other entry that can be examined. *)
Theorem listDirectory_policy root rel res : Forall plain root →
  (∀ less l, sort_slice env less l ≡ₚ l) →
  listDirectory lim env s t root rel = Ok res →
  ∃ r q, EvalSymlinks lim t root = Ok r ∧ node_at t (r ++ q) = Some Dir ∧ above t (r ++ q) ∧
    (length res ≤ 1000)%nat ∧
    ∀ e, e ∈ res ↔ ∃ name n, name ∈ listing env (r ++ q) ∧ t !! (r ++ q ++ [name]) = Some n ∧
      unstattable env (r ++ q ++ [name]) = false ∧
      (AllowSensitiveFiles s = false → isSensitivePath (logicalChildPath rel name) = false) ∧
      e = {| de_Name := name; de_Path := logicalChildPath rel name; de_Type := entry_type n;
             de_Size := entry_size env (r ++ q ++ [name]) n |}.
Proof.
  intros Hr Hsort H. unfold listDirectory in H.
  destruct (resolveAllowedPath _ _ _ _ _) as [target|] eqn:Ea; [|done].
  destruct (openWorkspaceRoot _ _ _) as [r|] eqn:Eo; [|done].
  destruct (root_open _ _ _ _ _) as [[p [| |]]|] eqn:Ew; try done. case_decide as Hl; [done|].
  injection H as <-. destruct (opened_inside _ _ _ _ _ Hr Eo Ew) as (q & -> & Hab & Hnode).
  assert (EvalSymlinks lim t root = Ok r) as He by by (destruct Hlim; eapply openWorkspaceRoot_ok; [..|exact Eo]).
  exists r, q. repeat (split; [done|]). split.
  - rewrite Hsort. pose proof (length_omap_le (dir_entry env s t (r ++ q) rel) (listing env (r ++ q))).
    unfold maxDirectoryEntries in Hl. lia.
  - intros e. rewrite Hsort, list_elem_of_omap. split.
    + intros (name & Hin & Hd). unfold dir_entry in Hd. exists name. rewrite <-(assoc_L app) in Hd.
      destruct (t !! (r ++ q ++ [name])) as [n|] eqn:En; [|done]. cbn in Hd. exists n.
      destruct (unstattable _ _); [done|]. destruct (AllowSensitiveFiles s); cbn in Hd;
        [by injection Hd as <-|]. destruct (isSensitivePath _) eqn:Es; [done|]. by injection Hd as <-.
    + intros (name & n & Hin & Hn & Hu & Hs & ->). exists name. split; [done|]. unfold dir_entry.
      rewrite <-(assoc_L app), Hn. cbn. rewrite Hu. destruct (AllowSensitiveFiles s); [done|]. by rewrite Hs.
Qed.
End spec.

(** ** A workspace *)

Definition sample_tree : tree := list_to_map [
  (["ws"], Dir); (["ws"; "a.txt"], File "hello" 420); (["ws"; ".env"], File "SECRET" 384);
  (["ws"; "link"], Link ".env"); (["ws"; "src"], Dir); (["ws"; "src"; "b.txt"], File "b" 420);
  (["etc"], Dir); (["ws"; "out"], Link "/etc")].

Definition sample_env : fs_env := {|
  fault := λ _, None;
  listing := λ p, if decide (p = ["ws"]) then ["a.txt"; ".env"; "link"; "src"; "out"] else [];
  unstattable := λ _, false;
  node_size := λ _, 0;
  sort_slice := λ _ l, l |}.

Definition sample_service : Service :=
  {| Roots := {["main" := ["ws"]]}; AllowSensitiveFiles := false; Writable := {["main" := true]} |}.

Lemma go_limits_ok : limits_ok go_limits.
Proof. split; apply Nat.leb_le; by vm_compute. Qed.

Lemma sample_root : Forall plain ["ws"].
Proof. apply (bool_decide_unpack _). by vm_compute. Qed.

(** A link to a sensitive file is refused; the same link with a space before its
    name is not, and the file is read: the policy looks at the path as it is
    given and [logicalPath] opens it trimmed. *)
Example link_to_sensitive_refused :
  readFile go_limits sample_env sample_service sample_tree ["ws"] "link" 0 = Err (ESensitive "link").
Proof. by vm_compute. Qed.
Example spaced_link_reads_sensitive :
  readFile go_limits sample_env sample_service sample_tree ["ws"] " link" 0 =
    Ok {| rf_Path := "link"; rf_Content := "SECRET"; rf_Truncated := false; rf_BytesRead := 6 |}.
Proof. by vm_compute. Qed.

Lemma readFile_policy_witness : ∃ r q content mode,
  EvalSymlinks go_limits sample_tree ["ws"] = Ok r ∧
  node_at sample_tree (r ++ q) = Some (File content mode) ∧ "hel" = first_bytes 3 content ∧
  isSensitivePath (render q) = false.
Proof.
  destruct (readFile_policy go_limits sample_env sample_service sample_tree go_limits_ok ["ws"] "a.txt" 3
    {| rf_Path := "a.txt"; rf_Content := "hel"; rf_Truncated := true; rf_BytesRead := 3 |})
    as (r & q & content & mode & H1 & H2 & _ & (H3 & _) & H4);
    [exact sample_root|by vm_compute|].
  exists r, q, content, mode. repeat (split; [done|]). by apply H4.
Defined.

Definition sample_listing : list DirEntry :=
  [{| de_Name := "a.txt"; de_Path := "a.txt"; de_Type := "file"; de_Size := 5 |};
   {| de_Name := "link"; de_Path := "link"; de_Type := "symlink"; de_Size := 0 |};
   {| de_Name := "src"; de_Path := "src"; de_Type := "dir"; de_Size := 0 |};
   {| de_Name := "out"; de_Path := "out"; de_Type := "symlink"; de_Size := 0 |}].

Lemma listDirectory_policy_witness :
  listDirectory go_limits sample_env sample_service sample_tree ["ws"] "." = Ok sample_listing ∧
  ∃ r q, EvalSymlinks go_limits sample_tree ["ws"] = Ok r ∧ node_at sample_tree (r ++ q) = Some Dir.
Proof.
  assert (listDirectory go_limits sample_env sample_service sample_tree ["ws"] "." = Ok sample_listing) as E
    by by vm_compute.
  split; [exact E|].
  destruct (listDirectory_policy go_limits sample_env sample_service sample_tree go_limits_ok ["ws"] "."
    sample_listing sample_root (λ _ l, reflexivity l) E) as (r & q & H1 & H2 & _).
  exists r, q. exact (conj H1 H2).
Defined.

(** ** The walk *)

Lemma depth_max (t : tree) q n : t !! q = Some n → (length q ≤ depth t)%nat.
Proof.
  intros H. apply max_list_elem_of_le, list_elem_of_fmap_2, list_elem_of_fmap.
  exists (q, n). split; [done|]. by apply elem_of_map_to_list.
Qed.

Section walk.
Context (env : search_env) (t : tree) (skip : abspath → bool).

(** Below [p] the walk comes to [q]: through directories that are not skipped,
    whose names are delivered. *)
Inductive visited : abspath → abspath → node → Prop :=
| visited_here p n : node_at t p = Some n → visited p p n
| visited_down p name q n : node_at t p = Some Dir → skip p = false → se_lost env p name = false →
    visited (p ++ [name]) q n → visited p q n.

Lemma child_name_spec p q name : child_name p q = Some name ↔ q = p ++ [name].
Proof.
  unfold child_name. split.
  - destruct (last q) as [x|]; [|done]. case_decide; [|done]. by intros [= <-].
  - intros ->. by rewrite last_snoc, decide_True.
Qed.

Lemma ReadDir_spec p name : name ∈ ReadDir env t p ↔ is_Some (t !! (p ++ [name])) ∧ se_lost env p name = false.
Proof.
  unfold ReadDir. rewrite merge_sort_Permutation, list_elem_of_filter, list_elem_of_omap. split.
  - intros [Hl (q & Hq & ->%child_name_spec)]. split; [|done].
    apply list_elem_of_fmap in Hq as ([q n] & -> & Hq%elem_of_map_to_list). by eexists.
  - intros [[n Hn] Hl]. split; [done|]. exists (p ++ [name]). split; [|by apply child_name_spec].
    apply list_elem_of_fmap. exists (p ++ [name], n). split; [done|]. by apply elem_of_map_to_list.
Qed.

Lemma visited_is_node p q n : visited p q n → is_Some (node_at t p).
Proof. destruct 1; by eexists. Qed.

Lemma visited_below p q n : visited p q n → (∃ names, q = p ++ names) ∧ node_at t q = Some n.
Proof.
  induction 1 as [p n H|p name q n _ _ _ _ [[names ->] IH]]; [split; [by exists []; rewrite app_nil_r|done]|].
  split; [|done]. exists (name :: names). by rewrite <-(assoc_L app).
Qed.

Lemma walk_dir_sound fuel p q n : p ≠ [] → (q, n) ∈ walk_dir fuel env t skip p → visited p q n.
Proof.
  revert p. induction fuel as [|fuel IH]; intros p Hp Hin; cbn in Hin;
    (assert (node_at t p = t !! p) as Hat by by destruct p);
    (destruct (t !! p) as [[c m| |x]|] eqn:E; [..|by apply elem_of_nil in Hin]);
    (apply elem_of_cons in Hin as [[= -> ->]|Hin]; [constructor; congruence|]);
    try (by apply elem_of_nil in Hin).
  - by destruct (skip p); apply elem_of_nil in Hin.
  - destruct (skip p) eqn:Es; [by apply elem_of_nil in Hin|].
    apply list_elem_of_bind in Hin as (name & Hin & [_ Hl]%ReadDir_spec).
    apply (visited_down p name); [congruence|done..|]. apply IH; [by destruct p|done].
Qed.

Lemma walk_dir_complete p q n : visited p q n → ∀ fuel, p ≠ [] → (length q ≤ length p + fuel)%nat →
  (q, n) ∈ walk_dir fuel env t skip p.
Proof.
  induction 1 as [p n H|p name q n Hd Hs Hl Hv IH]; intros fuel Hp Hlen;
    (assert (node_at t p = t !! p) as Hat by by destruct p).
  - rewrite Hat in H. destruct fuel, n; cbn; rewrite H; apply elem_of_cons; by left.
  - rewrite Hat in Hd. destruct (visited_below _ _ _ Hv) as [[names ->] _].
    rewrite !length_app in Hlen. destruct fuel as [|fuel]; [cbn in Hlen; lia|].
    cbn. rewrite Hd, Hs. apply elem_of_cons. right. apply list_elem_of_bind. exists name. split.
    + apply IH; [by destruct p|]. rewrite !length_app. cbn in *. lia.
    + apply ReadDir_spec. split; [|done]. rewrite <-node_at_snoc. by apply (visited_is_node _ _ _ Hv).
Qed.

(** The depth of the tree is enough fuel: the walk visits everything. *)
Lemma WalkDir_spec p q n : (q, n) ∈ WalkDir env t skip p ↔ visited p q n.
Proof.
  unfold WalkDir. case_decide as E; [subst p|split].
  - rewrite elem_of_cons. split.
    + intros [[= -> ->]|Hin]; [by constructor|]. destruct (skip []) eqn:Es; [by apply elem_of_nil in Hin|].
      apply list_elem_of_bind in Hin as (name & Hin & [_ Hl]%ReadDir_spec).
      apply (visited_down [] name); [done..|]. by apply (walk_dir_sound (depth t)).
    + intros Hv. inversion Hv as [? ? Hn|? name ? ? _ Hs Hl Hv']; subst; [left; by injection Hn as <-|right].
      rewrite Hs. apply list_elem_of_bind. exists name. split.
      * apply walk_dir_complete; [done..|]. destruct (visited_below _ _ _ Hv') as [[names ->] Hn].
        apply depth_max in Hn. cbn in *. lia.
      * apply ReadDir_spec. split; [|done]. by apply (visited_is_node _ _ _ Hv').
  - by apply walk_dir_sound.
  - intros Hv. apply walk_dir_complete; [done..|]. destruct (visited_below _ _ _ Hv) as [[names ->] Hn].
    destruct (p ++ names) as [|x l] eqn:El; [by apply app_nil in El as [-> _]|].
    apply depth_max in Hn. lia.
Qed.
End walk.

Lemma take_sub {A} (x : A) n l : x ∈ take n l → x ∈ l.
Proof. rewrite elem_of_take. intros (i & Hi & _). by apply list_elem_of_lookup_2 in Hi. Qed.

(** ** Finding files *)

Section spec.
Context (lim : limits) (env : search_env) (s : Service) (t : tree).

Lemma hidden_spec rel : hidden s rel = false ↔ (AllowSensitiveFiles s = false → isSensitivePath rel = false).
Proof. unfold hidden. destruct (AllowSensitiveFiles s); cbn; [done|]. tauto. Qed.

Lemma found_spec pattern r q n rel :
  found env s pattern r (r ++ q, n) = Some rel ↔
  rel = render q ∧ is_dir n = false ∧ hidden s rel = false ∧ matched env pattern rel (Base (r ++ q)) = true.
Proof.
  unfold found. cbv zeta. unfold Rel. rewrite Rel_parts_prefix.
  destruct (is_dir n) eqn:E1; cbn; [by split; [done|intros (? & ? & _)]|].
  destruct (hidden s (render q)) eqn:E2; [split; [done|intros (-> & _ & ? & _); congruence]|].
  destruct (matched env pattern (render q) _) eqn:E3; [|split; [done|intros (-> & _ & _ & ?); congruence]].
  split; [by intros [= <-]|by intros (-> & _)].
Qed.

Lemma resolveWorkspaceRoot_real root r :
  resolveWorkspaceRoot lim t (AllowSensitiveFiles s) root = Ok r → EvalSymlinks lim t root = Ok r.
Proof.
  unfold resolveWorkspaceRoot, ResolveUnderRoot. destruct (EvalSymlinks lim t root) as [x|]; [|done].
  rewrite (bool_decide_eq_true_2 ("." = ".")), orb_true_r by done. destruct (_ && _); [done|]. by intros [= ->].
Qed.

(** What [find_files] returns: at most five hundred paths, each of a file or
    link in the workspace that the pattern matches and the policy does not
    hide, found through no skipped directory; and when they are fewer than
    that, all of them. *)
Theorem findFiles_spec root pattern out : findFiles lim env s t root pattern = Ok out →
  ∃ r, EvalSymlinks lim t root = Ok r ∧ (length out ≤ 500)%nat ∧
    let hit rel := ∃ q n, visited env t (skip_dir s r r) r (r ++ q) n ∧ rel = render q ∧ is_dir n = false ∧
      (AllowSensitiveFiles s = false → isSensitivePath rel = false) ∧
      matched env (TrimSpace pattern) rel (Base (r ++ q)) = true in
    (∀ rel, rel ∈ out → hit rel) ∧ ((length out < 500)%nat → ∀ rel, hit rel → rel ∈ out).
Proof.
  unfold findFiles. cbv zeta. case_decide; [done|].
  destruct (resolveWorkspaceRoot _ _ _ _) as [r|] eqn:Er; [|done]. intros [= <-].
  exists r. split; [by apply resolveWorkspaceRoot_real|].
  set (l := omap _ _).
  assert (∀ rel, rel ∈ l ↔ ∃ q n, visited env t (skip_dir s r r) r (r ++ q) n ∧ rel = render q ∧ is_dir n = false ∧
    (AllowSensitiveFiles s = false → isSensitivePath rel = false) ∧
    matched env (TrimSpace pattern) rel (Base (r ++ q)) = true) as Hl.
  { intros rel. unfold l. rewrite list_elem_of_omap. split.
    - intros ([p n] & Hv%WalkDir_spec & Hf). destruct (visited_below _ _ _ _ _ _ Hv) as [[q ->] _].
      apply found_spec in Hf as (? & ? & Hh & ?). rewrite hidden_spec in Hh. by exists q, n.
    - intros (q & n & Hv & ? & ? & Hh & ?). rewrite <-hidden_spec in Hh. exists (r ++ q, n).
      split; [by apply WalkDir_spec|by apply found_spec]. }
  unfold maxFindResults. rewrite length_take. split; [lia|]. split.
  - intros rel Hin. apply Hl. by apply take_sub in Hin.
  - intros Hlen rel Hhit. rewrite take_ge by lia. by apply Hl.
Qed.

(** ** Searching *)

Lemma matches_from_spec path query k lines m : m ∈ matches_from path query k lines →
  sm_Path m = path ∧ Contains (sm_Text m) query = true ∧
  ∃ i, lines !! i = Some (sm_Text m) ∧ sm_Line m = k + Z.of_nat i.
Proof.
  revert k. induction lines as [|x lines IH]; intros k; cbn; [by intros ?%elem_of_nil|].
  intros [Hm|Hm]%elem_of_app.
  - destruct (Contains x query) eqn:E; [|by apply elem_of_nil in Hm].
    apply list_elem_of_singleton in Hm as ->. split; [done|]. split; [done|]. exists 0%nat. split; [done|cbn; lia].
  - destruct (IH _ Hm) as (? & ? & i & ? & ?). split; [done|]. split; [done|]. exists (S i). split; [done|lia].
Qed.

Lemma rg_line_hidden root line m : rg_line s root line = Some m → hidden s (sm_Path m) = false.
Proof.
  unfold rg_line. destruct (Cut line ":") as [[path rest]|]; [|done]. cbn.
  destruct (Cut rest ":") as [[number text]|]; [|done]. cbn. destruct (negb _); [done|].
  destruct (hidden s _) eqn:E; [done|]. by intros [= <-].
Qed.

Lemma file_matches_spec root query p n m : m ∈ file_matches lim env s t root query (p, n) →
  sm_Path m = Rel root p ∧ hidden s (sm_Path m) = false ∧ is_dir n = false ∧
  Contains (sm_Text m) query = true ∧
  ∃ content mode i, Stat lim t p = Ok (File content mode) ∧
    Scan content !! i = Some (sm_Text m) ∧ sm_Line m = 1 + Z.of_nat i.
Proof.
  unfold file_matches. destruct (is_dir n || hidden s (Rel root p)) eqn:E; [by intros ?%elem_of_nil|].
  apply orb_false_iff in E as [E1 E2]. destruct (_ || _); [by intros ?%elem_of_nil|].
  intros (-> & Hc & i & Hi & Hk)%matches_from_spec. repeat (split; [done|]).
  unfold file_lines in Hi. destruct (se_fault env p); [done|].
  destruct (Stat lim t p) as [[content mode| |]|] eqn:Es; try done. by exists content, mode, i.
Qed.

(** What [search_code] returns: at most two hundred matches, none under a path
    the policy hides. Without ripgrep every match is a line that contains the
    query, at its number, of the file that opening a path below the target
    gives, which the walk came to through no skipped directory. *)
Theorem searchCode_policy root query rel out : searchCode lim env s t root query rel = Ok out →
  (length out ≤ 200)%nat ∧
  (AllowSensitiveFiles s = false → ∀ m, m ∈ out → isSensitivePath (sm_Path m) = false) ∧
  ∃ r target, EvalSymlinks lim t root = Ok r ∧ resolveAllowedPath lim t (AllowSensitiveFiles s) root rel = Ok target ∧
    (proc_found (se_rg env query target) = false → ∀ m, m ∈ out →
      ∃ p n content mode i, visited env t (skip_dir s r target) target p n ∧ is_dir n = false ∧
        sm_Path m = Rel r p ∧ Stat lim t p = Ok (File content mode) ∧
        Scan content !! i = Some (sm_Text m) ∧ sm_Line m = 1 + Z.of_nat i ∧ Contains (sm_Text m) query = true).
Proof.
  unfold searchCode. case_decide; [done|].
  destruct (resolveWorkspaceRoot _ _ _ _) as [r|] eqn:Er; [|done].
  destruct (resolveAllowedPath _ _ _ _ _) as [target|] eqn:Et; [|done]. intros Hout.
  destruct (proc_found (se_rg env query target)) eqn:Ef.
  - assert (∃ l, out = take maxSearchLines (omap (rg_line s r) l)) as [l ->].
    { case_decide; [exists (Scan (captured (proc_writes (se_rg env query target)))); by injection Hout as <-|].
      case_decide; [exists []; by injection Hout as <-|done]. }
    split; [rewrite length_take; unfold maxSearchLines; lia|]. split.
    + intros Hs m (x & _ & Hx%rg_line_hidden)%take_sub%list_elem_of_omap. by apply hidden_spec.
    + exists r, target. split; [by apply resolveWorkspaceRoot_real|]. split; [done|]. congruence.
  - unfold fallbackSearch in Hout. destruct (se_expired env); [done|]. injection Hout as <-.
    split; [rewrite length_take; unfold maxSearchLines; lia|].
    assert (∀ m, m ∈ take maxSearchLines (WalkDir env t (skip_dir s r target) target ≫= file_matches lim env s t r query) →
      ∃ p n, m ∈ file_matches lim env s t r query (p, n) ∧ visited env t (skip_dir s r target) target p n) as Hm.
    { intros m ([p n] & Hf & Hv%WalkDir_spec)%take_sub%list_elem_of_bind. by exists p, n. }
    split.
    + intros Hs m (p & n & Hf%file_matches_spec & _)%Hm. destruct Hf as (_ & Hh & _). by apply hidden_spec.
    + exists r, target. split; [by apply resolveWorkspaceRoot_real|]. split; [done|]. intros _ m (p & n & Hf & Hv)%Hm.
      apply file_matches_spec in Hf as (? & _ & ? & ? & content & mode & i & ? & ? & ?).
      by exists p, n, content, mode, i.
Qed.

(** ** git *)

Lemma captured_bound writes : Z.of_nat (String.length (captured writes)) ≤ maxOutputBytes.
Proof.
  unfold captured. assert (∀ buf, Z.of_nat (String.length buf) ≤ maxOutputBytes →
    Z.of_nat (String.length (foldl (λ buf p, (limitedBuffer_Write maxOutputBytes buf p).1) buf writes)) ≤ maxOutputBytes)
    as H; [|by apply H].
  induction writes as [|p writes IH]; intros buf Hb; [done|]. apply IH. unfold limitedBuffer_Write. cbn [fst].
  case_decide; [|done]. rewrite <-String_length_list, list_ascii_app, length_app, !String_length_list. case_decide; [rewrite length_first_bytes|]; lia.
Qed.

Lemma app_String x c a b : (x +:+ String c a) +:+ b = x +:+ String c (a +:+ b).
Proof. induction x as [|d x IH]; [done|]. change (String d ((x +:+ String c a) +:+ b) = String d (x +:+ String c (a +:+ b))). by rewrite IH. Qed.

Lemma split_join_newline sep l : l ≠ [] → Forall (no_sep sep) l →
  Split sep (Join (String sep "") l +:+ String sep "") = l ++ [""].
Proof.
  induction l as [|x l IH]; [done|]. intros _ H. apply Forall_cons in H as [Hx Hl].
  destruct l as [|y l]; [by rewrite split_app|].
  change (Join (String sep "") (x :: y :: l)) with (x +:+ String sep (Join (String sep "") (y :: l))).
  rewrite app_String, split_app by done. by rewrite IH.
Qed.

Lemma filterGitStatus_lines output line :
  line ∈ Split newline (filterGitStatus output) ↔
  line = "" ∨ line ∈ Split newline output ∧ keep_status line = true.
Proof.
  unfold filterGitStatus. set (l := filter _ _). assert (∀ x, x ∈ l ↔ x ∈ Split newline output ∧ keep_status x = true) as Hl.
  { intros x. unfold l. rewrite list_elem_of_filter. tauto. }
  case_decide as E.
  - rewrite E in Hl. cbn. rewrite list_elem_of_singleton. split; [by left|]. intros [?|H]; [done|].
    apply Hl in H. by apply elem_of_nil in H.
  - rewrite split_join_newline; [|done|].
    + rewrite elem_of_app, list_elem_of_singleton, Hl. tauto.
    + apply Forall_forall. intros x [Hx _]%Hl. pose proof (split_parts newline output) as Hp.
      rewrite Forall_forall in Hp. by apply Hp.
Qed.

Definition unhidden (path : string) : Prop := AllowSensitiveFiles s = false → isSensitivePath path = false.

(** What the git tools show. Their output fits the buffer and is called
    truncated when it fills it. Every line of a status is a branch line, too
    short to name a file, or names no path the policy hides; and no line of
    git's that is like that is lost. The diff is git's own for names the policy
    does not hide, or empty without a second run. *)
Theorem git_policy :
  (∀ out truncated, gitStatus env s = Ok (out, truncated) → AllowSensitiveFiles s = false →
    ∃ raw, gitOutput env ["status"; "--short"; "--branch"] = Ok raw ∧
      truncated = bool_decide (maxOutputBytes ≤ Z.of_nat (String.length raw)) ∧
      ∀ line, line ∈ Split newline out ↔ line = "" ∨ line ∈ Split newline raw ∧ line ≠ "" ∧
        (HasPrefix line "## " = true ∨ (String.length line < 3)%nat ∨
         ∀ path, path ∈ SplitBy " -> " (path_field line) → isSensitivePath (TrimQuotes path) = false)) ∧
  (∀ root rel out truncated, gitDiff lim env s t root rel = Ok (out, truncated) →
    Z.of_nat (String.length out) ≤ maxOutputBytes ∧
    truncated = bool_decide (maxOutputBytes ≤ Z.of_nat (String.length out)) ∧
    (rel ≠ "" → unhidden rel) ∧
    (out = "" ∨ ∃ safe, safe ≠ [] ∧ Forall unhidden safe ∧
       gitOutput env (["diff"; "--no-ext-diff"; "--no-textconv"; "--"] ++ safe) = Ok out)).
Proof.
  split.
  - unfold gitStatus, gitRun. intros out truncated H Hs. destruct (gitOutput _ _) as [raw|] eqn:E; [|done].
    rewrite Hs in H. injection H as <- <-. exists raw. split; [done|]. split; [done|]. intros line.
    rewrite filterGitStatus_lines. apply or_iff_compat_l, and_iff_compat_l. unfold keep_status.
    case_decide as E1; [split; [done|tauto]|]. destruct (_ || _) eqn:E2.
    + split; [|done]. intros _. split; [done|]. apply orb_true_iff in E2 as [E2|E2%bool_decide_eq_true]; auto.
    + apply orb_false_iff in E2 as [E2 E3%bool_decide_eq_false]. rewrite forallb_forall. split.
      * intros H. split; [done|]. do 2 right. intros path Hp%list_elem_of_In. by apply negb_true_iff, H.
      * intros [_ [?|[?|H]]]; [congruence|done|]. intros path Hp%list_elem_of_In. by apply negb_true_iff, H.
  - unfold gitDiff. intros root rel out truncated H. destruct (resolveWorkspaceRoot _ _ _ _); [|done].
    destruct (if decide (rel = "") then _ else _) eqn:Er; [|done].
    destruct (gitOutput _ _) as [names|]; [|done]. cbv zeta in H.
    assert (rel ≠ "" → unhidden rel) as Hrel.
    { intros Hne Hs. rewrite decide_False in Er by done. unfold resolveAllowedPath in Er. rewrite Hs in Er.
      by destruct (isSensitivePath rel). }
    case_decide as Es.
    { injection H as <- <-. cbn [String.length Z.of_nat]. rewrite bool_decide_eq_false_2 by (unfold maxOutputBytes; lia).
      split; [unfold maxOutputBytes; lia|]. by auto. }
    unfold gitRun in H. destruct (gitOutput _ _) as [raw|] eqn:Eo; [|done]. injection H as <- <-.
    split; [|split; [done|split; [done|]]].
    + unfold gitOutput in Eo. destruct (negb _); [done|]. case_decide; [|done]. injection Eo as <-. apply captured_bound.
    + right. exists (diff_names s names). split; [done|]. split; [|done]. apply Forall_forall.
      intros x [[_ Hx] _]%list_elem_of_filter. unfold unhidden. by apply hidden_spec.
Qed.
End spec.

(** ** A workspace searched *)

Definition sample_search : search_env := {|
  se_fault := λ _, false; se_unstattable := λ _, false; se_lost := λ _ _, false; se_size := λ _, 0;
  se_expired := false;
  se_rg := λ _ _, {| proc_found := false; proc_writes := []; proc_exit := 0 |};
  se_git := λ args, {| proc_found := true; proc_exit := 0; proc_writes :=
    [if decide (args = ["status"; "--short"; "--branch"])
     then "## main" +:+ String newline (" M a.txt" +:+ String newline ("?? .env" +:+ String newline ""))
     else if decide (args = ["diff"; "--name-only"; "-z"; "--"])
     then "a.txt" +:+ String nul (".env" +:+ String nul "") else "+hello"] |};
  se_match := λ _ _, false |}.

(** Without ripgrep a search reads through links: a query finds the lines of the
    blocked [.env], and of a file outside the workspace. *)
Example search_through_link :
  searchCode go_limits sample_search sample_service (<[["etc"; "passwd"] := File "root" 420]>
    (<[["ws"; "notes"] := Link "/etc/passwd"]> sample_tree)) ["ws"] "SECRET" "." =
    Ok [{| sm_Path := "link"; sm_Line := 1; sm_Text := "SECRET" |}] ∧
  searchCode go_limits sample_search sample_service (<[["etc"; "passwd"] := File "root" 420]>
    (<[["ws"; "notes"] := Link "/etc/passwd"]> sample_tree)) ["ws"] "root" "." =
    Ok [{| sm_Path := "notes"; sm_Line := 1; sm_Text := "root" |}].
Proof. by split; vm_compute. Qed.

(** With ripgrep, a colon in the name of a sensitive file hides it from the
    policy, which sees the path up to the colon. *)
Example rg_colon_name :
  parseRG sample_service ["ws"] ("/ws/a:1:b.pem:7:KEY" +:+ String newline "/ws/b.pem:7:KEY") =
    [{| sm_Path := "a"; sm_Line := 1; sm_Text := "b.pem:7:KEY" |}].
Proof. by vm_compute. Qed.

Lemma findFiles_spec_witness :
  findFiles go_limits sample_search sample_service sample_tree ["ws"] " txt" = Ok ["a.txt"; "src/b.txt"] ∧
  ∃ r, EvalSymlinks go_limits sample_tree ["ws"] = Ok r ∧
    ∃ q n, visited sample_search sample_tree (skip_dir sample_service r r) r (r ++ q) n ∧ "a.txt" = render q.
Proof.
  assert (findFiles go_limits sample_search sample_service sample_tree ["ws"] " txt" = Ok ["a.txt"; "src/b.txt"]) as E
    by by vm_compute.
  split; [exact E|].
  destruct (findFiles_spec go_limits sample_search sample_service sample_tree ["ws"] " txt" _ E) as (r & Hr & _ & Hhit & _).
  exists r. split; [exact Hr|]. destruct (Hhit "a.txt") as (q & n & Hv & Hq & _); [apply elem_of_cons; left; reflexivity|].
  exists q, n. exact (conj Hv Hq).
Defined.

Lemma searchCode_policy_witness :
  searchCode go_limits sample_search sample_service sample_tree ["ws"] "hello" "." =
    Ok [{| sm_Path := "a.txt"; sm_Line := 1; sm_Text := "hello" |}] ∧
  isSensitivePath "a.txt" = false.
Proof.
  assert (searchCode go_limits sample_search sample_service sample_tree ["ws"] "hello" "." =
    Ok [{| sm_Path := "a.txt"; sm_Line := 1; sm_Text := "hello" |}]) as E by by vm_compute.
  split; [exact E|].
  destruct (searchCode_policy go_limits sample_search sample_service sample_tree ["ws"] "hello" "." _ E) as (_ & H & _).
  apply (H eq_refl {| sm_Path := "a.txt"; sm_Line := 1; sm_Text := "hello" |}), list_elem_of_singleton. reflexivity.
Defined.

Example git_status_filtered :
  gitStatus sample_search sample_service = Ok ("## main" +:+ String newline (" M a.txt" +:+ String newline ""), false).
Proof. by vm_compute. Qed.

Lemma git_policy_witness :
  gitDiff go_limits sample_search sample_service sample_tree ["ws"] "" = Ok ("+hello", false) ∧
  ∃ safe, safe ≠ [] ∧ Forall (unhidden sample_service) safe.
Proof.
  assert (gitDiff go_limits sample_search sample_service sample_tree ["ws"] "" = Ok ("+hello", false)) as E
    by by vm_compute.
  split; [exact E|].
  destruct (git_policy go_limits sample_search sample_service sample_tree) as [_ H].
  destruct (H _ _ _ _ E) as (_ & _ & _ & [Hout|(safe & Hne & Hs & _)]); [discriminate|].
  exists safe. exact (conj Hne Hs).
Defined.
