(* ===== verification/Sessions.v ===== *)
(** * Sessions of the coding agents

    The records that the adapters of the three harnesses share
    ([src/internal/agentops/harness_session.go]), and the log files that the
    adapters of OMP and Codex index ([indexSnapshot], [Read], [List] and
    [Discover] of [omp_session.go] and [codex_session.go]): these functions are
    the same code twice, and are defined here once over a [format].

    A log file is a text of lines. Between two calls it may change in any way;
    what the file system does not let the client read is the environment. Offsets
    and lengths are natural numbers, since files are shorter than 2^63 bytes. *)

From S2P Require Import Prelude Entities GoStrings Json GoPath Paths FileOps Search AgentRuns.
Open Scope Z_scope.

(** ** harness_session.go *)

Definition SessionEntryMessage : string := "message".
Definition SessionEntryToolCall : string := "tool_call".
Definition SessionEntryToolResult : string := "tool_result".
Definition SessionEntryActivity : string := "activity".
Definition SessionEntryRuntime : string := "runtime".
Definition SessionEntryError : string := "error".

Record HarnessSessionRef : Type := {
  ref_Harness : string;
  ref_ID : string;
  ref_Title : string;
  ref_Model : string;
  ref_Thinking : string;
  ref_StartedAt : time;
  ref_UpdatedAt : time;
  ref_Locator : option abspath;                (* [None] for the empty one *)
  ref_root : string
}.

Record SessionEntry : Type := {
  se_SourceSeq : Z;
  se_At : time;
  se_Kind : string;
  se_Role : string;
  se_Text : string;
  se_ToolName : string;
  se_ToolCall : string;
  se_Status : string;
  se_Arguments : RawMessage;
  se_RawType : string
}.

(** An entry of which only these fields are set; the others are Go's zeros. *)
Definition entry (seq : Z) (at_ : time) (kind role text tool call status : string) (args : RawMessage)
    (raw_type : string) : SessionEntry := {|
  se_SourceSeq := seq; se_At := at_; se_Kind := kind; se_Role := role; se_Text := text; se_ToolName := tool;
  se_ToolCall := call; se_Status := status; se_Arguments := args; se_RawType := raw_type |}.

(** [entries[i].RawType = t]. *)
Definition set_raw_type (t : string) (e : SessionEntry) : SessionEntry :=
  entry (se_SourceSeq e) (se_At e) (se_Kind e) (se_Role e) (se_Text e) (se_ToolName e) (se_ToolCall e) (se_Status e)
    (se_Arguments e) t.

Record HarnessRawRecord : Type := {
  hr_SourceSeq : Z; hr_At : time; hr_RawType : string; hr_Payload : string }.

Record HarnessLiveEvent : Type := { le_Record : HarnessRawRecord; le_Entries : list SessionEntry }.

Record SessionPage : Type := {
  sp_Session : HarnessSessionRef;
  sp_Entries : list SessionEntry;
  sp_RawRecords : list HarnessRawRecord;
  sp_NextCursor : Z;
  sp_EOF : bool
}.

Inductive session_err : Type :=
| ESessionNotFound                             (* [ErrHarnessSessionNotFound] *)
| EOtherHarness (id harness : string)
| ELocatorEscapes
| ELocatorKind
| ERecordTooLong
| EInvalidRecord (at_ : nat)
| EParse (seq : Z)
| ENoMetadata
| EEmptyEvent
| EInvalidEvent
| ESessionIO (e : io_err)
| EDone.                                       (* the context is done *)

(** [limit], [default] and [max] of a request. *)
Definition clamp_limit (def max limit : Z) : Z :=
  let limit := if decide (limit ≤ 0) then def else limit in
  if decide (max < limit) then max else limit.

(** ** The index of a log *)

Record recordPos : Type := { rp_seq : Z; rp_offset : nat; rp_length : nat }.
Record fileIndex : Type := { ix_offset : nat; ix_records : list recordPos }.
Definition new_index : fileIndex := {| ix_offset := 0; ix_records := [] |}.

(** [reader.ReadBytes('\n')] until the end: every line with its newline, the rest
    of the file without. *)
Fixpoint lines_of (s : string) : list string :=
  match s with
  | "" => []
  | String c s =>
      if decide (c = newline) then String c "" :: lines_of s
      else match lines_of s with [] => [String c ""] | l :: ls => String c l :: ls end
  end.

Definition terminated (line : string) : bool := HasSuffix line (String newline "").

Definition size (content : string) : nat := String.length content.
Definition from (n : nat) (content : string) : string := String.substring n (size content - n) content.

Section index.
Context `{JSON} (max_record : nat).

(** The loop of [indexSnapshot]. Its [cursor] is always the offset of the index. *)
Fixpoint index_lines (lines : list string) (ix : fileIndex) : fileIndex * result session_err () :=
  match lines with
  | [] => (ix, Ok ())
  | line :: lines =>
      if decide (max_record < size line)%nat then (ix, Err ERecordTooLong)
      else
        let trimmed := TrimSpace line in
        let moved rs := {| ix_offset := ix_offset ix + size line; ix_records := rs |} in
        if terminated line || (nonblank line && Valid trimmed) then
          if nonblank line then
            if negb (Valid trimmed) then (ix, Err (EInvalidRecord (ix_offset ix)))
            else index_lines lines (moved (ix_records ix ++
                   [{| rp_seq := Z.of_nat (length (ix_records ix)) + 1; rp_offset := ix_offset ix; rp_length := size line |}]))
          else index_lines lines (moved (ix_records ix))
        else index_lines lines ix
  end.

(** [indexSnapshot] of a file whose content is [content]; the index of the
    adapter keeps what the loop did when it fails. *)
Definition indexSnapshot (content : result io_err string) (old : option fileIndex) :
    option fileIndex * result session_err (list recordPos) :=
  match content with
  | Err e => (old, Err (ESessionIO e))
  | Ok content =>
      let ix := match old with
                | Some ix => if decide (size content < ix_offset ix)%nat then new_index else ix
                | None => new_index
                end in
      let '(ix, r) := index_lines (lines_of (from (ix_offset ix) content)) ix in
      (Some ix, _ ← r; Ok (ix_records ix))
  end.

(** [sort.Search]. *)
Fixpoint search_from (fuel : nat) (f : nat → bool) (i j : nat) : nat :=
  match fuel with
  | O => i
  | S fuel =>
      if decide (i < j)%nat then
        let h := Nat.div2 (i + j) in
        if f h then search_from fuel f i h else search_from fuel f (S h) j
      else i
  end.
Definition Search (n : nat) (f : nat → bool) : nat := search_from n f 0 n.

(** [f.ReadAt(line, pos.offset)], with the bytes it did not read as they were
    made: [line] keeps its length. *)
Definition null_byte : string := String (Ascii.ascii_of_N 0) "".
Definition ReadAt (content : string) (pos : recordPos) : string :=
  let got := String.substring (rp_offset pos) (rp_length pos) content in
  got +:+ String.concat "" (replicate (rp_length pos - size got) null_byte).
End index.

(** [bufio.Scanner] with a buffer of [max_line] bytes, and the loop of the
    metadata readers over at most [budget] of its lines, until [enough]. A carriage
    return at the end of a line, which the scanner drops, is trimmed below. *)
Definition scanner_lines (content : string) : list string :=
  (λ l, TrimSuffix l (String newline "")) <$> lines_of content.

Fixpoint meta_loop {M} (max_line budget : nat) (step : string → M → result session_err M) (enough : M → bool)
    (lines : list string) (m : M) : result session_err M :=
  match lines with
  | [] => Ok m
  | line :: lines =>
      if decide (max_line ≤ size line)%nat then Err ERecordTooLong
      else match budget with
           | O => Ok m
           | S budget =>
               if nonblank line then
                 match step (TrimSpace line) m with
                 | Err e => Err e
                 | Ok m => if enough m then Ok m else meta_loop max_line budget step enough lines m
                 end
               else meta_loop max_line budget step enough lines m
           end
  end.

(** What the file system does not let the client read, and the times of the
    files. *)
Record log_env : Type := {
  lg_fault : abspath → bool;                   (* a directory *)
  lg_modified : abspath → option time
}.

(** [filepath.WalkDir] over directories that are all read: nothing else of
    [search_env] matters to it. *)
Definition whole : search_env := {|
  se_fault := λ _, false; se_unstattable := λ _, false; se_lost := λ _ _, false; se_size := λ _, 0;
  se_expired := false; se_rg := λ _ _, {| proc_found := false; proc_writes := []; proc_exit := 0 |};
  se_git := λ _, {| proc_found := false; proc_writes := []; proc_exit := 0 |}; se_match := λ _ _, false |}.

(** [strings.Trim] of one character. *)
Fixpoint drop_chars (c : Ascii.ascii) (l : list Ascii.ascii) : list Ascii.ascii :=
  match l with x :: l' => if decide (x = c) then drop_chars c l' else l | [] => [] end.
Definition TrimChar (c : Ascii.ascii) (s : string) : string :=
  String.string_of_list_ascii (reverse (drop_chars c (reverse (drop_chars c (String.list_ascii_of_string s))))).

(** ** The adapters of log files *)

(** What differs between the two. *)
Record format : Type := {
  fm_harness : string;
  fm_default_list : Z; fm_max_list : Z;
  fm_default_read : Z; fm_max_read : Z;
  fm_max_record : nat;
  fm_files : tree → bool → result session_err (list abspath);                     (* [sessionFiles] *)
  fm_meta : tree → abspath → result session_err (HarnessSessionRef * string * list string);
                                               (* the session, its directory, what its user said *)
  fm_validate : tree → abspath → result session_err ();
  fm_parse : string → Z → result session_err (HarnessRawRecord * list SessionEntry);
  fm_task : list string → string → bool        (* the user asked for the task *)
}.

Section adapter.
Context `{JSON} (lim : limits) (fm : format).

(** [os.Open] and reading a file. *)
Definition read_log (t : tree) (p : abspath) : result io_err string :=
  match Stat lim t p with
  | Ok (File content _) => Ok content
  | Ok _ => Err EISDIR
  | Err e => Err e
  end.

(** [canonicalOMPPath] and [canonicalCodexPath]. A relative path is cleaned only:
    the working directory of the client is not in the model. *)
Definition canonical (t : tree) (path : string) : string :=
  let path := TrimSpace path in
  if decide (path = "") then ""
  else if IsAbs path
  then let p := clean_parts true path in
       "/" +:+ Join "/" (match EvalSymlinks lim t p with Ok q => q | Err _ => p end)
  else Clean path.

(** [pathWithinCodexRoot], and the same test in the adapter of OMP. *)
Definition real_or_same (t : tree) (p : abspath) : abspath :=
  match EvalSymlinks lim t p with Ok q => q | Err _ => p end.
Definition within (t : tree) (root target : abspath) : bool :=
  negb (climbs (Rel (real_or_same t root) (real_or_same t target))).

Definition meta : Type := HarnessSessionRef * string * list string.
Definition meta_ref (m : meta) : HarnessSessionRef := m.1.1.
Definition meta_cwd (m : meta) : string := m.1.2.
Definition meta_texts (m : meta) : list string := m.2.

(** The metadata of the files that have any and are of the directory [root]. *)
Definition known_metas (t : tree) (root : string) (files : list abspath) : list meta :=
  omap (λ p, match fm_meta fm t p with
             | Ok m => if bool_decide (root ≠ "") && negb (bool_decide (canonical t (meta_cwd m) = root)) then None else Some m
             | Err _ => None
             end) files.

(** The order of [List]. *)
Definition later (a b : meta) : bool :=
  if decide (ref_StartedAt (meta_ref a) = ref_StartedAt (meta_ref b))
  then string_gt (ref_ID (meta_ref a)) (ref_ID (meta_ref b))
  else bool_decide (ref_StartedAt (meta_ref b) < ref_StartedAt (meta_ref a)).

(** [sort] is [sort.Slice], [expired] whether the context is done. *)
Definition List (sort : (meta → meta → bool) → list meta → list meta) (t : tree) (expired : bool) (root : string)
    (limit : Z) : result session_err (list HarnessSessionRef) :=
  let limit := clamp_limit (fm_default_list fm) (fm_max_list fm) limit in
  match fm_files fm t expired with
  | Err e => Err e
  | Ok files =>
      if expired && negb (bool_decide (files = [])) then Err EDone
      else Ok (meta_ref <$> take (Z.to_nat limit) (sort later (known_metas t (canonical t root) files)))
  end.

(** The candidate that is nearer in time, the earlier file first. *)
Definition nearer (best : option (meta * Z)) (m : meta) (delta : Z) : option (meta * Z) :=
  match best with
  | Some (_, d) => if decide (delta < d) then Some (m, delta) else best
  | None => Some (m, delta)
  end.

(** The loop of [Discover]: [native] is an id that settles it at once. *)
Fixpoint discover_from (ms : list meta) (task native : string) (started : time) (exact nearest : option (meta * Z)) :
    option meta :=
  match ms with
  | [] => match exact, nearest with Some (m, _), _ => Some m | None, Some (m, _) => Some m | None, None => None end
  | m :: ms =>
      if bool_decide (native ≠ "") && bool_decide (ref_ID (meta_ref m) = native) then Some m
      else
        let delta := if IsZero started then 0 else distance (ref_StartedAt (meta_ref m)) started in
        if bool_decide (task ≠ "") && fm_task fm (meta_texts m) task
        then discover_from ms task native started (nearer exact m delta) nearest
        else if IsZero started || bool_decide (delta ≤ 30000000000)
        then discover_from ms task native started exact (nearer nearest m delta)
        else discover_from ms task native started exact nearest
  end.

(** The adapter of OMP does not look at [native]. *)
Definition Discover (t : tree) (expired : bool) (root task native : string) (started : time) :
    result session_err HarnessSessionRef :=
  match fm_files fm t expired with
  | Err e => Err e
  | Ok files =>
      if expired && negb (bool_decide (files = [])) then Err EDone
      else match discover_from (known_metas t (canonical t root) files) (TrimSpace task) (TrimSpace native) started None None with
           | Some m => Ok (meta_ref m)
           | None => Err ESessionNotFound
           end
  end.

Definition resolveLocator (t : tree) (expired : bool) (r : HarnessSessionRef) : result session_err abspath :=
  match ref_Locator r with
  | Some p => Ok p
  | None =>
      if decide (TrimSpace (ref_ID r) = "") then Err ESessionNotFound
      else
        match fm_files fm t expired with
        | Err e => Err e
        | Ok files =>
            match find (λ p, match fm_meta fm t p with Ok m => bool_decide (ref_ID (meta_ref m) = ref_ID r) | Err _ => false end)
                    files with
            | Some p => Ok p
            | None => Err ESessionNotFound
            end
        end
  end.

(** The loop of [Read] over the positions of the page. *)
Fixpoint read_records (content : string) (positions : list recordPos) (page : SessionPage) : result session_err SessionPage :=
  match positions with
  | [] => Ok page
  | pos :: positions =>
      match fm_parse fm (TrimSpace (ReadAt content pos)) (rp_seq pos) with
      | Err _ => Err (EParse (rp_seq pos))
      | Ok (rec, entries) =>
          read_records content positions {|
            sp_Session := sp_Session page;
            sp_Entries := sp_Entries page ++ entries;
            sp_RawRecords := sp_RawRecords page ++ [rec];
            sp_NextCursor := rp_seq pos;
            sp_EOF := sp_EOF page |}
      end
  end.

(** [Read]. The tree is [t] when the file is found and indexed and [t'] when the
    records are read; [indexes] are the indexes of the adapter by file. *)
Definition Read (t t' : tree) (expired : bool) (r : HarnessSessionRef) (after limit : Z) (indexes : gmap abspath fileIndex) :
    gmap abspath fileIndex * result session_err SessionPage :=
  if bool_decide (ref_Harness r ≠ "") && bool_decide (ref_Harness r ≠ fm_harness fm)
  then (indexes, Err (EOtherHarness (ref_ID r) (ref_Harness r)))
  else
    match resolveLocator t expired r with
    | Err e => (indexes, Err e)
    | Ok path =>
        match fm_validate fm t path with
        | Err e => (indexes, Err e)
        | Ok _ =>
            let '(ix, positions) := indexSnapshot (fm_max_record fm) (read_log t path) (indexes !! path) in
            let indexes := match ix with Some ix => <[path := ix]> indexes | None => indexes end in
            match positions with
            | Err e => (indexes, Err e)
            | Ok positions =>
                let limit := clamp_limit (fm_default_read fm) (fm_max_read fm) limit in
                let start := Search (length positions) (λ i, bool_decide (Some true =
                               (λ p, bool_decide (after < rp_seq p)) <$> positions !! i)) in
                let stop := Nat.min (start + Z.to_nat limit) (length positions) in
                match read_log t' path with
                | Err e => (indexes, Err (ESessionIO e))
                | Ok content =>
                    let session := match ref_Locator r with
                                   | Some _ => r
                                   | None => match fm_meta fm t' path with Ok m => meta_ref m | Err _ => r end
                                   end in
                    if expired && bool_decide (start < stop)%nat then (indexes, Err EDone)
                    else
                      (indexes,
                       read_records content (take (stop - start) (drop start positions)) {|
                         sp_Session := session; sp_Entries := []; sp_RawRecords := []; sp_NextCursor := after;
                         sp_EOF := bool_decide (stop = length positions) |})
                end
            end
        end
    end.
End adapter.
