(* ===== verification/CodexSession.v ===== *)
(** * The adapter of Codex (agentops/codex_session.go)

    Rollout logs under [CODEX_HOME]: which files are sessions, their metadata,
    and the entries that a durable record and a live event are shown as. *)

From S2P Require Import Prelude Entities GoStrings Json GoPath Paths FileOps Search AgentRuns Sessions.
Open Scope Z_scope.

Definition defaultCodexSessionLimit : Z := 50.
Definition maxCodexSessionLimit : Z := 500.
Definition defaultCodexReadLimit : Z := 200.
Definition maxCodexReadLimit : Z := 2000.
Definition maxCodexRecordBytes : nat := Z.to_nat (2 ^ 23).

Record codexRolloutEnvelope : Type := {
  env_Timestamp : string; env_Ordinal : Z; env_Type : string; env_Payload : RawMessage }.
Record codexSessionMetaPayload : Type := {
  smp_SessionID : string; smp_ID : string; smp_Timestamp : string; smp_CWD : string }.
Record codexTurnContextPayload : Type := { tcp_Model : string; tcp_Effort : string; tcp_ReasoningEffort : string }.
Record codexContentPart : Type := { cp_Type : string; cp_Text : string }.
Record codexResponseItem : Type := {
  ri_Type : string; ri_Role : string; ri_Name : string; ri_CallID : string; ri_Input : string; ri_Status : string;
  ri_Arguments : RawMessage; ri_Output : RawMessage; ri_Content : list codexContentPart }.
Record codexEventMsg : Type := { em_Type : string; em_Message : string }.
Record codexLiveItem : Type := {
  li_ID : string; li_Type : string; li_Text : string; li_Command : string; li_AggregatedOutput : string;
  li_Status : string; li_Server : string; li_Tool : string; li_Arguments : RawMessage; li_Result : RawMessage;
  li_Error : RawMessage; li_ExitCode : option Z }.
Record codexLiveEnvelope : Type := {
  lv_Type : string; lv_ThreadID : string; lv_Item : codexLiveItem; lv_Error : RawMessage }.

Section codex.
Context `{JSON}.

(** ** Decoding *)

Definition dec_envelope : raw → option codexRolloutEnvelope := dec_struct (λ m,
  timestamp ← get_string "timestamp" m; ordinal ← get_int "ordinal" m; type ← get_string "type" m;
  payload ← get_raw "payload" m;
  Some {| env_Timestamp := timestamp; env_Ordinal := ordinal; env_Type := type; env_Payload := payload |}).

Definition dec_meta : raw → option codexSessionMetaPayload := dec_struct (λ m,
  session ← get_string "session_id" m; id ← get_string "id" m; timestamp ← get_string "timestamp" m;
  cwd ← get_string "cwd" m; _ ← get_string "originator" m; _ ← get_string "cli_version" m;
  _ ← get_string "model_provider" m;
  Some {| smp_SessionID := session; smp_ID := id; smp_Timestamp := timestamp; smp_CWD := cwd |}).

Definition dec_turn_context : raw → option codexTurnContextPayload := dec_struct (λ m,
  model ← get_string "model" m; effort ← get_string "effort" m;
  reasoning ← get_struct (get_struct (get_string "reasoning_effort") "settings") "collaboration_mode" m;
  Some {| tcp_Model := model; tcp_Effort := effort; tcp_ReasoningEffort := reasoning |}).

Definition dec_part : raw → option codexContentPart := dec_struct (λ m,
  type ← get_string "type" m; text ← get_string "text" m; Some {| cp_Type := type; cp_Text := text |}).

Definition dec_item : raw → option codexResponseItem := dec_struct (λ m,
  type ← get_string "type" m; _ ← get_string "id" m; role ← get_string "role" m; name ← get_string "name" m;
  call ← get_string "call_id" m; input ← get_string "input" m; status ← get_string "status" m;
  arguments ← get_raw "arguments" m; output ← get_raw "output" m; content ← get_list dec_part "content" m;
  Some {| ri_Type := type; ri_Role := role; ri_Name := name; ri_CallID := call; ri_Input := input;
          ri_Status := status; ri_Arguments := arguments; ri_Output := output; ri_Content := content |}).

Definition dec_event : raw → option codexEventMsg := dec_struct (λ m,
  type ← get_string "type" m; _ ← get_string "turn_id" m; _ ← get_string "last_agent_message" m;
  message ← get_string "message" m; Some {| em_Type := type; em_Message := message |}).

Definition live_item (m : list (string * raw)) : option codexLiveItem :=
  id ← get_string "id" m; type ← get_string "type" m; text ← get_string "text" m; command ← get_string "command" m;
  output ← get_string "aggregated_output" m; status ← get_string "status" m; server ← get_string "server" m;
  tool ← get_string "tool" m; arguments ← get_raw "arguments" m; result ← get_raw "result" m;
  error ← get_raw "error" m; code ← get_int_ptr "exit_code" m;
  Some {| li_ID := id; li_Type := type; li_Text := text; li_Command := command; li_AggregatedOutput := output;
          li_Status := status; li_Server := server; li_Tool := tool; li_Arguments := arguments; li_Result := result;
          li_Error := error; li_ExitCode := code |}.

Definition dec_live : raw → option codexLiveEnvelope := dec_struct (λ m,
  type ← get_string "type" m; thread ← get_string "thread_id" m; item ← get_struct live_item "item" m;
  error ← get_raw "error" m;
  Some {| lv_Type := type; lv_ThreadID := thread; lv_Item := item; lv_Error := error |}).

(** ** Texts *)

Definition parseCodexTime (s : string) : time :=
  let s := TrimSpace s in
  if decide (s = "") then zero_time else default zero_time (parse_time s).

Definition codexContentTexts (parts : list codexContentPart) : list string :=
  omap (λ p, if one_of (cp_Type p) ["input_text"; "output_text"; "text"] && nonblank (cp_Text p)
             then Some (cp_Text p) else None) parts.

Definition normalizeCodexArguments (r : RawMessage) : RawMessage :=
  match r with
  | None => None
  | Some r =>
      if is_null r then None
      else match raw_shape r with
           | RString s =>
               match parse (TrimSpace s) with
               | Some candidate => Some candidate
               | None => Some (encode_entry "value" s)
               end
           | _ => Some r
           end
  end.

(** [obj[key]] of a [map[string]any]: the last of the name. *)
Definition map_member (key : string) (m : list (string * raw)) : option raw :=
  snd <$> last (filter (λ kv, kv.1 = key) m).

Definition codexJSONText (r : RawMessage) : string :=
  match r with
  | None => ""
  | Some r =>
      match raw_shape r with
      | RNull => ""
      | RString s => s
      | RArray l =>
          match mapM dec_part l with
          | Some parts => Join (String newline "") (codexContentTexts parts)
          | None => raw_text r
          end
      | RObject m =>
          match omap (λ key, map_member key m) ["text"; "message"; "output"; "content"] with
          | v :: _ => match raw_shape v with RString x => x | _ => encode v end
          | [] => raw_text r
          end
      | _ => raw_text r
      end
  end.

(** ** Entries *)

Definition normalizeCodexResponseItem (item : codexResponseItem) (seq : Z) (at_ : time) : list SessionEntry :=
  if decide (ri_Type item = "message") then
    if negb (one_of (ri_Role item) ["user"; "assistant"]) then []
    else let text := Join (String newline "") (codexContentTexts (ri_Content item)) in
         if nonblank text then [entry seq at_ SessionEntryMessage (ri_Role item) text "" "" "" None ""] else []
  else if decide (ri_Type item = "function_call") then
    [entry seq at_ SessionEntryToolCall "assistant" "" (ri_Name item) (ri_CallID item) "requested"
       (normalizeCodexArguments (ri_Arguments item)) ""]
  else if decide (ri_Type item = "function_call_output") then
    [entry seq at_ SessionEntryToolResult "tool" (codexJSONText (ri_Output item)) "" (ri_CallID item) "completed" None ""]
  else if decide (ri_Type item = "custom_tool_call") then
    [entry seq at_ SessionEntryToolCall "assistant" "" (ri_Name item) (ri_CallID item)
       (firstNonEmptyString [ri_Status item; "requested"]) (Some (encode_entry "input" (ri_Input item))) ""]
  else if decide (ri_Type item = "custom_tool_call_output") then
    [entry seq at_ SessionEntryToolResult "tool" (codexJSONText (ri_Output item)) "" (ri_CallID item)
       (firstNonEmptyString [ri_Status item; "completed"]) None ""]
  else [].

Definition parseCodexDurableRecord (line : string) (seq : Z) : result session_err (HarnessRawRecord * list SessionEntry) :=
  match Unmarshal dec_envelope line with
  | None => Err (EParse seq)
  | Some env =>
      let at_ := parseCodexTime (env_Timestamp env) in
      let rec := {| hr_SourceSeq := seq; hr_At := at_; hr_RawType := env_Type env; hr_Payload := line |} in
      if decide (env_Type env = "response_item") then
        match Unmarshal_raw dec_item (env_Payload env) with
        | None => Err (EParse seq)
        | Some item =>
            Ok (rec, set_raw_type ("response_item/" +:+ ri_Type item) <$> normalizeCodexResponseItem item seq at_)
        end
      else if decide (env_Type env = "event_msg") then
        match Unmarshal_raw dec_event (env_Payload env) with
        | None => Err (EParse seq)
        | Some msg =>
            Ok (rec,
              if decide (em_Type msg = "task_started") then
                [entry seq at_ SessionEntryActivity "" "" "" "" "started" None "event_msg/task_started"]
              else if decide (em_Type msg = "task_complete") then
                [entry seq at_ SessionEntryActivity "" "" "" "" "completed" None "event_msg/task_complete"]
              else if decide (em_Type msg = "error") then
                [entry seq at_ SessionEntryError "" (em_Message msg) "" "" "error" None "event_msg/error"]
              else [])
        end
      else Ok (rec, [])
  end.

(** The name of an MCP tool: the server and the tool, as far as they are set. *)
Definition mcp_name (item : codexLiveItem) : string :=
  firstNonEmptyString
    [TrimChar slash_char (TrimSpace (li_Server item) +:+ "/" +:+ TrimSpace (li_Tool item)); "mcp_tool_call"].

Definition live (kind role text tool call status : string) (args : RawMessage) (raw_type : string) : SessionEntry :=
  entry 0 zero_time kind role text tool call status args raw_type.

Definition normalizeCodexLiveToolCall (item : codexLiveItem) (raw_type : string) : option SessionEntry :=
  if decide (li_Type item = "command_execution") then
    Some (live SessionEntryToolCall "assistant" "" "command_execution" (li_ID item)
            (firstNonEmptyString [li_Status item; "started"]) (Some (encode_entry "command" (li_Command item))) raw_type)
  else if decide (li_Type item = "mcp_tool_call") then
    Some (live SessionEntryToolCall "assistant" "" (mcp_name item) (li_ID item)
            (firstNonEmptyString [li_Status item; "started"]) (li_Arguments item) raw_type)
  else None.

Definition normalizeCodexLiveToolResult (item : codexLiveItem) (raw_type : string) : option SessionEntry :=
  if decide (li_Type item = "command_execution") then
    let status := firstNonEmptyString [li_Status item; "completed"] in
    let status := match li_ExitCode item with Some c => if decide (c = 0) then status else "error" | None => status end in
    Some (live SessionEntryToolResult "tool" (li_AggregatedOutput item) "command_execution" (li_ID item) status None raw_type)
  else if decide (li_Type item = "mcp_tool_call") then
    let text := codexJSONText (li_Result item) in
    let status := firstNonEmptyString [li_Status item; "completed"] in
    let '(status, text) :=
      match li_Error item with
      | Some x => if is_null x then (status, text)
                  else ("error", if decide (text = "") then codexJSONText (li_Error item) else text)
      | None => (status, text)
      end in
    Some (live SessionEntryToolResult "tool" text (mcp_name item) (li_ID item) status None raw_type)
  else None.

(** [NormalizeLive]. *)
Definition NormalizeLive (line : string) : result session_err HarnessLiveEvent :=
  let line := TrimSpace line in
  if decide (line = "") then Err EEmptyEvent
  else
    match Unmarshal dec_live line with
    | None => Err EInvalidEvent
    | Some ev =>
        let type := lv_Type ev in
        let entries :=
          if decide (type = "thread.started") then
            if decide (lv_ThreadID ev = "") then []
            else [live SessionEntryRuntime "" ("thread " +:+ lv_ThreadID ev) "" "" "started" None type]
          else if decide (type = "turn.started") then [live SessionEntryActivity "" "" "" "" "started" None type]
          else if decide (type = "item.started") then
            match normalizeCodexLiveToolCall (lv_Item ev) type with Some e => [e] | None => [] end
          else if decide (type = "item.completed") then
            if decide (li_Type (lv_Item ev) = "agent_message") then
              if nonblank (li_Text (lv_Item ev))
              then [live SessionEntryMessage "assistant" (li_Text (lv_Item ev)) "" "" "" None type] else []
            else match normalizeCodexLiveToolResult (lv_Item ev) type with Some e => [e] | None => [] end
          else if decide (type = "turn.completed") then [live SessionEntryRuntime "" "" "" "" "completed" None type]
          else if one_of type ["turn.failed"; "error"] then
            [live SessionEntryError "" (codexJSONText (lv_Error ev)) "" "" "error" None type]
          else [] in
        Ok {| le_Record := {| hr_SourceSeq := 0; hr_At := zero_time; hr_RawType := type; hr_Payload := line |};
              le_Entries := entries |}
    end.
End codex.

(** ** Files *)

Section files.
Context `{JSON} (lim : limits) (env : log_env) (homeDir : abspath).

(** [NewCodexSessionAdapter] with the home it found. *)
Definition sessionsDir : abspath := homeDir ++ ["sessions"].
Definition archivedDir : abspath := homeDir ++ ["archived_sessions"].

(** The walk of one directory. Links are not followed below it, and what leads to
    it is. *)
Definition walk_logs (t : tree) (expired : bool) (dir : abspath) : result session_err (list abspath) :=
  match walk None t false (kernel_links lim) [] dir with
  | Ok (_, None) | Err ENOENT => Ok []
  | Err e => Err (ESessionIO e)
  | Ok (q, Some _) =>
      let visited := (λ pn, (dir ++ drop (length q) pn.1, pn.2)) <$> WalkDir whole t (λ _, false) q in
      if expired then Err EDone
      else if existsb (λ pn, is_dir pn.2 && lg_fault env pn.1) visited then Err (ESessionIO EACCES)
      else Ok (omap (λ pn, if is_dir pn.2 || HasPrefix (Base pn.1) "." || negb (HasSuffix (Base pn.1) ".jsonl")
                           then None else Some pn.1) visited)
  end.

Definition sessionFiles (t : tree) (expired : bool) : result session_err (list abspath) :=
  files ← walk_logs t expired sessionsDir;
  archived ← walk_logs t expired archivedDir;
  Ok (files ++ archived).

Definition validateLocator (t : tree) (path : abspath) : result session_err () :=
  if within lim t sessionsDir path || within lim t archivedDir path
  then if HasSuffix (ToLower (Base path)) ".jsonl" then Ok () else Err ELocatorKind
  else Err ELocatorEscapes.

(** ** Metadata *)

Definition set_session (id cwd : string) (started : time) (m : meta) : meta :=
  let r := meta_ref m in
  ({| ref_Harness := ref_Harness r; ref_ID := id; ref_Title := ref_Title r; ref_Model := ref_Model r;
      ref_Thinking := ref_Thinking r; ref_StartedAt := started; ref_UpdatedAt := ref_UpdatedAt r;
      ref_Locator := ref_Locator r; ref_root := cwd |}, cwd, meta_texts m).
Definition set_model (model thinking : string) (m : meta) : meta :=
  let r := meta_ref m in
  ({| ref_Harness := ref_Harness r; ref_ID := ref_ID r; ref_Title := ref_Title r; ref_Model := model;
      ref_Thinking := thinking; ref_StartedAt := ref_StartedAt r; ref_UpdatedAt := ref_UpdatedAt r;
      ref_Locator := ref_Locator r; ref_root := ref_root r |}, meta_cwd m, meta_texts m).
Definition set_title (title : string) (m : meta) : meta :=
  let r := meta_ref m in
  ({| ref_Harness := ref_Harness r; ref_ID := ref_ID r; ref_Title := title; ref_Model := ref_Model r;
      ref_Thinking := ref_Thinking r; ref_StartedAt := ref_StartedAt r; ref_UpdatedAt := ref_UpdatedAt r;
      ref_Locator := ref_Locator r; ref_root := ref_root r |}, meta_cwd m, meta_texts m).
Definition set_texts (texts : list string) (m : meta) : meta := (meta_ref m, meta_cwd m, texts).

Definition first_meta (harness : string) (path : abspath) : meta :=
  ({| ref_Harness := harness; ref_ID := ""; ref_Title := ""; ref_Model := ""; ref_Thinking := "";
      ref_StartedAt := zero_time; ref_UpdatedAt := default zero_time (lg_modified env path);
      ref_Locator := Some path; ref_root := "" |}, "", []).

(** One line of [readCodexSessionMeta]. *)
Definition meta_step (line : string) (m : meta) : result session_err meta :=
  match Unmarshal dec_envelope line with
  | None => Err ENoMetadata
  | Some e =>
      Ok (if decide (env_Type e = "session_meta") then
            match Unmarshal_raw dec_meta (env_Payload e) with
            | None => m
            | Some p => set_session (firstNonEmptyString [smp_SessionID p; smp_ID p]) (smp_CWD p)
                          (parseCodexTime (firstNonEmptyString [smp_Timestamp p; env_Timestamp e])) m
            end
          else if decide (env_Type e = "turn_context") then
            match Unmarshal_raw dec_turn_context (env_Payload e) with
            | None => m
            | Some p =>
                let r := meta_ref m in
                set_model (if decide (ref_Model r = "") then tcp_Model p else ref_Model r)
                  (if decide (ref_Thinking r = "") then firstNonEmptyString [tcp_Effort p; tcp_ReasoningEffort p]
                   else ref_Thinking r) m
            end
          else if decide (env_Type e = "response_item") then
            match Unmarshal_raw dec_item (env_Payload e) with
            | None => m
            | Some item =>
                if bool_decide (ri_Type item = "message") && bool_decide (ri_Role item = "user")
                then set_texts (meta_texts m ++ codexContentTexts (ri_Content item)) m else m
            end
          else m)
  end.

Definition meta_enough (m : meta) : bool :=
  let r := meta_ref m in
  bool_decide (ref_ID r ≠ "") && bool_decide (meta_cwd m ≠ "") && bool_decide (ref_Model r ≠ "") &&
  negb (bool_decide (meta_texts m = [])).

(** The end of the metadata readers: the record must have been there, and the
    time of the file stands in for a missing one. *)
Definition finish_meta (path : abspath) (m : meta) : result session_err meta :=
  let r := meta_ref m in
  if bool_decide (ref_ID r = "") || bool_decide (meta_cwd m = "") then Err ENoMetadata
  else Ok (if IsZero (ref_StartedAt r)
           then ({| ref_Harness := ref_Harness r; ref_ID := ref_ID r; ref_Title := ref_Title r; ref_Model := ref_Model r;
                    ref_Thinking := ref_Thinking r; ref_StartedAt := default (ref_StartedAt r) (lg_modified env path);
                    ref_UpdatedAt := ref_UpdatedAt r; ref_Locator := ref_Locator r; ref_root := ref_root r |},
                 meta_cwd m, meta_texts m)
           else m).

Definition readCodexSessionMeta (t : tree) (path : abspath) : result session_err meta :=
  match read_log lim t path with
  | Err e => Err (ESessionIO e)
  | Ok content =>
      m ← meta_loop maxCodexRecordBytes 512 meta_step meta_enough (scanner_lines content)
            (first_meta SubagentClientCodex path);
      m ← finish_meta path m;
      Ok (match last (meta_texts m) with
          | Some text => set_title (truncateText (TrimSpace text) 120) m
          | None => m
          end)
  end.

Definition codexHasTask (texts : list string) (task : string) : bool :=
  existsb (λ text, bool_decide (TrimSpace text = TrimSpace task)) texts.

(** The adapter. *)
Definition codex : format := {|
  fm_harness := SubagentClientCodex;
  fm_default_list := defaultCodexSessionLimit; fm_max_list := maxCodexSessionLimit;
  fm_default_read := defaultCodexReadLimit; fm_max_read := maxCodexReadLimit;
  fm_max_record := maxCodexRecordBytes;
  fm_files := sessionFiles; fm_meta := readCodexSessionMeta; fm_validate := validateLocator;
  fm_parse := parseCodexDurableRecord; fm_task := codexHasTask |}.

Definition CodexList := List lim codex.
Definition CodexDiscover := Discover lim codex.
Definition CodexRead := Read lim codex.
End files.
