(* ===== verification/OmpSession.v ===== *)
(** * The adapter of OMP (agentops/omp_session.go)

    The session logs of OMP, one directory deep, their metadata, and the entries
    that a durable record and a live event are shown as. *)

From S2P Require Import Prelude Entities GoStrings Json GoPath Paths FileOps Search AgentRuns Sessions CodexSession.
Open Scope Z_scope.

Definition defaultOMPSessionLimit : Z := 50.
Definition maxOMPSessionLimit : Z := 500.
Definition defaultOMPReadLimit : Z := 200.
Definition maxOMPReadLimit : Z := 2000.
Definition maxOMPRecordBytes : nat := Z.to_nat (2 ^ 22).

Record ompEnvelope : Type := {
  oe_Type : string; oe_Timestamp : RawMessage; oe_UpdatedAt : RawMessage; oe_Title : string; oe_ID : string;
  oe_CWD : string; oe_Model : string; oe_ThinkingLevel : string; oe_Message : RawMessage; oe_CustomType : string;
  oe_Data : RawMessage }.
Record ompContentPart : Type := {
  op_Type : string; op_Text : string; op_ID : string; op_Name : string; op_Arguments : RawMessage }.
Record ompMessage : Type := {
  om_Role : string; om_Content : list ompContentPart; om_ToolCallID : string; om_ToolName : string;
  om_IsError : bool; om_ErrorMessage : string; om_Timestamp : RawMessage }.
Record ompToolStart : Type := {
  ot_ToolCallID : string; ot_ToolName : string; ot_StartedAt : RawMessage; ot_Args : RawMessage; ot_Intent : string }.

Section omp.
Context `{JSON}.

Definition dec_envelope : raw → option ompEnvelope := dec_struct (λ m,
  type ← get_string "type" m; timestamp ← get_raw "timestamp" m; updated ← get_raw "updatedAt" m;
  title ← get_string "title" m; id ← get_string "id" m; cwd ← get_string "cwd" m; model ← get_string "model" m;
  thinking ← get_string "thinkingLevel" m; message ← get_raw "message" m; _ ← get_list Some "messages" m;
  custom ← get_string "customType" m; data ← get_raw "data" m;
  Some {| oe_Type := type; oe_Timestamp := timestamp; oe_UpdatedAt := updated; oe_Title := title; oe_ID := id;
          oe_CWD := cwd; oe_Model := model; oe_ThinkingLevel := thinking; oe_Message := message;
          oe_CustomType := custom; oe_Data := data |}).

Definition dec_part : raw → option ompContentPart := dec_struct (λ m,
  type ← get_string "type" m; text ← get_string "text" m; id ← get_string "id" m; name ← get_string "name" m;
  arguments ← get_raw "arguments" m;
  Some {| op_Type := type; op_Text := text; op_ID := id; op_Name := name; op_Arguments := arguments |}).

Definition dec_message : raw → option ompMessage := dec_struct (λ m,
  role ← get_string "role" m; content ← get_list dec_part "content" m; call ← get_string "toolCallId" m;
  tool ← get_string "toolName" m; failed ← get_bool "isError" m; error ← get_string "errorMessage" m;
  timestamp ← get_raw "timestamp" m;
  Some {| om_Role := role; om_Content := content; om_ToolCallID := call; om_ToolName := tool; om_IsError := failed;
          om_ErrorMessage := error; om_Timestamp := timestamp |}).

Definition dec_tool_start : raw → option ompToolStart := dec_struct (λ m,
  call ← get_string "toolCallId" m; tool ← get_string "toolName" m; started ← get_raw "startedAt" m;
  args ← get_raw "args" m; intent ← get_string "intent" m;
  Some {| ot_ToolCallID := call; ot_ToolName := tool; ot_StartedAt := started; ot_Args := args; ot_Intent := intent |}).

Definition parseOMPTime (r : RawMessage) : time :=
  match r with
  | None => zero_time
  | Some r =>
      match raw_shape r with
      | RString s => default zero_time (parse_time s)
      | RNumber => from_option from_milli zero_time (positive (raw_text r))
      | _ => zero_time
      end
  end.

Definition ompEnvelopeTime (env : ompEnvelope) : time :=
  let t := parseOMPTime (oe_Timestamp env) in
  if IsZero t then parseOMPTime (oe_UpdatedAt env) else t.

Definition ompTextContent (parts : list ompContentPart) : string :=
  Join (String newline "") (omap (λ p, if bool_decide (op_Type p = "text") && nonblank (op_Text p)
                                       then Some (op_Text p) else None) parts).

Definition normalizeOMPMessage (r : RawMessage) (seq : Z) (fallback : time) : result session_err (list SessionEntry) :=
  match r with
  | None => Ok []
  | Some _ =>
      match Unmarshal_raw dec_message r with
      | None => Err EInvalidEvent
      | Some msg =>
          let at_ := parseOMPTime (om_Timestamp msg) in
          let at_ := if IsZero at_ then fallback else at_ in
          let role := ToLower (om_Role msg) in
          let text := ompTextContent (om_Content msg) in
          if decide (role = "user") then
            Ok (if nonblank text then [entry seq at_ SessionEntryMessage "user" text "" "" "" None ""] else [])
          else if decide (role = "assistant") then
            let out :=
              (if nonblank text then [entry seq at_ SessionEntryMessage "assistant" text "" "" "" None ""] else []) ++
              omap (λ p, if decide (op_Type p = "toolCall")
                         then Some (entry seq at_ SessionEntryToolCall "assistant" "" (op_Name p) (op_ID p) "requested"
                                      (op_Arguments p) "")
                         else None) (om_Content msg) in
            Ok (if bool_decide (out = []) && nonblank (om_ErrorMessage msg)
                then [entry seq at_ SessionEntryError "assistant" (om_ErrorMessage msg) "" "" "error" None ""] else out)
          else if decide (role = "toolresult") then
            Ok [entry seq at_ SessionEntryToolResult "tool" text (om_ToolName msg) (om_ToolCallID msg)
                  (if om_IsError msg then "error" else "completed") None ""]
          else Ok []
      end
  end.

Definition normalizeOMPToolStart (r : RawMessage) (seq : Z) (fallback : time) : option SessionEntry :=
  start ← Unmarshal_raw dec_tool_start r;
  if decide (ot_ToolName start = "") then None
  else
    let at_ := parseOMPTime (ot_StartedAt start) in
    Some (entry seq (if IsZero at_ then fallback else at_) SessionEntryActivity "" (ot_Intent start) (ot_ToolName start)
            (ot_ToolCallID start) "started" (ot_Args start) "").

Definition parseOMPDurableRecord (line : string) (seq : Z) : result session_err (HarnessRawRecord * list SessionEntry) :=
  match Unmarshal dec_envelope line with
  | None => Err (EParse seq)
  | Some env =>
      let at_ := ompEnvelopeTime env in
      let rec := {| hr_SourceSeq := seq; hr_At := at_; hr_RawType := oe_Type env; hr_Payload := line |} in
      let named_ e := if decide (se_RawType e = "") then set_raw_type (oe_Type env) e else e in
      if decide (oe_Type env = "message") then
        match normalizeOMPMessage (oe_Message env) seq at_ with
        | Err e => Err e
        | Ok entries => Ok (rec, named_ <$> entries)
        end
      else if bool_decide (oe_Type env = "custom") && bool_decide (oe_CustomType env = "tool_execution_start") then
        Ok (rec, match normalizeOMPToolStart (oe_Data env) seq at_ with
                 | Some e => [named_ (set_raw_type (oe_CustomType env) e)]
                 | None => []
                 end)
      else Ok (rec, [])
  end.

(** [NormalizeLive]. *)
Definition NormalizeLive (line : string) : result session_err HarnessLiveEvent :=
  let line := TrimSpace line in
  if decide (line = "") then Err EEmptyEvent
  else
    match Unmarshal dec_envelope line with
    | None => Err EInvalidEvent
    | Some env =>
        let rec := {| hr_SourceSeq := 0; hr_At := ompEnvelopeTime env; hr_RawType := oe_Type env; hr_Payload := line |} in
        if one_of (oe_Type env) ["message_end"; "turn_end"] then
          match normalizeOMPMessage (oe_Message env) 0 (hr_At rec) with
          | Err e => Err e
          | Ok entries => Ok {| le_Record := rec; le_Entries := set_raw_type (oe_Type env) <$> entries |}
          end
        else if decide (oe_Type env = "tool_execution_start") then
          Ok {| le_Record := rec;
                le_Entries := match normalizeOMPToolStart (oe_Data env) 0 (hr_At rec) with
                              | Some e => [set_raw_type (oe_Type env) e]
                              | None => []
                              end |}
        else Ok {| le_Record := rec; le_Entries := [] |}
    end.
End omp.

(** ** Files *)

Definition isOMPSessionJSONL (name : string) : bool := HasSuffix name ".jsonl" && negb (HasPrefix name ".").

Section files.
Context `{JSON} (lim : limits) (env : log_env) (agentDir : abspath).

Definition sessionsDir : abspath := agentDir ++ ["sessions"].

(** [os.ReadDir] of a directory, whose own path may lead through links: the names
    in it with what they are. *)
Definition read_dir (t : tree) (p : abspath) : result io_err (list (string * node)) :=
  match walk None t true (kernel_links lim) [] p with
  | Ok (q, Some Dir) =>
      if lg_fault env p then Err EACCES
      else Ok (omap (λ name, n ← t !! (q ++ [name]); Some (name, n)) (ReadDir whole t q))
  | Ok (_, Some _) => Err ENOTDIR
  | Ok (_, None) => Err ENOENT
  | Err e => Err e
  end.

Definition child_files (t : tree) (dir : abspath) (e : string * node) : list abspath :=
  let '(name, n) := e in
  match n with
  | Dir =>
      match read_dir t (dir ++ [name]) with
      | Ok children =>
          omap (λ c, if is_dir c.2 || negb (isOMPSessionJSONL c.1) then None else Some (dir ++ [name; c.1])) children
      | Err _ => []
      end
  | _ => if isOMPSessionJSONL name then [dir ++ [name]] else []
  end.

Definition sessionFiles (t : tree) (expired : bool) : result session_err (list abspath) :=
  match read_dir t sessionsDir with
  | Err e => Err (ESessionIO e)
  | Ok entries =>
      if expired && negb (bool_decide (entries = [])) then Err EDone
      else Ok (entries ≫= child_files t sessionsDir)
  end.

Definition validateLocator (t : tree) (path : abspath) : result session_err () :=
  if negb (within lim t sessionsDir path) then Err ELocatorEscapes
  else if isOMPSessionJSONL (Base (real_or_same lim t path)) then Ok () else Err ELocatorKind.

(** [strings.EqualFold] with "user": the long s (U+017F) folds to an s too. *)
Fixpoint fold_long_s (s : string) : string :=
  match s with
  | String a ((String b s') as t) =>
      if bool_decide (Ascii.N_of_ascii a = 197%N) && bool_decide (Ascii.N_of_ascii b = 191%N)
      then String (Ascii.ascii_of_N 115) (fold_long_s s') else String a (fold_long_s t)
  | s => s
  end.
Definition is_user (role : string) : bool := bool_decide (ToLower (fold_long_s role) = "user").

(** One line of [readOMPSessionMeta]; the text of the user is the only one. *)
Definition meta_step (line : string) (m : meta) : result session_err meta :=
  match Unmarshal dec_envelope line with
  | None => Err ENoMetadata
  | Some e =>
      let r := meta_ref m in
      Ok (if decide (oe_Type e = "title") then
            let m := if nonblank (oe_Title e) then set_title (oe_Title e) m else m in
            let u := parseOMPTime (oe_UpdatedAt e) in
            if negb (IsZero u) && bool_decide (ref_UpdatedAt r < u)
            then ({| ref_Harness := ref_Harness r; ref_ID := ref_ID r; ref_Title := ref_Title (meta_ref m);
                     ref_Model := ref_Model r; ref_Thinking := ref_Thinking r; ref_StartedAt := ref_StartedAt r;
                     ref_UpdatedAt := u; ref_Locator := ref_Locator r; ref_root := ref_root r |}, meta_cwd m, meta_texts m)
            else m
          else if decide (oe_Type e = "session") then
            let m := set_session (oe_ID e) (oe_CWD e) (parseOMPTime (oe_Timestamp e)) m in
            if decide (ref_Title r = "") then set_title (oe_Title e) m else m
          else if decide (oe_Type e = "model_change") then
            if decide (ref_Model r = "") then set_model (oe_Model e) (ref_Thinking r) m else m
          else if decide (oe_Type e = "thinking_level_change") then
            if decide (ref_Thinking r = "") then set_model (ref_Model r) (oe_ThinkingLevel e) m else m
          else if decide (oe_Type e = "message") then
            if decide (default "" (head (meta_texts m)) = "") then
              match Unmarshal_raw dec_message (oe_Message e) with
              | Some msg => if is_user (om_Role msg) then set_texts [ompTextContent (om_Content msg)] m else m
              | None => m
              end
            else m
          else m)
  end.

Definition meta_enough (m : meta) : bool :=
  let r := meta_ref m in
  bool_decide (ref_ID r ≠ "") && bool_decide (default "" (head (meta_texts m)) ≠ "") &&
  bool_decide (ref_Model r ≠ "") && bool_decide (ref_Thinking r ≠ "").

Definition readOMPSessionMeta (t : tree) (path : abspath) : result session_err meta :=
  match read_log lim t path with
  | Err e => Err (ESessionIO e)
  | Ok content =>
      m ← meta_loop maxOMPRecordBytes 256 meta_step meta_enough (scanner_lines content)
            (first_meta env SubagentClientOMP path);
      finish_meta env path m
  end.

Definition ompHasTask (texts : list string) (task : string) : bool :=
  bool_decide (TrimSpace (default "" (head texts)) = task).

Definition omp : format := {|
  fm_harness := SubagentClientOMP;
  fm_default_list := defaultOMPSessionLimit; fm_max_list := maxOMPSessionLimit;
  fm_default_read := defaultOMPReadLimit; fm_max_read := maxOMPReadLimit;
  fm_max_record := maxOMPRecordBytes;
  fm_files := sessionFiles; fm_meta := readOMPSessionMeta; fm_validate := validateLocator;
  fm_parse := parseOMPDurableRecord; fm_task := ompHasTask |}.

(** A directory of sessions that is not there has none. *)
Definition OMPList (sort : (meta → meta → bool) → list meta → list meta) (t : tree) (expired : bool) (root : string) (limit : Z) : result session_err (list HarnessSessionRef) :=
  match List lim omp sort t expired root limit with
  | Err (ESessionIO ENOENT) => Ok []
  | r => r
  end.
Definition OMPDiscover (t : tree) (expired : bool) (root task : string) (started : time) :=
  Discover lim omp t expired root task "" started.
Definition OMPRead := Read lim omp.
End files.
