(* ===== verification/OpenCode.v ===== *)
(** * The adapter of OpenCode (agentops/opencode_session.go)

    OpenCode keeps its sessions in an SQLite database, which the adapter only
    reads. The tables are lists of rows; a query is a filter and a sort. The
    adapter opens the database with a single connection: a query holds it until
    its rows are closed or have been read to the end, and a query made meanwhile
    waits for it until the caller's context ends. *)

From S2P Require Import Prelude Entities GoStrings Json GoPath Search AgentRuns Sessions.
Open Scope Z_scope.

Definition defaultOpenCodeSessionLimit : Z := 50.
Definition maxOpenCodeSessionLimit : Z := 500.
Definition defaultOpenCodeReadLimit : Z := 200.
Definition maxOpenCodeReadLimit : Z := 2000.

Record openCodeSessionRow : Type := {
  os_ID : string; os_Directory : string; os_Title : string; os_Model : string; os_Agent : string;
  os_TimeCreated : Z; os_TimeUpdated : Z }.
Record messageRow : Type := { mr_id : string; mr_session : string; mr_created : Z; mr_data : string }.
Record partRow : Type := { pr_id : string; pr_message : string; pr_session : string; pr_created : Z; pr_data : string }.

Record database : Type := { db_session : list openCodeSessionRow; db_message : list messageRow; db_part : list partRow }.

Record openCodeMessageData : Type := { md_Role : string }.
Record openCodePartData : Type := {
  pd_Type : string; pd_Text : string; pd_Synthetic : bool; pd_Tool : string; pd_CallID : string; pd_State : RawMessage }.
Record openCodeToolState : Type := {
  ts_Status : string; ts_Input : RawMessage; ts_Output : RawMessage; ts_Error : RawMessage }.
Record openCodeLiveEnvelope : Type := {
  ol_Type : string; ol_Timestamp : RawMessage; ol_SessionID : string; ol_Part : RawMessage }.

Section opencode.
Context `{JSON}.

Definition dec_message : raw → option openCodeMessageData := dec_struct (λ m,
  role ← get_string "role" m; Some {| md_Role := role |}).
Definition dec_part : raw → option openCodePartData := dec_struct (λ m,
  type ← get_string "type" m; text ← get_string "text" m; synthetic ← get_bool "synthetic" m;
  tool ← get_string "tool" m; call ← get_string "callID" m; state ← get_raw "state" m;
  Some {| pd_Type := type; pd_Text := text; pd_Synthetic := synthetic; pd_Tool := tool; pd_CallID := call;
          pd_State := state |}).
Definition dec_live : raw → option openCodeLiveEnvelope := dec_struct (λ m,
  type ← get_string "type" m; timestamp ← get_raw "timestamp" m; session ← get_string "sessionID" m;
  part ← get_raw "part" m;
  Some {| ol_Type := type; ol_Timestamp := timestamp; ol_SessionID := session; ol_Part := part |}).

(** The state of a tool is decoded without looking at the error: what does not fit
    stays unset. *)
Definition lenient_string (name : string) (m : list (string * raw)) : string :=
  foldl (λ old r, default old (dec_string old r)) "" (named name m).
Definition tool_state (r : RawMessage) : openCodeToolState :=
  let m := match r with Some r => match raw_shape r with RObject m => m | _ => [] end | None => [] end in
  {| ts_Status := lenient_string "status" m; ts_Input := last (named "input" m); ts_Output := last (named "output" m);
     ts_Error := last (named "error" m) |}.

(** ** Entries *)

Definition openCodeToolTerminal (status : string) : bool :=
  one_of (ToLower (TrimSpace status)) ["completed"; "success"; "error"; "failed"; "cancelled"].

Definition openCodeJSONText (r : RawMessage) : string :=
  match r with
  | None => ""
  | Some r => match raw_shape r with RNull => "" | RString s => s | _ => raw_text r end
  end.

Definition normalizeOpenCodePart (p : openCodePartData) (role : string) (seq : Z) (at_ : time) (raw_type : string) :
    list SessionEntry :=
  if decide (pd_Type p = "text") then
    if pd_Synthetic p || negb (nonblank (pd_Text p)) then []
    else
      let role := if decide (role = "") then "assistant" else role in
      if one_of role ["user"; "assistant"]
      then [entry seq at_ SessionEntryMessage role (pd_Text p) "" "" "" None raw_type] else []
  else if decide (pd_Type p = "tool") then
    let st := tool_state (pd_State p) in
    let status := TrimSpace (ts_Status st) in
    let status := if decide (status = "") then "requested" else status in
    entry seq at_ SessionEntryToolCall "assistant" "" (pd_Tool p) (pd_CallID p) status (ts_Input st) raw_type ::
    if openCodeToolTerminal status then
      let text := openCodeJSONText (ts_Output st) in
      let text := if decide (text = "") then openCodeJSONText (ts_Error st) else text in
      [entry seq at_ SessionEntryToolResult "tool" text (pd_Tool p) (pd_CallID p)
         (if decide (status = "success") then "completed" else status) None raw_type]
    else []
  else [].

Definition parseOpenCodeDurablePart (part message : string) (seq created : Z) :
    result session_err (HarnessRawRecord * list SessionEntry) :=
  match Unmarshal dec_part part with
  | None => Err (EParse seq)
  | Some p =>
      match (if decide (message = "") then Some {| md_Role := "" |} else Unmarshal dec_message message) with
      | None => Err (EParse seq)
      | Some msg =>
          let at_ := from_milli created in
          let raw_type := "part/" +:+ pd_Type p in
          Ok ({| hr_SourceSeq := seq; hr_At := at_; hr_RawType := raw_type; hr_Payload := part |},
              normalizeOpenCodePart p (md_Role msg) seq at_ raw_type)
      end
  end.

Definition parseOpenCodeLiveTime (r : RawMessage) : time :=
  match r with
  | None => zero_time
  | Some r =>
      match raw_shape r with
      | RNumber => match integer (raw_text r) with
                   | Some ms => if decide (0 < ms) then from_milli ms else zero_time
                   | None => zero_time
                   end
      | RString s => default zero_time (parse_time s)
      | _ => zero_time
      end
  end.

(** [NormalizeLive]. *)
Definition NormalizeLive (line : string) : result session_err HarnessLiveEvent :=
  let line := TrimSpace line in
  if decide (line = "") then Err EEmptyEvent
  else
    match Unmarshal dec_live line with
    | None => Err EInvalidEvent
    | Some env =>
        let at_ := parseOpenCodeLiveTime (ol_Timestamp env) in
        let rec := {| hr_SourceSeq := 0; hr_At := at_; hr_RawType := ol_Type env; hr_Payload := line |} in
        match ol_Part env with
        | None => Ok {| le_Record := rec; le_Entries := [] |}
        | Some r =>
            if is_null r then Ok {| le_Record := rec; le_Entries := [] |}
            else match dec_part r with
                 | None => Err EInvalidEvent
                 | Some p => Ok {| le_Record := rec; le_Entries := normalizeOpenCodePart p "assistant" 0 at_ (ol_Type env) |}
                 end
        end
    end.

(** ** Sessions *)

Definition parseOpenCodeModel (text : string) : string * string :=
  let text := TrimSpace text in
  if decide (text = "") then ("", "")
  else
    match Unmarshal (dec_struct (λ m, id ← get_string "id" m; provider ← get_string "providerID" m;
                                      variant ← get_string "variant" m; Some (id, provider, variant))) text with
    | None => (text, "")
    | Some (id, provider, variant) =>
        (if bool_decide (provider ≠ "") && bool_decide (id ≠ "") then provider +:+ "/" +:+ id else id,
         if decide (variant = "default") then "" else variant)
    end.

Definition openCodeSessionRef (locator : option abspath) (r : openCodeSessionRow) : HarnessSessionRef :=
  let '(model, thinking) := parseOpenCodeModel (os_Model r) in
  {| ref_Harness := SubagentClientOpencode; ref_ID := os_ID r; ref_Title := os_Title r; ref_Model := model;
     ref_Thinking := thinking; ref_StartedAt := from_milli (os_TimeCreated r);
     ref_UpdatedAt := from_milli (os_TimeUpdated r); ref_Locator := locator; ref_root := os_Directory r |}.
End opencode.

(** ** Queries *)

(** A call that returns, or one that waits for the connection. *)
Inductive outcome (A : Type) : Type :=
| Returns (a : A)
| Waits.
Arguments Returns {A} a.
Arguments Waits {A}.

#[export] Instance outcome_ret : MRet outcome := @Returns.
#[export] Instance outcome_bind : MBind outcome := λ A B f m, match m with Returns a => f a | Waits => Waits end.

(** [db.QueryContext]: [held] says that the rows of another query are still open. *)
Definition query {A} (held : bool) (rows : list A) : outcome (list A) := if held then Waits else Returns rows.

(** The orders of the queries; texts are compared byte by byte. *)
Definition text_le (a b : string) : bool := negb (string_gt a b).
Definition by_created {A} (created : A → Z) (id : A → string) (a b : A) : Prop :=
  created a < created b ∨ created a = created b ∧ text_le (id a) (id b) = true.
Definition newest_first {A} (time : A → Z) (id : A → string) (a b : A) : Prop := by_created time id b a.
#[export] Instance by_created_dec {A} (created : A → Z) (id : A → string) a b : Decision (by_created created id a b).
Proof. unfold by_created. apply _. Defined.
#[export] Instance newest_first_dec {A} (time : A → Z) (id : A → string) a b : Decision (newest_first time id a b).
Proof. unfold newest_first. apply _. Defined.

Section queries.
Context `{JSON} (lim : limits) (d : database).

Definition sessions_in (root : string) : list openCodeSessionRow :=
  if decide (root = "") then db_session d else filter (λ r, os_Directory r = root) (db_session d).

Definition queryOpenCodeSession (id : string) : option openCodeSessionRow :=
  head (filter (λ r, os_ID r = id) (db_session d)).

(** [List] of an open database. *)
Definition List (t : tree) (locator : option abspath) (root : string) (limit : Z) : outcome (list HarnessSessionRef) :=
  let limit := clamp_limit defaultOpenCodeSessionLimit maxOpenCodeSessionLimit limit in
  let root := if nonblank root then canonical lim t root else "" in
  let rows := take (Z.to_nat limit) (merge_sort (newest_first os_TimeUpdated os_ID) (sessions_in root)) in
  mbind (M := outcome) (λ rows : list openCodeSessionRow, Returns (openCodeSessionRef locator <$> rows)) (query false rows).

Definition messages_of (session : string) : list messageRow :=
  merge_sort (by_created mr_created mr_id) (filter (λ m, mr_session m = session) (db_message d)).
Definition parts_of (message : string) : list partRow :=
  merge_sort (by_created pr_created pr_id) (filter (λ p, pr_message p = message) (db_part d)).

Definition part_text (p : partRow) : option string :=
  p ← Unmarshal dec_part (pr_data p);
  if bool_decide (pd_Type p = "text") && negb (pd_Synthetic p) && nonblank (pd_Text p) then Some (pd_Text p) else None.

(** The loop of [firstOpenCodeUserText]; the rows of the messages are open. *)
Fixpoint first_user_text (rows : list messageRow) : outcome string :=
  match rows with
  | [] => Returns ""
  | m :: rows =>
      if bool_decide (md_Role <$> Unmarshal dec_message (mr_data m) = Some "user") then
        parts ← query true (parts_of (mr_id m));
        let texts := omap part_text parts in
        if decide (texts = []) then first_user_text rows else Returns (Join (String newline "") texts)
      else first_user_text rows
  end.
Definition firstOpenCodeUserText (held : bool) (session : string) : outcome string :=
  rows ← query held (messages_of session); first_user_text rows.

(** The loop of [Discover]; the rows of the sessions are open. *)
Fixpoint discover_rows (rows : list openCodeSessionRow) (task : string) (started : time)
    (nearest : option (openCodeSessionRow * Z)) : outcome (option openCodeSessionRow) :=
  match rows with
  | [] => Returns (fst <$> nearest)
  | r :: rows =>
      let delta := if IsZero started then 0 else distance (from_milli (os_TimeCreated r)) started in
      let step hit :=
        if (hit : bool) then Returns (Some r)
        else discover_rows rows task started
               (if IsZero started || bool_decide (delta ≤ 30000000000) then
                  match nearest with
                  | Some (_, dist) => if decide (delta < dist) then Some (r, delta) else nearest
                  | None => Some (r, delta)
                  end
                else nearest) in
      if decide (task = "") then step false
      else first ← firstOpenCodeUserText true (os_ID r); step (bool_decide (TrimSpace first = task))
  end.

Definition discover_open (locator : option abspath) (root task : string) (started : time) :
    outcome (result session_err HarnessSessionRef) :=
  rows ← query false (take 200 (merge_sort (newest_first os_TimeCreated os_ID) (sessions_in root)));
  found ← discover_rows rows (TrimSpace task) started None;
  Returns (match found with Some r => Ok (openCodeSessionRef locator r) | None => Err ESessionNotFound end).

(** [Discover] of an open database. *)
Definition Discover (t : tree) (locator : option abspath) (root task native : string) (started : time) :
    outcome (result session_err HarnessSessionRef) :=
  let root := canonical lim t root in
  let id := TrimSpace native in
  match (if decide (id = "") then None else queryOpenCodeSession id) with
  | Some r =>
      if bool_decide (root = "") || bool_decide (canonical lim t (os_Directory r) = root)
      then Returns (Ok (openCodeSessionRef locator r))
      else discover_open locator root task started
  | None => discover_open locator root task started
  end.

(** The parts of a session with their messages, in the order of [Read]. *)
Definition session_parts (id : string) : list (partRow * string) :=
  (filter (λ p, pr_session p = id) (merge_sort (by_created pr_created pr_id) (db_part d))) ≫= λ p,
    (λ m, (p, mr_data m)) <$> filter (λ m, mr_id m = pr_message p) (db_message d).

(** The loop of [Read]. *)
Fixpoint read_parts (parts : list (partRow * string)) (seq : Z) (page : SessionPage) : result session_err SessionPage :=
  match parts with
  | [] => Ok page
  | (p, message) :: parts =>
      match parseOpenCodeDurablePart (pr_data p) message seq (pr_created p) with
      | Err _ => Err (EParse seq)
      | Ok (rec, entries) =>
          read_parts parts (seq + 1) {|
            sp_Session := sp_Session page; sp_Entries := sp_Entries page ++ entries;
            sp_RawRecords := sp_RawRecords page ++ [rec]; sp_NextCursor := seq; sp_EOF := sp_EOF page |}
      end
  end.

(** [Read] of an open database. *)
Definition Read (locator : option abspath) (r : HarnessSessionRef) (after limit : Z) : result session_err SessionPage :=
  if bool_decide (ref_Harness r ≠ "") && bool_decide (ref_Harness r ≠ SubagentClientOpencode)
  then Err (EOtherHarness (ref_ID r) (ref_Harness r))
  else if negb (nonblank (ref_ID r)) then Err ESessionNotFound
  else
    match queryOpenCodeSession (ref_ID r) with
    | None => Err ESessionNotFound
    | Some row =>
        let limit := Z.to_nat (clamp_limit defaultOpenCodeReadLimit maxOpenCodeReadLimit limit) in
        let offset := Z.max 0 after in
        let parts := take (limit + 1) (drop (Z.to_nat offset) (session_parts (ref_ID r))) in
        read_parts (take limit parts) (offset + 1) {|
          sp_Session := openCodeSessionRef locator row; sp_Entries := []; sp_RawRecords := [];
          sp_NextCursor := offset; sp_EOF := bool_decide (length parts ≤ limit)%nat |}
    end.
End queries.
