(* ===== verification/Harness.v ===== *)
(** * Running a coding agent (agentops/subagent.go)

    [runSubagent]: the checks before the process of a harness is started, its
    command line, the lines forwarded while it runs and the result made of its
    output. What the process writes and how it ends is the environment, as is
    the elapsed time. *)

From stdpp Require Import pretty.
From S2P Require Import Prelude Entities GoStrings Json GoPath FileOps Search AgentRuns Permissions Sessions.
Open Scope Z_scope.

(** ** Command lines *)

Definition flag (name value : string) : list string := if decide (value = "") then [] else [name; value].

Definition subagentArgs (client root agent model thinking : string) (extra : list string) (task : string) : list string :=
  let effort := if decide (thinking = "off") then "" else thinking in
  if decide (client = SubagentClientOMP) then
    ["-p"; "--mode"; "json"; "--cwd"; root; "--auto-approve"; "--allow-home"] ++ flag "--model" model ++
    flag "--thinking" thinking ++ extra ++ ["--"; task]
  else if decide (client = SubagentClientOpencode) then
    ["run"; "--format"; "json"; "--auto"; "--dir"; root] ++ flag "--agent" agent ++ flag "--model" model ++
    flag "--variant" effort ++ extra ++ ["--"; task]
  else if decide (client = SubagentClientCodex) then
    ["exec"; "--json"; "--full-auto"] ++ flag "--profile" agent ++ flag "--model" model ++
    (if decide (effort = "") then [] else ["-c"; "model_reasoning_effort=" +:+ effort]) ++ extra ++ [task]
  else [].

(** ** Output *)

(** [lineTee]: a bounded buffer that also hands on each line. *)
Record lineTee : Type := { lt_buf : string; lt_carry : string }.
Definition new_tee : lineTee := {| lt_buf := ""; lt_carry := "" |}.

(** A line handed on, without its newline. *)
Definition handed (line : string) : option string :=
  if terminated line then
    let line := TrimSuffix line (String newline "") in if nonblank line then Some line else None
  else None.
Definition carried (lines : list string) : string :=
  match last lines with Some l => if terminated l then "" else l | None => "" end.

(** [lineTee.Write], with the lines it hands on. *)
Definition lineTee_Write (max : Z) (t : lineTee) (p : string) : lineTee * list string :=
  let lines := lines_of (lt_carry t +:+ p) in
  ({| lt_buf := (limitedBuffer_Write max (lt_buf t) p).1; lt_carry := carried lines |}, omap handed lines).

Fixpoint lineTee_writes (max : Z) (t : lineTee) (ps : list string) : lineTee * list string :=
  match ps with
  | [] => (t, [])
  | p :: ps =>
      let '(t, l) := lineTee_Write max t p in
      let '(t, l') := lineTee_writes max t ps in (t, l ++ l')
  end.

(** The channel between the writer and the callback: a line that finds it full is
    dropped; [full] says when, and the pump delivers the others in order before
    the result is handed back. *)
Definition eventBuffer : nat := 256.
Definition delivered (full : nat → bool) (lines : list string) : list string :=
  (filter (λ il, full il.1 = false) (zip (seq 0 (length lines)) lines)).*2.

Definition truncateTail (s : string) (max : Z) : string :=
  if decide (Z.of_nat (size s) ≤ max) then s
  else ellipsis +:+ "(truncated)" +:+ String newline (from (size s - Z.to_nat max) s).

Section output.
Context `{JSON}.

Definition countJSONLines (s : string) : Z :=
  Z.of_nat (length (filter (λ l, nonblank l = true ∧ Valid (TrimSpace l) = true) (Split newline s))).

(** The last of the messages that the lines of an output that look like objects
    hold. *)
Definition object_line (line : string) : option string :=
  let line := TrimSpace line in if HasPrefix line "{" then Some line else None.
Definition last_message (message : string → list string) (out : string) : string :=
  default "" (last (filter (λ m, m ≠ "") (omap object_line (Split newline out) ≫= message))).

(** [assistantMessageText]. *)
Definition dec_text_part : raw → option (string * string) := dec_struct (λ m,
  type ← get_string "type" m; text ← get_string "text" m; Some (type, text)).
Definition assistantMessageText (r : RawMessage) : string :=
  match Unmarshal_raw (dec_struct (λ m, role ← get_string "role" m; content ← get_list dec_text_part "content" m;
                                        Some (role, content))) r with
  | Some (role, content) =>
      if decide (role = "assistant") then
        Join (String newline "") (omap (λ p, if bool_decide (p.1 = "text") && nonblank p.2 then Some p.2 else None) content)
      else ""
  | None => ""
  end.

(** The messages of one event of OMP, of Codex and of OpenCode. *)
Definition omp_messages (line : string) : list string :=
  match Unmarshal (dec_struct (λ m, type ← get_string "type" m; message ← get_raw "message" m;
                                    messages ← get_list Some "messages" m; Some (type, message, messages))) line with
  | Some (type, message, messages) =>
      if one_of type ["message_end"; "turn_end"] then [assistantMessageText message]
      else if decide (type = "agent_end") then (λ m, assistantMessageText (Some m)) <$> messages
      else []
  | None => []
  end.
Definition lastOMPMessage : string → string := last_message omp_messages.

Definition codex_message (line : string) : list string :=
  match Unmarshal (dec_struct (λ m, type ← get_string "type" m;
                                    item ← get_struct (λ m, type ← get_string "type" m; text ← get_string "text" m;
                                                            Some (type, text)) "item" m;
                                    Some (type, item))) line with
  | Some (type, (kind, text)) =>
      if bool_decide (type = "item.completed") && bool_decide (kind = "agent_message") && nonblank text then [text] else []
  | None => []
  end.
Definition lastCodexMessage : string → string := last_message codex_message.

Definition opencode_message (line : string) : list string :=
  match Unmarshal (dec_struct (λ m, type ← get_string "type" m;
                                    part ← get_struct (λ m, type ← get_string "type" m; text ← get_string "text" m;
                                                            Some (type, text)) "part" m;
                                    Some (type, part))) line with
  | Some (type, (kind, text)) =>
      if bool_decide (type = "text") && bool_decide (kind = "text") && nonblank text then [text] else []
  | None => []
  end.
Definition lastAssistantMessage : string → string := last_message opencode_message.

(** ** The run *)

Inductive harness_err : Type :=
| HCall (e : run_err)
| HPermission (e : perm_err).

(** What is started. *)
Record invocation : Type := {
  iv_client : string; iv_agent : string; iv_model : string; iv_thinking : string; iv_task : string;
  iv_root : string; iv_args : list string;
  iv_timeout : option Z;                       (* in seconds *)
  iv_data_home : option string                 (* XDG_DATA_HOME *)
}.

(** [runSubagent] up to the process; [data_home] is CODEBRIDGE_OPENCODE_DATA_HOME. *)
Definition start_subagent (e : gate_env) (profiles : list SubagentProfile) (data_home : string)
    (task client agent model thinking : string) (timeout : Z) (s : permissionStore) :
    result harness_err invocation * permissionStore :=
  let task := TrimSpace task in
  if decide (task = "") then (Err (HCall ETaskRequired), s)
  else
    let '(client, agent, model, thinking, timeout, extra) :=
      resolveSubagentCall profiles client agent model thinking timeout in
    let client := TrimSpace client in
    let client := if decide (client = "") then DefaultSubagentClient else client in
    match validateSubagentCall client agent thinking with
    | Err x => (Err (HCall x), s)
    | Ok _ =>
        match ge_root e with
        | Err x => (Err (HPermission (PWorkspace x)), s)
        | Ok root =>
            let effect := (permissionDecision "agent" client s).1 in
            if decide (effect = "deny") then (Err (HPermission (PDenied client)), s)
            else if decide (effect = "ask") then
              let requestID := pendingSubagentRequest (ge_now e) (ge_pending e) client s in
              if decide (requestID = "")
              then (Err (HPermission (PNeeded (ge_id e) (client +:+ " subagent") "")),
                    parkRequest (ge_now e) (ge_id e) "agent" client "" s)
              else (Err (HPermission (PNeeded requestID (client +:+ " subagent") "")), s)
            else
              (Ok {| iv_client := client; iv_agent := agent; iv_model := model; iv_thinking := thinking; iv_task := task;
                     iv_root := root; iv_args := subagentArgs client root agent model thinking extra task;
                     iv_timeout := if decide (0 < timeout) then Some timeout else None;
                     iv_data_home := if bool_decide (client = SubagentClientOpencode) && nonblank data_home
                                     then Some (TrimSpace data_home) else None |}, s)
        end
    end.

(** How the process ended: whether the deadline had passed, and its error. *)
Record process_end : Type := { pe_deadline : bool; pe_error : option string }.

(** The fields of the [SubagentResult] of the code. *)
Record subagent_result : Type := {
  sr_Client : string; sr_Agent : string; sr_Model : string; sr_Thinking : string; sr_Task : string;
  sr_Status : string; sr_Output : string; sr_Events : Z }.

Definition final_message (client out : string) : string :=
  if decide (client = SubagentClientOpencode) then lastAssistantMessage out
  else if decide (client = SubagentClientOMP) then lastOMPMessage out
  else if decide (client = SubagentClientCodex) then lastCodexMessage out
  else "".

Definition tail_header : string :=
  String newline (String newline "--- raw events tail ---") +:+ String newline "".

(** The rest of [runSubagent], from what the process wrote. *)
Definition subagent_output (client : string) (writes : list string) (e : process_end) : string * string :=
  let buf := foldl (λ b p, (limitedBuffer_Write subagentMaxOutput b p).1) "" writes in
  let '(status, out) :=
    if pe_deadline e then
      ("timeout", truncateTail buf 2000 +:+ String newline "[subagent exceeded the time limit and was killed]")
    else match pe_error e with
         | Some x => ("failed", truncateTail buf 2000 +:+ String newline ("[subagent exited: " +:+ x +:+ "]"))
         | None => ("completed", truncateTail buf 4000)
         end in
  let final := final_message client out in
  (status, if decide (final = "") then out else final +:+ tail_header +:+ truncateTail out 1200).

Definition finish_subagent (i : invocation) (writes : list string) (e : process_end) : subagent_result :=
  let '(status, out) := subagent_output (iv_client i) writes e in
  {| sr_Client := iv_client i; sr_Agent := iv_agent i; sr_Model := iv_model i; sr_Thinking := iv_thinking i;
     sr_Task := truncateText (iv_task i) 400; sr_Status := status; sr_Output := out; sr_Events := countJSONLines out |}.
End output.
