(* ===== verification/SessionInv.v ===== *)
(** * Lemmas on the index of a session log

    A log that is only ever extended, by whole JSON objects on lines of their own,
    is indexed record by record, wherever the writer was when it was read. *)

From S2P Require Import Prelude Entities GoStrings Json GoPath FileOps Search Sessions.
Open Scope Z_scope.

Abbreviation nl := (String newline "").

(** ** Lines *)

Definition no_newline (s : string) : Prop := newline ∉ String.list_ascii_of_string s.
Definition logline (l : string) : Prop := ∃ body, l = body +:+ nl ∧ no_newline body.

Definition concat_lines (ls : list string) : string := foldr String.append "" ls.

Lemma no_newline_cons c s : no_newline (String c s) ↔ c ≠ newline ∧ no_newline s.
Proof. unfold no_newline. cbn. rewrite not_elem_of_cons. split; intros [H1 H2]; (split; [by apply not_eq_sym|done]). Qed.

Lemma no_newline_app a b : no_newline (a +:+ b) ↔ no_newline a ∧ no_newline b.
Proof. unfold no_newline. rewrite list_ascii_app, not_elem_of_app. done. Qed.

Lemma lines_of_line l s : logline l → lines_of (l +:+ s) = l :: lines_of s.
Proof.
  intros (body & -> & Hb). induction body as [|c body IH]; [done|].
  apply no_newline_cons in Hb as [Hc Hb]. 
  change ((String c body +:+ nl) +:+ s) with (String c ((body +:+ nl) +:+ s)). cbn [lines_of].
  rewrite decide_False by done. by rewrite IH by done.
Qed.

Lemma lines_of_lines ls s : Forall logline ls → lines_of (concat_lines ls +:+ s) = ls ++ lines_of s.
Proof.
  induction 1 as [|l ls Hl _ IH]; [done|].
  change (concat_lines (l :: ls)) with (l +:+ concat_lines ls). by rewrite str_app_assoc, lines_of_line, IH.
Qed.

Lemma lines_of_part s : no_newline s → lines_of s = if decide (s = "") then [] else [s].
Proof.
  intros H. induction s as [|c s IH]; [done|]. apply no_newline_cons in H as [Hc H]. cbn [lines_of].
  rewrite decide_False by done. rewrite IH by done. by case_decide as E; [rewrite E|].
Qed.

Lemma terminated_line l : logline l → terminated l = true.
Proof.
  intros (body & -> & _). unfold terminated, HasSuffix. rewrite list_ascii_app, length_app.
  cbn [length]. rewrite !bool_decide_true; [done| |cbn; lia].
  cbn. replace (length (String.list_ascii_of_string body) + 1 - 1)%nat with
    (length (String.list_ascii_of_string body)) by lia. by rewrite drop_app_length.
Qed.

Lemma terminated_part s : no_newline s → terminated s = false.
Proof.
  intros H. apply not_true_is_false. unfold terminated, HasSuffix.
  intros [H1%bool_decide_eq_true H2%bool_decide_eq_true]%andb_prop. apply H.
  rewrite <-(take_drop (length (String.list_ascii_of_string s) - length (String.list_ascii_of_string nl))
    (String.list_ascii_of_string s)), H2. cbn. rewrite elem_of_app. right. by left.
Qed.

Lemma size_app a b : size (a +:+ b) = (size a + size b)%nat.
Proof. induction a as [|x a IH]; [done|]. exact (f_equal S IH). Qed.

(** ** Parts of a text *)

Lemma substring_all s : String.substring 0 (size s) s = s.
Proof. induction s as [|c s IH]; [done|]. exact (f_equal (String c) IH). Qed.

Lemma substring_prefix b c : String.substring 0 (size b) (b +:+ c) = b.
Proof. induction b as [|x b IH]; [by destruct c|]. exact (f_equal (String x) IH). Qed.

Lemma substring_app a b c : String.substring (size a) (size b) (a +:+ b +:+ c) = b.
Proof. induction a as [|x a IH]; [exact (substring_prefix b c)|exact IH]. Qed.

Lemma from_app a b : from (size a) (a +:+ b) = b.
Proof.
  unfold from. rewrite size_app. replace (size a + size b - size a)%nat with (size b) by lia.
  induction a as [|x a IH]; [apply substring_all|exact IH].
Qed.

(** ** A log, and what is read of it *)

(** [a] is a beginning of [b]. *)
Definition begins (a b : string) : Prop := ∃ c, b = a +:+ c.

#[export] Instance begins_preorder : PreOrder begins.
Proof.
  split; [intros a; exists ""; symmetry; apply String_app_nil_r|].
  intros a b c [x ->] [y ->]. exists (x +:+ y). apply str_app_assoc.
Qed.

(** [ls] are the lines that [w] begins with, and [z] what it has of the next. *)
Lemma begins_lines ls w : Forall logline ls → begins w (concat_lines ls) →
  ∃ k z, w = concat_lines (take k ls) +:+ z ∧ no_newline z ∧
    (z = "" ∨ ∃ y, ls !! k = Some (z +:+ y) ∧ logline y).
Proof.
  intros Hls. revert w. induction Hls as [|l ls (body & -> & Hb) Hls IH]; intros w [y Hy].
  { exists 0%nat, "". destruct w; [|done]. split; [done|]. split; [apply not_elem_of_nil|by left]. }
  change (concat_lines _) with ((body +:+ nl) +:+ concat_lines ls) in Hy. rewrite str_app_assoc in Hy.
  assert ((∃ w', w = body +:+ nl +:+ w' ∧ concat_lines ls = w' +:+ y) ∨ ∃ y', body = w +:+ y') as [(w' & -> & Hw)|[y' Hw]].
  { clear -Hy. revert w Hy. induction body as [|c body IH]; intros [|d w] Hy.
    - right. by exists "".
    - left. injection Hy as <- Hy. by exists w.
    - right. by exists (String c body).
    - injection Hy as <- Hy. destruct (IH w Hy) as [(w' & -> & Hw)|[y' ->]]; [left; by exists w'|right; by exists y']. }
  - destruct (IH w') as (k & z & -> & Hz & Hrest); [by exists y|]. exists (S k), z. cbn [take].
    change (concat_lines (_ :: _)) with ((body +:+ nl) +:+ concat_lines (take k ls)). by rewrite !str_app_assoc.
  - exists 0%nat, w. split; [done|]. rewrite Hw, no_newline_app in Hb. destruct Hb as [Hb1 Hb2]. split; [done|]. right.
    exists (y' +:+ nl). rewrite Hw, str_app_assoc. split; [done|]. by exists y'.
Qed.

Section log.
Context `{JSON} (max_record : nat).

(** No JSON object goes on after its end: a text that begins with an object is
    another trimmed text only if nothing follows. *)
Definition objects_end : Prop := ∀ x y, HasPrefix x "{" = true → Valid (TrimSpace x) = true →
  Valid (x +:+ y) = true → TrimSpace (x +:+ y) = x +:+ y → y = "".

(** A line of a log: white space only, or an object, then white space. *)
Definition record_line (l j : string) : Prop := ∃ s, l = j +:+ s ∧ ascii_blank s ∧ HasPrefix j "{" = true ∧
  TrimSpace j = j ∧ Valid j = true.
Definition log_line (l : string) : Prop := logline l ∧ (size l ≤ max_record)%nat ∧
  (ascii_blank l ∨ ∃ j, record_line l j).

(** The records that the text [c] of a log shows: the objects of its lines, the
    last of which need not have its newline yet. *)
Definition shown (l : string) : option string :=
  if nonblank l && (terminated l || Valid (TrimSpace l)) then Some (TrimSpace l) else None.
Definition records (c : string) : list string := omap shown (lines_of c).

Definition numbered (ts : list string) : list (Z * string) := imap (λ i t, (Z.of_nat i + 1, t)) ts.
Definition texts (c : string) (ps : list recordPos) : list (Z * string) :=
  (λ p, (rp_seq p, TrimSpace (ReadAt c p))) <$> ps.

(** The positions [rs] are those of the records [ts], all within [p]. *)
Definition reads (rs : list recordPos) (p : string) (ts : list string) : Prop :=
  ∀ c, begins p c → texts c rs = numbered ts.

Lemma reads_length rs p ts : reads rs p ts → length rs = length ts.
Proof.
  intros Hr. specialize (Hr p (reflexivity p)). apply (f_equal length) in Hr.
  unfold texts, numbered in Hr. by rewrite length_fmap, length_imap in Hr.
Qed.

Lemma ReadAt_within p l c n : begins (p +:+ l) c →
  ReadAt c {| rp_seq := n; rp_offset := size p; rp_length := size l |} = l.
Proof.
  intros [d ->]. unfold ReadAt. cbn [rp_offset rp_length].
  rewrite str_app_assoc, substring_app, Nat.sub_diag. apply String_app_nil_r.
Qed.

Lemma reads_more rs p ts l : reads rs p ts → reads rs (p +:+ l) ts.
Proof. intros Hr c Hc. apply Hr. etrans; [|exact Hc]. by exists l. Qed.

Lemma reads_snoc rs p ts l : reads rs p ts →
  reads (rs ++ [{| rp_seq := Z.of_nat (length rs) + 1; rp_offset := size p; rp_length := size l |}]) (p +:+ l)
    (ts ++ [TrimSpace l]).
Proof.
  intros Hr c Hc. unfold texts, numbered. rewrite fmap_app, imap_app. f_equal; [by apply (reads_more _ _ _ l Hr)|].
  cbn. rewrite (ReadAt_within p l c) by done. by rewrite (reads_length _ _ _ Hr), Nat.add_0_r.
Qed.

Lemma record_line_trim l j : record_line l j → TrimSpace l = j ∧ nonblank l = true.
Proof.
  intros (s & -> & Hs & Hj & Ht & _). unfold nonblank. rewrite TrimSpace_app_blank, Ht by done.
  split; [done|]. apply bool_decide_eq_true. intros E. rewrite E in Hj. vm_compute in Hj. discriminate.
Qed.

Lemma blank_nonblank s : ascii_blank s → nonblank s = false.
Proof. intros Hs. unfold nonblank. rewrite TrimSpace_blank by done. done. Qed.

(** The loop over whole lines. *)
Lemma index_whole ls rest p rs ts : Forall log_line ls → reads rs p ts →
  ∃ rs', index_lines max_record (ls ++ rest) {| ix_offset := size p; ix_records := rs |} =
           index_lines max_record rest {| ix_offset := size (p +:+ concat_lines ls); ix_records := rs' |} ∧
         reads rs' (p +:+ concat_lines ls) (ts ++ omap shown ls).
Proof.
  intros Hls. revert p rs ts. induction Hls as [|l ls (Hl & Hmax & Hcase) Hls IH]; intros p rs ts Hr.
  { exists rs. by rewrite String_app_nil_r, app_nil_r. }
  change (concat_lines (l :: ls)) with (l +:+ concat_lines ls). rewrite <-str_app_assoc.
  cbn [app index_lines ix_offset ix_records]. rewrite decide_False by lia.
  rewrite (terminated_line l Hl). cbn [orb]. rewrite <-size_app. destruct Hcase as [Hb|[j Hj]].
  - rewrite (blank_nonblank l Hb). destruct (IH (p +:+ l) rs ts) as (rs' & E & Hr'); [by apply reads_more|].
    exists rs'. split; [exact E|]. cbn [omap list_omap]. unfold shown at 1. by rewrite (blank_nonblank l Hb).
  - destruct (record_line_trim l j Hj) as [Et Hn]. destruct Hj as (s & _ & _ & _ & _ & Hv).
    rewrite Hn, Et, Hv. cbn [negb].
    destruct (IH (p +:+ l) _ _ (reads_snoc rs p ts l Hr)) as (rs' & E & Hr').
    exists rs'. split; [exact E|]. rewrite <-(assoc_L (++)) in Hr'. cbn [omap list_omap]. unfold shown at 1.
    by rewrite Hn, (terminated_line l Hl), Et in *.
Qed.

(** ... and over the part of a line that is there. *)
Lemma index_part z p rs ts : no_newline z → (size z ≤ max_record)%nat → reads rs p ts →
  ∃ ix, index_lines max_record (lines_of z) {| ix_offset := size p; ix_records := rs |} = (ix, Ok ()) ∧
  if nonblank z && Valid (TrimSpace z)
  then ix_offset ix = size (p +:+ z) ∧ reads (ix_records ix) (p +:+ z) (ts ++ [TrimSpace z])
  else ix = {| ix_offset := size p; ix_records := rs |}.
Proof.
  intros Hz Hmax Hr. rewrite lines_of_part by done. case_decide as E; [subst z; by eexists|].
  cbn [index_lines ix_offset ix_records]. rewrite decide_False by lia. rewrite (terminated_part z Hz). cbn [orb].
  destruct (nonblank z) eqn:Hn; [|by eexists]. destruct (Valid (TrimSpace z)); cbn [andb negb]; [|by eexists].
  eexists. split; [done|]. cbn [ix_offset ix_records]. split; [by rewrite size_app|by apply reads_snoc].
Qed.

(** ** The invariant of an index *)

Lemma records_lines ls w : Forall logline ls → records (concat_lines ls +:+ w) = omap shown ls ++ records w.
Proof. intros Hls. unfold records. by rewrite lines_of_lines, omap_app. Qed.

Lemma begins_app_inv p a b : begins (p +:+ a) (p +:+ b) → begins a b.
Proof.
  intros [c Hc]. exists c. rewrite str_app_assoc in Hc. induction p as [|x p IH]; [done|].
  apply IH. by injection Hc.
Qed.

Lemma blank_app a b : ascii_blank (a +:+ b) ↔ ascii_blank a ∧ ascii_blank b.
Proof. unfold ascii_blank. by rewrite list_ascii_app, Forall_app. Qed.

Lemma concat_lines_app a b : concat_lines (a ++ b) = concat_lines a +:+ concat_lines b.
Proof.
  induction a as [|x a IH]; [done|].
  change (concat_lines (_ ++ b)) with (x +:+ concat_lines (a ++ b)).
  change (concat_lines (x :: a)) with (x +:+ concat_lines a). by rewrite str_app_assoc, IH.
Qed.

(** What is there of a line, when it is no record yet. *)
Lemma records_part z : no_newline z → nonblank z && Valid (TrimSpace z) = false → records z = [].
Proof.
  intros Hz Hn. unfold records. rewrite lines_of_part by done. case_decide; [done|].
  cbn [omap list_omap]. unfold shown. by rewrite (terminated_part z Hz), orb_false_l, Hn.
Qed.

Lemma records_blank s : no_newline s → ascii_blank s → records s = [].
Proof. intros Hs Hb. apply records_part; [done|]. by rewrite (blank_nonblank s Hb). Qed.

Lemma shown_whole l : logline l → nonblank l = true → shown l = Some (TrimSpace l).
Proof. intros Hl Hn. unfold shown. by rewrite Hn, (terminated_line l Hl). Qed.

Lemma shown_blank l : ascii_blank l → shown l = None.
Proof. intros Hb. unfold shown. by rewrite (blank_nonblank l Hb). Qed.

Lemma nonblank_app z s : ascii_blank s → nonblank (z +:+ s) = nonblank z.
Proof. intros Hs. unfold nonblank. by rewrite TrimSpace_app_blank. Qed.

Lemma logline_app z y : no_newline z → logline y → logline (z +:+ y).
Proof. intros Hz (b & -> & Hb). exists (z +:+ b). rewrite str_app_assoc, no_newline_app. done. Qed.

(** A record whose line goes on with white space. *)
Lemma records_ahead z y M w : no_newline z → nonblank z = true → Valid (TrimSpace z) = true →
  logline y → ascii_blank y → Forall logline M → begins w (concat_lines (y :: M)) →
  records (z +:+ w) = TrimSpace z :: records w.
Proof.
  intros Hz Hn Hv Hy Hb HM Hw.
  destruct (begins_lines (y :: M) w) as (k & z' & -> & Hz' & Hrest); [by constructor|done|]. destruct k as [|k].
  - assert (ascii_blank z') as Hz'b.
    { destruct Hrest as [->|(t & Ht & _)]; [constructor|]. injection Ht as ->. by apply blank_app in Hb as [? _]. }
    change (concat_lines (take 0 (y :: M)) +:+ z') with z'. rewrite (records_blank z') by done.
    unfold records. rewrite lines_of_part by (by apply no_newline_app). case_decide as E.
    { by destruct z. }
    cbn [omap list_omap]. unfold shown. by rewrite nonblank_app, TrimSpace_app_blank, Hn, Hv, orb_true_r.
  - cbn [take]. change (concat_lines (y :: take k M)) with (y +:+ concat_lines (take k M)).
    rewrite !str_app_assoc, <-(str_app_assoc z y). unfold records.
    rewrite (lines_of_line (z +:+ y)) by (by apply logline_app). cbn [omap list_omap].
    rewrite (shown_whole (z +:+ y)), TrimSpace_app_blank by (done || (by apply logline_app) || by rewrite nonblank_app).
    rewrite (lines_of_line y) by done. cbn [omap list_omap]. by rewrite (shown_blank y Hb).
Qed.

(** The index [ix] is one that reading beginnings of the log [L] can have left:
    it is at [p], the records until there are in it, and the lines [M] are left,
    of the first of which only white space may be left. *)
Definition indexed (L : list string) (c : string) (ix : fileIndex) : Prop := ∃ p M ts,
  begins p c ∧ concat_lines L = p +:+ concat_lines M ∧ Forall log_line M ∧
  ix_offset ix = size p ∧ reads (ix_records ix) p ts ∧
  (∀ w, begins w (concat_lines M) → records (p +:+ w) = ts ++ records w).

Lemma indexed_new L c : Forall log_line L → indexed L c new_index.
Proof.
  intros HL. exists "", L, []. split; [by exists c|]. split; [done|]. split; [done|]. split; [done|].
  split; [|done]. intros d _. done.
Qed.

Lemma log_lines_loglines ls : Forall log_line ls → Forall logline ls.
Proof. intros Hls. by apply (Forall_impl _ _ _ Hls); intros l [? _]. Qed.

Lemma app_split a b c d : a +:+ b = c +:+ d → (∃ e, c = a +:+ e ∧ b = e +:+ d) ∨ (∃ e, a = c +:+ e ∧ d = e +:+ b).
Proof.
  revert c. induction a as [|x a IH]; intros [|y c] Hab.
  - left. by exists "".
  - left. by exists (String y c).
  - right. by exists (String x a).
  - injection Hab as -> Hab. destruct (IH c Hab) as [(e & -> & ->)|(e & -> & ->)]; [left|right]; by exists e.
Qed.

(** A record is taken only when all of it is there. *)
Lemma part_complete z y : objects_end → log_line (z +:+ y) → nonblank z = true → Valid (TrimSpace z) = true → ascii_blank y.
Proof.
  intros Hend (_ & _ & [Hb|(j & s & Hzy & Hs & Hj & Ht & Hv)]) Hn Hz.
  { apply blank_app in Hb as [Hb _]. by rewrite (blank_nonblank z Hb) in Hn. }
  destruct (app_split _ _ _ _ Hzy) as [(e & -> & ->)|(e & -> & ->)].
  - destruct z as [|c z]; [done|]. assert (e = "") as ->; [|done]. apply (Hend (String c z)); try done.
    apply HasPrefix_spec in Hj as [r Hr]. injection Hr as -> _. apply HasPrefix_spec. by exists z.
  - by apply blank_app in Hs as [_ Hs].
Qed.

Lemma begins_le a b : begins a b → (size a ≤ size b)%nat.
Proof. intros [c ->]. rewrite size_app. lia. Qed.

(** Reading more of the log. *)
Lemma indexed_step L c c' ix : objects_end → indexed L c ix → begins c c' → begins c' (concat_lines L) →
  ∃ ix', indexSnapshot max_record (Ok c') (Some ix) = (Some ix', Ok (ix_records ix')) ∧ indexed L c' ix' ∧
    ∀ c'', begins c' c'' → texts c'' (ix_records ix') = numbered (records c').
Proof.
  intros Hend (p & M & ts & Hp & HL & HM & Ho & Hr & Hrec) Hcc Hc'.
  assert (begins p c') as [w ->] by by etrans. assert (begins w (concat_lines M)) as Hw.
  { apply (begins_app_inv p). by rewrite <-HL. }
  destruct (begins_lines M w) as (k & z & -> & Hz & Hrest); [by apply log_lines_loglines|done|].
  destruct ix as [o rs]. cbn in Ho, Hr. subst o. unfold indexSnapshot. cbn [ix_offset].
  rewrite decide_False by (rewrite size_app; lia). cbv zeta. cbn [ix_offset]. rewrite from_app, lines_of_lines
    by (by apply Forall_take, log_lines_loglines).
  destruct (index_whole (take k M) (lines_of z) p rs ts) as (rs' & -> & Hr'); [by apply Forall_take|done|].
  assert (size z ≤ max_record)%nat as Hmax.
  { destruct Hrest as [->|(y & Hk & _)]; [cbn; lia|].
    destruct (Forall_lookup_1 _ _ _ _ HM Hk) as (_ & Hm & _). rewrite size_app in Hm. lia. }
  destruct (index_part z _ rs' _ Hz Hmax Hr') as (ix' & -> & Hix). exists ix'. split; [done|].
  assert (records (p +:+ concat_lines (take k M) +:+ z) = ts ++ omap shown (take k M) ++ records z) as Hall.
  { rewrite Hrec by done. by rewrite records_lines by (by apply Forall_take, log_lines_loglines). }
  rewrite <-str_app_assoc in *. destruct (nonblank z && Valid (TrimSpace z)) eqn:Hcase.
  - apply andb_prop in Hcase as [Hn Hv]. destruct Hix as [Ho Hrs].
    destruct Hrest as [->|(y & Hk & Hy)]; [done|].
    pose proof (Forall_lookup_1 _ _ _ _ HM Hk) as Hl. pose proof (part_complete z y Hend Hl Hn Hv) as Hb.
    assert (concat_lines (drop k M) = (z +:+ y) +:+ concat_lines (drop (S k) M)) as HM'.
    { by rewrite (drop_S M (z +:+ y) k Hk). }
    split.
    + exists ((p +:+ concat_lines (take k M)) +:+ z), (y :: drop (S k) M), (ts ++ omap shown (take k M) ++ [TrimSpace z]).
      repeat split; [done| | | done | by rewrite (assoc_L (++)) | ].
      * rewrite HL, <-(take_drop k M) at 1. by rewrite concat_lines_app, HM', !str_app_assoc.
      * constructor; [|by apply Forall_drop]. split; [done|]. split; [|by left].
        destruct Hl as (_ & Hm & _). rewrite size_app in Hm. lia.
      * intros w Hw'. rewrite !str_app_assoc, Hrec.
        -- rewrite records_lines, (records_ahead z y (drop (S k) M)) by (done || by apply log_lines_loglines, Forall_take
             || by apply log_lines_loglines, Forall_drop). by rewrite <-!(assoc_L (++)).
        -- rewrite <-(take_drop k M) at 2. rewrite concat_lines_app, HM', str_app_assoc.
           destruct Hw' as [v Hv']. exists v. rewrite !str_app_assoc.
           change (concat_lines (y :: drop (S k) M)) with (y +:+ concat_lines (drop (S k) M)) in Hv'. by rewrite Hv'.
    + intros c'' Hc''. rewrite (Hrs c'' Hc''), Hall. unfold records. rewrite lines_of_part by done.
      rewrite decide_False by (by intros ->). cbn [omap list_omap]. unfold shown. by rewrite Hn, Hv, orb_true_r, (assoc_L (++)).
  - subst ix'. cbn [ix_records]. rewrite (records_part z Hz Hcase), app_nil_r in Hall. split.
    + exists (p +:+ concat_lines (take k M)), (drop k M), (ts ++ omap shown (take k M)).
      split; [by exists z|]. split; [|split; [by apply Forall_drop|split; [done|split; [done|]]]].
      * by rewrite HL, str_app_assoc, <-concat_lines_app, take_drop.
      * intros w [v Hv]. rewrite str_app_assoc, Hrec.
        -- by rewrite records_lines, (assoc_L (++)) by (by apply log_lines_loglines, Forall_take).
        -- exists v. by rewrite str_app_assoc, <-Hv, <-concat_lines_app, take_drop.
    + intros c'' Hc''. rewrite Hall. apply Hr'. etrans; [|exact Hc'']. by exists z.
Qed.

(** Where the records are read from and in what order. *)
Lemma numbered_fst ts : (numbered ts).*1 = (λ i, Z.of_nat i + 1) <$> seq 0 (length ts).
Proof.
  unfold numbered. rewrite fmap_imap. apply list_eq. intros i. rewrite list_lookup_imap, list_lookup_fmap.
  destruct (decide (i < length ts)%nat) as [Hi|Hi].
  - destruct (lookup_lt_is_Some_2 _ _ Hi) as [t ->]. by rewrite lookup_seq_lt.
  - by rewrite lookup_ge_None_2, lookup_seq_ge by lia.
Qed.

(** ** The page of a sequence *)

(** [search_from] finds the boundary of a predicate that once true stays true. *)
Lemma search_from_spec f b i j fuel : (i ≤ b ≤ j)%nat → (j - i ≤ fuel)%nat →
  (∀ k, (i ≤ k < j)%nat → f k = bool_decide (b ≤ k)%nat) → search_from fuel f i j = b.
Proof.
  revert i j. induction fuel as [|fuel IH]; intros i j Hb Hf Hk; cbn [search_from]; [lia|].
  case_decide as Hij; [|lia]. pose proof (Nat.div2_div (i + j)) as Hd.
  assert (i ≤ Nat.div2 (i + j) < j)%nat as Hh.
  { rewrite Hd. split; [apply Nat.div_le_lower_bound; lia|apply Nat.Div0.div_lt_upper_bound; lia]. }
  rewrite Hk by done. case_bool_decide as Hle; (apply IH; [lia|lia|]); intros m Hm; apply Hk; lia.
Qed.
End log.
