(* ===== verification/SessionSpec.v ===== *)
(** * What is read of the sessions of coding agents

    The index of a log catches up with its file, a page of a session is a slice of
    its records, and only what users, assistants and tools said is shown. *)

From S2P Require Import Prelude Entities GoStrings Json GoPath Paths FileOps Search AgentRuns Sessions.
From S2P Require CodexSession OmpSession OpenCode.
From S2P Require Import SessionInv.
From S2P Require FileSpec.
Open Scope Z_scope.

(** ** The index *)

Section log.
Context `{JSON} (max_record : nat).

(** The positions that an adapter gets for a file, each time it looks at it. *)
Fixpoint snapshots (old : option fileIndex) (cs : list string) : list (result session_err (list recordPos)) :=
  match cs with
  | [] => []
  | c :: cs => let '(ix, r) := indexSnapshot max_record (Ok c) old in r :: snapshots ix cs
  end.

(** Each of [cs] begins the next, and the last begins [c]. *)
Fixpoint growing (cs : list string) (c : string) : Prop :=
  match cs with
  | [] => True
  | x :: cs => begins x (default c (list.head cs)) ∧ growing cs c
  end.

Lemma growing_begins cs c : growing cs c → Forall (λ x, begins x c) cs.
Proof.
  induction cs as [|x cs IH]; [constructor|]. intros [Hx Hcs]. specialize (IH Hcs). constructor; [|done].
  destruct cs as [|y cs]; [done|]. apply Forall_cons_1 in IH as [Hy _]. by etrans.
Qed.

Definition snapshot_of (c : string) (r : result session_err (list recordPos)) : Prop :=
  ∃ ps, r = Ok ps ∧ ∀ c', begins c c' → texts c' ps = numbered (records c).

Lemma snapshots_from L cs ix c0 : objects_end → indexed max_record L c0 ix →
  (∀ c, list.head cs = Some c → begins c0 c) → growing cs (concat_lines L) → Forall2 snapshot_of cs (snapshots (Some ix) cs).
Proof.
  intros Hend. revert ix c0. induction cs as [|c cs IH]; intros ix c0 Hix Hc0 Hg; [constructor|].
  pose proof (growing_begins _ _ Hg) as [Hc _]%Forall_cons_1. destruct Hg as [Hnext Hg].
  destruct (indexed_step max_record L c0 c ix Hend Hix (Hc0 c eq_refl) Hc) as (ix' & E & Hix' & Hr).
  cbn [snapshots]. rewrite E. constructor; [by exists (ix_records ix')|].
  apply (IH ix' c Hix'); [|done]. intros d Hd. by rewrite Hd in Hnext.
Qed.

(** C24. An agent's log is only ever appended to, a JSON object a line, and the adapter
    may look at it at any moment, in the middle of a line too. However the looks
    are spread, each gives what indexing the file from its start gives: the
    records of it in their order, numbered from 1, the last one also when its
    newline is not there yet; none is lost, doubled or cut, and the positions stay
    right while the file goes on growing. *)
Theorem index_catches_up (Hend : objects_end) L cs : Forall (log_line max_record) L → growing cs (concat_lines L) →
  Forall2 snapshot_of cs (snapshots None cs).
Proof.
  intros HL Hg. destruct cs as [|c cs]; [constructor|].
  exact (snapshots_from L (c :: cs) new_index "" Hend (indexed_new _ L "" HL) (λ d _, ex_intro _ d eq_refl) Hg).
Qed.
End log.

(** ** Pages *)

Definition raw_of (r : HarnessRawRecord) : Z * string := (hr_SourceSeq r, hr_Payload r).

(** The two adapters of log files. *)
Section adapters.
Context `{JSON} (lim : limits).

Definition log_adapter (fm : format) : Prop :=
  (∃ env home, fm = CodexSession.codex lim env home) ∨ (∃ env dir, fm = OmpSession.omp lim env dir).

(** A record is kept as it is, under the number it was asked for. *)
Lemma parse_keeps fm line seq rec es : log_adapter fm → fm_parse fm line seq = Ok (rec, es) → raw_of rec = (seq, line).
Proof.
  intros [(env & home & ->)|(env & dir & ->)]; cbn [fm_parse CodexSession.codex OmpSession.omp].
  - unfold CodexSession.parseCodexDurableRecord. destruct (Unmarshal _ line) as [e|]; [|done]. cbn zeta.
    repeat (case_decide || case_match); by intros [= <- _].
  - unfold OmpSession.parseOMPDurableRecord. destruct (Unmarshal _ line) as [e|]; [|done]. cbn zeta.
    repeat (case_decide || case_match); by intros [= <- _].
Qed.

Context (fm : format) (Hfm : log_adapter fm).

Lemma read_records_spec content ps page :
  match read_records fm content ps page with
  | Ok p => sp_Session p = sp_Session page ∧ sp_EOF p = sp_EOF page ∧
      (raw_of <$> sp_RawRecords p) = (raw_of <$> sp_RawRecords page) ++ texts content ps ∧
      sp_NextCursor p = default (sp_NextCursor page) (last (rp_seq <$> ps))
  | Err e => ∃ seq text, e = EParse seq ∧ (seq, text) ∈ texts content ps ∧ (∃ x, fm_parse fm text seq = Err x)
  end.
Proof.
  revert page. induction ps as [|p ps IH]; intros page; cbn [read_records].
  { by rewrite app_nil_r. }
  destruct (fm_parse fm _ _) as [[rec es]|x] eqn:E.
  - specialize (IH {| sp_Session := sp_Session page; sp_Entries := sp_Entries page ++ es;
      sp_RawRecords := sp_RawRecords page ++ [rec]; sp_NextCursor := rp_seq p; sp_EOF := sp_EOF page |}).
    destruct (read_records _ _ _ _) as [q|e].
    + destruct IH as (-> & -> & -> & ->). split; [done|]. split; [done|]. cbn [sp_RawRecords sp_NextCursor].
      rewrite fmap_app, <-(assoc_L (++)). split; [cbn; by rewrite (parse_keeps _ _ _ _ _ Hfm E)|].
      rewrite fmap_cons, last_cons. by destruct (last (rp_seq <$> ps)).
    + destruct IH as (seq & text & -> & Hin & Hx). exists seq, text. split; [done|]. split; [by right|done].
  - exists (rp_seq p), (TrimSpace (ReadAt content p)). split; [done|]. split; [by left|by eexists].
Qed.

(** The page of the records [ts] after [n]. *)
Definition page_after (ts : list string) (after limit : Z) : list (Z * string) :=
  take (Z.to_nat (clamp_limit (fm_default_read fm) (fm_max_read fm) limit)) (drop (Z.to_nat after) (numbered ts)).

Lemma texts_seq c ps ts : texts c ps = numbered ts → (rp_seq <$> ps) = (λ i, Z.of_nat i + 1) <$> seq 0 (length ts).
Proof. intros E. rewrite <-numbered_fst, <-E. unfold texts. by rewrite <-list_fmap_compose. Qed.

(** The search for the first position after the cursor. *)
Lemma Search_after ps n after : (rp_seq <$> ps) = (λ i, Z.of_nat i + 1) <$> seq 0 n →
  Search (length ps) (λ i, bool_decide (Some true = (λ p, bool_decide (after < rp_seq p)) <$> ps !! i)) =
  Nat.min (Z.to_nat after) (length ps).
Proof.
  intros E. assert (length ps = n) as Hn by (apply (f_equal length) in E; by rewrite !length_fmap, length_seq in E).
  apply search_from_spec; [lia|lia|]. intros k Hk.
  destruct (lookup_lt_is_Some_2 ps k) as [p Hp]; [lia|]. rewrite Hp. cbn.
  assert (rp_seq p = Z.of_nat k + 1) as ->.
  { apply (f_equal (.!! k)) in E. rewrite !list_lookup_fmap, Hp, lookup_seq_lt in E by lia. by injection E. }
  apply bool_decide_ext. rewrite (inj_iff Some), (eq_comm true), bool_decide_eq_true. lia.
Qed.

Lemma texts_take_drop c ps m n : texts c (take m (drop n ps)) = take m (drop n (texts c ps)).
Proof. unfold texts. by rewrite fmap_take, fmap_drop. Qed.

Lemma numbered_length ts : length (numbered ts) = length ts.
Proof. apply length_imap. Qed.

Lemma clamp_limit_pos def max limit : 0 < def → 0 < max → 0 < clamp_limit def max limit.
Proof. unfold clamp_limit. repeat case_decide; lia. Qed.

Lemma adapter_limit limit : 0 < clamp_limit (fm_default_read fm) (fm_max_read fm) limit.
Proof. apply clamp_limit_pos; by destruct Hfm as [(? & ? & ->)|(? & ? & ->)]. Qed.

(** What the page of the records of [c] says. *)
Definition page_of (c : string) (after limit : Z) (res : result session_err SessionPage) : Prop :=
  match res with
  | Ok page =>
      (raw_of <$> sp_RawRecords page) = page_after (records c) after limit ∧
      sp_NextCursor page = default after (last (page_after (records c) after limit).*1) ∧
      sp_EOF page = bool_decide (Z.of_nat (length (records c)) ≤
        Z.max 0 after + clamp_limit (fm_default_read fm) (fm_max_read fm) limit)
  | Err e => ∃ seq text, e = EParse seq ∧ (seq, text) ∈ page_after (records c) after limit ∧
               ∃ x, fm_parse fm text seq = Err x
  end.

Lemma read_page c c' ps after limit session : texts c' ps = numbered (records c) →
  let start := Search (length ps) (λ i, bool_decide (Some true = (λ p, bool_decide (after < rp_seq p)) <$> ps !! i)) in
  let stop := Nat.min (start + Z.to_nat (clamp_limit (fm_default_read fm) (fm_max_read fm) limit)) (length ps) in
  page_of c after limit (read_records fm c' (take (stop - start) (drop start ps)) {|
    sp_Session := session; sp_Entries := []; sp_RawRecords := []; sp_NextCursor := after;
    sp_EOF := bool_decide (stop = length ps) |}).
Proof.
  intros E. pose proof (adapter_limit limit) as Hpos. cbv zeta.
  rewrite (Search_after ps _ after (texts_seq _ _ _ E)).
  assert (length ps = length (records c)) as Hlen.
  { apply (f_equal length) in E. unfold texts in E. by rewrite length_fmap, numbered_length in E. }
  set (n := Z.to_nat (clamp_limit (fm_default_read fm) (fm_max_read fm) limit)).
  match goal with |- page_of _ _ _ (read_records fm c' ?x ?y) => pose proof (read_records_spec c' x y) as Hspec;
    assert (texts c' x = page_after (records c) after limit) as Hpage end.
  { rewrite texts_take_drop, E. unfold page_after. fold n.
    destruct (decide (Z.to_nat after ≤ length ps)%nat).
    - rewrite (Nat.min_l (Z.to_nat after)) by done.
      destruct (decide (Z.to_nat after + n ≤ length ps)%nat).
      + f_equal. lia.
      + rewrite !take_ge; [done|rewrite length_drop, numbered_length; lia..].
    - rewrite !drop_ge by (rewrite numbered_length; lia). by rewrite !take_nil. }
  destruct (read_records _ _ _ _) as [page|e]; cbn [page_of].
  - destruct Hspec as (_ & -> & -> & ->). rewrite Hpage. split; [done|]. split.
    + rewrite <-Hpage. unfold texts. by rewrite <-list_fmap_compose.
    + apply bool_decide_ext. rewrite Hlen. unfold n in *. lia.
  - by rewrite Hpage in Hspec.
Qed.

(** A page of a session log read after a cursor is the next records of the log,
    as they stand in it and in their order, at most as many as asked for, whatever
    the adapter had read of the log before and however the file has grown since it
    was indexed; the new cursor is the last of them, and the end is reported just
    when none is left. The index stays one of the log. The page fails only when
    one of its records is not one of the harness. *)
Theorem session_page (Hend : objects_end) L t t' r path c0 c c' after limit indexes :
  Forall (log_line (fm_max_record fm)) L →
  ref_Harness r = fm_harness fm → resolveLocator fm t false r = Ok path → fm_validate fm t path = Ok () →
  read_log lim t path = Ok c → read_log lim t' path = Ok c' →
  indexed (fm_max_record fm) L c0 (default new_index (indexes !! path)) →
  begins c0 c → begins c c' → begins c' (concat_lines L) →
  let '(indexes', res) := Read lim fm t t' false r after limit indexes in
  indexed (fm_max_record fm) L c (default new_index (indexes' !! path)) ∧
  (∀ q, q ≠ path → indexes' !! q = indexes !! q) ∧
  page_of c after limit res.
Proof.
  intros HL Hh Hp Hv Hc Hc' Hix H0 H1 H2. unfold Read.
  rewrite (bool_decide_eq_false_2 (ref_Harness r ≠ fm_harness fm)), andb_false_r by (by intros []).
  rewrite Hp, Hv, Hc.
  assert (begins c (concat_lines L)) as HcL by by etrans.
  destruct (indexed_step _ L c0 c _ Hend Hix H0 HcL) as (ix & E & Hix' & Hr).
  assert (indexSnapshot (fm_max_record fm) (Ok c) (indexes !! path) = (Some ix, Ok (ix_records ix))) as ->.
  { rewrite <-E. destruct (indexes !! path); [done|]. unfold indexSnapshot, new_index. cbn [default ix_offset].
    by rewrite decide_False by lia. }
  rewrite Hc'. cbv beta iota zeta. cbn [andb]. split; [|split].
  - by rewrite lookup_insert_eq.
  - intros q Hq. by rewrite lookup_insert_ne.
  - apply read_page. by apply Hr.
Qed.
End adapters.

(** ** What is shown *)

(** An entry says what a user, an assistant or a tool said, that a tool was called,
    or how the run goes. *)
Inductive public : SessionEntry → Prop :=
| public_message seq at_ role text t : one_of role ["user"; "assistant"] = true → nonblank text = true →
    public (entry seq at_ SessionEntryMessage role text "" "" "" None t)
| public_call seq at_ tool call status args t : public (entry seq at_ SessionEntryToolCall "assistant" "" tool call status args t)
| public_result seq at_ text tool call status t :
    public (entry seq at_ SessionEntryToolResult "tool" text tool call status None t)
| public_activity seq at_ text tool call status args t :
    public (entry seq at_ SessionEntryActivity "" text tool call status args t)
| public_runtime seq at_ text status t : public (entry seq at_ SessionEntryRuntime "" text "" "" status None t)
| public_error seq at_ role text t : public (entry seq at_ SessionEntryError role text "" "" "error" None t).
#[local] Hint Constructors public : core.

Lemma public_raw_type t e : public e → public (set_raw_type t e).
Proof. by destruct 1; constructor. Qed.
#[local] Hint Resolve public_raw_type : core.

Lemma public_raw_types t es : Forall public es → Forall public (set_raw_type t <$> es).
Proof. intros H. apply Forall_fmap. by apply (Forall_impl _ _ _ H); auto. Qed.
#[local] Hint Resolve public_raw_types : core.

Section shown.
Context `{JSON}.

Lemma codex_item_public item seq at_ : Forall public (CodexSession.normalizeCodexResponseItem item seq at_).
Proof.
  unfold CodexSession.normalizeCodexResponseItem. case_decide; [|repeat (case_decide; [by auto|]); by auto].
  destruct (one_of _ _) eqn:E; [|by auto]. cbn [negb]. destruct (nonblank _) eqn:N; by auto.
Qed.

Lemma codex_public line seq rec es : CodexSession.parseCodexDurableRecord line seq = Ok (rec, es) → Forall public es.
Proof.
  unfold CodexSession.parseCodexDurableRecord. destruct (Unmarshal _ line) as [env|]; [|done]. cbn zeta.
  case_decide; [|case_decide].
  - destruct (Unmarshal_raw _ _) as [item|]; [|done]. intros [= _ <-]. apply public_raw_types, codex_item_public.
  - destruct (Unmarshal_raw _ _) as [msg|]; [|done]. intros [= _ <-]. repeat case_decide; auto.
  - intros [= _ <-]. auto.
Qed.

Lemma codex_call_public item t e : CodexSession.normalizeCodexLiveToolCall item t = Some e → public e.
Proof. unfold CodexSession.normalizeCodexLiveToolCall, CodexSession.live. repeat case_decide; intros [= <-]; auto. Qed.

Lemma codex_result_public item t e : CodexSession.normalizeCodexLiveToolResult item t = Some e → public e.
Proof.
  unfold CodexSession.normalizeCodexLiveToolResult, CodexSession.live. case_decide; [by intros [= <-]; auto|].
  case_decide; [|done]. cbn zeta. destruct (match CodexSession.li_Error _ with Some _ => _ | None => _ end). intros [= <-]. auto.
Qed.
#[local] Hint Resolve codex_call_public codex_result_public : core.

Lemma codex_live_public line ev : CodexSession.NormalizeLive line = Ok ev → Forall public (le_Entries ev).
Proof.
  unfold CodexSession.NormalizeLive. case_decide; [done|]. destruct (Unmarshal _ _) as [x|]; [|done].
  intros [= <-]. cbn [le_Entries]. unfold CodexSession.live.
  case_decide; [case_decide; auto|]. case_decide; [by auto|].
  case_decide; [destruct (CodexSession.normalizeCodexLiveToolCall _ _) eqn:E; eauto|].
  case_decide; [case_decide; [destruct (nonblank _) eqn:N; auto|]|case_decide; [by auto|case_match; auto]].
  destruct (CodexSession.normalizeCodexLiveToolResult _ _) eqn:E; eauto.
Qed.

Lemma omp_message_public r seq fallback es : OmpSession.normalizeOMPMessage r seq fallback = Ok es → Forall public es.
Proof.
  unfold OmpSession.normalizeOMPMessage. destruct r as [r|]; [|by intros [= <-]].
  destruct (Unmarshal_raw _ _) as [msg|]; [|done]. cbn zeta.
  case_decide; [destruct (nonblank _) eqn:N; intros [= <-]; auto|].
  case_decide; [|case_decide; intros [= <-]; auto].
  match goal with |- context [if bool_decide (?o = []) && _ then _ else _] => assert (Forall public o) as Ho end.
  { apply Forall_app. split; [destruct (nonblank _) eqn:N; auto|].
    apply Forall_forall. intros e (p & _ & Hp)%list_elem_of_omap. case_decide; simplify_eq; auto. }
  intros [= <-]. match goal with |- Forall _ (if ?b then _ else _) => destruct b end; auto.
Qed.

Lemma omp_start_public r seq fallback e : OmpSession.normalizeOMPToolStart r seq fallback = Some e → public e.
Proof.
  unfold OmpSession.normalizeOMPToolStart. destruct (Unmarshal_raw _ _) as [x|]; [|done]. cbn.
  by case_decide; intros [= <-].
Qed.

Lemma omp_public line seq rec es : OmpSession.parseOMPDurableRecord line seq = Ok (rec, es) → Forall public es.
Proof.
  unfold OmpSession.parseOMPDurableRecord. destruct (Unmarshal _ line) as [env|]; [|done]. cbn zeta. case_decide.
  - destruct (OmpSession.normalizeOMPMessage _ _ _) as [l|] eqn:E; [|done]. intros [= _ <-].
    apply Forall_fmap. apply (Forall_impl _ _ _ (omp_message_public _ _ _ _ E)). intros e He. cbn. case_decide; auto.
  - destruct (bool_decide _ && bool_decide _); intros [= _ <-]; [|by auto].
    destruct (OmpSession.normalizeOMPToolStart _ _ _) eqn:E; [|by auto]. apply omp_start_public in E. case_decide; auto.
Qed.

Lemma omp_live_public line ev : OmpSession.NormalizeLive line = Ok ev → Forall public (le_Entries ev).
Proof.
  unfold OmpSession.NormalizeLive. case_decide; [done|]. destruct (Unmarshal _ _) as [x|]; [|done].
  cbn zeta. case_match.
  - destruct (OmpSession.normalizeOMPMessage _ _ _) as [l|] eqn:E; [|done]. intros [= <-].
    by apply public_raw_types, (omp_message_public _ _ _ _ E).
  - case_decide; intros [= <-]; cbn [le_Entries]; [|by auto].
    destruct (OmpSession.normalizeOMPToolStart _ _ _) eqn:E; [|by auto]. apply omp_start_public in E. auto.
Qed.

Lemma opencode_part_public p role seq at_ t : Forall public (OpenCode.normalizeOpenCodePart p role seq at_ t).
Proof.
  unfold OpenCode.normalizeOpenCodePart. case_decide.
  - destruct (OpenCode.pd_Synthetic p); [by cbn; auto|]. cbn [orb]. destruct (nonblank _) eqn:N; [|by auto]. cbn [negb]. cbv zeta.
    match goal with |- context [one_of ?r _] => destruct (one_of r ["user"; "assistant"]) eqn:E end; auto.
  - case_decide; [|by auto]. constructor; [by auto|]. destruct (OpenCode.openCodeToolTerminal _); auto.
Qed.

Lemma opencode_public part message seq created rec es :
  OpenCode.parseOpenCodeDurablePart part message seq created = Ok (rec, es) → Forall public es.
Proof.
  unfold OpenCode.parseOpenCodeDurablePart. destruct (Unmarshal _ part) as [p|]; [|done].
  destruct (if decide _ then _ else _) as [m|]; [|done]. intros [= _ <-]. apply opencode_part_public.
Qed.

Lemma opencode_live_public line ev : OpenCode.NormalizeLive line = Ok ev → Forall public (le_Entries ev).
Proof.
  unfold OpenCode.NormalizeLive. case_decide; [done|]. destruct (Unmarshal _ _) as [x|]; [|done].
  destruct (OpenCode.ol_Part x) as [r|]; [|by intros [= <-]; cbn; auto].
  destruct (is_null r); [by intros [= <-]; cbn; auto|]. destruct (OpenCode.dec_part r); [|done].
  intros [= <-]. apply opencode_part_public.
Qed.

(** A record that a harness stores is shown as the entries, and an event that it
    streams. *)
Inductive stored : string → string → list SessionEntry → Prop :=
| stored_codex line seq rec es : CodexSession.parseCodexDurableRecord line seq = Ok (rec, es) →
    stored SubagentClientCodex line es
| stored_omp line seq rec es : OmpSession.parseOMPDurableRecord line seq = Ok (rec, es) → stored SubagentClientOMP line es
| stored_opencode part message seq created rec es :
    OpenCode.parseOpenCodeDurablePart part message seq created = Ok (rec, es) → stored SubagentClientOpencode part es.

Inductive streamed : string → string → list SessionEntry → Prop :=
| streamed_codex line ev : CodexSession.NormalizeLive line = Ok ev → streamed SubagentClientCodex line (le_Entries ev)
| streamed_omp line ev : OmpSession.NormalizeLive line = Ok ev → streamed SubagentClientOMP line (le_Entries ev)
| streamed_opencode line ev : OpenCode.NormalizeLive line = Ok ev → streamed SubagentClientOpencode line (le_Entries ev).

(** What is not to be shown: what the system or the developer told the model, its
    reasoning, and the parts that OpenCode made up itself. *)
Inductive hidden : string → string → Prop :=
| hidden_codex line env item : Unmarshal CodexSession.dec_envelope line = Some env →
    CodexSession.env_Type env = "response_item" →
    Unmarshal_raw CodexSession.dec_item (CodexSession.env_Payload env) = Some item →
    (if decide (CodexSession.ri_Type item = "message") then one_of (CodexSession.ri_Role item) ["user"; "assistant"] = false
     else one_of (CodexSession.ri_Type item)
            ["function_call"; "function_call_output"; "custom_tool_call"; "custom_tool_call_output"] = false) →
    hidden SubagentClientCodex line
| hidden_omp line env msg : Unmarshal OmpSession.dec_envelope line = Some env → OmpSession.oe_Type env = "message" →
    Unmarshal_raw OmpSession.dec_message (OmpSession.oe_Message env) = Some msg →
    one_of (ToLower (OmpSession.om_Role msg)) ["user"; "assistant"; "toolresult"] = false → hidden SubagentClientOMP line
| hidden_opencode part p : Unmarshal OpenCode.dec_part part = Some p →
    (if decide (OpenCode.pd_Type p = "text") then OpenCode.pd_Synthetic p = true else OpenCode.pd_Type p ≠ "tool") →
    hidden SubagentClientOpencode part.

Lemma hidden_shows_nothing h line es : stored h line es → hidden h line → es = [].
Proof.
  destruct 1 as [line seq rec es E|line seq rec es E|part message seq created rec es E]; inversion 1; subst.
  - unfold CodexSession.parseCodexDurableRecord in E. revert E.
    match goal with Hu : Unmarshal _ _ = _, Ht : CodexSession.env_Type _ = _, Hi : Unmarshal_raw _ _ = _ |- _ =>
      rewrite Hu, Ht; cbn; rewrite Hi end.
    intros [= _ <-]. unfold CodexSession.normalizeCodexResponseItem.
    case_decide as Hm.
    + match goal with Hh : one_of _ _ = false |- _ => by rewrite Hh end.
    + match goal with Hh : one_of _ _ = false |- _ => apply bool_decide_eq_false in Hh; rename Hh into Hn end.
      repeat (case_decide as Hx; [exfalso; rewrite Hx in Hn; apply Hn; set_solver|clear Hx]). done.
  - unfold OmpSession.parseOMPDurableRecord in E. revert E.
    match goal with Hu : Unmarshal _ _ = _, Ht : OmpSession.oe_Type _ = _, Hi : Unmarshal_raw _ _ = _, Hh : one_of _ _ = _ |- _ =>
      rewrite Hu, Ht; cbn zeta; rewrite decide_True by done; unfold OmpSession.normalizeOMPMessage; rewrite Hi; apply bool_decide_eq_false in Hh; rename Hh into Hn end.
    destruct (OmpSession.oe_Message _); [|by intros [= _ <-]]. cbn zeta.
    repeat (case_decide as Hx; [exfalso; rewrite Hx in Hn; apply Hn; set_solver|clear Hx]). by intros [= _ <-].
  - unfold OpenCode.parseOpenCodeDurablePart in E. revert E.
    match goal with Hu : Unmarshal _ _ = _ |- _ => rewrite Hu end.
    destruct (if decide (message = "") then _ else _); [|done]. intros [= _ <-]. unfold OpenCode.normalizeOpenCodePart.
    case_decide; [match goal with Hs : OpenCode.pd_Synthetic _ = true |- _ => by rewrite Hs end|]. by rewrite decide_False.
Qed.

(** Whatever the records of a harness hold, what is shown of them is what users
    and assistants said, calls and results of tools, and how the run went; and a
    stored record of the system or the developer, of the model's reasoning, or
    made up by the harness gives no entry at all. *)
Theorem only_said_shown h line es : stored h line es ∨ streamed h line es →
  Forall public es ∧ (stored h line es → hidden h line → es = []).
Proof.
  intros Hs. split; [|apply hidden_shows_nothing]. destruct Hs as [[]|[]].
  - by eapply codex_public.
  - by eapply omp_public.
  - by eapply opencode_public.
  - by eapply codex_live_public.
  - by eapply omp_live_public.
  - by eapply opencode_live_public.
Qed.
End shown.

(** ** The database of OpenCode *)

Section opencode.
Context `{JSON} (lim : limits) (d : OpenCode.database).

Lemma discover_rows_wait rows task started nearest : task ≠ "" → rows ≠ [] →
  OpenCode.discover_rows d rows task started nearest = OpenCode.Waits.
Proof. intros Ht Hr. destruct rows as [|r rows]; [done|]. cbn. by rewrite decide_False. Qed.

Lemma discover_rows_return rows started nearest : ∃ r, OpenCode.discover_rows d rows "" started nearest = OpenCode.Returns r.
Proof. revert nearest. induction rows as [|r rows IH]; intros nearest; cbn; [by eexists|apply IH]. Qed.

(** The native id settles it before the sessions are gone through. *)
Definition native_found (t : tree) (root native : string) : Prop := ∃ r,
  TrimSpace native ≠ "" ∧ OpenCode.queryOpenCodeSession d (TrimSpace native) = Some r ∧
  (canonical lim t root = "" ∨ canonical lim t (OpenCode.os_Directory r) = canonical lim t root).

Lemma discover_open_wait locator root task started :
  OpenCode.discover_open d locator root task started = OpenCode.Waits ↔
  nonblank task = true ∧ OpenCode.sessions_in d root ≠ [].
Proof.
  unfold OpenCode.discover_open. cbn [OpenCode.query mbind OpenCode.outcome_bind].
  set (rows := take 200 _).
  assert (rows = [] ↔ OpenCode.sessions_in d root = []) as Hrows.
  { unfold rows. pose proof (merge_sort_Permutation (OpenCode.newest_first OpenCode.os_TimeCreated OpenCode.os_ID)
      (OpenCode.sessions_in d root)) as Hp. destruct (merge_sort _ _) as [|r l].
    - apply Permutation_nil_l in Hp. by rewrite <-Hp.
    - split; [done|]. intros E. rewrite E in Hp. by apply Permutation_nil_r in Hp. }
  rewrite <-Hrows. unfold nonblank. rewrite bool_decide_eq_true. destruct (decide (TrimSpace task = "")) as [E|E].
  - rewrite E. destruct (discover_rows_return rows started None) as [r ->]. split; [done|]. by intros [].
  - destruct (decide (rows = [])) as [->|Hn]; [split; [done|by intros []]|]. by rewrite discover_rows_wait.
Qed.

(** Looking for the OpenCode session of a task does not return until its caller
    gives up, when the native id did not settle it and the directory has any
    session: for the text of each session it asks the one connection of the
    database a second time while it still reads the sessions from it. Without a
    task, or without sessions, it returns. *)
Theorem opencode_discover_waits t locator root task native started :
  OpenCode.Discover lim d t locator root task native started = OpenCode.Waits ↔
  ¬ native_found t root native ∧ nonblank task = true ∧ OpenCode.sessions_in d (canonical lim t root) ≠ [].
Proof.
  unfold OpenCode.Discover, native_found. cbn zeta. destruct (decide (TrimSpace native = "")) as [E|E].
  - rewrite discover_open_wait. split; [|tauto]. intros Hw. split; [|done]. by intros (r & Hn & _).
  - destruct (OpenCode.queryOpenCodeSession d (TrimSpace native)) as [r|] eqn:Hq.
    + destruct (bool_decide _ || bool_decide _) eqn:Hb.
      * split; [done|]. intros [Hn _]. destruct Hn. exists r. apply orb_prop in Hb as [Hb|Hb];
          apply bool_decide_eq_true in Hb; auto.
      * rewrite discover_open_wait. apply orb_false_elim in Hb as [H1%bool_decide_eq_false H2%bool_decide_eq_false].
        split; [|tauto]. intros Hw. split; [|done]. intros (r' & _ & [= <-] & [Hr|Hr]); tauto.
    + rewrite discover_open_wait. split; [|tauto]. intros Hw. split; [|done]. by intros (r & _ & Hn & _).
Qed.
End opencode.

(** ** Examples *)

(** Texts in the notation of JSON with ' for the quotes. *)
Definition q (s : string) : string := "'" +:+ s +:+ "'".
Definition jstr (s : string) : raw := Raw (q s) (RString s).
Definition jobj (m : list (string * raw)) : raw :=
  Raw ("{" +:+ Join "," ((λ kv, q kv.1 +:+ ":" +:+ raw_text kv.2) <$> m) +:+ "}") (RObject m).
Definition jarr (l : list raw) : raw := Raw ("[" +:+ Join "," (raw_text <$> l) +:+ "]") (RArray l).

(** A parser that knows a few texts. *)
Definition knows (table : list raw) : JSON := {|
  parse := λ s, find (λ r, bool_decide (raw_text r = s)) table;
  integer := λ _, None; positive := λ _, None; encode := raw_text; encode_string := q; parse_time := λ _, None |}.

Definition ends_once (table : list raw) : bool :=
  forallb (λ r, forallb (λ n, negb (@Valid (knows table) (TrimSpace (String.substring 0 n (raw_text r)))))
                  (seq 0 (size (raw_text r)))) table.

Lemma substring_size s n : (n ≤ size s)%nat → size (String.substring 0 n s) = n.
Proof.
  revert n. induction s as [|c s IH]; intros [|n] Hn; try done; [cbn in Hn; lia|].
  cbn in Hn. cbn [String.substring size String.length]. f_equal. apply IH. unfold size. lia.
Qed.

Lemma knows_ends table : ends_once table = true → @objects_end (knows table).
Proof.
  intros Ht x y _ Hx Hxy _. unfold Valid at 1 in Hxy. cbn in Hxy. apply bool_decide_eq_true in Hxy as [r Hr].
  apply find_some in Hr as [Hin Hr%bool_decide_eq_true].
  destruct y as [|c y]; [done|]. exfalso. unfold ends_once in Ht. rewrite forallb_forall in Ht.
  specialize (Ht r Hin). rewrite forallb_forall in Ht. specialize (Ht (size x)).
  rewrite Hr, substring_prefix, Hx in Ht. discriminate Ht. apply in_seq. rewrite size_app. cbn. lia.
Qed.

Definition j_started : raw := jobj [("type", jstr "event_msg"); ("payload", jobj [("type", jstr "task_started")])].
Definition j_message (role text : string) : raw := jobj [("type", jstr "response_item");
  ("payload", jobj [("type", jstr "message"); ("role", jstr role);
                    ("content", jarr [jobj [("type", jstr "input_text"); ("text", jstr text)]])])].
Definition j_go : raw := j_message "user" "go".
Definition j_rules : raw := j_message "developer" "rules".
Definition sample_json : JSON := knows [j_started; j_go; j_rules].

Definition line_of (r : raw) : string := raw_text r +:+ nl.
Definition sample_log : list string := [line_of j_started; line_of j_rules; line_of j_go].

Lemma sample_ends : @objects_end sample_json.
Proof. apply knows_ends. vm_compute. reflexivity. Qed.

Lemma sample_line r : r ∈ [j_started; j_go; j_rules] → @log_line sample_json 1000 (line_of r).
Proof.
  intros Hr. assert ((newline ∉ String.list_ascii_of_string (raw_text r)) ∧ (size (line_of r) ≤ 1000)%nat ∧
    HasPrefix (raw_text r) "{" = true ∧ TrimSpace (raw_text r) = raw_text r ∧ @Valid sample_json (raw_text r) = true)
    as (H1 & H2 & H3 & H4 & H5).
  { apply elem_of_cons in Hr as [-> | [-> | [-> | []%not_elem_of_nil]%elem_of_cons]%elem_of_cons]; (split; [apply (bool_decide_unpack _); vm_compute; done|]);
      (split; [apply Nat.leb_le; vm_compute; done|]); vm_compute; repeat split; reflexivity. }
  split; [by exists (raw_text r)|]. split; [done|]. right. exists (raw_text r), nl. split; [done|].
  split; [|done]. constructor; [vm_compute; left; split; discriminate|constructor].
Qed.

Lemma log_line_le `{JSON} m m' l : (m ≤ m')%nat → log_line m l → log_line m' l.
Proof. intros Hm (H1 & H2 & H3). split; [done|]. split; [lia|done]. Qed.

Lemma sample_log_lines m : (1000 ≤ m)%nat → Forall (@log_line sample_json m) sample_log.
Proof.
  intros Hm. assert (∀ r, r ∈ [j_started; j_go; j_rules] → @log_line sample_json m (line_of r)) as Hl.
  { intros r Hr. apply (log_line_le 1000); [exact Hm|by apply sample_line]. }
  apply Forall_cons_2; [|apply Forall_cons_2; [|apply Forall_cons_2; [|apply Forall_nil_2]]]; apply Hl;
    rewrite !elem_of_cons; tauto.
Qed.

(** The file as it is being written: half a line, a record without its newline, all. *)
Definition looks : list string :=
  [String.substring 0 30 (line_of j_started); line_of j_started +:+ raw_text j_rules; concat_lines sample_log].

Lemma begins_by a b c : b = a +:+ c → begins a b.
Proof. by exists c. Qed.

Lemma looks_growing : growing looks (concat_lines sample_log).
Proof.
  split; [|split; [|split; [|exact I]]].
  - eapply (begins_by _ _ (from 30 (line_of j_started +:+ raw_text j_rules))). vm_compute. reflexivity.
  - eapply (begins_by _ _ (nl +:+ line_of j_go)). vm_compute. reflexivity.
  - reflexivity.
Qed.

Lemma index_catches_up_witness :
  Forall2 (@snapshot_of sample_json) looks (@snapshots sample_json 1000 None looks).
Proof.
  apply (@index_catches_up sample_json 1000 sample_ends sample_log looks);
    [apply sample_log_lines; lia | apply looks_growing].
Defined.

(** The records that these looks find. *)
Example looks_records : (λ c, length (@records sample_json c)) <$> looks = [0; 2; 3]%nat.
Proof. vm_compute. reflexivity. Qed.

Definition sample_logs : log_env := {| lg_fault := λ _, false; lg_modified := λ _, None |}.
Definition sample_codex : format := @CodexSession.codex sample_json FileSpec.go_limits sample_logs ["codex"].
Definition sample_path : abspath := ["codex"; "sessions"; "rollout.jsonl"].
Definition sample_tree (c : string) : tree :=
  {[ ["codex"] := Dir; ["codex"; "sessions"] := Dir; sample_path := File c 420 ]}.
Definition sample_ref : HarnessSessionRef := {|
  ref_Harness := SubagentClientCodex; ref_ID := "s1"; ref_Title := ""; ref_Model := ""; ref_Thinking := "";
  ref_StartedAt := zero_time; ref_UpdatedAt := zero_time; ref_Locator := Some sample_path; ref_root := "" |}.
Definition before : string := line_of j_started +:+ raw_text j_rules.
Definition after_ : string := concat_lines sample_log.

Lemma session_page_witness :
  let '(ixs, res) := @Read sample_json FileSpec.go_limits sample_codex (sample_tree before) (sample_tree after_) false sample_ref 1 10 ∅ in
  @indexed sample_json (fm_max_record sample_codex) sample_log before (default new_index (ixs !! sample_path)) ∧
  (∀ q, q ≠ sample_path → ixs !! q = (∅ : gmap abspath fileIndex) !! q) ∧
  @page_of sample_json sample_codex before 1 10 res.
Proof.
  apply (@session_page sample_json FileSpec.go_limits sample_codex (or_introl (ex_intro _ _ (ex_intro _ _ eq_refl)))
    sample_ends sample_log (sample_tree before) (sample_tree after_) sample_ref sample_path "" before after_ 1 10 ∅).
  - apply sample_log_lines. unfold sample_codex, CodexSession.codex, fm_max_record, CodexSession.maxCodexRecordBytes. lia.
  - reflexivity.
  - reflexivity.
  - vm_compute. reflexivity.
  - vm_compute. reflexivity.
  - vm_compute. reflexivity.
  - rewrite lookup_empty. apply indexed_new. apply sample_log_lines.
    unfold sample_codex, CodexSession.codex, fm_max_record, CodexSession.maxCodexRecordBytes. lia.
  - apply (begins_by _ _ before). reflexivity.
  - apply (begins_by _ _ (nl +:+ line_of j_go)). vm_compute. reflexivity.
  - reflexivity.
Defined.

(** What a developer told the model is a record, and is not shown. *)
Lemma only_said_shown_witness :
  (@stored sample_json SubagentClientCodex (raw_text j_rules) [] ∧ @hidden sample_json SubagentClientCodex (raw_text j_rules)) ∧
  (Forall public [] ∧
   (@stored sample_json SubagentClientCodex (raw_text j_rules) [] →
    @hidden sample_json SubagentClientCodex (raw_text j_rules) → ([] : list SessionEntry) = [])).
Proof.
  assert (@stored sample_json SubagentClientCodex (raw_text j_rules) []) as Hs.
  { apply (@stored_codex sample_json _ 2 {| hr_SourceSeq := 2; hr_At := zero_time; hr_RawType := "response_item";
      hr_Payload := raw_text j_rules |}). vm_compute. reflexivity. }
  split; [split; [exact Hs|]|].
  - eapply (@hidden_codex sample_json); [vm_compute; reflexivity..|].
    vm_compute. reflexivity.
  - exact (@only_said_shown sample_json SubagentClientCodex (raw_text j_rules) [] (or_introl Hs)).
Defined.

(** What the user said is. *)
Example user_shown : snd <$> (match @CodexSession.parseCodexDurableRecord sample_json (raw_text j_go) 3 with
                             | Ok x => Some x | Err _ => None end) =
  Some [entry 3 zero_time SessionEntryMessage "user" "go" "" "" "" None "response_item/message"].
Proof. vm_compute. reflexivity. Qed.

(** One session in the directory is enough for a task not to be found in time. *)
Example discover_hangs : @OpenCode.Discover sample_json FileSpec.go_limits
    {| OpenCode.db_session := [{| OpenCode.os_ID := "s1"; OpenCode.os_Directory := "/work"; OpenCode.os_Title := "";
         OpenCode.os_Model := ""; OpenCode.os_Agent := ""; OpenCode.os_TimeCreated := 1; OpenCode.os_TimeUpdated := 1 |}];
       OpenCode.db_message := []; OpenCode.db_part := [] |} ∅ None "/work" "fix the bug" "" 0 = OpenCode.Waits.
Proof. vm_compute. reflexivity. Qed.
