(* ===== verification/HarnessSpec.v ===== *)
(** * What a run of a coding agent gives

    The events and the output of a run do not depend on how the process cut what
    it wrote, and a process is only started as the policy and the request say. *)

From S2P Require Import Prelude Entities GoStrings Json GoPath FileOps FileSpec Search AgentRuns Permissions Sessions Harness.
From S2P Require Import SessionInv.
From S2P Require SessionSpec.
Open Scope Z_scope.

(** ** Output *)

Lemma split_lines s : ∃ ls z, s = concat_lines ls +:+ z ∧ Forall logline ls ∧ no_newline z.
Proof.
  induction s as [|c s (ls & z & -> & Hls & Hz)].
  { exists [], "". split; [done|]. split; [done|]. apply not_elem_of_nil. }
  destruct (decide (c = newline)) as [->|Hc].
  { exists (nl :: ls), z. split; [done|]. split; [|done]. constructor; [|done]. exists "". split; [done|]. apply not_elem_of_nil. }
  destruct Hls as [|l ls (b & -> & Hb) Hls].
  - exists [], (String c z). split; [done|]. split; [done|]. by apply no_newline_cons.
  - exists ((String c b +:+ nl) :: ls), z. split; [done|]. split; [|done]. constructor; [|done].
    exists (String c b). split; [done|]. by apply no_newline_cons.
Qed.

Lemma handed_part z : no_newline z → omap handed (lines_of z) = [].
Proof.
  intros Hz. rewrite lines_of_part by done. case_decide; [done|]. cbn. unfold handed. by rewrite (terminated_part z Hz).
Qed.

Lemma carried_lines ls z : Forall logline ls → no_newline z → carried (ls ++ lines_of z) = z.
Proof.
  intros Hls Hz. unfold carried. rewrite lines_of_part by done. case_decide as E.
  - subst z. rewrite app_nil_r. destruct (last ls) as [l|] eqn:El; [|done].
    rewrite Forall_forall in Hls. by rewrite (terminated_line l (Hls l (last_Some_elem_of _ _ El))).
  - by rewrite last_snoc, (terminated_part z Hz).
Qed.

(** The lines of two writes. *)
Lemma lines_carry a b :
  omap handed (lines_of (a +:+ b)) = omap handed (lines_of a) ++ omap handed (lines_of (carried (lines_of a) +:+ b)) ∧
  carried (lines_of (a +:+ b)) = carried (lines_of (carried (lines_of a) +:+ b)).
Proof.
  destruct (split_lines a) as (ls & z & -> & Hls & Hz). rewrite str_app_assoc, !lines_of_lines by done.
  rewrite (carried_lines ls z Hls Hz), !omap_app, (handed_part z Hz), app_nil_r. split; [done|].
  destruct (split_lines (z +:+ b)) as (ls' & z' & -> & Hls' & Hz'). rewrite lines_of_lines by done.
  rewrite (assoc_L (++)), !carried_lines by (done || by apply Forall_app). done.
Qed.

(** What the buffer keeps of the writes together. *)
Lemma limited_writes max buf ps : Z.of_nat (String.length buf) ≤ max →
  foldl (λ b p, (limitedBuffer_Write max b p).1) buf ps = first_bytes (Z.to_nat max) (buf +:+ concat_lines ps).
Proof.
  revert buf. induction ps as [|p ps IH]; intros buf Hb.
  { cbn [foldl concat_lines foldr]. rewrite String_app_nil_r, first_bytes_all by lia. done. }
  cbn [foldl]. change (concat_lines (p :: ps)) with (p +:+ concat_lines ps). unfold limitedBuffer_Write at 2. cbn [fst].
  case_decide; [case_decide|].
  - rewrite IH by (rewrite length_str_app, length_first_bytes; lia).
    rewrite first_bytes_prefix, first_bytes_all by (rewrite length_str_app, length_first_bytes; lia).
    rewrite first_bytes_app, first_bytes_prefix by lia. f_equal. f_equal. lia.
  - rewrite IH by (rewrite length_str_app; lia). by rewrite str_app_assoc.
  - rewrite IH by done. by rewrite !first_bytes_prefix by lia.
Qed.

Section harness.
Context `{JSON}.

Lemma tee_writes max t ps : 
  let '(t', l) := lineTee_writes max t ps in
  lt_buf t' = foldl (λ b p, (limitedBuffer_Write max b p).1) (lt_buf t) ps ∧
  (∀ a, lt_carry t = carried (lines_of a) →
    omap handed (lines_of (a +:+ concat_lines ps)) = omap handed (lines_of a) ++ l ∧
    lt_carry t' = carried (lines_of (a +:+ concat_lines ps))).
Proof.
  revert t. induction ps as [|p ps IH]; intros t; cbn [lineTee_writes].
  { split; [done|]. intros a Ha. change (concat_lines []) with "". by rewrite String_app_nil_r, app_nil_r. }
  unfold lineTee_Write. specialize (IH {| lt_buf := (limitedBuffer_Write max (lt_buf t) p).1;
    lt_carry := carried (lines_of (lt_carry t +:+ p)) |}).
  destruct (lineTee_writes _ _ ps) as [t' l]. destruct IH as [Hbuf Hl]. split; [exact Hbuf|].
  intros a Ha. change (concat_lines (p :: ps)) with (p +:+ concat_lines ps). rewrite <-str_app_assoc.
  destruct (lines_carry a p) as [E1 E2]. rewrite <-Ha in E1, E2. destruct (Hl (a +:+ p)) as [El Ec]; [by rewrite E2|].
  by rewrite El, Ec, E1, (assoc_L (++)).
Qed.

(** However the process cuts its output into writes, the lines handed on while
    it runs are those of the whole output that end and are not blank, each once
    and in order, and the result is the one of the whole output in one write; it
    leads with the last message of the agent when the output is within what the
    result keeps. *)
Theorem output_of_writes client writes e :
  let out := concat_lines writes in
  (lineTee_writes subagentMaxOutput new_tee writes).2 = omap handed (lines_of out) ∧
  lt_buf (lineTee_writes subagentMaxOutput new_tee writes).1 = first_bytes (Z.to_nat subagentMaxOutput) out ∧
  subagent_output client writes e = subagent_output client [out] e ∧
  (Z.of_nat (size out) ≤ 4000 → pe_deadline e = false → pe_error e = None →
   subagent_output client writes e = ("completed",
     let final := final_message client out in
     if decide (final = "") then out else final +:+ tail_header +:+ truncateTail out 1200)).
Proof.
  cbv zeta. assert (0 ≤ subagentMaxOutput) as Hmax by done.
  pose proof (tee_writes subagentMaxOutput new_tee writes) as Ht.
  destruct (lineTee_writes _ _ _) as [t l]. destruct Ht as [Hbuf Hl]. destruct (Hl "" eq_refl) as [El _].
  assert (foldl (λ b p, (limitedBuffer_Write subagentMaxOutput b p).1) "" writes =
    first_bytes (Z.to_nat subagentMaxOutput) (concat_lines writes)) as Hw by (by apply limited_writes).
  split; [exact (eq_sym El)|]. split; [cbn [fst]; by rewrite Hbuf|]. split.
  - unfold subagent_output. rewrite Hw, (limited_writes _ "" [concat_lines writes]) by done.
    change (concat_lines [concat_lines writes]) with (concat_lines writes +:+ ""). by rewrite String_app_nil_r.
  - intros Hs Hd He. unfold subagent_output. rewrite Hw, Hd, He, first_bytes_all.
    + assert (truncateTail (concat_lines writes) 4000 = concat_lines writes) as -> by (by apply decide_True). done.
    + unfold size in Hs. unfold subagentMaxOutput. lia.
Qed.
End harness.

(** ** What is started *)

(** The command line of a client with what the caller asked for. *)
Definition started_with (i : invocation) (extra : list string) : Prop :=
  iv_args i = subagentArgs (iv_client i) (iv_root i) (iv_agent i) (iv_model i) (iv_thinking i) extra (iv_task i).

Lemma resolved_client_nonempty c : (if decide (TrimSpace c = "") then DefaultSubagentClient else TrimSpace c) ≠ "".
Proof. by case_decide. Qed.

Lemma start_subagent_inv e profiles home task client agent model thinking timeout s i s' :
  start_subagent e profiles home task client agent model thinking timeout s = (Ok i, s') →
  ∃ c a m th to extra, resolveSubagentCall profiles client agent model thinking timeout = (c, a, m, th, to, extra) ∧
    iv_client i = (if decide (TrimSpace c = "") then DefaultSubagentClient else TrimSpace c) ∧
    iv_agent i = a ∧ iv_model i = m ∧ iv_thinking i = th ∧ iv_task i = TrimSpace task ∧ TrimSpace task ≠ "" ∧
    validateSubagentCall (iv_client i) a th = Ok () ∧ ge_root e = Ok (iv_root i) ∧
    one_of (permissionDecision "agent" (iv_client i) s).1 ["deny"; "ask"] = false ∧ s' = s ∧ started_with i extra.
Proof.
  unfold start_subagent. cbv zeta. case_decide as Ht; [done|].
  destruct (resolveSubagentCall _ _ _ _ _ _) as [[[[[c a] m] th] to] extra].
  destruct (validateSubagentCall _ _ _) as [u|] eqn:Hv; [|done]. destruct (ge_root e) as [root|] eqn:Hr; [|done].
  set (cl := if decide (TrimSpace c = "") then _ else _) in *. destruct (decide (_ = "deny")) as [|H1]; [done|].
  destruct (decide (_ = "ask")) as [|H2]; [by case_decide|]. intros [= <- <-].
  exists c, a, m, th, to, extra. cbn [iv_client iv_agent iv_model iv_thinking iv_task iv_root].
  do 6 (split; [done|]). split; [done|]. split; [by destruct u|]. split; [done|]. split; [|done].
  apply bool_decide_eq_false. rewrite !elem_of_cons. by intros [? | [? | []%not_elem_of_nil]].
Qed.


(** ** Profiles *)

Definition named_for (client agent : string) (p : SubagentProfile) : bool :=
  bool_decide (prof_Name p ≠ "") && bool_decide (prof_Name p = TrimSpace agent) &&
  (bool_decide (client = "") || bool_decide (client = prof_Client p)).

Lemma resolve_extra profiles client agent model thinking timeout :
  (resolveSubagentCall profiles client agent model thinking timeout).2 =
  from_option prof_ExtraArgs [] (find (named_for client agent) profiles).
Proof.
  induction profiles as [|p profiles IH]; [done|]. cbn [resolveSubagentCall find].
  change (bool_decide (prof_Name p ≠ "") && _ && _) with (named_for client agent p). by destruct (named_for client agent p).
Qed.

Lemma resolve_client profiles client agent model thinking timeout c a m th to extra :
  resolveSubagentCall profiles client agent model thinking timeout = (c, a, m, th, to, extra) →
  nonblank c = true ∨ c = client ∧ client ≠ "".
Proof.
  induction profiles as [|p profiles IH]; cbn [resolveSubagentCall].
  - intros [= <- _ _ _ _ _]. case_decide; [by left; vm_compute|by right].
  - destruct (_ && _ && _); [|done]. intros [= <- _ _ _ _ _]. left. unfold orDefault.
    case_decide; [vm_compute; done|]. by apply bool_decide_eq_true.
Qed.

Lemma normalized_client profiles s : Client (normalizeRunSpec profiles s) ≠ "".
Proof.
  unfold normalizeRunSpec. destruct (resolveSubagentCall _ _ _ _ _ _) as [[[[[c a] m] th] to] extra] eqn:E. cbn zeta.
  cbn [Client]. case_decide as Hc; [done|]. apply resolve_client in E as [E|[_ ?]]; [|done].
  by apply bool_decide_eq_true in E.
Qed.

(** The extra arguments of a profile reach the command line of a run only when
    the agent that the run was given by its profile is again the name of a profile,
    with the run's client as its own: the request is looked up a second time when
    the process is started, under the agent and the client it was resolved to. A
    profile that pins an agent of another name, or leaves the client to the
    default, runs without its arguments. *)
Theorem run_profile_args profiles s e home st i st' :
  let s' := normalizeRunSpec profiles s in
  start_subagent e profiles home (Task s') (Client s') (Agent s') (Model s') (Thinking s') (TimeoutSeconds s') st =
    (Ok i, st') →
  started_with i (from_option prof_ExtraArgs []
    (find (λ p, bool_decide (prof_Name p ≠ "") && bool_decide (prof_Name p = TrimSpace (Agent s')) &&
                bool_decide (prof_Client p = Client s')) profiles)).
Proof.
  cbv zeta. intros (c & a & m & th & to & extra & E & _ & _ & _ & _ & _ & _ & _ & _ & _ & _ & Hi)%start_subagent_inv.
  match type of E with ?x = _ => assert (x.2 = extra) as <- by by rewrite E end. clear E.
  rewrite resolve_extra in Hi. pose proof (normalized_client profiles s) as Hc.
  replace (find _ profiles) with (find (named_for (Client (normalizeRunSpec profiles s)) (Agent (normalizeRunSpec profiles s)))
    profiles); [exact Hi|]. clear Hi. set (s' := normalizeRunSpec profiles s) in *. clearbody s'.
  induction profiles as [|p profiles IH]; [done|]. cbn [find]. rewrite IH. unfold named_for.
  by rewrite (bool_decide_eq_false_2 (Client s' = "") Hc), (bool_decide_ext _ _ (eq_comm (prof_Client p) (Client s'))).
Qed.

(** ** Examples *)

Definition reviewer : SubagentProfile := {|
  prof_Name := "reviewer"; prof_Description := ""; prof_Client := "codex"; prof_Agent := "strict"; prof_Model := "";
  prof_Thinking := ""; prof_TimeoutSec := 0; prof_ExtraArgs := ["--sandbox"; "read-only"]; prof_Tab := "" |}.
Definition ask_reviewer : RunSpec := {|
  Workspace := "w"; Task := "look at this"; Client := ""; Agent := "reviewer"; Model := ""; Thinking := "";
  TimeoutSeconds := 0 |}.
Definition sample_gate : gate_env := {|
  ge_now := 0; ge_granted := []; ge_pending := []; ge_id := "pr_1"; ge_root := Ok "/work" |}.
Definition agents_allowed : permissionStore := {|
  perm_rules := [{| rule_Effect := "allow"; rule_Tool := "agent"; rule_Pattern := "*"; rule_Reason := "" |}];
  perm_pending := ∅; perm_granted := ∅ |}.
Definition reviewer_run : invocation := {|
  iv_client := "codex"; iv_agent := "strict"; iv_model := ""; iv_thinking := ""; iv_task := "look at this";
  iv_root := "/work"; iv_args := ["exec"; "--json"; "--full-auto"; "--profile"; "strict"; "look at this"];
  iv_timeout := None; iv_data_home := None |}.

(** What a direct call is started with, and a run. *)
Example reviewer_resolved :
  resolveSubagentCall [reviewer] "" "reviewer" "" "" 0 = ("codex", "strict", "", "", 0, ["--sandbox"; "read-only"]).
Proof. vm_compute. reflexivity. Qed.

Lemma reviewer_started : let s' := normalizeRunSpec [reviewer] ask_reviewer in
  start_subagent sample_gate [reviewer] "" (Task s') (Client s') (Agent s') (Model s') (Thinking s') (TimeoutSeconds s')
    agents_allowed = (Ok reviewer_run, agents_allowed).
Proof. vm_compute. reflexivity. Qed.

Lemma run_profile_args_witness : started_with reviewer_run [].
Proof. exact (run_profile_args [reviewer] ask_reviewer sample_gate "" agents_allowed _ _ reviewer_started). Defined.


(** Codex reads a task that looks like an option as one. *)
Example codex_task_as_option :
  subagentArgs SubagentClientCodex "/work" "" "" "" [] "--help" = ["exec"; "--json"; "--full-auto"; "--help"].
Proof. reflexivity. Qed.

(** The last message of an agent, and the same when it is long: the result keeps the
    last 4000 bytes of the events before it looks for the message, and its line no
    longer is a JSON object. *)
Definition said (text : string) : raw := SessionSpec.jobj [("type", SessionSpec.jstr "message_end");
  ("message", SessionSpec.jobj [("role", SessionSpec.jstr "assistant");
    ("content", SessionSpec.jarr [SessionSpec.jobj [("type", SessionSpec.jstr "text"); ("text", SessionSpec.jstr text)]])])].
Definition long : string := String.concat "" (replicate 4100 "x").
Definition talk : JSON := SessionSpec.knows [said "done"; said long].
Definition ended : process_end := {| pe_deadline := false; pe_error := None |}.

Example short_message : HasPrefix (@subagent_output talk SubagentClientOMP [raw_text (said "done") +:+ nl] ended).2
  ("done" +:+ tail_header) = true.
Proof. vm_compute. reflexivity. Qed.
Example long_message_lost :
  HasPrefix (@subagent_output talk SubagentClientOMP [raw_text (said long) +:+ nl] ended).2 (ellipsis +:+ "(truncated)") = true ∧
  @final_message talk SubagentClientOMP (raw_text (said long) +:+ nl) = long.
Proof. vm_compute. split; reflexivity. Qed.

Lemma output_of_writes_witness :
  let ps := ["{'type':'message_end','message':{'role':'assistant',"; "'content':[{'type':'text','text':'done'}]}}" +:+ nl] in
  let out := concat_lines ps in
  (lineTee_writes subagentMaxOutput new_tee ps).2 = omap handed (lines_of out) ∧
  lt_buf (lineTee_writes subagentMaxOutput new_tee ps).1 = first_bytes (Z.to_nat subagentMaxOutput) out ∧
  @subagent_output talk SubagentClientOMP ps ended = @subagent_output talk SubagentClientOMP [out] ended ∧
  @subagent_output talk SubagentClientOMP ps ended = ("completed",
    let final := @final_message talk SubagentClientOMP out in
    if decide (final = "") then out else final +:+ tail_header +:+ truncateTail out 1200).
Proof.
  intros ps out. destruct (@output_of_writes talk SubagentClientOMP ps ended) as (H1 & H2 & H3 & H4).
  split; [exact H1|]. split; [exact H2|]. split; [exact H3|]. apply H4; [|reflexivity..].
  apply Z.leb_le. vm_compute. reflexivity.
Defined.
