(* ===== verification/Patch.v ===== *)
(** * Patches and checkpoints (agentops/write.go)

    [applyPatch] validates every edit, takes a checkpoint, and writes file by
    file; [rollbackPatch] restores a checkpoint. The file tree, the blob store
    and the checkpoint file are the state; the blob store and the checkpoint
    file lie in a directory of their own, outside every workspace. What the
    operating system may refuse is the environment of each call: it is asked at
    every step that touches a disk. *)

From stdpp Require Import pretty.
From S2P Require Import Prelude GoStrings Json GoPath Paths FileOps.
Open Scope Z_scope.

(** ** The diff a preview shows ([writeEditDiff])

    The diff of one planned edit, as text. Lines and counts are those of the
    code: the changed region is what is left between the common first and last
    lines. *)

Definition newline : Ascii.ascii := Ascii.ascii_of_N 10.
Definition nl : string := String newline "".

Definition diffContextLines : nat := 3.

Definition splitLines (content : string) : list string :=
  if decide (content = "") then [] else Split newline (TrimSuffix content nl).

(** The two loops of [locateChangedLines]. *)
Fixpoint common_prefix (l k : list string) : nat :=
  match l, k with
  | x :: l, y :: k => if decide (x = y) then S (common_prefix l k) else 0
  | _, _ => 0
  end.

Definition common_suffix (prefix : nat) (oldLines newLines : list string) : nat :=
  common_prefix (reverse (drop prefix oldLines)) (reverse (drop prefix newLines)).

Definition locateChangedLines (oldLines newLines : list string) : nat * nat * nat :=
  let prefix := common_prefix oldLines newLines in
  let suffix := common_suffix prefix oldLines newLines in
  (prefix, length oldLines - prefix - suffix, length newLines - prefix - suffix)%nat.

Definition removed2lines (lines : list string) (start count : nat) : list string :=
  if decide (count = 0 ∨ length lines < start + count)%nat then [] else take count (drop start lines).

Definition number (n : nat) : string := pretty (Z.of_nat n).

Definition hunk_header (oldStart oldCount newStart newCount : nat) : string :=
  "@@ -" +:+ number oldStart +:+ "," +:+ number oldCount +:+ " +" +:+ number newStart +:+ "," +:+
  number newCount +:+ " @@" +:+ nl.

Definition marked (mark : string) (lines : list string) : string :=
  String.concat "" ((λ line, mark +:+ line +:+ nl) <$> lines).

Definition writeHunk (oldStart oldCount newStart newCount : nat) (removed added : list string) : string :=
  hunk_header oldStart oldCount newStart newCount +:+ marked "-" removed +:+ marked "+" added.

Definition writeHunkRaw (oldStart oldCount newStart newCount : nat)
    (contextBefore contextAfter removed added : list string) : string :=
  hunk_header oldStart oldCount newStart newCount +:+ marked " " contextBefore +:+
  marked "-" removed +:+ marked "+" added +:+ marked " " contextAfter.

(** The parts of the hunk of a replacement. *)
Record hunk : Type := {
  h_from : nat; h_to : nat;
  h_before : list string; h_removed : list string; h_added : list string; h_after : list string
}.

Definition replace_hunk (oldLines newLines : list string) : hunk :=
  let '(start, removed, added) := locateChangedLines oldLines newLines in
  let from := (start - diffContextLines)%nat in
  let to := Nat.min (start + removed + diffContextLines) (length oldLines) in
  {| h_from := from; h_to := to;
     h_before := take (start - from) (drop from oldLines);
     h_removed := removed2lines oldLines start removed;
     h_added := take added (drop start newLines);
     h_after := take (to - (start + removed)) (drop (start + removed) oldLines) |}.

Inductive edit_action : Type := Create | Delete | Replace.
#[export] Instance edit_action_eq_dec : EqDecision edit_action.
Proof. solve_decision. Defined.

Definition writeEditDiff (rel : string) (action : edit_action) (oldContent newContent : string) : string :=
  let oldLines := splitLines oldContent in
  let newLines := splitLines newContent in
  "diff --git a/" +:+ rel +:+ " b/" +:+ rel +:+ nl +:+
  match action with
  | Create => writeHunk 0 0 1 (length newLines) [] newLines
  | Delete => writeHunk 1 (length oldLines) 0 0 oldLines []
  | Replace =>
      let h := replace_hunk oldLines newLines in
      "--- a/" +:+ rel +:+ nl +:+ "+++ b/" +:+ rel +:+ nl +:+
      writeHunkRaw (h_from h + 1) (h_to h - h_from h) (h_from h + 1) (h_from h + length (h_added h))
        (h_before h) (h_after h) (h_removed h) (h_added h)
  end.

(** ** Patches *)

Definition maxPatchFiles : Z := 20.
Definition maxPatchFileBytes : Z := 512 * 1024.
Definition maxPatchTotalBytes : Z := 2 * 1024 * 1024.
Definition maxCheckpointsKept : nat := 20.

Record FileEdit : Type := { Path : string; OldText : string; NewText : string }.

Record PatchSummary : Type := { ps_Path : string; ps_Action : edit_action }.

Record ApplyPatchResult : Type := {
  Applied : bool; Preview : bool; Diff : string; Files : list PatchSummary; CheckpointID : string }.

Record RollbackResult : Type := {
  RolledBack : bool; rb_CheckpointID : string; RestoredFiles : list string; RemovedFiles : list string }.

Record checkpointFile : Type := {
  cf_Path : string; cf_Blob : string; cf_Absent : bool; cf_Mode : Z; cf_Existed : bool }.

Record checkpoint : Type := {
  cp_ID : string; cp_Workspace : string; cp_CreatedAt : Z; cp_Files : list checkpointFile }.

Record plannedEdit : Type := {
  pe_rel : string; pe_abs : abspath; pe_action : edit_action;
  pe_oldContent : string; pe_newContent : string; pe_mode : Z }.

(** The file [checkpoints.json]: absent, one that does not decode, or its list. *)
Inductive checkpointStore : Type :=
| StoreMissing
| StoreBroken
| Checkpoints (cps : list checkpoint).

Record disk : Type := {
  d_tree : tree;
  d_blobs : gmap string string;
  d_store : checkpointStore
}.
Definition set_tree (t : tree) (d : disk) : disk := {| d_tree := t; d_blobs := d_blobs d; d_store := d_store d |}.
Definition set_blobs (b : gmap string string) (d : disk) : disk :=
  {| d_tree := d_tree d; d_blobs := b; d_store := d_store d |}.
Definition set_store (c : checkpointStore) (d : disk) : disk :=
  {| d_tree := d_tree d; d_blobs := d_blobs d; d_store := c |}.

(** What may fail, and what the code draws, during a call. *)
Record write_env : Type := {
  w_read : abspath → option io_err;       (* reading a file *)
  w_mkdir : abspath → option io_err;      (* making a directory *)
  w_open : abspath → option io_err;       (* opening for writing, or removing *)
  w_short : abspath → option nat;         (* the write fails after so many bytes *)
  w_blob : string → bool;                 (* a blob cannot be stored or read *)
  w_store_read : bool;                    (* the checkpoint file cannot be read *)
  w_store_write : bool;                   (* ... or not be replaced *)
  w_unremovable : string → bool;          (* a blob cannot be pruned *)
  umask : Z;
  w_id : string;                          (* the next checkpoint id *)
  w_now : Z
}.

Inductive patch_err : Type :=
| PNotWritable
| PNoEdits
| PTooManyFiles
| PUnconfirmed
| PPath (e : path_err)
| PPathRequired
| PAbsolute
| PEscapes
| PSensitive (rel : string)
| PDuplicate (rel : string)
| PEmptyEdit (rel : string)
| PFileTooLarge (rel : string)
| PTooLarge
| PBinary (rel : string)
| PExists (rel : string)
| PDeleteMismatch (rel : string)
| POldTextNotFound (rel : string)
| PAmbiguous (rel : string) (count : nat)
| PParent (rel : string)
| PMkdir (e : io_err)
| PBlob (rel : string)
| PStore
| PWriteFailed (rel checkpointID : string)
| PCheckpointNotFound (id : string).

(** ** File-system calls that change the tree *)

Section calls.
Context (lim : limits) (env : write_env).

(** [os.ReadFile]. *)
Definition ReadFile (t : tree) (p : abspath) : result io_err string :=
  match w_read env p with
  | Some e => Err e
  | None => match Stat lim t p with
            | Ok (File c _) => Ok c
            | Ok _ => Err EISDIR
            | Err e => Err e
            end
  end.

(** [os.MkdirAll], and with a jail [Root.MkdirAll], from a directory on. *)
Fixpoint MkdirAll (jail : option abspath) (t : tree) (base : abspath) (names : list string) :
    tree * result io_err () :=
  match names with
  | [] => (t, Ok ())
  | name :: names =>
      match walk jail t true (match jail with Some _ => root_links lim | None => kernel_links lim end) base [name] with
      | Ok (p, Some Dir) => MkdirAll jail t p names
      | Ok (_, Some _) => (t, Err ENOTDIR)
      | Ok (p, None) =>
          if decide (p ≠ base ++ [name]) then (t, Err EEXIST)
          else match w_mkdir env p with
               | Some e => (t, Err e)
               | None => MkdirAll jail (<[p := Dir]> t) p names
               end
      | Err e => (t, Err e)
      end
  end.

Definition has_child (t : tree) (p : abspath) : bool :=
  existsb (λ kv : abspath * node, bool_decide (kv.1 ≠ [] ∧ removelast kv.1 = p)) (map_to_list t).

(** [Root.Remove]: the last name is not followed. *)
Definition root_Remove (r : abspath) (name : string) (t : tree) : tree * result io_err () :=
  match root_walk lim t r false name with
  | Ok (p, Some n) =>
      match w_open env p with
      | Some e => (t, Err e)
      | None => if bool_decide (n = Dir) && has_child t p then (t, Err ENOTEMPTY) else (delete p t, Ok ())
      end
  | Ok (_, None) => (t, Err ENOENT)
  | Err e => (t, Err e)
  end.

(** The content a file opened at [p] with permissions [mode] ends up with. *)
Definition write_at (p : abspath) (mode : Z) (content : string) (t : tree) : tree * result io_err () :=
  match w_short env p with
  | Some n => (<[p := File (first_bytes n content) mode]> t, Err EIO)
  | None => (<[p := File content mode]> t, Ok ())
  end.

Definition created_mode (mode : Z) : Z := Z.ldiff mode (umask env).

(** [OpenFile(name, O_WRONLY|O_CREATE|O_EXCL, mode)] and the write. *)
Definition root_Create (r : abspath) (name : string) (mode : Z) (content : string) (t : tree) :
    tree * result io_err () :=
  match root_walk lim t r false name with
  | Ok (_, Some _) => (t, Err EEXIST)
  | Ok (p, None) => match w_open env p with Some e => (t, Err e) | None => write_at p (created_mode mode) content t end
  | Err e => (t, Err e)
  end.

(** [OpenFile(name, O_WRONLY|O_CREATE|O_TRUNC, mode)] and the write; [Root.WriteFile]. *)
Definition root_WriteFile (r : abspath) (name : string) (mode : Z) (content : string) (t : tree) :
    tree * result io_err () :=
  match root_walk lim t r true name with
  | Ok (p, Some (File _ m)) => match w_open env p with Some e => (t, Err e) | None => write_at p m content t end
  | Ok (_, Some _) => (t, Err EISDIR)
  | Ok (p, None) => match w_open env p with Some e => (t, Err e) | None => write_at p (created_mode mode) content t end
  | Err e => (t, Err e)
  end.
End calls.

(** ** Validation *)

Section patch.
Context (lim : limits) (env : write_env) (s : Service) (sha256hex : string → string).

Definition action_of (edit : FileEdit) : option edit_action :=
  if bool_decide (OldText edit = "") && bool_decide (NewText edit ≠ "") then Some Create
  else if bool_decide (OldText edit ≠ "") && bool_decide (NewText edit = "") then Some Delete
  else if bool_decide (OldText edit = "") && bool_decide (NewText edit = "") then None
  else Some Replace.

Definition perm (n : node) : Z := match n with File _ m => m | Dir => 493 | Link _ => 511 end.

(** [ensureParentDir]. *)
Definition ensureParentDir (rootReal : abspath) (rel : string) (t : tree) : tree * result patch_err () :=
  let parent := logicalPath (Dir_of (default rel (CutPrefix rel "./"))) in
  if bool_decide (parent = ".") || bool_decide (parent = "") then (t, Ok ())
  else
    match ResolveUnderRoot lim t rootReal (parent +:+ "/") with
    | Err _ => (t, Err (PParent rel))
    | Ok _ =>
        if is_ok (Stat lim t (Join_path rootReal parent)) then (t, Ok ())
        else match MkdirAll lim env None t [] (Join_path rootReal parent) with
             | (t, Ok _) => (t, Ok ())
             | (t, Err e) => (t, Err (PMkdir e))
             end
    end.

(** The checks of one edit that look at no file: its path, its action, the
    number of bytes so far. *)
Definition check_edit (edit : FileEdit) (seen : list string) (total : Z) :
    result patch_err (string * edit_action * Z) :=
  let rel := logicalPath (TrimSpace (Path edit)) in
  if bool_decide (rel = "") || bool_decide (rel = ".") then Err PPathRequired
  else if IsAbs (Path edit) then Err PAbsolute
  else if HasPrefix rel "../" then Err PEscapes
  else if isSensitivePath rel then Err (PSensitive rel)
  else if bool_decide (rel ∈ seen) then Err (PDuplicate rel)
  else
    match action_of edit with
    | None => Err (PEmptyEdit rel)
    | Some action =>
        if decide (maxPatchFileBytes < Z.of_nat (String.length (NewText edit))) then Err (PFileTooLarge rel)
        else
          let total := total + Z.of_nat (String.length (NewText edit)) in
          if decide (maxPatchTotalBytes < total) then Err PTooLarge
          else if negb (ValidString (NewText edit)) || bool_decide (0 ∈ codes (NewText edit)) then Err (PBinary rel)
          else Ok (rel, action, total)
    end.

(** The rest of the loop body: what the edit does to the file as it is now. *)
Definition plan_edit (root rootReal : abspath) (edit : FileEdit) (rel : string) (action : edit_action) (t : tree) :
    tree * result patch_err plannedEdit :=
  match ResolveUnderRoot lim t root rel with
  | Err e => (t, Err (PPath e))
  | Ok abs =>
      let stat := Lstat lim t abs in
      let planned old new mode := {| pe_rel := rel; pe_abs := abs; pe_action := action;
                                     pe_oldContent := old; pe_newContent := new; pe_mode := mode |} in
      match action with
      | Create =>
          match stat with
          | Ok _ => (t, Err (PExists rel))
          | Err e =>
              if decide (e ≠ ENOENT) then (t, Err (PPath (safePathError "stat" rel e)))
              else match ensureParentDir rootReal rel t with
                   | (t, Err e) => (t, Err e)
                   | (t, Ok _) => (t, Ok (planned "" (NewText edit) 0))
                   end
          end
      | Delete =>
          match stat with
          | Err e => (t, Err (PPath (safePathError "delete" rel e)))
          | Ok info =>
              match ReadFile lim env t abs with
              | Err e => (t, Err (PPath (safePathError "read" rel e)))
              | Ok current =>
                  if decide (current ≠ OldText edit) then (t, Err (PDeleteMismatch rel))
                  else (t, Ok (planned current "" (perm info)))
              end
          end
      | Replace =>
          match stat with
          | Err e => (t, Err (PPath (safePathError "read" rel e)))
          | Ok info =>
              match ReadFile lim env t abs with
              | Err e => (t, Err (PPath (safePathError "read" rel e)))
              | Ok current =>
                  let count := Count current (OldText edit) in
                  if decide (count = 0)%nat then (t, Err (POldTextNotFound rel))
                  else if decide (1 < count)%nat then (t, Err (PAmbiguous rel count))
                  else (t, Ok (planned current (Replace1 current (OldText edit) (NewText edit)) (perm info)))
              end
          end
      end
  end.

Fixpoint plan_edits (root rootReal : abspath) (edits : list FileEdit) (seen : list string) (total : Z) (t : tree) :
    tree * result patch_err (list plannedEdit) :=
  match edits with
  | [] => (t, Ok [])
  | edit :: edits =>
      match check_edit edit seen total with
      | Err e => (t, Err e)
      | Ok (rel, action, total) =>
          match plan_edit root rootReal edit rel action t with
          | (t, Err e) => (t, Err e)
          | (t, Ok p) =>
              match plan_edits root rootReal edits (rel :: seen) total t with
              | (t, Err e) => (t, Err e)
              | (t, Ok ps) => (t, Ok (p :: ps))
              end
          end
      end
  end.

(** [applyPatch] up to the preview: it runs before the lock is taken. *)
Definition plan (workspace : string) (root : abspath) (edits : list FileEdit) (preview confirm : bool) (t : tree) :
    tree * result patch_err (list plannedEdit) :=
  if negb (default false (Writable s !! workspace)) then (t, Err PNotWritable)
  else if decide (edits = []) then (t, Err PNoEdits)
  else if decide (maxPatchFiles < Z.of_nat (length edits)) then (t, Err PTooManyFiles)
  else if negb preview && negb confirm then (t, Err PUnconfirmed)
  else
    match resolveWorkspaceRoot lim t (AllowSensitiveFiles s) root with
    | Err e => (t, Err (PPath e))
    | Ok rootReal => plan_edits root rootReal edits [] 0 t
    end.

Definition summaries (planned : list plannedEdit) : list PatchSummary :=
  (λ p, {| ps_Path := pe_rel p; ps_Action := pe_action p |}) <$> planned.

Definition preview_diff (planned : list plannedEdit) : string :=
  String.concat "" ((λ p, writeEditDiff (pe_rel p) (pe_action p) (pe_oldContent p) (pe_newContent p)) <$> planned).

(** ** Checkpoints *)

(** [storeBlob]: a blob that exists is not written again. *)
Definition storeBlob (content : string) (d : disk) : disk * option string :=
  let name := sha256hex content in
  match d_blobs d !! name with
  | Some _ => (d, Some name)
  | None => if w_blob env name then (d, None) else (set_blobs (<[name := content]> (d_blobs d)) d, Some name)
  end.

Definition hex_digit (c : Z) : bool := bool_decide (48 ≤ c ≤ 57) || bool_decide (97 ≤ c ≤ 102).
Definition isBlobName (name : string) : bool :=
  bool_decide (String.length name = 64)%nat && forallb hex_digit (codes name).

Definition loadBlob (name : string) (d : disk) : option string :=
  if negb (isBlobName name) then None
  else if w_blob env name then None
  else d_blobs d !! name.

Definition kept_blobs (cps : list checkpoint) : list string :=
  cps ≫= λ cp, filter (λ name, name ≠ "") (cf_Blob <$> cp_Files cp).

Definition pruneBlobs (cps : list checkpoint) (d : disk) : disk :=
  set_blobs (filter (λ kv : string * string, kv.1 ∈ kept_blobs cps ∨ w_unremovable env kv.1 = true) (d_blobs d)) d.

Definition loadCheckpointStore (d : disk) : option (list checkpoint) :=
  if w_store_read env then None
  else match d_store d with
       | StoreMissing => Some []
       | StoreBroken => None
       | Checkpoints cps => Some cps
       end.

Definition retained (cps : list checkpoint) : list checkpoint := drop (length cps - maxCheckpointsKept) cps.

Definition appendCheckpoint (cp : checkpoint) (d : disk) : disk * result patch_err () :=
  match loadCheckpointStore d with
  | None => (d, Err PStore)
  | Some cps =>
      let cps := retained (cps ++ [cp]) in
      let d := pruneBlobs cps d in
      if w_store_write env then (d, Err PStore) else (set_store (Checkpoints cps) d, Ok ())
  end.

(** The entry of one planned edit. *)
Definition snapshot (p : plannedEdit) (d : disk) : disk * result patch_err checkpointFile :=
  match Lstat lim (d_tree d) (pe_abs p) with
  | Ok info =>
      match ReadFile lim env (d_tree d) (pe_abs p) with
      | Err e => (d, Err (PPath (safePathError "checkpoint read" (pe_rel p) e)))
      | Ok content =>
          match storeBlob content d with
          | (d, None) => (d, Err (PBlob (pe_rel p)))
          | (d, Some blob) =>
              (d, Ok {| cf_Path := pe_rel p; cf_Blob := blob; cf_Absent := false; cf_Mode := perm info;
                        cf_Existed := true |})
          end
      end
  | Err e =>
      if decide (e = ENOENT)
      then (d, Ok {| cf_Path := pe_rel p; cf_Blob := ""; cf_Absent := true; cf_Mode := 0; cf_Existed := false |})
      else (d, Err (PPath (safePathError "checkpoint stat" (pe_rel p) e)))
  end.

Fixpoint snapshots (planned : list plannedEdit) (d : disk) : disk * result patch_err (list checkpointFile) :=
  match planned with
  | [] => (d, Ok [])
  | p :: planned =>
      match snapshot p d with
      | (d, Err e) => (d, Err e)
      | (d, Ok f) =>
          match snapshots planned d with
          | (d, Err e) => (d, Err e)
          | (d, Ok fs) => (d, Ok (f :: fs))
          end
      end
  end.

Definition createCheckpoint (workspace : string) (planned : list plannedEdit) (d : disk) :
    disk * result patch_err checkpoint :=
  match snapshots planned d with
  | (d, Err e) => (d, Err e)
  | (d, Ok fs) =>
      let cp := {| cp_ID := w_id env; cp_Workspace := workspace; cp_CreatedAt := w_now env; cp_Files := fs |} in
      match appendCheckpoint cp d with
      | (d, Err e) => (d, Err e)
      | (d, Ok _) => (d, Ok cp)
      end
  end.

(** ** Writing and restoring *)

Definition write_edit (r : abspath) (p : plannedEdit) (t : tree) : tree * result io_err () :=
  match pe_action p with
  | Delete => root_Remove lim env r (pe_rel p) t
  | Create => root_Create lim env r (pe_rel p) 420 (pe_newContent p) t
  | Replace => root_WriteFile lim env r (pe_rel p) (pe_mode p) (pe_newContent p) t
  end.

Definition file_mode (f : checkpointFile) : Z := if decide (cf_Mode f = 0) then 420 else cf_Mode f.

(** One file of a checkpoint; errors are ignored. *)
Definition restore_file (r : abspath) (f : checkpointFile) (d : disk) : disk :=
  if cf_Absent f then set_tree (root_Remove lim env r (cf_Path f) (d_tree d)).1 d
  else
    match loadBlob (cf_Blob f) d with
    | None => d
    | Some content => set_tree (root_WriteFile lim env r (cf_Path f) (file_mode f) content (d_tree d)).1 d
    end.

Definition restorePartial (r : abspath) (applied : list plannedEdit) (cp : checkpoint) (d : disk) : disk :=
  foldl (λ d p, foldl (λ d f, if decide (cf_Path f ≠ pe_rel p) then d else restore_file r f d) d (cp_Files cp))
    d applied.
End patch.

Section apply.
Context (lim : limits) (s : Service) (sha256hex : string → string).

(** The write loop; [undo] is the environment of [restorePartial]. *)
Fixpoint write_edits (env undo : write_env) (r : abspath) (cp : checkpoint) (planned applied : list plannedEdit)
    (d : disk) : disk * result patch_err () :=
  match planned with
  | [] => (d, Ok ())
  | p :: planned =>
      match write_edit lim env r p (d_tree d) with
      | (t, Err _) =>
          (restorePartial lim undo r applied cp (set_tree t d), Err (PWriteFailed (pe_rel p) (cp_ID cp)))
      | (t, Ok _) => write_edits env undo r cp planned (applied ++ [p]) (set_tree t d)
      end
  end.

(** [applyPatch] under its lock. *)
Definition commit (env undo : write_env) (workspace : string) (root : abspath) (planned : list plannedEdit)
    (d : disk) : disk * result patch_err ApplyPatchResult :=
  match createCheckpoint lim env sha256hex workspace planned d with
  | (d, Err e) => (d, Err e)
  | (d, Ok cp) =>
      match openWorkspaceRoot lim (d_tree d) root with
      | Err e => (d, Err (PPath e))
      | Ok r =>
          match write_edits env undo r cp planned [] d with
          | (d, Err e) => (d, Err e)
          | (d, Ok _) =>
              (d, Ok {| Applied := true; Preview := false; Diff := ""; Files := summaries planned;
                        CheckpointID := cp_ID cp |})
          end
      end
  end.

Definition applyPatch (env undo : write_env) (workspace : string) (root : abspath) (edits : list FileEdit)
    (preview confirm : bool) (d : disk) : disk * result patch_err ApplyPatchResult :=
  match plan lim env s workspace root edits preview confirm (d_tree d) with
  | (t, Err e) => (set_tree t d, Err e)
  | (t, Ok planned) =>
      if preview then
        (set_tree t d, Ok {| Applied := false; Preview := true; Diff := preview_diff planned;
                             Files := summaries planned; CheckpointID := "" |})
      else commit env undo workspace root planned (set_tree t d)
  end.

(** The loop of [rollbackPatch]. *)
Fixpoint rollback_files (env : write_env) (r : abspath) (files : list checkpointFile) (res : RollbackResult) (d : disk) :
    disk * result patch_err RollbackResult :=
  match files with
  | [] => (d, Ok {| RolledBack := true; rb_CheckpointID := rb_CheckpointID res;
                    RestoredFiles := RestoredFiles res; RemovedFiles := RemovedFiles res |})
  | f :: files =>
      let removed := {| RolledBack := RolledBack res; rb_CheckpointID := rb_CheckpointID res;
                        RestoredFiles := RestoredFiles res; RemovedFiles := RemovedFiles res ++ [cf_Path f] |} in
      let restored := {| RolledBack := RolledBack res; rb_CheckpointID := rb_CheckpointID res;
                         RestoredFiles := RestoredFiles res ++ [cf_Path f]; RemovedFiles := RemovedFiles res |} in
      if cf_Absent f then
        match root_Remove lim env r (cf_Path f) (d_tree d) with
        | (t, Ok _) | (t, Err ENOENT) => rollback_files env r files removed (set_tree t d)
        | (t, Err e) => (set_tree t d, Err (PPath (safePathError "rollback remove" (cf_Path f) e)))
        end
      else
        match loadBlob env (cf_Blob f) d with
        | None => (d, Err (PBlob (cf_Path f)))
        | Some content =>
            match MkdirAll lim env (Some r) (d_tree d) r (clean_parts false (Dir_of (cf_Path f))) with
            | (t, Err e) => (set_tree t d, Err (PPath (safePathError "rollback mkdir" (cf_Path f) e)))
            | (t, Ok _) =>
                match root_WriteFile lim env r (cf_Path f) (file_mode f) content t with
                | (t, Err e) => (set_tree t d, Err (PPath (safePathError "rollback write" (cf_Path f) e)))
                | (t, Ok _) => rollback_files env r files restored (set_tree t d)
                end
            end
        end
  end.

Definition rollbackPatch (env : write_env) (workspace : string) (root : abspath) (checkpointID : string) (d : disk) :
    disk * result patch_err RollbackResult :=
  if negb (default false (Writable s !! workspace)) then (d, Err PNotWritable)
  else
    match loadCheckpointStore env d with
    | None => (d, Err PStore)
    | Some cps =>
        match find (λ cp, bool_decide (cp_ID cp = checkpointID) && bool_decide (cp_Workspace cp = workspace)) cps with
        | None => (d, Err (PCheckpointNotFound checkpointID))
        | Some cp =>
            match openWorkspaceRoot lim (d_tree d) root with
            | Err e => (d, Err (PPath e))
            | Ok r => rollback_files env r (cp_Files cp)
                        {| RolledBack := false; rb_CheckpointID := checkpointID; RestoredFiles := []; RemovedFiles := [] |} d
            end
        end
    end.
End apply.

(** [parseFileEdits] on the decoded argument. *)
Definition json_arg (fields : list (string * json)) (key : string) : string :=
  match field key fields with Some (JString v) => v | _ => "" end.

Definition parseFileEdits (raw : option json) : list FileEdit :=
  match raw with
  | Some (JArray items) =>
      omap (λ item,
        match item with
        | JObject m =>
            let edit := {| Path := json_arg m "path"; OldText := json_arg m "old_text"; NewText := json_arg m "new_text" |} in
            if decide (Path edit ≠ "") then Some edit else None
        | _ => None
        end) items
  | _ => []
  end.

(** ** The changed region *)

Lemma common_prefix_spec l k : let n := common_prefix l k in
  (n ≤ length l)%nat ∧ (n ≤ length k)%nat ∧ take n l = take n k ∧
  ∀ x y, l !! n = Some x → k !! n = Some y → x ≠ y.
Proof.
  revert k. induction l as [|x l IH]; intros [|y k]; cbn; try (repeat split; (lia || done)).
  case_decide as E; [|cbn; repeat split; try lia; intros ?? [= <-] [= <-]; done].
  subst. destruct (IH k) as (? & ? & ? & ?). cbn. repeat split; [lia|lia|by f_equal|done].
Qed.

Lemma common_suffix_spec n l k : let m := common_suffix n l k in
  (n ≤ length l)%nat → (n ≤ length k)%nat →
  (n + m ≤ length l)%nat ∧ (n + m ≤ length k)%nat ∧ drop (length l - m) l = drop (length k - m) k.
Proof.
  intros m Hl Hk. unfold common_suffix in m.
  destruct (common_prefix_spec (reverse (drop n l)) (reverse (drop n k))) as (H1 & H2 & H3 & _). fold m in H1, H2, H3.
  rewrite !length_reverse, !length_drop in H1, H2. split; [lia|]. split; [lia|].
  rewrite !take_reverse, !length_drop, !drop_drop in H3. apply (f_equal reverse) in H3.
  rewrite !reverse_involutive in H3.
  replace (n + (length l - n - m))%nat with (length l - m)%nat in H3 by lia.
  by replace (n + (length k - n - m))%nat with (length k - m)%nat in H3 by lia.
Qed.

Lemma take_drop_split {A} i j (l : list A) : (i ≤ j)%nat → (j ≤ length l)%nat →
  l = take i l ++ take (j - i) (drop i l) ++ drop j l.
Proof.
  intros Hi Hj. rewrite <-(take_drop i l) at 1. f_equal. rewrite <-(take_drop (j - i) (drop i l)) at 1.
  f_equal. rewrite drop_drop. f_equal. lia.
Qed.

Lemma slice_split {A} i j k (l : list A) : (i ≤ j)%nat → (j ≤ k)%nat →
  take (k - i) (drop i l) = take (j - i) (drop i l) ++ take (k - j) (drop j l).
Proof.
  intros Hi Hj. replace (k - i)%nat with ((j - i) + (k - j))%nat by lia.
  rewrite <-take_take_drop, drop_drop. do 3 f_equal. lia.
Qed.

Lemma removed2lines_slice lines start count : (start + count ≤ length lines)%nat →
  removed2lines lines start count = take count (drop start lines).
Proof. intros H. unfold removed2lines. case_decide as E; [|done]. destruct E as [->|]; [done|lia]. Qed.

(** The diff of a replacement is exact: its context and removed lines are a
    stretch of the old file, putting context and added lines in their place
    gives the new file, the changed region is as small as whole lines allow at
    its front, and there are at most three lines of context on either side. *)
Theorem replace_hunk_correct oldLines newLines :
  let h := replace_hunk oldLines newLines in
  (h_from h ≤ h_to h ≤ length oldLines)%nat ∧
  take (h_to h - h_from h) (drop (h_from h) oldLines) = h_before h ++ h_removed h ++ h_after h ∧
  newLines = take (h_from h) oldLines ++ (h_before h ++ h_added h ++ h_after h) ++ drop (h_to h) oldLines ∧
  (∀ x y, head (h_removed h) = Some x → head (h_added h) = Some y → x ≠ y) ∧
  (length (h_before h) ≤ diffContextLines)%nat ∧ (length (h_after h) ≤ diffContextLines)%nat.
Proof.
  intros h. unfold replace_hunk, locateChangedLines in h.
  destruct (common_prefix_spec oldLines newLines) as (Hp1 & Hp2 & Hp3 & Hp4).
  set (p := common_prefix oldLines newLines) in *.
  destruct (common_suffix_spec p oldLines newLines Hp1 Hp2) as (Hs1 & Hs2 & Hs3).
  set (m := common_suffix p oldLines newLines) in *.
  set (n := length oldLines) in *. set (k := length newLines) in *.
  set (from := (p - diffContextLines)%nat). set (r := (p + (n - p - m))%nat).
  set (to := Nat.min (r + diffContextLines) n).
  subst h. cbn [h_from h_to h_before h_removed h_added h_after]. fold from r to.
  assert (r = n - m)%nat as Hr by (subst r; lia).
  assert (from ≤ p ∧ p ≤ r ∧ r ≤ to ∧ to ≤ n)%nat as (?&?&?&?) by (subst from to; lia).
  rewrite removed2lines_slice by (fold n; lia).
  split; [lia|]. split; [|split; [|split; [|split]]].
  - rewrite (slice_split from p to), (slice_split p r to) by lia. subst r. do 3 f_equal. lia.
  - rewrite (take_drop_split p (k - m) newLines) at 1 by (fold k; lia). rewrite <-Hp3, <-Hs3, <-Hr.
    replace (take p oldLines) with (take from oldLines ++ take (p - from) (drop from oldLines))
      by (rewrite take_take_drop; f_equal; lia).
    rewrite <-!(assoc_L app).
    f_equal. f_equal. replace (k - m - p)%nat with (k - p - m)%nat by lia. f_equal.
    rewrite <-(take_drop (to - r) (drop r oldLines)) at 1. f_equal. rewrite drop_drop. f_equal. lia.
  - intros x y Hx Hy. assert (∀ i (l : list string) z, head (take i (drop p l)) = Some z → l !! p = Some z) as Hh.
    { intros i l z Hz. rewrite <-(Nat.add_0_r p), <-lookup_drop.
      destruct i, (drop p l); try done. }
    apply Hh in Hx, Hy. by eapply Hp4.
  - rewrite length_take. subst from. lia.
  - rewrite length_take. subst to. lia.
Qed.

(** The header of a hunk counts its new lines as if the hunk began at the first
    line of the file and had no context: here it announces 9 for the 8 below. *)
Example hunk_header_counts :
  let old := number <$> seq 0 20 in
  let new := take 10 old ++ ["x"; "y"] ++ drop 11 old in
  let h := replace_hunk old new in
  length (h_before h ++ h_added h ++ h_after h) = 8%nat ∧ (h_from h + length (h_added h) = 9)%nat.
Proof. by vm_compute. Qed.
