(* ===== verification/PatchInv.v ===== *)
(** * Lemmas on patches

    How the calls of [Patch] change the tree: where ([outside], [grows]), along
    paths without links, and in which states a checkpoint and its restoration
    leave the edited files. *)

From S2P Require Import Prelude GoStrings Json GoPath Paths FileOps FileSpec Patch.
Open Scope Z_scope.

(** ** Where the tree changes *)

(** Directories are added where nothing was. *)
Definition grows (t t' : tree) : Prop :=
  ∀ p, t' !! p = t !! p ∨ t !! p = None ∧ t' !! p = Some Dir.

(** ... and elsewhere nothing changes outside [r]. *)
Definition outside (r : abspath) (t t' : tree) : Prop :=
  ∀ p, ¬ r `prefix_of` p → t' !! p = t !! p ∨ t !! p = None ∧ t' !! p = Some Dir.

#[export] Instance grows_preorder : PreOrder grows.
Proof.
  split; [by intros t p; left|]. intros t t' t'' H1 H2 p.
  destruct (H1 p) as [E1|[E1 E1']], (H2 p) as [E2|[E2 E2']]; rewrite ?E1, ?E1' in *; naive_solver.
Qed.

#[export] Instance outside_preorder r : PreOrder (outside r).
Proof.
  split; [by intros t p; left|]. intros t t' t'' H1 H2 p Hp.
  destruct (H1 p Hp) as [E1|[E1 E1']], (H2 p Hp) as [E2|[E2 E2']]; rewrite ?E1, ?E1' in *; naive_solver.
Qed.

Lemma grows_outside r t t' : grows t t' → outside r t t'.
Proof. intros H p _. apply H. Qed.

Lemma grows_insert t p : t !! p = None → grows t (<[p := Dir]> t).
Proof.
  intros H q. destruct (decide (q = p)) as [->|]; [right; by rewrite lookup_insert_eq|].
  rewrite lookup_insert_ne by done. by left.
Qed.

Lemma outside_insert r t p n : r `prefix_of` p → outside r t (<[p := n]> t).
Proof. intros H q Hq. left. apply lookup_insert_ne. by intros ->. Qed.

Lemma outside_delete r t p : r `prefix_of` p → outside r t (delete p t).
Proof. intros H q Hq. left. apply lookup_delete_ne. by intros ->. Qed.

Lemma walk_node jail t follow links base todo x :
  walk jail t follow links base todo = Ok x → x.2 = node_at t x.1.
Proof.
  apply (walk_rect jail t follow (λ _ _ _ x, x.2 = node_at t x.1)); clear; try done.
  - intros _ base part o _ Ho _. cbn. by rewrite node_at_snoc.
  - by intros _ base part rest target x _ _ _ [(_ & _ & ?)|[_ ?]].
Qed.

(** What was found stays where it was when directories are added. *)
Lemma walk_grows jail t t' follow links base todo x : grows t t' →
  walk jail t follow links base todo = Ok x → is_Some x.2 → walk jail t' follow links base todo = Ok x.
Proof.
  intros Hg. assert (∀ p n, t !! p = Some n → t' !! p = Some n) as Hs.
  { intros p n Hp. destruct (Hg p) as [->|[? _]]; congruence. }
  apply (walk_rect jail t follow (λ links base todo x, is_Some x.2 →
    walk jail t' follow links base todo = Ok x)); clear x base todo links.
  - intros links base [n Hn]. cbn in Hn. rewrite walk_nil. do 2 f_equal.
    destruct base; [done|]. cbn in Hn |- *. rewrite Hn. by apply Hs.
  - intros links base part rest x Hp IH Hx. rewrite walk_cons.
    destruct Hp as [-> | ->]; cbn [bool_decide orb]; by apply IH.
  - intros links base rest x Hj IH Hx. rewrite walk_cons. cbn.
    rewrite (bool_decide_eq_false_2 (jail = Some base)) by done. by apply IH.
  - intros links base part o (?&?&?) Ho Hc [n Hn]. cbn in Hn. subst o.
    rewrite walk_cons, !bool_decide_eq_false_2, decide_False by done.
    cbn. rewrite (Hs _ _ Hn). rewrite Hn in Hc |- *. destruct n; try done. by rewrite Hc.
  - intros links base part rest x (?&?&?) Hn IH Hx.
    rewrite walk_cons, !bool_decide_eq_false_2, decide_False by done. cbn. rewrite (Hs _ _ Hn). by apply IH.
  - intros links base part rest target x (?&?&?) Hn Hr IH Hx.
    rewrite walk_cons, (bool_decide_eq_false_2 (part = "")), (bool_decide_eq_false_2 (part = ".")), decide_False by done.
    cbn. rewrite (Hs _ _ Hn). destruct (bool_decide (rest = []) && negb follow) eqn:E.
    + apply andb_true_iff in E as [E1%bool_decide_eq_true ->%negb_true_iff]. by destruct Hr.
    + destruct IH as [(-> & -> & IH)|(-> & IH)]; by apply IH.
Qed.

Lemma EvalSymlinks_grows lim t t' p q : grows t t' → EvalSymlinks lim t p = Ok q → EvalSymlinks lim t' p = Ok q.
Proof.
  unfold EvalSymlinks. intros Hg H. destruct (walk None t _ _ _ _) as [[x [n|]]|] eqn:E; [|done..].
  by rewrite (walk_grows _ _ _ _ _ _ _ _ Hg E ltac:(by eexists)).
Qed.

Section where_.
Context (lim : limits) (env : write_env).

Lemma MkdirAll_grows jail t base names : grows t (MkdirAll lim env jail t base names).1.
Proof.
  revert t base. induction names as [|name names IH]; intros t base; cbn; [done|].
  set (l := match jail with Some _ => _ | None => _ end).
  destruct (walk jail t true l base [name]) as [[p [[| |]|]]|] eqn:E; try done.
  destruct (decide _) as [|Hp]; [done|]. destruct (w_mkdir env p); [done|].
  etrans; [|apply IH]. apply grows_insert. apply walk_node in E. cbn in E.
  apply dec_stable in Hp. subst p. by rewrite node_at_snoc in E.
Qed.

Lemma ensureParentDir_grows rootReal rel t : grows t (ensureParentDir lim env rootReal rel t).1.
Proof.
  unfold ensureParentDir. destruct (_ || _); [done|]. destruct (ResolveUnderRoot _ _ _ _); [|done].
  destruct (is_ok _); [done|]. pose proof (MkdirAll_grows None t [] (Join_path rootReal
    (logicalPath (Dir_of (default rel (CutPrefix rel "./")))))) as H.
  by destruct (MkdirAll _ _ _ _ _ _) as [t' []].
Qed.

Lemma plan_edit_grows root rootReal edit rel action t :
  grows t (plan_edit lim env root rootReal edit rel action t).1.
Proof.
  unfold plan_edit. destruct (ResolveUnderRoot _ _ _ _); [|done].
  destruct action, (Lstat lim t a); try done.
  - case_decide; [done|]. pose proof (ensureParentDir_grows rootReal rel t).
    by destruct (ensureParentDir _ _ _ _ _) as [? []].
  - destruct (ReadFile _ _ _ _); [|done]. by case_decide.
  - destruct (ReadFile _ _ _ _); [|done]. by repeat case_decide.
Qed.

Lemma plan_edits_grows root rootReal edits seen total t :
  grows t (plan_edits lim env root rootReal edits seen total t).1.
Proof.
  revert seen total t. induction edits as [|e edits IH]; intros seen total t; cbn; [done|].
  destruct (check_edit e seen total) as [[[rel action] total']|]; [|done].
  pose proof (plan_edit_grows root rootReal e rel action t) as H1.
  destruct (plan_edit _ _ _ _ _ _ _ _) as [t1 [p|]]; [|done].
  pose proof (IH (rel :: seen) total' t1) as H2.
  destruct (plan_edits _ _ _ _ _ _ _ _) as [t2 []]; cbn in *; by etrans.
Qed.

Lemma plan_grows s workspace root edits preview confirm t :
  grows t (plan lim env s workspace root edits preview confirm t).1.
Proof.
  unfold plan. destruct (negb _); [done|]. case_decide; [done|]. case_decide; [done|].
  destruct (_ && _); [done|]. destruct (resolveWorkspaceRoot _ _ _ _); [|done]. apply plan_edits_grows.
Qed.

Lemma write_at_outside r p mode content t : r `prefix_of` p → outside r t (write_at env p mode content t).1.
Proof. intros H. unfold write_at. destruct (w_short env p); by apply outside_insert. Qed.

Lemma root_walk_inside r follow name t p o : root_walk lim t r follow name = Ok (p, o) → r `prefix_of` p.
Proof.
  unfold root_walk. destruct (IsAbs name); [done|]. intros H. by apply (walk_inside _ _ _ _ _ _ _ H).
Qed.

Lemma root_Remove_outside r name t : outside r t (root_Remove lim env r name t).1.
Proof.
  unfold root_Remove. destruct (root_walk _ _ _ _ _) as [[p [n|]]|] eqn:E; try done.
  destruct (w_open env p); [done|]. destruct (_ && _); [done|]. apply outside_delete. by eapply root_walk_inside.
Qed.

Lemma root_Create_outside r name mode content t : outside r t (root_Create lim env r name mode content t).1.
Proof.
  unfold root_Create. destruct (root_walk _ _ _ _ _) as [[p [n|]]|] eqn:E; try done.
  destruct (w_open env p); [done|]. apply write_at_outside. by eapply root_walk_inside.
Qed.

Lemma root_WriteFile_outside r name mode content t : outside r t (root_WriteFile lim env r name mode content t).1.
Proof.
  unfold root_WriteFile. destruct (root_walk _ _ _ _ _) as [[p [[| |]|]]|] eqn:E; try done;
    (destruct (w_open env p); [done|]; apply write_at_outside; by eapply root_walk_inside).
Qed.

Lemma write_edit_outside r p t : outside r t (write_edit lim env r p t).1.
Proof.
  unfold write_edit. destruct (pe_action p);
    [apply root_Create_outside|apply root_Remove_outside|apply root_WriteFile_outside].
Qed.

Lemma restore_file_outside r f d : outside r (d_tree d) (d_tree (restore_file lim env r f d)).
Proof.
  unfold restore_file. destruct (cf_Absent f); [apply root_Remove_outside|].
  destruct (loadBlob _ _ _); [apply root_WriteFile_outside|done].
Qed.

Lemma restorePartial_outside r applied cp d : outside r (d_tree d) (d_tree (restorePartial lim env r applied cp d)).
Proof.
  unfold restorePartial. revert d. induction applied as [|p applied IH]; intros d; cbn; [done|].
  etrans; [|apply IH]. generalize (cp_Files cp) as fs. intros fs. revert d.
  induction fs as [|f fs IHf]; intros d; cbn; [done|]. etrans; [|apply IHf].
  case_decide; [done|]. apply restore_file_outside.
Qed.

Lemma rollback_files_outside r files res d : outside r (d_tree d) (d_tree (rollback_files lim env r files res d).1).
Proof.
  revert res d. induction files as [|f files IH]; intros res d; cbn [rollback_files]; [done|].
  destruct (cf_Absent f).
  - pose proof (root_Remove_outside r (cf_Path f) (d_tree d)) as H.
    destruct (root_Remove _ _ _ _ _) as [t [|[]]]; cbn in *; try done; (etrans; [exact H|apply IH]).
  - destruct (loadBlob _ _ _); [|done].
    pose proof (MkdirAll_grows (Some r) (d_tree d) r (clean_parts false (Dir_of (cf_Path f)))) as H1.
    destruct (MkdirAll _ _ _ _ _ _) as [t1 [|]]; cbn in *; [|by apply grows_outside].
    pose proof (root_WriteFile_outside r (cf_Path f) (file_mode f) s t1) as H2.
    destruct (root_WriteFile _ _ _ _ _ _ _) as [t2 [|]]; cbn in *.
    + etrans; [by apply grows_outside|]. etrans; [exact H2|apply IH].
    + etrans; [by apply grows_outside|exact H2].
Qed.
End where_.

(** ** The checkpoint changes no file *)

Section checkpoint_tree.
Context (lim : limits) (env : write_env) (sha256hex : string → string).

Lemma snapshots_tree planned d : d_tree (snapshots lim env sha256hex planned d).1 = d_tree d.
Proof.
  revert d. induction planned as [|p planned IH]; intros d; [done|]. cbn [snapshots].
  assert (d_tree (snapshot lim env sha256hex p d).1 = d_tree d) as H.
  { unfold snapshot, storeBlob. destruct (Lstat _ _ _); [|by case_decide].
    destruct (ReadFile _ _ _ _); [|done]. destruct (d_blobs d !! _); [done|]. by destruct (w_blob _ _). }
  destruct (snapshot _ _ _ _ _) as [d1 [f|]]; [|done].
  pose proof (IH d1) as H2. destruct (snapshots _ _ _ _ _) as [d2 []]; cbn in *; congruence.
Qed.

Lemma createCheckpoint_tree workspace planned d :
  d_tree (createCheckpoint lim env sha256hex workspace planned d).1 = d_tree d.
Proof.
  unfold createCheckpoint. pose proof (snapshots_tree planned d) as H.
  destruct (snapshots _ _ _ _ _) as [d1 [fs|]]; [|done]. unfold appendCheckpoint.
  destruct (loadCheckpointStore _ _); [|done]. by destruct (w_store_write env).
Qed.
End checkpoint_tree.

Section contained.
Context (lim : limits) (s : Service) (sha256hex : string → string).

Lemma write_edits_outside env undo r cp planned applied d :
  outside r (d_tree d) (d_tree (write_edits lim env undo r cp planned applied d).1).
Proof.
  revert applied d. induction planned as [|p planned IH]; intros applied d; cbn; [done|].
  pose proof (write_edit_outside lim env r p (d_tree d)) as H.
  destruct (write_edit _ _ _ _ _) as [t [|]]; cbn in *; (etrans; [exact H|]).
  - apply (IH _ (set_tree t d)).
  - apply (restorePartial_outside _ _ _ _ _ (set_tree t d)).
Qed.

Lemma openWorkspaceRoot_grows t t' root r r' : (kernel_links lim ≤ eval_links lim)%nat → Forall plain root →
  grows t t' → EvalSymlinks lim t root = Ok r → openWorkspaceRoot lim t' root = Ok r' → r' = r.
Proof.
  intros Hl Hp Hg He Ho. apply openWorkspaceRoot_ok in Ho as [He' _]; [|done|done].
  eapply EvalSymlinks_grows in He; [|exact Hg]. congruence.
Qed.

Lemma commit_outside env undo workspace root planned d r : (kernel_links lim ≤ eval_links lim)%nat →
  Forall plain root → EvalSymlinks lim (d_tree d) root = Ok r →
  outside r (d_tree d) (d_tree (commit lim sha256hex env undo workspace root planned d).1).
Proof.
  intros Hl Hp He. unfold commit. pose proof (createCheckpoint_tree lim env sha256hex workspace planned d) as Ht.
  destruct (createCheckpoint _ _ _ _ _ _) as [d1 [cp|]]; cbn [fst] in Ht |- *; [|by rewrite Ht].
  rewrite <-Ht in *. destruct (openWorkspaceRoot _ _ _) as [r'|] eqn:Eo; [|done].
  pose proof (openWorkspaceRoot_grows _ _ _ _ _ Hl Hp (reflexivity _) He Eo) as ->.
  pose proof (write_edits_outside env undo r cp planned [] d1) as H.
  by destruct (write_edits _ _ _ _ _ _ _ _) as [d2 []].
Qed.

(** ** What validation lets through *)

Lemma check_edit_ok edit seen total rel action total' : check_edit edit seen total = Ok (rel, action, total') →
  rel = logicalPath (TrimSpace (Path edit)) ∧ isSensitivePath rel = false ∧ (rel ∉ seen) ∧ action_of edit = Some action ∧
  rel ≠ "." ∧ total' = total + Z.of_nat (String.length (NewText edit)) ∧ total' ≤ maxPatchTotalBytes ∧
  Z.of_nat (String.length (NewText edit)) ≤ maxPatchFileBytes ∧ rel ≠ "".
Proof.
  unfold check_edit. intros H. destruct (_ || _) eqn:E1; [done|]. destruct (IsAbs _); [done|].
  destruct (HasPrefix _ _); [done|]. destruct (isSensitivePath _) eqn:E2; [done|].
  case_bool_decide; [done|]. destruct (action_of edit) as [a|]; [|done].
  case_decide; [done|]. case_decide; [done|]. destruct (negb _ || _); [done|]. injection H as <- <- <-.
  apply orb_false_iff in E1 as [E0%bool_decide_eq_false E1%bool_decide_eq_false]. repeat (split; [done|]).
  split; [lia|]. split; [lia|done].
Qed.

Lemma plan_edit_rel env root rootReal edit rel action t t' p :
  plan_edit lim env root rootReal edit rel action t = (t', Ok p) →
  pe_rel p = rel ∧ pe_action p = action ∧ ResolveUnderRoot lim t root rel = Ok (pe_abs p) ∧
  (action = Create → pe_newContent p = NewText edit).
Proof.
  unfold plan_edit. intros H. destruct (ResolveUnderRoot _ _ _ _) as [a|]; [|done].
  destruct action, (Lstat lim t a); try done.
  - case_decide; [done|]. destruct (ensureParentDir _ _ _ _ _) as [? []]; [|done]. by injection H as <- <-.
  - destruct (ReadFile _ _ _ _); [|done]. case_decide; [done|]. by injection H as <- <-.
  - destruct (ReadFile _ _ _ _); [|done]. do 2 (case_decide; [done|]). by injection H as <- <-.
Qed.

Lemma plan_edits_paths env root rootReal edits seen total t t' ps :
  plan_edits lim env root rootReal edits seen total t = (t', Ok ps) →
  pe_rel <$> ps = (λ e, logicalPath (TrimSpace (Path e))) <$> edits ∧
  NoDup (pe_rel <$> ps) ∧ (∀ p, p ∈ ps → (pe_rel p ∉ seen) ∧ isSensitivePath (pe_rel p) = false ∧ pe_rel p ≠ ".").
Proof.
  revert seen total t t' ps. induction edits as [|e edits IH]; intros seen total t t' ps H; cbn in H.
  { injection H as <- <-. split; [done|]. split; [constructor|]. by intros p Hp%elem_of_nil. }
  destruct (check_edit e seen total) as [[[rel action] total']|] eqn:Ec; [|done].
  destruct (plan_edit _ _ _ _ _ _ _ _) as [t1 [p|]] eqn:Ep; [|done].
  destruct (plan_edits _ _ _ _ _ _ _ _) as [t2 [qs|]] eqn:Eq; [|done]. injection H as <- <-.
  apply check_edit_ok in Ec as (Hrel & Hs & Hn & _ & Hd & _). apply plan_edit_rel in Ep as (Hr & _).
  destruct (IH _ _ _ _ _ Eq) as (H1 & H2 & H3). cbn. rewrite Hr, H1, <-Hrel. split; [done|]. split.
  - constructor; [|by rewrite <-H1]. rewrite <-H1. intros (q & -> & Hq)%list_elem_of_fmap.
    apply H3 in Hq as [Hq _]. apply Hq. by left.
  - intros q [->|Hq]%elem_of_cons; [by rewrite Hr|]. destruct (H3 q Hq) as (Hq' & ? & ?).
    split; [|done]. intros ?. apply Hq'. by right.
Qed.
Lemma plan_inv env workspace root edits preview confirm t t' ps :
  plan lim env s workspace root edits preview confirm t = (t', Ok ps) →
  default false (Writable s !! workspace) = true ∧ (preview = true ∨ confirm = true) ∧
  ∃ rootReal, plan_edits lim env root rootReal edits [] 0 t = (t', Ok ps).
Proof.
  unfold plan. destruct (default _ _); cbn; [|done]. case_decide; [done|]. case_decide; [done|].
  destruct preview, confirm; cbn; try done; (destruct (resolveWorkspaceRoot _ _ _ _) as [rr|]; [|done]);
    intros Hps; (split; [done|]); (split; [auto|]); by exists rr.
Qed.

(** A whole patch and a whole rollback. *)
Lemma applyPatch_outside env undo workspace root edits preview confirm d r : limits_ok lim → Forall plain root →
  EvalSymlinks lim (d_tree d) root = Ok r →
  outside r (d_tree d) (d_tree (applyPatch lim s sha256hex env undo workspace root edits preview confirm d).1).
Proof.
  intros [_ Hl] Hp He. unfold applyPatch.
  pose proof (plan_grows lim env s workspace root edits preview confirm (d_tree d)) as Hg.
  destruct (plan _ _ _ _ _ _ _ _ _) as [t0 [ps|e]]; cbn [fst] in Hg; [|by apply grows_outside].
  destruct preview; [by apply grows_outside|]. etrans; [by apply grows_outside|].
  apply (commit_outside env undo workspace root ps (set_tree t0 d) r Hl Hp).
  by eapply EvalSymlinks_grows.
Qed.

Lemma rollbackPatch_outside env workspace root id d r : limits_ok lim → Forall plain root →
  EvalSymlinks lim (d_tree d) root = Ok r →
  outside r (d_tree d) (d_tree (rollbackPatch lim s env workspace root id d).1).
Proof.
  intros [_ Hl] Hp He. unfold rollbackPatch. destruct (negb _); [done|]. destruct (loadCheckpointStore _ _); [|done].
  destruct (find _ _); [|done]. destruct (openWorkspaceRoot _ _ _) as [r'|] eqn:Eo; [|done].
  apply (openWorkspaceRoot_grows _ _ _ r _ Hl Hp (reflexivity (d_tree d)) He) in Eo as ->.
  apply rollback_files_outside.
Qed.
End contained.

(** ** Errors before the first write *)

Definition write_failed (e : patch_err) : bool := match e with PWriteFailed _ _ => true | _ => false end.

Section errors.
Context (lim : limits) (env : write_env) (s : Service) (sha256hex : string → string).

Lemma check_edit_err edit seen total e : check_edit edit seen total = Err e → write_failed e = false.
Proof.
  unfold check_edit. intros H.
  repeat match type of H with
  | (if ?b then _ else _) = _ => destruct b
  | (match ?o with _ => _ end) = _ => destruct o
  end; first [discriminate H|by injection H as <-].
Qed.

Lemma ensureParentDir_err rootReal rel t t' e :
  ensureParentDir lim env rootReal rel t = (t', Err e) → write_failed e = false.
Proof.
  unfold ensureParentDir. intros H. destruct (_ || _); [done|].
  destruct (ResolveUnderRoot _ _ _ _); [|by injection H as _ <-]. destruct (is_ok _); [done|].
  destruct (MkdirAll _ _ _ _ _ _) as [? []]; [done|by injection H as _ <-].
Qed.

Lemma plan_edit_err root rootReal edit rel action t t' e :
  plan_edit lim env root rootReal edit rel action t = (t', Err e) → write_failed e = false.
Proof.
  unfold plan_edit. intros H. destruct (ResolveUnderRoot _ _ _ _) as [a|]; [|by injection H as _ <-].
  destruct action, (Lstat lim t a); try by injection H as _ <-.
  - case_decide; [by injection H as _ <-|]. destruct (ensureParentDir _ _ _ _ _) as [? [|]] eqn:E; [done|].
    injection H as _ <-. by apply ensureParentDir_err in E.
  - destruct (ReadFile _ _ _ _); [|by injection H as _ <-]. by case_decide; [injection H as _ <-|].
  - destruct (ReadFile _ _ _ _); [|by injection H as _ <-]. by repeat (case_decide; [by injection H as _ <-|]).
Qed.

Lemma plan_err workspace root edits preview confirm t t' e :
  plan lim env s workspace root edits preview confirm t = (t', Err e) → write_failed e = false.
Proof.
  unfold plan. intros H. destruct (negb (default _ _)); [by injection H as _ <-|].
  do 2 (case_decide; [by injection H as _ <-|]). destruct (negb preview && _); [by injection H as _ <-|].
  destruct (resolveWorkspaceRoot _ _ _ _) as [rr|]; [|by injection H as _ <-].
  clear -H. revert H. generalize ([] : list string) as seen, 0 as total. revert t.
  induction edits as [|x edits IH]; intros t seen total H; cbn in H; [done|].
  destruct (check_edit x seen total) as [[[rel action] total']|] eqn:Ec;
    [|injection H as _ <-; by apply check_edit_err in Ec].
  destruct (plan_edit _ _ _ _ _ _ _ _) as [t1 [p|]] eqn:Ep; [|injection H as -> ->; by eapply plan_edit_err].
  destruct (plan_edits _ _ _ _ _ _ _ _) as [t2 [qs|]] eqn:Eq; [done|]. injection H as -> ->. by eapply IH.
Qed.

Lemma createCheckpoint_err workspace planned d d' e :
  createCheckpoint lim env sha256hex workspace planned d = (d', Err e) → write_failed e = false.
Proof.
  unfold createCheckpoint. intros H. destruct (snapshots _ _ _ _ _) as [d1 [fs|]] eqn:E.
  - unfold appendCheckpoint in H. destruct (loadCheckpointStore _ _); [|by injection H as _ <-].
    destruct (w_store_write env); [by injection H as _ <-|done].
  - injection H as -> ->. revert d E. induction planned as [|p planned IH]; intros d E; cbn in E; [done|].
    destruct (snapshot _ _ _ _ _) as [d2 [f|]] eqn:E1.
    + destruct (snapshots _ _ _ _ _) as [d3 [fs|]] eqn:E2; [done|]. injection E as -> ->. by eapply IH.
    + injection E as -> ->. unfold snapshot in E1. destruct (Lstat _ _ _).
      * destruct (ReadFile _ _ _ _); [|by injection E1 as _ <-].
        destruct (storeBlob _ _ _ _) as [? []]; [done|by injection E1 as _ <-].
      * case_decide; [done|by injection E1 as _ <-].
Qed.
End errors.
