(* ===== verification/PatchState.v ===== *)
(** * The states an edited file goes through

    Along paths without links every call of [Patch] acts on one node of the
    tree. This file follows the edited files through the checkpoint, the write
    loop, and either restoration. *)

From S2P Require Import Prelude GoStrings Json GoPath Paths FileOps FileSpec Patch PatchInv.
Open Scope Z_scope.

(** ** Paths without links *)

(** Whatever is in the tree has its directories. *)
Definition tree_ok (t : tree) : Prop := ∀ p name, is_Some (t !! (p ++ [name])) → node_at t p = Some Dir.

Definition clear_way (t : tree) (r : abspath) (names : list string) : Prop :=
  ∀ k target, t !! (r ++ take k names) ≠ Some (Link target).

(** A relative path in clean form and the absolute path it stands for below [r]. *)
Definition spot (r : abspath) (rel : string) (a : abspath) : Prop :=
  ∃ names, rel = render names ∧ Forall plain names ∧ names ≠ [] ∧ a = r ++ names.

Definition clear_to (t : tree) (r a : abspath) : Prop := ∀ names, a = r ++ names → clear_way t r names.

Definition leaf (o : option node) : Prop := match o with None | Some (File _ _) => True | _ => False end.

Lemma tree_ok_above t p n : tree_ok t → t !! p = Some n → above t p.
Proof.
  intros Ht. revert n. induction p as [|x p IH] using rev_ind; intros n Hn; [intros k Hk; cbn in Hk; lia|].
  assert (node_at t p = Some Dir) as Hd by (eapply Ht; by rewrite Hn).
  apply above_snoc. split; [|done]. destruct p as [|y p] using rev_ind; [intros k Hk; cbn in Hk; lia|].
  rewrite node_at_snoc in Hd. by eapply IH.
Qed.

Lemma above_between t r names k : above t (r ++ names) → (k < length names)%nat → node_at t (r ++ take k names) = Some Dir.
Proof.
  intros H Hk. specialize (H (length r + k)%nat). rewrite length_app, take_app_add in H. apply H. lia.
Qed.

Lemma spot_ne r rel a : spot r rel a → a ≠ r ∧ a ≠ [] ∧ ∀ t, node_at t a = t !! a.
Proof.
  intros (names & _ & _ & Hn & ->). split; [|split].
  - intros E. apply (f_equal length) in E. rewrite length_app in E. destruct names; [done|]. cbn in E. lia.
  - by destruct r, names.
  - intros t. destruct r, names; done.
Qed.

Lemma spot_inj r rel rel' a : spot r rel a → spot r rel' a → rel = rel'.
Proof. intros (n & -> & _ & _ & ->) (n' & -> & _ & _ & E). by apply app_inv_head in E as ->. Qed.

Lemma straight_walk jail t follow links base names x : Forall plain names → clear_way t base names →
  node_at t base = Some Dir → walk jail t follow links base names = Ok x →
  x = (base ++ names, node_at t (base ++ names)) ∧
  ∀ k, (k < length names)%nat → node_at t (base ++ take k names) = Some Dir.
Proof.
  revert base. induction names as [|y names IH]; intros base Hp Hc Hb H.
  { rewrite walk_nil in H. injection H as <-. rewrite app_nil_r. split; [done|]. intros k Hk. cbn in Hk. lia. }
  apply Forall_cons in Hp as [(?&?&?&?) Hp].
  rewrite walk_cons, !bool_decide_eq_false_2, decide_False in H by done. cbn in H.
  pose proof (Hc 1%nat) as Hc1. cbn in Hc1. rewrite take_0 in Hc1.
  assert (∀ k, (k < length (y :: names))%nat → (k = 0%nat ∨ ∃ j, k = S j ∧ (j < length names)%nat)) as Hk.
  { intros [|j] Hj; [by left|]. right. exists j. split; [done|]. cbn in Hj. lia. }
  destruct (t !! (base ++ [y])) as [[c m| |tg]|] eqn:E.
  - case_decide; [|done]. subst names. injection H as <-. rewrite node_at_snoc, E. split; [done|].
    intros k Hj. destruct (Hk k Hj) as [->|(j & -> & Hj')]; [by rewrite app_nil_r|cbn in Hj'; lia].
  - replace (base ++ y :: names) with ((base ++ [y]) ++ names) by by rewrite <-(assoc_L app).
    destruct (IH (base ++ [y])) as [-> Hd]; [done| |by rewrite node_at_snoc|done|].
    + intros k tg. rewrite <-(assoc_L app). apply (Hc (S k)).
    + split; [done|]. intros k Hj. destruct (Hk k Hj) as [->|(j & -> & Hj')]; [by rewrite app_nil_r|].
      specialize (Hd j Hj'). by rewrite <-(assoc_L app) in Hd.
  - by destruct (Hc1 tg).
  - case_decide; [|done]. subst names. injection H as <-. rewrite node_at_snoc, E. split; [done|].
    intros k Hj. destruct (Hk k Hj) as [->|(j & -> & Hj')]; [by rewrite app_nil_r|cbn in Hj'; lia].
Qed.

Section spots.
Context (lim : limits) (r : abspath).

(** What [os.Root] finds at a spot. *)
Lemma root_walk_ok t follow rel a q o : dir_at t r → spot r rel a → clear_to t r a →
  root_walk lim t r follow rel = Ok (q, o) → q = a ∧ o = t !! a ∧ above t a.
Proof.
  intros [Ha Hd] Hsp Hc H. pose proof (spot_ne _ _ _ Hsp) as (_ & _ & Hat).
  destruct Hsp as (names & -> & Hp & Hn & ->). unfold root_walk in H.
  rewrite plain_not_abs, walk_render in H by done.
  apply straight_walk in H as [E Hk]; [|done|by apply Hc|done]. injection E as -> ->. rewrite Hat.
  split; [done|]. split; [done|]. intros k Hl. rewrite length_app in Hl.
  destruct (decide (k < length r)%nat) as [Hl'|Hl'].
  - rewrite take_app_le by lia. by apply Ha.
  - replace k with (length r + (k - length r))%nat by lia. rewrite take_app_add. apply Hk. lia.
Qed.

Lemma root_walk_at t follow rel a : dir_at t r → spot r rel a → above t a → leaf (t !! a) →
  root_walk lim t r follow rel = Ok (a, t !! a).
Proof.
  intros [_ Hd] Hsp Hab Hl. pose proof (spot_ne _ _ _ Hsp) as (_ & _ & Hat).
  destruct Hsp as (names & -> & Hp & Hn & ->). unfold root_walk. rewrite plain_not_abs, walk_render by done.
  rewrite walk_physical, Hat; [done|done|intros k Hk; by apply above_between|done|].
  rewrite Hat. intros tg E. by rewrite E in Hl.
Qed.
End spots.

(** ** Changes at one leaf *)

Definition only_at (a : abspath) (t t' : tree) : Prop :=
  a ≠ [] ∧ leaf (t !! a) ∧ leaf (t' !! a) ∧ ∀ q, q ≠ a → t' !! q = t !! q.

Lemma only_at_refl a t : a ≠ [] → leaf (t !! a) → only_at a t t.
Proof. by split. Qed.

Lemma only_at_sym a t t' : only_at a t t' → only_at a t' t.
Proof. intros (? & ? & ? & H). repeat (split; [done|]). intros q Hq. by rewrite H. Qed.

Lemma only_at_insert a t c m : a ≠ [] → leaf (t !! a) → only_at a t (<[a := File c m]> t).
Proof.
  intros ??. split; [done|]. split; [done|]. split; [by rewrite lookup_insert_eq|].
  intros q Hq. by rewrite lookup_insert_ne.
Qed.

Lemma only_at_delete a t : a ≠ [] → leaf (t !! a) → only_at a t (delete a t).
Proof.
  intros ??. split; [done|]. split; [done|]. split; [by rewrite lookup_delete_eq|].
  intros q Hq. by rewrite lookup_delete_ne.
Qed.

Lemma only_at_dir a t t' p : only_at a t t' → node_at t p = Some Dir → node_at t' p = Some Dir.
Proof.
  intros (Ha & Hl & _ & H) Hp. destruct p as [|x p]; [done|]. cbn in Hp |- *. rewrite H; [done|].
  intros E. by rewrite <-E, Hp in Hl.
Qed.

Lemma only_at_above a t t' p : only_at a t t' → above t p → above t' p.
Proof. intros H Hp k Hk. eapply only_at_dir; [done|]. by apply Hp. Qed.

Lemma only_at_dir_at a t t' p : only_at a t t' → dir_at t p → dir_at t' p.
Proof. intros H [H1 H2]. split; [by eapply only_at_above|by eapply only_at_dir]. Qed.

Lemma only_at_clear a t t' r b : only_at a t t' → clear_to t r b → clear_to t' r b.
Proof.
  intros (Ha & _ & Hl & H) Hc names E k target. destruct (decide (r ++ take k names = a)) as [->|Hne].
  - intros E'. by rewrite E' in Hl.
  - rewrite H by done. by apply Hc.
Qed.

Section ops.
Context (lim : limits) (env : write_env) (r : abspath).

(** The write of an edit at its spot. *)
Lemma write_edit_at p a t t' res : dir_at t r → spot r (pe_rel p) a → clear_to t r a → leaf (t !! a) →
  write_edit lim env r p t = (t', res) →
  only_at a t t' ∧
  (is_ok res = true → above t a ∧
    (pe_action p = Create → t !! a = None) ∧
    (pe_action p = Delete → t' !! a = None) ∧
    (pe_action p ≠ Delete → ∃ m, t' !! a = Some (File (pe_newContent p) m)) ∧
    ∀ c m c' m', t !! a = Some (File c m) → t' !! a = Some (File c' m') → m' = m) ∧
  (is_ok res = false → t' = t ∨ pe_action p ≠ Delete ∧ (pe_action p = Create → t !! a = None) ∧
     ∃ n m, t' !! a = Some (File (first_bytes n (pe_newContent p)) m)).
Proof.
  intros Hr Hsp Hc Hl H. pose proof (spot_ne _ _ _ Hsp) as (_ & Hne & _).
  assert (∀ f q o, root_walk lim t r f (pe_rel p) = Ok (q, o) → q = a ∧ o = t !! a ∧ above t a) as Hw
    by (intros f q o; by apply root_walk_ok).
  unfold write_edit in H. destruct (pe_action p) eqn:Eact.
  - unfold root_Create in H. destruct (root_walk _ _ _ _ _) as [[q [n|]]|] eqn:E;
      [injection H as <- <-; split; [by apply only_at_refl|split; [done|by left]]| |
       injection H as <- <-; split; [by apply only_at_refl|split; [done|by left]]].
    apply Hw in E as (-> & E & Hab). destruct (w_open env a);
      [injection H as <- <-; split; [by apply only_at_refl|split; [done|by left]]|].
    unfold write_at in H. destruct (w_short env a); injection H as <- <-;
      (split; [by apply only_at_insert|]); (split; [|]); (try done); rewrite lookup_insert_eq.
    + intros _. right. split; [done|]. split; [done|]. by eexists _, _.
    + intros _. split; [done|]. split; [done|]. split; [done|]. split; [by eexists|]. intros ????. by rewrite <-E.
  - unfold root_Remove in H. destruct (root_walk _ _ _ _ _) as [[q [n|]]|] eqn:E;
      [|injection H as <- <-; split; [by apply only_at_refl|split; [done|by left]]..].
    apply Hw in E as (-> & E & Hab). destruct (w_open env a);
      [injection H as <- <-; split; [by apply only_at_refl|split; [done|by left]]|].
    destruct (_ && _); injection H as <- <-; [split; [by apply only_at_refl|split; [done|by left]]|].
    split; [by apply only_at_delete|]. split; [|done]. rewrite lookup_delete_eq. intros _. by repeat split.
  - unfold root_WriteFile in H. destruct (root_walk _ _ _ _ _) as [[q [[c m| |tg]|]]|] eqn:E;
      try (injection H as <- <-; split; [by apply only_at_refl|split; [done|by left]]);
      apply Hw in E as (-> & E & Hab); (destruct (w_open env a);
        [injection H as <- <-; split; [by apply only_at_refl|split; [done|by left]]|]);
      unfold write_at in H; (destruct (w_short env a); injection H as <- <-;
      (split; [by apply only_at_insert|]); (split; [|]); (try done); rewrite lookup_insert_eq);
      [intros _; right; split; [done|]; split; [done|]; by eexists _, _| |
       intros _; right; split; [done|]; split; [done|]; by eexists _, _|].
    + intros _. split; [done|]. split; [done|]. split; [done|]. split; [by eexists|]. intros ????. rewrite <-E. by intros [= -> ->] [= _ ->].
    + intros _. split; [done|]. split; [done|]. split; [done|]. split; [by eexists|]. intros ????. by rewrite <-E.
Qed.

(** What restoring makes of a node that held [o] at the checkpoint. *)
Definition restored (o o' : option node) : Prop :=
  match o with
  | Some (File c m) => ∃ m', o' = Some (File c m') ∧
      (m' = m ∨ m' = Z.ldiff (if decide (m = 0) then 420 else m) (umask env))
  | _ => o' = o
  end.

(** The node between checkpoint and restoration: whatever it holds, a file that
    was there keeps its mode. *)
Definition touched (o o' : option node) : Prop :=
  leaf o ∧ leaf o' ∧ ∀ c m c' m', o = Some (File c m) → o' = Some (File c' m') → m' = m.

(** The entry of a checkpoint is right about [o]. *)
Definition recorded (blobs : gmap string string) (o : option node) (f : checkpointFile) : Prop :=
  match o with
  | None => cf_Absent f = true
  | Some (File c m) => cf_Absent f = false ∧ cf_Mode f = m ∧ isBlobName (cf_Blob f) = true ∧
      blobs !! cf_Blob f = Some c
  | Some _ => False
  end.

Lemma root_WriteFile_at rel mode content a t t' res : dir_at t r → spot r rel a → above t a → leaf (t !! a) →
  root_WriteFile lim env r rel mode content t = (t', res) →
  only_at a t t' ∧
  (is_ok res = true ∨ (w_open env a = None ∧ w_short env a = None) →
   t' !! a = Some (File content (match t !! a with Some (File _ m) => m | _ => created_mode env mode end))).
Proof.
  intros Hr Hsp Hab Hl H. pose proof (spot_ne _ _ _ Hsp) as (_ & Hne & _).
  unfold root_WriteFile, write_at in H. rewrite (root_walk_at lim r t true rel a) in H by done.
  destruct (t !! a) as [[c m| |]|] eqn:E; try done;
    (destruct (w_open env a) eqn:E1; [injection H as <- <-; split; [apply only_at_refl; [done|by rewrite E]|by intros [|[]]]|]);
    (destruct (w_short env a) eqn:E2; injection H as <- <-; (split; [apply only_at_insert; [done|by rewrite E]|]);
     rewrite lookup_insert_eq; [by intros [|[]]|done]).
Qed.

Lemma root_Remove_at rel a t t' res : dir_at t r → spot r rel a → above t a → leaf (t !! a) →
  root_Remove lim env r rel t = (t', res) →
  only_at a t t' ∧ (res = Ok () ∨ res = Err ENOENT ∧ w_open env a ≠ Some ENOENT ∨ w_open env a = None → t' !! a = None).
Proof.
  intros Hr Hsp Hab Hl H. pose proof (spot_ne _ _ _ Hsp) as (_ & Hne & _).
  unfold root_Remove in H. rewrite (root_walk_at lim r t false rel a) in H by done.
  destruct (t !! a) as [n|] eqn:E.
  - destruct (w_open env a) as [e|] eqn:E1.
    + injection H as <- <-. split; [apply only_at_refl; [done|by rewrite E]|]. intros [|[[[= ->] ?]|]]; done.
    + replace (bool_decide (n = Dir)) with false in H by by destruct n.
      injection H as <- <-. split; [apply only_at_delete; [done|by rewrite E]|]. by rewrite lookup_delete_eq.
  - injection H as <- <-. split; [apply only_at_refl; [done|by rewrite E]|done].
Qed.
End ops.

(** ** Changes at several leaves *)

Definition changed (A : list abspath) (t t' : tree) : Prop :=
  (∀ a, a ∈ A → a ≠ [] ∧ leaf (t !! a) ∧ leaf (t' !! a)) ∧ ∀ q, q ∉ A → t' !! q = t !! q.

Lemma changed_nil t : changed [] t t.
Proof. split; [by intros a Ha%elem_of_nil|done]. Qed.

Lemma only_at_changed a t t' : only_at a t t' → changed [a] t t'.
Proof.
  intros (? & ? & ? & H). split; [by intros b ->%list_elem_of_singleton|].
  intros q Hq. apply H. intros ->. apply Hq. by left.
Qed.

Lemma changed_trans A B t t1 t2 : changed A t t1 → changed B t1 t2 → changed (A ++ B) t t2.
Proof.
  intros [H1 E1] [H2 E2]. split.
  - intros a Ha. destruct (decide (a ∈ A)) as [HA|HA], (decide (a ∈ B)) as [HB|HB].
    + destruct (H1 a HA) as (? & ? & ?), (H2 a HB) as (? & ? & ?). done.
    + rewrite (E2 a HB). by apply H1.
    + rewrite <-(E1 a HA). by apply H2.
    + apply elem_of_app in Ha as [?|?]; done.
  - intros q Hq. apply not_elem_of_app in Hq as [? ?]. rewrite E2, E1; done.
Qed.

Lemma changed_dir A t t' p : changed A t t' → node_at t p = Some Dir → node_at t' p = Some Dir.
Proof.
  intros [Ha H] Hp. destruct p as [|x p]; [done|]. cbn in Hp |- *. rewrite H; [done|].
  intros (_ & Hl & _)%Ha. by rewrite Hp in Hl.
Qed.

Lemma changed_above A t t' p : changed A t t' → above t p → above t' p.
Proof. intros H Hp k Hk. eapply changed_dir; [done|]. by apply Hp. Qed.

Lemma changed_dir_at A t t' p : changed A t t' → dir_at t p → dir_at t' p.
Proof. intros H [H1 H2]. split; [by eapply changed_above|by eapply changed_dir]. Qed.

(** ** The write loop *)

Section loop.
Context (lim : limits) (r : abspath).

(** The edits can be written: their paths stand for their spots, and lead
    through no link and to no directory. *)
Definition writable (t : tree) (ps : list plannedEdit) : Prop :=
  NoDup (pe_abs <$> ps) ∧
  ∀ p, p ∈ ps → spot r (pe_rel p) (pe_abs p) ∧ clear_to t r (pe_abs p) ∧ leaf (t !! pe_abs p).

(** What a written edit leaves. *)
Definition written (p : plannedEdit) (o o' : option node) : Prop :=
  touched o o' ∧
  (pe_action p = Create → o = None) ∧
  (pe_action p = Delete → o' = None) ∧
  (pe_action p ≠ Delete → ∃ m, o' = Some (File (pe_newContent p) m)).

Definition wrote (ps : list plannedEdit) (t t' : tree) : Prop :=
  changed (pe_abs <$> ps) t t' ∧
  ∀ p, p ∈ ps → above t (pe_abs p) ∧ written p (t !! pe_abs p) (t' !! pe_abs p).

Lemma writable_tail p ps t t' : writable t (p :: ps) → only_at (pe_abs p) t t' → writable t' ps.
Proof.
  intros [Hn Hw] Ho. apply NoDup_cons in Hn as [Hp Hn]. split; [done|]. intros q Hq.
  destruct (Hw q) as (? & Hc & Hl); [by right|]. split; [done|]. split; [by eapply only_at_clear|].
  destruct Ho as (_ & _ & _ & Ho). rewrite Ho; [done|]. intros E. apply Hp. rewrite <-E. by apply list_elem_of_fmap_2.
Qed.

Lemma wrote_cons p ps t t1 t2 : only_at (pe_abs p) t t1 → (pe_abs p ∉ pe_abs <$> ps) →
  above t (pe_abs p) → written p (t !! pe_abs p) (t1 !! pe_abs p) → wrote ps t1 t2 → wrote (p :: ps) t t2.
Proof.
  intros Ho Hp Hab Hw [Hc H]. split.
  - apply (changed_trans [_] _ _ _ _ (only_at_changed _ _ _ Ho) Hc).
  - intros q [->|Hq]%elem_of_cons.
    + split; [done|]. by rewrite (proj2 Hc).
    + destruct (H q Hq) as [Hq1 Hq2]. split; [by eapply only_at_above; [apply only_at_sym|]|].
      destruct Ho as (_ & _ & _ & Ho). rewrite <-Ho; [done|]. intros E. apply Hp. rewrite <-E.
      by apply list_elem_of_fmap_2.
Qed.

Lemma write_edits_run env undo cp ps applied d d' res : dir_at (d_tree d) r → writable (d_tree d) ps →
  write_edits lim env undo r cp ps applied d = (d', res) →
  ∃ ps1 ps2 t, ps = ps1 ++ ps2 ∧ wrote ps1 (d_tree d) t ∧
    match ps2 with
    | [] => res = Ok () ∧ d' = set_tree t d
    | p :: _ => ∃ t', res = Err (PWriteFailed (pe_rel p) (cp_ID cp)) ∧ only_at (pe_abs p) t t' ∧
        (t' = t ∨ pe_action p ≠ Delete ∧ (pe_action p = Create → t !! pe_abs p = None) ∧
           ∃ n m, t' !! pe_abs p = Some (File (first_bytes n (pe_newContent p)) m)) ∧
        d' = restorePartial lim undo r (applied ++ ps1) cp (set_tree t' d)
    end.
Proof.
  revert applied d. induction ps as [|p ps IH]; intros applied d Hr Hw H; cbn in H.
  { injection H as <- <-. exists [], [], (d_tree d). split; [done|]. split; [|by destruct d].
    split; [apply changed_nil|by intros p Hp%elem_of_nil]. }
  destruct (proj2 Hw p) as (Hsp & Hc & Hl); [by left|].
  destruct (write_edit lim env r p (d_tree d)) as [t1 res1] eqn:E.
  destruct (write_edit_at lim env r p _ _ _ _ Hr Hsp Hc Hl E) as (Ho & Hok & Herr). destruct res1 as [[]|e].
  - destruct (Hok eq_refl) as (Hab & Hcr & Hdel & Hcon & Hm).
    destruct (λ H1 H2, IH (applied ++ [p]) (set_tree t1 d) H1 H2 H) as (ps1 & ps2 & t & -> & Hwr & Hres);
      [by eapply only_at_dir_at|by eapply writable_tail|].
    exists (p :: ps1), ps2, t. split; [done|]. split.
    + destruct Hw as [Hnd _]. rewrite fmap_cons, fmap_app in Hnd. apply NoDup_cons in Hnd as [Hnd _]. rewrite not_elem_of_app in Hnd.
      eapply wrote_cons; [done|tauto|done| |done]. split; [|done]. destruct Ho as (_ & ? & ? & _). by split.
    + destruct ps2; [done|]. by rewrite <-(assoc_L app) in Hres.
  - injection H as <- <-. exists [], (p :: ps), (d_tree d). split; [done|]. split.
    + split; [apply changed_nil|by intros q Hq%elem_of_nil].
    + exists t1. split; [done|]. split; [done|]. rewrite app_nil_r. split; [|done].
      by apply Herr.
Qed.
End loop.

(** ** Restoring *)

Lemma MkdirAll_exists lim env r t base names : Forall plain names →
  (∀ k, (k ≤ length names)%nat → node_at t (base ++ take k names) = Some Dir) →
  MkdirAll lim env (Some r) t base names = (t, Ok ()).
Proof.
  revert base. induction names as [|x names IH]; intros base Hp Hd; [done|].
  apply Forall_cons in Hp as [Hx Hp]. cbn [MkdirAll].
  pose proof (Hd 1%nat ltac:(cbn; lia)) as H1. cbn in H1. rewrite take_0, node_at_snoc in H1.
  rewrite walk_plain_cons, walk_nil, node_at_snoc, H1 by done. apply IH; [done|].
  intros k Hk. rewrite <-(assoc_L app). apply (Hd (S k)). cbn. lia.
Qed.

Lemma parent_dirs r rel a t : dir_at t r → spot r rel a → above t a →
  ∃ names, clean_parts false (Dir_of rel) = names ∧ Forall plain names ∧
    ∀ k, (k ≤ length names)%nat → node_at t (r ++ take k names) = Some Dir.
Proof.
  intros [_ Hd] (names & -> & Hp & Hn & ->) Hab. unfold Dir_of.
  pose proof (clean_parts_render 0 names Hp) as E. cbn [replicate app] in E. rewrite E.
  assert (Forall plain (removelast names)) as Hp' by (rewrite removelast_take; by apply Forall_take).
  exists (removelast names). split; [apply (clean_parts_render 0 _ Hp')|]. split; [done|].
  intros k. rewrite removelast_take, length_take, take_take. intros Hk.
  assert (length names ≠ 0%nat) by by destruct names. apply above_between; [done|]. lia.
Qed.

Section restoring.
Context (lim : limits) (env : write_env) (r : abspath).

Lemma restored_written o o' f content : touched o o' → recorded {[cf_Blob f := content]} o f →
  cf_Absent f = false →
  restored env o (Some (File content (match o' with Some (File _ m) => m | _ => created_mode env (file_mode f) end))).
Proof.
  intros (Hl & Hl' & Hm) Hr Ha. destruct o as [[c m| |]|]; cbn in Hr; [|done..|congruence].
  destruct Hr as (_ & Hmode & _ & Hc). rewrite lookup_singleton_eq in Hc. injection Hc as ->.
  eexists. split; [done|]. destruct o' as [[c' m'| |]|]; try done; [left; by eapply Hm|].
  right. unfold created_mode, file_mode. by rewrite Hmode.
Qed.

Lemma recorded_content blobs o f : recorded blobs o f → cf_Absent f = false →
  ∃ c, blobs !! cf_Blob f = Some c ∧ recorded {[cf_Blob f := c]} o f ∧ isBlobName (cf_Blob f) = true.
Proof.
  intros H Ha. destruct o as [[c m| |]|]; cbn in H; [|done..|congruence].
  destruct H as (? & ? & ? & Hc). exists c. split; [done|]. split; [|done]. cbn. by rewrite lookup_singleton_eq.
Qed.

Lemma recorded_absent blobs o f : recorded blobs o f → cf_Absent f = true → o = None.
Proof. intros H Ha. destruct o as [[c m| |]|]; cbn in H; [|done..|done]. destruct H. congruence. Qed.

(** Entries and edits side by side: [t0] is the tree of the checkpoint. *)
Definition entry (blobs : gmap string string) (t0 : tree) (p : plannedEdit) (f : checkpointFile) : Prop :=
  cf_Path f = pe_rel p ∧ recorded blobs (t0 !! pe_abs p) f.

(** The edited files may be restored in [t]. *)
Definition restorable (t0 t : tree) (ps : list plannedEdit) : Prop :=
  NoDup (pe_abs <$> ps) ∧
  ∀ p, p ∈ ps → spot r (pe_rel p) (pe_abs p) ∧ above t (pe_abs p) ∧ touched (t0 !! pe_abs p) (t !! pe_abs p).

Lemma restorable_tail t0 t t' p ps : restorable t0 t (p :: ps) → only_at (pe_abs p) t t' → restorable t0 t' ps.
Proof.
  intros [Hn Hw] Ho. apply NoDup_cons in Hn as [Hp Hn]. split; [done|]. intros q Hq.
  destruct (Hw q) as (? & ? & Ht); [by right|]. split; [done|]. split; [by eapply only_at_above|].
  destruct Ho as (_ & _ & _ & Ho). rewrite Ho; [done|]. intros E. apply Hp. rewrite <-E. by apply list_elem_of_fmap_2.
Qed.

(** All of [ps] is as it was at the checkpoint, and nothing else changed. *)
Definition restores (ps : list plannedEdit) (t0 t t' : tree) : Prop :=
  changed (pe_abs <$> ps) t t' ∧ ∀ p, p ∈ ps → restored env (t0 !! pe_abs p) (t' !! pe_abs p).

Lemma restores_cons p ps t0 t t1 t2 : only_at (pe_abs p) t t1 → (pe_abs p ∉ pe_abs <$> ps) →
  restored env (t0 !! pe_abs p) (t1 !! pe_abs p) → restores ps t0 t1 t2 → restores (p :: ps) t0 t t2.
Proof.
  intros Ho Hp Hr [Hc H]. split; [apply (changed_trans [_] _ _ _ _ (only_at_changed _ _ _ Ho) Hc)|].
  intros q [->|Hq]%elem_of_cons; [|by apply H]. by rewrite (proj2 Hc).
Qed.

Lemma rollback_files_run ps fs res res' t0 d d' : (∀ a, w_open env a ≠ Some ENOENT) →
  dir_at (d_tree d) r → restorable t0 (d_tree d) ps → Forall2 (entry (d_blobs d) t0) ps fs →
  rollback_files lim env r fs res d = (d', Ok res') →
  restores ps t0 (d_tree d) (d_tree d') ∧ RolledBack res' = true.
Proof.
  intros Hh Hr Hw Hf. revert res d Hr Hw Hf. revert fs. induction ps as [|p ps IH]; intros fs res d Hr Hw Hf H.
  { apply Forall2_nil_inv_l in Hf as ->. injection H as <- <-. split; [|done].
    split; [apply changed_nil|by intros p Hp%elem_of_nil]. }
  apply Forall2_cons_inv_l in Hf as (f & fs' & [Hpath Hrec] & Hf & ->). cbn [rollback_files] in H.
  destruct (proj2 Hw p) as (Hsp & Hab & Ht); [by left|]. pose proof Ht as (_ & Hl & _). rewrite Hpath in H.
  assert (pe_abs p ∉ pe_abs <$> ps) as Hnp by by destruct Hw as [[? _]%NoDup_cons _].
  assert (∀ t1 res1, only_at (pe_abs p) (d_tree d) t1 → restored env (t0 !! pe_abs p) (t1 !! pe_abs p) →
    rollback_files lim env r fs' res1 (set_tree t1 d) = (d', Ok res') →
    restores (p :: ps) t0 (d_tree d) (d_tree d') ∧ RolledBack res' = true) as Hnext.
  { intros t1 res1 Ho Hres H1. destruct (IH fs' res1 (set_tree t1 d)) with (4 := H1) as [H2 H3];
      [by eapply only_at_dir_at|by eapply restorable_tail|done|]. split; [|done]. by eapply restores_cons. }
  destruct (cf_Absent f) eqn:Ea.
  - apply (recorded_absent _ _ _ Hrec) in Ea as Eo.
    destruct (root_Remove _ _ _ _ _) as [t1 res1] eqn:E.
    apply (root_Remove_at lim env r _ (pe_abs p)) in E as [Ho Hn]; [|done..].
    assert (res1 = Ok () ∨ res1 = Err ENOENT) as He by by destruct res1 as [[]|[]]; auto.
    assert (t1 !! pe_abs p = None) as Hno by (apply Hn; destruct He as [->|]; auto).
    eapply Hnext; [done|by rewrite Eo, Hno|]. by destruct He as [-> | ->].
  - destruct (recorded_content _ _ _ Hrec Ea) as (c & Hc & Hrec' & Hbn).
    destruct (loadBlob env (cf_Blob f) d) as [content|] eqn:El; [|done].
    assert (content = c) as ->.
    { unfold loadBlob in El. rewrite Hbn in El. destruct (w_blob _ _); cbn in El; congruence. }
    destruct (parent_dirs _ _ _ _ Hr Hsp Hab) as (names & En & Hp & Hd).
    rewrite En, (MkdirAll_exists lim env r _ _ _ Hp Hd) in H.
    destruct (root_WriteFile _ _ _ _ _ _ _) as [t1 [[]|]] eqn:E; [|done].
    apply (root_WriteFile_at lim env r _ _ _ (pe_abs p)) in E as [Ho Hn]; [|done..].
    eapply Hnext; [done| |done]. rewrite Hn by by left. by apply restored_written.
Qed.
End restoring.

Section partial.
Context (lim : limits) (env : write_env) (r : abspath).

(** Nothing fails. *)
Definition calm : Prop :=
  (∀ a, w_open env a = None) ∧ (∀ a, w_short env a = None) ∧ ∀ name, w_blob env name = false.

Lemma restore_file_at o f a d : calm → recorded (d_blobs d) o f → dir_at (d_tree d) r →
  spot r (cf_Path f) a → above (d_tree d) a → touched o (d_tree d !! a) →
  let d' := restore_file lim env r f d in
  only_at a (d_tree d) (d_tree d') ∧ restored env o (d_tree d' !! a) ∧ d_blobs d' = d_blobs d.
Proof.
  intros (Hopen & Hshort & Hblob) Hrec Hr Hsp Hab Ht d'. pose proof Ht as (_ & Hl & _). subst d'. unfold restore_file.
  destruct (cf_Absent f) eqn:Ea.
  - apply (recorded_absent _ _ _ Hrec) in Ea as ->.
    destruct (root_Remove _ _ _ _ _) as [t1 res1] eqn:E.
    apply (root_Remove_at lim env r _ a) in E as [Ho Hn]; [|done..]. cbn. split; [done|]. by rewrite Hn by auto.
  - destruct (recorded_content _ _ _ Hrec Ea) as (c & Hc & Hrec' & Hbn).
    unfold loadBlob. rewrite Hbn, Hblob, Hc. cbn.
    destruct (root_WriteFile _ _ _ _ _ _ _) as [t1 res1] eqn:E.
    apply (root_WriteFile_at lim env r _ _ _ a) in E as [Ho Hn]; [|done..]. split; [done|].
    split; [|done]. cbn. rewrite Hn by auto. by apply restored_written.
Qed.

Lemma restore_others rel fs d : (rel ∉ cf_Path <$> fs) →
  foldl (λ d f, if decide (cf_Path f ≠ rel) then d else restore_file lim env r f d) d fs = d.
Proof.
  induction fs as [|f fs IH]; intros H; [done|]. rewrite fmap_cons in H. apply not_elem_of_cons in H as [H1 H2].
  cbn [foldl]. rewrite decide_True by congruence. by apply IH.
Qed.

Lemma restore_one rel fs1 f fs2 d : cf_Path f = rel → NoDup (cf_Path <$> fs1 ++ f :: fs2) →
  foldl (λ d f, if decide (cf_Path f ≠ rel) then d else restore_file lim env r f d) d (fs1 ++ f :: fs2) =
  restore_file lim env r f d.
Proof.
  intros <- H. rewrite fmap_app, fmap_cons in H. apply NoDup_app in H as (_ & H1 & [H2 _]%NoDup_cons).
  rewrite foldl_app, (restore_others _ fs1); [|intros Hin; apply (H1 _ Hin); by left].
  cbn [foldl]. rewrite decide_False by auto. by apply restore_others.
Qed.

Lemma entry_paths blobs t0 ps fs : Forall2 (entry blobs t0) ps fs → cf_Path <$> fs = pe_rel <$> ps.
Proof. induction 1 as [|p f ps fs [H _] _ IH]; [done|]. rewrite !fmap_cons, IH. by f_equal. Qed.

Lemma restorePartial_run cp ps applied t0 d : calm → dir_at (d_tree d) r → NoDup (pe_rel <$> ps) →
  Forall2 (entry (d_blobs d) t0) ps (cp_Files cp) → applied ⊆ ps → restorable r t0 (d_tree d) applied →
  restores env applied t0 (d_tree d) (d_tree (restorePartial lim env r applied cp d)).
Proof.
  intros Hc Hr Hn Hf. unfold restorePartial. revert d Hr Hf. induction applied as [|p applied IH]; intros d Hr Hf Hsub Hw.
  { split; [apply changed_nil|by intros p Hp%elem_of_nil]. }
  cbn [foldl]. destruct (proj2 Hw p) as (Hsp & Hab & Ht); [by left|].
  destruct (list_elem_of_split ps p) as (l1 & l2 & El); [apply Hsub; by left|].
  pose proof (entry_paths _ _ _ _ Hf) as Hpaths.
  pose proof Hf as Hf'. rewrite El in Hf'. apply Forall2_app_inv_l in Hf' as (fs1 & fs2' & _ & Hf2 & Efs).
  apply Forall2_cons_inv_l in Hf2 as (f & fs2 & [Hpath Hrec] & _ & ->).
  rewrite Efs, (restore_one (pe_rel p) fs1 f fs2 d Hpath) by (by rewrite <-Efs, Hpaths).
  rewrite <-Hpath in Hsp. destruct (restore_file_at _ f _ d Hc Hrec Hr Hsp Hab Ht) as (Ho & Hres & Hb).
  eapply restores_cons; [done| |done|].
  - by destruct Hw as [[? _]%NoDup_cons _].
  - rewrite <-Efs. apply IH; [by eapply only_at_dir_at|by rewrite Hb| |by eapply restorable_tail].
    intros q Hq. apply Hsub. by right.
Qed.
End partial.

(** ** The checkpoint *)

Lemma stat_spot lim t r rel a follow n : Forall plain r → dir_at t r → spot r rel a → clear_to t r a → tree_ok t →
  stat lim t follow a = Ok n ↔ t !! a = Some n.
Proof.
  intros Hpr Hr Hsp Hc Ht. pose proof (spot_ne _ _ _ Hsp) as (_ & _ & Hat).
  destruct Hsp as (names & -> & Hp & Hn & ->). unfold stat. rewrite walk_down by done. cbn [app]. split.
  - destruct (walk _ _ _ _ _ _) as [[q o]|] eqn:E; [|done].
    apply straight_walk in E as [E _]; [|done|by apply Hc|by destruct Hr]. injection E as -> ->.
    rewrite Hat. destruct (t !! _); [|done]. by intros [= ->].
  - intros E. rewrite walk_physical, Hat, E; [done|done| |by destruct Hr|].
    + intros k Hk. apply above_between; [|done]. by eapply tree_ok_above.
    + rewrite Hat, E. intros tg [= ->]. apply (Hc names eq_refl (length names) tg). by rewrite firstn_all.
Qed.

Section checkpoint.
Context (lim : limits) (env : write_env) (sha256hex : string → string) (r : abspath).
Context (Hhex : ∀ c, isBlobName (sha256hex c) = true).
Context (held : string → Prop) (Hinj : ∀ c c', held c → held c' → sha256hex c = sha256hex c' → c = c').

(** Every blob is named by the digest of its content. *)
Definition blobs_ok (blobs : gmap string string) : Prop :=
  ∀ name c, blobs !! name = Some c → name = sha256hex c ∧ held c.

Lemma storeBlob_ok content d d' name : held content → blobs_ok (d_blobs d) →
  storeBlob env sha256hex content d = (d', Some name) →
  name = sha256hex content ∧ d_blobs d' !! name = Some content ∧ d_blobs d ⊆ d_blobs d' ∧ blobs_ok (d_blobs d') ∧
  d_tree d' = d_tree d ∧ d_store d' = d_store d.
Proof.
  intros Hh Hb H. unfold storeBlob in H. destruct (d_blobs d !! sha256hex content) as [c|] eqn:E.
  - injection H as <- <-. destruct (Hb _ _ E) as [Hs Hc]. apply Hinj in Hs; [|done|done]. by subst c.
  - destruct (w_blob _ _); [done|]. injection H as <- <-. cbn. rewrite lookup_insert_eq.
    split; [done|]. split; [done|]. split; [by apply insert_subseteq|]. split; [|done].
    intros name c [[<- <-]|[_ Hn]]%lookup_insert_Some; [done|by apply Hb].
Qed.

Lemma recorded_mono blobs blobs' o f : blobs ⊆ blobs' → recorded blobs o f → recorded blobs' o f.
Proof.
  intros Hs. destruct o as [[c m| |]|]; cbn; try done. intros (? & ? & ? & ?).
  repeat (split; [done|]). by eapply lookup_weaken.
Qed.

Lemma entry_mono blobs blobs' t0 ps fs : blobs ⊆ blobs' →
  Forall2 (entry blobs t0) ps fs → Forall2 (entry blobs' t0) ps fs.
Proof.
  intros Hs H. eapply Forall2_impl; [exact H|]. intros p f [? ?]. split; [done|]. by eapply recorded_mono.
Qed.

Lemma snapshot_ok p d d' f : Forall plain r → dir_at (d_tree d) r → tree_ok (d_tree d) →
  spot r (pe_rel p) (pe_abs p) → clear_to (d_tree d) r (pe_abs p) →
  (∀ a c m, d_tree d !! a = Some (File c m) → held c) → blobs_ok (d_blobs d) →
  snapshot lim env sha256hex p d = (d', Ok f) →
  leaf (d_tree d !! pe_abs p) ∧ entry (d_blobs d') (d_tree d) p f ∧ d_blobs d ⊆ d_blobs d' ∧ blobs_ok (d_blobs d') ∧
  d_tree d' = d_tree d ∧ d_store d' = d_store d.
Proof.
  intros Hpr Hr Ht Hsp Hc Hh Hb H. unfold snapshot, Lstat in H.
  pose proof (λ follow n, stat_spot lim _ _ _ _ follow n Hpr Hr Hsp Hc Ht) as Hst.
  destruct (stat lim (d_tree d) false (pe_abs p)) as [n|e] eqn:E.
  - apply Hst in E. destruct (ReadFile lim env (d_tree d) (pe_abs p)) as [c|] eqn:Er; [|done].
    unfold ReadFile, Stat in Er. destruct (w_read _ _); [done|].
    destruct (stat lim (d_tree d) true (pe_abs p)) as [[c' m| |]|] eqn:E'; try done. injection Er as ->.
    apply Hst in E'. rewrite E in E'. injection E' as ->.
    destruct (storeBlob _ _ _ _) as [d1 [name|]] eqn:Es; [|done]. injection H as <- <-.
    apply storeBlob_ok in Es as (-> & Hn & Hs & Hb' & Htr & Hst'); [|by eapply Hh|done].
    split; [by rewrite E|]. split; [|done]. split; [done|]. rewrite E. cbn. auto.
  - case_decide; [|done]. injection H as <- <-.
    assert (d_tree d !! pe_abs p = None) as En.
    { apply eq_None_not_Some. intros [n En]. apply (Hst false) in En. congruence. }
    split; [by rewrite En|]. split; [|done]. split; [done|]. by rewrite En.
Qed.

Lemma snapshots_ok ps d d' fs : Forall plain r → dir_at (d_tree d) r → tree_ok (d_tree d) →
  (∀ p, p ∈ ps → spot r (pe_rel p) (pe_abs p) ∧ clear_to (d_tree d) r (pe_abs p)) →
  (∀ a c m, d_tree d !! a = Some (File c m) → held c) → blobs_ok (d_blobs d) →
  snapshots lim env sha256hex ps d = (d', Ok fs) →
  (∀ p, p ∈ ps → leaf (d_tree d !! pe_abs p)) ∧ Forall2 (entry (d_blobs d') (d_tree d)) ps fs ∧
  d_blobs d ⊆ d_blobs d' ∧ blobs_ok (d_blobs d') ∧ d_tree d' = d_tree d ∧ d_store d' = d_store d.
Proof.
  intros Hpr. revert d d' fs. induction ps as [|p ps IH]; intros d d' fs Hr Ht Hps Hh Hb H; cbn in H.
  { injection H as <- <-. split; [by intros p Hp%elem_of_nil|]. split; [constructor|]. done. }
  destruct (snapshot _ _ _ _ _) as [d1 [f|]] eqn:E; [|done].
  destruct (snapshots _ _ _ _ _) as [d2 [fs'|]] eqn:E2; [|done]. injection H as <- <-.
  destruct (Hps p) as [Hsp Hc]; [by left|].
  apply snapshot_ok in E as (Hl & He & Hs1 & Hb1 & Ht1 & Hst1); [|done..]. rewrite <-Ht1 in *.
  apply IH in E2 as (Hl2 & He2 & Hs2 & Hb2 & Ht2 & Hst2); [|try done..].
  - split; [by intros q [->|Hq]%elem_of_cons; [|apply Hl2]|]. split.
    + constructor; [|done]. destruct He as [? ?]. split; [done|]. by eapply recorded_mono.
    + split; [by etrans|]. split; [done|]. split; congruence.
  - intros q Hq. apply Hps. by right.
Qed.

Lemma retained_last cps cp : retained (cps ++ [cp]) = drop (length cps + 1 - maxCheckpointsKept) cps ++ [cp].
Proof.
  unfold retained. rewrite length_app. cbn [length]. rewrite drop_app_le; [done|]. unfold maxCheckpointsKept. lia.
Qed.

Lemma elem_of_kept_blobs name cps : name ∈ kept_blobs cps ↔
  name ≠ "" ∧ ∃ cp f, cp ∈ cps ∧ f ∈ cp_Files cp ∧ cf_Blob f = name.
Proof.
  unfold kept_blobs. rewrite list_elem_of_bind. setoid_rewrite list_elem_of_filter. setoid_rewrite list_elem_of_fmap.
  split.
  - intros (cp & (Hn & f & -> & Hf) & Hcp). split; [done|]. by exists cp, f.
  - intros (Hn & cp & f & Hcp & Hf & <-). exists cp. split; [|done]. split; [done|]. by exists f.
Qed.

(** A checkpoint that was taken: it records every edited file, its blobs are
    there, and it is the last one of the checkpoint file. *)
Lemma createCheckpoint_ok workspace ps d d' cp : Forall plain r → dir_at (d_tree d) r → tree_ok (d_tree d) →
  (∀ p, p ∈ ps → spot r (pe_rel p) (pe_abs p) ∧ clear_to (d_tree d) r (pe_abs p)) →
  (∀ a c m, d_tree d !! a = Some (File c m) → held c) → blobs_ok (d_blobs d) →
  createCheckpoint lim env sha256hex workspace ps d = (d', Ok cp) →
  (∀ p, p ∈ ps → leaf (d_tree d !! pe_abs p)) ∧
  Forall2 (entry (d_blobs d') (d_tree d)) ps (cp_Files cp) ∧ d_tree d' = d_tree d ∧
  cp_ID cp = w_id env ∧ cp_Workspace cp = workspace ∧
  ∃ cps, loadCheckpointStore env d = Some cps ∧
    d_store d' = Checkpoints (drop (length cps + 1 - maxCheckpointsKept) cps ++ [cp]).
Proof.
  intros Hpr Hr Ht Hps Hh Hb H. unfold createCheckpoint in H.
  destruct (snapshots _ _ _ _ _) as [d1 [fs|]] eqn:E; [|done].
  apply snapshots_ok in E as (Hl & He & _ & Hb1 & Ht1 & Hst1); [|done..]. unfold appendCheckpoint in H.
  set (cp0 := {| cp_ID := _ |}) in *.
  destruct (loadCheckpointStore env d1) as [cps|] eqn:El; [|done]. destruct (w_store_write env); [done|].
  injection H as <- <-. split; [done|]. split; [|split; [done|split; [done|split; [done|]]]].
  - apply (Forall2_impl (λ p f, f ∈ fs ∧ entry (d_blobs d1) (d_tree d) p f)).
    { apply Forall2_same_length_lookup. split; [by eapply Forall2_length|]. intros i p f Hi Hj.
      split; [by eapply list_elem_of_lookup_2|]. by eapply Forall2_lookup_lr. }
    intros p f [Hf [Hpath Hrec]]. split; [done|]. cbn. destruct (d_tree d !! pe_abs p) as [[c m| |]|]; cbn in *; try done.
    destruct Hrec as (? & ? & Hbn & Hc). repeat (split; [done|]). apply map_lookup_filter_Some. split; [done|].
    left. apply elem_of_kept_blobs. cbn. split; [intros En; by rewrite En in Hbn|]. exists cp0, f. split; [|done].
    rewrite retained_last. apply elem_of_app. right. by left.
  - exists cps. split; [|by rewrite retained_last].
    unfold loadCheckpointStore in *. by rewrite <-Hst1.
Qed.
End checkpoint.

(** ** Validation along paths without links *)

Lemma tree_ok_mkdir t base name : tree_ok t → node_at t base = Some Dir → t !! (base ++ [name]) = None →
  tree_ok (<[base ++ [name] := Dir]> t).
Proof.
  intros Ht Hb Hn p x Hx. assert (∀ q, node_at t q = Some Dir → node_at (<[base ++ [name] := Dir]> t) q = Some Dir) as Hk.
  { intros [|y q] Hq; [done|]. cbn in *. destruct (decide (base ++ [name] = y :: q)) as [->|Hne];
      [by rewrite lookup_insert_eq|by rewrite lookup_insert_ne]. }
  destruct (decide (base ++ [name] = p ++ [x])) as [E|Hne].
  - apply app_inj_tail in E as [<- _]. by apply Hk.
  - rewrite lookup_insert_ne in Hx by done. by eapply Hk, Ht.
Qed.

Section validation.
Context (lim : limits) (env : write_env).

Lemma MkdirAll_ok jail t base names : tree_ok t → node_at t base = Some Dir →
  tree_ok (MkdirAll lim env jail t base names).1.
Proof.
  revert t base. induction names as [|name names IH]; intros t base Ht Hb; cbn; [done|].
  set (l := match jail with Some _ => _ | None => _ end).
  destruct (walk jail t true l base [name]) as [[p [[| |]|]]|] eqn:E; try done; apply walk_node in E; cbn in E.
  - by apply IH.
  - destruct (decide _) as [|Hp]; [done|]. destruct (w_mkdir env p); [done|].
    apply dec_stable in Hp. subst p. rewrite node_at_snoc in E.
    apply IH; [by apply tree_ok_mkdir|]. by rewrite node_at_snoc, lookup_insert_eq.
Qed.

Lemma ensureParentDir_ok rootReal rel t : tree_ok t → tree_ok (ensureParentDir lim env rootReal rel t).1.
Proof.
  intros Ht. unfold ensureParentDir. destruct (_ || _); [done|]. destruct (ResolveUnderRoot _ _ _ _); [|done].
  destruct (is_ok _); [done|]. pose proof (MkdirAll_ok None t [] (Join_path rootReal
    (logicalPath (Dir_of (default rel (CutPrefix rel "./"))))) Ht eq_refl) as H.
  by destruct (MkdirAll _ _ _ _ _ _) as [t' []].
Qed.

Lemma plan_edit_ok root rootReal edit rel action t : tree_ok t →
  tree_ok (plan_edit lim env root rootReal edit rel action t).1.
Proof.
  intros Ht. unfold plan_edit. destruct (ResolveUnderRoot _ _ _ _); [|done].
  destruct action, (Lstat lim t a); try done.
  - case_decide; [done|]. pose proof (ensureParentDir_ok rootReal rel t Ht).
    by destruct (ensureParentDir _ _ _ _ _) as [? []].
  - destruct (ReadFile _ _ _ _); [|done]. by case_decide.
  - destruct (ReadFile _ _ _ _); [|done]. by repeat case_decide.
Qed.

Lemma grows_dir t t' p : grows t t' → node_at t p = Some Dir → node_at t' p = Some Dir.
Proof. intros Hg. destruct p as [|x p]; [done|]. cbn. intros H. by destruct (Hg (x :: p)) as [->|[? _]]; [|congruence]. Qed.

Lemma grows_dir_at t t' p : grows t t' → dir_at t p → dir_at t' p.
Proof. intros Hg [Ha Hd]. split; [|by eapply grows_dir]. intros k Hk. eapply grows_dir; [done|]. by apply Ha. Qed.

Lemma grows_clear t t' r names : grows t t' → clear_way t r names → clear_way t' r names.
Proof. intros Hg H k tg. destruct (Hg (r ++ take k names)) as [->|[_ ->]]; [apply H|done]. Qed.

Definition edit_path (e : FileEdit) : string := logicalPath (TrimSpace (Path e)).

(** No link lies on the way to the file of an edit. *)
Definition straight (t : tree) (r : abspath) (e : FileEdit) : Prop :=
  clear_way t r (clean_parts false (edit_path e)).

Lemma logicalPath_clean x : IsAbs (logicalPath x) = false →
  ∃ k names, logicalPath x = render (replicate k ".." ++ names) ∧ Forall plain names.
Proof.
  unfold logicalPath. case_decide; [intros _; by exists 0%nat, []|].
  set (y := TrimSpace x) in *. destruct (IsAbs y) eqn:E.
  - unfold Clean. rewrite decide_False, E by done. by rewrite (HasPrefix_app "/") || (unfold IsAbs; rewrite (HasPrefix_app "/")).
  - rewrite Clean_rel by done. intros _. destruct (clean_parts_shape false y) as (k & names & -> & ?). by exists k, names.
Qed.

Lemma resolved_spot t root r e abs : Forall plain root → EvalSymlinks lim t root = Ok r → dir_at t r →
  edit_path e ≠ "." → edit_path e ≠ "" → straight t r e →
  ResolveUnderRoot lim t root (edit_path e) = Ok abs →
  spot r (edit_path e) abs ∧ clear_to t r abs.
Proof.
  intros Hp He Hr Hd Hne Hs H. apply ResolveUnderRoot_ok in H as (r' & E & H); [|done].
  rewrite He in E. injection E as <-. destruct H as [[[?|?] _]|(names & q & Ha & Hc & Hn & -> & Hpl & H)]; [done..|].
  destruct (logicalPath_clean _ Ha) as (k & names' & Erel & Hn'). fold (edit_path e) in Erel.
  assert (clean_parts false (edit_path e) = replicate k ".." ++ names') as Ec
    by (rewrite Erel; by apply clean_parts_render).
  unfold straight in Hs. rewrite Clean_rel, Ec in Hc by done. rewrite Ec in Hs.
  assert (replicate k ".." ++ names' = names) as En.
  { apply (f_equal (clean_parts false)) in Hc. rewrite clean_parts_render in Hc by done.
    pose proof (clean_parts_render 0 names Hn) as E1. cbn [replicate app] in E1. congruence. }
  rewrite En in Hs, Erel. clear Ec En Hc k names' Hn'.
  assert (names ≠ []) by (intros ->; by apply Hd; rewrite Erel).
  assert (r ++ q = r ++ names) as ->.
  { destruct H as [[_ H]|[_ H]]; [|done]. unfold EvalSymlinks in H.
    rewrite walk_down in H; [|by destruct (EvalSymlinks_ok lim t root r (plain_no_sep _ Hp) He)|done]. cbn [app] in H.
    destruct (walk _ _ _ _ _ _) as [[x [n|]]|] eqn:E; [|done..]. injection H as <-.
    apply straight_walk in E as [E _]; [by injection E|done|done|by destruct Hr]. }
  split; [by exists names|]. intros names2 E2. apply app_inv_head in E2 as <-. done.
Qed.

Lemma plan_edits_ok root rootReal r edits seen total t t' ps : Forall plain root →
  EvalSymlinks lim t root = Ok r → dir_at t r → tree_ok t → (∀ e, e ∈ edits → straight t r e) →
  plan_edits lim env root rootReal edits seen total t = (t', Ok ps) →
  tree_ok t' ∧ ∀ p, p ∈ ps → spot r (pe_rel p) (pe_abs p) ∧ clear_to t' r (pe_abs p).
Proof.
  intros Hp. revert seen total t t' ps. induction edits as [|e edits IH]; intros seen total t t' ps He Hr Ht Hs H; cbn in H.
  { injection H as <- <-. split; [done|]. by intros p Hp'%elem_of_nil. }
  destruct (check_edit e seen total) as [[[rel action] total']|] eqn:Ec; [|done].
  pose proof (plan_edit_grows lim env root rootReal e rel action t) as Hg1.
  pose proof (plan_edit_ok root rootReal e rel action t Ht) as Ht1.
  destruct (plan_edit _ _ _ _ _ _ _ _) as [t1 [p|]] eqn:Ep; [|done]. cbn in Hg1, Ht1.
  destruct (plan_edits _ _ _ _ _ _ _ _) as [t2 [qs|]] eqn:Eq; [|done]. injection H as <- <-.
  pose proof (plan_edits_grows lim env root rootReal edits (rel :: seen) total' t1) as Hg2. rewrite Eq in Hg2. cbn in Hg2.
  apply IH in Eq as [Ht2 Hqs]; [|by eapply EvalSymlinks_grows|by eapply grows_dir_at|done|].
  - split; [done|]. intros q [->|Hq]%elem_of_cons; [|by apply Hqs].
    apply check_edit_ok in Ec as (Hrel & _ & _ & _ & Hd & _ & _ & _ & Hne). apply plan_edit_rel in Ep as (Er & _ & Ea & _).
    fold (edit_path e) in Hrel. subst rel. rewrite Er.
    assert (straight t r e) as Hse by (apply Hs; by left).
    destruct (resolved_spot _ _ _ _ _ Hp He Hr Hd Hne Hse Ea) as [? Hc].
    split; [done|]. intros names E. apply (grows_clear t); [by etrans|]. by apply Hc.
  - intros q Hq. eapply grows_clear; [done|]. apply Hs. by right.
Qed.
End validation.

(** What a validated edit is about to do, in the tree validation leaves. *)
Definition planned_as (t : tree) (e : FileEdit) (p : plannedEdit) : Prop :=
  edit_path e = pe_rel p ∧ action_of e = Some (pe_action p) ∧
  match pe_action p with
  | Create => pe_newContent p = NewText e
  | Delete => ∃ m, t !! pe_abs p = Some (File (OldText e) m)
  | Replace => ∃ c m, t !! pe_abs p = Some (File c m) ∧ Count c (OldText e) = 1%nat ∧
      pe_newContent p = Replace1 c (OldText e) (NewText e)
  end.

Lemma planned_as_grows t t' e p : grows t t' → planned_as t e p → planned_as t' e p.
Proof.
  intros Hg (? & ? & H). split; [done|]. split; [done|].
  assert (∀ c m, t !! pe_abs p = Some (File c m) → t' !! pe_abs p = Some (File c m)) as Hk.
  { intros c m Hc. by destruct (Hg (pe_abs p)) as [->|[? _]]; [|congruence]. }
  destruct (pe_action p); [done|destruct H as [m H]; eauto|destruct H as (c & m & ? & ?); eauto 10].
Qed.

Lemma ReadFile_spot lim env t r rel a c : Forall plain r → dir_at t r → spot r rel a → clear_to t r a → tree_ok t →
  ReadFile lim env t a = Ok c → ∃ m, t !! a = Some (File c m).
Proof.
  intros Hp Hr Hsp Hc Ht H. unfold ReadFile, Stat in H. destruct (w_read env a); [done|].
  destruct (stat lim t true a) as [[c' m| |]|] eqn:E; try done. injection H as ->.
  apply (stat_spot lim t r rel a true) in E; [by exists m|done..].
Qed.

Lemma plan_edits_as lim env root rootReal r edits seen total t t' ps : Forall plain root →
  EvalSymlinks lim t root = Ok r → dir_at t r → tree_ok t → (∀ e, e ∈ edits → straight t r e) →
  plan_edits lim env root rootReal edits seen total t = (t', Ok ps) → Forall2 (planned_as t') edits ps.
Proof.
  intros Hp. revert seen total t t' ps. induction edits as [|e edits IH]; intros seen total t t' ps He Hr Ht Hs H; cbn in H.
  { injection H as <- <-. constructor. }
  destruct (check_edit e seen total) as [[[rel action] total']|] eqn:Ec; [|done].
  pose proof (plan_edit_grows lim env root rootReal e rel action t) as Hg1.
  pose proof (plan_edit_ok lim env root rootReal e rel action t Ht) as Ht1.
  destruct (plan_edit _ _ _ _ _ _ _ _) as [t1 [p|]] eqn:Ep; [|done]. cbn in Hg1, Ht1.
  destruct (plan_edits _ _ _ _ _ _ _ _) as [t2 [qs|]] eqn:Eq; [|done]. injection H as <- <-.
  pose proof (plan_edits_grows lim env root rootReal edits (rel :: seen) total' t1) as Hg2. rewrite Eq in Hg2. cbn in Hg2.
  constructor.
  - eapply planned_as_grows; [exact Hg2|]. eapply planned_as_grows; [exact Hg1|].
    apply check_edit_ok in Ec as (Hrel & _ & _ & Hact & Hd & _ & _ & _ & Hne).
    fold (edit_path e) in Hrel. subst rel. pose proof (plan_edit_rel _ _ _ _ _ _ _ _ _ _ Ep) as (Er & Ea & Eabs & Hcr).
    split; [done|]. split; [by rewrite Ea|]. assert (straight t r e) as Hse by (apply Hs; by left).
    destruct (resolved_spot _ _ _ _ _ _ Hp He Hr Hd Hne Hse Eabs) as [Hsp Hc].
    assert (Forall plain r) as Hpr by by apply (EvalSymlinks_ok lim t root r (plain_no_sep _ Hp) He).
    rewrite Ea. unfold plan_edit in Ep. rewrite Eabs in Ep. destruct action; [by apply Hcr| |].
    + destruct (Lstat _ _ _); [|done]. destruct (ReadFile _ _ _ _) as [c|] eqn:E; [|done].
      case_decide as Hold; [done|]. subst c. by eapply ReadFile_spot.
    + destruct (Lstat _ _ _); [|done]. destruct (ReadFile _ _ _ _) as [c|] eqn:E; [|done].
      case_decide; [done|]. case_decide; [done|]. injection Ep as _ <-. cbn [pe_newContent pe_abs] in *.
      eapply ReadFile_spot in E as [m Hm]; [|done..]. exists c, m. split; [done|]. split; [lia|done].
  - eapply IH; [..|exact Eq]; [by eapply EvalSymlinks_grows|by eapply grows_dir_at|done|].
    intros q Hq. eapply grows_clear; [exact Hg1|]. apply Hs. by right.
Qed.

(** Resolutions that end in a directory only read directories and links. *)
Lemma walk_keeps jail t t' follow links base todo x :
  (∀ p n, t !! p = Some n → (∀ c m, n ≠ File c m) → t' !! p = Some n) →
  walk jail t follow links base todo = Ok x → x.2 = Some Dir → walk jail t' follow links base todo = Ok x.
Proof.
  intros Hs. apply (walk_rect jail t follow (λ links base todo x, x.2 = Some Dir →
    walk jail t' follow links base todo = Ok x)); clear x base todo links.
  - intros links base Hn. cbn in Hn. rewrite walk_nil, Hn. do 2 f_equal.
    destruct base; [done|]. cbn in Hn |- *. by apply Hs.
  - intros links base part rest x Hp IH Hx. rewrite walk_cons.
    destruct Hp as [-> | ->]; cbn [bool_decide orb]; by apply IH.
  - intros links base rest x Hj IH Hx. rewrite walk_cons. cbn.
    rewrite (bool_decide_eq_false_2 (jail = Some base)) by done. by apply IH.
  - intros links base part o _ _ Hc Hx. cbn in Hx. by rewrite Hx in Hc.
  - intros links base part rest x (?&?&?) Hn IH Hx.
    rewrite walk_cons, !bool_decide_eq_false_2, decide_False by done. cbn. rewrite (Hs _ _ Hn) by done. by apply IH.
  - intros links base part rest target x (?&?&?) Hn Hr IH Hx.
    rewrite walk_cons, (bool_decide_eq_false_2 (part = "")), (bool_decide_eq_false_2 (part = ".")), decide_False by done.
    cbn. rewrite (Hs _ _ Hn) by done. destruct (bool_decide (rest = []) && negb follow) eqn:E.
    + apply andb_true_iff in E as [E1%bool_decide_eq_true ->%negb_true_iff]. by destruct Hr.
    + destruct IH as [(-> & -> & IH)|(-> & IH)]; by apply IH.
Qed.

Lemma openWorkspaceRoot_changed lim A t t' root r r' : changed A t t' →
  openWorkspaceRoot lim t root = Ok r → openWorkspaceRoot lim t' root = Ok r' → r' = r.
Proof.
  intros [HA Hc]. unfold openWorkspaceRoot, OpenRoot.
  destruct (walk None t _ _ _ _) as [[x [[| |]|]]|] eqn:E; try done. intros [= <-].
  apply (walk_keeps _ _ t') in E; [|by clear E; intros p n Hn Hf; rewrite Hc; [|intros (_ & Hl & _)%HA;
    rewrite Hn in Hl; destruct n; [by eapply Hf|done..]]|done].
  rewrite E. by intros [= <-].
Qed.
