(* ===== verification/PatchSpec.v ===== *)
(** * What the patch tools show

    Containment in the workspace, what an applied patch leaves, rollback, what a
    failed patch leaves, and the checkpoints that are kept. *)

From S2P Require Import Prelude GoStrings Json GoPath Paths FileOps FileSpec Patch PatchInv PatchState.
Open Scope Z_scope.

(** C12. A patch stays in its workspace. Whatever links the edited paths lead
    through and whatever fails on the way, applying, previewing or rolling back
    changes no file outside the real workspace root: at most directories are
    added there (by the parents of a created file). A preview changes no file
    at all, and no edit of an accepted patch names a sensitive path. *)
Theorem patch_contained lim s sha256hex env undo workspace root edits preview confirm d r :
  limits_ok lim → Forall plain root → EvalSymlinks lim (d_tree d) root = Ok r →
  (let '(d', res) := applyPatch lim s sha256hex env undo workspace root edits preview confirm d in
   outside r (d_tree d) (d_tree d') ∧
   (preview = true → grows (d_tree d) (d_tree d') ∧ d_blobs d' = d_blobs d ∧ d_store d' = d_store d) ∧
   ∀ ok, res = Ok ok → ∀ f, f ∈ Files ok → isSensitivePath (ps_Path f) = false) ∧
  ∀ id, outside r (d_tree d) (d_tree (rollbackPatch lim s env workspace root id d).1).
Proof.
  intros Hl Hp He. split; [|intros id; by apply rollbackPatch_outside].
  pose proof (applyPatch_outside lim s sha256hex env undo workspace root edits preview confirm d r Hl Hp He) as Ho.
  destruct (applyPatch _ _ _ _ _ _ _ _ _ _ _) as [d' res] eqn:E. cbn [fst] in Ho. split; [exact Ho|].
  unfold applyPatch in E. pose proof (plan_grows lim env s workspace root edits preview confirm (d_tree d)) as Hg.
  destruct (plan _ _ _ _ _ _ _ _ _) as [t0 [ps|e]] eqn:Epl; cbn [fst] in Hg; [|by injection E as <- <-].
  assert (∀ f, f ∈ summaries ps → isSensitivePath (ps_Path f) = false) as Hs.
  { apply plan_inv in Epl as (_ & _ & rr & Epl).
    intros f Hf. apply list_elem_of_fmap in Hf as (p & -> & Hin).
    apply plan_edits_paths in Epl as (_ & _ & Hps). by apply (Hps p Hin). }
  destruct preview; [injection E as <- <-; split; [done|by intros ok [= <-]]|].
  split; [done|]. intros ok ->. unfold commit in E. destruct (createCheckpoint _ _ _ _ _ _) as [d1 [cp|]]; [|done].
  destruct (openWorkspaceRoot _ _ _); [|done]. destruct (write_edits _ _ _ _ _ _ _ _) as [d2 []]; [|done].
  by injection E as _ <-.
Qed.

(** ** Along paths without links *)

(** The contents on a disk: those of its files and of its blobs. *)
Definition held (d : disk) (c : string) : Prop :=
  (∃ a m, d_tree d !! a = Some (File c m)) ∨ ∃ name, d_blobs d !! name = Some c.

(** A state of a disk in which the files of [edits] are reached through
    directories only: [root] leads to the directory [r], the tree is a tree, no
    link lies on the way, every blob is named by its digest, and no two contents
    on the disk collide. *)
Record settled (lim : limits) (sha256hex : string → string) (root r : abspath) (edits : list FileEdit) (d : disk) : Prop := {
  st_limits : limits_ok lim;
  st_digest : ∀ c, isBlobName (sha256hex c) = true;
  st_plain : Forall plain root;
  st_root : EvalSymlinks lim (d_tree d) root = Ok r;
  st_dir : dir_at (d_tree d) r;
  st_tree : tree_ok (d_tree d);
  st_straight : ∀ e, e ∈ edits → straight (d_tree d) r e;
  st_blobs : ∀ name c, d_blobs d !! name = Some c → name = sha256hex c;
  st_collision : ∀ c c', held d c → held d c' → sha256hex c = sha256hex c' → c = c'
}.

(** A node after a patch and its undoing: contents are back, a file that had to
    be created again lost the permissions the umask forbids, and directories may
    have come where nothing was. *)
Definition undone (env : write_env) (o o' : option node) : Prop :=
  match o with
  | None => o' = None ∨ o' = Some Dir
  | _ => restored env o o'
  end.

Lemma undone_same (env : write_env) (t t0 : tree) a : grows t t0 → undone env (t !! a) (t0 !! a).
Proof.
  intros Hg. destruct (Hg a) as [->|[-> ->]]; [|by right].
  destruct (t !! a) as [[c m| |]|]; cbn; [|done..|by left]. exists m. auto.
Qed.

Lemma undone_restored (env : write_env) (t t0 : tree) a o : grows t t0 → leaf (t0 !! a) → restored env (t0 !! a) o →
  undone env (t !! a) o.
Proof.
  intros Hg Hl Hr. destruct (Hg a) as [E|[E E']]; [|by rewrite E' in Hl]. rewrite <-E. unfold undone.
  destruct (t0 !! a) as [[]|]; [done..|]. by left.
Qed.

(** A state between validation and restoration, undone for some of the edits. *)
Lemma undone_all (env : write_env) (t t0 t' t1 : tree) (ps : list plannedEdit) b : grows t t0 → restores env ps t0 t' t1 →
  (b ∈ pe_abs <$> ps → leaf (t0 !! b)) → (b ∉ pe_abs <$> ps → t' !! b = t0 !! b) → undone env (t !! b) (t1 !! b).
Proof.
  intros Hg [Hc Hr] Hl Hoff. destruct (decide (b ∈ pe_abs <$> ps)) as [Hb|Hb].
  - pose proof (Hl Hb). apply list_elem_of_fmap in Hb as (p & -> & Hp). eapply undone_restored; [done..|by apply Hr].
  - rewrite (proj2 Hc b Hb), Hoff by done. by apply undone_same.
Qed.

Section runs.
Context (lim : limits) (s : Service) (sha256hex : string → string).
Context (root r : abspath) (edits : list FileEdit) (d : disk).
Context (Hd : settled lim sha256hex root r edits d).

Lemma targets_distinct ps : NoDup (pe_rel <$> ps) → (∀ p, p ∈ ps → spot r (pe_rel p) (pe_abs p)) → NoDup (pe_abs <$> ps).
Proof.
  induction ps as [|p ps IH]; intros Hn Hsp; [constructor|].
  rewrite !fmap_cons in *. apply NoDup_cons in Hn as [Hp Hn]. constructor.
  - intros (q & E & Hq)%list_elem_of_fmap. apply Hp. apply list_elem_of_fmap. exists q. split; [|done].
    eapply spot_inj; [apply Hsp; by left|]. rewrite E. apply Hsp. by right.
  - apply IH; [done|]. intros q Hq. apply Hsp. by right.
Qed.

(** The course of a patch that is applied or fails while writing. *)
Record course (env undo : write_env) (workspace : string) (d' : disk) (res : result patch_err ApplyPatchResult) (t0 : tree)
    (d0 : disk) (cp : checkpoint) (ps : list plannedEdit) : Prop := {
  co_grows : grows (d_tree d) t0;
  co_planned : Forall2 (planned_as t0) edits ps;
  co_rels : NoDup (pe_rel <$> ps);
  co_dir : dir_at t0 r;
  co_writable : writable r t0 ps;
  co_tree : d_tree d0 = t0;
  co_entries : Forall2 (entry (d_blobs d0) t0) ps (cp_Files cp);
  co_id : cp_ID cp = w_id env ∧ cp_Workspace cp = workspace;
  co_store : ∃ cps, loadCheckpointStore env d = Some cps ∧
    d_store d0 = Checkpoints (drop (length cps + 1 - maxCheckpointsKept) cps ++ [cp]);
  co_open : openWorkspaceRoot lim t0 root = Ok r;
  co_writes : ∃ ps1 ps2 t, ps = ps1 ++ ps2 ∧ wrote ps1 t0 t ∧
    match ps2 with
    | [] => d' = set_tree t d0 ∧ res = Ok {| Applied := true; Preview := false; Diff := "";
                                             Files := summaries ps; CheckpointID := cp_ID cp |}
    | p :: _ => ∃ t', res = Err (PWriteFailed (pe_rel p) (cp_ID cp)) ∧ only_at (pe_abs p) t t' ∧
        (t' = t ∨ pe_action p ≠ Delete ∧ (pe_action p = Create → t !! pe_abs p = None) ∧
           ∃ n m, t' !! pe_abs p = Some (File (first_bytes n (pe_newContent p)) m)) ∧
        d' = restorePartial lim undo r ps1 cp (set_tree t' d0)
    end
}.

Lemma applyPatch_course env undo workspace confirm d' res :
  applyPatch lim s sha256hex env undo workspace root edits false confirm d = (d', res) →
  (∃ t0 d0 cp ps, course env undo workspace d' res t0 d0 cp ps) ∨
  (∃ e, res = Err e ∧ write_failed e = false ∧ grows (d_tree d) (d_tree d')).
Proof.
  destruct Hd as [Hlim Hhex Hp He Hr Ht Hs Hb Hinj]. intros H. unfold applyPatch in H.
  pose proof (plan_grows lim env s workspace root edits false confirm (d_tree d)) as Hg.
  destruct (plan _ _ _ _ _ _ _ _ _) as [t0 [ps|e]] eqn:Epl; cbn [fst] in Hg;
    [|injection H as <- <-; right; exists e; split; [done|]; split; [by eapply plan_err|done]].
  apply plan_inv in Epl as (_ & _ & rr & Epl).
  pose proof (plan_edits_paths _ _ _ _ _ _ _ _ _ _ Epl) as (_ & Hrel & _).
  pose proof (plan_edits_as _ _ _ _ _ _ _ _ _ _ _ Hp He Hr Ht Hs Epl) as Has.
  destruct (plan_edits_ok _ _ _ _ _ _ _ _ _ _ _ Hp He Hr Ht Hs Epl) as [Ht0 Hps].
  pose proof (EvalSymlinks_grows _ _ _ _ _ Hg He) as He0.
  pose proof (grows_dir_at _ _ _ Hg Hr) as Hr0.
  assert (Forall plain r) as Hpr by by apply (EvalSymlinks_ok lim (d_tree d) root r (plain_no_sep _ Hp) He).
  unfold commit in H. pose proof (createCheckpoint_tree lim env sha256hex workspace ps (set_tree t0 d)) as Htr.
  destruct (createCheckpoint _ _ _ _ _ _) as [d0 [cp|e]] eqn:Ecp; cbn in Htr;
    [|injection H as <- <-; right; exists e; split; [done|]; split; [by eapply createCheckpoint_err|by rewrite Htr]].
  apply (createCheckpoint_ok lim env sha256hex r Hhex (held d) Hinj) in Ecp as (Hl & Hent & _ & Hid & Hws & Hstore);
    [|done..| |intros name c Hc; split; [by eapply Hb|right; by exists name]].
  2:{ intros a c m Hc. left. exists a, m. cbn in Hc. by destruct (Hg a) as [<-|[_ ?]]; [|congruence]. }
  cbn [d_tree set_tree] in Hl, Hent.
  destruct (openWorkspaceRoot _ _ _) as [r'|e] eqn:Eo; [|injection H as <- <-; right; eexists; split; [done|]; split; [done|by rewrite Htr]].
  rewrite Htr in Eo. destruct Hlim as [Hl1 Hl2].
  pose proof (openWorkspaceRoot_grows lim _ _ _ r r' Hl2 Hp Hg He Eo) as ->. left. exists t0, d0, cp, ps.
  assert (writable r t0 ps) as Hw.
  { split; [by apply targets_distinct; [|intros p Hin; apply Hps]|]. intros p Hin. destruct (Hps p Hin). auto. }
  split; try done.
  destruct (write_edits _ _ _ _ _ _ _ _) as [d2 res2] eqn:Ew.
  apply write_edits_run in Ew as (ps1 & ps2 & t & E & Hwr & Hres); [|by rewrite Htr..].
  rewrite Htr in Hwr. exists ps1, ps2, t. split; [done|]. split; [done|]. destruct ps2 as [|p ps2].
  - destruct Hres as [-> ->]. by injection H as <- <-.
  - destruct Hres as (t' & -> & ? & ? & ->). injection H as <- <-. by exists t'.
Qed.

End runs.

Lemma find_last {A} (P : A → bool) l x : (∀ y, y ∈ l → P y = false) → P x = true → find P (l ++ [x]) = Some x.
Proof.
  intros Hl Hx. induction l as [|y l IH]; cbn; [by rewrite Hx|]. rewrite (Hl y) by by left.
  apply IH. intros z Hz. apply Hl. by right.
Qed.

(** The id drawn for a checkpoint is new in its workspace. *)
Definition fresh_id (env : write_env) (workspace : string) (d : disk) : Prop :=
  ∀ cps cp, d_store d = Checkpoints cps → cp ∈ cps → cp_ID cp = w_id env → cp_Workspace cp ≠ workspace.

(** C34. Rolling back an applied patch brings every file back. When a patch was
    applied along paths without links and the rollback of its checkpoint
    succeeds, every path of the tree has what it had before: the same contents,
    and the same permissions unless the file had to be created again, which the
    umask restricts. Only directories made for created files stay. *)
Theorem apply_rollback_roundtrip lim s sha256hex root r edits d env undo env' workspace confirm d1 ok d2 back :
  settled lim sha256hex root r edits d → fresh_id env workspace d → (∀ a, w_open env' a ≠ Some ENOENT) →
  applyPatch lim s sha256hex env undo workspace root edits false confirm d = (d1, Ok ok) →
  rollbackPatch lim s env' workspace root (CheckpointID ok) d1 = (d2, Ok back) →
  RolledBack back = true ∧ ∀ a, undone env' (d_tree d !! a) (d_tree d2 !! a).
Proof.
  intros Hd Hfresh Hh Ha Hb. apply (applyPatch_course _ _ _ _ r) in Ha as [(t0 & d0 & cp & ps & H)|(e & ? & _)]; [|done..].
  destruct H as [Hg _ _ Hr Hw Htr Hent [Hid Hws] (cps & Hload & Hstore) Hopen (ps1 & ps2 & t & E & Hwr & Hres)].
  destruct ps2 as [|p ps2]; [|by destruct Hres as (? & ? & _)]. rewrite app_nil_r in E. subst ps1.
  destruct Hres as [-> [= ->]]. cbn [CheckpointID] in Hb. unfold rollbackPatch in Hb.
  destruct (negb _); [done|]. unfold loadCheckpointStore at 1 in Hb. cbn [d_store set_tree] in Hb.
  destruct (w_store_read env'); [done|]. rewrite Hstore, find_last in Hb.
  - destruct (openWorkspaceRoot lim (d_tree (set_tree t d0)) root) as [r'|] eqn:Eo; [|done].
    cbn [d_tree set_tree] in Eo. destruct Hwr as [Hc Hwr]. rewrite (openWorkspaceRoot_changed _ _ _ _ _ _ _ Hc Hopen Eo) in Hb.
    apply (rollback_files_run lim env' r ps _ _ _ t0) in Hb as [[Hc2 Hback] Hrb]; [| |by eapply changed_dir_at| |done].
    + split; [done|]. intros a. eapply undone_all; [exact Hg|by split| |by intros; apply Hc].
      intros (p & -> & Hp)%list_elem_of_fmap. by apply Hw.
    + done.
    + split; [apply Hw|]. intros p Hp. destruct (Hwr p Hp) as [Hab [Ht _]].
      split; [by apply Hw|]. split; [by eapply changed_above|done].
  - intros y Hy. apply andb_false_iff. rewrite !bool_decide_eq_false, Hid.
    destruct (decide (cp_ID y = w_id env)) as [Hy1|]; [right|by left].
    apply subseteq_drop in Hy. unfold loadCheckpointStore in Hload. destruct (w_store_read env); [done|].
    destruct (d_store d) as [| |cps'] eqn:Ed; [|done|].
    + injection Hload as <-. by apply elem_of_nil in Hy.
    + injection Hload as ->. by eapply Hfresh.
  - by rewrite Hws, !bool_decide_eq_true_2.
Qed.

(** What is left at the spot of an edit whose write failed: what was there, or the
    first bytes of what it was to become. *)
Definition half_written (e : FileEdit) (o o' : option node) : Prop :=
  ∃ n m, o' = Some (File (first_bytes n
    (match o with Some (File c _) => Replace1 c (OldText e) (NewText e) | _ => NewText e end)) m).

(** C39. A patch that fails while writing is undone, except for the file that
    failed. When the restoration itself meets no error, every path has again
    what it had before, but for the one of the edit that could not be written:
    its file is as it was, or holds the first bytes of its new content. *)
Theorem failed_patch_undone lim s sha256hex root r edits d env undo workspace confirm d1 rel id :
  settled lim sha256hex root r edits d → calm undo →
  applyPatch lim s sha256hex env undo workspace root edits false confirm d = (d1, Err (PWriteFailed rel id)) →
  ∃ e a, e ∈ edits ∧ edit_path e = rel ∧ spot r rel a ∧
    (undone undo (d_tree d !! a) (d_tree d1 !! a) ∨ half_written e (d_tree d !! a) (d_tree d1 !! a)) ∧
    ∀ b, b ≠ a → undone undo (d_tree d !! b) (d_tree d1 !! b).
Proof.
  intros Hd Hcalm Ha. apply (applyPatch_course _ _ _ _ r) in Ha as [(t0 & d0 & cp & ps & H)|(e & [= <-] & ? & _)]; [|done..].
  destruct H as [Hg Has Hrel Hr Hw Htr Hent [Hid Hws] _ Hopen (ps1 & ps2 & t & E & Hwr & Hres)].
  destruct ps2 as [|p ps2]; [by destruct Hres|]. destruct Hres as (t' & [= -> ->] & Ho & Hhalf & ->).
  assert (p ∈ ps) as Hin by (rewrite E; apply elem_of_app; right; by left).
  assert (∃ e, e ∈ edits ∧ planned_as t0 e p) as (e & He & Hpe & Hact & Hplan).
  { apply list_elem_of_lookup_1 in Hin as [i Hi]. destruct (Forall2_lookup_r _ _ _ _ _ Has Hi) as (e & He & ?).
    exists e. split; [by eapply list_elem_of_lookup_2|done]. }
  destruct Hwr as [Hc1 Hwr]. pose proof (changed_trans _ _ _ _ _ Hc1 (only_at_changed _ _ _ Ho)) as Hc.
  destruct Hw as [Hnd Hw]. rewrite E, fmap_app, fmap_cons in Hnd.
  apply NoDup_app in Hnd as (Hnd1 & Hdis & Hnd2). apply NoDup_cons in Hnd2 as [Hnp _].
  assert (pe_abs p ∉ pe_abs <$> ps1) as Hp1 by (intros Hx; apply (Hdis _ Hx); by left).
  destruct (restorePartial_run lim undo r cp ps ps1 t0 (set_tree t' d0)) as [Hc2 Hback];
    [done|by eapply changed_dir_at|done|done|intros q Hq; rewrite E; apply elem_of_app; by left| |].
  { split; [done|]. intros q Hq. assert (q ∈ ps) as Hqp by (rewrite E; apply elem_of_app; by left).
    destruct (Hwr q Hq) as [Hab [Ht _]]. split; [by apply Hw|]. split; [by eapply changed_above|].
    destruct Ho as (_ & _ & _ & Ho). cbn. rewrite Ho; [done|]. intros Eq. apply Hp1. rewrite <-Eq.
    by apply list_elem_of_fmap_2. }
  set (d1 := restorePartial lim undo r ps1 cp (set_tree t' d0)) in *. cbn [d_tree set_tree] in Hc2.
  assert (restores undo ps1 t0 t' (d_tree d1)) as Hrest by done.
  exists e, (pe_abs p). split; [done|]. split; [done|]. split; [by apply Hw|]. split.
  - destruct Hhalf as [->|(Hnd' & Hcr & n & m & Hn)].
    + left. eapply undone_all; [exact Hg|exact Hrest|by intros ?%Hp1|]. intros _. by apply Hc1.
    + right. exists n, m. rewrite (proj2 Hc2 _ Hp1), Hn. do 3 f_equal.
      destruct (Hw p Hin) as (_ & _ & Hl). destruct (Hg (pe_abs p)) as [Eg|[Eg Eg']]; [|by rewrite Eg' in Hl].
      rewrite <-Eg. destruct (pe_action p) eqn:Eact; [|done|].
      * rewrite Hplan. specialize (Hcr eq_refl). by rewrite <-(proj2 Hc1 _ Hp1), Hcr.
      * destruct Hplan as (c & m' & -> & _ & ->). done.
  - intros b Hb. eapply undone_all; [exact Hg|exact Hrest| |].
    + intros (q & -> & Hq)%list_elem_of_fmap. apply Hw. rewrite E. apply elem_of_app. by left.
    + intros Hb1. destruct Ho as (_ & _ & _ & Ho). by rewrite Ho, (proj2 Hc1 b Hb1).
Qed.

(** ** What an applied patch leaves *)

Lemma Cut_spec s sub before after : Cut s sub = Some (before, after) → s = before +:+ sub +:+ after.
Proof.
  revert before. induction s as [|c s IH]; intros before H; cbn [Cut] in H;
    (destruct (CutPrefix _ _) as [x|] eqn:E; [injection H as <- <-; by apply CutPrefix_Some in E|]); [done|].
  destruct (Cut s sub) as [[b a]|]; [|done]. injection H as <- <-. by rewrite (IH b eq_refl) at 1.
Qed.

Lemma Count_pos s sub : Count s sub ≠ 0%nat → ∃ before after, Cut s sub = Some (before, after).
Proof. unfold Count. cbn [count_from]. destruct (Cut s sub) as [[b a]|]; [by eauto|done]. Qed.

(** The file of an edit before and after. *)
Definition edited (e : FileEdit) (o o' : option node) : Prop :=
  match action_of e with
  | Some Create => o = None ∧ ∃ m, o' = Some (File (NewText e) m)
  | Some Delete => (∃ m, o = Some (File (OldText e) m)) ∧ o' = None
  | Some Replace => ∃ before after m,
      o = Some (File (before +:+ OldText e +:+ after) m) ∧ Count (before +:+ OldText e +:+ after) (OldText e) = 1%nat ∧
      o' = Some (File (before +:+ NewText e +:+ after) m)
  | None => False
  end.

(** C35. What an applied patch leaves, along paths without links: every edit has
    done to its file exactly what it says, a creation where nothing was, a
    deletion of exactly the old text, a replacement of its only occurrence under
    the permissions the file had; no other file changed, and the answer lists
    the edited files. *)
Theorem patch_applied lim s sha256hex root r edits d env undo workspace confirm d1 ok :
  settled lim sha256hex root r edits d →
  applyPatch lim s sha256hex env undo workspace root edits false confirm d = (d1, Ok ok) →
  Applied ok = true ∧ (ps_Path <$> Files ok) = (edit_path <$> edits) ∧ NoDup (edit_path <$> edits) ∧
  (∀ e, e ∈ edits → ∃ a, spot r (edit_path e) a ∧ edited e (d_tree d !! a) (d_tree d1 !! a)) ∧
  ∀ b, (∀ e, e ∈ edits → ¬ spot r (edit_path e) b) →
    d_tree d1 !! b = d_tree d !! b ∨ d_tree d !! b = None ∧ d_tree d1 !! b = Some Dir.
Proof.
  intros Hd Ha. apply (applyPatch_course _ _ _ _ r) in Ha as [(t0 & d0 & cp & ps & H)|(e & ? & _)]; [|done..].
  destruct H as [Hg Has Hrel Hr Hw Htr Hent _ _ _ (ps1 & ps2 & t & E & [Hc Hwr] & Hres)].
  destruct ps2 as [|p ps2]; [|by destruct Hres as (? & ? & _)]. rewrite app_nil_r in E. subst ps1.
  destruct Hres as [-> [= ->]]. cbn [Applied Files d_tree set_tree].
  assert (pe_rel <$> ps = edit_path <$> edits) as Hpaths.
  { clear -Has. induction Has as [|e p edits ps [H _] _ IH]; [done|]. rewrite !fmap_cons, IH. by f_equal. }
  split; [done|]. split; [|split; [by rewrite <-Hpaths|split]].
  - unfold summaries. rewrite <-list_fmap_compose. by rewrite <-Hpaths.
  - intros e He. apply list_elem_of_lookup_1 in He as [i Hi].
    destruct (Forall2_lookup_l _ _ _ _ _ Has Hi) as (p & Hp & Hpath & Hact & Hplan).
    apply list_elem_of_lookup_2 in Hp. exists (pe_abs p). rewrite Hpath. destruct Hw as [_ Hw].
    destruct (Hw p Hp) as (Hsp & _ & Hl). split; [done|]. unfold edited. rewrite Hact.
    destruct (Hwr p Hp) as (_ & (_ & _ & Hmode) & Hcr & Hdel & Hcon).
    assert (d_tree d !! pe_abs p = t0 !! pe_abs p) as ->.
    { destruct (Hg (pe_abs p)) as [->|[_ E]]; [done|by rewrite E in Hl]. }
    destruct (pe_action p) eqn:Ea.
    + split; [by apply Hcr|]. rewrite <-Hplan. by apply Hcon.
    + split; [done|]. by apply Hdel.
    + destruct Hplan as (c & m & Hc0 & Hcount & Hnew). destruct (Count_pos c (OldText e)) as (b & a & Hcut); [by rewrite Hcount|].
      destruct Hcon as [m' Hm']; [done|]. rewrite (Hmode _ _ _ _ Hc0 Hm') in Hm'.
      pose proof (Cut_spec _ _ _ _ Hcut) as Hcc. unfold Replace1 in Hnew. rewrite Hcut in Hnew.
      exists b, a, m. rewrite <-Hcc. by rewrite Hm', Hnew.
  - intros b Hb. rewrite (proj2 Hc); [apply Hg|]. intros (p & -> & Hp)%list_elem_of_fmap.
    assert (pe_rel p ∈ edit_path <$> edits) as Hin by (rewrite <-Hpaths; by apply list_elem_of_fmap_2).
    apply list_elem_of_fmap in Hin as (e & Epath & He). apply (Hb e He). rewrite <-Epath. by apply Hw.
Qed.

(** ** The checkpoints that are kept *)

(** A checkpoint whose contents can all be restored. *)
Definition intact (blobs : gmap string string) (cp : checkpoint) : Prop :=
  ∀ f, f ∈ cp_Files cp → cf_Blob f ≠ "" → is_Some (blobs !! cf_Blob f).

(** At most twenty checkpoints are kept, and all of them are intact but for the
    oldest of a full list, whose blobs go first when a new one is written. *)
Definition store_ok (d : disk) : Prop :=
  match d_store d with
  | Checkpoints cps => (length cps ≤ maxCheckpointsKept)%nat ∧
      ∀ cp, cp ∈ drop (length cps + 1 - maxCheckpointsKept) cps → intact (d_blobs d) cp
  | _ => True
  end.

Lemma intact_mono blobs blobs' cp : blobs ⊆ blobs' → intact blobs cp → intact blobs' cp.
Proof. intros Hs H f Hf Hn. destruct (H f Hf Hn) as [c Hc]. exists c. by eapply lookup_weaken. Qed.

Lemma store_ok_blobs d d' : d_blobs d ⊆ d_blobs d' → d_store d' = d_store d → store_ok d → store_ok d'.
Proof.
  intros Hb Hs. unfold store_ok. rewrite Hs. destruct (d_store d); [done..|]. intros [? H]. split; [done|].
  intros cp Hcp. eapply intact_mono; [done|]. by apply H.
Qed.

Lemma store_ok_tree t d : store_ok d → store_ok (set_tree t d).
Proof. done. Qed.

Section kept.
Context (lim : limits) (s : Service) (sha256hex : string → string).

Lemma snapshot_blobs env p d : let d' := (snapshot lim env sha256hex p d).1 in
  d_blobs d ⊆ d_blobs d' ∧ d_store d' = d_store d ∧
  ∀ f, (snapshot lim env sha256hex p d).2 = Ok f → cf_Blob f ≠ "" → is_Some (d_blobs d' !! cf_Blob f).
Proof.
  unfold snapshot, storeBlob. destruct (Lstat _ _ _).
  - destruct (ReadFile _ _ _ _) as [c|]; [|done]. destruct (d_blobs d !! sha256hex c) eqn:E; cbn.
    + split; [done|]. split; [done|]. intros f [= <-] _. cbn. by rewrite E.
    + destruct (w_blob _ _); [done|]. cbn. split; [by apply insert_subseteq|]. split; [done|].
      intros f [= <-] _. cbn. by rewrite lookup_insert_eq.
  - case_decide; [|done]. cbn. split; [done|]. split; [done|]. by intros f [= <-].
Qed.

Lemma snapshots_blobs env ps d : let d' := (snapshots lim env sha256hex ps d).1 in
  d_blobs d ⊆ d_blobs d' ∧ d_store d' = d_store d ∧
  ∀ fs, (snapshots lim env sha256hex ps d).2 = Ok fs →
    ∀ f, f ∈ fs → cf_Blob f ≠ "" → is_Some (d_blobs d' !! cf_Blob f).
Proof.
  revert d. induction ps as [|p ps IH]; intros d; cbn [snapshots].
  { split; [done|]. split; [done|]. by intros fs [= <-] f Hf%elem_of_nil. }
  destruct (snapshot_blobs env p d) as (H1 & H2 & H3).
  destruct (snapshot _ _ _ _ _) as [d1 [f|]]; cbn in *; [|done].
  destruct (IH d1) as (G1 & G2 & G3). destruct (snapshots _ _ _ _ _) as [d2 [fs|]]; cbn in *.
  - split; [by etrans|]. split; [congruence|]. intros fs' [= <-] g [-> | Hg]%elem_of_cons Hn; [|by eapply G3].
    destruct (H3 f eq_refl Hn) as [c Hc]. exists c. by eapply lookup_weaken.
  - split; [by etrans|]. split; [congruence|done].
Qed.

Lemma appendCheckpoint_store_ok env cp d : store_ok d → intact (d_blobs d) cp →
  store_ok (appendCheckpoint env cp d).1 ∧
  (is_ok (appendCheckpoint env cp d).2 = true → ∃ cps, d_store (appendCheckpoint env cp d).1 = Checkpoints (cps ++ [cp]) ∧
     ∀ c, c ∈ cps ++ [cp] → intact (d_blobs (appendCheckpoint env cp d).1) c).
Proof.
  intros Hd Hcp. unfold appendCheckpoint, loadCheckpointStore. destruct (w_store_read env); [done|].
  set (prior := match d_store d with StoreMissing => Some [] | StoreBroken => None | Checkpoints cps => Some cps end).
  destruct prior as [cps|] eqn:Ep; [|done]. subst prior. rewrite retained_last.
  set (n := (length cps + 1 - maxCheckpointsKept)%nat). set (kept := drop n cps ++ [cp]).
  assert (∀ c, c ∈ kept → intact (d_blobs d) c) as Hk.
  { intros c [Hc|Hc%list_elem_of_singleton]%elem_of_app; [|by subst c]. destruct (d_store d) as [| |cps'] eqn:Es; [|done|].
    - injection Ep as <-. subst n. by apply elem_of_nil in Hc.
    - injection Ep as ->. unfold store_ok in Hd. rewrite Es in Hd. by apply Hd. }
  assert (∀ c, c ∈ kept → intact (d_blobs (pruneBlobs env kept d)) c) as Hk'.
  { intros c Hc f Hf Hn. destruct (Hk c Hc f Hf Hn) as [x Hx]. exists x. cbn.
    apply map_lookup_filter_Some. split; [done|]. left. apply elem_of_kept_blobs. split; [done|]. by exists c, f. }
  destruct (w_store_write env); cbn [fst snd is_ok].
  - split; [|done]. unfold store_ok. cbn [d_store pruneBlobs set_blobs]. unfold store_ok in Hd.
    destruct (d_store d) as [| |cps'] eqn:Es; [done..|]. injection Ep as ->. destruct Hd as [Hl _].
    split; [done|]. intros c Hc. apply Hk'. apply elem_of_app. by left.
  - split.
    + unfold store_ok. cbn [d_store set_store]. split.
      * subst kept n. rewrite length_app, length_drop. cbn. unfold maxCheckpointsKept. unfold store_ok in Hd.
        destruct (d_store d) as [| |cps'] eqn:Es; [injection Ep as <-; cbn; lia|done|]. injection Ep as ->.
        destruct Hd as [Hl _]. unfold maxCheckpointsKept in Hl. lia.
      * intros c Hc%subseteq_drop. by apply Hk'.
    + intros _. exists (drop n cps). by split.
Qed.

Lemma createCheckpoint_store_ok env workspace ps d : store_ok d →
  store_ok (createCheckpoint lim env sha256hex workspace ps d).1 ∧
  ∀ cp, (createCheckpoint lim env sha256hex workspace ps d).2 = Ok cp →
    ∃ cps, d_store (createCheckpoint lim env sha256hex workspace ps d).1 = Checkpoints (cps ++ [cp]) ∧
      ∀ c, c ∈ cps ++ [cp] → intact (d_blobs (createCheckpoint lim env sha256hex workspace ps d).1) c.
Proof.
  intros Hd. unfold createCheckpoint. destruct (snapshots_blobs env ps d) as (H1 & H2 & H3).
  destruct (snapshots _ _ _ _ _) as [d1 [fs|]]; cbn in H1, H2, H3; [|split; [by eapply store_ok_blobs|done]].
  set (cp := {| cp_ID := _ |}).
  destruct (appendCheckpoint_store_ok env cp d1) as [G1 G2]; [by eapply store_ok_blobs|by intros f Hf; apply (H3 fs)|].
  destruct (appendCheckpoint env cp d1) as [d2 [[]|]]; cbn in *; [|done]. split; [done|]. intros cp' [= <-]. by apply G2.
Qed.

Lemma restorePartial_store env r applied cp d :
  d_store (restorePartial lim env r applied cp d) = d_store d ∧ d_blobs (restorePartial lim env r applied cp d) = d_blobs d.
Proof.
  unfold restorePartial. revert d. induction applied as [|p applied IH]; intros d; [done|]. cbn [foldl].
  destruct (IH (foldl (λ d f, if decide (cf_Path f ≠ pe_rel p) then d else restore_file lim env r f d) d (cp_Files cp))) as [-> ->].
  generalize (cp_Files cp). intros fs. revert d. induction fs as [|f fs IHf]; intros d; [done|]. cbn [foldl].
  destruct (IHf (if decide (cf_Path f ≠ pe_rel p) then d else restore_file lim env r f d)) as [-> ->].
  case_decide; [done|]. unfold restore_file. destruct (cf_Absent f); [done|]. by destruct (loadBlob _ _ _).
Qed.

Lemma write_edits_store env undo r cp ps applied d :
  d_store (write_edits lim env undo r cp ps applied d).1 = d_store d ∧
  d_blobs (write_edits lim env undo r cp ps applied d).1 = d_blobs d.
Proof.
  revert applied d. induction ps as [|p ps IH]; intros applied d; cbn [write_edits]; [done|].
  destruct (write_edit _ _ _ _ _) as [t []]; [apply (IH _ (set_tree t d))|apply (restorePartial_store _ _ _ _ (set_tree t d))].
Qed.

Lemma rollback_files_store env r fs res d :
  d_store (rollback_files lim env r fs res d).1 = d_store d ∧ d_blobs (rollback_files lim env r fs res d).1 = d_blobs d.
Proof.
  revert res d. induction fs as [|f fs IH]; intros res d; cbn [rollback_files]; [done|]. destruct (cf_Absent f).
  - destruct (root_Remove _ _ _ _ _) as [t [|[]]]; try done; apply (IH _ (set_tree t d)).
  - destruct (loadBlob _ _ _); [|done]. destruct (MkdirAll _ _ _ _ _ _) as [t1 []]; [|done].
    destruct (root_WriteFile _ _ _ _ _ _ _) as [t2 []]; [apply (IH _ (set_tree t2 d))|done].
Qed.
End kept.

(** The calls that change a disk, with whatever fails in them. *)
Inductive patch_step (lim : limits) (s : Service) (sha256hex : string → string) : disk → disk → Prop :=
| step_apply env undo workspace root edits preview confirm d :
    patch_step lim s sha256hex d (applyPatch lim s sha256hex env undo workspace root edits preview confirm d).1
| step_rollback env workspace root id d :
    patch_step lim s sha256hex d (rollbackPatch lim s env workspace root id d).1.

(** The checkpoint store is bounded and sound. Over any sequence of patches
    and rollbacks, whatever fails in them, at most twenty checkpoints are kept
    and the contents of all of them are there, but for the oldest one of a full
    list; and right after an applied patch the last one is the patch's and
    every one is intact. *)
Theorem checkpoints_retained lim s sha256hex d d' : store_ok d → rtc (patch_step lim s sha256hex) d d' →
  store_ok d' ∧
  ∀ env undo workspace root edits confirm d1 ok,
    applyPatch lim s sha256hex env undo workspace root edits false confirm d' = (d1, Ok ok) →
    ∃ cps cp, d_store d1 = Checkpoints (cps ++ [cp]) ∧ cp_ID cp = CheckpointID ok ∧
      ∀ c, c ∈ cps ++ [cp] → intact (d_blobs d1) c.
Proof.
  intros Hd Hsteps.
  assert (∀ env undo workspace root edits preview confirm d, store_ok d →
    let '(d1, res) := applyPatch lim s sha256hex env undo workspace root edits preview confirm d in
    store_ok d1 ∧ (preview = false → ∀ ok, res = Ok ok →
      ∃ cps cp, d_store d1 = Checkpoints (cps ++ [cp]) ∧ cp_ID cp = CheckpointID ok ∧
        ∀ c, c ∈ cps ++ [cp] → intact (d_blobs d1) c)) as Happly.
  { clear. intros env undo workspace root edits preview confirm d Hd. unfold applyPatch.
    destruct (plan _ _ _ _ _ _ _ _ _) as [t [ps|]]; [|done]. destruct preview; [done|]. unfold commit.
    destruct (createCheckpoint_store_ok lim sha256hex env workspace ps (set_tree t d) Hd) as [H1 H2].
    destruct (createCheckpoint _ _ _ _ _ _) as [d1 [cp|]]; cbn in H1, H2; [|done].
    destruct (openWorkspaceRoot _ _ _) as [r|]; [|done].
    destruct (write_edits_store lim env undo r cp ps [] d1) as [E1 E2].
    destruct (write_edits _ _ _ _ _ _ _ _) as [d2 [[]|]]; cbn in E1, E2.
    - split; [apply (store_ok_blobs d1); [by rewrite E2|done..]|]. intros _ ok [= <-].
      destruct (H2 cp eq_refl) as (cps & Hs & Hi). exists cps, cp. rewrite E1, E2. by split.
    - split; [apply (store_ok_blobs d1); [by rewrite E2|done..]|done]. }
  assert (store_ok d') as Hd'.
  { induction Hsteps as [|d d2 d3 Hstep _ IH]; [done|]. apply IH. destruct Hstep as [env undo workspace root edits preview confirm d|env workspace root id d].
    - specialize (Happly env undo workspace root edits preview confirm d Hd). by destruct (applyPatch _ _ _ _ _ _ _ _ _ _ _) as [? ?], Happly.
    - unfold rollbackPatch. destruct (negb _); [done|]. destruct (loadCheckpointStore _ _); [|done].
      destruct (find _ _); [|done]. destruct (openWorkspaceRoot _ _ _) as [r|]; [|done].
      apply (store_ok_blobs d); [|by apply rollback_files_store|done]. by rewrite (proj2 (rollback_files_store _ _ _ _ _ _)). }
  split; [done|]. intros env undo workspace root edits confirm d1 ok E.
  specialize (Happly env undo workspace root edits false confirm d' Hd'). rewrite E in Happly. by apply Happly.
Qed.

(** ** A patch of the sample workspace *)

Definition tree_ok_check (t : tree) : Prop :=
  map_Forall (λ (p : abspath) (_ : node), p = [] ∨ node_at t (removelast p) = Some Dir) t.

Lemma tree_ok_checked t : tree_ok_check t → tree_ok t.
Proof.
  intros H p name [n Hn]. destruct (H _ _ Hn) as [E|E]; [by destruct p|]. by rewrite removelast_last in E.
Qed.

Lemma clear_way_checked t r names :
  Forall (λ k, match t !! (r ++ take k names) with Some (Link _) => False | _ => True end) (seq 0 (S (length names))) →
  clear_way t r names.
Proof.
  intros H k target E. rewrite Forall_forall in H. specialize (H (Nat.min k (length names))).
  destruct (Nat.min_spec k (length names)) as [[Hk Em]|[Hk Em]]; rewrite Em in H.
  - rewrite E in H. apply H. apply elem_of_seq. lia.
  - rewrite take_ge in E by done. rewrite firstn_all, E in H. apply H. apply elem_of_seq. lia.
Qed.

#[local] Instance link_dec (o : option node) : Decision (match o with Some (Link _) => False | _ => True end).
Proof. destruct o as [[]|]; apply _. Defined.

Definition repeated (code : Z) : string := String.string_of_list_ascii (replicate 64 (to_char code)).
Definition sample_digest (c : string) : string :=
  if decide (c = "hello") then repeated 97 else if decide (c = "b") then repeated 98 else repeated 48.

Definition sample_disk : disk := {| d_tree := sample_tree; d_blobs := ∅; d_store := StoreMissing |}.

Definition sample_write : write_env := {|
  w_read := λ _, None; w_mkdir := λ _, None; w_open := λ _, None; w_short := λ _, None;
  w_blob := λ _, false; w_store_read := false; w_store_write := false; w_unremovable := λ _, false;
  umask := 18; w_id := "cbk_1"; w_now := 0 |}.

(** The last file cannot be removed. *)
Definition failing_write : write_env := {|
  w_read := λ _, None; w_mkdir := λ _, None;
  w_open := λ p, if decide (p = ["ws"; "src"; "b.txt"]) then Some EACCES else None; w_short := λ _, None;
  w_blob := λ _, false; w_store_read := false; w_store_write := false; w_unremovable := λ _, false;
  umask := 18; w_id := "cbk_1"; w_now := 0 |}.

Definition sample_edits : list FileEdit := [
  {| Path := "a.txt"; OldText := "hell"; NewText := "jell" |};
  {| Path := "new/c.txt"; OldText := ""; NewText := "new" |};
  {| Path := "src/b.txt"; OldText := "b"; NewText := "" |}].

Definition content_in (l : list string) (n : node) : Prop := match n with File c _ => c ∈ l | _ => True end.
#[local] Instance content_in_dec l n : Decision (content_in l n).
Proof. destruct n; unfold content_in; apply _. Defined.

Lemma sample_tree_contents a c m : sample_tree !! a = Some (File c m) → c ∈ ["hello"; "SECRET"; "b"].
Proof.
  intros H. assert (map_Forall (λ _, content_in ["hello"; "SECRET"; "b"]) sample_tree) as Hall
    by (apply (bool_decide_unpack _); by vm_compute).
  by apply Hall in H.
Qed.

Lemma sample_settled : settled go_limits sample_digest ["ws"] ["ws"] sample_edits sample_disk.
Proof.
  split.
  - exact go_limits_ok.
  - intros c. unfold sample_digest. repeat case_decide; by vm_compute.
  - exact sample_root.
  - by vm_compute.
  - split; [|by vm_compute]. intros k Hk. cbn in Hk. by destruct k; [|lia].
  - apply tree_ok_checked. apply (bool_decide_unpack _). by vm_compute.
  - intros e He. apply clear_way_checked. unfold sample_edits in He.
    repeat (apply elem_of_cons in He as [-> | He]; [apply (bool_decide_unpack _); by vm_compute|]). by apply elem_of_nil in He.
  - intros name c H. cbn in H. by rewrite lookup_empty in H.
  - assert (∀ c, held sample_disk c → c ∈ ["hello"; "SECRET"; "b"]) as Hh.
    { intros c [(a & m & H)|[name H]]; [by eapply sample_tree_contents|cbn in H; by rewrite lookup_empty in H]. }
    intros c c' H%Hh H'%Hh E.
    repeat (apply elem_of_cons in H as [-> | H]; [repeat (apply elem_of_cons in H' as [-> | H']; [by vm_compute in E|]);
      by apply elem_of_nil in H'|]). by apply elem_of_nil in H.
Qed.

Definition applied_disk : disk :=
  (applyPatch go_limits sample_service sample_digest sample_write sample_write "main" ["ws"] sample_edits false true sample_disk).1.
Definition applied_answer : ApplyPatchResult := {|
  Applied := true; Preview := false; Diff := "";
  Files := [{| ps_Path := "a.txt"; ps_Action := Replace |}; {| ps_Path := "new/c.txt"; ps_Action := Create |};
            {| ps_Path := "src/b.txt"; ps_Action := Delete |}];
  CheckpointID := "cbk_1" |}.

Lemma sample_applied :
  applyPatch go_limits sample_service sample_digest sample_write sample_write "main" ["ws"] sample_edits false true sample_disk =
  (applied_disk, Ok applied_answer).
Proof. vm_compute. reflexivity. Qed.

Example applied_files :
  d_tree applied_disk !! ["ws"; "a.txt"] = Some (File "jello" 420) ∧
  d_tree applied_disk !! ["ws"; "new"; "c.txt"] = Some (File "new" 420) ∧
  d_tree applied_disk !! ["ws"; "src"; "b.txt"] = None.
Proof. by vm_compute. Qed.

Lemma patch_contained_witness :
  EvalSymlinks go_limits sample_tree ["ws"] = Ok ["ws"] ∧ outside ["ws"] sample_tree (d_tree applied_disk).
Proof.
  split; [by vm_compute|].
  destruct (patch_contained go_limits sample_service sample_digest sample_write sample_write "main" ["ws"] sample_edits
    false true sample_disk ["ws"] go_limits_ok sample_root ltac:(by vm_compute)) as [H _].
  rewrite sample_applied in H. exact (proj1 H).
Defined.

Lemma patch_applied_witness :
  Applied applied_answer = true ∧
  ∀ e, e ∈ sample_edits → ∃ a, spot ["ws"] (edit_path e) a ∧ edited e (sample_tree !! a) (d_tree applied_disk !! a).
Proof.
  destruct (patch_applied go_limits sample_service sample_digest ["ws"] ["ws"] sample_edits sample_disk sample_write
    sample_write "main" true applied_disk applied_answer sample_settled sample_applied) as (H1 & _ & _ & H2 & _).
  exact (conj H1 H2).
Defined.

Definition rolled_back_disk : disk :=
  (rollbackPatch go_limits sample_service sample_write "main" ["ws"] "cbk_1" applied_disk).1.

Lemma sample_rolled_back :
  rollbackPatch go_limits sample_service sample_write "main" ["ws"] "cbk_1" applied_disk =
  (rolled_back_disk, Ok {| RolledBack := true; rb_CheckpointID := "cbk_1"; RestoredFiles := ["a.txt"; "src/b.txt"];
                           RemovedFiles := ["new/c.txt"] |}).
Proof. vm_compute. reflexivity. Qed.

Lemma apply_rollback_roundtrip_witness :
  d_tree applied_disk !! ["ws"; "a.txt"] = Some (File "jello" 420) ∧
  ∀ a, undone sample_write (sample_tree !! a) (d_tree rolled_back_disk !! a).
Proof.
  split; [by vm_compute|].
  destruct (apply_rollback_roundtrip go_limits sample_service sample_digest ["ws"] ["ws"] sample_edits sample_disk
    sample_write sample_write sample_write "main" true applied_disk applied_answer rolled_back_disk _ sample_settled
    (λ cps cp H, False_ind _ (eq_ind StoreMissing (λ x, match x with StoreMissing => True | _ => False end) I _ H))
    (λ a, None_ne_Some ENOENT) sample_applied sample_rolled_back) as [_ H].
  exact H.
Defined.

Definition failed_disk : disk :=
  (applyPatch go_limits sample_service sample_digest failing_write sample_write "main" ["ws"] sample_edits false true sample_disk).1.

Lemma sample_failed :
  applyPatch go_limits sample_service sample_digest failing_write sample_write "main" ["ws"] sample_edits false true sample_disk =
  (failed_disk, Err (PWriteFailed "src/b.txt" "cbk_1")).
Proof. vm_compute. reflexivity. Qed.

Lemma failed_patch_undone_witness :
  ∃ e a, e ∈ sample_edits ∧ edit_path e = "src/b.txt" ∧
    ∀ b, b ≠ a → undone sample_write (sample_tree !! b) (d_tree failed_disk !! b).
Proof.
  destruct (failed_patch_undone go_limits sample_service sample_digest ["ws"] ["ws"] sample_edits sample_disk
    failing_write sample_write "main" true failed_disk "src/b.txt" "cbk_1" sample_settled
    (conj (λ _, eq_refl) (conj (λ _, eq_refl) (λ _, eq_refl))) sample_failed) as (e & a & H1 & H2 & _ & _ & H3).
  exists e, a. exact (conj H1 (conj H2 H3)).
Defined.

Lemma checkpoints_retained_witness :
  store_ok rolled_back_disk ∧ ∃ cps cp, d_store applied_disk = Checkpoints (cps ++ [cp]) ∧ cp_ID cp = "cbk_1".
Proof.
  assert (store_ok sample_disk) as H0 by exact I.
  assert (rtc (patch_step go_limits sample_service sample_digest) sample_disk rolled_back_disk) as Hs.
  { eapply rtc_l; [apply (step_apply _ _ _ sample_write sample_write "main" ["ws"] sample_edits false true)|].
    apply rtc_once. apply (step_rollback _ _ _ sample_write "main" ["ws"] "cbk_1"). }
  destruct (checkpoints_retained go_limits sample_service sample_digest sample_disk rolled_back_disk H0 Hs) as [H1 _].
  destruct (checkpoints_retained go_limits sample_service sample_digest sample_disk sample_disk H0 (rtc_refl _ _)) as [_ H2].
  split; [exact H1|]. destruct (H2 _ _ _ _ _ _ _ _ sample_applied) as (cps & cp & H3 & H4 & _). exists cps, cp. exact (conj H3 H4).
Defined.

(** ** Where the paths matter *)

(** A preview makes directories, and through a link it makes them outside the
    workspace: nothing of [out/a] exists, so only its text is checked, and
    [MkdirAll] follows the link. *)
Example preview_makes_directories :
  let '(d, res) := applyPatch go_limits sample_service sample_digest sample_write sample_write "main" ["ws"]
    [{| Path := "out/a/b.txt"; OldText := ""; NewText := "x" |}] true false sample_disk in
  is_ok res = true ∧ d_tree sample_disk !! ["etc"; "a"] = None ∧ d_tree d !! ["etc"; "a"] = Some Dir.
Proof. by vm_compute. Qed.

(** A link inside the workspace lets a patch write a sensitive file. *)
Example patch_through_link :
  let '(d, res) := applyPatch go_limits sample_service sample_digest sample_write sample_write "main" ["ws"]
    [{| Path := "link"; OldText := "SECRET"; NewText := "mine" |}] false true sample_disk in
  is_ok res = true ∧ d_tree d !! ["ws"; ".env"] = Some (File "mine" 384).
Proof. by vm_compute. Qed.

(** Two patches of one file, both validated before either is written: both are
    reported as applied and the first is lost. *)
Example concurrent_patch_lost :
  let edit o n := [{| Path := "a.txt"; OldText := o; NewText := n |}] in
  let plan_of e := (plan go_limits sample_write sample_service "main" ["ws"] e false true sample_tree).2 in
  match plan_of (edit "hell" "jell"), plan_of (edit "o" "0") with
  | Ok p1, Ok p2 =>
      let '(d1, r1) := commit go_limits sample_digest sample_write sample_write "main" ["ws"] p1 sample_disk in
      let '(d2, r2) := commit go_limits sample_digest sample_write sample_write "main" ["ws"] p2 d1 in
      is_ok r1 = true ∧ is_ok r2 = true ∧ d_tree d2 !! ["ws"; "a.txt"] = Some (File "hell0" 420)
  | _, _ => False
  end.
Proof. by vm_compute. Qed.
