(* ===== verification/ToolOutput.v ===== *)
(** * The output contract of the manager's tools

    [src/internal/manager/tool_output.go]: the declared schema of each built-in
    tool, less the description texts, and the conversion of a client's payload
    to the declared shape; with the JSON of the manager's own answers
    ([protocol.Workspace], [protocol.ToolPolicy], [Device]). *)

From S2P Require Import Prelude Entities Json Registry.
Open Scope Z_scope.

(** ** Schemas *)
Definition schemaStringArray : schema := SArray SString.

Definition workspaceOutputSchema : schema := SObject
  [("name", SString); ("path", SString); ("writable", SBool)] ["name"].

Definition customToolOutputSchema : schema := SObject
  [("name", SString); ("description", SString); ("tool", SString); ("args", SObject [] [])] ["name"; "tool"].

Definition toolPolicyOutputSchema : schema := SObject
  [("enabled_tools", schemaStringArray); ("disabled_tools", schemaStringArray);
   ("custom_tools", SArray customToolOutputSchema)] [].

Definition deviceOutputSchema : schema := SObject
  [("id", SString); ("name", SString); ("account_id", SString); ("version", SString); ("online", SBool);
   ("connected_at", SString); ("last_seen", SString); ("workspaces", SArray workspaceOutputSchema);
   ("tool_policy", toolPolicyOutputSchema)]
  ["id"; "name"; "account_id"; "version"; "online"; "connected_at"; "last_seen"; "workspaces"].

Definition dirEntryOutputSchema : schema := SObject
  [("name", SString); ("path", SString); ("type", SEnum ["file"; "dir"; "symlink"]); ("size", SInt)]
  ["name"; "path"; "type"].

Definition patchSummaryOutputSchema : schema := SObject
  [("path", SString); ("action", SString)] ["path"; "action"].

Definition patchOutputSchema : schema := SObject
  [("applied", SBool); ("preview", SBool); ("diff", SString); ("files", SArray patchSummaryOutputSchema);
   ("checkpoint_id", SString); ("message", SString)] ["applied"; "files"].

Definition rollbackOutputSchema : schema := SObject
  [("rolled_back", SBool); ("checkpoint_id", SString); ("restored_files", schemaStringArray);
   ("removed_files", schemaStringArray)] ["rolled_back"; "checkpoint_id"; "restored_files"].

Definition bashOutputSchema : schema := SObject
  [("command", SString); ("output", SString); ("truncated", SBool); ("error", SString); ("exit_code", SInt)]
  ["command"; "output"; "truncated"].

Definition agentCatalogEntryOutputSchema : schema := SObject
  [("name", SString); ("description", SString); ("client", SString); ("agent", SString); ("model", SString);
   ("thinking", SString); ("timeout_seconds", SInt); ("tab", SString)] ["name"].

Definition agentOutputSchema : schema := SObject
  [("client", SString); ("agent", SString); ("model", SString); ("thinking", SString); ("task", SString);
   ("status", SString); ("output", SString); ("events", SInt); ("elapsed", SString)]
  ["client"; "task"; "status"; "output"; "events"; "elapsed"].

Definition agentRunStatusValues : list string :=
  ["queued"; "running"; "completed"; "failed"; "cancelled"; "timeout"; "interrupted"].

Definition agentStartOutputSchema : schema := SObject
  [("run_id", SString); ("status", SEnum ["queued"; "running"]); ("client", SString); ("agent", SString);
   ("model", SString); ("thinking", SString); ("workspace", SString); ("started_at", SString)]
  ["run_id"; "status"].

Definition agentStatusOutputSchema : schema := SObject
  [("run_id", SString); ("status", SEnum agentRunStatusValues); ("client", SString); ("agent", SString);
   ("model", SString); ("thinking", SString); ("workspace", SString); ("started_at", SString);
   ("elapsed_ms", SInt); ("event_count", SInt); ("last_event", SString)]
  ["run_id"; "status"].

Definition agentResultOutputSchema : schema := SObject
  [("run_id", SString); ("status", SEnum agentRunStatusValues); ("output", SString); ("error", SString);
   ("elapsed_ms", SInt); ("finished_at", SString)] ["run_id"; "status"].

Definition agentCancelOutputSchema : schema := SObject
  [("run_id", SString); ("status", SEnum agentRunStatusValues); ("cancelled", SBool)]
  ["run_id"; "status"; "cancelled"].

Definition agentRunRowOutputSchema : schema := SObject
  [("run_id", SString); ("status", SEnum agentRunStatusValues); ("workspace", SString); ("client", SString);
   ("agent", SString); ("started_at", SString); ("elapsed_ms", SInt); ("event_count", SInt)]
  ["run_id"; "status"].

Definition agentRunsOutputSchema : schema := SObject
  [("runs", SArray agentRunRowOutputSchema); ("count", SInt)] ["runs"; "count"].

Definition permissionRuleOutputSchema : schema := SObject
  [("effect", SString); ("tool", SString); ("pattern", SString); ("reason", SString)] ["effect"; "tool"].

Definition permissionGrantOutputSchema : schema := SObject
  [("request_id", SString); ("granted", SString); ("rule", permissionRuleOutputSchema); ("message", SString)]
  ["request_id"; "granted"].

Definition toolOutputSchemas : gmap string schema := list_to_map [
  ("list_devices", SObject [("devices", SArray deviceOutputSchema); ("count", SInt)] ["devices"; "count"]);
  ("list_workspaces", SObject [("workspaces", SArray workspaceOutputSchema); ("count", SInt)]
     ["workspaces"; "count"]);
  ("list", SObject [("path", SString); ("entries", SArray dirEntryOutputSchema); ("count", SInt)]
     ["path"; "entries"; "count"]);
  ("read", SObject [("path", SString); ("content", SString); ("truncated", SBool); ("bytes_read", SInt)]
     ["path"; "content"; "truncated"; "bytes_read"]);
  ("write", patchOutputSchema);
  ("edit", patchOutputSchema);
  ("apply_patch", patchOutputSchema);
  ("rollback_patch", rollbackOutputSchema);
  ("bash", bashOutputSchema);
  ("agents_list", SObject [("agents", SArray agentCatalogEntryOutputSchema)] ["agents"]);
  ("agent", agentOutputSchema);
  ("agent_start", agentStartOutputSchema);
  ("agent_status", agentStatusOutputSchema);
  ("agent_result", agentResultOutputSchema);
  ("agent_cancel", agentCancelOutputSchema);
  ("agent_runs", agentRunsOutputSchema);
  ("permission_grant", permissionGrantOutputSchema)].

(** ** Client payloads *)

Definition errMalformedPayload (tool : string) : string :=
  tool +:+ ": client returned a payload that does not match the tool's output schema".

Definition arrayPayload (tool : string) (payload : json) : result string (list json) :=
  match payload with JArray items => Ok items | _ => Err (errMalformedPayload tool) end.

Definition toolOutputPayload (tool dirPath : string) (payload : json) : result string json :=
  if decide (tool = "list") then
    entries ← arrayPayload tool payload;
    let dirPath := if decide (dirPath = "") then "." else dirPath in
    Ok (JObject [("path", JString dirPath); ("entries", JArray entries);
                 ("count", JInt (Z.of_nat (length entries)))])
  else if decide (tool = "rollback_patch") then
    Ok match payload with
       | JObject fields =>
           match field "restored_files" fields with
           | Some JNull => JObject (set_field "restored_files" (JArray []) fields)
           | _ => payload
           end
       | _ => payload
       end
  else Ok payload.

(** ** The manager's own answers *)

(** A Go slice: nil is null. *)
Definition slice_json {A} (f : A → json) (l : option (list A)) : json :=
  match l with Some l => JArray (f <$> l) | None => JNull end.

(** A field that is left out when it is empty. *)
Definition omitempty (empty : bool) (k : string) (v : json) : list (string * json) :=
  if empty then [] else [(k, v)].

Definition workspace_json (w : Workspace) : json := JObject (
  ("name", JString (wk_Name w)) ::
  omitempty (bool_decide (wk_Path w = "")) "path" (JString (wk_Path w)) ++
  omitempty (negb (wk_Writable w)) "writable" (JBool (wk_Writable w))).

Definition custom_json (c : CustomTool) : json := JObject (
  ("name", JString (ct_Name c)) ::
  omitempty (bool_decide (ct_Description c = "")) "description" (JString (ct_Description c)) ++
  ("tool", JString (ct_Tool c)) ::
  omitempty (bool_decide (ct_Args c = ∅)) "args" (JObject (map_to_list (ct_Args c)))).

Definition is_nil {A} (l : list A) : bool := match l with [] => true | _ => false end.

Definition policy_json (p : ToolPolicy) : json := JObject (
  omitempty (is_nil (EnabledTools p)) "enabled_tools" (JArray (JString <$> EnabledTools p)) ++
  omitempty (is_nil (DisabledTools p)) "disabled_tools" (JArray (JString <$> DisabledTools p)) ++
  omitempty (is_nil (CustomTools p)) "custom_tools" (JArray (custom_json <$> CustomTools p))).

Section answers.
(** How [encoding/json] writes a time. *)
Variable rfc3339 : time → string.

Definition device_json (d : Device) : json := JObject ([
  ("id", JString (d_ID d)); ("name", JString (d_Name d)); ("account_id", JString (d_AccountID d));
  ("version", JString (d_Version d)); ("online", JBool (d_Online d));
  ("connected_at", JString (rfc3339 (d_ConnectedAt d))); ("last_seen", JString (rfc3339 (d_LastSeen d)));
  ("workspaces", slice_json workspace_json (d_Workspaces d))] ++
  match d_ToolPolicy d with Some p => [("tool_policy", policy_json p)] | None => [] end).

Definition list_devices_answer (devices : list Device) : json := JObject [
  ("devices", JArray (device_json <$> devices)); ("count", JInt (Z.of_nat (length devices)))].
Definition list_workspaces_answer (v : option (list Workspace)) : json := JObject [
  ("workspaces", slice_json workspace_json v); ("count", JInt (Z.of_nat (length (default [] v))))].

(** ** Conformance *)

Lemma workspace_conforms w : conforms workspaceOutputSchema (workspace_json w) = true.
Proof.
  unfold workspace_json, omitempty. case_bool_decide; by destruct (wk_Writable w).
Qed.

Lemma custom_conforms c : conforms customToolOutputSchema (custom_json c) = true.
Proof. unfold custom_json, omitempty. by repeat case_bool_decide. Qed.

Lemma strings_conform l : conforms schemaStringArray (JArray (JString <$> l)) = true.
Proof. apply conforms_array. by intros j (s & -> & _)%list_elem_of_fmap. Qed.

Lemma policy_conforms p : conforms toolPolicyOutputSchema (policy_json p) = true.
Proof.
  unfold policy_json. apply conforms_object. split; [by intros k ?%elem_of_nil|].
  intros k s v Hk Hf. unfold omitempty in Hf.
  repeat (apply elem_of_cons in Hk as [[= -> ->]|Hk]); try (by apply elem_of_nil in Hk).
  - assert (v = JArray (JString <$> EnabledTools p)) as ->; [|apply strings_conform].
    revert Hf. by destruct (is_nil _), (is_nil _), (is_nil _); intros [=].
  - assert (v = JArray (JString <$> DisabledTools p)) as ->; [|apply strings_conform].
    revert Hf. by destruct (is_nil _), (is_nil _), (is_nil _); intros [=].
  - assert (v = JArray (custom_json <$> CustomTools p)) as ->.
    { revert Hf. by destruct (is_nil _), (is_nil _), (is_nil _); intros [=]. }
    apply conforms_array. intros j (c & -> & _)%list_elem_of_fmap. apply custom_conforms.
Qed.

Lemma workspaces_conform l :
  conforms (SArray workspaceOutputSchema) (slice_json workspace_json l) = bool_decide (l ≠ None).
Proof.
  destruct l as [l|]; [|done]. rewrite bool_decide_true by done. apply conforms_array.
  intros j (w & -> & _)%list_elem_of_fmap. apply workspace_conforms.
Qed.

Lemma device_conforms d :
  conforms deviceOutputSchema (device_json d) = bool_decide (d_Workspaces d ≠ None).
Proof.
  rewrite <-workspaces_conform. unfold device_json, deviceOutputSchema.
  pose proof policy_conforms as Hp.
  destruct (d_ToolPolicy d) as [p|]; cbn -[toolPolicyOutputSchema workspaceOutputSchema policy_json slice_json];
    rewrite ?Hp; by rewrite ?andb_true_r.
Qed.
End answers.
