(* ===== verification/ClientTools.v ===== *)
(** * The client's tools

    One device request from its arguments to its answer: the dispatch of
    [executeRequest] and the [agent_*] tools ([src/cmd/client/agent_tools.go]),
    of [Service.Execute] ([src/internal/agentops/ops.go]), the admission of runs
    ([src/cmd/client/main.go]), and the JSON of every answer.

    A request is one step, except that [agent] and [agent_cancel] wait for a run
    while everything else goes on: their replies are [Awaiting] and [Settling],
    and [resume] is what the wait returns. The client has its run manager before
    it serves requests ([activateRuntime]), so the branches without one are left
    out. The code-intelligence tools, the processes a command starts, and how Go
    writes times and durations are the environment. *)

From stdpp Require Import pretty.
From S2P Require Import Prelude Entities GoStrings Json AgentRuns AgentSteps Permissions Registry.
From S2P Require Import GoPath Paths FileOps Search Patch.
Open Scope Z_scope.

(** ** Arguments *)

Section arguments.
(** [int(v)] of the [float64] that a JSON number decodes to. *)
Variable number : json → Z.

Definition is_number (j : json) : bool := match j with JInt _ | JNumber _ => true | _ => false end.

Definition stringArg (m : arguments) (key def : string) : string :=
  match m !! key with Some (JString v) => v | _ => def end.

(** [intArg] on decoded arguments, which hold no other number, and [intArgAny]. *)
Definition intArg (m : arguments) (key : string) (def : Z) : Z :=
  match m !! key with Some v => if is_number v then number v else def | None => def end.

(** [agentRunSpec]. *)
Definition agentRunSpec (req : AgentRequest) : RunSpec := {|
  AgentRuns.Workspace := Registry.req_Workspace req;
  Task := stringArg (req_Args req) "task" "";
  Client := stringArg (req_Args req) "client" "";
  Agent := stringArg (req_Args req) "agent" "";
  Model := stringArg (req_Args req) "model" "";
  Thinking := stringArg (req_Args req) "thinking" "";
  TimeoutSeconds := intArg (req_Args req) "timeout_seconds" 0 |}.

(** What a request asks for, with its defaults filled in. *)
Inductive operation : Type :=
| OList (path : string)
| ORead (path : string) (max_bytes : Z)
| OBash (command : string)
| OPatch (edits : list FileEdit) (preview confirm : bool)
| ORollback (checkpoint : string)
| OGrant (request decision : string)
| OCatalog
| OAgent (spec : RunSpec)
| OStart (spec : RunSpec)
| OStatus (run : string)
| OResult (run : string)
| OCancel (run : string)
| ORuns (limit : Z)
| OFind (pattern : string)
| OSearch (query path : string)
| OGitStatus
| OGitDiff (path : string)
| OProjectInfo
| OCode (tool : string) (args : arguments)
| OUnsupported (tool : string).

Definition agentRunsDefaultLimit : Z := 20.
Definition agentRunsMaxLimit : Z := 100.

Definition codeTools : list string := ["find_symbol"; "find_references"; "read_symbol"; "dependency_graph"].

(** The tool's name selects, as in [executeRequest], [handleAgentRunTool] and
    [Execute]. *)
Definition decode (req : AgentRequest) : operation :=
  let tool := Registry.req_Tool req in
  let args := req_Args req in
  let str key := stringArg args key "" in
  let preview := boolArg args "preview" false in
  let confirm := boolArg args "confirm" false in
  if decide (tool = "agent") then OAgent (agentRunSpec req)
  else if decide (tool = "agent_start") then OStart (agentRunSpec req)
  else if decide (tool = "agent_status") then OStatus (TrimSpace (str "run_id"))
  else if decide (tool = "agent_result") then OResult (TrimSpace (str "run_id"))
  else if decide (tool = "agent_cancel") then OCancel (TrimSpace (str "run_id"))
  else if decide (tool = "agent_runs") then
    let limit := intArg args "limit" 0 in
    let limit := if decide (limit ≤ 0) then agentRunsDefaultLimit else limit in
    ORuns (if decide (agentRunsMaxLimit < limit) then agentRunsMaxLimit else limit)
  else if decide (tool = "agents_list") then OCatalog
  else if one_of tool ["list"; "list_directory"] then OList (stringArg args "path" ".")
  else if one_of tool ["read"; "read_file"] then
    let maxBytes := intArg args "max_bytes" maxReadBytes in
    ORead (str "path") (if decide (maxBytes ≤ 0) then maxReadBytes else maxBytes)
  else if decide (tool = "bash") then OBash (str "command")
  else if decide (tool = "edit") then
    OPatch [{| Path := str "path"; OldText := str "old_text"; NewText := str "new_text" |}] preview confirm
  else if decide (tool = "write") then
    OPatch [{| Path := str "path"; OldText := ""; NewText := str "content" |}] preview confirm
  else if decide (tool = "permission_grant") then OGrant (str "request_id") (str "decision")
  else if decide (tool = "find_files") then OFind (str "pattern")
  else if decide (tool = "search_code") then OSearch (str "query") (stringArg args "path" ".")
  else if decide (tool = "git_status") then OGitStatus
  else if decide (tool = "git_diff") then OGitDiff (str "path")
  else if decide (tool = "project_info") then OProjectInfo
  else if one_of tool codeTools then OCode tool args
  else if decide (tool = "apply_patch") then OPatch (parseFileEdits (args !! "edits")) preview confirm
  else if decide (tool = "rollback_patch") then ORollback (str "checkpoint_id")
  else OUnsupported tool.
End arguments.

(** ** Answers *)

Section answers.
Variable rfc3339 : time → string.
Variable duration : Z → string.                (* [time.Duration.String] *)

Definition str (k v : string) : string * json := (k, JString v).
Definition opt_str (k v : string) : list (string * json) := if decide (v = "") then [] else [(k, JString v)].
Definition opt_int (k : string) (v : Z) : list (string * json) := if decide (v = 0) then [] else [(k, JInt v)].
Definition opt_bool (k : string) (v : bool) : list (string * json) := if v then [(k, JBool true)] else [].
(** A slice that is nil until something is appended to it. *)
Definition nil_strings (l : list string) : json := match l with [] => JNull | _ => JArray (JString <$> l) end.

Definition DirEntry_json (d : DirEntry) : json := JObject (
  [str "name" (de_Name d); str "path" (de_Path d); str "type" (de_Type d)] ++ opt_int "size" (de_Size d)).

Definition ReadFileResult_json (r : ReadFileResult) : json := JObject [
  str "path" (rf_Path r); str "content" (rf_Content r); ("truncated", JBool (rf_Truncated r));
  ("bytes_read", JInt (rf_BytesRead r))].

Definition action_text (a : edit_action) : string :=
  match a with Create => "create" | Delete => "delete" | Replace => "replace" end.
Definition PatchSummary_json (p : PatchSummary) : json :=
  JObject [str "path" (ps_Path p); str "action" (action_text (ps_Action p))].

Definition patch_message (r : ApplyPatchResult) : string :=
  if Preview r
  then "Preview only; nothing was written. Re-issue the same patch with confirm=true to apply."
  else "Applied " +:+ pretty (length (Files r)) +:+
       " file change(s). Roll back with rollback_patch and checkpoint_id " +:+ CheckpointID r +:+ ".".

Definition ApplyPatchResult_json (r : ApplyPatchResult) : json := JObject (
  [("applied", JBool (Applied r))] ++ opt_bool "preview" (Preview r) ++ opt_str "diff" (Diff r) ++
  [("files", JArray (PatchSummary_json <$> Files r))] ++
  opt_str "checkpoint_id" (CheckpointID r) ++ opt_str "message" (patch_message r)).

Definition RollbackResult_json (r : RollbackResult) : json := JObject (
  [("rolled_back", JBool (RolledBack r)); str "checkpoint_id" (rb_CheckpointID r);
   ("restored_files", nil_strings (RestoredFiles r))] ++
  match RemovedFiles r with [] => [] | l => [("removed_files", JArray (JString <$> l))] end).

(** What a started command came to: what it wrote, and, when it failed, the text
    and the exit code. *)
Record bash_run : Type := { br_writes : list string; br_error : option (string * Z) }.

Definition bashMaxOutput : Z := 256 * 1024.

(** The answer of [execBash]. *)
Definition bash_json (command : string) (r : bash_run) : json :=
  let out := foldl (λ buf p, (limitedBuffer_Write bashMaxOutput buf p).1) "" (br_writes r) in
  JObject (
    [str "command" command; str "output" out;
     ("truncated", JBool (bool_decide (bashMaxOutput ≤ Z.of_nat (String.length out))))] ++
    match br_error r with Some (text, code) => [str "error" text; ("exit_code", JInt code)] | None => [] end).

Definition PermissionRule_json (r : PermissionRule) : json := JObject (
  [str "effect" (rule_Effect r); str "tool" (rule_Tool r)] ++
  opt_str "pattern" (rule_Pattern r) ++ opt_str "reason" (rule_Reason r)).

Definition grant_json (request : string) (a : grant_answer) : json :=
  match a with
  | GrantedOnce => JObject [str "request_id" request; str "granted" "once";
                            str "message" "retry the blocked tool call now"]
  | GrantedAlways rule _ => JObject [str "request_id" request; str "granted" "always";
      ("rule", PermissionRule_json rule); str "message" "rule persisted; retry the blocked tool call now"]
  | GrantDenied => JObject [str "request_id" request; str "granted" "denied"]
  end.

(** [AgentCatalog] and its answer. *)
Definition catalog_entry (p : SubagentProfile) : json := JObject (
  [str "name" (prof_Name p)] ++ opt_str "description" (prof_Description p) ++
  opt_str "client" (orDefault (prof_Client p) DefaultSubagentClient) ++ opt_str "agent" (prof_Agent p) ++
  opt_str "model" (prof_Model p) ++ opt_str "thinking" (prof_Thinking p) ++
  opt_int "timeout_seconds" (prof_TimeoutSec p) ++ opt_str "tab" (prof_Tab p)).
Definition catalog_json (profiles : list SubagentProfile) : json :=
  JObject [("agents", JArray (catalog_entry <$> profiles))].

Definition milliseconds (d : Z) : Z := Z.quot d 1000000.

(** [SubagentResultFromRun]. *)
Definition subagent_json (snap : AgentRun) : json :=
  let elapsed := if negb (IsZero (run_StartedAt snap)) && negb (IsZero (run_FinishedAt snap))
                 then milliseconds (run_FinishedAt snap - run_StartedAt snap) else run_ElapsedMS snap in
  JObject (
    [str "client" (run_Client snap)] ++ opt_str "agent" (run_Agent snap) ++ opt_str "model" (run_Model snap) ++
    opt_str "thinking" (run_Thinking snap) ++
    [str "task" (truncateText (TrimSpace (run_Task snap)) 400); str "status" (run_Status snap);
     str "output" (if decide (run_Output snap = "") then run_Error snap else run_Output snap);
     ("events", JInt (Z.of_nat (run_EventCount snap))); str "elapsed" (duration (elapsed * 1000000))]).

Definition formatRunTime (t : time) : string := if IsZero t then "" else rfc3339 t.

(** [runElapsedMS] at the time [now]. *)
Definition runElapsedMS (now : time) (snap : AgentRun) : Z :=
  if negb (IsZero (run_FinishedAt snap)) then run_ElapsedMS snap
  else if IsZero (run_StartedAt snap) then 0
  else milliseconds (now - run_StartedAt snap).

Definition agentStartReply (run : AgentRun) : json := JObject [
  str "run_id" (run_ID run); str "status" (run_Status run); str "client" (run_Client run);
  str "agent" (run_Agent run); str "model" (run_Model run); str "thinking" (run_Thinking run);
  str "workspace" (run_Workspace run); str "started_at" (formatRunTime (run_StartedAt run))].

Definition agentStatusReply (now : time) (snap : AgentRun) : json := JObject [
  str "run_id" (run_ID snap); str "status" (run_Status snap); str "client" (run_Client snap);
  str "agent" (run_Agent snap); str "model" (run_Model snap); str "thinking" (run_Thinking snap);
  str "workspace" (run_Workspace snap); str "started_at" (formatRunTime (run_StartedAt snap));
  ("elapsed_ms", JInt (runElapsedMS now snap)); ("event_count", JInt (Z.of_nat (run_EventCount snap)));
  str "last_event" (run_LastEvent snap)].

(** [agentResultPending] and [agentResultTerminal]. *)
Definition agentResultReply (snap : AgentRun) : json :=
  if negb (terminalRunStatus (run_Status snap))
  then JObject [str "run_id" (run_ID snap); str "status" (run_Status snap)]
  else JObject [
    str "run_id" (run_ID snap); str "status" (run_Status snap); str "output" (run_Output snap);
    str "error" (run_Error snap); ("elapsed_ms", JInt (run_ElapsedMS snap));
    str "finished_at" (formatRunTime (run_FinishedAt snap))].

Definition agentCancelReply (id status : string) (cancelled : bool) : json := JObject [
  str "run_id" id; str "status" status; ("cancelled", JBool cancelled)].

Definition agentRunRow (now : time) (snap : AgentRun) : json := JObject [
  str "run_id" (run_ID snap); str "status" (run_Status snap); str "workspace" (run_Workspace snap);
  str "client" (run_Client snap); str "agent" (run_Agent snap);
  str "started_at" (formatRunTime (run_StartedAt snap)); ("elapsed_ms", JInt (runElapsedMS now snap));
  ("event_count", JInt (Z.of_nat (run_EventCount snap)))].

Definition agentRunsReply (now : time) (known : list AgentRun) : json := JObject [
  ("runs", JArray (agentRunRow now <$> known)); ("count", JInt (Z.of_nat (length known)))].

(** Answers of the tools kept for old callers; an empty slice and a nil one are
    the same here. *)
Definition SearchMatch_json (m : SearchMatch) : json :=
  JObject [str "path" (sm_Path m); ("line", JInt (sm_Line m)); str "text" (sm_Text m)].
Definition project_json (p : list string * bool) : json :=
  JObject [("markers", JArray (JString <$> p.1)); ("has_git", JBool p.2)].
End answers.

(** ** The client *)

Record client : Type := {
  cl_service : Service;
  cl_profiles : list SubagentProfile;
  cl_runs : system;                            (* the run manager and its goroutines *)
  cl_disk : disk;
  cl_perms : permissionStore
}.

Definition set_system (x : system) (c : client) : client := {|
  cl_service := cl_service c; cl_profiles := cl_profiles c; cl_runs := x; cl_disk := cl_disk c;
  cl_perms := cl_perms c |}.
Definition set_disk (d : disk) (c : client) : client := {|
  cl_service := cl_service c; cl_profiles := cl_profiles c; cl_runs := cl_runs c; cl_disk := d;
  cl_perms := cl_perms c |}.
Definition set_perms (p : permissionStore) (c : client) : client := {|
  cl_service := cl_service c; cl_profiles := cl_profiles c; cl_runs := cl_runs c; cl_disk := cl_disk c;
  cl_perms := p |}.

(** What the world answers to one request. *)
Record call_env : Type := {
  ce_number : json → Z;
  ce_rfc3339 : time → string;
  ce_duration : Z → string;
  ce_limits : limits;
  ce_fs : fs_env;
  ce_search : search_env;
  ce_write : write_env;
  ce_undo : write_env;
  ce_sha256hex : string → string;
  ce_world : world;                            (* of the run manager *)
  ce_context : option string;                  (* the error of the caller's context *)
  ce_granted : list string;                    (* orders of the maps of [perms] *)
  ce_pending : list string;
  ce_request_id : string;                      (* of a new permission request *)
  ce_run_id : string;
  ce_bash : executed → bash_run;
  ce_code : string → arguments → result string json
}.

Inductive exec_err : Type :=
| XUnknownWorkspace (name : string)
| XUnsupported (tool : string)
| XPath (e : path_err)
| XPatch (e : patch_err)
| XSearch (e : search_err)
| XPermission (e : perm_err)
| XRun (e : run_err)
| XRunIDRequired
| XStillGoing (run : string)                   (* the wait's context ended *)
| XCode (text : string).

Inductive reply : Type :=
| Answer (r : result exec_err json)
| Awaiting (run : string)
| Settling (run : string)
| Panics.

(** An absolute path as the string it is. *)
Definition path_text (p : abspath) : string := "/" +:+ Join "/" p.

Section serve.
Context (e : call_env).
Let lim : limits := ce_limits e.
Let files : fs_env := ce_fs e.
Let now_ : time := now (ce_world e).

Definition root_error (x : path_err) : string :=
  match x with
  | ERootSensitive => "workspace root is blocked by local sensitive-file policy"
  | _ => "workspace root is unavailable"
  end.

(** The environment of a permission gate in a workspace. *)
Definition gate (c : client) (root : abspath) : gate_env := {|
  ge_now := now_; ge_granted := ce_granted e; ge_pending := ce_pending e; ge_id := ce_request_id e;
  ge_root := match resolveWorkspaceRoot lim (d_tree (cl_disk c)) (AllowSensitiveFiles (cl_service c)) root with
             | Ok r => Ok (path_text r)
             | Err x => Err (root_error x)
             end |}.

(** ** Runs *)

(** [resolveSubagentRoot]: a name, or the path of a root. *)
Definition resolveSubagentRoot (s : Service) (workspace : string) : option abspath :=
  match Roots s !! workspace with
  | Some root => Some root
  | None => snd <$> find (λ kr, bool_decide (path_text kr.2 = workspace)) (map_to_list (Roots s))
  end.

(** The admission check the client gives its run manager. *)
Definition preflight (c : client) (spec : RunSpec) : result exec_err () * client :=
  match resolveSubagentRoot (cl_service c) (AgentRuns.Workspace spec) with
  | None => (Err (XUnknownWorkspace (AgentRuns.Workspace spec)), c)
  | Some root =>
      match subagentPreflight (gate c root) (cl_profiles c) spec (cl_perms c) with
      | (Err x, perms) => (Err (XPermission x), set_perms perms c)
      | (Ok _, perms) => (Ok (), set_perms perms c)
      end
  end.

(** [RunManager.Start] with that check, whose effect on the permissions stays
    when it refuses; the goroutine of the run starts with it. *)
Definition start_run (ctx : option string) (spec : RunSpec) (c : client) : result exec_err AgentRun * client :=
  match ctx with
  | Some x => (Err (XRun (AgentRuns.EContext x)), c)
  | None =>
      let spec' := normalizeRunSpec (cl_profiles c) spec in
      match validateRunSpec spec' with
      | Err x => (Err (XRun x), c)
      | Ok _ =>
          match preflight c spec' with
          | (Err x, c) => (Err x, c)
          | (Ok _, c) =>
              let s := cl_runs c in
              match Start (ce_world e) (cl_profiles c) None (λ _, None) spec (ce_run_id e) (mgr s) with
              | Err x => (Err (XRun x), c)
              | Ok (m, snap) =>
                  (Ok snap, set_system {| mgr := m; procs := <[ce_run_id e := Waiting]> (procs s); AgentSteps.sem := AgentSteps.sem s |} c)
              end
          end
      end
  end.

(** [lookupRun]. *)
Definition lookupRun (run : string) (c : client) : result exec_err AgentRun * client :=
  if decide (run = "") then (Err XRunIDRequired, c)
  else
    let '(m, snap) := AgentRuns.Get (ce_world e) run (mgr (cl_runs c)) in
    let c := set_system (with_mgr m (cl_runs c)) c in
    match snap with
    | None => (Err (XRun (ERunNotFound run)), c)
    | Some snap => (Ok snap, c)
    end.

Definition answer_run (f : AgentRun → json) (x : result exec_err AgentRun * client) : reply * client :=
  match x with (Ok snap, c) => (Answer (Ok (f snap)), c) | (Err x, c) => (Answer (Err x), c) end.

Definition agentCancel (run : string) (c : client) : reply * client :=
  match lookupRun run c with
  | (Err x, c) => (Answer (Err x), c)
  | (Ok snap, c) =>
      if terminalRunStatus (run_Status snap)
      then (Answer (Ok (agentCancelReply (run_ID snap) (run_Status snap) false)), c)
      else
        match Cancel (run_ID snap) (mgr (cl_runs c)) with
        | CancelNotFound => (Answer (Err (XRun (ERunNotFound (run_ID snap)))), c)
        | CancelPanics => (Panics, c)
        | CancelOk m => (Settling (run_ID snap), set_system (with_mgr m (cl_runs c)) c)
        end
  end.

(** [runAgentTool] up to its wait. *)
Definition runAgentTool (spec : RunSpec) (c : client) : reply * client :=
  match start_run (ce_context e) spec c with
  | (Err x, c) => (Answer (Err x), c)
  | (Ok snap, c) => (Awaiting (run_ID snap), c)
  end.

(** What the wait of a reply returns in the state [c], [expired] saying that its
    context ended: [None] while it goes on. *)
Definition resume (expired : bool) (r : reply) (c : client) : option (result exec_err json) :=
  let m := mgr (cl_runs c) in
  match r with
  | Answer r => Some r
  | Awaiting run =>
      if expired then Some (Err (XStillGoing run))
      else (λ snap, Ok (subagent_json (ce_duration e) snap)) <$> Wait run m
  | Settling run =>
      if expired then Some (Ok (agentCancelReply run RunCancelled true))
      else (λ snap, Ok (agentCancelReply (run_ID snap) (run_Status snap)
                          (bool_decide (run_Status snap = RunCancelled)))) <$> Wait run m
  | Panics => None
  end.

(** ** The service *)

Definition read_answer {A} (f : A → json) (r : result path_err A) : result exec_err json :=
  match r with Ok a => Ok (f a) | Err x => Err (XPath x) end.
Definition search_answer {A} (f : A → json) (r : result search_err A) : result exec_err json :=
  match r with Ok a => Ok (f a) | Err x => Err (XSearch x) end.
Definition patch_answer {A} (f : A → json) (r : result patch_err A) : result exec_err json :=
  match r with Ok a => Ok (f a) | Err x => Err (XPatch x) end.

(** [runBash] and, when it lets the command through, [execBash]. *)
Definition run_bash (root : abspath) (command : string) (c : client) : result exec_err json * client :=
  match runBash (gate c root) command (cl_perms c) with
  | (Ok x, perms) => (Ok (bash_json (ex_command x) (ce_bash e x)), set_perms perms c)
  | (Err x, perms) => (Err (XPermission x), set_perms perms c)
  end.

Definition grant (request decision : string) (c : client) : result exec_err json * client :=
  match permissionGrant now_ request decision (cl_perms c) with
  | (Ok a, perms) => (Ok (grant_json request a), set_perms perms c)
  | (Err x, perms) => (Err (XPermission x), set_perms perms c)
  end.

(** The switch of [Execute], in the workspace [ws] with the root [root]. *)
Definition in_workspace (ws : string) (root : abspath) (op : operation) (c : client) : result exec_err json * client :=
  let s := cl_service c in
  let d := cl_disk c in
  let t := d_tree d in
  match op with
  | OList path => (read_answer (λ l, JArray (DirEntry_json <$> l)) (listDirectory lim files s t root path), c)
  | ORead path n => (read_answer ReadFileResult_json (readFile lim files s t root path n), c)
  | OBash command => run_bash root command c
  | OPatch edits preview confirm =>
      let '(d, r) := applyPatch lim s (ce_sha256hex e) (ce_write e) (ce_undo e) ws root edits preview confirm d in
      (patch_answer ApplyPatchResult_json r, set_disk d c)
  | ORollback checkpoint =>
      let '(d, r) := rollbackPatch lim s (ce_write e) ws root checkpoint d in
      (patch_answer RollbackResult_json r, set_disk d c)
  | OGrant request decision => grant request decision c
  | OFind pattern =>
      (search_answer (λ l, JArray (JString <$> l)) (findFiles lim (ce_search e) s t root pattern), c)
  | OSearch query path =>
      (search_answer (λ l, JArray (SearchMatch_json <$> l)) (searchCode lim (ce_search e) s t root query path), c)
  | OGitStatus => (search_answer (λ r, git_result r.1 r.2) (gitStatus (ce_search e) s), c)
  | OGitDiff path => (search_answer (λ r, git_result r.1 r.2) (gitDiff lim (ce_search e) s t root path), c)
  | OProjectInfo => (Ok (project_json (projectInfo lim t root)), c)
  | OCode tool args => (match ce_code e tool args with Ok j => Ok j | Err x => Err (XCode x) end, c)
  | OUnsupported tool => (Err (XUnsupported tool), c)
  | _ => (Err (XUnsupported ""), c)            (* served before the workspace is looked up *)
  end.

Definition Execute (ws : string) (op : operation) (c : client) : result exec_err json * client :=
  match op with
  | OCatalog => (Ok (catalog_json (cl_profiles c)), c)
  | _ =>
      match Roots (cl_service c) !! ws with
      | None => (Err (XUnknownWorkspace ws), c)
      | Some root => in_workspace ws root op c
      end
  end.

(** [executeRequest] with [handleAgentRunTool]. *)
Definition executeRequest (req : AgentRequest) (c : client) : reply * client :=
  match decode (ce_number e) req with
  | OAgent spec => runAgentTool spec c
  | OStart spec => answer_run (agentStartReply (ce_rfc3339 e)) (start_run None spec c)
  | OStatus run => answer_run (agentStatusReply (ce_rfc3339 e) now_) (lookupRun run c)
  | OResult run => answer_run (agentResultReply (ce_rfc3339 e)) (lookupRun run c)
  | OCancel run => agentCancel run c
  | ORuns limit =>
      (Answer (Ok (agentRunsReply (ce_rfc3339 e) now_ (ListRuns limit (mgr (cl_runs c))))), c)
  | op => let '(r, c) := Execute (Registry.req_Workspace req) op c in (Answer r, c)
  end.
End serve.

(** ** The response (runGRPCSession) *)

Definition maxAgentResponseBytes : Z := 768 * 1024.

(** [encode] is [json.Marshal], [text] the text of an error. *)
Definition respond (encode : json → result string string) (text : exec_err → string)
    (r : result exec_err json) : AgentResponse :=
  let failed x := {| resp_OK := false; resp_Data := ""; resp_Error := x |} in
  match r with
  | Err x => failed (text x)
  | Ok j =>
      match encode j with
      | Err x => failed x
      | Ok data =>
          if decide (maxAgentResponseBytes < Z.of_nat (String.length data))
          then failed ("tool response exceeds " +:+ pretty maxAgentResponseBytes +:+ " bytes; narrow the request")
          else {| resp_OK := true; resp_Data := data; resp_Error := "" |}
      end
  end.

(** The deadline of a call in seconds, if it has one. *)
Definition budget (number : json → Z) (req : AgentRequest) : option Z :=
  if decide (Registry.req_Tool req = "agent") then
    let secs := intArg number (req_Args req) "timeout_seconds" 0 in
    if decide (0 < secs) then Some secs else None
  else Some 30.

(** [forwardRunEvents]: the count and the lines are read in two calls, [m'] is the
    manager at the second. *)
Definition forwardRunEvents (w : world) (run : string) (sent : nat) (m m' : RunManager) : nat * list string :=
  match (AgentRuns.Get w run m).2 with
  | None => (0%nat, [])
  | Some snap =>
      if decide (run_EventCount snap ≤ sent)%nat then (0%nat, [])
      else let pending := (run_EventCount snap - sent)%nat in (pending, Events run (Z.of_nat pending) m')
  end.
