(* ===== verification/ToolSurface.v ===== *)
(** * The manager's tools

    [src/internal/manager]: the accounts callers act for ([accounts.go]), which
    tools a caller sees ([tool_policy.go]), what each tool asks of a device
    ([mcp_tools.go]) and how its answer comes back ([mcp_invoke.go]). Server and
    session objects of the MCP library are left out: registering a surface is
    the list of the tools added, and a panic is [None]. *)

From S2P Require Import DeviceAuth.
From S2P Require Import Prelude Entities GoStrings Json Registry ToolOutput.
Open Scope Z_scope.

(** ** Accounts *)

(** [AccountResolver.ForSubject]; [None] is the nil resolver. *)
Definition ForSubject (a : option (gmap string string)) (subject : string) : string :=
  let subject := TrimSpace subject in
  if decide (subject = "") then DefaultAccount
  else
    match a with
    | Some m =>
        let mapped := TrimSpace (default "" (m !! subject)) in
        if decide (mapped ≠ "") then mapped else subject
    | None => subject
    end.

(** [accountFor]: the subject of the request's token, if it has one. *)
Definition accountFor (a : option (gmap string string)) (token : option string) : string :=
  ForSubject a (default "" token).

(** ** The policy *)

Definition builtinToolNames : list string := [
  "list_devices"; "list_workspaces"; "list"; "read"; "edit"; "write";
  "apply_patch"; "rollback_patch"; "bash";
  "agents_list"; "agent"; "agent_start"; "agent_status"; "agent_result";
  "agent_cancel"; "agent_runs"; "permission_grant"].

Definition piCoreTools : list string := [
  "list_devices"; "list_workspaces"; "list"; "read"; "edit"; "write"; "bash";
  "agents_list"; "agent"; "permission_grant";
  "agent_start"; "agent_status"; "agent_result"; "agent_cancel"; "agent_runs"].

Definition isBuiltinTool (name : string) : bool := one_of name builtinToolNames.

(** The body of the loop of [toolDisabledForAccount]: does this device end it? *)
Definition policy_disables (policy : option ToolPolicy) (tool : string) : bool :=
  match policy with
  | None => negb (one_of tool piCoreTools)
  | Some p =>
      if one_of tool (DisabledTools p) then true
      else
        match EnabledTools p with
        | [] => negb (one_of tool piCoreTools)
        | enabled => negb (one_of "*" enabled) && negb (one_of tool enabled)
        end
  end.

Section surface.
Context {W : Type}.
Implicit Types r : Registry W.

Definition toolDisabledForAccount (order : list string) (account tool : string) r : bool :=
  existsb (λ d, policy_disables (d_ToolPolicy d) tool) (ListAccount order account r).

(** The inner loop of [customToolsForAccount]. *)
Fixpoint take_custom (seen : gset string) (l : list CustomTool) : list CustomTool * gset string :=
  match l with
  | [] => ([], seen)
  | c :: l =>
      if bool_decide (ct_Name c ∈ seen) || negb (isBuiltinTool (ct_Tool c)) || bool_decide (ct_Name c = "")
      then take_custom seen l
      else let '(out, seen) := take_custom ({[ct_Name c]} ∪ seen) l in (c :: out, seen)
  end.

Fixpoint take_customs (seen : gset string) (ds : list Device) : list CustomTool :=
  match ds with
  | [] => []
  | d :: ds =>
      match d_ToolPolicy d with
      | None => take_customs seen ds
      | Some p => let '(out, seen) := take_custom seen (CustomTools p) in out ++ take_customs seen ds
      end
  end.

Definition customToolsForAccount (order : list string) (account : string) r : list CustomTool :=
  take_customs ∅ (ListAccount order account r).

(** ** Registration *)

(** An advertised tool, less its description. *)
Record mcpTool : Type := {
  tool_Name : string;
  tool_OutputSchema : schema;
  tool_ReadOnlyHint : bool;
  tool_DestructiveHint : bool;
  tool_Scopes : list string
}.

Definition annotatedTool (scopes : list string) (name : string) (readOnly destructive : bool)
    (outputSource : string) : option mcpTool :=
  outputSchema ← toolOutputSchemas !! outputSource;
  Some {| tool_Name := name; tool_OutputSchema := outputSchema; tool_ReadOnlyHint := readOnly;
          tool_DestructiveHint := destructive; tool_Scopes := scopes |}.

Definition readOnlyTool (scopes : list string) (name : string) : option mcpTool :=
  annotatedTool scopes name true false name.
Definition writeTool (scopes : list string) (name : string) : option mcpTool :=
  annotatedTool scopes name false true name.

(** [toolTable]: how each built-in tool is declared. *)
Definition toolTable : list (string * (list string → string → option mcpTool)) := [
  ("list_devices", readOnlyTool); ("list_workspaces", readOnlyTool); ("list", readOnlyTool);
  ("read", readOnlyTool); ("edit", writeTool); ("write", writeTool); ("apply_patch", writeTool);
  ("rollback_patch", writeTool); ("bash", writeTool); ("agents_list", readOnlyTool);
  ("agent", writeTool); ("agent_start", writeTool); ("agent_status", readOnlyTool);
  ("agent_result", readOnlyTool); ("agent_cancel", writeTool); ("agent_runs", readOnlyTool);
  ("permission_grant", readOnlyTool)].

Definition RegisterOne (scopes : list string) (name : string) : option mcpTool :=
  kf ← find (λ kf, bool_decide (kf.1 = name)) toolTable; kf.2 scopes name.

Definition Register (scopes : list string) : option (list mcpTool) :=
  mapM (RegisterOne scopes) builtinToolNames.

Definition registerCustom (scopes : list string) (c : CustomTool) : option mcpTool :=
  annotatedTool scopes (ct_Name c) true false (ct_Tool c).

Definition registerWithPolicy (scopes : list string) (order : list string) (account : string) r :
    option (list mcpTool) :=
  let disabled name := toolDisabledForAccount order account name r in
  builtins ← mapM (RegisterOne scopes) (filter (λ name, disabled name = false) builtinToolNames);
  customs ← mapM (registerCustom scopes) (customToolsForAccount order account r);
  Some (builtins ++ customs).
End surface.

(** ** Calls *)

(** The calls a caller can make, with the fields of their inputs. *)
Inductive input : Type :=
  | InListDevices
  | InListWorkspaces (device : string)
  | InList (device workspace path : string)
  | InRead (device workspace path : string) (max_bytes : Z)
  | InEdit (device workspace path old_text new_text : string) (preview confirm : bool)
  | InWrite (device workspace path content : string) (preview confirm : bool)
  | InApplyPatch (device workspace : string) (edits : list (string * string * string)) (preview confirm : bool)
  | InRollbackPatch (device workspace checkpoint : string)
  | InBash (device workspace command : string)
  | InAgentsList (device : string)
  | InAgent (device workspace task client agent model thinking : string) (timeout : Z)
  | InAgentStart (device workspace task client agent model thinking : string) (timeout : Z)
  | InAgentStatus (device workspace run : string)
  | InAgentResult (device workspace run : string)
  | InAgentCancel (device workspace run : string)
  | InAgentRuns (device workspace : string) (limit : Z)
  | InPermissionGrant (device workspace request decision : string)
  | InCustom (c : CustomTool) (args : arguments).

(** What a handler does: answer from the registry, or forward a request. *)
Inductive handled : Type :=
  | Devices
  | WorkspacesOf (device : string)
  | Forward (device workspace tool : string) (args : arguments) (progress : bool)
  | Refused.

Definition stringArg (m : arguments) (key def : string) : string :=
  match m !! key with Some (JString v) => v | _ => def end.

Definition args_of (l : list (string * json)) : arguments := list_to_map l.

Definition agent_args (task client agent model thinking : string) (timeout : Z) : arguments := args_of [
  ("task", JString task); ("client", JString client); ("agent", JString agent);
  ("model", JString model); ("thinking", JString thinking); ("timeout_seconds", JInt timeout)].

(** The arguments of a custom tool's request: the preset's, and the caller's over
    them, save for the place. *)
Definition custom_args (c : CustomTool) (args : arguments) : arguments :=
  filter (λ kv : string * json, kv.1 ≠ "device_id" ∧ kv.1 ≠ "workspace") args ∪ ct_Args c.

Definition handle (i : input) : handled :=
  match i with
  | InListDevices => Devices
  | InListWorkspaces d => WorkspacesOf d
  | InList d w path =>
      Forward d w "list" (args_of [("path", JString (if decide (path = "") then "." else path))]) false
  | InRead d w path n =>
      Forward d w "read"
        (args_of [("path", JString path); ("max_bytes", JInt (if decide (n ≤ 0) then 256 * 1024 else n))]) false
  | InEdit d w path old new preview confirm =>
      Forward d w "edit" (args_of [("path", JString path); ("old_text", JString old);
        ("new_text", JString new); ("preview", JBool preview); ("confirm", JBool confirm)]) false
  | InWrite d w path content preview confirm =>
      Forward d w "write" (args_of [("path", JString path); ("content", JString content);
        ("preview", JBool preview); ("confirm", JBool confirm)]) false
  | InApplyPatch d w edits preview confirm =>
      let edit_json '(path, old, new) := JObject [
        ("path", JString path); ("old_text", JString old); ("new_text", JString new)] in
      Forward d w "apply_patch" (args_of [("edits", JArray (edit_json <$> edits));
        ("preview", JBool preview); ("confirm", JBool confirm)]) false
  | InRollbackPatch d w checkpoint =>
      Forward d w "rollback_patch" (args_of [("checkpoint_id", JString checkpoint)]) false
  | InBash d w command => Forward d w "bash" (args_of [("command", JString command)]) false
  | InAgentsList d => Forward d "__catalog__" "agents_list" ∅ false
  | InAgent d w task client agent model thinking timeout =>
      Forward d w "agent" (agent_args task client agent model thinking timeout) true
  | InAgentStart d w task client agent model thinking timeout =>
      Forward d w "agent_start" (agent_args task client agent model thinking timeout) false
  | InAgentStatus d w run => Forward d w "agent_status" (args_of [("run_id", JString run)]) false
  | InAgentResult d w run => Forward d w "agent_result" (args_of [("run_id", JString run)]) false
  | InAgentCancel d w run => Forward d w "agent_cancel" (args_of [("run_id", JString run)]) false
  | InAgentRuns d w limit =>
      Forward d w "agent_runs" (if decide (0 < limit) then args_of [("limit", JInt limit)] else ∅) false
  | InPermissionGrant d w request decision =>
      if bool_decide (d = "") && bool_decide (w = "") then Refused
      else Forward d w "permission_grant"
             (args_of [("request_id", JString request); ("decision", JString decision)]) false
  | InCustom c args =>
      let args := custom_args c args in
      Forward (stringArg args "device_id" "") (stringArg args "workspace" "") (ct_Tool c) args false
  end.

(** [forwardProgress] up to the registry: the call to make; [token]: the request
    carries a progress token. *)
Definition forwardProgress (token : bool) (account device workspace tool : string) (args : arguments)
    (progress : bool) : option callArgs :=
  if bool_decide (device = "") || bool_decide (workspace = "") then None
  else Some {|
    c_account := account; c_deviceID := device;
    c_request := {| req_Tool := tool; req_Workspace := workspace; req_Args := args |};
    c_onEvent := progress && token |}.

(** ... and from the registry's answer; [decode] is [json.Unmarshal] into [any]. *)
Definition forward_result (decode : string → option json) (tool : string) (args : arguments) (raw : string) :
    result string json :=
  let out := if decide (raw = "") then JObject [("ok", JBool true)] else default (JString raw) (decode raw) in
  toolOutputPayload tool (stringArg args "path" "") out.

(** The call to the registry a tool call leads to, if it is forwarded. *)
Definition tool_call (token : bool) (account : string) (i : input) : option callArgs :=
  match handle i with
  | Forward d w tool args progress => forwardProgress token account d w tool args progress
  | _ => None
  end.

(** ** Errors in the audit log *)


Inductive go_err : Type := DeadlineExceeded | Canceled | Message (text : string).

Definition auditErrorKind (err : option go_err) : string :=
  match err with
  | None => ""
  | Some DeadlineExceeded => "timeout"
  | Some Canceled => "canceled"
  | Some (Message m) =>
      if Contains m "offline or unknown" then "device_unavailable"
      else if Contains m "required" || Contains m "unknown workspace" then "invalid_request"
      else "tool_error"
  end.
