(* ===== verification/ToolSpec.v ===== *)
(** * What the manager's tool surface guarantees

    Which tools a caller sees, what a wrapper can be made to do, and that every
    structured answer has the shape its tool declares. *)

From S2P Require Import DeviceAuth.
From S2P Require Import Prelude Entities GoStrings Json Registry RegistrySpec ToolOutput ToolSurface.
Open Scope Z_scope.

(** ** Visibility *)

(** What a device's policy lets callers see: with an allowlist, what is on it; without
    one, the core set; and never what it disables. *)
Definition exposes (policy : option ToolPolicy) (tool : string) : Prop :=
  match policy with
  | None => tool ∈ piCoreTools
  | Some p =>
      (tool ∉ DisabledTools p) ∧
      (if decide (EnabledTools p = []) then tool ∈ piCoreTools
       else "*" ∈ EnabledTools p ∨ tool ∈ EnabledTools p)
  end.

Lemma one_of_false s l : one_of s l = false ↔ s ∉ l.
Proof. rewrite <-not_true_iff_false, one_of_spec. done. Qed.

Lemma policy_disables_spec policy tool : policy_disables policy tool = false ↔ exposes policy tool.
Proof.
  unfold policy_disables, exposes. destruct policy as [p|]; [|by rewrite negb_false_iff, one_of_spec].
  destruct (one_of tool (DisabledTools p)) eqn:E.
  - apply one_of_spec in E. split; [done|]. by intros [? _].
  - apply one_of_false in E. destruct (EnabledTools p) as [|x l]; cbn [decide].
    + rewrite decide_True by done. rewrite negb_false_iff, one_of_spec. tauto.
    + rewrite decide_False by done. rewrite andb_false_iff, !negb_false_iff, !one_of_spec. tauto.
Qed.

Section visibility.
Context {W : Type} `{StreamConn W}.
Implicit Types r : Registry W.

(** A built-in tool is visible to an account exactly when every device of the
    account exposes it: one restrictive device hides a tool for the whole
    account, and devices of other accounts have no say. *)
Theorem builtin_visible order account tool r : NoDup order →
  (∀ id, id ∈ order ↔ is_Some (devices r !! id)) →
  toolDisabledForAccount order account tool r = false ↔
  ∀ id d, view account r !! id = Some d → exposes (d_ToolPolicy d) tool.
Proof.
  intros Hn Ho. pose proof (ListAccount_view account r order Hn Ho) as Hl.
  unfold toolDisabledForAccount. rewrite <-not_true_iff_false, existsb_exists. split.
  - intros Hno id d Hd. apply policy_disables_spec, not_true_iff_false. intros Hx. apply Hno.
    exists (set_online d). split; [|done]. apply list_elem_of_In. rewrite Hl. apply list_elem_of_fmap_2.
    apply list_elem_of_fmap. exists (id, d). split; [done|]. by apply elem_of_map_to_list.
  - intros Hall (d & Hd%list_elem_of_In & Hx). rewrite Hl in Hd.
    apply list_elem_of_fmap in Hd as (d' & -> & Hd). apply list_elem_of_fmap in Hd as ([id d''] & -> & Hd).
    apply elem_of_map_to_list in Hd. apply Hall, policy_disables_spec in Hd. cbn in Hd, Hx. congruence.
Qed.

(** ** Registration *)

Lemma take_custom_ok seen l : let '(out, seen') := take_custom seen l in
  NoDup (ct_Name <$> out) ∧ seen ⊆ seen' ∧
  ∀ c, c ∈ out → isBuiltinTool (ct_Tool c) = true ∧ ct_Name c ≠ "" ∧ (ct_Name c ∉ seen) ∧ ct_Name c ∈ seen'.
Proof.
  revert seen. induction l as [|c l IH]; intros seen; cbn.
  - split; [constructor|]. split; [done|]. by intros c ?%elem_of_nil.
  - destruct (_ || _) eqn:E; [apply IH|]. rewrite !orb_false_iff, negb_false_iff, !bool_decide_eq_false in E.
    destruct E as [[E1 E2] E3]. specialize (IH ({[ct_Name c]} ∪ seen)).
    destruct (take_custom _ l) as [out seen']. destruct IH as (H1 & H2 & H3). cbn. split.
    + apply NoDup_cons. split; [|done]. intros (c' & Heq & (_ & _ & Hc & _)%H3)%list_elem_of_fmap.
      apply Hc. rewrite Heq. apply elem_of_union. left. by apply elem_of_singleton.
    + assert (ct_Name c ∈ seen' ∧ seen ⊆ seen') as [Hin Hsub] by (clear -H2; set_solver).
      split; [done|]. intros c' [->|Hc]%elem_of_cons; [done|].
      destruct (H3 _ Hc) as (? & ? & Hn & ?). split_and!; try done. clear -Hn. set_solver.
Qed.

Lemma take_customs_ok seen ds :
  NoDup (ct_Name <$> take_customs seen ds) ∧
  ∀ c, c ∈ take_customs seen ds → isBuiltinTool (ct_Tool c) = true ∧ ct_Name c ≠ "" ∧ ct_Name c ∉ seen.
Proof.
  revert seen. induction ds as [|d ds IH]; intros seen; cbn; [split; [constructor|by intros c ?%elem_of_nil]|].
  destruct (d_ToolPolicy d) as [p|]; [|apply IH].
  pose proof (take_custom_ok seen (CustomTools p)) as H1. destruct (take_custom seen _) as [out seen'].
  destruct H1 as (N1 & Hs & H1). destruct (IH seen') as [N2 H2]. rewrite fmap_app, NoDup_app. split.
  - split; [done|]. split; [|done]. intros n (c & -> & (_ & _ & _ & Hc)%H1)%list_elem_of_fmap.
    intros (c' & Heq & (_ & _ & Hc')%H2)%list_elem_of_fmap. congruence.
  - intros c [Hc|Hc]%elem_of_app; [destruct (H1 _ Hc) as (? & ? & ? & ?)|destruct (H2 _ Hc) as (? & ? & ?)];
      split_and!; try done. by intros ?%Hs.
Qed.

Lemma RegisterOne_ok scopes name : name ∈ builtinToolNames →
  ∃ t s, RegisterOne scopes name = Some t ∧ tool_Name t = name ∧ toolOutputSchemas !! name = Some s ∧
    tool_OutputSchema t = s ∧ tool_DestructiveHint t = negb (tool_ReadOnlyHint t) ∧ tool_Scopes t = scopes.
Proof.
  intros Hn. unfold builtinToolNames in Hn.
  repeat (apply elem_of_cons in Hn as [->|Hn]; [do 2 eexists; split; [reflexivity|]; by repeat split|]).
  by apply elem_of_nil in Hn.
Qed.

Lemma registerCustom_ok scopes c : isBuiltinTool (ct_Tool c) = true →
  ∃ t s, registerCustom scopes c = Some t ∧ tool_Name t = ct_Name c ∧
    toolOutputSchemas !! ct_Tool c = Some s ∧ tool_OutputSchema t = s.
Proof.
  intros Hb. apply one_of_spec in Hb. destruct (RegisterOne_ok scopes _ Hb) as (t & s & _ & _ & Hs & _).
  unfold registerCustom, annotatedTool. rewrite Hs. cbn. by do 2 eexists.
Qed.

Lemma mapM_names {A} (f : A → option mcpTool) (name : A → string) l :
  (∀ x, x ∈ l → ∃ t, f x = Some t ∧ tool_Name t = name x) →
  ∃ ts, mapM f l = Some ts ∧ (tool_Name <$> ts) = (name <$> l).
Proof.
  induction l as [|x l IH]; intros Hl; [by exists []|].
  destruct (Hl x) as (t & Ht & E); [by left|]. destruct IH as (ts & Hts & Es); [intros y Hy; apply Hl; by right|].
  exists (t :: ts). cbn. rewrite Ht, Hts. cbn. by rewrite E, Es.
Qed.

(** Building the surface of a caller never panics: it is the visible built-in
    tools in their order and then the wrappers; the wrappers have distinct,
    non-empty names and forward to built-in tools; and every tool carries the
    output schema of the tool it runs. *)
Theorem surface_registers scopes order account r :
  ∃ tools, registerWithPolicy scopes order account r = Some tools ∧
    (tool_Name <$> tools) =
      filter (λ name, toolDisabledForAccount order account name r = false) builtinToolNames ++
      (ct_Name <$> customToolsForAccount order account r) ∧
    NoDup (ct_Name <$> customToolsForAccount order account r) ∧
    (∀ c, c ∈ customToolsForAccount order account r → ct_Name c ≠ "" ∧
       ∃ t s, registerCustom scopes c = Some t ∧ toolOutputSchemas !! ct_Tool c = Some s ∧ tool_OutputSchema t = s) ∧
    (∀ name, name ∈ builtinToolNames →
       ∃ t s, RegisterOne scopes name = Some t ∧ toolOutputSchemas !! name = Some s ∧ tool_OutputSchema t = s).
Proof.
  unfold registerWithPolicy. cbv zeta. destruct (take_customs_ok ∅ (ListAccount order account r)) as [N Hc].
  fold (customToolsForAccount order account r) in N, Hc.
  destruct (mapM_names (RegisterOne scopes) Datatypes.id
    (filter (λ name, toolDisabledForAccount order account name r = false) builtinToolNames)) as (bs & -> & Eb).
  { intros x [_ Hx]%list_elem_of_filter. destruct (RegisterOne_ok scopes x Hx) as (t & s & ? & ? & _). by exists t. }
  destruct (mapM_names (registerCustom scopes) ct_Name (customToolsForAccount order account r)) as (cs & -> & Ec).
  { intros c Hx. destruct (registerCustom_ok scopes c) as (t & s & ? & ? & _); [by apply Hc|]. by exists t. }
  exists (bs ++ cs). split; [reflexivity|]. rewrite fmap_app, Eb, Ec, list_fmap_id.
  split; [reflexivity|]. split; [exact N|]. split.
  - intros c Hx. destruct (Hc c Hx) as (Hb & ? & _). split; [done|].
    destruct (registerCustom_ok scopes c Hb) as (t & s & ? & _ & ? & ?). by exists t, s.
  - intros name Hx. destruct (RegisterOne_ok scopes name Hx) as (t & s & ? & _ & ? & ? & _). by exists t, s.
Qed.
End visibility.

(** ** Wrappers *)

(** What a wrapper forwards: always its own tool, on the device and in the
    workspace its operator preset, whatever the caller passes; every other
    argument is the caller's where it gives one and the preset's where it does
    not; and without a preset place the call is refused. *)
Theorem wrapper_pins c args token account :
  let a := custom_args c args in
  (∀ k, a !! k = if decide (k = "device_id" ∨ k = "workspace") then ct_Args c !! k
                 else match args !! k with Some v => Some v | None => ct_Args c !! k end) ∧
  tool_call token account (InCustom c args) =
    (let device := stringArg (ct_Args c) "device_id" "" in
     let workspace := stringArg (ct_Args c) "workspace" "" in
     if bool_decide (device = "") || bool_decide (workspace = "") then None
     else Some {| c_account := account; c_deviceID := device;
                  c_request := {| req_Tool := ct_Tool c; req_Workspace := workspace; req_Args := a |};
                  c_onEvent := false |}).
Proof.
  cbv zeta. assert (∀ k, custom_args c args !! k =
    if decide (k = "device_id" ∨ k = "workspace") then ct_Args c !! k
    else match args !! k with Some v => Some v | None => ct_Args c !! k end) as Hk.
  { intros k. unfold custom_args. case_decide as E.
    - rewrite lookup_union_r; [done|]. apply map_lookup_filter_None. right. intros v _ [H1 H2]. by destruct E.
    - destruct (args !! k) as [v|] eqn:Ek.
      + apply lookup_union_Some_l, map_lookup_filter_Some. split; [done|].
        split; cbn; intros ->; apply E; auto.
      + rewrite lookup_union_r; [done|]. apply map_lookup_filter_None. by left. }
  split; [exact Hk|]. unfold tool_call, handle, forwardProgress. cbv zeta.
  assert (∀ k, k = "device_id" ∨ k = "workspace" →
    stringArg (custom_args c args) k "" = stringArg (ct_Args c) k "") as Hs.
  { intros k E. unfold stringArg. by rewrite Hk, decide_True. }
  rewrite !Hs by auto. done.
Qed.

(** ** Structured answers *)

Definition schema_of (tool : string) : schema := default (SObject [] []) (toolOutputSchemas !! tool).

(** A payload as the tool's client may send it: a bare array for [list], and null
    for no restored files. *)
Definition client_payload (tool : string) (payload : json) : Prop :=
  if decide (tool = "list") then
    ∃ entries, payload = JArray entries ∧ ∀ e, e ∈ entries → conforms dirEntryOutputSchema e = true
  else if decide (tool = "rollback_patch") then
    ∃ fields, payload = JObject fields ∧
      (∀ k, k ∈ ["rolled_back"; "checkpoint_id"; "restored_files"] → is_Some (field k fields)) ∧
      ∀ k v, field k fields = Some v → (k = "restored_files" ∧ v = JNull) ∨
        ∀ p, (k, p) ∈ [("rolled_back", SBool); ("checkpoint_id", SString);
                       ("restored_files", schemaStringArray); ("removed_files", schemaStringArray)] →
        conforms p v = true
  else conforms (schema_of tool) payload = true.

(** The structured output of a forwarded tool conforms to the schema it
    declares, whenever the client sent what its own contract allows; and a
    [list] answer that is no array is an error, not an answer. *)
Theorem tool_payload_conforms tool dir payload : client_payload tool payload →
  ∃ out, toolOutputPayload tool dir payload = Ok out ∧ conforms (schema_of tool) out = true.
Proof.
  unfold client_payload, toolOutputPayload. case_decide as E1; [|case_decide as E2; [|by exists payload]].
  - subst tool. intros (entries & -> & He). cbn [arrayPayload mbind]. eexists. split; [done|].
    assert (conforms (SArray dirEntryOutputSchema) (JArray entries) = true) as Hl by (by apply conforms_array).
    change (schema_of "list") with (SObject [("path", SString); ("entries", SArray dirEntryOutputSchema); ("count", SInt)]
      ["path"; "entries"; "count"]).
    apply conforms_object. split; [intros k Hk|intros k p v Hk Hf].
    + repeat (apply elem_of_cons in Hk as [->|Hk]; [by eexists|]). by apply elem_of_nil in Hk.
    + repeat (apply elem_of_cons in Hk as [[= -> ->]|Hk]; [cbn in Hf; injection Hf as <-; done|]).
      by apply elem_of_nil in Hk.
  - subst tool. intros (fields & -> & Hr & Hf). eexists. split; [done|].
    change (schema_of "rollback_patch") with rollbackOutputSchema.
    set (fields' := match field "restored_files" fields with
                    | Some JNull => set_field "restored_files" (JArray []) fields | _ => fields end).
    assert (∀ k, field k fields' = match field k fields with
      | Some JNull => if decide (k = "restored_files") then Some (JArray []) else Some JNull
      | o => o end) as Hfields.
    { intros k. unfold fields'. destruct (decide (k = "restored_files")) as [->|Hne].
      - destruct (field "restored_files" fields) as [[]|] eqn:E; rewrite ?E; try done. by rewrite field_set.
      - transitivity (field k fields); [|by destruct (field k fields) as [[]|]].
        destruct (field "restored_files" fields) as [[]|]; try done. rewrite field_set.
        destruct (String.eqb_spec "restored_files" k); [by subst|done]. }
    match goal with |- conforms _ ?x = true => assert (x = JObject fields') as -> end.
    { unfold fields'. by destruct (field "restored_files" fields) as [[]|]. }
    apply conforms_object. split.
    + intros k Hk. rewrite Hfields. destruct (Hr k Hk) as [v ->]. destruct v; try done. by case_decide.
    + intros k p v Hk Hv. rewrite Hfields in Hv. destruct (field k fields) as [w|] eqn:E; [|done].
      destruct (Hf _ _ E) as [[-> ->]|Hw].
      * rewrite decide_True in Hv by done. injection Hv as <-.
        repeat (apply elem_of_cons in Hk as [Hk|Hk]; [by simplify_eq|]). by apply elem_of_nil in Hk.
      * specialize (Hw _ Hk). destruct w; try (by injection Hv as <-).
        case_decide; injection Hv as <-; [|done].
        repeat (apply elem_of_cons in Hk as [Hk|Hk]; [by simplify_eq|]). by apply elem_of_nil in Hk.
Qed.

(** The manager's own answers against the schemas they declare. The device
    list conforms exactly when no device of it has null workspaces; the
    workspace list of a device conforms exactly when the device has a
    workspace, since a device without any is answered with null. *)
Theorem own_answers_conform {W} (rfc3339 : time → string) :
  (∀ ds, conforms (schema_of "list_devices") (list_devices_answer rfc3339 ds) = true ↔
     ∀ d, d ∈ ds → d_Workspaces d ≠ None) ∧
  ∀ (r : Registry W) account id v, Workspaces account id r = Ok v →
    conforms (schema_of "list_workspaces") (list_workspaces_answer v) = true ↔
    ∃ c w ws, Get id r = Some c ∧ d_Workspaces (device c) = Some (w :: ws).
Proof.
  split.
  - intros ds. transitivity (conforms (SArray deviceOutputSchema) (JArray (device_json rfc3339 <$> ds)) = true).
    + change (schema_of "list_devices") with (SObject [("devices", SArray deviceOutputSchema); ("count", SInt)]
        ["devices"; "count"]).
      cbn -[deviceOutputSchema device_json]. by rewrite !andb_true_r.
    + rewrite conforms_array. split.
      * intros H d Hd. specialize (H (device_json rfc3339 d) (list_elem_of_fmap_2 _ _ _ Hd)).
        rewrite device_conforms in H. by apply bool_decide_eq_true in H.
      * intros H j (d & -> & Hd)%list_elem_of_fmap. rewrite device_conforms. by apply bool_decide_eq_true_2, H.
  - intros r account id v. transitivity (v ≠ None).
    + change (schema_of "list_workspaces") with (SObject [("workspaces", SArray workspaceOutputSchema); ("count", SInt)]
        ["workspaces"; "count"]).
      destruct v as [v|]; [|by split].
      assert (conforms (SArray workspaceOutputSchema) (JArray (workspace_json <$> v)) = true) as Hv
        by (etransitivity; [exact (workspaces_conform (Some v))|by apply bool_decide_eq_true_2]).
      split; [done|]. intros _. cbn -[workspaceOutputSchema] in Hv |- *. by rewrite Hv.
    + unfold Workspaces in H. destruct (Get id r) as [c|]; [|done]. case_decide; [done|]. injection H as <-.
      destruct (d_Workspaces (device c)) as [[|w ws]|] eqn:E; split; try done.
      * intros (? & ? & ? & [= <-] & ?). congruence.
      * intros _. by exists c, w, ws.
      * intros (? & ? & ? & [= <-] & ?). congruence.
Qed.

(** A device with an allowlist, one without a policy, and a wrapper. *)
Section example.
#[local] Instance silent : StreamConn unit := { WriteJSON _ _ w := Some (Ok w); Close w := w }.
Let dev (id : string) (ws : option (list Workspace)) (p : option ToolPolicy) : Device := {|
  d_ID := id; d_Name := id; d_AccountID := "A"; d_Version := "1"; d_Online := true; d_ConnectedAt := 0;
  d_LastSeen := 0; d_Workspaces := ws; d_ToolPolicy := p |}.
Let narrow : ToolPolicy := {| EnabledTools := ["read"]; DisabledTools := []; CustomTools := [] |}.
Let code : Workspace := {| wk_Name := "code"; wk_Path := ""; wk_Writable := true |}.
Let registry : Registry unit :=
  (Put (dev "b" (Some []) None) None (Put (dev "a" (Some [code]) (Some narrow)) None (NewRegistry [])).1).1.

Lemma order_ok : NoDup ["a"; "b"] ∧ ∀ id, id ∈ ["a"; "b"] ↔ is_Some (devices registry !! id).
Proof.
  split; [apply (bool_decide_unpack _ (dec := NoDup_dec _)); vm_compute; exact I|]. intros id.
  assert (devices registry = {["a" := 0%nat; "b" := 1%nat]}) as -> by (vm_compute; reflexivity).
  rewrite <-elem_of_dom, dom_insert, dom_singleton, elem_of_union, !elem_of_singleton, !elem_of_cons, elem_of_nil.
  tauto.
Qed.

Lemma builtin_visible_witness :
  toolDisabledForAccount ["a"; "b"] "A" "read" registry = false ∧
  ∀ id d, view "A" registry !! id = Some d → exposes (d_ToolPolicy d) "read".
Proof.
  assert (toolDisabledForAccount ["a"; "b"] "A" "read" registry = false) as H by (vm_compute; reflexivity).
  split; [exact H|].
  exact (proj1 (builtin_visible ["a"; "b"] "A" "read" registry (proj1 order_ok) (proj2 order_ok)) H).
Defined.

Lemma tool_payload_conforms_witness : ∃ out,
  toolOutputPayload "rollback_patch" "" (JObject [("rolled_back", JBool true); ("checkpoint_id", JString "c");
    ("restored_files", JNull)]) = Ok out ∧ conforms (schema_of "rollback_patch") out = true.
Proof.
  apply (tool_payload_conforms "rollback_patch" ""). unfold client_payload.
  rewrite decide_False by discriminate. rewrite decide_True by reflexivity.
  eexists. split; [reflexivity|]. split.
  - intros k Hk. repeat (apply elem_of_cons in Hk as [->|Hk]; [by eexists|]). by apply elem_of_nil in Hk.
  - intros k v Hf. destruct (decide (k = "restored_files")) as [->|Hne]; [left; cbn in Hf; by injection Hf|].
    right. intros p Hp.
    repeat (apply elem_of_cons in Hp as [[= -> ->]|Hp]; [first [done|cbn in Hf; by injection Hf as <-]|]).
    by apply elem_of_nil in Hp.
Defined.

Lemma own_answers_conform_witness :
  Workspaces "A" "a" registry = Ok (Some [code]) ∧
  conforms (schema_of "list_workspaces") (list_workspaces_answer (Some [code])) = true ∧
  Workspaces "A" "b" registry = Ok None ∧
  conforms (schema_of "list_workspaces") (list_workspaces_answer None) ≠ true.
Proof.
  assert (Workspaces "A" "a" registry = Ok (Some [code]) ∧ Workspaces "A" "b" registry = Ok None) as [Ha Hb]
    by (split; vm_compute; reflexivity).
  destruct (own_answers_conform (W := unit) (λ _, "t")) as [_ H].
  split; [exact Ha|]. split; [apply (H registry "A" "a" _ Ha)|split; [exact Hb|]].
  - assert (Get "a" registry = Some {| device := dev "a" (Some [code]) (Some narrow); ws := None; pend := ∅; sem := 0 |})
      as -> by (vm_compute; reflexivity).
    do 3 eexists. split; reflexivity.
  - intros (c & w & ws & Hc & Hw)%(H registry "A" "b" _ Hb). vm_compute in Hc. injection Hc as <-. discriminate.
Defined.
End example.
