(* ===== verification/ClientInv.v ===== *)
(** * Lemmas on the client's answers

    The runs a client answers about have known statuses, its requests move the
    run manager by the manager's own steps, and every answer is JSON of the
    declared shape. *)

From S2P Require Import Prelude Entities GoStrings Json AgentRuns AgentSteps AgentInv Permissions Registry.
From S2P Require Import GoPath Paths FileOps Search Patch ToolOutput ClientTools.
Open Scope Z_scope.

(** ** Every stored run is known *)

(** The rows of a store are of runs in [X]. *)
Definition rows_in (X : string → Prop) (s : runStore) : Prop := ∀ rid, is_Some (agent_runs s !! rid) → X rid.

Definition rows_known (m : RunManager) : Prop := store_all (rows_in (λ rid, is_Some (runs m !! rid))) m.

Lemma rows_in_mono (X Y : string → Prop) m : (∀ rid, X rid → Y rid) → store_all (rows_in X) m → store_all (rows_in Y) m.
Proof. intros Hxy Hm s Hs rid Hr. apply Hxy. by apply (Hm s Hs). Qed.

Lemma persist_rows X w rs m : X (id rs) → store_all (rows_in X) m → store_all (rows_in X) (persistLocked w rs m).
Proof.
  intros Hx. apply store_all_write. intros s Hs rid. cbn [agent_runs upsert].
  intros [<-|Hr]%lookup_insert_is_Some'; [done|by apply Hs].
Qed.

Lemma append_rows X w rs src kind pl m : store_all (rows_in X) m →
  store_all (rows_in X) (appendRuntimeEventLocked w rs src kind pl m).2.
Proof. apply store_all_append. by intros ev s H. Qed.

Lemma transition_rows X w rs to m rs' m' : X (id rs) → store_all (rows_in X) m →
  transitionLocked w rs to m = Some (rs', m') → store_all (rows_in X) m'.
Proof.
  intros Hx Hm. unfold transitionLocked. destruct (negb _); [done|]. fold (moved w to rs).
  pose proof (append_rows X w (moved w to rs) "codebridge" (runStatusEventKind to) "" m Hm) as Ha.
  pose proof (append_run w (moved w to rs) "codebridge" (runStatusEventKind to) "" m) as Hr.
  destruct (appendRuntimeEventLocked _ _ _ _ _ _) as [rs1 m1]. cbn [fst snd] in *. intros [= <- <-].
  apply persist_rows; [|done]. rewrite Hr.
  rewrite (proj1 (push_event_fields w "codebridge" (runStatusEventKind to) "" (moved w to rs))).
  by rewrite (proj1 (moved_fields w to rs)).
Qed.

Lemma finish_rows X w rid st res err m : (∀ rs, runs m !! rid = Some rs → X (id rs)) →
  store_all (rows_in X) m → store_all (rows_in X) (finish w rid st res err m).
Proof.
  intros Hx Hm. unfold finish. destruct (runs m !! rid) as [rs|]; [|done].
  destruct (terminalRunStatus _); [done|]. cbv zeta. destruct (negb _); [done|].
  destruct (transitionLocked _ _ _ _) as [[rs1 m1]|] eqn:Ht; [|done].
  apply (transition_rows X) in Ht; [done| |done]. cbn. by apply Hx.
Qed.

Lemma runs_step_dom m m' rid : runs_step m m' → is_Some (runs m !! rid) → is_Some (runs m' !! rid).
Proof. intros [->|? ? ? _ -> _|? ? _ -> _ _] H; [done|rewrite lookup_insert_is_Some'; by right..]. Qed.

Lemma rows_known_step s ev s' : sys_ok s → rows_known (mgr s) → step s ev = Some s' → rows_known (mgr s').
Proof.
  intros Hok Hm Hstep. destruct (sys_ok_step _ _ _ Hok Hstep) as (Hdom & _ & Hok').
  set (X := λ rid, is_Some (runs (mgr s') !! rid)).
  assert (store_all (rows_in X) (mgr s)) as Hx.
  { revert Hm. apply rows_in_mono. intros rid. by apply runs_step_dom. }
  assert (∀ rid rs, runs (mgr s) !! rid = Some rs → X (id rs)) as Hid.
  { intros rid rs Hr. destruct (mo_runs _ (so_mgr _ Hok) _ _ Hr) as [-> _].
    apply (runs_step_dom _ _ _ Hdom). by eexists. }
  change (store_all (rows_in X) (mgr s')). revert Hstep.
  assert (∀ m, m = mgr s' → store_all (rows_in X) m → store_all (rows_in X) (mgr s')) as Hfin by by intros m ->.
  destruct ev as [w profiles ctx pre sp rid|rid|w rid|w rid|w rid line|w rid ctx res e
    |rid|w rid|run buf|sid|sid|]; simpl; intros Hstep.
  - destruct (decide _); [done|].
    destruct (Start _ _ _ _ _ _ _) as [[m' snap]|] eqn:HS; injection Hstep as <-; [|done].
    pose proof (Start_spec _ _ _ _ _ _ _ _ _ HS) as (_&_&_&_&E&_). revert HS. unfold Start.
    destruct ctx; [done|]. destruct (validateRunSpec _) as [[]|]; [|done].
    cbv [mbind result_bind mret result_ret]. destruct (pre _); [done|]. destruct (closed _); [done|].
    set (rs0 := new_run _ rid _) in *.
    pose proof (append_rows X w rs0 "codebridge" "run.queued" "" (mgr s) Hx) as Ha.
    pose proof (append_run w rs0 "codebridge" "run.queued" "" (mgr s)) as Hr.
    destruct (push_event_fields w "codebridge" "run.queued" "" rs0) as (Pid&_).
    destruct (appendRuntimeEventLocked w rs0 _ _ _ _) as [rs1 m1]. cbn [fst snd] in *. intros [= <- _].
    apply persist_rows; [|exact Ha]. rewrite Hr, Pid. unfold X. cbn [mgr]. rewrite E.
    rewrite lookup_insert_eq. by eexists.
  - destruct (_ && _); [|done]. by injection Hstep as <-.
  - destruct (procs s !! rid) as [[]|]; try done. destruct (runs (mgr s) !! rid) eqn:Hr; [|done].
    destruct (life_done _ _); [|done]. injection Hstep as <-. apply finish_rows; [|done]. apply Hid.
  - destruct (procs s !! rid) as [[]|]; try done. destruct (runs (mgr s) !! rid) as [rs|] eqn:Hr; [|done].
    destruct (life_done _ _); [injection Hstep as <-; apply finish_rows; [|done]; apply Hid|].
    destruct (transitionLocked _ _ _ _) as [[rs1 m1]|] eqn:Ht; injection Hstep as <-; [|done].
    by apply (transition_rows X) in Ht; [|by apply (Hid rid)|].
  - injection Hstep as <-. cbn [mgr with_mgr] in *. unfold recordEvent. destruct (runs (mgr s) !! rid) as [rs|]; [|done].
    destruct (terminalRunStatus _); [done|]. cbv zeta. set (rs1 := set_ring _ _ _ _ _ _).
    pose proof (append_rows X w rs1 (Client (spec rs1)) "harness.raw" line (mgr s) Hx) as Ha.
    by destruct (appendRuntimeEventLocked _ _ _ _ _ _).
  - destruct (procs s !! rid) as [[]|]; try done. destruct (runs (mgr s) !! rid) eqn:Hr; [|done].
    destruct (ctx_possible _ _ _); [|done]. injection Hstep as <-. simpl.
    destruct (finishOutcome_finish w rid ctx res e (mgr s)) as (st&e'&->&_). apply finish_rows; [|done]. apply Hid.
  - unfold Cancel in Hstep. destruct (runs (mgr s) !! rid) as [rs|]; [|by injection Hstep as <-].
    destruct (life rs); [|done]. by injection Hstep as <-.
  - injection Hstep as <-. cbn [mgr with_mgr] in *. revert Hx. generalize X. intros Y. unfold AgentRuns.Get.
    destruct (runs (mgr s) !! rid); [done|]. destruct (store (mgr s)) eqn:E; [|done]. destruct (negb _); [done|].
    destruct (get rid _); [|done]. intros H s1 Hs1. by apply H.
  - injection Hstep as <-. cbn [mgr with_mgr] in *. revert Hx. generalize X. intros Y. unfold SubscribeEvents.
    by destruct (closed _).
  - by injection Hstep as <-.
  - injection Hstep as <-. cbn [mgr with_mgr] in *. revert Hx. generalize X. intros Y. unfold Receive.
    by destruct (subscribers _ !! sid) as [[? ? []]|].
  - injection Hstep as <-. cbn [mgr with_mgr] in *. revert Hx. generalize X. intros Y. unfold AgentRuns.Close.
    by destruct (closed _).
Qed.

Lemma NewRunManager_rows w opts file : keys_ok file → rows_known (NewRunManager w opts file).
Proof.
  intros Hk. unfold NewRunManager. destruct (foldl apply_option _ opts) as [[conc cap] path].
  destruct (db_up w); [|done]. intros s. cbn [store runs]. intros HO rid. rewrite HO.
  rewrite loaded_runs by (by eapply openRunStore_keys). by rewrite fmap_is_Some.
Qed.

(** The systems a client's manager reaches. *)
Record client_system (s : system) : Prop := { cs_ok : sys_ok s; cs_rows : rows_known (mgr s) }.

Lemma client_system_start w opts file : keys_ok file → client_system (start_system (NewRunManager w opts file)).
Proof. intros Hk. split; [by apply NewRunManager_ok|by apply NewRunManager_rows]. Qed.

Lemma client_system_step s ev s' : client_system s → step s ev = Some s' → client_system s'.
Proof.
  intros [H1 H2] Hs. split; [by apply (sys_ok_step _ _ _ H1 Hs)|by eapply rows_known_step].
Qed.

Lemma client_system_reachable s0 s : client_system s0 → reachable s0 s → client_system s.
Proof. intros H0. induction 1 as [|s ev s' _ IH Hs]; [done|by eapply client_system_step]. Qed.

(** ** The status of what the manager hands out *)

Definition known_status (s : string) : Prop := s ∈ agentRunStatusValues.

Lemma terminal_known s : terminalRunStatus s = true → known_status s.
Proof.
  unfold terminalRunStatus. rewrite one_of_spec. intros H.
  repeat (apply elem_of_cons in H as [-> |H]; [by apply (bool_decide_unpack _)|]). by apply elem_of_nil in H.
Qed.

Lemma run_known s rid rs : sys_ok s → runs (mgr s) !! rid = Some rs → known_status (status rs) ∧ id rs = rid.
Proof.
  intros Hok Hr. destruct (mo_runs _ (so_mgr _ Hok) _ _ Hr) as [Hid Hrun]. split; [|done].
  destruct (ro_status _ _ Hrun) as [-> |[-> |Ht]]; [..|by apply terminal_known];
    by apply (bool_decide_unpack _).
Qed.

Lemma Get_known s w rid m snap : client_system s → AgentRuns.Get w rid (mgr s) = (m, Some snap) →
  m = mgr s ∧ known_status (run_Status snap) ∧ ∃ rs, runs (mgr s) !! rid = Some rs ∧ snap = snapshotLocked rs.
Proof.
  intros [Hok Hrows]. unfold AgentRuns.Get. destruct (runs (mgr s) !! rid) as [rs|] eqn:Hr.
  - intros [= <- <-]. split; [done|]. split; [by apply (run_known _ _ _ Hok Hr)|by exists rs].
  - destruct (store (mgr s)) as [st|] eqn:Hs; [|done]. destruct (negb _); [done|].
    unfold get. destruct (agent_runs st !! rid) eqn:Hrow; [|done]. exfalso.
    destruct (Hrows st Hs rid) as [? ?]; [by rewrite Hrow; eexists|]. congruence.
Qed.

Lemma Wait_known s rid snap : client_system s → Wait rid (mgr s) = Some snap → known_status (run_Status snap).
Proof.
  intros [Hok Hrows]. unfold Wait. destruct (runs (mgr s) !! rid) as [rs|] eqn:Hr.
  - destruct (done_closed rs); [|done]. intros [= <-]. by apply (run_known _ _ _ Hok Hr).
  - destruct (store (mgr s)) as [st|] eqn:Hs; [|done]. cbn.
    unfold get. destruct (agent_runs st !! rid) eqn:Hrow; [|done]. exfalso.
    destruct (Hrows st Hs rid) as [? ?]; [by rewrite Hrow; eexists|]. congruence.
Qed.

Lemma ListRuns_known s limit snap : sys_ok s → snap ∈ ListRuns limit (mgr s) → known_status (run_Status snap).
Proof.
  intros Hok Hin. assert (snap ∈ merge_sort listed_before (snapshotLocked <$> (map_to_list (runs (mgr s))).*2)) as H.
  { unfold ListRuns in Hin. cbv zeta in Hin. destruct (_ && _); [|done].
    apply elem_of_take in Hin as (i & Hi & _). by apply list_elem_of_lookup_2 in Hi. }
  rewrite merge_sort_Permutation in H. apply list_elem_of_fmap in H as (rs & -> & H).
  apply list_elem_of_fmap in H as ([rid rs'] & -> & H%elem_of_map_to_list). by apply (run_known _ rid _ Hok).
Qed.

(** ** Requests are steps of the run manager *)

Section runs.
Context (e : call_env).

Lemma preflight_runs c spec r c' : preflight e c spec = (r, c') → cl_runs c' = cl_runs c ∧
  cl_disk c' = cl_disk c ∧ cl_service c' = cl_service c ∧ cl_profiles c' = cl_profiles c.
Proof.
  unfold preflight. destruct (resolveSubagentRoot _ _); [|by intros [= _ <-]].
  destruct (subagentPreflight _ _ _ _) as [[] perms]; by intros [= _ <-].
Qed.

Lemma start_run_step ctx spec c : runs (mgr (cl_runs c)) !! ce_run_id e = None →
  let '(r, c') := start_run e ctx spec c in
  cl_disk c' = cl_disk c ∧ cl_service c' = cl_service c ∧
  match r with
  | Err _ => cl_runs c' = cl_runs c
  | Ok snap =>
      step (cl_runs c) (SStart (ce_world e) (cl_profiles c) None (λ _, None) spec (ce_run_id e)) = Some (cl_runs c') ∧
      run_ID snap = ce_run_id e ∧ run_Status snap = RunQueued
  end.
Proof.
  intros Hn. unfold start_run. destruct ctx; [done|]. destruct (validateRunSpec _); [|done].
  destruct (preflight e c _) as [[[]|x] c1] eqn:Hp; destruct (preflight_runs _ _ _ _ Hp) as (E1 & E2 & E3 & E4);
    [|by rewrite E1, E2, E3].
  rewrite E1, E4.
  destruct (Start _ _ _ _ _ _ _) as [[m snap]|x] eqn:HS; [|by rewrite E1, E2, E3].
  split; [done|]. split; [done|]. cbn [step].
  rewrite decide_False by (rewrite Hn; by intros [? ?]). rewrite HS. split; [done|].
  apply Start_spec in HS as (_ & _ & _ & _ & _ & -> & _).
  destruct (push_event_fields (ce_world e) "codebridge" "run.queued" ""
    (new_run (eventCapacity (mgr (cl_runs c))) (ce_run_id e) (normalizeRunSpec (cl_profiles c) spec)))
    as (Hid & _ & Hst & _).
  cbn [snapshotLocked run_ID run_Status]. by rewrite Hid, Hst.
Qed.

Lemma lookupRun_ok run c : client_system (cl_runs c) →
  let '(r, c') := lookupRun e run c in
  cl_disk c' = cl_disk c ∧ cl_service c' = cl_service c ∧ cl_perms c' = cl_perms c ∧ cl_runs c' = cl_runs c ∧
  ∀ snap, r = Ok snap → known_status (run_Status snap) ∧
    ∃ rs, runs (mgr (cl_runs c)) !! run = Some rs ∧ snap = snapshotLocked rs ∧ id rs = run.
Proof.
  intros Hc. unfold lookupRun. case_decide; [done|].
  destruct (AgentRuns.Get _ _ _) as [m [snap|]] eqn:Hg.
  - destruct (Get_known _ _ _ _ _ Hc Hg) as (-> & Hk & rs & Hr & ->). repeat (split; [by destruct c as [? ? []]|]).
    intros ? [= <-]. split; [done|]. exists rs. by destruct (run_known _ _ _ (cs_ok _ Hc) Hr).
  - assert (m = mgr (cl_runs c)) as ->.
    { revert Hg. unfold AgentRuns.Get. destruct (runs _ !! run); [done|]. destruct (store _); [|by intros [= <-]].
      destruct (negb _); [by intros [= <-]|]. destruct (get run _); [done|by intros [= <-]]. }
    by repeat (split; [by destruct c as [? ? []]|]).
Qed.

(** A run that has not ended has a context to cancel. *)
Lemma agentCancel_ok run c : client_system (cl_runs c) →
  let '(r, c') := agentCancel e run c in
  cl_disk c' = cl_disk c ∧ cl_service c' = cl_service c ∧ cl_perms c' = cl_perms c ∧ r ≠ Panics ∧
  (cl_runs c' = cl_runs c ∨ ∃ rid, step (cl_runs c) (SCancel rid) = Some (cl_runs c')) ∧
  (∀ j, r = Answer (Ok j) → ∃ rid s, known_status s ∧ j = agentCancelReply rid s false) ∧
  ∀ rid, r ≠ Awaiting rid.
Proof.
  intros Hc. unfold agentCancel. pose proof (lookupRun_ok run c Hc) as H.
  destruct (lookupRun e run c) as [[snap|x] c1]; destruct H as (E1 & E2 & E3 & E4 & Hs);
    [|rewrite E1, E2, E3, E4; repeat (split; [done|]); split; [by left|done]].
  destruct (Hs snap eq_refl) as (Hk & rs & Hr & -> & Hid). cbn [snapshotLocked run_Status run_ID] in *.
  destruct (terminalRunStatus (status rs)) eqn:Et.
  { rewrite E1, E2, E3, E4. repeat (split; [done|]). split; [by left|]. split; [|done].
    intros j [= <-]. by exists (id rs), (status rs). }
  rewrite E4, Hid. unfold Cancel at 1. rewrite Hr.
  destruct (live_run _ _ _ (so_mgr _ (cs_ok _ Hc)) Hr Et) as [b Hl]. rewrite Hl.
  cbn [cl_disk cl_service cl_perms cl_runs set_system]. rewrite E1, E2, E3.
  repeat (split; [done|]). split; [|done]. right. exists run. cbn [step]. unfold Cancel. by rewrite Hr, Hl.
Qed.
End runs.

(** ** Answers have the declared shape *)

(** An object against an object schema, property by property; what a field of a
    compound schema holds is left to the assumptions. *)
Ltac conform :=
  unfold opt_str, opt_int, opt_bool; repeat case_decide;
  (apply conforms_object; split;
  [ let k := fresh "k" in let Hk := fresh "Hk" in
    intros k Hk; repeat (apply elem_of_cons in Hk as [-> |Hk]; [by eexists|]); by apply elem_of_nil in Hk
  | let k := fresh "k" in let p := fresh "p" in let v := fresh "v" in
    let Hk := fresh "Hk" in let Hf := fresh "Hf" in
    intros k p v Hk Hf;
    repeat (apply elem_of_cons in Hk as [[= -> ->]|Hk];
            [cbn in Hf; first [discriminate Hf | injection Hf as <-; first [reflexivity|assumption]]|]);
    by apply elem_of_nil in Hk ]).

Lemma enum_ok l v : v ∈ l → conforms (SEnum l) (JString v) = true.
Proof. intros H. by apply bool_decide_eq_true_2. Qed.

Lemma map_conforms {A} s (f : A → json) l : (∀ x, x ∈ l → conforms s (f x) = true) →
  conforms (SArray s) (JArray (f <$> l)) = true.
Proof. intros H. apply conforms_array. intros j (x & -> & Hx)%list_elem_of_fmap. by apply H. Qed.

Lemma DirEntry_conforms d : de_Type d ∈ ["file"; "dir"; "symlink"] →
  conforms dirEntryOutputSchema (DirEntry_json d) = true.
Proof. intros H%enum_ok. unfold DirEntry_json, dirEntryOutputSchema. conform. Qed.

Lemma ApplyPatchResult_conforms r : conforms patchOutputSchema (ApplyPatchResult_json r) = true.
Proof.
  assert (conforms (SArray patchSummaryOutputSchema) (JArray (PatchSummary_json <$> Files r)) = true) as Hf
    by by apply map_conforms.
  unfold ApplyPatchResult_json, patchOutputSchema. destruct (Preview r); conform.
Qed.

Lemma bash_conforms command r : conforms bashOutputSchema (bash_json command r) = true.
Proof. unfold bash_json, bashOutputSchema. destruct (br_error r) as [[]|]; conform. Qed.

Lemma grant_conforms request a : conforms permissionGrantOutputSchema (grant_json request a) = true.
Proof.
  unfold permissionGrantOutputSchema. destruct a as [|rule ?|]; cbn [grant_json]; [conform| |conform].
  assert (conforms permissionRuleOutputSchema (PermissionRule_json rule) = true) as Hr.
  { unfold PermissionRule_json, permissionRuleOutputSchema. conform. }
  conform.
Qed.

Lemma catalog_conforms profiles :
  conforms (SObject [("agents", SArray agentCatalogEntryOutputSchema)] ["agents"]) (catalog_json profiles) = true.
Proof.
  assert (conforms (SArray agentCatalogEntryOutputSchema) (JArray (catalog_entry <$> profiles)) = true) as H.
  { apply map_conforms. intros p _. unfold catalog_entry, agentCatalogEntryOutputSchema. conform. }
  unfold catalog_json. conform.
Qed.

Lemma subagent_conforms duration snap : conforms agentOutputSchema (subagent_json duration snap) = true.
Proof. unfold subagent_json, agentOutputSchema. conform. Qed.

Section runs_json.
Variable rfc3339 : time → string.

Lemma start_conforms run : run_Status run = RunQueued →
  conforms agentStartOutputSchema (agentStartReply rfc3339 run) = true.
Proof.
  intros E. unfold agentStartReply, agentStartOutputSchema. rewrite E.
  assert (conforms (SEnum ["queued"; "running"]) (JString RunQueued) = true) by done. conform.
Qed.

Lemma status_conforms now snap : known_status (run_Status snap) →
  conforms agentStatusOutputSchema (agentStatusReply rfc3339 now snap) = true.
Proof. intros H%enum_ok. unfold agentStatusReply, agentStatusOutputSchema. conform. Qed.

Lemma result_conforms snap : known_status (run_Status snap) →
  conforms agentResultOutputSchema (agentResultReply rfc3339 snap) = true.
Proof. intros H%enum_ok. unfold agentResultReply, agentResultOutputSchema. destruct (negb _); conform. Qed.

Lemma cancel_conforms id st b : known_status st → conforms agentCancelOutputSchema (agentCancelReply id st b) = true.
Proof. intros H%enum_ok. unfold agentCancelReply, agentCancelOutputSchema. conform. Qed.

Lemma runs_conform now known : (∀ snap, snap ∈ known → known_status (run_Status snap)) →
  conforms agentRunsOutputSchema (agentRunsReply rfc3339 now known) = true.
Proof.
  intros Hk. assert (conforms (SArray agentRunRowOutputSchema) (JArray (agentRunRow rfc3339 now <$> known)) = true) as H.
  { apply map_conforms. intros snap Hs%Hk%enum_ok. unfold agentRunRow, agentRunRowOutputSchema. conform. }
  unfold agentRunsReply, agentRunsOutputSchema. conform.
Qed.
End runs_json.

(** The kinds of entries [list] shows. *)
Lemma listDirectory_types lim env s t root rel l : (∀ less l, sort_slice env less l ≡ₚ l) →
  listDirectory lim env s t root rel = Ok l → ∀ d, d ∈ l → de_Type d ∈ ["file"; "dir"; "symlink"].
Proof.
  intros Hsort. unfold listDirectory. destruct (resolveAllowedPath _ _ _ _ _); [|done].
  destruct (openWorkspaceRoot _ _ _); [|done]. destruct (root_open _ _ _ _ _) as [[p [| |]]|]; try done.
  case_decide; [done|]. intros [= <-] d. rewrite Hsort, list_elem_of_omap. intros (name & _ & Hd).
  unfold dir_entry in Hd. destruct (t !! _) as [n|]; [|done]. cbn in Hd. destruct (unstattable _ _); [done|].
  destruct (_ && _); [done|]. injection Hd as <-. cbn. destruct n; by apply (bool_decide_unpack _).
Qed.
