(* ===== verification/ClientSpec.v ===== *)
(** * What the client's tools guarantee

    From the manager's tool call to the client's operation, from the client's
    answer to the declared schema, and what a remote request may and may not
    change on the device. *)

From stdpp Require Import pretty.
From S2P Require Import Prelude Entities GoStrings Json AgentRuns AgentSteps AgentInv AgentSpec Permissions PermissionSpec Registry.
From S2P Require Import GoPath Paths FileOps FileSpec Search Patch PatchInv ToolOutput ToolSurface ToolSpec.
From S2P Require Import PatchSpec.
From S2P Require Import ClientTools ClientInv.
Open Scope Z_scope.

(** ** From the manager's call to the client's operation *)

(** What a caller of the manager means by a tool call: the place and the
    operation. *)
Definition meant (i : input) : option (string * operation) :=
  let spec w task client agent model thinking timeout := {|
    AgentRuns.Workspace := w; Task := task; Client := client; Agent := agent; Model := model;
    Thinking := thinking; TimeoutSeconds := timeout |} in
  match i with
  | InListDevices | InListWorkspaces _ | InCustom _ _ => None
  | InList _ w path => Some (w, OList (if decide (path = "") then "." else path))
  | InRead _ w path n => Some (w, ORead path (if decide (n ≤ 0) then 256 * 1024 else n))
  | InEdit _ w path old new preview confirm =>
      Some (w, OPatch [{| Path := path; OldText := old; NewText := new |}] preview confirm)
  | InWrite _ w path content preview confirm =>
      Some (w, OPatch [{| Path := path; OldText := ""; NewText := content |}] preview confirm)
  | InApplyPatch _ w edits preview confirm =>
      Some (w, OPatch (omap (λ '(path, old, new), if decide (path = "") then None
                              else Some {| Path := path; OldText := old; NewText := new |}) edits) preview confirm)
  | InRollbackPatch _ w checkpoint => Some (w, ORollback checkpoint)
  | InBash _ w command => Some (w, OBash command)
  | InAgentsList _ => Some ("__catalog__", OCatalog)
  | InAgent _ w task client agent model thinking timeout => Some (w, OAgent (spec w task client agent model thinking timeout))
  | InAgentStart _ w task client agent model thinking timeout => Some (w, OStart (spec w task client agent model thinking timeout))
  | InAgentStatus _ w run => Some (w, OStatus (TrimSpace run))
  | InAgentResult _ w run => Some (w, OResult (TrimSpace run))
  | InAgentCancel _ w run => Some (w, OCancel (TrimSpace run))
  | InAgentRuns _ w limit => Some (w, ORuns (if decide (limit ≤ 0) then 20 else Z.min limit 100))
  | InPermissionGrant _ w request decision => Some (w, OGrant request decision)
  end.

Section arrives.
Variable number : json → Z.

(** A whole number a [float64] holds exactly arrives as it is. *)
Definition exact_numbers : Prop := ∀ n, Z.abs n ≤ 2 ^ 53 → number (JInt n) = n.

Definition exact_input (i : input) : Prop :=
  match i with
  | InRead _ _ _ n | InAgentRuns _ _ n | InAgent _ _ _ _ _ _ _ n | InAgentStart _ _ _ _ _ _ _ n => Z.abs n ≤ 2 ^ 53
  | _ => True
  end.

Lemma list_omap_fmap_compose {A B C} (f : B → option C) (g : A → B) (l : list A) : omap f (g <$> l) = omap (λ x, f (g x)) l.
Proof. induction l as [|x l IH]; [done|]. cbn. destruct (f (g x)); [f_equal|]; apply IH. Qed.

Lemma intArg_of (m : Registry.arguments) key def n : exact_numbers → Z.abs n ≤ 2 ^ 53 → m !! key = Some (JInt n) →
  intArg number m key def = n.
Proof. intros Hn Hb E. unfold intArg. rewrite E. by apply Hn. Qed.

Lemma spec_arrives tool w task client agent model thinking timeout : exact_numbers → Z.abs timeout ≤ 2 ^ 53 →
  agentRunSpec number {| req_Tool := tool; req_Workspace := w;
                         req_Args := agent_args task client agent model thinking timeout |} = {|
    AgentRuns.Workspace := w; Task := task; Client := client; Agent := agent; Model := model;
    Thinking := thinking; TimeoutSeconds := timeout |}.
Proof. intros Hn Hb. unfold agentRunSpec. cbn [req_Args]. by rewrite (intArg_of _ _ 0 timeout Hn Hb). Qed.

Lemma edits_arrive (l : list (string * string * string)) :
  parseFileEdits (Some (JArray ((λ '(path, old, new), JObject [
    ("path", JString path); ("old_text", JString old); ("new_text", JString new)]) <$> l))) =
  omap (λ '(path, old, new), if decide (path = "") then None
          else Some {| Path := path; OldText := old; NewText := new |}) l.
Proof.
  unfold parseFileEdits. rewrite list_omap_fmap_compose. apply list_omap_ext, Forall2_same_length_lookup_2.
  { done. }
  intros i [[path old] new] y Hx Hy. rewrite Hx in Hy. injection Hy as <-. cbn. destruct (decide (path = "")) as [-> |Hne]; [done|]. by rewrite decide_True.
Qed.

(** What a caller asks of the manager is what the client does: every call the
    manager forwards for a built-in tool is decoded by the client to the
    operation meant, in the workspace meant, with the defaults of both sides
    filled in, as long as its numbers are exact in a [float64]. Of the edits of a
    patch, those without a path are dropped. *)
Theorem request_arrives i token account call w op : exact_numbers → exact_input i →
  tool_call token account i = Some call → meant i = Some (w, op) →
  ClientTools.decode number (c_request call) = op ∧ Registry.req_Workspace (c_request call) = w.
Proof.
  intros Hn Hi Hc Hm. unfold tool_call, forwardProgress in Hc.
  destruct i; cbn [handle] in Hc; try discriminate Hm;
    repeat match type of Hc with (if ?b then _ else _) = _ => destruct b; [discriminate Hc|] end;
    try (match type of Hc with context [if bool_decide ?p && bool_decide ?q then Refused else _] =>
           destruct (bool_decide p && bool_decide q); [discriminate Hc|] end;
         repeat match type of Hc with (if ?b then _ else _) = _ => destruct b; [discriminate Hc|] end);
    injection Hc as <-; injection Hm as <- <-; (split; [|reflexivity]); cbn [c_request];
    try reflexivity.
  - assert (∀ m, m !! "max_bytes" = Some (JInt (if decide (max_bytes ≤ 0) then 256 * 1024 else max_bytes)) →
      m !! "path" = Some (JString path) →
      ClientTools.decode number {| req_Tool := "read"; req_Workspace := workspace; req_Args := m |} =
      ORead path (if decide (max_bytes ≤ 0) then 256 * 1024 else max_bytes)) as H; [|by apply H].
    intros m H1 H2. change (ORead (ClientTools.stringArg m "path" "")
      (let n := intArg number m "max_bytes" maxReadBytes in if decide (n ≤ 0) then maxReadBytes else n) =
      ORead path (if decide (max_bytes ≤ 0) then 256 * 1024 else max_bytes)).
    rewrite (intArg_of m _ maxReadBytes (if decide (max_bytes ≤ 0) then 256 * 1024 else max_bytes) Hn);
      [|case_decide; [done|exact Hi]|exact H1].
    unfold ClientTools.stringArg. rewrite H2. cbv zeta. f_equal.
    destruct (decide (max_bytes ≤ 0)); [done|by rewrite decide_False].
  - change (OPatch (parseFileEdits (Some (JArray ((λ '(path, old, new), JObject [
      ("path", JString path); ("old_text", JString old); ("new_text", JString new)]) <$> edits)))) preview confirm = 
      OPatch (omap (λ '(path, old, new), if decide (path = "") then None
          else Some {| Path := path; OldText := old; NewText := new |}) edits) preview confirm).
    by rewrite edits_arrive.
  - exact (f_equal OAgent (spec_arrives "agent" workspace task client agent model thinking timeout Hn Hi)).
  - exact (f_equal OStart (spec_arrives "agent_start" workspace task client agent model thinking timeout Hn Hi)).
  - change (ORuns (let n := intArg number (if decide (0 < limit) then <["limit" := JInt limit]> ∅ else ∅) "limit" 0 in
      let n := if decide (n ≤ 0) then 20 else n in if decide (100 < n) then 100 else n) =
      ORuns (if decide (limit ≤ 0) then 20 else limit `min` 100)).
    cbv zeta. f_equal. destruct (decide (0 < limit)).
    + rewrite (intArg_of _ _ 0 limit Hn); [|exact Hi|reflexivity]. rewrite !(decide_False (P := limit ≤ 0)) by lia.
      case_decide; lia.
    + change (intArg number ∅ "limit" 0) with 0. rewrite (decide_True (P := limit ≤ 0)) by lia. done.
Qed.
End arrives.

(** ** Answers *)

Definition forwarded (tool : string) : Prop := tool ∈ builtinToolNames ∧ tool ∉ ["list_devices"; "list_workspaces"].

Lemma rollback_payload r : client_payload "rollback_patch" (RollbackResult_json r).
Proof.
  unfold client_payload. rewrite decide_False, decide_True by done.
  unfold RollbackResult_json, nil_strings.
  assert (∀ l, conforms schemaStringArray (JArray (JString <$> l)) = true) as Hs by apply strings_conform.
  eexists. split; [reflexivity|]. split.
  - intros k Hk. repeat (apply elem_of_cons in Hk as [-> |Hk]; [by eexists|]). by apply elem_of_nil in Hk.
  - intros k v Hf. destruct (decide (k = "restored_files")) as [-> |Hne].
    { cbn in Hf. injection Hf as <-. destruct (RestoredFiles r) as [|x l]; [by left|right]. intros p Hk.
      repeat (apply elem_of_cons in Hk as [Hk|Hk]; [simplify_eq; apply (Hs (x :: l))|]). by apply elem_of_nil in Hk. }
    right. intros p Hk.
    repeat (apply elem_of_cons in Hk as [[= -> ->]|Hk]; [cbn in Hf|]); try (by apply elem_of_nil in Hk).
    + by injection Hf as <-.
    + by injection Hf as <-.
    + done.
    + destruct (RemovedFiles r) as [|x l]; [done|]. injection Hf as <-. apply (Hs (x :: l)).
Qed.

(** A tool whose answers are those of its schema. *)
Lemma plain_payload tool j : tool ≠ "list" → tool ≠ "rollback_patch" →
  conforms (schema_of tool) j = true → client_payload tool j.
Proof. intros H1 H2 H. unfold client_payload. by rewrite !decide_False. Qed.

Section answers.
Context (e : call_env).
Hypothesis Hsort : ∀ less l, sort_slice (ce_fs e) less l ≡ₚ l.

Lemma run_bash_answer root command c j c' : run_bash e root command c = (Ok j, c') →
  conforms bashOutputSchema j = true.
Proof. unfold run_bash. destruct (runBash _ _ _) as [[x|] ?]; [|done]. intros [= <- _]. apply bash_conforms. Qed.

Lemma grant_answer_ok request decision c j c' : grant e request decision c = (Ok j, c') →
  conforms permissionGrantOutputSchema j = true.
Proof. unfold grant. destruct (permissionGrant _ _ _ _) as [[a|] ?]; [|done]. intros [= <- _]. apply grant_conforms. Qed.

Lemma patch_payload ws root edits preview confirm c j c' :
  in_workspace e ws root (OPatch edits preview confirm) c = (Ok j, c') → conforms patchOutputSchema j = true.
Proof.
  cbn [in_workspace]. destruct (applyPatch _ _ _ _ _ _ _ _ _ _ _) as [d [r|]]; cbn; [|done].
  intros [= <- _]. apply ApplyPatchResult_conforms.
Qed.

(** What the workspace tools answer with. *)
Lemma workspace_payload ws op c tool j c' : Execute e ws op c = (Ok j, c') →
  match op with
  | OList _ => tool = "list"
  | ORead _ _ => tool = "read"
  | OBash _ => tool = "bash"
  | OPatch _ _ _ => tool ∈ ["edit"; "write"; "apply_patch"]
  | ORollback _ => tool = "rollback_patch"
  | OGrant _ _ => tool = "permission_grant"
  | OCatalog => tool = "agents_list"
  | _ => False
  end → client_payload tool j.
Proof.
  intros H Ht. unfold Execute in H. destruct op; try done; try subst tool;
    try (destruct (Roots _ !! ws) as [root|]; [|done]).
  - cbn in H. destruct (listDirectory _ _ _ _ _ _) as [l|] eqn:E; [|done]. injection H as <- _.
    exists (DirEntry_json <$> l). split; [done|]. intros x (d & -> & Hd)%list_elem_of_fmap.
    by apply DirEntry_conforms, (listDirectory_types _ _ _ _ _ _ _ Hsort E).
  - cbn in H. destruct (readFile _ _ _ _ _ _ _) as [l|] eqn:E; [|done]. injection H as <- _. by apply plain_payload.
  - apply plain_payload; [done..|]. by apply (run_bash_answer root command c _ c').
  - assert (conforms patchOutputSchema j = true) by by eapply patch_payload.
    repeat (apply elem_of_cons in Ht as [-> |Ht]; [by apply plain_payload|]). by apply elem_of_nil in Ht.
  - cbn in H. destruct (rollbackPatch _ _ _ _ _ _ _) as [d [r|]]; cbn in H; [|done]. injection H as <- _.
    apply rollback_payload.
  - apply plain_payload; [done..|]. by eapply grant_answer_ok.
  - injection H as <- _. apply plain_payload; [done..|]. apply catalog_conforms.
Qed.

(** What a request that is not served by the run manager decodes to. *)
Lemma decode_workspace req : Registry.req_Tool req ∈ ["list"; "read"; "bash"; "edit"; "write"; "apply_patch";
    "rollback_patch"; "permission_grant"; "agents_list"] →
  let op := ClientTools.decode (ce_number e) req in
  executeRequest e req = (λ c, let '(r, c') := Execute e (Registry.req_Workspace req) op c in (Answer r, c')) ∧
  match op with
  | OList _ => Registry.req_Tool req = "list"
  | ORead _ _ => Registry.req_Tool req = "read"
  | OBash _ => Registry.req_Tool req = "bash"
  | OPatch _ _ _ => Registry.req_Tool req ∈ ["edit"; "write"; "apply_patch"]
  | ORollback _ => Registry.req_Tool req = "rollback_patch"
  | OGrant _ _ => Registry.req_Tool req = "permission_grant"
  | OCatalog => Registry.req_Tool req = "agents_list"
  | _ => False
  end.
Proof.
  destruct req as [tool ws args]. cbn [Registry.req_Tool]. intros H.
  repeat (apply elem_of_cons in H as [-> |H];
    [split; [reflexivity|first [reflexivity|by apply (bool_decide_unpack _)]]|]).
  by apply elem_of_nil in H.
Qed.
End answers.

(** A request moves the run manager by at most one of the manager's steps. *)
Definition run_step (c c' : client) : Prop :=
  cl_runs c' = cl_runs c ∨ ∃ ev, step (cl_runs c) ev = Some (cl_runs c').

Lemma Execute_runs e ws op c r c' : Execute e ws op c = (r, c') → cl_runs c' = cl_runs c.
Proof.
  unfold Execute. assert (∀ root, in_workspace e ws root op c = (r, c') → cl_runs c' = cl_runs c) as H.
  { intros root. destruct op; cbn [in_workspace]; try by intros [= _ <-].
    - unfold run_bash. by destruct (runBash _ _ _) as [[] ?]; intros [= _ <-].
    - destruct (applyPatch _ _ _ _ _ _ _ _ _ _ _). by intros [= _ <-].
    - destruct (rollbackPatch _ _ _ _ _ _ _). by intros [= _ <-].
    - unfold grant. by destruct (permissionGrant _ _ _ _) as [[] ?]; intros [= _ <-]. }
  destruct op; try by intros [= _ <-]; try (by intros [= _ <-]).
  all: destruct (Roots _ !! ws) as [root|]; [by apply H|by intros [= _ <-]].
Qed.

Lemma start_answer e ctx spec c x c' : runs (mgr (cl_runs c)) !! ce_run_id e = None →
  start_run e ctx spec c = (x, c') → run_step c c' ∧ ∀ snap, x = Ok snap → run_Status snap = RunQueued.
Proof.
  intros Hn Hx. pose proof (start_run_step e ctx spec c Hn) as H. rewrite Hx in H. destruct H as (_ & _ & H).
  destruct x as [snap|]; [|by split; [left|]]. destruct H as (H & _ & Hq). split; [right; by eexists|by intros ? [= <-]].
Qed.

Lemma lookup_answer e run c x c' : client_system (cl_runs c) → lookupRun e run c = (x, c') →
  run_step c c' ∧ ∀ snap, x = Ok snap → known_status (run_Status snap).
Proof.
  intros Hc Hx. pose proof (lookupRun_ok e run c Hc) as H. rewrite Hx in H. destruct H as (_ & _ & _ & E & H).
  split; [by left|]. intros snap Hs. by apply (H snap Hs).
Qed.

(** What a reply's wait may return. *)
Definition reply_ok (tool : string) (r : reply) : Prop :=
  match r with
  | Answer (Ok j) => client_payload tool j
  | Answer (Err _) => True
  | Awaiting _ => tool = "agent"
  | Settling _ => tool = "agent_cancel"
  | Panics => False
  end.

Lemma run_tool_reply e req c r c' : client_system (cl_runs c) → runs (mgr (cl_runs c)) !! ce_run_id e = None →
  Registry.req_Tool req ∈ ["agent"; "agent_start"; "agent_status"; "agent_result"; "agent_cancel"; "agent_runs"] →
  executeRequest e req c = (r, c') → run_step c c' ∧ reply_ok (Registry.req_Tool req) r.
Proof.
  intros Hc Hn Ht. destruct req as [tool ws args]. cbn [Registry.req_Tool] in *.
  repeat (apply elem_of_cons in Ht as [-> |Ht]; [|]); [..|by apply elem_of_nil in Ht].
  - change (executeRequest e _ c) with (runAgentTool e (agentRunSpec (ce_number e) {| req_Tool := "agent"; req_Workspace := ws; req_Args := args |}) c).
    unfold runAgentTool. destruct (start_run _ _ _ _) as [x c1] eqn:Hs.
    apply start_answer in Hs as [Hs _]; [|done]. by destruct x; intros [= <- <-].
  - change (executeRequest e _ c) with (answer_run (agentStartReply (ce_rfc3339 e)) (start_run e None (agentRunSpec (ce_number e)
      {| req_Tool := "agent_start"; req_Workspace := ws; req_Args := args |}) c)).
    destruct (start_run _ _ _ _) as [x c1] eqn:Hs. apply start_answer in Hs as [Hs Hq]; [|done].
    destruct x as [snap|]; intros [= <- <-]; (split; [done|]); [|done].
    apply plain_payload; [done..|]. by apply start_conforms, Hq.
  - change (executeRequest e _ c) with (answer_run (agentStatusReply (ce_rfc3339 e) (now (ce_world e)))
      (lookupRun e (TrimSpace (ClientTools.stringArg args "run_id" "")) c)).
    destruct (lookupRun _ _ _) as [x c1] eqn:Hs. apply lookup_answer in Hs as [Hs Hq]; [|done].
    destruct x as [snap|]; intros [= <- <-]; (split; [done|]); [|done].
    apply plain_payload; [done..|]. by apply status_conforms, Hq.
  - change (executeRequest e _ c) with (answer_run (agentResultReply (ce_rfc3339 e))
      (lookupRun e (TrimSpace (ClientTools.stringArg args "run_id" "")) c)).
    destruct (lookupRun _ _ _) as [x c1] eqn:Hs. apply lookup_answer in Hs as [Hs Hq]; [|done].
    destruct x as [snap|]; intros [= <- <-]; (split; [done|]); [|done].
    apply plain_payload; [done..|]. by apply result_conforms, Hq.
  - change (executeRequest e _ c) with (agentCancel e (TrimSpace (ClientTools.stringArg args "run_id" "")) c).
    intros Hx. pose proof (agentCancel_ok e (TrimSpace (ClientTools.stringArg args "run_id" "")) c Hc) as H.
    rewrite Hx in H. destruct H as (_ & _ & _ & Hp & Hr & Hj & Ha).
    split; [destruct Hr as [Hr|[rid Hr]]; [by left|right; by eexists]|].
    destruct r as [[j|]|rid|rid|]; try done; [|by destruct (Ha rid)].
    destruct (Hj j eq_refl) as (rid & s & Hk & ->). apply plain_payload; [done..|]. by apply cancel_conforms.
  - intros H. injection H as <- <-. split; [by left|]. apply plain_payload; [done..|]. apply runs_conform.
    intros snap. by apply ListRuns_known, cs_ok.
Qed.

Lemma forwarded_cases tool : forwarded tool →
  tool ∈ ["list"; "read"; "bash"; "edit"; "write"; "apply_patch"; "rollback_patch"; "permission_grant"; "agents_list"] ∨
  tool ∈ ["agent"; "agent_start"; "agent_status"; "agent_result"; "agent_cancel"; "agent_runs"].
Proof.
  intros [H Hn]. unfold builtinToolNames in H.
  repeat (apply elem_of_cons in H as [-> |H];
    [first [left; by apply (bool_decide_unpack _)|right; by apply (bool_decide_unpack _)
           |destruct Hn; by apply (bool_decide_unpack _)]|]).
  by apply elem_of_nil in H.
Qed.

Lemma forwarded_step e req c r c' : forwarded (Registry.req_Tool req) → client_system (cl_runs c) →
  runs (mgr (cl_runs c)) !! ce_run_id e = None → (∀ less l, sort_slice (ce_fs e) less l ≡ₚ l) →
  executeRequest e req c = (r, c') → run_step c c' ∧ reply_ok (Registry.req_Tool req) r.
Proof.
  intros [Ht|Ht]%forwarded_cases Hc Hn Hsort Hx; [|by apply (run_tool_reply e req c)].
  destruct (decode_workspace e req Ht) as [E Hop]. rewrite E in Hx. clear E.
  destruct (Execute e _ _ c) as [x c1] eqn:He. injection Hx as <- <-. split; [left; by eapply Execute_runs|].
  destruct x as [j|]; [|done]. cbn. by eapply workspace_payload.
Qed.

(** C13. Every tool the manager forwards is answered in the shape the manager
    declares for it. Whatever requests a client served and however its runs went
    on, the client serves a forwarded call without a panic and moves its run
    manager by the manager's own steps; and when the answer is there (at once, or
    when the wait for the run ends, whatever happened meanwhile) and is no error,
    the manager makes of it a structured output that conforms to the schema of
    the tool. *)
Theorem client_answers_conform w opts file e req c r c' : keys_ok file →
  (∀ less l, sort_slice (ce_fs e) less l ≡ₚ l) → let s0 := start_system (NewRunManager w opts file) in
  reachable s0 (cl_runs c) → runs (mgr (cl_runs c)) !! ce_run_id e = None → forwarded (Registry.req_Tool req) →
  executeRequest e req c = (r, c') →
  reachable s0 (cl_runs c') ∧ r ≠ Panics ∧
  ∀ later expired dir j, reachable s0 (cl_runs later) → resume e expired r later = Some (Ok j) →
    ∃ out, toolOutputPayload (Registry.req_Tool req) dir j = Ok out ∧ conforms (schema_of (Registry.req_Tool req)) out = true.
Proof.
  intros Hk Hsort s0 Hr Hn Ht Hx.
  assert (∀ s, reachable s0 s → client_system s) as Hsys
    by (intros s; apply client_system_reachable; by apply client_system_start).
  destruct (forwarded_step e req c r c' Ht (Hsys _ Hr) Hn Hsort Hx) as [Hstep Hreply].
  split; [|split; [by intros ->|]].
  { destruct Hstep as [->|[ev Hev]]; [done|]. by econstructor. }
  intros later expired dir j Hl Hj. apply tool_payload_conforms. unfold resume in Hj.
  destruct r as [[j'|]|rid|rid|]; try done; cbn in Hreply.
  - by injection Hj as <-.
  - rewrite Hreply. destruct expired; [done|]. destruct (Wait rid _); [|done]. injection Hj as <-.
    apply plain_payload; [done..|]. apply subagent_conforms.
  - rewrite Hreply. apply plain_payload; [done..|]. destruct expired; [injection Hj as <-; by apply cancel_conforms, (bool_decide_unpack _)|].
    destruct (Wait rid _) as [snap|] eqn:Hw; [|done]. injection Hj as <-.
    eapply cancel_conforms, Wait_known; [|exact Hw]. by apply Hsys.
Qed.

(** ** What a remote request may change *)

Definition writing_tools : list string := ["edit"; "write"; "apply_patch"; "rollback_patch"].

Lemma decode_writes number req :
  match ClientTools.decode number req with
  | OPatch _ _ _ | ORollback _ => Registry.req_Tool req ∈ writing_tools
  | _ => True
  end.
Proof.
  unfold ClientTools.decode.
  repeat match goal with
  | |- context [if decide ?P then _ else _] => let E := fresh "E" in
      destruct (decide P) as [E|E]; [try exact I; rewrite E; by apply (bool_decide_unpack _)|]
  | |- context [if one_of ?t ?l then _ else _] => destruct (one_of t l); [exact I|]
  end. exact I.
Qed.

Lemma start_run_disk e ctx spec c : cl_disk (start_run e ctx spec c).2 = cl_disk c.
Proof.
  unfold start_run. destruct ctx; [done|]. destruct (validateRunSpec _); [|done].
  destruct (preflight e c _) as [[[]|x] c1] eqn:Hp; destruct (preflight_runs _ _ _ _ _ Hp) as (_ & E & _); [|done].
  by destruct (Start _ _ _ _ _ _ _) as [[? ?]|].
Qed.

Lemma lookupRun_disk e run c : cl_disk (lookupRun e run c).2 = cl_disk c.
Proof. unfold lookupRun. case_decide; [done|]. by destruct (AgentRuns.Get _ _ _) as [? [?|]]. Qed.

Lemma answer_run_disk f x : cl_disk (answer_run f x).2 = cl_disk x.2.
Proof. by destruct x as [[] ?]. Qed.

Lemma agentCancel_disk e run c : cl_disk (agentCancel e run c).2 = cl_disk c.
Proof.
  unfold agentCancel. pose proof (lookupRun_disk e run c) as H. destruct (lookupRun e run c) as [[snap|] c1]; [|done].
  cbn [snd] in H. destruct (terminalRunStatus _); [done|]. by destruct (Cancel _ _).
Qed.

(** What is not a patch leaves the files alone. *)
Lemma in_workspace_disk e ws root op c : cl_disk (in_workspace e ws root op c).2 = cl_disk c ∨
  (∃ edits preview confirm, op = OPatch edits preview confirm) ∨ ∃ id, op = ORollback id.
Proof.
  destruct op; try (left; reflexivity); cbn [in_workspace].
  - left. unfold run_bash. by destruct (runBash _ _ _) as [[] ?].
  - right. left. by do 3 eexists.
  - right. right. by eexists.
  - left. unfold grant. by destruct (permissionGrant _ _ _ _) as [[] ?].
Qed.

Lemma executeRequest_disk e req c : cl_disk (executeRequest e req c).2 = cl_disk c ∨
  ∃ root, Roots (cl_service c) !! Registry.req_Workspace req = Some root ∧
    cl_disk (executeRequest e req c).2 =
      cl_disk (in_workspace e (Registry.req_Workspace req) root (ClientTools.decode (ce_number e) req) c).2.
Proof.
  unfold executeRequest. destruct (ClientTools.decode _ req) eqn:Eop;
    try (left; first [unfold runAgentTool; pose proof (start_run_disk e (ce_context e) spec c) as H;
                      destruct (start_run _ _ _ _) as [[] ?]; exact H
                     |rewrite answer_run_disk; first [apply start_run_disk|apply lookupRun_disk]
                     |apply agentCancel_disk|done]);
    unfold Execute; (destruct (Roots _ !! _) as [root|]; [right; exists root; split; [done|]|by left]);
    by destruct (in_workspace _ _ _ _ _).
Qed.


(** What the gate asks for is a live request for the command. *)
Lemma asked_live e command s id c p s' : runBash e command s = (Err (PNeeded id c p), s') →
  c = TrimSpace command ∧ c ≠ "" ∧ (permissionDecision "bash" c s').1 = "ask" ∧ live_request (ge_now e) "bash" c id s'.
Proof.
  unfold runBash. case_decide as Hc; [done|]. destruct (permissionDecision _ _ _) as [effect pattern] eqn:Ed.
  case_decide; [done|]. case_decide as Hask; [|unfold exec_in; by destruct (ge_root e)].
  unfold consumeGrantOnce. destruct (find_grant _ _ _); [unfold exec_in; by destruct (ge_root e)|].
  unfold pendingBashRequest. destruct (pending_request _ _ _ _ s) as [i|] eqn:Ep; cbn [default from_option Datatypes.id].
  - apply pending_request_Some in Ep as [_ Hl]. case_decide as Hi; intros Hx; injection Hx as <- <- _ <-.
    + split; [done|]. split; [done|]. rewrite Hask in Ed. split; [|apply parked_live].
      change (permissionDecision "bash" (TrimSpace command) s) with
        (permissionDecision "bash" (TrimSpace command) (parkRequest (ge_now e) (ge_id e) "bash" (TrimSpace command) "" s)) in Ed.
      by rewrite Ed.
    + split; [done|]. split; [done|]. by rewrite Ed.
  - rewrite decide_True by done. intros Hx; injection Hx as <- <- _ <-.
    split; [done|]. split; [done|]. split; [|apply parked_live].
    change (permissionDecision "bash" (TrimSpace command) s) with
      (permissionDecision "bash" (TrimSpace command) (parkRequest (ge_now e) (ge_id e) "bash" (TrimSpace command) "" s)) in Ed.
    by rewrite Ed.
Qed.

(** A once-grant in the store lets the command it is for run. *)
Lemma granted_runs e command s id : let c := TrimSpace command in c ≠ "" →
  (permissionDecision "bash" c s).1 = "ask" → usable_grant c id s → visits (ge_granted e) (perm_granted s) →
  ∃ i, (runBash e command s) = (exec_in e c, spend i s) ∧ usable_grant c i s.
Proof.
  intros c Hc Hask Hu [_ Hv]. unfold runBash. fold c. rewrite decide_False by done.
  destruct (permissionDecision "bash" c s) as [effect pattern]. cbn in Hask. subst effect.
  rewrite decide_False, decide_True by done. unfold consumeGrantOnce.
  destruct (find_grant (ge_granted e) c s) as [i|] eqn:E.
  - apply find_grant_Some in E as [_ Hi]. by exists i.
  - exfalso. eapply find_grant_None; [exact E| |exact Hu]. apply Hv. destruct Hu as [-> _]. by eexists.
Qed.

(** The requests the manager makes of [bash] and [permission_grant] calls. *)
Definition bash_request (ws command : string) : AgentRequest :=
  {| req_Tool := "bash"; Registry.req_Workspace := ws; req_Args := {["command" := JString command]} |}.
Definition grant_request (ws id decision : string) : AgentRequest :=
  {| req_Tool := "permission_grant"; Registry.req_Workspace := ws;
     req_Args := <["request_id" := JString id]> {["decision" := JString decision]} |}.

Lemma executeRequest_bash e ws command c root : Roots (cl_service c) !! ws = Some root →
  executeRequest e (bash_request ws command) c = let '(r, c') := run_bash e root command c in (Answer r, c').
Proof. intros H. unfold executeRequest. cbn -[run_bash]. by rewrite H. Qed.

Lemma executeRequest_grant e ws id decision c root : Roots (cl_service c) !! ws = Some root →
  executeRequest e (grant_request ws id decision) c = let '(r, c') := grant e id decision c in (Answer r, c').
Proof. intros H. unfold executeRequest. cbn -[grant]. by rewrite H. Qed.


(** ** Calls on a sample device *)

(** The sample workspace, whose owner allows agents only; commands are asked for. *)
Definition sample_env_at (time_now : time) (granted pending : list string) : call_env := {|
  ce_number := λ j, match j with JInt n => n | _ => 0 end;
  ce_rfc3339 := pretty; ce_duration := pretty;
  ce_limits := go_limits; ce_fs := FileSpec.sample_env; ce_search := FileSpec.sample_search;
  ce_write := PatchSpec.sample_write; ce_undo := PatchSpec.sample_write; ce_sha256hex := PatchSpec.sample_digest;
  ce_world := {| now := time_now; db_up := true |}; ce_context := None;
  ce_granted := granted; ce_pending := pending; ce_request_id := "pr_1"; ce_run_id := "r1";
  ce_bash := λ _, {| br_writes := ["out"]; br_error := None |};
  ce_code := λ _ _, Err "off" |}.
Definition sample_call : call_env := sample_env_at 7000000000 [] [].

Definition sample_client : client := {|
  cl_service := sample_service; cl_profiles := []; cl_runs := sample_system; cl_disk := PatchSpec.sample_disk;
  cl_perms := {| perm_rules := [{| rule_Effect := "allow"; rule_Tool := "agent"; rule_Pattern := "*"; rule_Reason := "" |}];
                 perm_pending := ∅; perm_granted := ∅ |} |}.

Lemma request_arrives_witness : ∃ call,
  tool_call true "A" (InRead "d" "main" "a.txt" 3) = Some call ∧
  ClientTools.decode (ce_number sample_call) (c_request call) = ORead "a.txt" 3.
Proof.
  eexists. split; [reflexivity|].
  refine (proj1 (request_arrives (ce_number sample_call) (InRead "d" "main" "a.txt" 3) true "A" _ "main" (ORead "a.txt" 3) _ _ _ _));
    [intros n _; reflexivity|vm_compute; discriminate|reflexivity|reflexivity].
Defined.

Definition list_request : AgentRequest :=
  {| req_Tool := "list"; Registry.req_Workspace := "main"; req_Args := {["path" := JString "src"]} |}.
Definition start_request : AgentRequest :=
  {| req_Tool := "agent_start"; Registry.req_Workspace := "main"; req_Args := {["task" := JString "test"]} |}.

Definition started : reply * client := executeRequest sample_call start_request sample_client.

Lemma client_answers_conform_witness : ∃ j out,
  started.1 = Answer (Ok j) ∧ toolOutputPayload "agent_start" "" j = Ok out ∧
  conforms (schema_of "agent_start") out = true ∧ reachable sample_system (cl_runs started.2).
Proof.
  assert (runs (mgr (cl_runs sample_client)) !! ce_run_id sample_call = None) as Hn by (vm_compute; reflexivity).
  destruct (client_answers_conform sample_world sample_options sample_file sample_call start_request sample_client
    started.1 started.2 sample_keys (λ less l, reflexivity l) (reach_start _) Hn) as (Hr & _ & H).
  - split; [apply (bool_decide_unpack _); vm_compute; exact I|].
    intros E. revert E. apply (bool_decide_unpack (¬ _)). vm_compute. exact I.
  - apply surjective_pairing.
  - destruct (H started.2 false "" (match started.1 with Answer (Ok j) => j | _ => JNull end)) as (out & H1 & H2);
      [exact Hr|vm_compute; reflexivity|].
    do 2 eexists. split; [vm_compute; reflexivity|]. split; [exact H1|]. split; [exact H2|exact Hr].
Defined.

Definition write_request : AgentRequest := {|
  req_Tool := "write"; Registry.req_Workspace := "main";
  req_Args := <["path" := JString "n.txt"]> (<["content" := JString "n"]> {["confirm" := JBool true]}) |}.

Definition written : client := (executeRequest sample_call write_request sample_client).2.


Definition asked : client := (executeRequest sample_call (bash_request "main" "ls") sample_client).2.


(** ** Forwarded events of a run *)

(** Lines that arrive between the two calls of [forwardRunEvents] are skipped, and
    the ones it sent are sent again: of two lines and a third that comes between
    the calls, the first is not forwarded, and the third is forwarded twice. *)
Example forwarded_events_race :
  let line l s := recordEvent sample_world "r1" l s in
  let s := start_system (NewRunManager sample_world [] sample_file) in
  let m0 := foldl (λ m l, line l m) (mgr (default s (steps s sample_events))) ["a"; "b"] in
  let m1 := line "c" m0 in
  let '(n, first) := forwardRunEvents sample_world "r1" 0 m0 m1 in
  first = ["b"; "c"] ∧ (forwardRunEvents sample_world "r1" n m1 m1).2 = ["c"].
Proof. vm_compute. split; reflexivity. Qed.
