(* ===== verification/GrpcAgent.v ===== *)
(** * Device sessions and the operator's interface

    [src/internal/manager/grpc_agent.go] and [agent_helpers.go]: the session of a
    device's stream, from its registration to its end; and the operator's
    routes that change devices, [admin_handler.go]. They tie the device store,
    the registry and the run-event broker together.

    The goroutines of a session are its own registration, the reader of its
    stream and the writer; the steps below are their calls to the shared state,
    so that sessions, callers and the operator interleave between any two.
    Decoding a payload ([encoding/json]) is a parameter; nothing is assumed of
    it. *)

From S2P Require Import DeviceAuth.
From S2P Require Import Prelude Entities GoStrings RunBroker Registry.
Open Scope Z_scope.

Definition maxAgentPayloadBytes : Z := 1024 * 1024.

(** [len(s) > maxAgentPayloadBytes] *)
Definition oversize (s : string) : bool := bool_decide (maxAgentPayloadBytes < Z.of_nat (String.length s)).

(** ** Registration requests *)
Record RegisterRequest : Type := {
  reg_EnrollmentCode : string;
  reg_DeviceCredential : string;
  reg_DeviceID : string;
  reg_DeviceName : string;
  reg_Version : string;
  reg_Workspaces : option (list Workspace);
  reg_ToolPolicy : option ToolPolicy
}.

Inductive register_err : Type :=
  | EIdentityRequired | EDeviceIDLength | EDeviceNameLength | EVersionLength | ETooManyWorkspaces
  | EWorkspaceName | EDuplicateWorkspace (name : string).

(** The loop of [sanitizeRegistration] over the workspaces. *)
Fixpoint sanitize_workspaces (seen : gset string) (l : list Workspace) : result register_err (list Workspace) :=
  match l with
  | [] => Ok []
  | w :: l =>
      let name := TrimSpace (wk_Name w) in
      if bool_decide (name = "") || bool_decide (128 < String.length name)%nat then Err EWorkspaceName
      else if decide (name ∈ seen) then Err (EDuplicateWorkspace name)
      else
        rest ← sanitize_workspaces ({[name]} ∪ seen) l;
        Ok ({| wk_Name := name; wk_Path := ""; wk_Writable := wk_Writable w |} :: rest)
  end.

Definition sanitizeRegistration (reg : RegisterRequest) : result register_err RegisterRequest :=
  let id := TrimSpace (reg_DeviceID reg) in
  let name := TrimSpace (reg_DeviceName reg) in
  let version := TrimSpace (reg_Version reg) in
  if bool_decide (id = "") || bool_decide (name = "") then Err EIdentityRequired
  else if decide (128 < String.length id)%nat then Err EDeviceIDLength
  else if decide (256 < String.length name)%nat then Err EDeviceNameLength
  else if decide (64 < String.length version)%nat then Err EVersionLength
  else if decide (64 < length (default [] (reg_Workspaces reg)))%nat then Err ETooManyWorkspaces
  else
    ws ← match reg_Workspaces reg with
         | None => Ok None
         | Some l => l ← sanitize_workspaces ∅ l; Ok (Some l)
         end;
    Ok {| reg_EnrollmentCode := reg_EnrollmentCode reg; reg_DeviceCredential := reg_DeviceCredential reg;
          reg_DeviceID := id; reg_DeviceName := name; reg_Version := version; reg_Workspaces := ws;
          reg_ToolPolicy := reg_ToolPolicy reg |}.

(** ** The stream *)

(** [grpcConn]: the buffered channel to the writer, whether [done] is closed, and
    whether the writer goroutine runs. *)
Record grpcConn : Type := { gc_send : list Envelope; gc_done : bool; gc_writing : bool }.
Definition new_grpcConn : grpcConn := {| gc_send := []; gc_done := false; gc_writing := true |}.
Definition send_buffer : nat := 64.

(** [Send]; [pick]: with both branches ready, the envelope is dropped. *)
Definition Send (pick : bool) (env : Envelope) (c : grpcConn) : option grpcConn :=
  let room := bool_decide (length (gc_send c) < send_buffer)%nat in
  if gc_done c && (pick || negb room) then Some c
  else if room then Some {| gc_send := gc_send c ++ [env]; gc_done := gc_done c; gc_writing := gc_writing c |}
  else None.

Definition grpcConn_Close (c : grpcConn) : grpcConn := {| gc_send := gc_send c; gc_done := true; gc_writing := gc_writing c |}.

(** [grpcAgentAdapter]: an envelope marshals, and decodes to itself. *)
#[export] Instance grpcAgentAdapter : StreamConn grpcConn := {
  WriteJSON pick env c := Ok <$> Send pick env c;
  Close := grpcConn_Close
}.

(** ** Sessions *)
Record live : Type := {
  l_reg : RegisterRequest;
  l_account : string;
  l_conn : nat;
  l_lastSeen : Z (* seconds *)
}.

(** Where a session is in [Connect]: before [VerifyDevice], before the call its
    answer leads to, before [DeviceAccount], before [Put], before the
    acknowledgement, and in the loop. *)
Inductive session : Type :=
  | SVerify (reg : RegisterRequest)
  | SRename (reg : RegisterRequest)
  | SEnroll (reg : RegisterRequest)
  | SAccount (reg : RegisterRequest) (credential : string)
  | SPut (reg : RegisterRequest) (account credential : string)
  | SAck (s : live) (credential : string)
  | SLive (s : live)
  | SClosed (s : live) (* [Connect] is returning; its reader may still handle a message *)
  | SEnded.

Record AgentServer : Type := {
  Auth : Store;
  Reg : Registry grpcConn;
  RunEvents : RunEventBroker;
  sessions : gmap nat session
}.

Definition set_auth (a : Store) (s : AgentServer) : AgentServer := {|
  Auth := a; Reg := Reg s; RunEvents := RunEvents s; sessions := sessions s |}.
Definition set_registry (r : Registry grpcConn) (s : AgentServer) : AgentServer := {|
  Auth := Auth s; Reg := r; RunEvents := RunEvents s; sessions := sessions s |}.
Definition set_broker (b : RunEventBroker) (s : AgentServer) : AgentServer := {|
  Auth := Auth s; Reg := Reg s; RunEvents := b; sessions := sessions s |}.
Definition set_session (k : nat) (x : session) (s : AgentServer) : AgentServer := {|
  Auth := Auth s; Reg := Reg s; RunEvents := RunEvents s; sessions := <[k := x]> (sessions s) |}.

(** What the manager's answers and payloads decode to and are encoded as. *)
Record codec : Type := {
  decode_register : string → option RegisterRequest;
  decode_response : string → option AgentResponse;
  decode_event : string → option protocol.RunEvent;
  decode_heads : string → option (list protocol.RunHead);
  encode_replay : list protocol.RunReplayCursor → string;
  encode_ack : bool → string → string → string (* accepted, message, credential *)
}.

Inductive refusal : Type := ENoFirst | EFirstType | EPayload | ERegistration (e : register_err).

Section agent.
Variable digest : string → string.
Variable js : codec.

(** The first message; [None]: receiving it failed. *)
Definition first_message (first : option Envelope) : result refusal RegisterRequest :=
  match first with
  | None => Err ENoFirst
  | Some env =>
      if decide (env_Type env ≠ TypeRegister) then Err EFirstType
      else
        match decode_register js (env_Payload env) with
        | None => Err EPayload
        | Some reg =>
            match sanitizeRegistration reg with
            | Err e => Err (ERegistration e)
            | Ok reg => Ok reg
            end
        end
  end.

Definition new_device (now : time) (reg : RegisterRequest) (account : string) : Device := {|
  d_ID := reg_DeviceID reg; d_Name := reg_DeviceName reg; d_AccountID := account;
  d_Version := reg_Version reg; d_Online := true; d_ConnectedAt := now; d_LastSeen := now;
  d_Workspaces := reg_Workspaces reg; d_ToolPolicy := reg_ToolPolicy reg |}.

(** Sending on the connection of a session. *)
Definition conn_send (pick : bool) (c : nat) (env : Envelope) (r : Registry grpcConn) :
    option (Registry grpcConn) :=
  conn ← conns r !! c;
  w ← ws conn;
  w ← Send pick env w;
  Some (update_conn c (set_ws (Some w)) r).

Definition second : Z := 10 ^ 9.
Definition heartbeatTimeout : Z := 45 * second.

(** The next step of a registration. [now] is [time.Now().UTC()], with its Unix
    seconds; [e] the surroundings of the call to the device store. *)
Definition register_step (e : call_env) (now : time) (pick : bool) (k : nat) (s : AgentServer) :
    option AgentServer :=
  match sessions s !! k with
  | Some (SVerify reg) =>
      Some (set_session k
        (if VerifyDevice digest (reg_DeviceID reg) (reg_DeviceCredential reg) (Auth s)
         then SRename reg else SEnroll reg) s)
  | Some (SRename reg) =>
      let '(_, a) := UpdateDeviceName e (reg_DeviceID reg) (reg_DeviceName reg) (Auth s) in
      Some (set_session k (SAccount reg "") (set_auth a s))
  | Some (SEnroll reg) =>
      let '(res, a) := EnrollDevice digest e (reg_EnrollmentCode reg) (reg_DeviceID reg) (reg_DeviceName reg)
                         (Auth s) in
      Some (set_session k (match res with Ok credential => SAccount reg credential | Err _ => SEnded end)
              (set_auth a s))
  | Some (SAccount reg credential) =>
      Some (set_session k
        (match DeviceAccount (reg_DeviceID reg) (Auth s) with
         | Some account => SPut reg account credential
         | None => SEnded
         end) s)
  | Some (SPut reg account credential) =>
      let '(r, c) := Put (new_device now reg account) (Some new_grpcConn) (Reg s) in
      Some (set_session k
        (SAck {| l_reg := reg; l_account := account; l_conn := c; l_lastSeen := now / second |} credential)
        (set_registry r s))
  | Some (SAck l credential) =>
      r ← conn_send pick (l_conn l) {|
            env_Type := TypeRegistered; env_RequestID := ""; env_DeviceID := reg_DeviceID (l_reg l);
            env_Payload := encode_ack js true "" credential |} (Reg s);
      Some (set_session k (SLive l) (set_registry r s))
  | _ => None
  end.

(** A message of the device's stream: the reader notes the time, then handles it. *)
Definition heard (now : time) (l : live) : live := {|
  l_reg := l_reg l; l_account := l_account l; l_conn := l_conn l; l_lastSeen := now / second |}.
Definition seen (k : nat) (x : session) (l : live) (now : time) (s : AgentServer) : AgentServer :=
  set_session k x (set_registry (Touch now (reg_DeviceID (l_reg l)) (Reg s)) s).

(** The session whose reader runs, and the session after it heard from the
    device. *)
Definition reading (k : nat) (now : time) (s : AgentServer) : option (live * session) :=
  match sessions s !! k with
  | Some (SLive l) => Some (l, SLive (heard now l))
  | Some (SClosed l) => Some (l, SClosed (heard now l))
  | _ => None
  end.

Definition handle_response (l : live) (env : Envelope) (s : AgentServer) : AgentServer :=
  match decode_response js (env_Payload env) with
  | None => s
  | Some resp =>
      let resp :=
        if oversize (resp_Data resp)
        then {| resp_OK := false; resp_Data := "";
                resp_Error := "agent response exceeded manager payload limit" |}
        else resp in
      set_registry (Deliver (l_conn l) (env_RequestID env) resp (Reg s)) s
  end.

Definition handle_run_event (l : live) (env : Envelope) (s : AgentServer) : AgentServer :=
  if oversize (env_Payload env) then s
  else
    match decode_event js (env_Payload env) with
    | None => s
    | Some ev => set_broker (Accept (l_account l) (reg_DeviceID (l_reg l)) ev (RunEvents s)).1 s
    end.

Definition handle_run_heads (pick : bool) (l : live) (env : Envelope) (s : AgentServer) : option AgentServer :=
  if oversize (env_Payload env) then Some s
  else
    match decode_heads js (env_Payload env) with
    | None => Some s
    | Some heads =>
        match Missing (l_account l) (reg_DeviceID (l_reg l)) heads (RunEvents s) with
        | Err _ | Ok [] => Some s
        | Ok runs =>
            r ← conn_send pick (l_conn l) {|
                  env_Type := TypeRunReplay; env_RequestID := ""; env_DeviceID := reg_DeviceID (l_reg l);
                  env_Payload := encode_replay js runs |} (Reg s);
            Some (set_registry r s)
        end
    end.

Definition receive (pick : bool) (now : time) (k : nat) (env : Envelope) (s : AgentServer) : option AgentServer :=
  match reading k now s with
  | Some (l, x) =>
      let s := seen k x l now s in
      if decide (env_Type env = TypeResponse) then Some (handle_response l env s)
      else if decide (env_Type env = TypeRunEvent) then Some (handle_run_event l env s)
      else if decide (env_Type env = TypeRunHeads) then handle_run_heads pick l env s
      else Some s (* heartbeats and unknown types; progress runs a hook, [DeliverEvent] *)
  | None => None
  end.

(** The writer sends the next envelope; with [done] closed its select may still
    take one. *)
Definition taken (w : grpcConn) : grpcConn := {|
  gc_send := tail (gc_send w); gc_done := gc_done w; gc_writing := gc_writing w |}.
Definition write_next (c : nat) (r : Registry grpcConn) : option (Registry grpcConn * Envelope) :=
  conn ← conns r !! c;
  w ← ws conn;
  match gc_send w with
  | env :: _ => if gc_writing w then Some (update_conn c (set_ws (Some (taken w))) r, env) else None
  | [] => None
  end.

(** The writer ends: [done] is closed, the context is over, or the stream fails. *)
Definition stopped (w : grpcConn) : grpcConn := {|
  gc_send := gc_send w; gc_done := gc_done w; gc_writing := false |}.
Definition writer_stops (c : nat) (r : Registry grpcConn) : Registry grpcConn :=
  update_conn c (λ conn, set_ws (stopped <$> ws conn) conn) r.

(** The main loop ends: the context or the stream did ([None]), or a look at the
    clock finds no recent message. Whether the connection was closed is not
    looked at. *)
Definition ends (clock : option time) (l : live) : bool :=
  match clock with
  | None => true
  | Some now => bool_decide (heartbeatTimeout < now - l_lastSeen l * second)
  end.

Definition leave (clock : option time) (k : nat) (s : AgentServer) : option AgentServer :=
  match sessions s !! k with
  | Some (SLive l) =>
      if ends clock l
      then Some (set_session k (SClosed l)
             (set_registry (Remove (reg_DeviceID (l_reg l)) (l_conn l) (close_ws (l_conn l) (Reg s))) s))
      else None
  | _ => None
  end.

(** ** The operator's routes *)

Definition slash : Ascii.ascii := Ascii.ascii_of_N 47.

(** [strings.Split(strings.Trim(s, "/"), "/")] *)
Fixpoint split_slash (cur : list Ascii.ascii) (l : list Ascii.ascii) : list string :=
  match l with
  | [] => [String.string_of_list_ascii (reverse cur)]
  | c :: l =>
      if decide (c = slash) then String.string_of_list_ascii (reverse cur) :: split_slash [] l
      else split_slash (c :: cur) l
  end.
Fixpoint drop_slashes (l : list Ascii.ascii) : list Ascii.ascii :=
  match l with
  | c :: l' => if decide (c = slash) then drop_slashes l' else l
  | [] => []
  end.
Definition path_parts (s : string) : list string :=
  split_slash [] (reverse (drop_slashes (reverse (drop_slashes (String.list_ascii_of_string s))))).

Definition TrimPrefix (s p : string) : string := default s (CutPrefix s p).

Definition bearerMatches (header want : string) : bool :=
  if decide (want = "") then false else bool_decide (TrimSpace (TrimPrefix header "Bearer ") = want).

Record admin_request : Type := {
  ad_method : string;
  ad_path : string;
  ad_authorization : string;
  ad_ttl_seconds : Z;
  ad_account : string
}.

Inductive admin_reply : Type :=
  | NotFound
  | Unauthorized
  | Page
  | Status (code : Z)
  | EnrollmentCode (code : string) (expires : time)
  | DeviceList (l : list (PublicDevice * bool))
  | Revoked
  | Credential (credential : string)
  | Logs.

Definition maxAdminAccountIDBytes : nat := 128.

Definition createEnrollment (e : call_env) (q : admin_request) (s : AgentServer) : AgentServer * admin_reply :=
  let ttl := if decide (0 < ad_ttl_seconds q) then wrap64 (ad_ttl_seconds q * second) else 10 * 60 * second in
  let account := if decide (TrimSpace (ad_account q) = "") then DefaultAccount else TrimSpace (ad_account q) in
  if decide (maxAdminAccountIDBytes < String.length account)%nat then (s, Status 400)
  else
    let '(res, a) := CreateEnrollment digest e ttl account (Auth s) in
    (set_auth a s, match res with Ok (code, expires) => EnrollmentCode code expires | Err _ => Status 500 end).

Definition listDevices (s : AgentServer) : admin_reply :=
  DeviceList ((λ d, (d, bool_decide (is_Some (devices (Reg s) !! pub_ID d)))) <$> ListDevices (Auth s)).

Definition deviceAction (e : call_env) (q : admin_request) (rest : string) (s : AgentServer) :
    AgentServer * admin_reply :=
  match path_parts rest with
  | [id] =>
      if bool_decide (id = "") || bool_decide (ad_method q ≠ "DELETE") then (s, NotFound)
      else
        let '(res, a) := RevokeDevice e id (Auth s) in
        let s := set_auth a s in
        match res with
        | Err _ => (s, Status 404)
        | Ok _ => (set_registry (Disconnect id (Reg s)).1 s, Revoked)
        end
  | [id; action] =>
      if bool_decide (id = "") || bool_decide (action ≠ "rotate") || bool_decide (ad_method q ≠ "POST")
      then (s, NotFound)
      else
        let '(res, a) := RotateDevice digest e id (Auth s) in
        let s := set_auth a s in
        match res with
        | Err _ => (s, Status 404)
        | Ok credential => (set_registry (Disconnect id (Reg s)).1 s, Credential credential)
        end
  | _ => (s, NotFound)
  end.

Definition ServeHTTP (token : string) (e : call_env) (q : admin_request) (s : AgentServer) :
    AgentServer * admin_reply :=
  if decide (token = "") then (s, NotFound)
  else
    let path := TrimPrefix (ad_path q) "/admin" in
    let get := bool_decide (ad_method q = "GET") in
    if bool_decide (path = "/ui") && get then (s, Page)
    else if negb (bearerMatches (ad_authorization q) token) then (s, Unauthorized)
    else if bool_decide (path = "/enrollments") && bool_decide (ad_method q = "POST") then createEnrollment e q s
    else if bool_decide (path = "/devices") && get then (s, listDevices s)
    else
      match CutPrefix path "/devices/" with
      | Some rest => deviceAction e q rest s
      | None =>
          if (bool_decide (path = "/audit") || bool_decide (path = "/mcp-calls")) && get then (s, Logs)
          else (s, NotFound)
      end.
End agent.
