(* ===== verification/GrpcSpec.v ===== *)
(** * From a caller to an authenticated device

    The manager as a whole: sessions, callers and the operator over the device
    store, the registry and the run-event broker. The registry's steps inside it
    are steps of the registry alone, so what is proved of the registry holds
    here; and what a device can reach is bound to the account it was enrolled
    in. *)

From S2P Require Import DeviceAuth DeviceAuthSpec.
From S2P Require Import Prelude Entities GoStrings RunBroker Registry RegistryInv RegistrySpec GrpcAgent.
Open Scope Z_scope.

Section spec.
Variable digest : string → string.
Variable js : codec.
Variable json_request : AgentRequest → result string string.
Variable token : string. (* of the operator *)

(** ** The system *)
Inductive event : Type :=
  | XConnect (k : nat) (first : option Envelope)
  | XRegister (k : nat) (e : call_env) (now : time) (pick : bool)
  | XReceive (k : nat) (now : time) (pick : bool) (env : Envelope)
  | XLeave (k : nat) (clock : option time)
  | XWrite (c : nat)
  | XStop (c : nat)
  | XCaller (x : @action grpcConn)
  | XAdmin (e : call_env) (q : admin_request).

(** The steps of callers. *)
Definition by_caller {W} (x : @action W) : bool :=
  match x with
  | ACall _ _ | AAcquire _ | AOpen _ | AWrite _ _ | AAnswer _ | ACancel _ => true
  | _ => false
  end.

(** What happened: the device store accepted a device's credential or enrollment
    code, it named the account of the device; and the registry's own facts. *)
Inductive sys_fact : Type :=
  | FAccepted (k : nat) (deviceID : string)
  | FBound (k : nat) (deviceID account : string)
  | FReg (f : fact).

Definition auth_facts (k : nat) (s s' : AgentServer) : list sys_fact :=
  match sessions s !! k, sessions s' !! k with
  | Some (SVerify reg), Some (SRename _) => [FAccepted k (reg_DeviceID reg)]
  | Some (SEnroll reg), Some (SAccount _ _) => [FAccepted k (reg_DeviceID reg)]
  | Some (SAccount reg _), Some (SPut _ account _) => [FBound k (reg_DeviceID reg) account]
  | _, _ => []
  end.

(** The registry's steps inside a step of the system. *)
Definition send_action (pick : bool) (c : nat) (env : Envelope) : @action grpcConn :=
  AStream c (λ w, default w (Send pick env w)).

Definition response_of (resp : AgentResponse) : AgentResponse :=
  if oversize (resp_Data resp)
  then {| resp_OK := false; resp_Data := ""; resp_Error := "agent response exceeded manager payload limit" |}
  else resp.

Definition replay_env (l : live) (runs : list protocol.RunReplayCursor) : Envelope := {|
  env_Type := TypeRunReplay; env_RequestID := ""; env_DeviceID := reg_DeviceID (l_reg l);
  env_Payload := encode_replay js runs |}.

Definition receive_actions (pick : bool) (l : live) (env : Envelope) (s : AgentServer) : list (@action grpcConn) :=
  if decide (env_Type env = TypeResponse) then
    match decode_response js (env_Payload env) with
    | Some resp => [ADeliver (l_conn l) (env_RequestID env) (response_of resp)]
    | None => []
    end
  else if decide (env_Type env = TypeRunEvent) then []
  else if decide (env_Type env = TypeRunHeads) then
    if oversize (env_Payload env) then []
    else
      match decode_heads js (env_Payload env) with
      | Some heads =>
          match Missing (l_account l) (reg_DeviceID (l_reg l)) heads (RunEvents s) with
          | Ok (x :: runs) => [send_action pick (l_conn l) (replay_env l (x :: runs))]
          | _ => []
          end
      | None => []
      end
  else if decide (env_Type env = TypeProgress) then [AProgress (l_conn l) (env_RequestID env) (env_Payload env)]
  else [].

Definition disconnects (e : call_env) (q : admin_request) (s : AgentServer) : list (@action grpcConn) :=
  match ServeHTTP digest token e q s with
  | (_, Revoked) | (_, Credential _) =>
      match CutPrefix (TrimPrefix (ad_path q) "/admin") "/devices/" with
      | Some rest => match path_parts rest with id :: _ => [ADisconnect id] | [] => [] end
      | None => []
      end
  | _ => []
  end.

Definition registry_actions (s : AgentServer) (x : event) : list (@action grpcConn) :=
  match x with
  | XConnect _ _ => []
  | XRegister k _ now pick =>
      match sessions s !! k with
      | Some (SPut reg account _) =>
          [APut (new_device now reg account) (Some new_grpcConn)]
      | Some (SAck l credential) =>
          [send_action pick (l_conn l) {|
             env_Type := TypeRegistered; env_RequestID := ""; env_DeviceID := reg_DeviceID (l_reg l);
             env_Payload := encode_ack js true "" credential |}]
      | _ => []
      end
  | XReceive k now pick env =>
      match reading k now s with
      | Some (l, _) => ATouch now (reg_DeviceID (l_reg l)) :: receive_actions pick l env s
      | None => []
      end
  | XLeave k _ =>
      match sessions s !! k with
      | Some (SLive l) =>
          [AStream (l_conn l) grpcConn_Close; ARemove (reg_DeviceID (l_reg l)) (l_conn l)]
      | _ => []
      end
  | XWrite c => [AStream c taken]
  | XStop c => [AStream c stopped]
  | XCaller x => [x]
  | XAdmin e q => disconnects e q s
  end.

Definition next (s : AgentServer) (x : event) : option AgentServer :=
  match x with
  | XConnect k first =>
      if decide (is_Some (sessions s !! k)) then None
      else Some (set_session k (match first_message js first with Ok reg => SVerify reg | Err _ => SEnded end) s)
  | XRegister k e now pick => register_step digest js e now pick k s
  | XReceive k now pick env => receive js pick now k env s
  | XLeave k clock => leave clock k s
  | XWrite c => '(r, _) ← write_next c (Reg s); Some (set_registry r s)
  | XStop c => Some (set_registry (writer_stops c (Reg s)) s)
  | XCaller x =>
      if by_caller x then '(r, _) ← step json_request (Reg s) x; Some (set_registry r s) else None
  | XAdmin e q => Some (ServeHTTP digest token e q s).1
  end.

Definition sys_step (s : AgentServer) (x : event) : option (AgentServer * list sys_fact) :=
  s' ← next s x;
  '(_, fs) ← run_actions json_request (Reg s) (registry_actions s x);
  Some (s', (FReg <$> fs) ++ match x with XRegister k _ _ _ => auth_facts k s s' | _ => [] end).

Definition new_server (a : Store) (inflight : list Z) : AgentServer := {|
  Auth := a; Reg := NewRegistry inflight; RunEvents := NewRunEventBroker; sessions := ∅ |}.

Inductive sys_reachable (a : Store) (inflight : list Z) : AgentServer → list sys_fact → Prop :=
  | sys_new : sys_reachable a inflight (new_server a inflight) []
  | sys_next s log x s' fs : sys_reachable a inflight s log → sys_step s x = Some (s', fs) →
      sys_reachable a inflight s' (fs ++ log).

Definition registry_log (log : list sys_fact) : list fact :=
  omap (λ f, match f with FReg f => Some f | _ => None end) log.

(** ** The registry inside *)

Lemma run_one r x : run_actions json_request r [x] = step json_request r x.
Proof. cbn. destruct (step json_request r x) as [[r' fs]|]; [|done]. done. Qed.

Lemma conn_send_action pick c env r r' : conn_send pick c env r = Some r' →
  r' = update_conn c (λ conn, set_ws ((λ w, default w (Send pick env w)) <$> ws conn) conn) r.
Proof.
  unfold conn_send. destruct (conns r !! c) as [conn|] eqn:Hc; [cbn|done].
  destruct (ws conn) as [w|] eqn:Hw; [cbn|done]. destruct (Send pick env w) as [w'|] eqn:Hs; [|done].
  intros [= <-]. unfold update_conn. f_equal. apply alter_ext. intros x Hx. simplify_eq. by rewrite Hw; cbn; rewrite Hs.
Qed.

Lemma run_cons r x l r' fs : step json_request r x = Some (r', fs) →
  run_actions json_request r (x :: l) = '(r'', fs') ← run_actions json_request r' l; Some (r'', fs' ++ fs).
Proof. intros H. cbn. by rewrite H. Qed.

Lemma receive_refines pick now k env s s' : receive js pick now k env s = Some s' →
  ∃ fs, run_actions json_request (Reg s) (registry_actions s (XReceive k now pick env)) = Some (Reg s', fs).
Proof.
  unfold receive. cbn [registry_actions]. destruct (reading k now s) as [[l x]|]; [|done].
  rewrite (run_cons _ (ATouch now (reg_DeviceID (l_reg l))) _ (Touch now (reg_DeviceID (l_reg l)) (Reg s)) []) by done.
  set (s1 := seen k x l now s). change (Touch now (reg_DeviceID (l_reg l)) (Reg s)) with (Reg s1).
  unfold receive_actions. case_decide as E1.
  - intros [= <-]. unfold handle_response, response_of.
    destruct (decode_response js (env_Payload env)) as [resp|]; [|by eexists].
    rewrite run_one. cbn. by eexists.
  - case_decide as E2.
    { intros [= <-]. unfold handle_run_event. destruct (oversize _); [by eexists|].
      destruct (decode_event js (env_Payload env)); by eexists. }
    case_decide as E3.
    + unfold handle_run_heads. destruct (oversize _); [intros [= <-]; by eexists|].
      destruct (decode_heads js (env_Payload env)) as [heads|]; [|intros [= <-]; by eexists].
      change (RunEvents s1) with (RunEvents s).
      destruct (Missing _ _ heads (RunEvents s)) as [[|c runs]|]; try (intros [= <-]; by eexists).
      destruct (conn_send pick (l_conn l) _ (Reg s1)) as [r|] eqn:Hc; [|done]. intros [= <-].
      apply conn_send_action in Hc. rewrite run_one. cbn. rewrite Hc. by eexists.
    + intros [= <-]. case_decide; [rewrite run_one|]; by eexists.
Qed.

Lemma disconnects_refines e q s :
  ∃ fs, run_actions json_request (Reg s) (disconnects e q s) = Some (Reg (ServeHTTP digest token e q s).1, fs).
Proof.
  unfold disconnects, ServeHTTP. case_decide; [by eexists|]. cbv zeta.
  destruct (_ && _); [by eexists|]. destruct (negb _); [by eexists|]. destruct (_ && _).
  { unfold createEnrollment. cbv zeta. destruct (decide (maxAdminAccountIDBytes < _)%nat); [by eexists|].
    destruct (CreateEnrollment _ _ _ _ _) as [[[code expires]|] a]; by eexists. }
  destruct (_ && _); [by eexists|].
  destruct (CutPrefix (TrimPrefix (ad_path q) "/admin") "/devices/") as [rest|]; [|destruct (_ && _); by eexists].
  unfold deviceAction. destruct (path_parts rest) as [|id [|act [|]]]; try by eexists.
  - destruct (_ || _); [by eexists|]. destruct (RevokeDevice e id (Auth s)) as [[u|x] a]; [|by eexists].
    rewrite run_one. cbn. by eexists.
  - destruct (_ || _); [by eexists|]. destruct (RotateDevice digest e id (Auth s)) as [[u|x] a]; [|by eexists].
    rewrite run_one. cbn. by eexists.
Qed.

(** Every step of the system does to the registry what the registry's own steps
    do. *)
Lemma registry_refines s x s' : next s x = Some s' →
  ∃ fs, run_actions json_request (Reg s) (registry_actions s x) = Some (Reg s', fs).
Proof.
  destruct x as [k first|k e now pick|k now pick env|k clock|c|c|x|e q]; cbn [next].
  - case_decide; [done|]. intros [= <-]. by eexists.
  - unfold register_step. cbn [registry_actions].
    destruct (sessions s !! k) as [[reg|reg|reg|reg cred|reg account cred|l cred|l|l|]|]; try done; cbn [registry_actions].
    + intros [= <-]. by eexists.
    + destruct (UpdateDeviceName _ _ _ _) as [? a]. intros [= <-]. by eexists.
    + destruct (EnrollDevice _ _ _ _ _ _) as [? a]. intros [= <-]. by eexists.
    + intros [= <-]. by eexists.
    + destruct (Put _ _ _) as [r c] eqn:E. intros [= <-]. rewrite run_one. unfold step. rewrite E. by eexists.
    + destruct (conn_send _ _ _ _) as [r|] eqn:E; [|done]. intros [= <-]. apply conn_send_action in E.
      rewrite run_one. cbn. rewrite E. by eexists.
  - apply receive_refines.
  - unfold leave. cbn [registry_actions]. destruct (sessions s !! k) as [[]|]; try done.
    destruct (ends clock _); [|done]. intros [= <-].
    erewrite run_cons by reflexivity. rewrite run_one. cbn. by eexists.
  - unfold write_next. destruct (conns (Reg s) !! c) as [conn|] eqn:Hc; [cbn|done].
    destruct (ws conn) as [w|] eqn:Hw; [cbn|done].
    destruct (gc_send w) as [|env rest] eqn:Hs; [done|]. destruct (gc_writing w); [|done]. intros [= <-].
    eexists. f_equal. f_equal. cbn. unfold update_conn. f_equal. apply alter_ext. intros y Hy. simplify_eq.
    by rewrite Hw.
  - intros [= <-]. cbn [registry_actions]. rewrite run_one. by eexists.
  - destruct (by_caller x); [|done]. destruct (step json_request (Reg s) x) as [[r fs]|] eqn:E; [|done].
    intros [= <-]. cbn [registry_actions]. rewrite run_one, E. by eexists.
  - intros [= <-]. apply disconnects_refines.
Qed.

(** ** Who is behind a connection *)

(** A session of the device was accepted, and the device store named this account
    for it. *)
Definition certified (log : list sys_fact) (k : nat) (deviceID account : string) : Prop :=
  FAccepted k deviceID ∈ log ∧ FBound k deviceID account ∈ log.

Definition claim (log : list sys_fact) (k : nat) (x : session) : Prop :=
  match x with
  | SVerify _ | SEnroll _ | SEnded => True
  | SRename reg | SAccount reg _ => FAccepted k (reg_DeviceID reg) ∈ log
  | SPut reg account _ => certified log k (reg_DeviceID reg) account
  | SAck l _ | SLive l | SClosed l => certified log k (reg_DeviceID (l_reg l)) (l_account l)
  end.

Record Inv (s : AgentServer) (log : list sys_fact) : Prop := {
  i_session : ∀ k x, sessions s !! k = Some x → claim log k x;
  i_put : ∀ c dev, FReg (FPut c dev) ∈ log → ∃ k, certified log k (d_ID dev) (d_AccountID dev);
  i_broker : ∀ a d run, is_Some (RunEvents s !! (a, d, run)) → ∃ k, certified log k d a;
  i_response : ∀ c id resp, FReg (FResponse c id resp) ∈ log → oversize (resp_Data resp) = false
}.

Lemma certified_mono (log log' : list sys_fact) k d a : log ⊆ log' → certified log k d a → certified log' k d a.
Proof. intros Hs [? ?]. split; auto. Qed.

Lemma claim_mono (log log' : list sys_fact) k x : log ⊆ log' → claim log k x → claim log' k x.
Proof. intros Hs. destruct x; cbn; try done; (try apply certified_mono; auto). Qed.

(** The registry's steps that put a connection or bring a response. *)
Definition brings (x : @action grpcConn) (f : fact) : Prop :=
  match f with
  | FPut _ dev => ∃ w, x = APut dev w
  | FResponse c id resp => x = ADeliver c id resp
  | _ => True
  end.

Lemma returned_brings x k o f : f ∈ returned k o → brings x f.
Proof. destruct o; [by intros ->%list_elem_of_singleton|by intros ?%elem_of_nil]. Qed.
Lemma open_brings x k (r : Registry grpcConn) f : f ∈ open_facts k r → brings x f.
Proof. unfold open_facts. destruct (calls r !! k) as [[a []]|]; first [by intros ?%elem_of_nil|by intros ->%list_elem_of_singleton]. Qed.
Lemma write_brings x k (r : Registry grpcConn) f : f ∈ write_facts k r → brings x f.
Proof. unfold write_facts. destruct (calls r !! k) as [[a []]|]; first [by intros ?%elem_of_nil|by intros ->%list_elem_of_singleton]. Qed.

Lemma step_brings r x r' fs f : step json_request r x = Some (r', fs) → f ∈ fs → brings x f.
Proof.
  destruct x as [j a|j|j|pick j|j|j|dev w|id target|id|now id|c g|c id resp|c id payload]; cbn.
  - destruct (call_lookup j a r) as [[r1 o]|]; [|done]. intros [= <- <-] [Hf|Hf]%elem_of_app;
      [by eapply returned_brings|by apply list_elem_of_singleton in Hf as ->].
  - destruct (call_acquire j r); [|done]. by intros [= <- <-] ?%elem_of_nil.
  - destruct (call_open json_request j r) as [[r1 o]|]; [|done]. intros [= <- <-] [Hf|Hf]%elem_of_app;
      [by eapply returned_brings|by eapply open_brings].
  - destruct (call_write pick j r) as [[r1 [o|]]|]; [..|done]; intros [= <- <-] Hf;
      [by apply list_elem_of_singleton in Hf as ->|by eapply write_brings].
  - destruct (call_answer j r) as [[r1 o]|]; [|done]. by intros [= <- <-] ->%list_elem_of_singleton.
  - destruct (call_cancelled j r) as [[r1 o]|]; [|done]. by intros [= <- <-] ->%list_elem_of_singleton.
  - intros [= <- <-] [->|Hf]%elem_of_cons; [by exists w|].
    destruct (devices r !! d_ID dev); [by apply list_elem_of_singleton in Hf as ->|by apply elem_of_nil in Hf].
  - by intros [= <- <-] ->%list_elem_of_singleton.
  - intros [= <- <-] Hf. destruct (devices r !! id); [by apply list_elem_of_singleton in Hf as ->|by apply elem_of_nil in Hf].
  - by intros [= <- <-] ?%elem_of_nil.
  - by intros [= <- <-] ?%elem_of_nil.
  - by intros [= <- <-] ->%list_elem_of_singleton.
  - intros [= <- <-] [Hf|Hf]%elem_of_app; [|by apply list_elem_of_singleton in Hf as ->].
    destruct (DeliverEvent c id r); [by apply list_elem_of_singleton in Hf as ->|by apply elem_of_nil in Hf].
Qed.

Lemma run_brings l r r' fs f : run_actions json_request r l = Some (r', fs) → f ∈ fs → ∃ x, x ∈ l ∧ brings x f.
Proof.
  revert r r' fs. induction l as [|x l IH]; intros r r' fs; cbn; [by intros [= <- <-] ?%elem_of_nil|].
  destruct (step json_request r x) as [[r1 f1]|] eqn:E; [cbn|done].
  destruct (run_actions json_request r1 l) as [[r2 f2]|] eqn:E2; [|done]. intros [= <- <-] [Hf|Hf]%elem_of_app.
  - destruct (IH _ _ _ E2 Hf) as (y & ? & ?). exists y. split; [by right|done].
  - exists x. split; [by left|by eapply step_brings].
Qed.

Lemma response_bounded resp : oversize (resp_Data (response_of resp)) = false.
Proof. unfold response_of. destruct (oversize (resp_Data resp)) eqn:E; [|done]. by apply bool_decide_eq_false. Qed.

(** What the system's steps bring to the registry. *)
Lemma actions_put s x dev w : next s x ≠ None → APut dev w ∈ registry_actions s x →
  ∃ k e now pick reg account cred, x = XRegister k e now pick ∧ sessions s !! k = Some (SPut reg account cred) ∧
    d_ID dev = reg_DeviceID reg ∧ d_AccountID dev = account.
Proof.
  destruct x as [k first|k e now pick|k now pick env|k clock|c|c|x|e q]; cbn [registry_actions].
  - by intros _ ?%elem_of_nil.
  - intros _ Hin. destruct (sessions s !! k) as [[reg|reg|reg|reg cred|reg account cred|l cred|l|l|]|] eqn:Hk;
      try by apply elem_of_nil in Hin.
    + apply list_elem_of_singleton in Hin. injection Hin as -> ->. by exists k, e, now, pick, reg, account, cred.
    + by apply list_elem_of_singleton in Hin.
  - intros _ Hin. destruct (reading k now s) as [[l x]|]; [|by apply elem_of_nil in Hin].
    apply elem_of_cons in Hin as [?|Hin]; [done|]. unfold receive_actions in Hin.
    repeat case_match; first [by apply elem_of_nil in Hin|by apply list_elem_of_singleton in Hin].
  - intros _ Hin. destruct (sessions s !! k) as [[]|]; try by apply elem_of_nil in Hin.
    apply elem_of_cons in Hin as [?|Hin]; [done|]. by apply list_elem_of_singleton in Hin.
  - by intros _ ?%list_elem_of_singleton.
  - by intros _ ?%list_elem_of_singleton.
  - intros Hn <-%list_elem_of_singleton. done.
  - intros _ Hin. unfold disconnects in Hin.
    repeat case_match; first [by apply elem_of_nil in Hin|by apply list_elem_of_singleton in Hin].
Qed.

Lemma actions_response s x c id resp : next s x ≠ None → ADeliver c id resp ∈ registry_actions s x →
  oversize (resp_Data resp) = false.
Proof.
  destruct x as [k first|k e now pick|k now pick env|k clock|d|d|x|e q]; cbn [registry_actions].
  - by intros _ ?%elem_of_nil.
  - intros _ Hin. destruct (sessions s !! k) as [[reg|reg|reg|reg cred|reg account cred|l cred|l|l|]|];
      first [by apply elem_of_nil in Hin|by apply list_elem_of_singleton in Hin].
  - intros _ Hin. destruct (reading k now s) as [[l x]|]; [|by apply elem_of_nil in Hin].
    apply elem_of_cons in Hin as [?|Hin]; [done|]. unfold receive_actions in Hin.
    repeat case_match; try (first [by apply elem_of_nil in Hin|by apply list_elem_of_singleton in Hin]).
    apply list_elem_of_singleton in Hin. injection Hin as -> -> ->. apply response_bounded.
  - intros _ Hin. destruct (sessions s !! k) as [[]|]; try by apply elem_of_nil in Hin.
    apply elem_of_cons in Hin as [?|Hin]; [done|]. by apply list_elem_of_singleton in Hin.
  - by intros _ ?%list_elem_of_singleton.
  - by intros _ ?%list_elem_of_singleton.
  - intros Hn <-%list_elem_of_singleton. done.
  - intros _ Hin. unfold disconnects in Hin.
    repeat case_match; first [by apply elem_of_nil in Hin|by apply list_elem_of_singleton in Hin].
Qed.

Lemma receive_keeps pick now k env s s' l y : reading k now s = Some (l, y) →
  receive js pick now k env s = Some s' →
  sessions s' = <[k := y]> (sessions s) ∧ Auth s' = Auth s ∧
  (RunEvents s' = RunEvents s ∨
   ∃ ev, RunEvents s' = (Accept (l_account l) (reg_DeviceID (l_reg l)) ev (RunEvents s)).1).
Proof.
  unfold receive. intros ->. set (s1 := seen k y l now s).
  change (sessions s) with (sessions (set_registry (Touch now (reg_DeviceID (l_reg l)) (Reg s)) s)).
  change (<[k := y]> (sessions _)) with (sessions s1). change (Auth s) with (Auth s1).
  change (RunEvents s) with (RunEvents s1). clearbody s1. case_decide.
  { intros [= <-]. unfold handle_response. destruct (decode_response _ _); auto. }
  case_decide.
  { intros [= <-]. unfold handle_run_event. destruct (oversize _); [by auto|].
    destruct (decode_event _ _) as [ev|]; [|by auto]. split; [done|]. split; [done|]. right. by exists ev. }
  case_decide; [|intros [= <-]; by auto]. unfold handle_run_heads.
  destruct (oversize _); [intros [= <-]; by auto|].
  destruct (decode_heads _ _); [|intros [= <-]; by auto].
  destruct (Missing _ _ _ _) as [[|c runs]|]; try (intros [= <-]; by auto).
  destruct (conn_send _ _ _ _); [|done]. intros [= <-]. auto.
Qed.

Lemma Accept_keys account d ev b key : is_Some ((Accept account d ev b).1 !! key) →
  is_Some (b !! key) ∨ ∃ run, key = (account, d, run).
Proof.
  unfold Accept. destruct (_ || _); [by left|]. do 3 (case_decide; [by left|]).
  destruct (accept_event _ ev) as [st r]. cbn. intros [x [[<- _]|[_ Hx]]%lookup_insert_Some]; [right; by eexists|].
  left. by eexists.
Qed.

Lemma admin_keeps e q s : sessions (ServeHTTP digest token e q s).1 = sessions s ∧
  RunEvents (ServeHTTP digest token e q s).1 = RunEvents s.
Proof.
  unfold ServeHTTP. case_decide; [done|]. cbv zeta. destruct (_ && _); [done|]. destruct (negb _); [done|].
  destruct (_ && _).
  { unfold createEnrollment. cbv zeta. destruct (decide (maxAdminAccountIDBytes < _)%nat); [done|].
    by destruct (CreateEnrollment _ _ _ _ _) as [[[]|] a]. }
  destruct (_ && _); [done|].
  destruct (CutPrefix (TrimPrefix (ad_path q) "/admin") "/devices/") as [rest|]; [|by destruct (_ && _)].
  unfold deviceAction. destruct (path_parts rest) as [|id [|act [|]]]; try done; (destruct (_ || _); [done|]).
  - by destruct (RevokeDevice e id (Auth s)) as [[] a].
  - by destruct (RotateDevice digest e id (Auth s)) as [[] a].
Qed.

(** A step changes the sessions to ones whose claims hold, and the broker under
    the key of a session. *)
Lemma next_sessions s log x s' k y : Inv s log → next s x = Some s' → sessions s' !! k = Some y →
  claim (match x with XRegister k _ _ _ => auth_facts k s s' | _ => [] end ++ log) k y.
Proof.
  intros HI Hn Hy. assert (∀ fs k' x', claim log k' x' → claim (fs ++ log) k' x') as Hmono.
  { intros fs k' x'. apply claim_mono. intros f Hf. apply elem_of_app. by right. }
  destruct x as [j first|j e now pick|j now pick env|j clock|c|c|x|e q]; cbn [next] in Hn.
  - case_decide; [done|]. injection Hn as <-. cbn in Hy.
    apply lookup_insert_Some in Hy as [[-> <-]|[_ Hy]]; [by destruct (first_message js first)|by apply (i_session _ _ HI)].
  - assert (∃ z, sessions s' = <[j := z]> (sessions s) ∧ claim (auth_facts j s s' ++ log) j z) as (z & Hz & Hc).
    { unfold register_step in Hn. unfold auth_facts.
      destruct (sessions s !! j) as [[reg|reg|reg|reg cred|reg account cred|l cred|l|l|]|] eqn:Hj; try done;
        pose proof (i_session _ _ HI _ _ Hj) as Hcl.
      - injection Hn as <-. cbn [sessions set_session]. rewrite lookup_insert_eq.
        destruct (VerifyDevice _ _ _ _); eexists; (split; [done|]); [by left|done].
      - destruct (UpdateDeviceName _ _ _ _) as [? a]. injection Hn as <-. eexists. split; [done|].
        exact Hcl.
      - destruct (EnrollDevice _ _ _ _ _ _) as [res a]. injection Hn as <-. cbn [sessions set_session].
        rewrite lookup_insert_eq. destruct res; eexists; (split; [done|]); [by left|done].
      - injection Hn as <-. cbn [sessions set_session]. rewrite lookup_insert_eq.
        destruct (DeviceAccount _ _); eexists; (split; [done|]); [|done]. split; [by right|by left].
      - destruct (Put _ _ _) as [r c]. injection Hn as <-. eexists. split; [done|]. by apply Hmono.
      - destruct (conn_send _ _ _ _) as [r|]; [|done]. injection Hn as <-. eexists. split; [done|]. by apply Hmono. }
    rewrite Hz in Hy. apply lookup_insert_Some in Hy as [[-> <-]|[_ Hy]]; [done|]. by apply Hmono, (i_session _ _ HI).
  - destruct (reading j now s) as [[l x]|] eqn:Hr; [|by unfold receive in Hn; rewrite Hr in Hn].
    destruct (receive_keeps _ _ _ _ _ _ _ _ Hr Hn) as (Hs & _ & _). rewrite Hs in Hy.
    apply lookup_insert_Some in Hy as [[-> <-]|[_ Hy]]; [|by apply (i_session _ _ HI)].
    unfold reading in Hr. destruct (sessions s !! k) as [[]|] eqn:Hk; simplify_eq;
      exact (i_session _ _ HI _ _ Hk).
  - unfold leave in Hn. destruct (sessions s !! j) as [[]|] eqn:Hj; try done. destruct (ends _ _); [|done].
    injection Hn as <-. cbn in Hy. apply lookup_insert_Some in Hy as [[-> <-]|[_ Hy]];
      [exact (i_session _ _ HI _ _ Hj)|by apply (i_session _ _ HI)].
  - destruct (write_next c (Reg s)) as [[]|]; [|done]. injection Hn as <-. by apply (i_session _ _ HI).
  - injection Hn as <-. by apply (i_session _ _ HI).
  - destruct (by_caller x); [|done]. destruct (step json_request (Reg s) x) as [[]|]; [|done].
    injection Hn as <-. by apply (i_session _ _ HI).
  - injection Hn as <-. rewrite (proj1 (admin_keeps e q s)) in Hy. by apply (i_session _ _ HI).
Qed.

Lemma next_broker s log x s' a d run : Inv s log → next s x = Some s' →
  is_Some (RunEvents s' !! (a, d, run)) → ∃ k, certified log k d a.
Proof.
  intros HI Hn Hb. assert (RunEvents s' = RunEvents s ∨ ∃ k l y now ev, reading k now s = Some (l, y) ∧
    RunEvents s' = (Accept (l_account l) (reg_DeviceID (l_reg l)) ev (RunEvents s)).1) as
    [E|(k & l & y & now & ev & Hr & E)].
  { destruct x as [j first|j e now pick|j now pick env|j clock|c|c|x|e q]; cbn [next] in Hn.
    - case_decide; [done|]. injection Hn as <-. by left.
    - left. unfold register_step in Hn.
      destruct (sessions s !! j) as [[reg|reg|reg|reg cred|reg account cred|l cred|l|l|]|]; try done.
      + by injection Hn as <-.
      + destruct (UpdateDeviceName _ _ _ _) as [? ?]. by injection Hn as <-.
      + destruct (EnrollDevice _ _ _ _ _ _) as [? ?]. by injection Hn as <-.
      + by injection Hn as <-.
      + destruct (Put _ _ _) as [? ?]. by injection Hn as <-.
      + destruct (conn_send _ _ _ _) as [?|]; [|done]. by injection Hn as <-.
    - destruct (reading j now s) as [[l x]|] eqn:Hr; [|by unfold receive in Hn; rewrite Hr in Hn].
      destruct (receive_keeps _ _ _ _ _ _ _ _ Hr Hn) as (_ & _ & [?|[ev ?]]); [by left|].
      right. by exists j, l, x, now, ev.
    - unfold leave in Hn. destruct (sessions s !! j) as [[]|]; try done. destruct (ends _ _); [|done].
      injection Hn as <-. by left.
    - destruct (write_next c (Reg s)) as [[]|]; [|done]. injection Hn as <-. by left.
    - injection Hn as <-. by left.
    - destruct (by_caller x); [|done]. destruct (step json_request (Reg s) x) as [[]|]; [|done].
      injection Hn as <-. by left.
    - injection Hn as <-. left. apply admin_keeps. }
  - rewrite E in Hb. by apply (i_broker _ _ HI _ _ run).
  - rewrite E in Hb. apply Accept_keys in Hb as [Hb|[run' [= -> -> _]]]; [by apply (i_broker _ _ HI _ _ run)|].
    exists k. unfold reading in Hr. destruct (sessions s !! k) as [[]|] eqn:Hk; simplify_eq;
      exact (i_session _ _ HI _ _ Hk).
Qed.

Lemma registry_log_app fs own log : (∀ f, FReg f ∉ own) →
  registry_log (((FReg <$> fs) ++ own) ++ log) = fs ++ registry_log log.
Proof.
  intros Hown. unfold registry_log. rewrite !omap_app.
  assert (omap (λ f, match f with FReg f => Some f | _ => None end) own = []) as ->.
  { induction own as [|f own IH]; [done|]. cbn. destruct f as [| |f]; try (apply IH; intros g Hg; eapply Hown; by right).
    exfalso. eapply Hown. by left. }
  rewrite app_nil_r. f_equal. induction fs as [|f fs IH]; cbn; [done|by rewrite IH].
Qed.

Lemma registry_log_in f log : f ∈ registry_log log ↔ FReg f ∈ log.
Proof.
  unfold registry_log. rewrite list_elem_of_omap. split; [|intros Hf; by exists (FReg f)].
  intros (g & Hg & E). destruct g; by simplify_eq.
Qed.

Lemma auth_no_reg k s s' f : FReg f ∉ auth_facts k s s'.
Proof.
  unfold auth_facts. repeat case_match; try apply not_elem_of_nil; by intros ?%list_elem_of_singleton.
Qed.

(** The parts of a step of the system. *)
Lemma sys_step_parts s x s' fs : sys_step s x = Some (s', fs) → ∃ rf own,
  next s x = Some s' ∧ run_actions json_request (Reg s) (registry_actions s x) = Some (Reg s', rf) ∧
  fs = (FReg <$> rf) ++ own ∧ own = match x with XRegister k _ _ _ => auth_facts k s s' | _ => [] end ∧
  ∀ f, FReg f ∉ own.
Proof.
  unfold sys_step. destruct (next s x) as [s1|] eqn:Hn; [cbn|done].
  destruct (registry_refines s x s1 Hn) as [rf Hrf]. rewrite Hrf. cbn. intros [= <- <-].
  exists rf. eexists. split; [done|]. split; [done|]. split; [done|]. split; [done|].
  intros f. destruct x; first [apply auth_no_reg|apply not_elem_of_nil].
Qed.

Lemma Inv_step s log x s' fs : Inv s log → sys_step s x = Some (s', fs) → Inv s' (fs ++ log).
Proof.
  intros HI Hst. destruct (sys_step_parts _ _ _ _ Hst) as (rf & own & Hn & Hrf & -> & Hown & Hno).
  assert (log ⊆ ((FReg <$> rf) ++ own) ++ log) as Hsub by (intros f Hf; apply elem_of_app; by right).
  assert (∀ f, FReg f ∈ ((FReg <$> rf) ++ own) ++ log → FReg f ∈ log ∨ ∃ a, a ∈ registry_actions s x ∧ brings a f) as Hf.
  { intros f [[Hf|Hf]%elem_of_app|Hf]%elem_of_app; [right|by destruct (Hno f)|by left].
    apply list_elem_of_fmap in Hf as (g & [= <-] & Hf). by apply (run_brings _ _ _ _ _ Hrf). }
  assert (next s x ≠ None) as Hne by congruence.
  split.
  - intros k y Hy. pose proof (next_sessions _ _ _ _ _ _ HI Hn Hy) as Hc. rewrite <-Hown in Hc.
    apply (claim_mono (own ++ log)); [|done]. intros f. rewrite !elem_of_app. tauto.
  - intros c dev [Hin|(a & Ha & w & ->)]%Hf.
    + destruct (i_put _ _ HI _ _ Hin) as [k ?]. exists k. by apply (certified_mono log).
    + destruct (actions_put _ _ _ _ Hne Ha) as (k & e & now & pick & reg & account & cred & -> & Hk & -> & ->).
      exists k. apply (certified_mono log); [done|]. exact (i_session _ _ HI _ _ Hk).
  - intros a d run Hb. destruct (next_broker _ _ _ _ _ _ _ HI Hn Hb) as [k ?]. exists k. by apply (certified_mono log).
  - intros c id resp [Hin|(a & Ha & ->)]%Hf; [by apply (i_response _ _ HI c id)|].
    by apply (actions_response _ _ _ _ _ Hne Ha).
Qed.

Lemma sys_invariant a inflight s log : sys_reachable a inflight s log →
  Inv s log ∧ reachable json_request inflight (Reg s) (registry_log log).
Proof.
  induction 1 as [|s log x s' fs _ [HI Hr] Hst].
  - split; [split; cbn|apply reach_new].
    + intros k x Hx. by apply lookup_empty_Some in Hx.
    + by intros c dev ?%elem_of_nil.
    + intros d b run [x Hx]. unfold NewRunEventBroker in Hx. by apply lookup_empty_Some in Hx.
    + by intros c id resp ?%elem_of_nil.
  - split; [by apply (Inv_step s log x)|].
    destruct (sys_step_parts _ _ _ _ Hst) as (rf & own & _ & Hrf & -> & _ & Hno).
    rewrite registry_log_app by done. by apply (run_actions_reachable _ _ _ _ _ _ _ Hr Hrf).
Qed.


(** Run events stay with their device: the broker holds the events of an
    account, a device and a run only if a session of that device was accepted and
    bound to that account by the device store; a session's messages change no
    other key. *)
Theorem run_events_bound a0 inflight s log :
  sys_reachable a0 inflight s log →
  (∀ account d run, is_Some (RunEvents s !! (account, d, run)) →
     ∃ k, FAccepted k d ∈ log ∧ FBound k d account ∈ log) ∧
  ∀ k now pick env l y s', reading k now s = Some (l, y) → receive js pick now k env s = Some s' →
    ∀ account d run, RunEvents s' !! (account, d, run) ≠ RunEvents s !! (account, d, run) →
      account = l_account l ∧ d = reg_DeviceID (l_reg l).
Proof.
  intros Hs. destruct (sys_invariant _ _ _ _ Hs) as [HI _]. split; [exact (i_broker _ _ HI)|].
  intros k now pick env l y s' Hr Hst account d run Hne.
  destruct (receive_keeps _ _ _ _ _ _ _ _ Hr Hst) as (_ & _ & [E|[ev E]]); rewrite E in Hne; [done|].
  unfold Accept in Hne. destruct (_ || _); [done|]. do 3 (case_decide; [done|]).
  destruct (accept_event _ ev) as [st x]. cbn in Hne.
  destruct (decide ((l_account l, reg_DeviceID (l_reg l), protocol.RunID ev) = (account, d, run))) as [[= <- <- _]|Hk];
    [done|]. by rewrite lookup_insert_ne in Hne.
Qed.

(** Revoking a device does not end its session: the operator's request succeeds
    and the device is gone from the device store, yet the registry still has its
    connection and the session still runs; what it sends is handled as before,
    and a request written to it is reported as written and dropped. *)
Theorem revoked_session_goes_on e q rest id s s' :
  path_parts rest = [id] → deviceAction digest e q rest s = (s', Revoked) →
  Devices (state (Auth s')) !! id = None ∧
  devices (Reg s') !! id = devices (Reg s) !! id ∧ sessions s' = sessions s ∧
  (∀ k l now pick env ev, sessions s !! k = Some (SLive l) → env_Type env = TypeRunEvent →
     oversize (env_Payload env) = false → decode_event js (env_Payload env) = Some ev →
     ∃ s'', receive js pick now k env s' = Some s'' ∧
       RunEvents s'' = (Accept (l_account l) (reg_DeviceID (l_reg l)) ev (RunEvents s)).1) ∧
  (∀ c conn w, devices (Reg s') !! id = Some c → conns (Reg s') !! c = Some conn → ws conn = Some w →
     ∀ env, WriteJSON true env w = Some (Ok w)).
Proof.
  intros Hp. unfold deviceAction. rewrite Hp. destruct (_ || _); [done|].
  destruct (RevokeDevice_cases e id (Auth s)) as [[x ->]|[_ ->]]; [done|]. intros [= <-].
  split; [cbn; rewrite saved_state; cbn; apply lookup_delete_eq|].
  assert (∀ c, devices (Reg s) !! id = Some c → (Disconnect id (Reg s)).1 =
    close_ws c (FailPending c "agent disconnected" (Reg s))) as Hdis by (intros c Hc; unfold Disconnect; by rewrite Hc).
  assert (devices (Disconnect id (Reg s)).1 = devices (Reg s)) as Hdev.
  { destruct (devices (Reg s) !! id) as [c|] eqn:Hc; [|unfold Disconnect; by rewrite Hc].
    rewrite (Hdis c eq_refl). cbn. unfold FailPending. by destruct (conns (Reg s) !! c). }
  split; [cbn; by rewrite Hdev|]. split; [done|]. split.
  - intros k l now pick env ev Hk Ht Ho He. unfold receive, reading. cbn [sessions set_registry set_auth]. rewrite Hk, Ht.
    rewrite decide_False by done. rewrite decide_True by done. eexists. split; [done|].
    unfold handle_run_event. by rewrite Ho, He.
  - cbn [Reg set_registry]. rewrite Hdev. intros c conn w Hc. rewrite (Hdis c Hc). unfold close_ws.
    rewrite update_conn_lookup, decide_True by done. intros (conn0 & _ & ->)%fmap_Some. cbn.
    intros (w0 & _ & ->)%fmap_Some env. done.
Qed.
End spec.

(** The operator makes an enrollment code, a device enrolls with it, and a call
    of its account is answered; then the device is revoked. *)
Section example.
Let digest (s : string) : string := s.
Let request : RegisterRequest := {|
  reg_EnrollmentCode := "enr_1"; reg_DeviceCredential := ""; reg_DeviceID := "dev"; reg_DeviceName := "laptop";
  reg_Version := "1"; reg_Workspaces := Some []; reg_ToolPolicy := None |}.
Let ev : protocol.RunEvent := {|
  protocol.RunID := "r"; protocol.Seq := 1; protocol.At := 0; protocol.Source := ""; protocol.Kind := "log";
  protocol.Payload := "" |}.
Let js : codec := {|
  decode_register _ := Some request;
  decode_response p := Some {| resp_OK := true; resp_Data := p; resp_Error := "" |};
  decode_event _ := Some ev; decode_heads _ := None; encode_replay _ := ""; encode_ack _ _ c := c |}.
Let json (q : AgentRequest) : result string string := Ok (req_Tool q).
Let at_time (now : Z) (random : string) : call_env := {| ce_now := now; ce_random := Some random; ce_writes := true |}.
Let admin (method path : string) : admin_request := {|
  ad_method := method; ad_path := path; ad_authorization := "Bearer t"; ad_ttl_seconds := 60; ad_account := "A" |}.
Let message (type id payload : string) : Envelope := {|
  env_Type := type; env_RequestID := id; env_DeviceID := "dev"; env_Payload := payload |}.
Let asks : callArgs := {|
  c_account := "A"; c_deviceID := "dev";
  c_request := {| req_Tool := "read"; req_Workspace := "w"; req_Args := ∅ |}; c_onEvent := false |}.

Fixpoint run_events (s : AgentServer) (log : list sys_fact) (l : list event) : option (AgentServer * list sys_fact) :=
  match l with
  | [] => Some (s, log)
  | x :: l => '(s', fs) ← sys_step digest js json "t" s x; run_events s' (fs ++ log) l
  end.

Let start : Store := new_store "".
Let history : list event := [
  XAdmin (at_time 1 "1") (admin "POST" "/admin/enrollments");
  XConnect 0 (Some (message "register" "" ""));
  XRegister 0 (at_time 2 "") 2 true; XRegister 0 (at_time 3 "2") 3 true; XRegister 0 (at_time 4 "") 4 true;
  XRegister 0 (at_time 5 "") 5 true; XRegister 0 (at_time 6 "") 6 true;
  XReceive 0 7 true (message "run_event" "" "e");
  XCaller (ACall 0 asks); XCaller (AAcquire 0); XCaller (AOpen 0); XCaller (AWrite false 0); XWrite 0; XWrite 0;
  XReceive 0 8 true (message "response" "1" "data"); XCaller (AAnswer 0)].
Let final : option (AgentServer * list sys_fact) := run_events (new_server start []) [] history.

Lemma run_events_reachable s log l s' log' : sys_reachable digest js json "t" start [] s log →
  run_events s log l = Some (s', log') → sys_reachable digest js json "t" start [] s' log'.
Proof.
  revert s log. induction l as [|x l IH]; intros s log Hr; cbn; [by intros [= <- <-]|].
  destruct (sys_step digest js json "t" s x) as [[s1 fs]|] eqn:E; [|done].
  apply IH. exact (sys_next _ _ _ _ _ _ _ _ _ _ _ Hr E).
Qed.

Lemma final_reachable s log : final = Some (s, log) → sys_reachable digest js json "t" start [] s log.
Proof. exact (run_events_reachable _ _ _ _ _ (sys_new digest js json "t" start [])). Qed.


Lemma run_events_bound_witness : ∃ s log, final = Some (s, log) ∧ is_Some (RunEvents s !! ("A", "dev", "r")) ∧
  ∃ k, FAccepted k "dev" ∈ log ∧ FBound k "dev" "A" ∈ log.
Proof.
  destruct final as [[s log]|] eqn:E; [|vm_compute in E; discriminate]. pose proof (final_reachable s log E) as Hr.
  exists s, log. split; [reflexivity|].
  assert (is_Some (RunEvents s !! ("A", "dev", "r"))) as H1.
  { clear Hr. vm_compute in E. injection E as <- _. vm_compute. by eexists. }
  split; [exact H1|]. exact (proj1 (run_events_bound digest js json "t" start [] s log Hr) "A" "dev" "r" H1).
Defined.

Lemma revoked_session_goes_on_witness : ∃ s log s', final = Some (s, log) ∧
  deviceAction digest (at_time 9 "") (admin "DELETE" "/admin/devices/dev") "dev" s = (s', Revoked) ∧
  is_Some (devices (Reg s) !! "dev") ∧ devices (Reg s') !! "dev" = devices (Reg s) !! "dev".
Proof.
  destruct final as [[s log]|] eqn:E; [|vm_compute in E; discriminate].
  destruct (deviceAction digest (at_time 9 "") (admin "DELETE" "/admin/devices/dev") "dev" s) as [s' r] eqn:Ed.
  assert (r = Revoked ∧ is_Some (devices (Reg s) !! "dev")) as [-> H].
  { vm_compute in E. injection E as <- _. vm_compute in Ed. injection Ed as _ <-. split; [reflexivity|by eexists]. }
  exists s, log, s'. split; [reflexivity|]. split; [exact Ed|]. split; [exact H|].
  apply (revoked_session_goes_on digest js (at_time 9 "") (admin "DELETE" "/admin/devices/dev") "dev" "dev" s s');
    [reflexivity|exact Ed].
Defined.
End example.
