(* ===== verification/ClientConfig.v ===== *)
(** * The client's configuration

    Which workspaces it serves (src/internal/config/workspaces.go), its JSON file
    (src/internal/clientconfig/config.go) and the file of device credentials
    (src/internal/clientcred/store.go). JSON is a pair of functions; the home
    directory, the working directory and the orders in which Go ranges over maps
    are arguments. *)

From S2P Require Import Prelude Entities GoStrings GoPath Registry AgentRuns Permissions.
Open Scope Z_scope.

Inductive config_err : Type :=
| EWorkspacesRequired                          (* CODEBRIDGE_WORKSPACES is required *)
| EEntry (item : string)
| EDuplicate (name : string)
| ENoWorkspace
| EWritableUnknown
| ENamePath
| ENameLength (name : string)
| EWorkspacePath (name : string) (e : io_err)
| ENotDirectory (name : string)
| EConfigFlag
| EConfigPath
| EConfigRead (e : io_err)
| EConfigDecode
| ECredentials
| EWriteFile (e : io_err)
| EDeviceID
| EManagerHost
| EManagerURL.

(** ** Workspaces *)

Definition string_le (a b : string) : Prop := string_gt a b = false.
#[export] Instance string_le_dec a b : Decision (string_le a b).
Proof. unfold string_le. apply _. Defined.

Section workspaces.
Context (lim : limits) (t : tree) (cwd : abspath).

(** [filepath.Abs]. *)
Definition Abs (path : string) : abspath :=
  clean_parts true (if IsAbs path then path else "/" +:+ Join "/" cwd +:+ "/" +:+ path).

Fixpoint check_workspaces (names : list string) (entries : gmap string string) (writable : gset string)
    (roots : gmap string abspath) (advertised : list Registry.Workspace) :
    result config_err (gmap string abspath * list Registry.Workspace) :=
  match names with
  | [] => Ok (roots, advertised)
  | rawName :: names =>
      let name := TrimSpace rawName in
      let path := TrimSpace (default "" (entries !! rawName)) in
      if bool_decide (name = "") || bool_decide (path = "") then Err ENamePath
      else if decide (128 < String.length name)%nat then Err (ENameLength name)
      else if bool_decide (name ≠ rawName) && bool_decide (is_Some (entries !! name)) then Err (EDuplicate name)
      else
        match Stat lim t (Abs path) with
        | Err e => Err (EWorkspacePath name e)
        | Ok Dir =>
            if decide (is_Some (roots !! name)) then Err (EDuplicate name)
            else check_workspaces names entries writable (<[name := Abs path]> roots)
                   (advertised ++ [{| wk_Name := name; wk_Path := ""; wk_Writable := bool_decide (name ∈ writable) |}])
        | Ok _ => Err (ENotDirectory name)
        end
  end.

Definition ParseWorkspaceMap (entries : gmap string string) (writable : gset string) :
    result config_err (gmap string abspath * list Registry.Workspace) :=
  if decide (entries = ∅) then Err ENoWorkspace
  else if decide (writable ⊆ dom entries)
  then check_workspaces (merge_sort string_le (elements (dom entries))) entries writable ∅ []
  else Err EWritableUnknown.

(** The loop of [ParseWorkspaces]. *)
Fixpoint workspace_entries (items : list string) (entries : gmap string string) :
    result config_err (gmap string string) :=
  match items with
  | [] => Ok entries
  | item :: items =>
      match Cut (TrimSpace item) "=" with
      | None => Err (EEntry item)
      | Some (name, path) =>
          if bool_decide (TrimSpace name = "") || bool_decide (TrimSpace path = "") then Err (EEntry item)
          else if decide (is_Some (entries !! TrimSpace name)) then Err (EDuplicate (TrimSpace name))
          else workspace_entries items (<[TrimSpace name := TrimSpace path]> entries)
      end
  end.

Definition comma : Ascii.ascii := Ascii.ascii_of_N 44.

Definition ParseWorkspaces (text : string) (writable : gset string) :
    result config_err (gmap string abspath * list Registry.Workspace) :=
  if decide (TrimSpace text = "") then Err EWorkspacesRequired
  else entries ← workspace_entries (Split comma text) ∅; ParseWorkspaceMap entries writable.
End workspaces.

(** ** The configuration file *)

Record SubagentTab : Type := { tab_Name : string; tab_Client : string; tab_Locked : bool }.

Record Config : Type := {
  cf_ManagerHost : string;
  cf_DeviceID : string;
  cf_DeviceName : string;
  cf_AccessMode : string;
  cf_Workspaces : gmap string string;
  cf_WritableWorkspaces : list string;
  cf_EnabledTools : list string;
  cf_DisabledTools : list string;
  cf_CustomTools : list CustomTool;
  cf_SubagentProfiles : list SubagentProfile;
  cf_SubagentTabs : list SubagentTab;
  cf_CredentialFile : string;
  cf_AllowSensitiveFiles : bool;
  cf_EnableLSP : bool;
  cf_BashAllowlist : list string;
  cf_Permissions : list PermissionRule;
  cf_CheckpointDir : string
}.
Definition empty_config : Config := {|
  cf_ManagerHost := ""; cf_DeviceID := ""; cf_DeviceName := ""; cf_AccessMode := ""; cf_Workspaces := ∅;
  cf_WritableWorkspaces := []; cf_EnabledTools := []; cf_DisabledTools := []; cf_CustomTools := [];
  cf_SubagentProfiles := []; cf_SubagentTabs := []; cf_CredentialFile := ""; cf_AllowSensitiveFiles := false;
  cf_EnableLSP := false; cf_BashAllowlist := []; cf_Permissions := []; cf_CheckpointDir := "" |}.

(** What the code uses of [encoding/json]: texts of both files, the decoder of the
    credentials with what it has read when it fails. *)
Record file_json : Type := {
  decode_config : string → option Config;
  encode_config : Config → string;
  decode_creds : string → gmap string string * bool;
  encode_creds : gmap string string → string
}.

(** The small files of the client, by path. *)
Abbreviation disk := (gmap string string).

Section files.
Context (js : file_json) (home : option string).    (* [os.UserHomeDir] *)

Definition no_home : bool := match home with Some h => bool_decide (h = "") | None => true end.

Definition expandHome (path : string) : string :=
  if bool_decide (path = "~") || HasPrefix path "~/" then
    if no_home then path
    else if decide (path = "~") then default "" home
    else Clean (default "" home +:+ "/" +:+ default "" (CutPrefix path "~/"))
  else path.

(** [clientconfig.DefaultPath] and [clientcred.DefaultPath]. *)
Definition DefaultPath : string :=
  if no_home then ".codebridge-client.json" else Clean (default "" home +:+ "/.config/codebridge/client.json").
Definition credentials_DefaultPath : string :=
  if no_home then ".codebridge-credentials.json" else Clean (default "" home +:+ "/.config/codebridge/credentials.json").

(** [ResolvePath]; [var] is CODEBRIDGE_CONFIG. *)
Fixpoint ResolvePath (args : list string) (var : string) : result config_err (string * bool) :=
  match args with
  | [] => if decide (TrimSpace var = "") then Ok (DefaultPath, false) else Ok (expandHome (TrimSpace var), true)
  | arg :: args =>
      if decide (arg = "--config") then
        match args with
        | [] => Err EConfigFlag
        | value :: _ => if decide (TrimSpace value = "") then Err EConfigFlag else Ok (expandHome (TrimSpace value), true)
        end
      else match CutPrefix arg "--config=" with
           | Some value => if decide (TrimSpace value = "") then Err EConfigFlag else Ok (expandHome (TrimSpace value), true)
           | None => ResolvePath args var
           end
  end.

(** The loop of [Load] over the workspaces, which changes the map it ranges over:
    [order] are the keys as they come. *)
Definition trim_workspaces (order : list string) (ws : gmap string string) : gmap string string :=
  foldl (λ ws name,
    match ws !! name with
    | None => ws
    | Some path =>
        let trimmedName := TrimSpace name in
        let trimmedPath := expandHome (TrimSpace path) in
        let ws := if decide (trimmedName ≠ name) then delete name ws else ws in
        if decide (trimmedName ≠ "") then <[trimmedName := trimmedPath]> ws else ws
    end) ws order.

Definition normalizeManagerHost (v : string) : string := TrimSpace v.

(** [Load] with what reading the file gives. *)
Definition Load (order : list string) (path : string) (required : bool) (file : result io_err string) :
    result config_err Config :=
  if decide (expandHome (TrimSpace path) = "") then Err EConfigPath
  else
    match file with
    | Err ENOENT => if required then Err (EConfigRead ENOENT) else Ok empty_config
    | Err e => Err (EConfigRead e)
    | Ok text =>
        match decode_config js text with
        | None => Err EConfigDecode
        | Some cfg => Ok {|
            cf_ManagerHost := normalizeManagerHost (cf_ManagerHost cfg);
            cf_DeviceID := TrimSpace (cf_DeviceID cfg);
            cf_DeviceName := TrimSpace (cf_DeviceName cfg);
            cf_AccessMode := cf_AccessMode cfg;
            cf_Workspaces := trim_workspaces order (cf_Workspaces cfg);
            cf_WritableWorkspaces := cf_WritableWorkspaces cfg;
            cf_EnabledTools := cf_EnabledTools cfg; cf_DisabledTools := cf_DisabledTools cfg;
            cf_CustomTools := cf_CustomTools cfg;
            cf_SubagentProfiles := cf_SubagentProfiles cfg; cf_SubagentTabs := cf_SubagentTabs cfg;
            cf_CredentialFile := expandHome (TrimSpace (cf_CredentialFile cfg));
            cf_AllowSensitiveFiles := cf_AllowSensitiveFiles cfg; cf_EnableLSP := cf_EnableLSP cfg;
            cf_BashAllowlist := cf_BashAllowlist cfg; cf_Permissions := cf_Permissions cfg;
            cf_CheckpointDir := cf_CheckpointDir cfg |}
        end
    end.

(** ** Writing a file

    A file is replaced by writing another one beside it and renaming that. *)

(** What fails; a failing write has left a part of the text. *)
Record save_env : Type := {
  sv_mkdir : option io_err; sv_write : option (nat * io_err); sv_chmod : option io_err; sv_rename : option io_err }.

Definition replace_file (e : save_env) (chmod : bool) (path text : string) (d : disk) : result config_err () * disk :=
  match sv_mkdir e with
  | Some x => (Err (EWriteFile x), d)
  | None =>
      let tmp := path +:+ ".tmp" in
      match sv_write e with
      | Some (n, x) => (Err (EWriteFile x), <[tmp := first_bytes n text]> d)
      | None =>
          let d := <[tmp := text]> d in
          match (if chmod then sv_chmod e else None), sv_rename e with
          | Some x, _ | None, Some x => (Err (EWriteFile x), d)
          | None, None => (Ok (), <[path := text]> (delete tmp d))
          end
      end
  end.

(** [clientconfig.Save]. *)
Definition Save (e : save_env) (path : string) (cfg : Config) (d : disk) : result config_err () * disk :=
  let path := expandHome (TrimSpace path) in
  if decide (path = "") then (Err EConfigPath, d) else replace_file e false path (encode_config js cfg) d.

(** ** Device credentials *)

Definition Key (managerURL deviceID : string) : string := managerURL +:+ "|" +:+ deviceID.

(** Reading the file is what the disk says or an error of its own. *)
Definition read_file (fault : option io_err) (path : string) (d : disk) : result io_err string :=
  match fault with
  | Some x => Err x
  | None => match d !! path with Some text => Ok text | None => Err ENOENT end
  end.

(** [clientcred.Load]. *)
Definition credential_Load (fault : option io_err) (path key : string) (d : disk) : result config_err string :=
  match read_file fault path d with
  | Err ENOENT => Ok ""
  | Err e => Err (EConfigRead e)
  | Ok text =>
      let '(m, ok) := decode_creds js text in
      if (ok : bool) then Ok (default "" (m !! key)) else Err ECredentials
  end.

(** [clientcred.Save]. *)
Definition credential_Save (fault : option io_err) (e : save_env) (path key credential : string) (d : disk) :
    result config_err () * disk :=
  if decide (credential = "") then (Ok (), d)
  else
    let m := match read_file fault path d with Ok text => (decode_creds js text).1 | Err _ => ∅ end in
    replace_file e true path (encode_creds js (<[key := credential]> m)) d.
End files.
