(* ===== verification/ClientMain.v ===== *)
(** * The client's process (cmd/client/main.go)

    How flags, environment and configuration file make a runtime, how a reload
    replaces it, the loop of connections with its backoff, the registration of a
    session, and what the local configuration page reads and writes. Requests,
    answers and events of a session are those of [ClientTools] and [Replay]. *)

From S2P Require Import Prelude Entities GoStrings Json GoPath FileOps AgentRuns Permissions Registry GrpcAgent.
From S2P Require Import ClientConfig.
Open Scope Z_scope.

(** ** Values *)

Definition firstNonEmpty (values : list string) : string := TrimSpace (firstNonEmptyString values).

(** [strconv.ParseBool]. *)
Definition ParseBool (s : string) : option bool :=
  if one_of s ["1"; "t"; "T"; "TRUE"; "true"; "True"] then Some true
  else if one_of s ["0"; "f"; "F"; "FALSE"; "false"; "False"] then Some false
  else None.

(** [envBoolPinned]: [None] ends the process. *)
Definition envBoolPinned (value : option string) (def : bool) : option (bool * bool) :=
  match value with
  | Some text => v ← ParseBool (TrimSpace text); Some (v, true)
  | None => Some (def, false)
  end.

Definition hostname (h : string) : string := if decide (h = "") then "codebridge-device" else h.

(** The width of the first rune of a string that is not empty. *)
Definition rune_width (bs : list Z) : nat :=
  match bs with
  | b0 :: b1 :: bs =>
      if bool_decide (194 ≤ b0 ≤ 223) && cont_byte 128 191 b1 then 2%nat
      else match bs with
           | b2 :: bs =>
               if ((bool_decide (b0 = 224) && cont_byte 160 191 b1) || (bool_decide (b0 = 237) && cont_byte 128 159 b1) ||
                   (bool_decide (225 ≤ b0 ≤ 239) && bool_decide (b0 ≠ 237) && cont_byte 128 191 b1)) && cont_byte 128 191 b2
               then 3%nat
               else match bs with
                    | b3 :: _ =>
                        if ((bool_decide (b0 = 240) && cont_byte 144 191 b1) || (bool_decide (b0 = 244) && cont_byte 128 143 b1) ||
                            (bool_decide (241 ≤ b0 ≤ 243) && cont_byte 128 191 b1)) &&
                           cont_byte 128 191 b2 && cont_byte 128 191 b3
                        then 4%nat else 1%nat
                    | [] => 1%nat
                    end
           | [] => 1%nat
           end
  | _ => 1%nat
  end.
(** The runes of a string; each takes a byte at least. *)
Fixpoint runes_from (fuel : nat) (l : list Ascii.ascii) : list string :=
  match fuel, l with
  | S fuel, _ :: _ =>
      let n := rune_width (char_val <$> l) in
      String.string_of_list_ascii (take n l) :: runes_from fuel (drop n l)
  | _, _ => []
  end.
Definition runes (s : string) : list string := runes_from (String.length s) (String.list_ascii_of_string s).

(** [strings.Map] of [hostnameSlug]: each rune that is not allowed becomes a dash.
    An invalid byte is a rune of its own. *)
Definition slug_char (v : Z) : bool :=
  bool_decide (97 ≤ v ≤ 122) || bool_decide (48 ≤ v ≤ 57) || bool_decide (v = 45) || bool_decide (v = 95).
Definition dash : Ascii.ascii := Ascii.ascii_of_N 45.
Definition slug_rune (r : string) : string :=
  match r with
  | String c "" => if slug_char (char_val c) then r else String dash ""
  | _ => String dash ""
  end.
Fixpoint trim_left (drop : Ascii.ascii → bool) (l : list Ascii.ascii) : list Ascii.ascii :=
  match l with c :: l' => if drop c then trim_left drop l' else l | [] => [] end.
(** [strings.Trim] of ASCII characters. *)
Definition Trim (drop : Ascii.ascii → bool) (s : string) : string :=
  String.string_of_list_ascii (reverse (trim_left drop (reverse (trim_left drop (String.list_ascii_of_string s))))).
Definition hostnameSlug (h : string) : string :=
  Trim (λ c, bool_decide (c = dash)) (String.concat "" (slug_rune <$> runes (ToLower (hostname h)))).

Definition validateManagerHost (text : string) : result config_err () :=
  let host := TrimSpace text in
  if decide (host = "") then Err EManagerHost
  else if Contains host "://" || Contains host "/" then Err EManagerURL
  else Ok ().

(** [strings.LastIndex] of a character, -1 when there is none. *)
Fixpoint LastIndex (c : Ascii.ascii) (i : Z) (s : string) : Z :=
  match s with
  | "" => -1
  | String d s => let r := LastIndex c (i + 1) s in if decide (r = -1) then (if decide (d = c) then i else -1) else r
  end.

Definition bracket (c : Ascii.ascii) : bool := bool_decide (char_val c = 91) || bool_decide (char_val c = 93).
Definition colon : Ascii.ascii := Ascii.ascii_of_N 58.
Definition close_bracket : Ascii.ascii := Ascii.ascii_of_N 93.

Definition hostOfTarget (target : string) : string :=
  let i := LastIndex colon 0 target in
  Trim bracket (if decide (LastIndex close_bracket 0 target < i) then first_bytes (Z.to_nat i) target else target).

(** [is_ip] is whether [net.ParseIP] reads it. *)
Definition isPublicGRPCHost (is_ip : string → bool) (target : string) : bool :=
  let host := hostOfTarget target in
  if is_ip host then false else Contains host "." && negb (HasSuffix host ".local") && negb (HasSuffix host ".internal").

Definition second_ : Z := 10 ^ 9.
Definition reconnectBackoffBase : Z := second_.
Definition reconnectBackoffMax : Z := 15 * second_.
Definition stableConnectionThreshold : Z := 60 * second_.

Definition nextBackoff (current sessionDuration : Z) : Z :=
  if bool_decide (current ≤ 0) || bool_decide (stableConnectionThreshold ≤ sessionDuration) then reconnectBackoffBase
  else
    let next := wrap64 (current * 2) in
    if decide (next < reconnectBackoffMax) then next else reconnectBackoffMax.

(** ** Lists of the configuration *)

Definition writableSet (names : list string) : gset string := list_to_set (filter (λ n, n ≠ "") (TrimSpace <$> names)).

Fixpoint profiles_from (seen : gset string) (ps : list SubagentProfile) : list SubagentProfile :=
  match ps with
  | [] => []
  | p :: ps =>
      let name := TrimSpace (prof_Name p) in
      if bool_decide (name = "") || bool_decide (name ∈ seen) || bool_decide (64 < String.length name)%nat
      then profiles_from seen ps
      else {| prof_Name := name; prof_Description := prof_Description p; prof_Client := prof_Client p;
              prof_Agent := prof_Agent p; prof_Model := prof_Model p; prof_Thinking := prof_Thinking p;
              prof_TimeoutSec := prof_TimeoutSec p; prof_ExtraArgs := prof_ExtraArgs p; prof_Tab := prof_Tab p |}
           :: profiles_from ({[name]} ∪ seen) ps
  end.
Definition subagentProfilesFrom (cfg : Config) : list SubagentProfile := profiles_from ∅ (cf_SubagentProfiles cfg).

Definition builtins : list string :=
  ["list_devices"; "list_workspaces"; "list_directory"; "read_file"; "find_files"; "search_code"; "git_status";
   "git_diff"; "project_info"; "find_symbol"; "find_references"; "read_symbol"; "dependency_graph"; "apply_patch";
   "rollback_patch"; "bash"; "agent"; "permission_grant"; "list"; "read"; "write"; "edit"].
Definition sanitizeCustomTools (tools : list CustomTool) : list CustomTool :=
  filter (λ t, one_of (ct_Tool t) builtins = true ∧ one_of (ct_Name t) builtins = false ∧ TrimSpace (ct_Name t) ≠ "" ∧
               (String.length (ct_Name t) ≤ 64)%nat) tools.

(** ** The file *)

Section config_file.
Context (js : file_json) (home : option string) (order : list string) (path : string).

(** [loadConfigFile]: a file that is not read or not decoded is an empty one. *)
Definition loadConfigFile (fault : option io_err) (d : disk) : Config :=
  match Load js home order path false (read_file fault (expandHome home (TrimSpace path)) d) with
  | Ok cfg => cfg
  | Err _ => empty_config
  end.

Definition with_permissions (rules : list PermissionRule) (c : Config) : Config := {|
  cf_ManagerHost := cf_ManagerHost c; cf_DeviceID := cf_DeviceID c; cf_DeviceName := cf_DeviceName c;
  cf_AccessMode := cf_AccessMode c; cf_Workspaces := cf_Workspaces c; cf_WritableWorkspaces := cf_WritableWorkspaces c;
  cf_EnabledTools := cf_EnabledTools c; cf_DisabledTools := cf_DisabledTools c; cf_CustomTools := cf_CustomTools c;
  cf_SubagentProfiles := cf_SubagentProfiles c; cf_SubagentTabs := cf_SubagentTabs c;
  cf_CredentialFile := cf_CredentialFile c; cf_AllowSensitiveFiles := cf_AllowSensitiveFiles c;
  cf_EnableLSP := cf_EnableLSP c; cf_BashAllowlist := cf_BashAllowlist c; cf_Permissions := rules;
  cf_CheckpointDir := cf_CheckpointDir c |}.

(** The callback that an always-grant hands its rules to ([SetRulePersister]). *)
Definition persist_rules (fault : option io_err) (w : save_env) (rules : list PermissionRule) (d : disk) : disk :=
  (Save js home w path (with_permissions rules (loadConfigFile fault d)) d).2.
End config_file.

(** ** Runtimes *)

Definition version : string := "dev".

Record bootOptions : Type := {
  bo_managerHost : string; bo_workspaces : string; bo_deviceID : string; bo_deviceName : string;
  bo_allowSensitive : bool; bo_allowSensitivePinned : bool; bo_writableRaw : string; bo_writablePinned : bool;
  bo_enableLSP : bool; bo_enableLSPPinned : bool; bo_indexDir : string; bo_checkpointDir : string;
  bo_credentialFile : string
}.

Record clientState : Type := { cs_credential : string; cs_enrollCode : string; cs_connected : bool; cs_reconnects : Z }.

(** The fields of [runtime] and of its service. *)
Record runtime : Type := {
  rt_grpcTarget : string;
  rt_reg : RegisterRequest;
  rt_service : Service;
  rt_IndexDir : string; rt_CheckpointDir : string; rt_EnableLSP : bool; rt_BashAllowlist : list string;
  rt_credKey : string;
  rt_credentialFile : string
}.

(** The rules and profiles of package agentops. *)
Record globals : Type := { g_perms : permissionStore; g_profiles : list SubagentProfile }.

(** What the process is started in. *)
Record start_env : Type := {
  st_var : string → option string;             (* [os.LookupEnv] *)
  st_flag : string → option string;            (* the flags given *)
  st_host : string;                            (* [os.Hostname] *)
  st_home : option string;
  st_stateDir : string                         (* [agentops.DefaultClientStateDir] *)
}.

Section start.
Context (e : start_env).

(** [os.Getenv], and a string flag with its default. *)
Definition Getenv (name : string) : string := default "" (st_var e name).
Definition String_flag (name def : string) : string := default def (st_flag e name).

(** The start of [main]; [None] ends the process. The flags [allow-sensitive-files]
    and [enable-lsp] are parsed and not used. *)
Definition boot_options (file : Config) : option bootOptions :=
  '(allowSensitive, allowPinned) ← envBoolPinned (st_var e "CODEBRIDGE_ALLOW_SENSITIVE_FILES") (cf_AllowSensitiveFiles file);
  '(lsp, lspPinned) ← envBoolPinned (st_var e "CODEBRIDGE_ENABLE_LSP") (cf_EnableLSP file);
  let stateDir := firstNonEmpty [Getenv "CODEBRIDGE_STATE_DIR"; cf_CheckpointDir file; st_stateDir e] in
  Some {|
    bo_managerHost := String_flag "manager-host"
      (firstNonEmpty [Getenv "CODEBRIDGE_MANAGER_HOST"; cf_ManagerHost file; "127.0.0.1:8081"]);
    bo_workspaces := TrimSpace (String_flag "workspaces" (Getenv "CODEBRIDGE_WORKSPACES"));
    bo_deviceID := String_flag "device-id"
      (firstNonEmpty [Getenv "CODEBRIDGE_DEVICE_ID"; cf_DeviceID file; hostnameSlug (st_host e)]);
    bo_deviceName := String_flag "device-name"
      (firstNonEmpty [Getenv "CODEBRIDGE_DEVICE_NAME"; cf_DeviceName file; hostname (st_host e)]);
    bo_allowSensitive := allowSensitive; bo_allowSensitivePinned := allowPinned;
    bo_writableRaw := String_flag "writable-workspaces"
      (firstNonEmpty [Getenv "CODEBRIDGE_WRITABLE_WORKSPACES"; Join "," (cf_WritableWorkspaces file)]);
    bo_writablePinned := bool_decide (TrimSpace (Getenv "CODEBRIDGE_WRITABLE_WORKSPACES") ≠ "");
    bo_enableLSP := lsp; bo_enableLSPPinned := lspPinned;
    bo_indexDir := firstNonEmpty [Getenv "CODEBRIDGE_INDEX_DIR"; join_dir stateDir "index"];
    bo_checkpointDir := join_dir stateDir "checkpoints";
    bo_credentialFile := String_flag "credential-file"
      (firstNonEmpty [Getenv "CODEBRIDGE_CREDENTIAL_FILE"; cf_CredentialFile file; credentials_DefaultPath (st_home e)]) |}.

(** The state of the client at its start, once the options are read: the
    credential is the one given, which is saved, or the one of the file. *)
Definition start_state (js : file_json) (fault : option io_err) (w : save_env) (boot : bootOptions) (d : disk) :
    result config_err clientState * disk :=
  let given := TrimSpace (String_flag "device-credential" (Getenv "CODEBRIDGE_DEVICE_CREDENTIAL")) in
  let state credential := {|
    cs_credential := credential; cs_enrollCode := TrimSpace (String_flag "enrollment-code" (Getenv "CODEBRIDGE_ENROLL_CODE"));
    cs_connected := false; cs_reconnects := 0 |} in
  let key := Key (bo_managerHost boot) (bo_deviceID boot) in
  if decide (given = "") then (cred ← credential_Load js fault (bo_credentialFile boot) key d; Ok (state cred), d)
  else
    let '(r, d) := credential_Save js fault w (bo_credentialFile boot) key given d in (_ ← r; Ok (state given), d).

Definition effectiveManagerHost (boot : bootOptions) (cfg : Config) : string :=
  firstNonEmpty [bo_managerHost boot; cf_ManagerHost cfg; "127.0.0.1:8081"].
Definition effectiveDeviceID (boot : bootOptions) (cfg : Config) : string :=
  firstNonEmpty [bo_deviceID boot; cf_DeviceID cfg; hostnameSlug (st_host e)].
Definition effectiveDeviceName (boot : bootOptions) (cfg : Config) : string :=
  firstNonEmpty [bo_deviceName boot; cf_DeviceName cfg; hostname (st_host e)].
Definition effectiveAccessMode (cfg : Config) : string := if decide (cf_AccessMode cfg = "full") then "full" else "workspaces".

Definition effectiveWritable (boot : bootOptions) (cfg : Config) : gset string :=
  writableSet (Split comma
    (if negb (bo_writablePinned boot) && bool_decide (TrimSpace (bo_writableRaw boot) = "")
     then Join "," (cf_WritableWorkspaces cfg) else bo_writableRaw boot)).

(** The rules of the file and that of the environment. *)
Definition bash_rule (effect : string) : PermissionRule := {|
  rule_Effect := effect; rule_Tool := "bash"; rule_Pattern := "*";
  rule_Reason := "CODEBRIDGE_BASH_PERMISSIONS=" +:+ TrimSpace (Getenv "CODEBRIDGE_BASH_PERMISSIONS") |}.
Definition active_rules (cfg : Config) : list PermissionRule :=
  let mode := TrimSpace (Getenv "CODEBRIDGE_BASH_PERMISSIONS") in
  cf_Permissions cfg ++
    (if decide (mode = "full") then [bash_rule "allow"] else if decide (mode = "deny") then [bash_rule "deny"] else []).

Definition assemble (boot : bootOptions) (managerHost deviceID deviceName : string) (roots : gmap string abspath)
    (advertised : list Registry.Workspace) (writable : gset string) (allowSensitive enableLSP : bool) (state : clientState)
    (cfg : Config) (g : globals) : result config_err runtime * globals :=
  match validateManagerHost managerHost with
  | Err x => (Err x, g)
  | Ok _ =>
      let profiles := subagentProfilesFrom cfg in
      let g := {| g_perms := SetPermissions (active_rules cfg) (g_perms g);
                   g_profiles := if decide (profiles = []) then g_profiles g else profiles |} in
      let policy := {| EnabledTools := cf_EnabledTools cfg; DisabledTools := cf_DisabledTools cfg;
                       CustomTools := sanitizeCustomTools (cf_CustomTools cfg) |} in
      let target := TrimSpace (Getenv "CODEBRIDGE_GRPC_TARGET") in
      (Ok {|
         rt_grpcTarget := if decide (target ≠ "") then target
                          else if Contains managerHost ":" then managerHost else managerHost +:+ ":8081";
         rt_reg := {|
           reg_EnrollmentCode := cs_enrollCode state; reg_DeviceCredential := cs_credential state;
           reg_DeviceID := deviceID; reg_DeviceName := deviceName; reg_Version := version;
           reg_Workspaces := Some advertised;
           reg_ToolPolicy :=
             if decide (EnabledTools policy = [] ∧ DisabledTools policy = [] ∧ length (CustomTools policy) = 0%nat)
             then None else Some policy |};
         rt_service := {| Roots := roots; AllowSensitiveFiles := allowSensitive;
                          Writable := set_to_map (λ n, (n, true)) writable |};
         rt_IndexDir := bo_indexDir boot; rt_CheckpointDir := bo_checkpointDir boot; rt_EnableLSP := enableLSP;
         rt_BashAllowlist := cf_BashAllowlist cfg;
         rt_credKey := Key managerHost deviceID;
         rt_credentialFile := bo_credentialFile boot |}, g)
  end.

Definition buildRuntime (lim : limits) (t : tree) (cwd : abspath) (boot : bootOptions) (cfg : Config) (state : clientState)
    (g : globals) : result config_err runtime * globals :=
  let deviceID := effectiveDeviceID boot cfg in
  if decide (TrimSpace deviceID = "") then (Err EDeviceID, g)
  else
    let allowSensitive := if bo_allowSensitivePinned boot then bo_allowSensitive boot else cf_AllowSensitiveFiles cfg in
    let enableLSP := if bo_enableLSPPinned boot then bo_enableLSP boot else cf_EnableLSP cfg in
    let writable := effectiveWritable boot cfg in
    match (if decide (bo_workspaces boot ≠ "") then ParseWorkspaces lim t cwd (bo_workspaces boot) writable
           else ParseWorkspaceMap lim t cwd (cf_Workspaces cfg) writable) with
    | Err x => (Err x, g)
    | Ok (roots, advertised) =>
        assemble boot (effectiveManagerHost boot cfg) deviceID (effectiveDeviceName boot cfg) roots advertised writable
          allowSensitive enableLSP state cfg g
    end.
End start.

(** ** Sessions *)

(** The registration that a session sends. *)
Definition registration (rt : runtime) (state : clientState) : RegisterRequest :=
  let reg := rt_reg rt in
  {| reg_EnrollmentCode := if decide (cs_enrollCode state ≠ "") then cs_enrollCode state else reg_EnrollmentCode reg;
     reg_DeviceCredential := if decide (cs_credential state ≠ "") then cs_credential state else reg_DeviceCredential reg;
     reg_DeviceID := reg_DeviceID reg; reg_DeviceName := reg_DeviceName reg; reg_Version := reg_Version reg;
     reg_Workspaces := reg_Workspaces reg; reg_ToolPolicy := reg_ToolPolicy reg |}.

(** The start of [runGRPCSession], from what the manager answers to it. *)
Inductive session_start_err : Type :=
| EStream
| EUnexpectedResponse (type : string)
| EAckDecode
| ERejected (message : string)
| EPersist (x : config_err).

Record register_ack : Type := { ack_Accepted : bool; ack_Message : string; ack_DeviceCredential : string }.

(** [persistCredential]. *)
Definition persistCredential (js : file_json) (fault : option io_err) (w : save_env) (rt : runtime) (issued : string)
    (state : clientState) (d : disk) : result config_err () * clientState * disk :=
  let '(r, d) := credential_Save js fault w (rt_credentialFile rt) (rt_credKey rt) issued d in
  match r with
  | Err x => (Err x, state, d)
  | Ok _ => (Ok (), {| cs_credential := issued; cs_enrollCode := ""; cs_connected := cs_connected state;
                       cs_reconnects := cs_reconnects state |}, d)
  end.

Definition start_session (js : file_json) (fault : option io_err) (w : save_env) (rt : runtime)
    (ack : option (string * option register_ack)) (state : clientState) (d : disk) :
    result session_start_err () * clientState * disk :=
  let connected state := {| cs_credential := cs_credential state; cs_enrollCode := cs_enrollCode state;
                            cs_connected := true; cs_reconnects := cs_reconnects state |} in
  match ack with
  | None => (Err EStream, state, d)
  | Some (type, rr) =>
      if decide (type ≠ TypeRegistered) then (Err (EUnexpectedResponse type), state, d)
      else
        match rr with
        | None => (Err EAckDecode, state, d)
        | Some rr =>
            if negb (ack_Accepted rr) then (Err (ERejected (ack_Message rr)), state, d)
            else if decide (ack_DeviceCredential rr = "") then (Ok (), connected state, d)
            else
              match persistCredential js fault w rt (ack_DeviceCredential rr) state d with
              | (Err x, state, d) => (Err (EPersist x), state, d)
              | (Ok _, state, d) => (Ok (), connected state, d)
              end
        end
  end.

(** How the connection is protected. *)
Inductive transport_security : Type := TLS (server : string) | Plaintext.
Definition transport (is_ip : string → bool) (target : string) : transport_security :=
  if isPublicGRPCHost is_ip target then TLS (hostOfTarget target) else Plaintext.

(** ** The loop of connections *)

Record loop : Type := { lp_rt : option runtime; lp_backoff : Z; lp_state : clientState; lp_globals : globals }.

(** The loop as it begins, from what the first [buildRuntime] gives. *)
Definition start_loop (first : result config_err runtime * globals) (state : clientState) : loop := {|
  lp_rt := match first.1 with Ok rt => Some rt | Err _ => None end; lp_backoff := reconnectBackoffBase;
  lp_state := state; lp_globals := first.2 |}.

(** What the loop meets: three seconds without a runtime, a reload, a disconnect
    asked for by the user, a session that ended. [next] is what [buildRuntime]
    gives at the time. *)
Inductive loop_event : Type :=
| LRetry
| LReload
| LDisconnect
| LSessionEnded (failed : bool) (lived : Z).

(** The step, with the time it waits before the next connection. *)
Definition main_step (next : result config_err runtime * globals) (ev : loop_event) (l : loop) : loop * Z :=
  let loop rt backoff failures g := {|
    lp_rt := rt; lp_backoff := backoff; lp_globals := g;
    lp_state := {| cs_credential := cs_credential (lp_state l); cs_enrollCode := cs_enrollCode (lp_state l);
                   cs_connected := false; cs_reconnects := cs_reconnects (lp_state l) + failures |} |} in
  match lp_rt l, ev with
  | None, LRetry =>
      let '(r, g) := next in (loop (match r with Ok rt => Some rt | Err _ => None end) (lp_backoff l) 0 g, 0)
  | Some rt, LReload =>
      let '(r, g) := next in
      (loop (Some (match r with Ok rt' => rt' | Err _ => rt end)) reconnectBackoffBase 0 g, 0)
  | Some rt, LDisconnect => (loop (Some rt) (lp_backoff l) 0 (lp_globals l), 0)
  | Some rt, LSessionEnded true lived =>
      let backoff := nextBackoff (lp_backoff l) lived in (loop (Some rt) backoff 1 (lp_globals l), backoff)
  | Some rt, LSessionEnded false _ => (loop (Some rt) (lp_backoff l) 0 (lp_globals l), second_)
  | _, _ => (l, 0)
  end.

(** ** The configuration page *)

(** [LoadConfig] of the page: the configuration it shows. *)
Definition ui_LoadConfig (e : start_env) (boot : bootOptions) (cfg : Config) : Config := {|
  cf_ManagerHost := effectiveManagerHost boot cfg; cf_DeviceID := effectiveDeviceID e boot cfg;
  cf_DeviceName := effectiveDeviceName e boot cfg; cf_AccessMode := effectiveAccessMode cfg;
  cf_Workspaces := cf_Workspaces cfg; cf_WritableWorkspaces := cf_WritableWorkspaces cfg;
  cf_EnabledTools := cf_EnabledTools cfg; cf_DisabledTools := cf_DisabledTools cfg;
  cf_CustomTools := cf_CustomTools cfg; cf_SubagentProfiles := cf_SubagentProfiles cfg;
  cf_SubagentTabs := cf_SubagentTabs cfg; cf_CredentialFile := "";
  cf_AllowSensitiveFiles := cf_AllowSensitiveFiles cfg || bo_allowSensitivePinned boot;
  cf_EnableLSP := cf_EnableLSP cfg || bo_enableLSPPinned boot;
  cf_BashAllowlist := cf_BashAllowlist cfg; cf_Permissions := cf_Permissions cfg; cf_CheckpointDir := "" |}.

Definition enroll_only : string := String (Ascii.ascii_of_N 0) "enroll-only".

(** [SaveConfig] of the page: [code] is the enrollment code of the form; the
    answer says whether a reload was asked for. *)
Definition ui_SaveConfig (js : file_json) (home : option string) (order : list string) (lim : limits) (t : tree)
    (cwd : abspath) (fault : option io_err) (w : save_env) (path : string) (inp : Config) (code : string)
    (state : clientState) (d : disk) : result config_err bool * clientState * disk :=
  let cfg := loadConfigFile js home order path fault d in
  let enroll code connected := {| cs_credential := cs_credential state; cs_enrollCode := code; cs_connected := connected;
                                  cs_reconnects := cs_reconnects state |} in
  if decide (cf_ManagerHost inp = enroll_only) then (Ok true, enroll code false, d)
  else
    match validateManagerHost (cf_ManagerHost inp) with
    | Err x => (Err x, state, d)
    | Ok _ =>
        let next := {|
          cf_ManagerHost := cf_ManagerHost inp; cf_DeviceID := cf_DeviceID inp; cf_DeviceName := cf_DeviceName inp;
          cf_AccessMode := effectiveAccessMode inp;
          cf_Workspaces := cf_Workspaces inp; cf_WritableWorkspaces := cf_WritableWorkspaces inp;
          cf_EnabledTools := cf_EnabledTools inp; cf_DisabledTools := cf_DisabledTools inp;
          cf_CustomTools := sanitizeCustomTools (cf_CustomTools inp);
          cf_SubagentProfiles := cf_SubagentProfiles inp; cf_SubagentTabs := cf_SubagentTabs inp;
          cf_CredentialFile := cf_CredentialFile cfg;
          cf_AllowSensitiveFiles := cf_AllowSensitiveFiles inp; cf_EnableLSP := cf_EnableLSP inp;
          cf_BashAllowlist := cf_BashAllowlist inp; cf_Permissions := cf_Permissions inp;
          cf_CheckpointDir := cf_CheckpointDir cfg |} in
        let state := if decide (TrimSpace code = "") then state else enroll (TrimSpace code) (cs_connected state) in
        match ParseWorkspaceMap lim t cwd (cf_Workspaces next) (writableSet (cf_WritableWorkspaces next)) with
        | Err x => (Err x, state, d)
        | Ok _ =>
            match Save js home w path next d with
            | (Err x, d) => (Err x, state, d)
            | (Ok _, d) => (Ok true, state, d)
            end
        end
    end.
