(* ===== verification/ClientMainSpec.v ===== *)
(** * What the client's configuration comes to

    The workspaces that are served and advertised, what a reload changes and what
    it does not, the rules that a grant writes to the file, the credentials on
    disk and the waits between connections. *)

From S2P Require Import Prelude Entities GoStrings Json GoPath FileOps AgentRuns Permissions Registry GrpcAgent.
From S2P Require Import ClientConfig ClientMain.
From S2P Require FileSpec.
Open Scope Z_scope.

(** ** Workspaces *)

(** What the client serves and what it tells the manager about it. *)
Record served (lim : limits) (t : tree) (writable : gset string) (roots : gmap string abspath)
    (l : list Registry.Workspace) : Prop := {
  served_names : NoDup (wk_Name <$> l);
  served_dom : list_to_set (wk_Name <$> l) = dom roots;
  served_dirs n p : roots !! n = Some p → Stat lim t p = Ok Dir;
  served_each : Forall (λ w, TrimSpace (wk_Name w) = wk_Name w ∧ wk_Name w ≠ "" ∧
    (String.length (wk_Name w) ≤ 128)%nat ∧ wk_Path w = "" ∧
    wk_Writable w = bool_decide (wk_Name w ∈ writable)) l
}.

Section workspaces.
Context (lim : limits) (t : tree) (cwd : abspath) (writable : gset string).

Lemma check_workspaces_spec names entries roots adv roots' adv' :
  check_workspaces lim t cwd names entries writable roots adv = Ok (roots', adv') →
  served lim t writable roots adv → served lim t writable roots' adv'.
Proof.
  revert roots adv. induction names as [|n names IH]; intros roots adv; cbn [check_workspaces]; [by intros [= <- <-]|].
  cbv zeta. destruct (_ || _) eqn:Hb; [done|]. destruct (decide (128 < _)%nat) as [Hl|Hl]; [done|].
  destruct (bool_decide (TrimSpace n ≠ n) && _); [done|].
  destruct (Stat _ _ _) as [[]|] eqn:Hst; try done.
  destruct (decide (is_Some (roots !! _))) as [?|Hr]; [done|]. intros H [Hnd Hd Hs Hf]. apply orb_false_elim in Hb as [Hb%bool_decide_eq_false _].
  apply (IH _ _ H). split.
  - rewrite fmap_app. apply NoDup_app. split; [done|]. split; [|apply NoDup_singleton].
    intros x Hx [->|?%not_elem_of_nil]%elem_of_cons; [|done]. apply Hr.
    rewrite <-elem_of_dom, <-Hd. by apply elem_of_list_to_set.
  - rewrite fmap_app, list_to_set_app_L, Hd, dom_insert_L. cbn. by rewrite union_empty_r_L, union_comm_L.
  - intros m q. destruct (decide (m = TrimSpace n)) as [->|Hm].
    + rewrite lookup_insert_eq. by intros [= <-].
    + rewrite lookup_insert_ne by done. apply Hs.
  - apply Forall_app. split; [done|]. constructor; [|constructor]. cbn.
    repeat split; [apply TrimSpace_idemp|done|lia].
Qed.

Lemma served_nothing : served lim t writable ∅ [].
Proof. split; [constructor|done|done|constructor]. Qed.

Lemma ParseWorkspaceMap_spec entries roots adv :
  ParseWorkspaceMap lim t cwd entries writable = Ok (roots, adv) →
  served lim t writable roots adv ∧ writable ⊆ dom entries.
Proof.
  unfold ParseWorkspaceMap. repeat case_decide; try done. intros Hc%check_workspaces_spec; [done|apply served_nothing].
Qed.

Lemma ParseWorkspaces_spec text roots adv :
  ParseWorkspaces lim t cwd text writable = Ok (roots, adv) → served lim t writable roots adv.
Proof.
  unfold ParseWorkspaces. case_decide; [done|]. cbn. destruct (workspace_entries _ _); [|done]. cbn.
  by intros [? _]%ParseWorkspaceMap_spec.
Qed.

Lemma sanitize_served seen roots l :
  served lim t writable roots l → (∀ w, w ∈ l → wk_Name w ∉ seen) → sanitize_workspaces seen l = Ok l.
Proof.
  intros [Hnd _ _ Hf]. clear roots. revert seen. induction l as [|w l IH]; intros seen Hs; [done|].
  cbn [fmap list_fmap] in Hnd. apply NoDup_cons in Hnd as [Hn Hnd]. apply Forall_cons in Hf as [(Ht & Hne & Hl & Hp & _) Hf].
  cbn [sanitize_workspaces]. cbv zeta. rewrite Ht, bool_decide_false by done. rewrite bool_decide_false by lia. cbn [orb].
  rewrite decide_False by (apply Hs; left). rewrite IH; [|done|done|].
  - cbn. destruct w. cbn in *. by subst.
  - intros v Hv [Heq%elem_of_singleton|Hin]%elem_of_union; [|by apply (Hs v); [right|]]. apply Hn.
    rewrite <-Heq. by apply list_elem_of_fmap_2.
Qed.
End workspaces.

(** ** Runtimes *)

(** What [buildRuntime] made its runtime of. *)
Record built (e : start_env) (lim : limits) (t : tree) (boot : bootOptions) (cfg : Config) (state : clientState)
    (rt : runtime) : Prop := {
  built_id : reg_DeviceID (rt_reg rt) = effectiveDeviceID e boot cfg ∧ TrimSpace (effectiveDeviceID e boot cfg) ≠ "";
  built_name : reg_DeviceName (rt_reg rt) = effectiveDeviceName e boot cfg;
  built_version : reg_Version (rt_reg rt) = version;
  built_key : rt_credKey rt = Key (effectiveManagerHost boot cfg) (effectiveDeviceID e boot cfg) ∧
              rt_credentialFile rt = bo_credentialFile boot;
  built_writable : FileOps.Writable (rt_service rt) = set_to_map (λ n, (n, true)) (effectiveWritable boot cfg);
  built_served : ∃ l, reg_Workspaces (rt_reg rt) = Some l ∧
    served lim t (effectiveWritable boot cfg) (Roots (rt_service rt)) l
}.

Lemma buildRuntime_inv e lim t cwd boot cfg state g r g' :
  buildRuntime e lim t cwd boot cfg state g = (r, g') →
  match r with
  | Ok rt => built e lim t boot cfg state rt ∧ g_perms g' = SetPermissions (active_rules e cfg) (g_perms g)
  | Err _ => g' = g
  end.
Proof.
  unfold buildRuntime. cbv zeta. case_decide as Hid; [by intros [= <- <-]|].
  set (ws := if decide (bo_workspaces boot ≠ "") then _ else _).
  destruct ws as [[roots l]|x] eqn:Hws; [|by intros [= <- <-]].
  unfold assemble. destruct (validateManagerHost _); [|by intros [= <- <-]]. cbv zeta. intros [<- <-]%pair_equal_spec.
  split; [|done]. split; cbn; try done.
  exists l. split; [done|]. subst ws. case_decide.
  - by apply ParseWorkspaces_spec in Hws.
  - by apply ParseWorkspaceMap_spec in Hws as [? _].
Qed.

Lemma firstNonEmpty_trimmed l : TrimSpace (firstNonEmpty l) = firstNonEmpty l.
Proof. apply TrimSpace_idemp. Qed.

Lemma firstNonEmpty_first x l : TrimSpace x ≠ "" → firstNonEmpty (x :: l) = TrimSpace x.
Proof. intros H. unfold firstNonEmpty, firstNonEmptyString, nonblank. cbn. by rewrite bool_decide_true. Qed.

Lemma sanitize_fixed reg l :
  TrimSpace (reg_DeviceID reg) = reg_DeviceID reg → TrimSpace (reg_DeviceName reg) = reg_DeviceName reg →
  TrimSpace (reg_Version reg) = reg_Version reg → reg_DeviceID reg ≠ "" → reg_DeviceName reg ≠ "" →
  (String.length (reg_DeviceID reg) ≤ 128)%nat → (String.length (reg_DeviceName reg) ≤ 256)%nat →
  (String.length (reg_Version reg) ≤ 64)%nat →
  reg_Workspaces reg = Some l → (length l ≤ 64)%nat → sanitize_workspaces ∅ l = Ok l →
  sanitizeRegistration reg = Ok reg.
Proof.
  intros E1 E2 E3 ???? Hv El Hl Hs. unfold sanitizeRegistration. rewrite E1, E2, E3, El. cbn [default from_option id].
  rewrite !bool_decide_false, !decide_False by (done || lia). cbn [orb].
  change (Datatypes.id l) with l. rewrite decide_False by lia. rewrite Hs. cbn. rewrite <-El. by destruct reg.
Qed.

Lemma dom_writable (w : gset string) : dom (set_to_map (λ n, (n, true)) w : gmap string bool) = w.
Proof.
  apply set_eq. intros x. rewrite elem_of_dom. split.
  - intros [b Hb]. apply lookup_set_to_map in Hb as (y & Hy & [= -> ?]); done.
  - intros Hx. exists true. apply lookup_set_to_map; [done|]. by exists x.
Qed.

Lemma firstNonEmpty_skip l : firstNonEmpty ("" :: l) = firstNonEmpty l.
Proof. unfold firstNonEmpty, firstNonEmptyString. cbn [find]. by assert (nonblank "" = false) as -> by by vm_compute. Qed.

(** C17. The registration that a client sends is one that the manager takes: for
    any runtime that [buildRuntime] gives, with at most 64 workspaces and an id
    and a name within the manager's bounds, [sanitizeRegistration] accepts the
    registration and leaves it as it is. The workspaces in it are exactly those
    that the client serves, each a directory when it was checked, with their
    write opt-ins and without any local path. *)
Theorem registration_accepted e lim t cwd boot cfg state g rt g' state' :
  buildRuntime e lim t cwd boot cfg state g = (Ok rt, g') →
  (length (default [] (reg_Workspaces (rt_reg rt))) ≤ 64)%nat →
  (String.length (reg_DeviceID (rt_reg rt)) ≤ 128)%nat →
  reg_DeviceName (rt_reg rt) ≠ "" → (String.length (reg_DeviceName (rt_reg rt)) ≤ 256)%nat →
  sanitizeRegistration (registration rt state') = Ok (registration rt state') ∧
  ∃ l, reg_Workspaces (registration rt state') = Some l ∧
    served lim t (dom (FileOps.Writable (rt_service rt))) (Roots (rt_service rt)) l.
Proof.
  intros [[[Eid Hid] En Ev _ Ew (l & El & Hl)] _]%buildRuntime_inv Hn Hi Hne Hln. split.
  - rewrite El in Hn. eapply sanitize_fixed; cbn [registration reg_DeviceID reg_DeviceName reg_Version reg_Workspaces].
    + rewrite Eid. apply firstNonEmpty_trimmed.
    + rewrite En. apply firstNonEmpty_trimmed.
    + by rewrite Ev.
    + rewrite Eid. unfold effectiveDeviceID in *. by rewrite firstNonEmpty_trimmed in Hid.
    + done.
    + done.
    + done.
    + rewrite Ev. vm_compute. lia.
    + exact El.
    + done.
    + eapply sanitize_served; [done|]. intros ? _. apply not_elem_of_empty.
  - exists l. split; [done|]. by rewrite Ew, dom_writable.
Qed.

(** The write opt-ins of the file at the start stay until the process ends:
    with no flag and no variable, and some writable workspace in the file, every
    runtime that is built later allows writing exactly to the workspaces that
    were writable in the file at the start, whatever the file says now. A
    runtime has the device id of the start as well. *)
Theorem write_opt_in_stays e file boot lim t cwd cfg state g rt g' :
  boot_options e file = Some boot →
  st_flag e "writable-workspaces" = None → st_var e "CODEBRIDGE_WRITABLE_WORKSPACES" = None →
  TrimSpace (Join "," (cf_WritableWorkspaces file)) ≠ "" → TrimSpace (bo_deviceID boot) ≠ "" →
  buildRuntime e lim t cwd boot cfg state g = (Ok rt, g') →
  dom (FileOps.Writable (rt_service rt)) =
    writableSet (Split comma (TrimSpace (Join "," (cf_WritableWorkspaces file)))) ∧
  reg_DeviceID (rt_reg rt) = TrimSpace (bo_deviceID boot).
Proof.
  intros Hb Hf Hv Hw Hd [[[Eid _] _ _ _ Ew _] _]%buildRuntime_inv.
  rewrite Ew, dom_writable, Eid. unfold effectiveDeviceID. rewrite firstNonEmpty_first by done. split; [|done].
  assert (bo_writableRaw boot = TrimSpace (Join "," (cf_WritableWorkspaces file))) as Eraw.
  { unfold boot_options in Hb. do 2 (apply bind_Some in Hb as ([??] & _ & Hb); cbn beta iota in Hb).
    injection Hb as <-. cbn [bo_writableRaw].
    unfold String_flag, Getenv. rewrite Hf, Hv. cbn [default from_option Datatypes.id].
    rewrite firstNonEmpty_skip. by apply firstNonEmpty_first. }
  unfold effectiveWritable. rewrite Eraw, (bool_decide_false (_ = "")) by by rewrite TrimSpace_idemp.
  by rewrite andb_false_r.
Qed.

(** ** Rules *)

Lemma decision_not_ask tool command first rs effect pattern :
  effect ≠ "ask" → (decision_from tool command first rs effect pattern).1 ≠ "ask".
Proof.
  revert effect pattern. induction rs as [|r rs IH]; intros effect pattern H; cbn; [done|].
  repeat case_match; try by apply IH. done.
Qed.

Lemma decision_with_all command first rs r effect pattern :
  r ∈ rs → rule_Tool r = "bash" → rule_Pattern r = "*" →
  (decision_from "bash" command first rs effect pattern).1 ≠ "ask".
Proof.
  intros Hin Ht Hp. revert effect pattern. induction rs as [|r' rs IH]; [by apply not_elem_of_nil in Hin|].
  intros effect pattern. cbn. apply elem_of_cons in Hin as [<-|Hin].
  - rewrite Ht, Hp. assert (bool_decide ("bash" ≠ "bash") = false) as -> by by vm_compute.
    assert (ruleMatches "*" command first = true) as -> by by vm_compute. rewrite andb_false_r.
    destruct (decide (rule_Effect r = "deny")); [done|].
    destruct (decide (effect ≠ "deny")) as [|Hd]; apply decision_not_ask; [done|]. intros ->. by apply Hd.
  - specialize (IH Hin). repeat case_match; try apply IH; done.
Qed.

(** A rule of the environment outlives it: a client that runs with
    CODEBRIDGE_BASH_PERMISSIONS=full and is granted any request with [always]
    writes the rule of the variable to its file with the others; a client
    started later from that file, without the variable, asks for no command at
    all. *)
Theorem environment_rule_kept js home order path e e' lim t t' cwd boot boot' cfg state state' g g1 rt rt' g2 g2' fault
    now id decision rule rules s d :
  let saved := with_permissions rules (loadConfigFile js home order path fault d) in
  decode_config js (encode_config js saved) = Some saved →
  st_var e "CODEBRIDGE_BASH_PERMISSIONS" = Some "full" → st_var e' "CODEBRIDGE_BASH_PERMISSIONS" = None →
  expandHome home (TrimSpace path) ≠ "" →
  buildRuntime e lim t cwd boot cfg state g = (Ok rt, g1) →
  permissionGrant now id decision (g_perms g1) = (Ok (GrantedAlways rule rules), s) →
  let d' := persist_rules js home order path fault
    {| sv_mkdir := None; sv_write := None; sv_chmod := None; sv_rename := None |} rules d in
  let cfg' := loadConfigFile js home order path None d' in
  buildRuntime e' lim t' cwd boot' cfg' state' g2 = (Ok rt', g2') →
  ∀ command, (permissionDecision "bash" command (g_perms g2')).1 ≠ "ask".
Proof.
  intros saved Hjs He He' Hpath [_ Hg]%buildRuntime_inv Hgrant d' cfg' [_ Hg2]%buildRuntime_inv command.
  assert (bash_rule e "allow" ∈ rules) as Hin.
  { unfold permissionGrant in Hgrant. case_decide; [done|]. unfold lookupRequest in Hgrant.
    destruct (perm_pending _ !! id); [|done]. case_decide; [done|]. repeat case_decide; try done.
    injection Hgrant as _ <- _. cbn. rewrite Hg. cbn. apply elem_of_app. left.
    unfold active_rules, Getenv. rewrite He. apply elem_of_app. right. cbn. by left. }
  assert (cf_Permissions cfg' = rules) as Ep.
  { unfold cfg', d', persist_rules. fold saved. unfold Save, replace_file, loadConfigFile at 1, Load, read_file.
    rewrite !decide_False by done. cbn. rewrite lookup_insert_eq. by rewrite Hjs. }
  unfold permissionDecision. eapply (decision_with_all _ _ _ (bash_rule e "allow")); [|done|done].
  rewrite Hg2. cbn. unfold active_rules. rewrite Ep. apply elem_of_app. by left.
Qed.

(** ** Credentials *)

Lemma replace_file_err w chmod path text x d d' :
  replace_file w chmod path text d = (Err x, d') → d' !! path = d !! path.
Proof.
  assert (path +:+ ".tmp" ≠ path) as Hp.
  { intros E%(f_equal String.length). rewrite <-!String_length_list, list_ascii_app, length_app in E. cbn in E. lia. }
  unfold replace_file. cbv zeta. destruct (sv_mkdir w); [by intros [= _ <-]|].
  destruct (sv_write w) as [[]|]; [intros [= _ <-]; by rewrite lookup_insert_ne|].
  destruct (if chmod then _ else _), (sv_rename w); try done; intros [= _ <-]; by rewrite lookup_insert_ne.
Qed.

Lemma replace_file_ok w chmod path text d d' :
  replace_file w chmod path text d = (Ok (), d') → d' = <[path := text]> (delete (path +:+ ".tmp") d).
Proof.
  unfold replace_file. cbv zeta. repeat case_match; try done; intros [= <-]; by rewrite delete_insert_eq.
Qed.

Lemma credential_Save_ok js fault w path key credential d d' : credential ≠ "" →
  credential_Save js fault w path key credential d = (Ok (), d') →
  d' !! path = Some (encode_creds js (<[key := credential]>
    (match read_file fault path d with Ok text => (decode_creds js text).1 | Err _ => ∅ end))).
Proof.
  intros Hne. unfold credential_Save. rewrite decide_False by done. intros ->%replace_file_ok. by rewrite lookup_insert_eq.
Qed.

(** C16. A device that was enrolled returns: when the start of a session gets a
    credential, and does not fail, the credential is in the file before the
    session counts as connected; it replaces the enrollment code; a client that
    is started again with the same manager, id and file, and with no credential
    given, has it as its own and registers with it. The credentials of other
    managers and ids in the file are as before, when the file could be read. *)
Theorem enrolled_device_returns js e e2 lim t cwd boot boot2 cfg state g rt g' fault w w2 ack st d st' d' :
  (∀ m, decode_creds js (encode_creds js m) = (m, true)) →
  buildRuntime e lim t cwd boot cfg state g = (Ok rt, g') →
  ack_DeviceCredential ack ≠ "" →
  start_session js fault w rt (Some (TypeRegistered, Some ack)) st d = (Ok (), st', d') →
  bo_managerHost boot2 = effectiveManagerHost boot cfg → bo_deviceID boot2 = effectiveDeviceID e boot cfg →
  bo_credentialFile boot2 = bo_credentialFile boot →
  TrimSpace (String_flag e2 "device-credential" (Getenv e2 "CODEBRIDGE_DEVICE_CREDENTIAL")) = "" →
  (cs_credential st' = ack_DeviceCredential ack ∧ cs_enrollCode st' = "" ∧ cs_connected st' = true) ∧
  (∃ st2, start_state e2 js None w2 boot2 d' = (Ok st2, d') ∧ cs_credential st2 = ack_DeviceCredential ack ∧
    reg_DeviceCredential (registration rt st2) = ack_DeviceCredential ack) ∧
  ∀ key c, key ≠ rt_credKey rt → fault = None →
    credential_Load js None (rt_credentialFile rt) key d = Ok c → credential_Load js None (rt_credentialFile rt) key d' = Ok c.
Proof.
  intros Hjs [[_ _ _ [Ek Ef] _ _] _]%buildRuntime_inv Hne Hst Eh Ei Ecf Hgiven.
  unfold start_session in Hst. rewrite decide_False in Hst by (intros E; by apply E).
  destruct (ack_Accepted ack); [|done]. cbn [negb] in Hst. rewrite decide_False in Hst by done.
  unfold persistCredential in Hst. destruct (credential_Save _ _ _ _ _ _ _) as [[[]|] d1] eqn:Hs; [|done].
  injection Hst as <- <-. cbn. split; [done|].
  apply credential_Save_ok in Hs as Hd; [|done]. split.
  - unfold start_state. rewrite decide_True by done. unfold credential_Load, read_file.
    rewrite Ecf, <-Ef, Hd, Hjs, Eh, Ei, <-Ek. cbn. rewrite lookup_insert_eq. cbn. eexists. split; [done|]. cbn.
    by rewrite decide_True.
  - intros key c Hk -> Hl. unfold credential_Load, read_file in Hl |- *. rewrite Hd, Hjs. cbn in Hl |- *.
    rewrite lookup_insert_ne by done. destruct (d !! rt_credentialFile rt) as [text|]; [|by rewrite lookup_empty].
    destruct (decode_creds js text) as [m []]; [done|discriminate].
Qed.

(** A session that does not start changes nothing: the credential, the
    enrollment code and the state of the connection are those before, and so is
    the file of credentials, at whatever point writing it failed. *)
Theorem failed_start_changes_nothing js fault w rt ack st d x st' d' :
  start_session js fault w rt ack st d = (Err x, st', d') →
  st' = st ∧ d' !! rt_credentialFile rt = d !! rt_credentialFile rt.
Proof.
  unfold start_session. destruct ack as [[type [ack|]]|]; [|by case_decide; intros [= _ <- <-]|by intros [= _ <- <-]].
  case_decide; [by intros [= _ <- <-]|]. destruct (ack_Accepted ack); [|by intros [= _ <- <-]]. cbn [negb].
  case_decide; [done|]. unfold persistCredential.
  destruct (credential_Save _ _ _ _ _ _ _) as [[[]|] d1] eqn:Hs; [done|]. intros [= _ <- <-]. split; [done|].
  unfold credential_Save in Hs. rewrite decide_False in Hs by done. by apply replace_file_err in Hs.
Qed.

(** ** Connections *)

(** What changes the process while it runs: a turn of the loop of [main] on the
    file as it is then; a grant; the credential, the code or the flags of the
    state. *)
Inductive client_step (e : start_env) (lim : limits) (cwd : abspath) (boot : bootOptions) : loop → loop → Prop :=
| CMain t cfg ev l : client_step e lim cwd boot l
    (main_step (buildRuntime e lim t cwd boot cfg (lp_state l) (lp_globals l)) ev l).1
| CGrant now id decision l : client_step e lim cwd boot l
    {| lp_rt := lp_rt l; lp_backoff := lp_backoff l; lp_state := lp_state l;
       lp_globals := {| g_perms := (permissionGrant now id decision (g_perms (lp_globals l))).2;
                        g_profiles := g_profiles (lp_globals l) |} |}
| CState st l : client_step e lim cwd boot l
    {| lp_rt := lp_rt l; lp_backoff := lp_backoff l; lp_state := st; lp_globals := lp_globals l |}.

Definition backoff_ok (b : Z) : Prop := reconnectBackoffBase ≤ b ≤ reconnectBackoffMax.

Lemma nextBackoff_ok b lived : backoff_ok b → backoff_ok (nextBackoff b lived).
Proof.
  unfold backoff_ok, nextBackoff, reconnectBackoffBase, reconnectBackoffMax, second_. intros H.
  destruct (_ || _); [lia|]. cbv zeta. rewrite wrap64_id by (unfold min_int64, max_int64; lia). case_decide; lia.
Qed.

(** The rules in force are those of a configuration and what was granted since. *)
Record loop_ok (e : start_env) (lim : limits) (boot : bootOptions) (l : loop) : Prop := {
  loop_backoff : backoff_ok (lp_backoff l);
  loop_rules rt : lp_rt l = Some rt → ∃ t cfg state granted,
    built e lim t boot cfg state rt ∧
    perm_rules (g_perms (lp_globals l)) = active_rules e cfg ++ granted ∧
    Forall (λ r, rule_Effect r = "allow") granted
}.

Lemma grant_rules now id decision s : ∃ rs,
  perm_rules (permissionGrant now id decision s).2 = perm_rules s ++ rs ∧ Forall (λ r, rule_Effect r = "allow") rs.
Proof.
  assert (∀ s', perm_rules s' = perm_rules s → ∃ rs, perm_rules s' = perm_rules s ++ rs ∧
    Forall (λ r, rule_Effect r = "allow") rs) as Hsame.
  { intros s' ->. exists []. rewrite app_nil_r. by split. }
  unfold permissionGrant. case_decide; [by apply Hsame|]. unfold lookupRequest.
  destruct (perm_pending s !! id) as [req|]; [|by apply Hsame]. case_decide; [by apply Hsame|]. cbv zeta.
  repeat case_decide; try by apply Hsame. exists [PermissionRuleForRequest req]. split; [done|]. by repeat constructor.
Qed.

Lemma client_step_ok e lim cwd boot l l' :
  client_step e lim cwd boot l l' → loop_ok e lim boot l → loop_ok e lim boot l'.
Proof.
  intros [t cfg ev l1|now id decision l1|st l1] [Hb Hr].
  - unfold main_step. cbv zeta.
    destruct (buildRuntime _ _ _ _ _ _ _ _) as [r g] eqn:Hbuild. apply buildRuntime_inv in Hbuild.
    assert (∀ rt b lost, backoff_ok b → r = Ok rt → loop_ok e lim boot {| lp_rt := Some rt; lp_backoff := b;
      lp_globals := g; lp_state := lost |}) as Hnew.
    { intros rt b lost Hok ->. destruct Hbuild as [Hbuild Hp]. split; [done|]. cbn. intros ? [= <-].
      exists t, cfg, (lp_state l1), []. rewrite app_nil_r, Hp. split; [done|]. by split. }
    assert (backoff_ok reconnectBackoffBase) as Hbase by (vm_compute; split; discriminate).
    assert (∀ b lost, backoff_ok b → loop_ok e lim boot {| lp_rt := lp_rt l1; lp_backoff := b;
      lp_globals := lp_globals l1; lp_state := lost |}) as Hold by by split.
    destruct (lp_rt l1) as [rt|] eqn:Hrt, ev as [| | |[] lived]; cbn [fst]; try (by apply Hold);
      try (by split; rewrite ?Hrt); try (by apply Hold, nextBackoff_ok).
    all: destruct r as [rt'|]; cbn [fst]; [by apply Hnew|subst g].
    + by apply Hold.
    + by split.
  - split; [done|]. cbn. intros rt Hrt. destruct (Hr rt Hrt) as (t & cfg & state & granted & H1 & H2 & H3).
    destruct (grant_rules now id decision (g_perms (lp_globals l1))) as (rs & E & Hf).
    exists t, cfg, state, (granted ++ rs). rewrite E, H2, app_assoc. split; [done|]. split; [done|]. by apply Forall_app.
  - by split.
Qed.


(** The ladder of waits: after [k] sessions in a row that end early, from
    the base, the wait is [2^k] seconds or fifteen; no wait of the loop is
    longer than fifteen seconds, and a stable session starts the ladder over. *)
Theorem backoff_ladder k lived b stable next ev l :
  lived < stableConnectionThreshold → stableConnectionThreshold ≤ stable → backoff_ok (lp_backoff l) →
  Nat.iter k (λ b, nextBackoff b lived) reconnectBackoffBase = Z.min (2 ^ Z.of_nat k * second_) reconnectBackoffMax ∧
  nextBackoff b stable = reconnectBackoffBase ∧ 0 ≤ (main_step next ev l).2 ≤ reconnectBackoffMax.
Proof.
  intros Hl Hs Hok. split; [|split].
  - induction k as [|k IH]; [done|]. rewrite Nat.iter_succ, IH.
    unfold nextBackoff, reconnectBackoffBase, reconnectBackoffMax, second_ in *. change (10 ^ 9) with 1000000000 in *.
    assert (1 ≤ 2 ^ Z.of_nat k) as Hk by (pose proof (Z.pow_pos_nonneg 2 (Z.of_nat k)); lia).
    rewrite !bool_decide_false by lia. cbn [orb]. cbv zeta. rewrite wrap64_id by (unfold min_int64, max_int64; lia).
    rewrite Nat2Z.inj_succ, Z.pow_succ_r by lia. set (X := 2 ^ Z.of_nat k) in *. clearbody X. clear IH. case_decide; lia.
  - unfold nextBackoff. rewrite (bool_decide_true (_ ≤ stable)) by done. by rewrite orb_true_r.
  - unfold main_step. cbv zeta. destruct next as [r g].
    assert (0 ≤ 0 ≤ reconnectBackoffMax ∧ 0 ≤ second_ ≤ reconnectBackoffMax) as [? ?] by by vm_compute.
    destruct (lp_rt l), ev as [| | |[] d]; cbn [snd]; try done.
    destruct (nextBackoff_ok _ d Hok) as [H1 H2]. split; [|done]. by etrans; [|exact H1].
Qed.

(** ** Examples and instances *)

Definition sample_start (vars : list (string * string)) : start_env := {|
  st_var := λ n, (list_to_map vars : gmap string string) !! n; st_flag := λ _, None; st_host := "Ann's Mac"; st_home := Some "/root";
  st_stateDir := "/state" |}.
Definition plain_start : start_env := sample_start [].
Definition full_start : start_env := sample_start [("CODEBRIDGE_BASH_PERMISSIONS", "full")].
Definition sample_file (writable : list string) (rules : list PermissionRule) : Config := {|
  cf_ManagerHost := ""; cf_DeviceID := ""; cf_DeviceName := ""; cf_AccessMode := ""; cf_Workspaces := {["ws" := "/ws"]};
  cf_WritableWorkspaces := writable; cf_EnabledTools := []; cf_DisabledTools := []; cf_CustomTools := [];
  cf_SubagentProfiles := []; cf_SubagentTabs := []; cf_CredentialFile := ""; cf_AllowSensitiveFiles := false;
  cf_EnableLSP := false; cf_BashAllowlist := []; cf_Permissions := rules; cf_CheckpointDir := "" |}.
Definition no_options : bootOptions := {|
  bo_managerHost := ""; bo_workspaces := ""; bo_deviceID := ""; bo_deviceName := ""; bo_allowSensitive := false;
  bo_allowSensitivePinned := false; bo_writableRaw := ""; bo_writablePinned := false; bo_enableLSP := false;
  bo_enableLSPPinned := false; bo_indexDir := ""; bo_checkpointDir := ""; bo_credentialFile := "" |}.
Definition sample_boot (e : start_env) (c : Config) : bootOptions := default no_options (boot_options e c).
Definition sample_state : clientState := {| cs_credential := ""; cs_enrollCode := "code"; cs_connected := false; cs_reconnects := 0 |}.
Definition sample_globals : globals := {|
  g_perms := {| perm_rules := []; perm_pending := {["pr_1" := {| Permissions.req_ID := "pr_1"; Permissions.req_Tool := "agent"; Permissions.req_Command := "codex";
    Permissions.req_Workspace := ""; req_CreatedAt := 0; req_ExpiresAt := 10 |}]}; perm_granted := ∅ |}; g_profiles := [] |}.
Definition sample_build (e : start_env) (c : Config) : result config_err runtime * globals :=
  buildRuntime e FileSpec.go_limits FileSpec.sample_tree [] (sample_boot e c) c sample_state sample_globals.

Example slug_of_host : hostnameSlug "Ann's Mac.local" = "ann-s-mac-local". Proof. by vm_compute. Qed.
Example ladder : (λ k, Nat.iter k (λ b, nextBackoff b second_) reconnectBackoffBase `div` second_) <$> List.seq 0 6 = [1; 2; 4; 8; 15; 15].
Proof. by vm_compute. Qed.
Example public_hosts : isPublicGRPCHost (λ h, bool_decide (h = "8.8.8.8")) <$>
  ["codebridge.example.com:443"; "8.8.8.8:443"; "mac.local:8081"; "[fe80::1]"] = [true; false; false; false].
Proof. by vm_compute. Qed.

Definition toy_file_json : file_json := {|
  decode_config := λ _, None; encode_config := λ _, ""; decode_creds := λ _, (∅, false); encode_creds := λ _, "" |}.

(** With workspaces of the environment, a file that can no longer be decoded is
    taken as an empty one: the reload is accepted, and the rules that deny are
    gone. *)
Example undecodable_file_drops_rules :
  let e := sample_start [("CODEBRIDGE_WORKSPACES", "ws=/ws")] in
  let deny := {| rule_Effect := "deny"; rule_Tool := "bash"; rule_Pattern := "rm"; rule_Reason := "" |} in
  let good := sample_file [] [deny] in
  let broken := loadConfigFile toy_file_json None [] "/c.json" None {["/c.json" := "{"]} in
  let reload := buildRuntime e FileSpec.go_limits FileSpec.sample_tree [] (sample_boot e good) broken sample_state (sample_build e good).2 in
  is_ok (sample_build e good).1 = true ∧ (permissionDecision "bash" "rm -r x" (g_perms (sample_build e good).2)).1 = "deny" ∧
  is_ok reload.1 = true ∧ (permissionDecision "bash" "rm -r x" (g_perms reload.2)).1 = "ask".
Proof. vm_compute. repeat split. Qed.

Lemma registration_accepted_witness : ∃ rt,
  (sample_build plain_start (sample_file ["ws"] [])).1 = Ok rt ∧ reg_DeviceID (rt_reg rt) = "ann-s-mac" ∧
  sanitizeRegistration (registration rt sample_state) = Ok (registration rt sample_state).
Proof.
  eexists. split; [vm_compute; reflexivity|]. split; [reflexivity|].
  eapply (registration_accepted plain_start FileSpec.go_limits FileSpec.sample_tree []
    (sample_boot plain_start (sample_file ["ws"] [])) (sample_file ["ws"] []) sample_state sample_globals _ _ sample_state); vm_compute; (reflexivity || lia || discriminate).
Defined.

Lemma write_opt_in_stays_witness : ∃ rt,
  boot_options plain_start (sample_file ["ws"] []) = Some (sample_boot plain_start (sample_file ["ws"] [])) ∧
  buildRuntime plain_start FileSpec.go_limits FileSpec.sample_tree [] (sample_boot plain_start (sample_file ["ws"] [])) (sample_file [] []) sample_state sample_globals =
    (Ok rt, (sample_build plain_start (sample_file [] [])).2) ∧
  dom (FileOps.Writable (rt_service rt)) = writableSet ["ws"].
Proof.
  eexists. split; [vm_compute; reflexivity|]. split; [vm_compute; reflexivity|].
  eapply (write_opt_in_stays plain_start (sample_file ["ws"] []) (sample_boot plain_start (sample_file ["ws"] [])) FileSpec.go_limits FileSpec.sample_tree []
    (sample_file [] []) sample_state sample_globals); vm_compute; (reflexivity || discriminate).
Defined.

Definition no_save_fault : save_env := {| sv_mkdir := None; sv_write := None; sv_chmod := None; sv_rename := None |}.

(** The rules after the grant, the configuration that is written with them, and
    JSON of that one configuration. *)
Definition granted_rules : list PermissionRule := [
  bash_rule full_start "allow";
  {| rule_Effect := "allow"; rule_Tool := "agent"; rule_Pattern := "codex"; rule_Reason := "" |}].
Definition granted_config : Config := with_permissions granted_rules (sample_file [] []).
Definition config_json : file_json := {|
  decode_config := λ s, if decide (s = "old") then Some (sample_file [] [])
                        else if decide (s = "new") then Some granted_config else None;
  encode_config := λ _, "new";
  decode_creds := λ _, (∅, false); encode_creds := λ _, "" |}.
Definition config_disk : disk := {["/c.json" := "old"]}.

Lemma environment_rule_kept_witness : ∃ rt rt',
  (sample_build full_start (sample_file [] [])).1 = Ok rt ∧
  (sample_build plain_start (loadConfigFile config_json None ["ws"] "/c.json" None
    (persist_rules config_json None ["ws"] "/c.json" None no_save_fault granted_rules config_disk))).1 = Ok rt' ∧
  ∀ command, (permissionDecision "bash" command (g_perms (sample_build plain_start granted_config).2)).1 ≠ "ask".
Proof.
  eexists _, _. split; [vm_compute; reflexivity|]. split; [vm_compute; reflexivity|]. intros command.
  refine (environment_rule_kept config_json None ["ws"] "/c.json" full_start plain_start FileSpec.go_limits
    FileSpec.sample_tree FileSpec.sample_tree [] (sample_boot full_start (sample_file [] []))
    (sample_boot plain_start granted_config) (sample_file [] []) sample_state sample_state sample_globals
    (sample_build full_start (sample_file [] [])).2 _ _ sample_globals (sample_build plain_start granted_config).2
    None 5 "pr_1" "always" _ granted_rules _ config_disk _ _ _ _ _ _ _ command);
    vm_compute; (reflexivity || discriminate).
Defined.

(** Bits of a number as a text, and a map of credentials as one. *)
Fixpoint bits_text (p : BinNums.positive) : string :=
  match p with xH => "" | xO p => String dash (bits_text p) | xI p => String colon (bits_text p) end.
Fixpoint text_bits (s : string) : BinNums.positive :=
  match s with "" => xH | String c s => if decide (c = dash) then xO (text_bits s) else xI (text_bits s) end.
Lemma text_bits_text p : text_bits (bits_text p) = p.
Proof. induction p as [p IH|p IH|]; cbn; by rewrite ?IH. Qed.
Definition creds_json : file_json := {|
  decode_config := λ _, None; encode_config := λ _, "";
  decode_creds := λ s, match countable.decode (text_bits s) with Some m => (m, true) | None => (∅, false) end;
  encode_creds := λ m, bits_text (countable.encode m) |}.

Definition creds_boot : bootOptions := sample_boot plain_start (sample_file [] []).
Definition creds_runtime : option runtime :=
  match (sample_build plain_start (sample_file [] [])).1 with Ok rt => Some rt | Err _ => None end.
Definition accepted : register_ack := {| ack_Accepted := true; ack_Message := ""; ack_DeviceCredential := "cred" |}.
Definition start_with (w : save_env) (rt : runtime) : result session_start_err () * clientState * disk :=
  start_session creds_json None w rt (Some (TypeRegistered, Some accepted)) sample_state ∅.

Lemma enrolled_device_returns_witness : ∃ rt, creds_runtime = Some rt ∧
  (start_with no_save_fault rt).1.1 = Ok () ∧ cs_enrollCode (start_with no_save_fault rt).1.2 = "" ∧
  ∃ st2, start_state plain_start creds_json None no_save_fault creds_boot (start_with no_save_fault rt).2 =
    (Ok st2, (start_with no_save_fault rt).2) ∧ reg_DeviceCredential (registration rt st2) = "cred".
Proof.
  eexists. split; [vm_compute; reflexivity|]. set (rt := Build_runtime _ _ _ _ _ _ _ _ _).
  destruct (enrolled_device_returns creds_json plain_start plain_start FileSpec.go_limits FileSpec.sample_tree [] creds_boot
    creds_boot (sample_file [] []) sample_state sample_globals rt (sample_build plain_start (sample_file [] [])).2
    None no_save_fault no_save_fault accepted sample_state ∅ (start_with no_save_fault rt).1.2 (start_with no_save_fault rt).2)
    as (H1 & (st2 & H2 & H3 & H4) & _).
  - intros m. cbn. by rewrite text_bits_text, decode_encode.
  - vm_compute. reflexivity.
  - vm_compute. discriminate.
  - vm_compute. reflexivity.
  - vm_compute. reflexivity.
  - vm_compute. reflexivity.
  - reflexivity.
  - vm_compute. reflexivity.
  - split; [vm_compute; reflexivity|]. split; [apply H1|]. exists st2. split; [exact H2|exact H4].
Defined.

(** The disk is full after three bytes. *)
Definition full_disk : save_env := {| sv_mkdir := None; sv_write := Some (3%nat, EIO); sv_chmod := None; sv_rename := None |}.

Lemma failed_start_changes_nothing_witness : ∃ rt x, creds_runtime = Some rt ∧
  (start_with full_disk rt).1.1 = Err x ∧ (start_with full_disk rt).1.2 = sample_state ∧
  (start_with full_disk rt).2 !! rt_credentialFile rt = None.
Proof.
  eexists _, _. split; [vm_compute; reflexivity|]. split; [vm_compute; reflexivity|]. set (rt := Build_runtime _ _ _ _ _ _ _ _ _).
  destruct (failed_start_changes_nothing creds_json None full_disk rt (Some (TypeRegistered, Some accepted)) sample_state ∅
    (EPersist (EWriteFile EIO)) (start_with full_disk rt).1.2 (start_with full_disk rt).2) as [H1 H2]; [vm_compute; reflexivity|].
  split; [exact H1|]. rewrite H2. apply lookup_empty.
Defined.

Definition first_loop : loop := start_loop (sample_build full_start (sample_file [] [])) sample_state.

(** A failed session, a grant, and a reload of a file that names no workspace. *)
Definition walk_step (ev : loop_event) (l : loop) : loop :=
  (main_step (buildRuntime full_start FileSpec.go_limits FileSpec.sample_tree [] (sample_boot full_start (sample_file [] []))
     empty_config (lp_state l) (lp_globals l)) ev l).1.
Definition walk_grant (l : loop) : loop :=
  {| lp_rt := lp_rt l; lp_backoff := lp_backoff l; lp_state := lp_state l;
     lp_globals := {| g_perms := (permissionGrant 5 "pr_1" "always" (g_perms (lp_globals l))).2;
                      g_profiles := g_profiles (lp_globals l) |} |}.

Lemma walk_step_ok ev l : client_step full_start FileSpec.go_limits [] (sample_boot full_start (sample_file [] [])) l (walk_step ev l).
Proof. unfold walk_step. apply CMain. Qed.
Lemma walk_grant_ok l : client_step full_start FileSpec.go_limits [] (sample_boot full_start (sample_file [] [])) l (walk_grant l).
Proof. unfold walk_grant. apply CGrant. Qed.


Lemma backoff_ladder_witness :
  Nat.iter 3 (λ b, nextBackoff b second_) reconnectBackoffBase = 8 * second_ ∧
  (main_step (sample_build full_start (sample_file [] [])) (LSessionEnded true second_) first_loop).2 ≤ reconnectBackoffMax.
Proof.
  destruct (backoff_ladder 3 second_ 0 stableConnectionThreshold (sample_build full_start (sample_file [] []))
    (LSessionEnded true second_) first_loop) as (H1 & _ & H2); [vm_compute; reflexivity|vm_compute; discriminate| |].
  - vm_compute. split; discriminate.
  - split; [rewrite H1; vm_compute; reflexivity|exact (proj2 H2)].
Defined.
