(* ===== verification/OAuthVerifier.v ===== *)
(** * Access tokens at the resource

    [src/internal/oauthresource/verifier.go]: the keys of the authorization
    server, fetched and kept for a while, and the check of an access token; and
    the document of keys that [src/internal/authserver/token.go] serves.

    The JWT library is a parameter: reading a token whose method is allowed,
    the check of its signature and claims under a key, and two claims. So are
    the parser of URLs and the decoder of the key document. Requests run
    concurrently: looking up a key, fetching the document, storing its keys and
    looking up again are steps of their own. *)

From S2P Require Import Prelude Entities GoStrings Json.
From S2P Require AuthServer.
Open Scope Z_scope.

(** ** Base64 without padding, for URLs *)

Definition base64_value (c : Z) : option Z :=
  if bool_decide (65 ≤ c ≤ 90) then Some (c - 65)
  else if bool_decide (97 ≤ c ≤ 122) then Some (c - 71)
  else if bool_decide (48 ≤ c ≤ 57) then Some (c + 4)
  else if decide (c = 45) then Some 62
  else if decide (c = 95) then Some 63
  else None.
Definition base64_char (v : Z) : Z :=
  if decide (v < 26) then v + 65 else if decide (v < 52) then v + 71 else if decide (v < 62) then v - 4
  else if decide (v = 62) then 45 else 95.

(** Four digits are three bytes; two or three at the end are one or two, their
    last bits are not looked at. *)
Fixpoint base64_group (l : list Z) : option (list Z) :=
  match l with
  | a :: b :: c :: d :: l =>
      rest ← base64_group l; Some (a * 4 + b `div` 16 :: b `mod` 16 * 16 + c `div` 4 :: c `mod` 4 * 64 + d :: rest)
  | [a; b; c] => Some [a * 4 + b `div` 16; b `mod` 16 * 16 + c `div` 4]
  | [a; b] => Some [a * 4 + b `div` 16]
  | [_] => None
  | [] => Some []
  end.
Fixpoint base64_digits (l : list Z) : list Z :=
  match l with
  | a :: b :: c :: l => a `div` 4 :: a `mod` 4 * 16 + b `div` 16 :: b `mod` 16 * 4 + c `div` 64 :: c `mod` 64 :: base64_digits l
  | [a; b] => [a `div` 4; a `mod` 4 * 16 + b `div` 16; b `mod` 16 * 4]
  | [a] => [a `div` 4; a `mod` 4 * 16]
  | [] => []
  end.

(** [base64.RawURLEncoding.DecodeString], which skips line ends, and
    [EncodeToString]. *)
Definition DecodeString (s : string) : option (list Z) :=
  digits ← mapM base64_value (filter (λ c, c ≠ 10 ∧ c ≠ 13) (codes s)); base64_group digits.
Definition EncodeToString (l : list Z) : string :=
  String.string_of_list_ascii (to_char ∘ base64_char <$> base64_digits l).

(** [big.Int.SetBytes] and [Bytes]: the bytes of a natural number, without
    leading zeros; a turn takes eight bits. *)
Definition SetBytes (l : list Z) : Z := foldl (λ n b, n * 256 + b) 0 l.
Fixpoint bytes_from (fuel : nat) (n : Z) : list Z :=
  match fuel with
  | O => []
  | S fuel => if decide (n ≤ 0) then [] else bytes_from fuel (n `div` 256) ++ [n `mod` 256]
  end.
Definition Bytes (n : Z) : list Z := bytes_from (S (Z.to_nat (Z.log2 n))) n.

(** ** Keys *)

Inductive public_key : Type :=
| RSA (n e : Z)
| EC (crv : string) (x y : Z).

Record signingKey : Type := { sk_Key : public_key; sk_Alg : string }.

Record jwk : Type := {
  jwk_Kid : string; jwk_Kty : string; jwk_Alg : string; jwk_Use : string; jwk_N : string; jwk_E : string;
  jwk_Crv : string; jwk_X : string; jwk_Y : string
}.

(** The curves: the prime of the field and the constant of the equation. *)
Definition curveForName (name : string) : option (Z * Z) :=
  if decide (name = "P-256") then
    Some (2 ^ 256 - 2 ^ 224 + 2 ^ 192 + 2 ^ 96 - 1, 0x5ac635d8aa3a93e7b3ebbd55769886bc651d06b0cc53b0f63bce3c3e27d2604b)
  else if decide (name = "P-384") then
    Some (2 ^ 384 - 2 ^ 128 - 2 ^ 96 + 2 ^ 32 - 1,
          0xb3312fa7e23ee7e4988e056be3f82d19181d9c6efe8141120314088f5013875ac656398d8a2ed19d2a85c8edd3ec2aef)
  else if decide (name = "P-521") then
    Some (2 ^ 521 - 1, 0x51953eb9618e1c9a1f929a21a0b68540eea2da725b99b315f3b8b489918ef109e156193951ec7e937b1652c0bd3bb1bf073573df883d2c34f1ef451fd46b503f00)
  else None.
Definition IsOnCurve (c : Z * Z) (x y : Z) : bool :=
  let '(p, b) := c in
  bool_decide (x < p) && bool_decide (y < p) && bool_decide ((y * y) `mod` p = (x * x * x - 3 * x + b) `mod` p).

Definition parseJWK (j : jwk) : option public_key :=
  if decide (jwk_Kty j = "RSA") then
    nBytes ← DecodeString (jwk_N j);
    if decide (nBytes = []) then None
    else
      eBytes ← DecodeString (jwk_E j);
      if bool_decide (eBytes = []) || bool_decide (4 < length eBytes)%nat then None
      else
        let e := foldl (λ e b, Z.lor (Z.shiftl e 8) b) 0 eBytes in
        if decide (e < 3) then None else Some (RSA (SetBytes nBytes) e)
  else if decide (jwk_Kty j = "EC") then
    curve ← curveForName (jwk_Crv j);
    xBytes ← DecodeString (jwk_X j);
    yBytes ← DecodeString (jwk_Y j);
    if IsOnCurve curve (SetBytes xBytes) (SetBytes yBytes)
    then Some (EC (jwk_Crv j) (SetBytes xBytes) (SetBytes yBytes)) else None
  else None.

(** The loop of [refresh]: the last key of an id counts. *)
Definition usable (item : jwk) : bool :=
  bool_decide (jwk_Kid item ≠ "") && (bool_decide (jwk_Use item = "") || bool_decide (jwk_Use item = "sig")).
Definition add_key (keys : gmap string signingKey) (item : jwk) : gmap string signingKey :=
  if usable item then
    match parseJWK item with
    | Some key => <[jwk_Kid item := {| sk_Key := key; sk_Alg := jwk_Alg item |}]> keys
    | None => keys
    end
  else keys.
Definition keys_of (doc : list jwk) : gmap string signingKey := foldl add_key ∅ doc.

(** The document of [Server.JWKS], for a signing key of modulus [n] and exponent
    [e]. *)
Definition JWKS (kid : string) (n e : Z) : list jwk := [
  {| jwk_Kid := kid; jwk_Kty := "RSA"; jwk_Alg := "RS256"; jwk_Use := "sig";
     jwk_N := EncodeToString (Bytes n); jwk_E := EncodeToString (Bytes e);
     jwk_Crv := ""; jwk_X := ""; jwk_Y := "" |}].

(** ** The verifier *)

Inductive verify_err : Type :=
| ESettings | EURL (which : string)
| EInvalidToken | EMissingKid | ENoKey (kid : string) | EAlgorithm | EExpiration | ESubject | ESubjectNotAllowed
| EFetchJWKS | EStatusJWKS (n : Z) | EBody | EDecodeJWKS | ENoUsableKeys.

(** What the code uses of [net/url] and [net]: scheme and host name, and whether
    a host is an IP address of the loopback. *)
Record url_lib : Type := { url_parse : string → option (string * string); loopback_ip : string → bool }.

Definition requireHTTPSOrLoopback (u : url_lib) (text : string) : bool :=
  match url_parse u text with
  | None => false
  | Some (scheme, host) =>
      bool_decide (host ≠ "") &&
      (bool_decide (scheme = "https") ||
       (bool_decide (scheme = "http") && (bool_decide (host = "localhost") || loopback_ip u host)))
  end.

Record Config : Type := { v_Issuer : string; v_Audience : string; v_JWKSURL : string; v_AllowedSubjects : list string }.

(** [fetchedAt] is the zero time before the first document. *)
Record Verifier : Type := {
  issuer : string; audience : string; jwksURL : string; allowedSubjects : gset string;
  keys : gmap string signingKey; fetchedAt : option time
}.
Definition cacheTTL : Z := 15 * 60 * AuthServer.second.

Definition New (u : url_lib) (c : Config) : result verify_err Verifier :=
  let iss := TrimSpace (v_Issuer c) in
  let aud := TrimSpace (v_Audience c) in
  let url := TrimSpace (v_JWKSURL c) in
  if bool_decide (iss = "") || bool_decide (aud = "") || bool_decide (url = "") then Err ESettings
  else if negb (requireHTTPSOrLoopback u iss) then Err (EURL "issuer")
  else if negb (requireHTTPSOrLoopback u url) then Err (EURL "jwks URL")
  else Ok {| issuer := iss; audience := aud; jwksURL := url;
             allowedSubjects := list_to_set (filter (λ s, s ≠ "") (TrimSpace <$> v_AllowedSubjects c));
             keys := ∅; fetchedAt := None |}.

(** [time.Since(v.fetchedAt)]; the zero time is longer ago than a duration can
    say. *)
Definition age (now : time) (v : Verifier) : Z :=
  match fetchedAt v with Some t => Sub now t | None => max_int64 end.

(** The first half of [key]: a key, an error, or the document is fetched. *)
Inductive looked : Type := LFound (key : signingKey) | LErr (e : verify_err) | LRefresh.
Definition key_lookup (now : time) (kid : string) (v : Verifier) : looked :=
  match keys v !! kid with
  | Some key => if decide (age now v ≤ cacheTTL) then LFound key else LRefresh
  | None => if decide (age now v ≤ 30 * AuthServer.second) then LErr (ENoKey kid) else LRefresh
  end.

(** The answer to the request for the document, with its body or what reading it
    gives. *)
Inductive http_answer : Type := HFailed | HStatus (code : Z) (body : option string).

(** What is read through [io.LimitReader]. *)
Definition LimitReader (n : Z) (s : string) : string :=
  if decide (Z.of_nat (String.length s) ≤ n) then s else first_bytes (Z.to_nat n) s.

(** [refresh] up to the keys. *)
Definition fetch_keys (decode_jwks : string → option (list jwk)) (a : http_answer) :
    result verify_err (gmap string signingKey) :=
  match a with
  | HFailed => Err EFetchJWKS
  | HStatus code body =>
      if decide (code ≠ 200) then Err (EStatusJWKS code)
      else
        match body with
        | None => Err EBody
        | Some text =>
            match decode_jwks (LimitReader (2 ^ 20) text) with
            | None => Err EDecodeJWKS
            | Some doc => if decide (keys_of doc = ∅) then Err ENoUsableKeys else Ok (keys_of doc)
            end
        end
  end.
Definition store_keys (now : time) (ks : gmap string signingKey) (v : Verifier) : Verifier := {|
  issuer := issuer v; audience := audience v; jwksURL := jwksURL v; allowedSubjects := allowedSubjects v;
  keys := ks; fetchedAt := Some now |}.
(** The second half of [key]. *)
Definition key_again (kid : string) (v : Verifier) : result verify_err signingKey :=
  match keys v !! kid with Some key => Ok key | None => Err (ENoKey kid) end.

(** ** Tokens *)

Abbreviation claims := (list (string * json)).
Record token : Type := { tok_Header : list (string * json); tok_Alg : string; tok_Claims : claims }.

(** The options of the parser. *)
Record options : Type := { op_Methods : list string; op_Issuer : string; op_Audience : string; op_Leeway : Z }.
Definition parser_options (v : Verifier) : options := {|
  op_Methods := ["RS256"; "RS384"; "RS512"; "PS256"; "PS384"; "PS512"; "ES256"; "ES384"; "ES512"];
  op_Issuer := issuer v; op_Audience := audience v; op_Leeway := 30 * AuthServer.second |}.

(** What the code uses of the JWT library. [ParseWithClaims] reads the token,
    asks for the key, and checks signature and claims at a time; [GetSubject] is
    the empty string and [GetExpirationTime] [None] without the claim. *)
Record jwt_lib : Type := {
  jwt_read : options → string → option token;
  jwt_check : options → time → string → public_key → bool;
  jwt_subject : claims → option string;
  jwt_expiration : claims → option (option time)
}.

Record TokenInfo : Type := {
  ti_Scopes : list string; ti_Expiration : time; ti_UserID : string; ti_issuer : string; ti_audience : string }.

Definition scopes_in (v : option json) : list string :=
  match v with
  | Some (JString s) => Fields s
  | Some (JArray items) => items ≫= λ item, match item with JString s => Fields s | _ => [] end
  | _ => []
  end.
Fixpoint first_of_each (seen : gset string) (l : list string) : list string :=
  match l with
  | [] => []
  | s :: l =>
      if bool_decide (s ≠ "") && bool_decide (s ∉ seen) then s :: first_of_each ({[s]} ∪ seen) l else first_of_each seen l
  end.
Definition extractScopes (c : claims) : list string :=
  first_of_each ∅ (scopes_in (field "scope" c) ++ scopes_in (field "scp" c)).

Definition kid_of (t : token) : string := match field "kid" (tok_Header t) with Some (JString s) => s | _ => "" end.

Section verify.
Context (jwt : jwt_lib).

(** [Verify] once the key is known: the end of the key function, the check of
    the library and what follows. *)
Definition verify_with (now : time) (text : string) (t : token) (key : signingKey) (v : Verifier) :
    result verify_err TokenInfo :=
  if bool_decide (sk_Alg key ≠ "") && bool_decide (sk_Alg key ≠ tok_Alg t) then Err EAlgorithm
  else if negb (jwt_check jwt (parser_options v) now text (sk_Key key)) then Err EInvalidToken
  else
    match jwt_expiration jwt (tok_Claims t), jwt_subject jwt (tok_Claims t) with
    | Some (Some exp), Some sub =>
        if decide (TrimSpace sub = "") then Err ESubject
        else if bool_decide (allowedSubjects v ≠ ∅) && bool_decide (sub ∉ allowedSubjects v) then Err ESubjectNotAllowed
        else Ok {| ti_Scopes := extractScopes (tok_Claims t); ti_Expiration := exp; ti_UserID := sub;
                   ti_issuer := issuer v; ti_audience := audience v |}
    | Some (Some _), None => Err ESubject
    | _, _ => Err EExpiration
    end.

(** *** Requests in flight

    [began] is when the request looked the key up first. *)
Inductive call : Type :=
| CFetching (began : time) (text : string) (t : token)
| CStoring (began : time) (text : string) (t : token) (ks : gmap string signingKey)
| CReading (began : time) (text : string) (t : token)
| CAnswered (text : string) (r : result verify_err TokenInfo).

Record site : Type := { s_verifier : Verifier; s_calls : gmap nat call; s_now : time }.
Definition set_call (k : nat) (c : call) (s : site) : site :=
  {| s_verifier := s_verifier s; s_calls := <[k := c]> (s_calls s); s_now := s_now s |}.

Definition verify_begin (now : time) (k : nat) (text : string) (s : site) : site :=
  let v := s_verifier s in
  set_call k
    (match jwt_read jwt (parser_options v) text with
     | None => CAnswered text (Err EInvalidToken)
     | Some t =>
         if decide (kid_of t = "") then CAnswered text (Err EMissingKid)
         else match key_lookup now (kid_of t) v with
              | LFound key => CAnswered text (verify_with now text t key v)
              | LErr e => CAnswered text (Err e)
              | LRefresh => CFetching now text t
              end
     end) s.

(** The next step of a request: [a] is the answer to its fetch. *)
Definition verify_step (decode_jwks : string → option (list jwk)) (now : time) (a : http_answer) (k : nat) (s : site) :
    option site :=
  match s_calls s !! k with
  | Some (CFetching began text t) =>
      Some (set_call k (match fetch_keys decode_jwks a with
                        | Err e => CAnswered text (Err e)
                        | Ok ks => CStoring began text t ks
                        end) s)
  | Some (CStoring began text t ks) =>
      Some (set_call k (CReading began text t)
              {| s_verifier := store_keys now ks (s_verifier s); s_calls := s_calls s; s_now := s_now s |})
  | Some (CReading _ text t) =>
      Some (set_call k (CAnswered text (match key_again (kid_of t) (s_verifier s) with
                                        | Err e => Err e
                                        | Ok key => verify_with now text t key (s_verifier s)
                                        end)) s)
  | _ => None
  end.
End verify.

(** [Verify] of one request that runs alone, with the times of its two lookups
    and of its store. *)
Definition Verify (jwt : jwt_lib) (decode_jwks : string → option (list jwk)) (now stored later : time) (a : http_answer)
    (text : string) (v : Verifier) : result verify_err TokenInfo * Verifier :=
  match jwt_read jwt (parser_options v) text with
  | None => (Err EInvalidToken, v)
  | Some t =>
      if decide (kid_of t = "") then (Err EMissingKid, v)
      else match key_lookup now (kid_of t) v with
           | LFound key => (verify_with jwt now text t key v, v)
           | LErr e => (Err e, v)
           | LRefresh =>
               match fetch_keys decode_jwks a with
               | Err e => (Err e, v)
               | Ok ks =>
                   let v := store_keys stored ks v in
                   (match key_again (kid_of t) v with Err e => Err e | Ok key => verify_with jwt later text t key v end, v)
               end
           end
  end.

(** ** The tokens of the authorization server

    The claims of [signAccessToken] as JSON. *)
Definition token_claims (t : AuthServer.access_token) : claims :=
  [("iss", JString (AuthServer.at_iss t)); ("sub", JString (AuthServer.at_sub t)); ("aud", JString (AuthServer.at_aud t));
   ("iat", JInt (AuthServer.at_iat t)); ("nbf", JInt (AuthServer.at_iat t)); ("exp", JInt (AuthServer.at_exp t));
   ("jti", JString (AuthServer.at_jti t))] ++
  match AuthServer.at_scope t with Some s => [("scope", JString s)] | None => [] end ++
  match AuthServer.at_client_id t with Some s => [("client_id", JString s)] | None => [] end.
Definition signed_header (kid : string) : list (string * json) :=
  [("alg", JString "RS256"); ("kid", JString kid); ("typ", JString "JWT")].
