(* ===== verification/OAuthSpec.v ===== *)
(** * What the verifier of access tokens promises

    The key document that the authorization server publishes reads back as its
    key; what is accepted, whatever requests run at the same time; and that
    the tokens the authorization server issues are accepted. *)

From S2P Require Import Prelude Entities GoStrings Json OAuthVerifier.
From S2P Require AuthServer.
Open Scope Z_scope.

(** ** Encoding *)

Definition is_byte (b : Z) : Prop := 0 ≤ b < 256.
Definition is_digit (d : Z) : Prop := 0 ≤ d < 64.

Lemma list_ind3 {A} (P : list A → Prop) :
  P [] → (∀ a, P [a]) → (∀ a b, P [a; b]) → (∀ a b c l, P l → P (a :: b :: c :: l)) → ∀ l, P l.
Proof.
  intros H0 H1 H2 H3 l. induction l as [l IH] using (induction_ltof1 _ (@length A)). unfold ltof in IH.
  destruct l as [|a [|b [|c l]]]; auto. apply H3, IH. cbn. lia.
Qed.

Lemma base64_digits_ok l : Forall is_byte l → Forall is_digit (base64_digits l).
Proof.
  unfold is_byte, is_digit. induction l as [|a|a b|a b c l IH] using list_ind3; intros H; cbn [base64_digits];
    repeat match goal with H : Forall _ (_ :: _) |- _ => apply Forall_cons in H as [? H] end;
    repeat constructor; try apply IH; try done; Z.div_mod_to_equations; lia.
Qed.

Lemma base64_roundtrip l : Forall is_byte l → base64_group (base64_digits l) = Some l.
Proof.
  unfold is_byte. induction l as [|a|a b|a b c l IH] using list_ind3; intros H; cbn [base64_digits base64_group];
    repeat match goal with H : Forall _ (_ :: _) |- _ => apply Forall_cons in H as [? H] end; [done| | |rewrite IH by done];
    cbn; repeat f_equal; Z.div_mod_to_equations; lia.
Qed.

Lemma base64_char_value d : is_digit d → base64_value (base64_char d) = Some d ∧
  base64_char d ≠ 10 ∧ base64_char d ≠ 13 ∧ 0 ≤ base64_char d < 256.
Proof.
  intros H. assert (Forall (λ d, base64_value (base64_char d) = Some d ∧ base64_char d ≠ 10 ∧ base64_char d ≠ 13 ∧
    0 ≤ base64_char d < 256) (seqZ 0 64)) as Hall by (apply (bool_decide_unpack _); by vm_compute).
  rewrite Forall_forall in Hall. apply Hall, elem_of_seqZ. unfold is_digit in H. lia.
Qed.

Lemma codes_string_of l : Forall is_byte l → codes (String.string_of_list_ascii (to_char <$> l)) = l.
Proof.
  unfold codes, is_byte. rewrite String.list_ascii_of_string_of_list_ascii. induction 1 as [|b l Hb _ IH]; [done|].
  cbn. f_equal; [|exact IH]. unfold char_val, to_char. rewrite Ascii.N_ascii_embedding by lia. lia.
Qed.

Lemma DecodeString_EncodeToString l : Forall is_byte l → DecodeString (EncodeToString l) = Some l.
Proof.
  intros H. pose proof (base64_digits_ok _ H) as Hd. unfold DecodeString, EncodeToString.
  rewrite list_fmap_compose, codes_string_of.
  2: { rewrite Forall_fmap. eapply Forall_impl; [exact Hd|]. intros d (_ & _ & _ & ?)%base64_char_value. done. }
  assert (mapM base64_value (filter (λ c, c ≠ 10 ∧ c ≠ 13) (base64_char <$> base64_digits l)) = Some (base64_digits l)) as ->.
  { clear H. induction Hd as [|d ds Hd _ IH]; [done|]. destruct (base64_char_value d Hd) as (Hv & ? & ? & _).
    cbn [fmap list_fmap]. rewrite filter_cons_True by done. cbn [mapM]. change (base64_char <$> ds) with (base64_char <$> ds) in IH.
    rewrite Hv. cbn. by rewrite IH. }
  cbn. by apply base64_roundtrip.
Qed.

Lemma SetBytes_app l b : SetBytes (l ++ [b]) = SetBytes l * 256 + b.
Proof. unfold SetBytes. by rewrite foldl_app. Qed.

Lemma bytes_from_spec fuel n : 0 ≤ n < 2 ^ Z.of_nat (8 * fuel) →
  SetBytes (bytes_from fuel n) = n ∧ Forall is_byte (bytes_from fuel n) ∧
  ∀ k, n < 2 ^ Z.of_nat (8 * k) → (length (bytes_from fuel n) ≤ k)%nat.
Proof.
  revert n. induction fuel as [|fuel IH]; intros n Hn; cbn [bytes_from].
  { change (2 ^ Z.of_nat (8 * 0)) with 1 in Hn. replace n with 0 by lia. repeat split; [constructor|cbn; lia]. }
  case_decide as H0. { replace n with 0 by lia. repeat split; [constructor|cbn; lia]. }
  assert (∀ j, 2 ^ Z.of_nat (8 * S j) = 256 * 2 ^ Z.of_nat (8 * j)) as Hpow.
  { intros j. replace (Z.of_nat (8 * S j)) with (8 + Z.of_nat (8 * j)) by lia. rewrite Z.pow_add_r by lia. done. }
  destruct (IH (n `div` 256)) as (H1 & H2 & H3).
  { rewrite Hpow in Hn. split; [apply Z.div_pos; lia|]. apply Z.div_lt_upper_bound; lia. }
  split; [|split].
  - rewrite SetBytes_app, H1. Z.div_mod_to_equations; lia.
  - apply Forall_app. split; [done|]. constructor; [|constructor]. unfold is_byte. Z.div_mod_to_equations; lia.
  - intros [|k] Hk. { change (2 ^ Z.of_nat (8 * 0)) with 1 in Hk. lia. }
    rewrite length_app. cbn [length]. rewrite Nat.add_1_r. apply le_n_S, H3. rewrite Hpow in Hk.
    apply Z.div_lt_upper_bound; lia.
Qed.

Lemma Bytes_spec n : 0 ≤ n → SetBytes (Bytes n) = n ∧ Forall is_byte (Bytes n) ∧
  ∀ k, n < 2 ^ Z.of_nat (8 * k) → (length (Bytes n) ≤ k)%nat.
Proof.
  intros Hn. apply bytes_from_spec. split; [done|].
  destruct (Z.eq_dec n 0) as [->|]; [done|].
  eapply Z.lt_le_trans; [apply (Z.log2_spec n); lia|]. apply Z.pow_le_mono_r; [lia|].
  pose proof (Z.log2_nonneg n). lia.
Qed.

(** The loop over the bytes of an exponent is [SetBytes] of them. *)
Lemma exponent_bytes l : Forall is_byte l → foldl (λ e b, Z.lor (Z.shiftl e 8) b) 0 l = SetBytes l.
Proof.
  intros H. unfold SetBytes. generalize 0 as e. induction H as [|b l Hb _ IH]; intros e; cbn; [done|]. rewrite <-IH. f_equal.
  unfold is_byte in Hb. rewrite Z.lor_comm, lor_add by (change (2 ^ 8) with 256; lia). change (2 ^ 8) with 256. lia.
Qed.

Lemma jwks_keys kid n e : kid ≠ "" → 0 < n → 3 ≤ e < 2 ^ 32 →
  keys_of (JWKS kid n e) = {[kid := {| sk_Key := RSA n e; sk_Alg := "RS256" |}]}.
Proof.
  intros Hk Hn He. destruct (Bytes_spec n) as (N1 & N2 & _); [lia|]. destruct (Bytes_spec e) as (E1 & E2 & E3); [lia|].
  unfold keys_of, JWKS. cbn [foldl]. unfold add_key, usable. cbn [jwk_Kid jwk_Use]. rewrite bool_decide_true by done.
  cbn [andb]. change (bool_decide ("sig" = "") || bool_decide ("sig" = "sig")) with true.
  unfold parseJWK. cbn [jwk_Kty jwk_N jwk_E jwk_Alg jwk_Kid]. rewrite decide_True by done.
  rewrite !DecodeString_EncodeToString by done. cbn [mbind option_bind].
  rewrite decide_False by (intros H0; rewrite H0 in N1; cbn in N1; lia).
  rewrite bool_decide_false by (intros H0; rewrite H0 in E1; cbn in E1; lia).
  rewrite bool_decide_false by (pose proof (E3 4%nat) as H4; change (2 ^ Z.of_nat (8 * 4)) with (2 ^ 32) in H4; lia).
  cbn [orb]. cbv zeta. rewrite exponent_bytes, E1, N1 by done. rewrite decide_False by lia. by rewrite insert_empty.
Qed.

(** The key that the authorization server publishes is the key that the
    verifier has then: for any RSA key with a modulus and an exponent that is at
    least 3 and fits 32 bits, the document of [JWKS] gives exactly one key, with
    the id, the numbers and the method RS256. *)
Theorem published_key_read kid n e : kid ≠ "" → 0 < n → 3 ≤ e < 2 ^ 32 →
  keys_of (JWKS kid n e) = {[kid := {| sk_Key := RSA n e; sk_Alg := "RS256" |}]}.
Proof. apply jwks_keys. Qed.

(** ** Requests at the same time *)

(** What has happened: an answer with the document arrived, its keys were
    stored. *)
Inductive happened : Type := HServed (at_ : time) (body : string) | HStored (at_ : time) (ks : gmap string signingKey).

Definition at_time (now : time) (s : site) : site := {| s_verifier := s_verifier s; s_calls := s_calls s; s_now := now |}.

Section requests.
Context (jwt : jwt_lib) (decode_jwks : string → option (list jwk)) (v0 : Verifier).

Definition served_by (now : time) (a : http_answer) : list happened :=
  match a with HStatus 200 (Some body) => [HServed now body] | _ => [] end.
Definition events (c : option call) (now : time) (a : http_answer) : list happened :=
  match c with
  | Some (CFetching _ _ _) => served_by now a
  | Some (CStoring _ _ _ ks) => [HStored now ks]
  | _ => []
  end.

(** The states of the verifier after any interleaving of requests, on a clock
    that does not go back, with what has happened. *)
Inductive reaches : list happened → site → Prop :=
| RStart now : reaches [] {| s_verifier := v0; s_calls := ∅; s_now := now |}
| RBegin h s now k text : reaches h s → s_now s ≤ now → s_calls s !! k = None →
    reaches h (verify_begin jwt now k text (at_time now s))
| RStep h s now a k s' : reaches h s → s_now s ≤ now →
    verify_step jwt decode_jwks now a k (at_time now s) = Some s' →
    reaches (h ++ events (s_calls s !! k) now a) s'.

(** The keys of a document that was served, and then stored. *)
Definition stored_from (h : list happened) (stored : time) (ks : gmap string signingKey) : Prop :=
  HStored stored ks ∈ h ∧ ∃ served body doc, served ≤ stored ∧ HServed served body ∈ h ∧
    decode_jwks (LimitReader (2 ^ 20) body) = Some doc ∧ ks = keys_of doc.

(** Why a token was accepted. *)
Record accepted (h : list happened) (text : string) (info : TokenInfo) : Prop := {
  acc_proof : ∃ tok key now began stored ks,
    jwt_read jwt (parser_options v0) text = Some tok ∧
    stored_from h stored ks ∧ ks !! kid_of tok = Some key ∧
    (now - stored ≤ cacheTTL ∨ began ≤ stored) ∧ began ≤ now ∧
    (sk_Alg key = "" ∨ sk_Alg key = tok_Alg tok) ∧
    jwt_check jwt (parser_options v0) now text (sk_Key key) = true ∧
    jwt_subject jwt (tok_Claims tok) = Some (ti_UserID info) ∧
    jwt_expiration jwt (tok_Claims tok) = Some (Some (ti_Expiration info)) ∧
    ti_Scopes info = extractScopes (tok_Claims tok);
  acc_subject : TrimSpace (ti_UserID info) ≠ "" ∧ (allowedSubjects v0 = ∅ ∨ ti_UserID info ∈ allowedSubjects v0);
  acc_for : ti_issuer info = issuer v0 ∧ ti_audience info = audience v0
}.

Definition call_ok (h : list happened) (s : site) (c : call) : Prop :=
  match c with
  | CFetching began text t => began ≤ s_now s ∧ jwt_read jwt (parser_options v0) text = Some t
  | CStoring began text t ks =>
      began ≤ s_now s ∧ jwt_read jwt (parser_options v0) text = Some t ∧
      ∃ served body doc, served ≤ s_now s ∧ HServed served body ∈ h ∧
        decode_jwks (LimitReader (2 ^ 20) body) = Some doc ∧ ks = keys_of doc
  | CReading began text t =>
      began ≤ s_now s ∧ jwt_read jwt (parser_options v0) text = Some t ∧
      ∃ stored, fetchedAt (s_verifier s) = Some stored ∧ began ≤ stored
  | CAnswered text (Ok info) => accepted h text info
  | CAnswered text (Err _) => True
  end.

Record site_ok (h : list happened) (s : site) : Prop := {
  ok_settings : parser_options (s_verifier s) = parser_options v0 ∧ allowedSubjects (s_verifier s) = allowedSubjects v0 ∧
    issuer (s_verifier s) = issuer v0 ∧ audience (s_verifier s) = audience v0;
  ok_keys : match fetchedAt (s_verifier s) with
            | Some stored => stored ≤ s_now s ∧ stored_from h stored (keys (s_verifier s))
            | None => keys (s_verifier s) = ∅
            end;
  ok_calls k c : s_calls s !! k = Some c → call_ok h s c
}.

Lemma stored_from_mono h h' stored ks : h ⊆ h' → stored_from h stored ks → stored_from h' stored ks.
Proof. intros Hs (H1 & t & b & d & H2 & H3 & H4). split; [by apply Hs|]. exists t, b, d. auto. Qed.

Lemma accepted_mono h h' text info : h ⊆ h' → accepted h text info → accepted h' text info.
Proof.
  intros Hs [(tok & key & now & began & stored & ks & H1 & H2 & H3) ? ?]. split; [|done|done].
  exists tok, key, now, began, stored, ks. split; [done|]. split; [by eapply stored_from_mono|done].
Qed.

Lemma call_ok_mono h h' s s' c :
  h ⊆ h' → s_now s ≤ s_now s' →
  (∀ stored, fetchedAt (s_verifier s) = Some stored → ∃ stored', fetchedAt (s_verifier s') = Some stored' ∧ stored ≤ stored') →
  call_ok h s c → call_ok h' s' c.
Proof.
  intros Hs Ht Hf. destruct c as [began text t|began text t ks|began text t|text [info|]]; cbn [call_ok].
  - intros [? ?]. split; [lia|done].
  - intros (? & ? & served & body & doc & ? & ? & ? & ?). split; [lia|]. split; [done|].
    exists served, body, doc. repeat split; [lia|by apply Hs|done|done].
  - intros (? & ? & stored & Hst & ?). split; [lia|]. split; [done|].
    destruct (Hf _ Hst) as (stored' & ? & ?). exists stored'. split; [done|lia].
  - by apply accepted_mono.
  - done.
Qed.

(** A token that is accepted with a key of the store. *)
Lemma verify_with_accepted h s now began text t key stored info :
  site_ok h s → jwt_read jwt (parser_options v0) text = Some t →
  keys (s_verifier s) !! kid_of t = Some key → fetchedAt (s_verifier s) = Some stored →
  (now - stored ≤ cacheTTL ∨ began ≤ stored) → began ≤ now →
  verify_with jwt now text t key (s_verifier s) = Ok info → accepted h text info.
Proof.
  intros [(Hopt & Hall & Hiss & Haud) Hkeys _] Hread Hkey Hf Hfresh Hb. rewrite Hf in Hkeys. destruct Hkeys as [_ Hst].
  unfold verify_with. rewrite Hopt, Hall. destruct (_ && _) eqn:Halg; [done|].
  destruct (jwt_check _ _ _ _ _) eqn:Hc; [|done]. cbn [negb].
  destruct (jwt_expiration _ _) as [[exp|]|] eqn:He; [|done|done].
  destruct (jwt_subject _ _) as [sub|] eqn:Hsub; [|done]. destruct (decide (TrimSpace sub = "")) as [|Hblank]; [done|].
  destruct (bool_decide (allowedSubjects v0 ≠ ∅) && _) eqn:Hallow; [done|]. intros [= <-].
  split; cbn.
  - exists t, key, now, began, stored, (keys (s_verifier s)). repeat split; try done; [apply Hst..|].
    apply andb_false_iff in Halg as [H%bool_decide_eq_false|H%bool_decide_eq_false]; [left|right]; by apply dec_stable.
  - split; [done|]. apply andb_false_iff in Hallow as [H%bool_decide_eq_false|H%bool_decide_eq_false]; [left|right];
      by apply dec_stable.
  - by rewrite Hiss, Haud.
Qed.

Lemma key_lookup_fresh now kid v key : key_lookup now kid v = LFound key →
  keys v !! kid = Some key ∧ ∀ stored, fetchedAt v = Some stored → now - stored ≤ cacheTTL.
Proof.
  unfold key_lookup, age. destruct (keys v !! kid) as [key'|]; [|by case_decide]. case_decide as H; [|done]. intros [= <-].
  split; [done|]. intros stored Hs. rewrite Hs in H. unfold Sub, cacheTTL, AuthServer.second, min_int64, max_int64 in *. lia.
Qed.

Lemma site_ok_at h s now : s_now s ≤ now → site_ok h s → site_ok h (at_time now s).
Proof.
  intros Ht [Hset Hkeys Hcalls]. split; [done| |].
  - cbn. destruct (fetchedAt _); [|done]. destruct Hkeys as [? ?]. split; [lia|done].
  - intros k c Hc. apply (call_ok_mono h h s); [done|done| |by apply (Hcalls k)]. intros stored ?. by exists stored.
Qed.

(** Changing one request, at the same keys. *)
Lemma site_ok_call h h' s k c : h ⊆ h' → site_ok h s → call_ok h' s c → site_ok h' (set_call k c s).
Proof.
  intros Hs [Hset Hkeys Hcalls] Hc. split; [done| |].
  - cbn. destruct (fetchedAt _); [|done]. destruct Hkeys as [? ?]. split; [done|]. by eapply stored_from_mono.
  - cbn. intros j c'. rewrite lookup_insert_Some. intros [[<- <-]|[_ Hj]].
    + apply (call_ok_mono h' h' s); [done|done| |exact Hc]. intros stored ?. by exists stored.
    + apply (call_ok_mono h h' s); [exact Hs|done| |by apply (Hcalls j)]. intros stored ?. by exists stored.
Qed.

Lemma site_ok_begin h s k text : site_ok h s → site_ok h (verify_begin jwt (s_now s) k text s).
Proof.
  intros Hok. unfold verify_begin. apply (site_ok_call h); [done|done|].
  rewrite (proj1 (ok_settings _ _ Hok)). destruct (jwt_read _ _ _) as [t|] eqn:Hr; [|done].
  case_decide; [done|]. destruct (key_lookup _ _ _) as [key|e|] eqn:Hl; [|done|cbn [call_ok]; done].
  apply key_lookup_fresh in Hl as [Hkey Hfresh]. cbn [call_ok]. destruct (verify_with _ _ _ _ _ _) as [info|] eqn:Hv; [|done].
  pose proof (ok_keys _ _ Hok) as Hk. destruct (fetchedAt (s_verifier s)) as [stored|] eqn:Hf; [|rewrite Hk in Hkey; by rewrite lookup_empty in Hkey].
  apply (verify_with_accepted h s (s_now s) (s_now s) text t key stored); auto; lia.
Qed.

Lemma site_ok_step h s a k s' :
  site_ok h s → verify_step jwt decode_jwks (s_now s) a k s = Some s' →
  site_ok (h ++ events (s_calls s !! k) (s_now s) a) s'.
Proof.
  intros Hok. unfold verify_step. destruct (s_calls s !! k) as [c|] eqn:Hc; [|done].
  pose proof (ok_calls _ _ Hok _ _ Hc) as Hcall. cbn [events].
  destruct c as [began text t|began text t ks|began text t|]; [| | |done]; intros [= <-].
  - apply (site_ok_call h); [by apply list_subseteq_app_l|done|]. destruct Hcall as [Hb Hr].
    destruct (fetch_keys decode_jwks a) as [ks|] eqn:Hf; [|done]. cbn [call_ok]. split; [done|]. split; [done|].
    unfold fetch_keys in Hf. destruct a as [|code [body|]]; [done| |by case_decide]. case_decide as Hcode; [done|]. subst code.
    destruct (decode_jwks _) as [doc|] eqn:Hd; [|done]. case_decide; [done|].
    injection Hf as <-. exists (s_now s), body, doc. repeat split; try done. cbn [served_by].
    apply elem_of_app. right. by left.
  - destruct Hcall as (Hb & Hr & served & body & doc & Hs & Hin & Hd & ->).
    assert (stored_from (h ++ [HStored (s_now s) (keys_of doc)]) (s_now s) (keys_of doc)) as Hst.
    { split; [apply elem_of_app; right; by left|]. exists served, body, doc. repeat split; try done. apply elem_of_app. by left. }
    assert (site_ok (h ++ [HStored (s_now s) (keys_of doc)])
      {| s_verifier := store_keys (s_now s) (keys_of doc) (s_verifier s); s_calls := s_calls s; s_now := s_now s |}) as Hok'.
    { split; [apply Hok|done|]. cbn. intros j c' Hj. apply (call_ok_mono h _ s); [by apply list_subseteq_app_l|done| |by apply (ok_calls _ _ Hok j)].
      intros stored Hf. pose proof (ok_keys _ _ Hok) as Hk. rewrite Hf in Hk. exists (s_now s). by split; [|apply Hk]. }
    apply (site_ok_call _ _ _ _ _ ltac:(done) Hok'). cbn. split; [done|]. split; [done|]. by exists (s_now s).
  - rewrite app_nil_r. apply (site_ok_call h); [done|done|]. destruct Hcall as (Hb & Hr & stored & Hf & Hbs). cbn [call_ok].
    unfold key_again. destruct (keys (s_verifier s) !! kid_of t) as [key|] eqn:Hk; [|done].
    destruct (verify_with _ _ _ _ _ _) as [info|] eqn:Hv; [|done].
    apply (verify_with_accepted h s (s_now s) began text t key stored); auto.
Qed.
End requests.


(** ** Words *)

Definition graphic (c : Ascii.ascii) : Prop := 33 ≤ char_val c ≤ 126.
Definition word (s : string) : Prop := s ≠ "" ∧ Forall graphic (String.list_ascii_of_string s).

Lemma space_width_graphic c l : 33 ≤ c ≤ 126 → space_width (c :: l) = None.
Proof.
  intros H. cbn. rewrite !bool_decide_false by lia. cbn [orb].
  repeat case_match; try done; lia.
Qed.

Lemma fields_from_graphic f cur w l : Forall graphic w →
  fields_from (length w + f) cur (w ++ l) = fields_from f (cur ++ w) l.
Proof.
  intros H. revert cur. induction H as [|c w Hc _ IH]; intros cur; [by rewrite app_nil_r|].
  cbn [length Nat.add app fields_from fmap list_fmap]. rewrite space_width_graphic by done. rewrite IH. by rewrite <-app_assoc.
Qed.

Lemma fields_of_words ss f : Forall word ss → (String.length (String.concat " " ss) < f)%nat →
  fields_from f [] (String.list_ascii_of_string (String.concat " " ss)) = ss.
Proof.
  intros H. revert f. induction H as [|s ss [Hne Hg] Hss IH]; intros f Hf; [by destruct f|].
  assert (∀ g, fields_from g (String.list_ascii_of_string s) [] = [s]) as Hend.
  { intros g. destruct s; [done|]. destruct g; cbn; by rewrite String.string_of_list_ascii_of_string. }
  destruct ss as [|s2 ss].
  - cbn [String.concat] in *. replace f with (length (String.list_ascii_of_string s) + (f - String.length s))%nat
      by (rewrite String_length_list; lia).
    rewrite <-(app_nil_r (String.list_ascii_of_string s)) at 2. rewrite fields_from_graphic by done. apply Hend.
  - set (rest := String.concat " " (s2 :: ss)) in *. change (String.concat " " (s :: s2 :: ss)) with (s +:+ " " +:+ rest) in *.
    rewrite !list_ascii_app. rewrite <-!String_length_list, !list_ascii_app, !length_app in Hf.
    change (String.list_ascii_of_string " ") with [Ascii.ascii_of_N 32] in *. cbn [length] in Hf.
    replace f with (length (String.list_ascii_of_string s) + S (f - length (String.list_ascii_of_string s) - 1))%nat by lia.
    rewrite fields_from_graphic by done. cbn [app fields_from fmap list_fmap].
    rewrite space_width_ascii by (right; done). cbn [drop].
    rewrite IH by (rewrite <-String_length_list; lia).
    destruct s; [done|]. cbn. by rewrite String.string_of_list_ascii_of_string.
Qed.

Lemma Fields_concat ss : Forall word ss → Fields (String.concat " " ss) = ss.
Proof. intros H. unfold Fields. apply fields_of_words; [done|]. rewrite String_length_list. lia. Qed.

Lemma first_of_each_id seen l : NoDup l → Forall (λ s, s ≠ "" ∧ s ∉ seen) l → first_of_each seen l = l.
Proof.
  intros Hnd. revert seen. induction Hnd as [|s l Hn _ IH]; intros seen H; [done|].
  apply Forall_cons in H as [[H1 H2] H]. cbn. rewrite !bool_decide_true by done. cbn [andb]. rewrite IH; [done|].
  apply Forall_forall. intros x Hx. rewrite Forall_forall in H. destruct (H x Hx) as [? Hx']. split; [done|].
  intros [->%elem_of_singleton|?]%elem_of_union; done.
Qed.

(** ** Tokens of the authorization server *)

(** What the code relies on of the JWT library: a token that was signed with a
    key, for claims, is read back with them, and checks under the public key for
    its issuer and audience, from [nbf] to [exp], up to the leeway. *)
Record signed (jwt : jwt_lib) (kid : string) (n e : Z) (at_ : AuthServer.access_token) (text : string) : Prop := {
  signed_read o : "RS256" ∈ op_Methods o →
    jwt_read jwt o text = Some {| tok_Header := signed_header kid; tok_Alg := "RS256"; tok_Claims := token_claims at_ |};
  signed_check o now : op_Issuer o = AuthServer.at_iss at_ → op_Audience o = AuthServer.at_aud at_ →
    AuthServer.at_iat at_ * AuthServer.second - op_Leeway o ≤ now < AuthServer.at_exp at_ * AuthServer.second + op_Leeway o →
    jwt_check jwt o now text (RSA n e) = true
}.
Record reads_claims (jwt : jwt_lib) : Prop := {
  reads_sub c s : field "sub" c = Some (JString s) → jwt_subject jwt c = Some s;
  reads_exp c t : field "exp" c = Some (JInt t) → jwt_expiration jwt c = Some (Some (t * AuthServer.second))
}.

Lemma issued_claims env t srv srv' at_ refresh scope :
  AuthServer.issueTokens env t srv = (srv', AuthServer.Tokens at_ refresh scope) →
  at_ = AuthServer.signAccessToken (AuthServer.e_now env) (AuthServer.Issuer (AuthServer.cfg srv)) (AuthServer.e_jti env) t.
Proof.
  unfold AuthServer.issueTokens. destruct (AuthServer.e_signs env); [|done]. cbn [negb].
  intros [_ [= <- _ _]]%pair_equal_spec. by destruct (AuthServer.e_writes env).
Qed.

Lemma scopes_of_token now iss jti t : Forall word (AuthServer.tk_Scopes t) → NoDup (AuthServer.tk_Scopes t) →
  extractScopes (token_claims (AuthServer.signAccessToken now iss jti t)) = AuthServer.tk_Scopes t.
Proof.
  intros Hw Hnd. unfold extractScopes, token_claims, AuthServer.signAccessToken. cbn [AuthServer.at_scope AuthServer.at_client_id].
  destruct (decide (AuthServer.tk_Scopes t = [])) as [->|Hne]; destruct (decide (AuthServer.tk_ClientID t = "")); try done;
    cbn [app field String.eqb Ascii.eqb Bool.eqb scopes_in]; unfold AuthServer.join_scopes;
    rewrite Fields_concat, app_nil_r by done; apply first_of_each_id; try done;
    (eapply Forall_impl; [exact Hw|]); intros s [? _]; split; try done; apply not_elem_of_empty.
Qed.

(** What the verifier answers for an issued token. *)
Definition issued_info (now : time) (t : AuthServer.taken) (v : Verifier) : TokenInfo := {|
  ti_Scopes := AuthServer.tk_Scopes t;
  ti_Expiration := (now + AuthServer.accessTokenTTL) `div` AuthServer.second * AuthServer.second;
  ti_UserID := AuthServer.tk_Subject t; ti_issuer := issuer v; ti_audience := audience v |}.

Section issued_tokens.
Context (jwt : jwt_lib) (kid : string) (n e : Z) (env : AuthServer.env) (t : AuthServer.taken) (srv srv' : AuthServer.Server)
  (at_ : AuthServer.access_token) (refresh scope text : string) (v : Verifier).
Context (Hlib : reads_claims jwt) (Hsigned : signed jwt kid n e at_ text)
  (Hissue : AuthServer.issueTokens env t srv = (srv', AuthServer.Tokens at_ refresh scope))
  (Hiss : issuer v = AuthServer.Issuer (AuthServer.cfg srv)) (Haud : audience v = AuthServer.tk_Resource t)
  (Hblank : TrimSpace (AuthServer.tk_Subject t) ≠ "")
  (Hallow : allowedSubjects v = ∅ ∨ AuthServer.tk_Subject t ∈ allowedSubjects v)
  (Hwords : Forall word (AuthServer.tk_Scopes t)) (Hnd : NoDup (AuthServer.tk_Scopes t)) (Hkid : kid ≠ "").

Definition issued_token : token :=
  {| tok_Header := signed_header kid; tok_Alg := "RS256"; tok_Claims := token_claims at_ |}.

Lemma issued_checked w later : issuer w = issuer v → audience w = audience v → allowedSubjects w = allowedSubjects v →
  AuthServer.e_now env ≤ later < AuthServer.e_now env + AuthServer.accessTokenTTL →
  verify_with jwt later text issued_token {| sk_Key := RSA n e; sk_Alg := "RS256" |} w =
    Ok (issued_info (AuthServer.e_now env) t v).
Proof using Type*.
  intros Hw1 Hw2 Hw3 Hlater. destruct Hlib as [Hsub Hexp], Hsigned as [Hread Hcheck]. pose proof Hissue as Hclaims.
  apply issued_claims in Hclaims as Heq. unfold verify_with, issued_token. cbn [sk_Alg sk_Key tok_Alg tok_Claims].
  change (bool_decide ("RS256" ≠ "") && bool_decide ("RS256" ≠ "RS256")) with false.
  rewrite Hcheck; [|cbn; by rewrite Hw1, Hiss, Heq|cbn; by rewrite Hw2, Haud, Heq|].
  2: { rewrite Heq. cbn. unfold AuthServer.accessTokenTTL, AuthServer.second in *. Z.div_mod_to_equations. lia. }
  cbn [negb]. erewrite Hexp, Hsub by (rewrite Heq; reflexivity). cbn [AuthServer.signAccessToken AuthServer.at_sub].
  rewrite decide_False by done. rewrite Hw3.
  assert (bool_decide (allowedSubjects v ≠ ∅) && bool_decide (AuthServer.tk_Subject t ∉ allowedSubjects v) = false) as ->.
  { apply andb_false_iff. rewrite !bool_decide_eq_false. destruct Hallow as [->|]; [left|right]; intros Hno; by apply Hno. }
  unfold issued_info. rewrite Heq, scopes_of_token by done. by rewrite Hw1, Hw2.
Qed.

(** A verifier without the key fetches the document. *)
Lemma issued_fetched decode_jwks body now stored later : keys v !! kid = None → 30 * AuthServer.second < age now v →
  decode_jwks (LimitReader (2 ^ 20) body) = Some (JWKS kid n e) → 0 < n → 3 ≤ e < 2 ^ 32 →
  AuthServer.e_now env ≤ later < AuthServer.e_now env + AuthServer.accessTokenTTL →
  Verify jwt decode_jwks now stored later (HStatus 200 (Some body)) text v =
    (Ok (issued_info (AuthServer.e_now env) t v), store_keys stored {[kid := {| sk_Key := RSA n e; sk_Alg := "RS256" |}]} v).
Proof using Type*.
  intros Hkeys Hage Hdoc Hn He Hlater. destruct Hsigned as [Hread _]. unfold Verify.
  rewrite (Hread (parser_options v)) by (cbn; by left). change (kid_of _) with kid. rewrite decide_False by done.
  unfold key_lookup. rewrite Hkeys, decide_False by lia. unfold fetch_keys. rewrite decide_False by (intros H; by apply H).
  rewrite Hdoc, jwks_keys by done. rewrite decide_False by (apply insert_non_empty). cbv zeta.
  unfold key_again. cbn [store_keys keys]. rewrite lookup_singleton_eq. f_equal. by apply issued_checked.
Qed.

(** A verifier with the key, of the last fifteen minutes, uses it. *)
Lemma issued_cached decode_jwks w now stored later a :
  issuer w = issuer v → audience w = audience v → allowedSubjects w = allowedSubjects v →
  keys w !! kid = Some {| sk_Key := RSA n e; sk_Alg := "RS256" |} → age now w ≤ cacheTTL →
  AuthServer.e_now env ≤ now < AuthServer.e_now env + AuthServer.accessTokenTTL →
  Verify jwt decode_jwks now stored later a text w = (Ok (issued_info (AuthServer.e_now env) t v), w).
Proof using Type*.
  intros Hw1 Hw2 Hw3 Hkeys Hage Hnow. destruct Hsigned as [Hread _]. unfold Verify.
  rewrite (Hread (parser_options w)) by (cbn; by left). change (kid_of _) with kid. rewrite decide_False by done.
  unfold key_lookup. rewrite Hkeys, decide_True by done. f_equal. by apply issued_checked.
Qed.
End issued_tokens.

(** Issuer and resource agree: a token that the authorization server issues
    for the verifier's audience is accepted by a verifier of its issuer, for the
    hour it is valid, once the verifier has fetched the document that the
    server publishes; the user is the subject that logged in, and the scopes are
    those that were granted. *)
Theorem issued_token_accepted jwt decode_jwks kid n e env t srv srv' at_ refresh scope text v now stored later body :
  reads_claims jwt → signed jwt kid n e at_ text →
  AuthServer.issueTokens env t srv = (srv', AuthServer.Tokens at_ refresh scope) →
  issuer v = AuthServer.Issuer (AuthServer.cfg srv) → audience v = AuthServer.tk_Resource t →
  TrimSpace (AuthServer.tk_Subject t) ≠ "" →
  (allowedSubjects v = ∅ ∨ AuthServer.tk_Subject t ∈ allowedSubjects v) →
  Forall word (AuthServer.tk_Scopes t) → NoDup (AuthServer.tk_Scopes t) →
  decode_jwks (LimitReader (2 ^ 20) body) = Some (JWKS kid n e) → kid ≠ "" → 0 < n → 3 ≤ e < 2 ^ 32 →
  (30 * AuthServer.second < age now v) → keys v !! kid = None →
  AuthServer.e_now env ≤ later < AuthServer.e_now env + AuthServer.accessTokenTTL →
  ∃ info, Verify jwt decode_jwks now stored later (HStatus 200 (Some body)) text v =
      (Ok info, store_keys stored {[kid := {| sk_Key := RSA n e; sk_Alg := "RS256" |}]} v) ∧
    ti_UserID info = AuthServer.tk_Subject t ∧ ti_Scopes info = AuthServer.tk_Scopes t.
Proof.
  intros. eexists. split; [by eapply issued_fetched|]. done.
Qed.

(** ** Examples and instances *)

Example p256_generator :
  IsOnCurve (default (0, 0) (curveForName "P-256"))
    0x6b17d1f2e12c4247f8bce6e563a440f277037d812deb33a0f4a13945d898c296
    0x4fe342e2fe1a7f9b8ee7eb4a7c0f9e162bce33576b315ececbb6406837bf51f5 = true.
Proof. by vm_compute. Qed.
Example not_on_p256 : IsOnCurve (default (0, 0) (curveForName "P-256")) 0 0 = false. Proof. by vm_compute. Qed.
Example exponent_text : DecodeString "AQAB" = Some [1; 0; 1] ∧ EncodeToString (Bytes 65537) = "AQAB".
Proof. by vm_compute. Qed.
Example scopes_of_both_claims :
  extractScopes [("scope", JString "read  write"); ("scp", JArray [JString "write"; JInt 1; JString "admin"])] = ["read"; "write"; "admin"].
Proof. by vm_compute. Qed.

Definition sample_config : AuthServer.Config := {| AuthServer.Issuer := "https://cb.example"; AuthServer.Resource := "https://cb.example/mcp"; AuthServer.Users := ∅ |}.
Definition sample_server : AuthServer.Server := {|
  AuthServer.cfg := sample_config; AuthServer.codes := ∅; AuthServer.sessions := ∅; AuthServer.refresh := ∅;
  AuthServer.dcrClients := ∅; AuthServer.disk := None |}.
Definition sample_env : AuthServer.env := {|
  AuthServer.e_now := 1000 * AuthServer.second; AuthServer.e_fetch := AuthServer.Unreachable; AuthServer.e_writes := true;
  AuthServer.e_signs := true; AuthServer.e_session := ""; AuthServer.e_code := ""; AuthServer.e_refresh := "r";
  AuthServer.e_jti := "j"; AuthServer.e_client := "" |}.
Definition sample_taken : AuthServer.taken := {|
  AuthServer.tk_ClientID := "c"; AuthServer.tk_Subject := "ann"; AuthServer.tk_Resource := "https://cb.example/mcp";
  AuthServer.tk_Scopes := ["codebridge"; "offline_access"] |}.
Definition sample_token : AuthServer.access_token :=
  AuthServer.signAccessToken (1000 * AuthServer.second) "https://cb.example" "j" sample_taken.

(** A library with one token, signed under the key of modulus 3233. *)
Definition jwt_of (t : AuthServer.access_token) : jwt_lib := {|
  jwt_read := λ o text,
    if bool_decide (text = "token") && bool_decide ("RS256" ∈ op_Methods o)
    then Some {| tok_Header := signed_header "key-1"; tok_Alg := "RS256"; tok_Claims := token_claims t |} else None;
  jwt_check := λ o now text key,
    match key with RSA n e => bool_decide (n = 3233) && bool_decide (e = 17) | EC _ _ _ => false end &&
    bool_decide (op_Issuer o = AuthServer.at_iss t) && bool_decide (op_Audience o = AuthServer.at_aud t) &&
    bool_decide (AuthServer.at_iat t * AuthServer.second - op_Leeway o ≤ now <
                 AuthServer.at_exp t * AuthServer.second + op_Leeway o);
  jwt_subject := λ c, match field "sub" c with Some (JString s) => Some s | Some _ => None | None => Some "" end;
  jwt_expiration := λ c, match field "exp" c with Some (JInt t) => Some (Some (t * AuthServer.second)) | Some _ => None | None => Some None end |}.
Definition toy_jwt : jwt_lib := jwt_of sample_token.
Definition toy_decode (body : string) : option (list jwk) :=
  if decide (body = "keys") then Some (JWKS "key-1" 3233 17) else if decide (body = "new keys") then Some (JWKS "key-2" 3127 17) else None.
Definition sample_verifier : Verifier := {|
  issuer := "https://cb.example"; audience := "https://cb.example/mcp"; jwksURL := "https://cb.example/jwks.json";
  allowedSubjects := {["ann"]}; keys := ∅; fetchedAt := None |}.

Lemma jwt_of_signed t : signed (jwt_of t) "key-1" 3233 17 t "token".
Proof.
  split.
  - intros o Ho. cbn. by rewrite (bool_decide_true (_ ∈ _)).
  - intros o now Hi Ha Ht. cbn. rewrite Hi, Ha, !bool_decide_true; try done.
Qed.
Lemma jwt_of_reads t : reads_claims (jwt_of t).
Proof. split; intros c s H; cbn; by rewrite H. Qed.

Lemma published_key_read_witness : keys_of (JWKS "key-1" 3233 17) !! "key-1" = Some {| sk_Key := RSA 3233 17; sk_Alg := "RS256" |}.
Proof. rewrite (published_key_read "key-1" 3233 17); [reflexivity|discriminate|lia|lia]. Defined.

Definition issued : AuthServer.Server * AuthServer.reply := AuthServer.issueTokens sample_env sample_taken sample_server.

Lemma issued_token_accepted_witness : ∃ info v',
  Verify toy_jwt toy_decode (1001 * AuthServer.second) (1001 * AuthServer.second) (1002 * AuthServer.second)
    (HStatus 200 (Some "keys")) "token" sample_verifier = (Ok info, v') ∧
  ti_UserID info = "ann" ∧ ti_Scopes info = ["codebridge"; "offline_access"].
Proof.
  destruct (issued_token_accepted toy_jwt toy_decode "key-1" 3233 17 sample_env sample_taken sample_server issued.1 sample_token
    "r" "codebridge offline_access" "token" sample_verifier (1001 * AuthServer.second) (1001 * AuthServer.second)
    (1002 * AuthServer.second) "keys") as (info & H1 & H2 & H3).
  - exact (jwt_of_reads sample_token).
  - exact (jwt_of_signed sample_token).
  - reflexivity.
  - reflexivity.
  - reflexivity.
  - vm_compute. discriminate.
  - right. apply (bool_decide_unpack _); vm_compute; reflexivity.
  - repeat constructor; try discriminate; apply (bool_decide_unpack _); vm_compute; reflexivity.
  - apply (bool_decide_unpack _); vm_compute; reflexivity.
  - vm_compute. reflexivity.
  - discriminate.
  - lia.
  - lia.
  - vm_compute. reflexivity.
  - reflexivity.
  - vm_compute. split; [discriminate|reflexivity].
  - exists info, (store_keys (1001 * AuthServer.second) {["key-1" := {| sk_Key := RSA 3233 17; sk_Alg := "RS256" |}]} sample_verifier).
    split; [exact H1|]. split; [exact H2|exact H3].
Defined.

(** A request that finds no key, fetches, stores and looks again. *)
Definition request_walk (s : site) : option site :=
  let s := verify_begin toy_jwt 1001000000000 0 "token" (at_time 1001000000000 s) in
  s ← verify_step toy_jwt toy_decode 1002000000000 (HStatus 200 (Some "keys")) 0 (at_time 1002000000000 s);
  s ← verify_step toy_jwt toy_decode 1003000000000 HFailed 0 (at_time 1003000000000 s);
  verify_step toy_jwt toy_decode 1004000000000 HFailed 0 (at_time 1004000000000 s).
Definition empty_site : site := {| s_verifier := sample_verifier; s_calls := ∅; s_now := 0 |}.
Definition walked : site := default empty_site (request_walk empty_site).
Definition walk_history : list happened := [HServed 1002000000000 "keys"; HStored 1003000000000 (keys_of (JWKS "key-1" 3233 17))].
Definition walk_info : TokenInfo := {|
  ti_Scopes := ["codebridge"; "offline_access"]; ti_Expiration := 4600 * AuthServer.second; ti_UserID := "ann";
  ti_issuer := "https://cb.example"; ti_audience := "https://cb.example/mcp" |}.


(** The document that was served first may be stored last: the keys that the
    server no longer publishes are in force again, for another fifteen minutes. *)
Definition two_fetches : option site :=
  let s := verify_begin toy_jwt 1001 0 "token" (at_time 1001 empty_site) in
  let s := verify_begin toy_jwt 1002 1 "token" (at_time 1002 s) in
  s ← verify_step toy_jwt toy_decode 1003 (HStatus 200 (Some "keys")) 0 s;
  s ← verify_step toy_jwt toy_decode 1004 (HStatus 200 (Some "new keys")) 1 s;
  s ← verify_step toy_jwt toy_decode 1005 HFailed 1 s;
  verify_step toy_jwt toy_decode 1006 HFailed 0 s.
Example older_keys_return : match two_fetches with
  | Some s => fetchedAt (s_verifier s) = Some 1006 ∧ elements (dom (keys (s_verifier s))) = ["key-1"]
  | None => False
  end.
Proof. vm_compute. split; reflexivity. Qed.
