(* ===== verification/Daemon.v ===== *)
(** * The native host daemon

    [src/internal/daemon]: its configuration, who may call it over the MCP
    socket and what is served to whom, the fixed commands it runs, and the
    handlers of its Host IPC methods over the store port. The supervision of
    the tunnel client is in [Tunnel].

    Processes are environment: what they write, in the chunks in which it is
    read, and how they end. JSON validity is a parameter. *)

From S2P Require Import Prelude Entities GoStrings GoPath Schema Journal HostMethods.
Open Scope Z_scope.

(** ** Configuration (config.go) *)

Record TunnelConfig : Type := {
  tn_Enabled : bool; tn_Subcommand : string; tn_Binary : string; tn_ExtraArgs : list string; tn_TokenEnv : string;
  tn_TokenFile : string; tn_HealthSocket : string; tn_RestartBackoff : Z; tn_RestartBackoffMax : Z; tn_MaxRestarts : Z
}.

Record Config : Type := {
  dc_Version : string; dc_DataDir : string; dc_RunDir : string; dc_MCPSocket : string; dc_HostSocket : string;
  dc_LogFile : string; dc_ProtocolMinor : Z; dc_AppTeamID : string; dc_AppBundleID : string; dc_Tunnel : TunnelConfig;
  dc_PingCommand : list string; dc_WidgetSpike : bool; dc_Phase0Debug : bool; dc_Phase0ProbePath : string;
  dc_Phase0HarnessPath : string; dc_SmokeTimeout : Z; dc_ProbeTimeout : Z; dc_ShutdownGrace : Z; dc_RuntimeDB : string;
  dc_NoStore : bool
}.

Definition second_ns : Z := 10 ^ 9.

Definition DefaultConfig (configDir home : option string) : Config :=
  let base := match configDir with
              | Some dir => join_dir dir "CodeBridge"
              | None => join_dir (join_dir (join_dir (default "" home) "Library") "Application Support") "CodeBridge"
              end in
  let logDir := match home with
                | Some home => join_dir (join_dir (join_dir home "Library") "Logs") "CodeBridge"
                | None => ""
                end in
  let run := join_dir base "run" in
  {| dc_Version := "0.1.0-phase0"; dc_DataDir := base; dc_RunDir := run; dc_MCPSocket := join_dir run "mcp.sock";
     dc_HostSocket := join_dir run "hostipc.sock"; dc_LogFile := join_dir logDir "codebridged.log"; dc_ProtocolMinor := 0;
     dc_AppTeamID := ""; dc_AppBundleID := "";
     dc_Tunnel := {| tn_Enabled := true; tn_Subcommand := "run"; tn_Binary := ""; tn_ExtraArgs := [];
                     tn_TokenEnv := "CODEBRIDGE_TUNNEL_TOKEN"; tn_TokenFile := join_dir run "tunnel-token";
                     tn_HealthSocket := join_dir run "tunnel-health.sock"; tn_RestartBackoff := 2 * second_ns;
                     tn_RestartBackoffMax := 60 * second_ns; tn_MaxRestarts := 0 |};
     dc_PingCommand := ["/usr/bin/printf"; "codebridge-native-host"]; dc_WidgetSpike := false; dc_Phase0Debug := false;
     dc_Phase0ProbePath := ""; dc_Phase0HarnessPath := ""; dc_SmokeTimeout := 10 * second_ns;
     dc_ProbeTimeout := 60 * second_ns; dc_ShutdownGrace := 5 * second_ns; dc_RuntimeDB := join_dir base "runtime.db";
     dc_NoStore := false |}.

(** [splitCommand], and [Set] of a list flag. *)
Definition splitCommand (value : string) : list string := Fields value.
Definition stringList_Set (target : list string) (value : string) : list string :=
  match target with [] => splitCommand value | _ => target ++ [value] end.

Section env.
Context (getenv : string → string).

Definition setIf (target key : string) : string :=
  let v := TrimSpace (getenv key) in if decide (v ≠ "") then v else target.
Definition env_true (key : string) : bool := bool_decide (getenv key = "1") || bool_decide (ToLower (getenv key) = "true").

Definition ApplyEnv (c : Config) : Config :=
  let t := dc_Tunnel c in {|
  dc_Version := dc_Version c; dc_DataDir := setIf (dc_DataDir c) "CODEBRIDGE_DATA_DIR";
  dc_RunDir := setIf (dc_RunDir c) "CODEBRIDGE_RUN_DIR"; dc_MCPSocket := setIf (dc_MCPSocket c) "CODEBRIDGE_MCP_SOCKET";
  dc_HostSocket := setIf (dc_HostSocket c) "CODEBRIDGE_HOSTIPC_SOCKET"; dc_LogFile := setIf (dc_LogFile c) "CODEBRIDGE_LOG";
  dc_ProtocolMinor := dc_ProtocolMinor c; dc_AppTeamID := setIf (dc_AppTeamID c) "CODEBRIDGE_APP_TEAM_ID";
  dc_AppBundleID := setIf (dc_AppBundleID c) "CODEBRIDGE_APP_BUNDLE_ID";
  dc_Tunnel := {|
    tn_Enabled := if env_true "CODEBRIDGE_DISABLE_TUNNEL" then false else tn_Enabled t; tn_Subcommand := tn_Subcommand t;
    tn_Binary := setIf (tn_Binary t) "CODEBRIDGE_TUNNEL_BINARY"; tn_ExtraArgs := tn_ExtraArgs t;
    tn_TokenEnv := setIf (tn_TokenEnv t) "CODEBRIDGE_TUNNEL_TOKEN_ENV";
    tn_TokenFile := setIf (tn_TokenFile t) "CODEBRIDGE_TUNNEL_TOKEN_FILE"; tn_HealthSocket := tn_HealthSocket t;
    tn_RestartBackoff := tn_RestartBackoff t; tn_RestartBackoffMax := tn_RestartBackoffMax t; tn_MaxRestarts := tn_MaxRestarts t |};
  dc_PingCommand := dc_PingCommand c; dc_WidgetSpike := env_true "CODEBRIDGE_WIDGET_SPIKE" || dc_WidgetSpike c;
  dc_Phase0Debug := env_true "CODEBRIDGE_PHASE0_DEBUG" || dc_Phase0Debug c;
  dc_Phase0ProbePath := setIf (dc_Phase0ProbePath c) "CODEBRIDGE_PHASE0_PROBE";
  dc_Phase0HarnessPath := setIf (dc_Phase0HarnessPath c) "CODEBRIDGE_PHASE0_HARNESS";
  dc_SmokeTimeout := dc_SmokeTimeout c; dc_ProbeTimeout := dc_ProbeTimeout c; dc_ShutdownGrace := dc_ShutdownGrace c;
  dc_RuntimeDB := setIf (dc_RuntimeDB c) "CODEBRIDGE_RUNTIME_DB"; dc_NoStore := env_true "CODEBRIDGE_NO_STORE" || dc_NoStore c |}.

(** [DerivedFlagEnv]. *)
Definition DerivedFlagEnv : list (string * string) :=
  [("mcp-socket", "CODEBRIDGE_MCP_SOCKET"); ("host-socket", "CODEBRIDGE_HOSTIPC_SOCKET"); ("tunnel-health-socket", "");
   ("tunnel-token-file", "CODEBRIDGE_TUNNEL_TOKEN_FILE"); ("runtime-db", "CODEBRIDGE_RUNTIME_DB")].
End env.

(** The flags of the command line, as [flag] has parsed them. *)
Inductive daemon_flag : Type :=
| FDataDir (v : string) | FRunDir (v : string) | FMCPSocket (v : string) | FHostSocket (v : string) | FLog (v : string)
| FProtocolMinor (v : Z) | FAppTeamID (v : string) | FAppBundleID (v : string) | FTunnel (v : bool)
| FTunnelSubcommand (v : string) | FTunnelBinary (v : string) | FTunnelExtraArg (v : string) | FTunnelTokenEnv (v : string)
| FTunnelTokenFile (v : string) | FTunnelHealthSocket (v : string) | FTunnelMaxRestarts (v : Z) | FPingCommand (v : string)
| FRuntimeDB (v : string) | FNoStore (v : bool) | FWidgetSpike (v : bool) | FPhase0Debug (v : bool) | FPhase0Probe (v : string)
| FPhase0Harness (v : string).
Definition flag_name (f : daemon_flag) : string :=
  match f with
  | FDataDir _ => "data-dir" | FRunDir _ => "run-dir" | FMCPSocket _ => "mcp-socket" | FHostSocket _ => "host-socket"
  | FLog _ => "log" | FProtocolMinor _ => "protocol-minor" | FAppTeamID _ => "app-team-id" | FAppBundleID _ => "app-bundle-id"
  | FTunnel _ => "tunnel" | FTunnelSubcommand _ => "tunnel-subcommand" | FTunnelBinary _ => "tunnel-binary"
  | FTunnelExtraArg _ => "tunnel-extra-arg" | FTunnelTokenEnv _ => "tunnel-token-env"
  | FTunnelTokenFile _ => "tunnel-token-file" | FTunnelHealthSocket _ => "tunnel-health-socket"
  | FTunnelMaxRestarts _ => "tunnel-max-restarts" | FPingCommand _ => "ping-command" | FRuntimeDB _ => "runtime-db"
  | FNoStore _ => "no-store" | FWidgetSpike _ => "widget-spike" | FPhase0Debug _ => "phase0-debug"
  | FPhase0Probe _ => "phase0-probe" | FPhase0Harness _ => "phase0-harness"
  end.

(** Which option a flag sets ([RegisterFlags]). *)
Definition set_flag (c : Config) (f : daemon_flag) : Config :=
  let t := dc_Tunnel c in {|
  dc_Version := dc_Version c;
  dc_DataDir := match f with FDataDir v => v | _ => dc_DataDir c end;
  dc_RunDir := match f with FRunDir v => v | _ => dc_RunDir c end;
  dc_MCPSocket := match f with FMCPSocket v => v | _ => dc_MCPSocket c end;
  dc_HostSocket := match f with FHostSocket v => v | _ => dc_HostSocket c end;
  dc_LogFile := match f with FLog v => v | _ => dc_LogFile c end;
  dc_ProtocolMinor := match f with FProtocolMinor v => v | _ => dc_ProtocolMinor c end;
  dc_AppTeamID := match f with FAppTeamID v => v | _ => dc_AppTeamID c end;
  dc_AppBundleID := match f with FAppBundleID v => v | _ => dc_AppBundleID c end;
  dc_Tunnel := {|
    tn_Enabled := match f with FTunnel v => v | _ => tn_Enabled t end;
    tn_Subcommand := match f with FTunnelSubcommand v => v | _ => tn_Subcommand t end;
    tn_Binary := match f with FTunnelBinary v => v | _ => tn_Binary t end;
    tn_ExtraArgs := match f with FTunnelExtraArg v => stringList_Set (tn_ExtraArgs t) v | _ => tn_ExtraArgs t end;
    tn_TokenEnv := match f with FTunnelTokenEnv v => v | _ => tn_TokenEnv t end;
    tn_TokenFile := match f with FTunnelTokenFile v => v | _ => tn_TokenFile t end;
    tn_HealthSocket := match f with FTunnelHealthSocket v => v | _ => tn_HealthSocket t end;
    tn_RestartBackoff := tn_RestartBackoff t; tn_RestartBackoffMax := tn_RestartBackoffMax t;
    tn_MaxRestarts := match f with FTunnelMaxRestarts v => v | _ => tn_MaxRestarts t end |};
  dc_PingCommand := match f with FPingCommand v => stringList_Set (dc_PingCommand c) v | _ => dc_PingCommand c end;
  dc_WidgetSpike := match f with FWidgetSpike v => v | _ => dc_WidgetSpike c end;
  dc_Phase0Debug := match f with FPhase0Debug v => v | _ => dc_Phase0Debug c end;
  dc_Phase0ProbePath := match f with FPhase0Probe v => v | _ => dc_Phase0ProbePath c end;
  dc_Phase0HarnessPath := match f with FPhase0Harness v => v | _ => dc_Phase0HarnessPath c end;
  dc_SmokeTimeout := dc_SmokeTimeout c; dc_ProbeTimeout := dc_ProbeTimeout c; dc_ShutdownGrace := dc_ShutdownGrace c;
  dc_RuntimeDB := match f with FRuntimeDB v => v | _ => dc_RuntimeDB c end;
  dc_NoStore := match f with FNoStore v => v | _ => dc_NoStore c end |}.

Definition DerivePaths (explicit : gset string) (c : Config) : Config :=
  let t := dc_Tunnel c in
  let derive (flag dir name value : string) :=
    if bool_decide (flag ∉ explicit) && bool_decide (dir ≠ "") then join_dir dir name else value in {|
  dc_Version := dc_Version c; dc_DataDir := dc_DataDir c; dc_RunDir := dc_RunDir c;
  dc_MCPSocket := derive "mcp-socket" (dc_RunDir c) "mcp.sock" (dc_MCPSocket c);
  dc_HostSocket := derive "host-socket" (dc_RunDir c) "hostipc.sock" (dc_HostSocket c);
  dc_LogFile := dc_LogFile c; dc_ProtocolMinor := dc_ProtocolMinor c; dc_AppTeamID := dc_AppTeamID c; dc_AppBundleID := dc_AppBundleID c;
  dc_Tunnel := {|
    tn_Enabled := tn_Enabled t; tn_Subcommand := tn_Subcommand t; tn_Binary := tn_Binary t; tn_ExtraArgs := tn_ExtraArgs t;
    tn_TokenEnv := tn_TokenEnv t; tn_TokenFile := derive "tunnel-token-file" (dc_RunDir c) "tunnel-token" (tn_TokenFile t);
    tn_HealthSocket := derive "tunnel-health-socket" (dc_RunDir c) "tunnel-health.sock" (tn_HealthSocket t);
    tn_RestartBackoff := tn_RestartBackoff t; tn_RestartBackoffMax := tn_RestartBackoffMax t; tn_MaxRestarts := tn_MaxRestarts t |};
  dc_PingCommand := dc_PingCommand c; dc_WidgetSpike := dc_WidgetSpike c; dc_Phase0Debug := dc_Phase0Debug c;
  dc_Phase0ProbePath := dc_Phase0ProbePath c; dc_Phase0HarnessPath := dc_Phase0HarnessPath c;
  dc_SmokeTimeout := dc_SmokeTimeout c; dc_ProbeTimeout := dc_ProbeTimeout c; dc_ShutdownGrace := dc_ShutdownGrace c;
  dc_RuntimeDB := derive "runtime-db" (dc_DataDir c) "runtime.db" (dc_RuntimeDB c); dc_NoStore := dc_NoStore c |}.

Inductive daemon_err : Type :=
| EVersion | ERunDir | ESockets | ESameSocket | EPingCommand | EProtocolMinor | ETunnelBinary
| EUnknownChecks (names : list string) | EUnknownProbe (probe : string) | EProbeDisabled | EProbePath (binary : string)
| EProbeStat (binary : string) | EProbeNotExecutable (binary : string) | EStore (e : string).

Definition Validate (c : Config) : result daemon_err () :=
  if decide (dc_Version c = "") then Err EVersion
  else if decide (dc_RunDir c = "") then Err ERunDir
  else if bool_decide (dc_MCPSocket c = "") || bool_decide (dc_HostSocket c = "") then Err ESockets
  else if decide (dc_MCPSocket c = dc_HostSocket c) then Err ESameSocket
  else if decide (dc_PingCommand c = []) then Err EPingCommand
  else if decide (dc_ProtocolMinor c < 0) then Err EProtocolMinor
  else if tn_Enabled (dc_Tunnel c) && bool_decide (TrimSpace (tn_Binary (dc_Tunnel c)) = "") then Ok ()
  else if tn_Enabled (dc_Tunnel c) && negb (IsAbs (tn_Binary (dc_Tunnel c))) then Err ETunnelBinary
  else Ok ().

(** [configWithEnv] of the command, with its version. *)
Definition configWithEnv (getenv : string → string) (configDir home : option string) (version : string)
    (flags : list daemon_flag) : Config :=
  let c := foldl set_flag (ApplyEnv getenv (DefaultConfig configDir home)) flags in
  let explicit := list_to_set (flag_name <$> flags) ∪
    list_to_set (fst <$> filter (λ fe, fe.2 ≠ "" ∧ TrimSpace (getenv fe.2) ≠ "") DerivedFlagEnv) in
  let c := DerivePaths explicit c in {|
  dc_Version := version; dc_DataDir := dc_DataDir c; dc_RunDir := dc_RunDir c; dc_MCPSocket := dc_MCPSocket c;
  dc_HostSocket := dc_HostSocket c; dc_LogFile := dc_LogFile c; dc_ProtocolMinor := dc_ProtocolMinor c;
  dc_AppTeamID := dc_AppTeamID c; dc_AppBundleID := dc_AppBundleID c; dc_Tunnel := dc_Tunnel c;
  dc_PingCommand := dc_PingCommand c; dc_WidgetSpike := dc_WidgetSpike c; dc_Phase0Debug := dc_Phase0Debug c;
  dc_Phase0ProbePath := dc_Phase0ProbePath c; dc_Phase0HarnessPath := dc_Phase0HarnessPath c;
  dc_SmokeTimeout := dc_SmokeTimeout c; dc_ProbeTimeout := dc_ProbeTimeout c; dc_ShutdownGrace := dc_ShutdownGrace c;
  dc_RuntimeDB := dc_RuntimeDB c; dc_NoStore := dc_NoStore c |}.

Definition AppSigningConfigured (c : Config) : bool :=
  bool_decide (TrimSpace (dc_AppTeamID c) ≠ "") && bool_decide (TrimSpace (dc_AppBundleID c) ≠ "").

(** ** Ingress (ingress.go, mcpserver.go) *)

Definition index_of (c : Ascii.ascii) (l : list Ascii.ascii) : option nat := fst <$> list_find (c =.) l.
Definition last_index_of (c : Ascii.ascii) (l : list Ascii.ascii) : option nat :=
  (λ i, length l - 1 - i)%nat <$> index_of c (reverse l).

(** [net.SplitHostPort]. *)
Definition SplitHostPort (hostport : string) : option (string * string) :=
  let l := String.list_ascii_of_string hostport in
  let colon := Ascii.ascii_of_N 58 in
  let open := Ascii.ascii_of_N 91 in
  let close := Ascii.ascii_of_N 93 in
  i ← last_index_of colon l;
  let port := String.string_of_list_ascii (drop (S i) l) in
  match l with
  | c :: rest =>
      if decide (c = open) then
        e ← index_of close l;
        if bool_decide (i = S e) && bool_decide (open ∉ rest) && bool_decide (close ∉ drop (S e) l)
        then Some (String.string_of_list_ascii (take (e - 1) rest), port) else None
      else if bool_decide (colon ∉ take i l) && bool_decide (open ∉ l) && bool_decide (close ∉ l)
      then Some (String.string_of_list_ascii (take i l), port) else None
  | [] => None
  end.

Definition hostAllowed (host : string) : bool :=
  if decide (host = "") then false
  else
    let name := match SplitHostPort host with Some (h, _) => h | None => host end in
    one_of (ToLower name) ["localhost"; "127.0.0.1"; "::1"].

Inductive CallerClass : Type := CallerRemoteAI | CallerLocalMCP.
#[export] Instance CallerClass_eq_dec : EqDecision CallerClass.
Proof. solve_decision. Defined.

(** A request on the socket: its Host header, the credentials of the connection
    and its Authorization header ([""] when there is none). *)
Record ingress_request : Type := { in_Host : string; in_PeerUID : option Z; in_Authorization : string }.

Inductive ingress_answer : Type := InvalidHost | BadPeerUID | BadToken | Served (class : CallerClass).

Definition ingressAuth (uid : Z) (token : string) (r : ingress_request) : ingress_answer :=
  if negb (hostAllowed (in_Host r)) then InvalidHost
  else if decide (in_PeerUID r ≠ Some uid) then BadPeerUID
  else if decide (in_Authorization r = "") then Served CallerLocalMCP
  else
    match CutPrefix (in_Authorization r) "Bearer " with
    | Some secret => if decide (TrimSpace secret = token) then Served CallerRemoteAI else BadToken
    | None => BadToken
    end.

(** The tools of the server of a class; [spike] are those the widget spike
    registers. *)
Definition newMCPServer (c : Config) (spike : list string) (widgetSpike : bool) : list string :=
  ["ping"; "health"] ++ (if widgetSpike && dc_WidgetSpike c then spike else []).
Definition buildMCPServers (c : Config) (spike : list string) (class : CallerClass) : list string :=
  match class with CallerRemoteAI => newMCPServer c spike true | CallerLocalMCP => newMCPServer c spike false end.
(** What a request reaches: the ingress, and the server of its class. *)
Definition serverForRequest (c : Config) (spike : list string) (uid : Z) (token : string) (r : ingress_request) :
    ingress_answer * list string :=
  match ingressAuth uid token r with
  | Served class => (Served class, buildMCPServers c spike class)
  | a => (a, [])
  end.

(** ** Fixed commands (exec.go, smoke.go, probe.go) *)

Definition maxCapturedOutput : nat := 64 * 1024.

Record limitedBuffer : Type := { lb_buf : string; lb_overflow : bool }.
Definition limitedBuffer_Write (p : string) (l : limitedBuffer) : nat * limitedBuffer :=
  let remaining := (Z.of_nat maxCapturedOutput - Z.of_nat (String.length (lb_buf l))) in
  if decide (remaining ≤ 0) then (String.length p, {| lb_buf := lb_buf l; lb_overflow := true |})
  else if decide (remaining < Z.of_nat (String.length p)) then
    let p := first_bytes (Z.to_nat remaining) p in (String.length p, {| lb_buf := lb_buf l +:+ p; lb_overflow := true |})
  else (String.length p, {| lb_buf := lb_buf l +:+ p; lb_overflow := lb_overflow l |}).
Definition limitedBuffer_String (l : limitedBuffer) : string :=
  if lb_overflow l then lb_buf l +:+ String (Ascii.ascii_of_N 10) "[output truncated]" else lb_buf l.

(** [io.Copy] of a stream to the buffer: a write that takes less than it was
    given ends it with [io.ErrShortWrite]. *)
Fixpoint copy_stream (chunks : list string) (l : limitedBuffer) : limitedBuffer * bool :=
  match chunks with
  | [] => (l, true)
  | p :: chunks =>
      let '(n, l) := limitedBuffer_Write p l in
      if decide (n = String.length p) then copy_stream chunks l else (l, false)
  end.
Definition captured (chunks : list string) : limitedBuffer * bool :=
  copy_stream chunks {| lb_buf := ""; lb_overflow := false |}.

(** How a command goes: it is not found on the path, is not started, or runs with
    what it writes; [code] is its exit code, [deadline] whether the time was
    over when it had ended, and [wait] an error of waiting for it (it was to be
    killed, or its output stayed open after its end). *)
Inductive command_run : Type :=
| CNotFound
| CNotStarted (message : string) (deadline : bool)
| CRan (stdout stderr : list string) (code : Z) (deadline : bool) (wait : option string).

Record ExecResult : Type := {
  xr_Name : string; xr_Argv : list string; xr_Started : bool; xr_ExitCode : Z; xr_TimedOut : bool;
  xr_Stdout : string; xr_Stderr : string; xr_Err : string
}.

(** [runFixed]; [timed] is the text of the timeout. *)
Definition runFixed (timed : string) (name : string) (argv : list string) (run : command_run) : ExecResult :=
  let res started code timedOut out err msg := {|
    xr_Name := name; xr_Argv := argv; xr_Started := started; xr_ExitCode := code; xr_TimedOut := timedOut;
    xr_Stdout := out; xr_Stderr := err; xr_Err := msg |} in
  match argv, run with
  | [], _ => res false (-1) false "" "" "empty command"
  | binary :: _, CNotFound => res false (-1) false "" "" ("executable not found on PATH: " +:+ binary)
  | _, CNotStarted message deadline =>
      res true (-1) deadline "" "" (if (deadline : bool) then "timed out after " +:+ timed else message)
  | _, CRan stdout stderr code deadline wait =>
      let '(out, ok1) := captured stdout in
      let '(err, ok2) := captured stderr in
      let out := limitedBuffer_String out in
      let err := limitedBuffer_String err in
      if decide (code ≠ 0) then res true code deadline out err (if (deadline : bool) then "timed out after " +:+ timed else "")
      else
        match (match wait with Some _ => wait | None => if ok1 && ok2 then None else Some "short write" end) with
        | None => res true 0 false out err ""
        | Some e => res true (-1) deadline out err (if (deadline : bool) then "timed out after " +:+ timed else e)
        end
  end.

Record SmokeCheck : Type := { sc_Name : string; sc_Argv : list string }.
Definition nativeHostChecks : list SmokeCheck := [
  {| sc_Name := "shell"; sc_Argv := ["/bin/sh"; "-c"; "printf codebridge-native-host"] |};
  {| sc_Name := "git"; sc_Argv := ["git"; "--version"] |};
  {| sc_Name := "docker"; sc_Argv := ["docker"; "version"] |};
  {| sc_Name := "ssh"; sc_Argv := ["ssh"; "-V"] |};
  {| sc_Name := "kubectl"; sc_Argv := ["kubectl"; "version"; "--client"] |};
  {| sc_Name := "path"; sc_Argv := ["/usr/bin/which"; "-a"; "git"] |}].
Definition NativeHostChecks : list string := sc_Name <$> nativeHostChecks.

Definition string_leb (a b : string) : Prop := string_gt a b = false.
#[export] Instance string_leb_dec a b : Decision (string_leb a b).
Proof. unfold string_leb. apply _. Defined.

(** [RunNativeHostSmoke]: the results of the checks; [run] is how each command
    goes. *)
Definition RunNativeHostSmoke (timed : string) (run : list string → command_run) (only : list string) :
    result daemon_err (list ExecResult) :=
  let unknown := elements (list_to_set (filter (λ name, name ∉ NativeHostChecks) only) : gset string) in
  if decide (unknown ≠ []) then Err (EUnknownChecks (merge_sort string_leb unknown))
  else
    let selected := match only with [] => nativeHostChecks | _ => filter (λ c, sc_Name c ∈ only) nativeHostChecks end in
    Ok ((λ c, runFixed timed (sc_Name c) (sc_Argv c) (run (sc_Argv c))) <$> selected).

(** [filepathBase], by the last slash. *)
Definition filepathBase (argv : list string) : string :=
  match argv with
  | [] => "ping"
  | base :: _ => match last_index_of (Ascii.ascii_of_N 47) (String.list_ascii_of_string base) with
                 | Some i => String.string_of_list_ascii (drop (S i) (String.list_ascii_of_string base))
                 | None => base
                 end
  end.
Definition PingNativeHost (timed : string) (run : list string → command_run) (c : Config) : ExecResult :=
  runFixed timed (filepathBase (dc_PingCommand c)) (dc_PingCommand c) (run (dc_PingCommand c)).

(** The status of the tool [ping]. *)
Definition ping_status (res : ExecResult) : string :=
  if negb (xr_Started res) || bool_decide (xr_ExitCode res ≠ 0) || xr_TimedOut res then "degraded" else "ok".

Definition probeBinaryProbes : list string :=
  ["permissions"; "signing"; "native-host"; "harness"; "lock-state"; "input-monitor"; "list"; "all"].
Definition native_probes : list string := ["daemon-permissions"; "daemon-files-folders"].
Definition KnownProbes : list string := probeBinaryProbes ++ native_probes.
Definition ProbeEnabled (c : Config) : bool := dc_Phase0Debug c && bool_decide (TrimSpace (dc_Phase0ProbePath c) ≠ "").
Definition ProbeBinary (c : Config) (probe : string) : string :=
  if bool_decide (probe = "harness") && bool_decide (TrimSpace (dc_Phase0HarnessPath c) ≠ "")
  then dc_Phase0HarnessPath c else dc_Phase0ProbePath c.

(** What a probe does: the native diagnostics of the daemon, or a command. [stat]
    is whether a path is a file that can be executed, when there is one. *)
Inductive probe_run : Type := NativeProbe (probe : string) | ProbeCommand (argv : list string) (timeout : Z).
Definition RunPhase0Probe (c : Config) (stat : string → option bool) (probe : string) (timeoutMS : Z) :
    result daemon_err probe_run :=
  if negb (one_of probe KnownProbes) then Err (EUnknownProbe probe)
  else if negb (ProbeEnabled c) then Err EProbeDisabled
  else if one_of probe native_probes then Ok (NativeProbe probe)
  else
    let binary := ProbeBinary c probe in
    if negb (IsAbs binary) then Err (EProbePath binary)
    else
      match stat binary with
      | None => Err (EProbeStat binary)
      | Some false => Err (EProbeNotExecutable binary)
      | Some true => Ok (ProbeCommand [binary; probe; "--json"]
                           (if decide (0 < timeoutMS) then wrap64 (timeoutMS * 10 ^ 6) else dc_ProbeTimeout c))
      end.

(** ** The store port (store.go, store_runtime.go) *)

Record JournalEvent : Type := {
  je_Pos : Z; je_Stream : string; je_Seq : Z; je_Kind : string; je_Source : string; je_At : time; je_SessionID : string;
  je_ProjectID : string; je_RunID : string; je_CorrelationID : string; je_Payload : option string; je_RawRef : string
}.

(** What the daemon asks of its store: reads of the journal, which can fail. *)
Class StorePort (S : Type) : Type := {
  port_EventsAfter : S → Z → Z → result string (list JournalEvent);
  port_EventsForStream : S → string → Z → Z → result string (list JournalEvent);
  port_Stats : S → result string StoreStats
}.

(** The journal behind the port, in order, and what a read promises of it. *)
Class StorePortLaws (S : Type) `{StorePort S} (journal : S → list JournalEvent) (good : S → Prop) : Prop := {
  port_ordered s : good s → StronglySorted Z.lt (je_Pos <$> journal s);
  port_positive s : good s → Forall (λ ev, 0 < je_Pos ev) (journal s);
  port_page s pos limit : good s → 1 ≤ limit ≤ 500 →
    port_EventsAfter s pos limit = Ok (take (Z.to_nat limit) (filter (λ ev, pos < je_Pos ev) (journal s)))
}.

(** [toJournalEvents]; [valid] is [json.Valid]. *)
Definition toJournalEvent (valid : string → bool) (ev : Event) : JournalEvent := {|
  je_Pos := Event_Pos ev; je_Stream := Event_Stream ev; je_Seq := Event_Seq ev; je_Kind := Event_Kind ev;
  je_Source := Event_Source ev; je_At := Event_At ev; je_SessionID := Event_SessionID ev; je_ProjectID := Event_ProjectID ev;
  je_RunID := default "" (CutPrefix (Event_Stream ev) "run:"); je_CorrelationID := Event_CorrelationID ev;
  je_Payload := if bool_decide (Event_Payload ev ≠ "") && valid (Event_Payload ev) then Some (Event_Payload ev) else None;
  je_RawRef := Event_RawRef ev |}.
Definition toJournalEvents (valid : string → bool) (events : list Event) : list JournalEvent := toJournalEvent valid <$> events.

(** The adapter of the runtime store, whose reads fail with [fault]. *)
Record runtimeStoreAdapter : Type := { ad_store : db; ad_valid : string → bool; ad_fault : option string }.
#[export] Instance runtimeStorePort : StorePort runtimeStoreAdapter := {
  port_EventsAfter a pos limit :=
    match ad_fault a with Some e => Err e | None => Ok (toJournalEvents (ad_valid a) (EventsAfter (ad_store a) pos limit)) end;
  port_EventsForStream a stream afterSeq limit :=
    match ad_fault a with
    | Some e => Err e | None => Ok (toJournalEvents (ad_valid a) (EventsForStream (ad_store a) stream afterSeq limit)) end;
  port_Stats a := match ad_fault a with Some e => Err e | None => Ok (StatsContext (ad_store a)) end
}.

(** ** Host services (hostipcapi.go, daemon.go) *)

Section services.
Context {S : Type} `{StorePort S}.

Record runtimeEventsParams : Type := { rp_Stream : string; rp_AfterSeq : Z; rp_AfterPos : Z; rp_Limit : Z }.
Record runtimeEventsResult : Type := { rr_Events : list JournalEvent; rr_NextPos : Z }.

(** The handlers on decoded parameters. *)
Definition handleRuntimeEvents (store : option S) (in_ : runtimeEventsParams) : result Error runtimeEventsResult :=
  match store with
  | None => Err errUnsupported
  | Some store =>
      let limit := if decide (rp_Limit in_ ≤ 0) then 200 else if decide (500 < rp_Limit in_) then 500 else rp_Limit in_ in
      match (if decide (rp_Stream in_ = "") then port_EventsAfter store (rp_AfterPos in_) limit
             else port_EventsForStream store (rp_Stream in_) (rp_AfterSeq in_) limit) with
      | Err _ => Err errInternal
      | Ok events => Ok {| rr_Events := events; rr_NextPos := foldl (λ next ev, Z.max next (je_Pos ev)) (rp_AfterPos in_) events |}
      end
  end.

Definition handleRuntimeHealth (store : option S) : result Error StoreStats :=
  match store with
  | None => Err errUnsupported
  | Some store =>
      match port_Stats store with
      | Err _ => Err errInternal
      | Ok stats => Ok stats
      end
  end.
Definition storeHealth (store : option S) : option (result string StoreStats) := port_Stats <$> store.

(** [registerHostServices] and [hostCapabilities]. *)
Definition registerHostServices (c : Config) (store : option S) : gset string :=
  {[MethodHealth; MethodNativeHostSmoke]} ∪ (if ProbeEnabled c then {[MethodPhase0Probe]} else ∅) ∪
  match store with Some _ => {[MethodRuntimeHealth; MethodRuntimeEvents]} | None => ∅ end.
Definition hostCapabilities (store : option S) : list Capability :=
  [CapHost; CapNativeHostSmoke] ++ match store with Some _ => [CapRuntime] | None => [] end.

(** The guard of the daemon: [cached] is the state it last computed, [safe] what
    a fresh check gives. The status of [handleHostHealth] is that of the cached
    one; the answer carries the fresh one, which is cached. *)
Definition handleHostHealth (store : option S) (tunnel_failed : bool) (cached : option bool) (safe : bool) :
    (string * bool) * option bool :=
  let guard := default safe cached in
  let store_fails := match storeHealth store with Some (Err _) => true | _ => false end in
  ((if negb guard || tunnel_failed || store_fails then "degraded" else "ok", safe), Some safe).
End services.

(** [verifyAppPeer]; [verify] is the check of the running process against the
    requirement for a team and a bundle. *)
Inductive app_verdict : Type := AppVerified | AppRefused (reason : string).
Definition verifyAppPeer (c : Config) (verify : string → string → Z → app_verdict) (pid : Z) : app_verdict :=
  if negb (AppSigningConfigured c) then AppRefused "signing_identity_not_configured"
  else verify (dc_AppTeamID c) (dc_AppBundleID c) pid.
