(* ===== verification/Tunnel.v ===== *)
(** * Supervision of the tunnel client

    [src/internal/daemon/tunnel.go]: the loop that starts the child process again
    when it ends, as steps between its lock sections, with [Stop] and [Health]
    coming in between any two. *)

From S2P Require Import Prelude GoStrings Daemon.
Open Scope Z_scope.

Definition TunnelDisabled : string := "disabled".
Definition TunnelNotConfigured : string := "not_configured".
Definition TunnelRunning : string := "running".
Definition TunnelRestarting : string := "restarting".
Definition TunnelFailed : string := "failed".
Definition TunnelStopped : string := "stopped".

(** Where the goroutine of [loop] is, with its [backoff]. *)
Inductive loop_pc : Type :=
| PNone                                     (* not started *)
| PTop (backoff : Z)
| PStarting (backoff : Z)                   (* the context was looked at *)
| PStartFailed (backoff : Z) (err : string) (* restarts is counted *)
| PWaiting (backoff : Z)                    (* the child runs *)
| PReaped (backoff : Z) (err : option string)
| PExited (backoff : Z) (err : string)      (* restarts is counted *)
| PSleeping (backoff : Z)
| PDone.

Record TunnelSupervisor : Type := {
  ts_cmd : option Z; ts_state : string; ts_restarts : Z; ts_lastErr : string;
  ts_started : bool;      (* [cancel] is set *)
  ts_cancelled : bool;    (* the context of the loop *)
  ts_pc : loop_pc
}.

Definition NewTunnelSupervisor : TunnelSupervisor := {|
  ts_cmd := None; ts_state := TunnelDisabled; ts_restarts := 0; ts_lastErr := ""; ts_started := false; ts_cancelled := false;
  ts_pc := PNone |}.

Section supervisor.
Context (cfg : Config) (token : string).

Definition ServerURL : string := "url=http://localhost/mcp,unix-socket=" +:+ dc_MCPSocket cfg.

Definition BuildArgs : list string :=
  let t := dc_Tunnel cfg in
  (if decide (TrimSpace (tn_Subcommand t) ≠ "") then [TrimSpace (tn_Subcommand t)] else []) ++
  ["--mcp.server-url"; ServerURL; "--health.unix-socket"; tn_HealthSocket t] ++
  (if decide (tn_TokenEnv t ≠ "") then
     ["--mcp.extra-headers"; "Authorization: env:" +:+ tn_TokenEnv t; "--mcp.discovery-extra-headers"; "Authorization: env:" +:+ tn_TokenEnv t]
   else []) ++ tn_ExtraArgs t.

Definition BuildEnv (environ : list string) : list string :=
  let name := tn_TokenEnv (dc_Tunnel cfg) in
  environ ++ (if bool_decide (name ≠ "") && bool_decide (token ≠ "") then [name +:+ "=Bearer " +:+ token] else []).

Definition growBackoff (current max : Z) : Z := let next := wrap64 (current * 2) in if decide (max < next) then max else next.
Definition first_backoff : Z := if decide (tn_RestartBackoff (dc_Tunnel cfg) ≤ 0) then 2 * second_ns else tn_RestartBackoff (dc_Tunnel cfg).
Definition max_backoff : Z := if decide (tn_RestartBackoffMax (dc_Tunnel cfg) ≤ 0) then 60 * second_ns else tn_RestartBackoffMax (dc_Tunnel cfg).

Definition set_pc (pc : loop_pc) (t : TunnelSupervisor) : TunnelSupervisor := {|
  ts_cmd := ts_cmd t; ts_state := ts_state t; ts_restarts := ts_restarts t; ts_lastErr := ts_lastErr t;
  ts_started := ts_started t; ts_cancelled := ts_cancelled t; ts_pc := pc |}.
Definition setState (state lastErr : string) (t : TunnelSupervisor) : TunnelSupervisor := {|
  ts_cmd := ts_cmd t; ts_state := state; ts_restarts := ts_restarts t;
  ts_lastErr := if decide (lastErr ≠ "") then lastErr else ts_lastErr t;
  ts_started := ts_started t; ts_cancelled := ts_cancelled t; ts_pc := ts_pc t |}.
(** An attempt that ended: the counter and the error. *)
Definition count_end (err : string) (t : TunnelSupervisor) : TunnelSupervisor := {|
  ts_cmd := ts_cmd t; ts_state := ts_state t; ts_restarts := ts_restarts t + 1; ts_lastErr := err;
  ts_started := ts_started t; ts_cancelled := ts_cancelled t; ts_pc := ts_pc t |}.
Definition stopped (t : TunnelSupervisor) : TunnelSupervisor := set_pc PDone (setState TunnelStopped "supervisor stopped" t).

(** [Start]. *)
Definition Start (t : TunnelSupervisor) : TunnelSupervisor :=
  if negb (tn_Enabled (dc_Tunnel cfg)) then setState TunnelDisabled "" t
  else if decide (tn_Binary (dc_Tunnel cfg) = "") then setState TunnelNotConfigured "tunnel binary not configured" t
  else {| ts_cmd := ts_cmd t; ts_state := TunnelRestarting; ts_restarts := ts_restarts t; ts_lastErr := ts_lastErr t;
          ts_started := true; ts_cancelled := ts_cancelled t; ts_pc := PTop first_backoff |}.

(** What the loop meets: the child is started or not, it ends, the timer of a
    wait fires or the context ends it (when both have happened either is taken). *)
Inductive loop_event : Type :=
| EStarted (pid : Z)
| EStartFailed (err : string)
| EEnded (err : option string)
| ETimer
| ECancelled
| EGo.                                     (* the next lock section *)

(** The end of an attempt: give up or wait. *)
Definition after_end (backoff : Z) (err : string) (t : TunnelSupervisor) : TunnelSupervisor :=
  let max := tn_MaxRestarts (dc_Tunnel cfg) in
  if bool_decide (0 < max) && bool_decide (max ≤ ts_restarts t) then set_pc PDone (setState TunnelFailed err t)
  else set_pc (PSleeping backoff) (setState TunnelRestarting err t).

Definition loop_step (ev : loop_event) (t : TunnelSupervisor) : option TunnelSupervisor :=
  match ts_pc t, ev with
  | PTop backoff, EGo => if ts_cancelled t then Some (stopped t) else Some (set_pc (PStarting backoff) t)
  | PStarting backoff, EStarted pid =>
      Some {| ts_cmd := Some pid; ts_state := TunnelRunning; ts_restarts := ts_restarts t; ts_lastErr := "";
              ts_started := ts_started t; ts_cancelled := ts_cancelled t; ts_pc := PWaiting backoff |}
  | PStarting backoff, EStartFailed err => Some (set_pc (PStartFailed backoff err) (count_end err t))
  | PStartFailed backoff err, EGo => Some (after_end backoff err t)
  | PWaiting backoff, EEnded err =>
      Some {| ts_cmd := None; ts_state := ts_state t; ts_restarts := ts_restarts t; ts_lastErr := ts_lastErr t;
              ts_started := ts_started t; ts_cancelled := ts_cancelled t; ts_pc := PReaped backoff err |}
  | PReaped backoff err, EGo =>
      if ts_cancelled t then Some (stopped t)
      else let e := default "tunnel exited with status 0" err in Some (set_pc (PExited backoff e) (count_end e t))
  | PExited backoff err, EGo => Some (after_end backoff err t)
  | PSleeping backoff, ETimer => Some (set_pc (PTop (growBackoff backoff max_backoff)) t)
  | PSleeping backoff, ECancelled => if ts_cancelled t then Some (stopped t) else None
  | _, _ => None
  end.

(** [Stop] up to its waits: the context of the loop is cancelled. *)
Definition Stop (t : TunnelSupervisor) : TunnelSupervisor := {|
  ts_cmd := ts_cmd t; ts_state := ts_state t; ts_restarts := ts_restarts t; ts_lastErr := ts_lastErr t;
  ts_started := ts_started t; ts_cancelled := ts_started t || ts_cancelled t; ts_pc := ts_pc t |}.

Record TunnelHealth : Type := {
  th_Configured : bool; th_Supervised : bool; th_State : string; th_PID : option Z; th_Restarts : Z; th_LastError : string
}.
Definition Health (t : TunnelSupervisor) : TunnelHealth := {|
  th_Configured := tn_Enabled (dc_Tunnel cfg) && bool_decide (tn_Binary (dc_Tunnel cfg) ≠ ""); th_Supervised := ts_started t;
  th_State := ts_state t; th_PID := ts_cmd t; th_Restarts := ts_restarts t; th_LastError := ts_lastErr t |}.
End supervisor.
