(* ===== verification/DaemonSpec.v ===== *)
(** * What the daemon promises

    Whom the MCP socket serves, reading the journal over the Host IPC, the fixed
    commands, and the supervision of the tunnel client. *)

From S2P Require Import Prelude Entities GoStrings GoPath Schema Journal Integrity Store Transitions RuntimeSpec HostMethods Daemon Tunnel.
Open Scope Z_scope.

(** ** The tunnel client *)

Section supervision.
Context (cfg : Daemon.Config).

Definition is_attempt (ev : loop_event) : nat := match ev with EStarted _ | EStartFailed _ => 1 | _ => 0 end.

(** The states of the supervisor, after a number of attempts to start the
    child, with [Stop] at any time. *)
Inductive supervised : nat → TunnelSupervisor → Prop :=
| SStart : supervised 0 (Start cfg NewTunnelSupervisor)
| SStop n t : supervised n t → supervised n (Stop t)
| SLoop n ev t t' : supervised n t → loop_step cfg ev t = Some t' → supervised (n + is_attempt ev) t'.

(** The wait after the attempt [k + 1]. *)
Definition ladder (k : nat) : Z := Nat.iter k (λ b, growBackoff b (max_backoff cfg)) (first_backoff cfg).

Abbreviation max := (tn_MaxRestarts (dc_Tunnel cfg)).

Definition pc_ok (n : nat) (t : TunnelSupervisor) : Prop :=
  let r := ts_restarts t in
  match ts_pc t with
  | PNone => n = 0%nat ∧ ts_started t = false ∧ ts_cmd t = None ∧ ts_state t ≠ TunnelFailed
  | PTop b | PStarting b => Z.of_nat n = r ∧ b = ladder n ∧ (0 < max → r < max) ∧ ts_cmd t = None ∧ ts_state t ≠ TunnelFailed
  | PWaiting b => Z.of_nat n = r + 1 ∧ (0 < n)%nat ∧ b = ladder (n - 1) ∧ (0 < max → r < max) ∧ is_Some (ts_cmd t) ∧ ts_state t = TunnelRunning
  | PReaped b _ => Z.of_nat n = r + 1 ∧ (0 < n)%nat ∧ b = ladder (n - 1) ∧ (0 < max → r < max) ∧ ts_cmd t = None ∧ ts_state t ≠ TunnelFailed
  | PStartFailed b _ | PExited b _ =>
      Z.of_nat n = r ∧ (0 < n)%nat ∧ b = ladder (n - 1) ∧ (0 < max → r ≤ max) ∧ ts_cmd t = None ∧ ts_state t ≠ TunnelFailed
  | PSleeping b =>
      Z.of_nat n = r ∧ (0 < n)%nat ∧ b = ladder (n - 1) ∧ (0 < max → r < max) ∧ ts_cmd t = None ∧ ts_state t ≠ TunnelFailed
  | PDone => (0 < max → Z.of_nat n ≤ max) ∧ ts_cmd t = None ∧ (ts_state t = TunnelStopped ∨ ts_state t = TunnelFailed) ∧
      (ts_state t = TunnelFailed → 0 < max ∧ Z.of_nat n = max ∧ r = max)
  end.

Lemma after_end_ok n b err t :
  Z.of_nat n = ts_restarts t → (0 < n)%nat → b = ladder (n - 1) → (0 < max → ts_restarts t ≤ max) → ts_cmd t = None →
  pc_ok n (after_end cfg b err t).
Proof.
  intros Hn Hp Hb Hm Hc. unfold after_end. cbv zeta. destruct (_ && _) eqn:E.
  - apply andb_true_iff in E as [E1%bool_decide_eq_true E2%bool_decide_eq_true]. unfold pc_ok. cbn. repeat split; auto; lia.
  - apply andb_false_iff in E. rewrite !bool_decide_eq_false in E. unfold pc_ok. cbn. repeat split; auto; try done. lia.
Qed.

Lemma stopped_ok n t : (0 < max → Z.of_nat n ≤ max) → ts_cmd t = None → pc_ok n (stopped t).
Proof. intros H Hc. unfold pc_ok. cbn. repeat split; auto; done. Qed.

Lemma loop_step_ok n ev t t' : pc_ok n t → loop_step cfg ev t = Some t' → pc_ok (n + is_attempt ev) t'.
Proof.
  unfold loop_step. unfold pc_ok at 1. destruct (ts_pc t) as [|b|b|b err|b|b err|b err|b|], ev; try done; cbn [is_attempt];
    rewrite ?Nat.add_0_r.
  - intros (Hn & Hb & Hm & Hc & Hs). destruct (ts_cancelled t); intros [= <-]; [apply stopped_ok; [lia|done]|]. unfold pc_ok. cbn. auto.
  - intros (Hn & Hb & Hm & Hc & Hs) [= <-]. unfold pc_ok. cbn. rewrite Nat.add_sub. repeat split; eauto; lia.
  - intros (Hn & Hb & Hm & Hc & Hs) [= <-]. unfold pc_ok. cbn. rewrite Nat.add_sub. repeat split; auto; lia.
  - intros (Hn & Hp & Hb & Hm & Hc & Hs) [= <-]. by apply after_end_ok.
  - intros (Hn & Hp & Hb & Hm & Hc & Hs) [= <-]. unfold pc_ok. cbn. rewrite Hs. repeat split; auto; done.
  - intros (Hn & Hp & Hb & Hm & Hc & Hs). destruct (ts_cancelled t); intros [= <-]; [apply stopped_ok; [lia|done]|].
    unfold pc_ok. cbn. repeat split; auto; lia.
  - intros (Hn & Hp & Hb & Hm & Hc & Hs) [= <-]. by apply after_end_ok.
  - intros (Hn & Hp & Hb & Hm & Hc & Hs) [= <-]. unfold pc_ok. cbn. repeat split; auto.
    rewrite Hb. destruct n; [lia|]. cbn [Nat.sub]. by rewrite Nat.sub_0_r.
  - intros (Hn & Hp & Hb & Hm & Hc & Hs). destruct (ts_cancelled t); intros [= <-]. apply stopped_ok; [lia|done].
Qed.

Lemma supervised_ok n t : supervised n t → pc_ok n t.
Proof.
  induction 1 as [|n t _ IH|n ev t t' _ IH Hs]; [|exact IH|by eapply loop_step_ok].
  unfold Start. destruct (tn_Enabled _); cbn [negb]; [|unfold pc_ok; by cbn].
  case_decide; unfold pc_ok; cbn; repeat split; auto; done || lia.
Qed.

Lemma ladder_eq k : 0 < first_backoff cfg ≤ max_backoff cfg → max_backoff cfg ≤ 2 ^ 62 - 1 →
  ladder k = Z.min (2 ^ Z.of_nat k * first_backoff cfg) (max_backoff cfg).
Proof.
  intros H1 H2. induction k as [|k IH]; [cbn [ladder Nat.iter nat_rect]; change (2 ^ Z.of_nat 0) with 1; unfold ladder; cbn; lia|].
  unfold ladder in *. rewrite Nat.iter_succ, IH. unfold growBackoff. cbv zeta.
  rewrite Nat2Z.inj_succ, Z.pow_succ_r by lia. assert (1 ≤ 2 ^ Z.of_nat k) by (pose proof (Z.pow_pos_nonneg 2 (Z.of_nat k)); lia).
  set (X := 2 ^ Z.of_nat k) in *. clearbody X. assert (0 < X * first_backoff cfg) by nia.
  rewrite wrap64_id by (unfold min_int64, max_int64; lia). replace (2 * X * first_backoff cfg) with (2 * (X * first_backoff cfg)) by ring.
  case_decide; lia.
Qed.


(** Once [Stop] was called. *)
Fixpoint loop_run (evs : list loop_event) (t : TunnelSupervisor) : option TunnelSupervisor :=
  match evs with [] => Some t | ev :: evs => t ← loop_step cfg ev t; loop_run evs t end.

Definition rank (t : TunnelSupervisor) : nat :=
  match ts_pc t with
  | PNone | PDone => 0 | PTop _ => 1 | PSleeping _ | PReaped _ _ => 2 | PStartFailed _ _ | PExited _ _ | PWaiting _ => 3
  | PStarting _ => 4
  end.
Definition may_start (t : TunnelSupervisor) : nat := match ts_pc t with PStarting _ => 1 | _ => 0 end.

Lemma cancelled_step ev t t' : ts_cancelled t = true → loop_step cfg ev t = Some t' →
  (rank t' < rank t)%nat ∧ ts_cancelled t' = true ∧ (is_attempt ev + may_start t' ≤ may_start t)%nat.
Proof.
  intros Hc. unfold loop_step, rank, may_start. destruct (ts_pc t) as [|b|b|b err|b|b err|b err|b|], ev; try done; rewrite ?Hc;
    intros [= <-]; unfold after_end; cbv zeta; try destruct (_ && _); cbn; auto with lia.
Qed.

Lemma cancelled_run evs t t' : ts_cancelled t = true → loop_run evs t = Some t' →
  (length evs + rank t' ≤ rank t)%nat ∧ ts_cancelled t' = true ∧ (sum_list_with is_attempt evs + may_start t' ≤ may_start t)%nat.
Proof.
  revert t; induction evs as [|ev evs IH]; intros t Hc; cbn [loop_run length sum_list_with]; [intros [= <-]; auto|].
  destruct (loop_step cfg ev t) as [t1|] eqn:E; [|done]. intros Hr. destruct (cancelled_step ev t t1 Hc E) as (H1 & H2 & H3).
  destruct (IH t1 H2 Hr) as (H4 & H5 & H6). split_and!; [lia|done|lia].
Qed.

Lemma loop_enabled t : ts_cancelled t = true → ts_pc t ≠ PNone → ts_pc t ≠ PDone → ∃ ev, is_Some (loop_step cfg ev t).
Proof.
  intros Hc Hn Hd. unfold loop_step. destruct (ts_pc t) eqn:E; try done;
    [exists EGo|exists (EStarted 1)|exists EGo|exists (EEnded None)|exists EGo|exists EGo|exists ECancelled]; rewrite ?Hc; eauto.
Qed.

Lemma loop_run_started evs t t' : loop_run evs t = Some t' → ts_started t' = ts_started t.
Proof.
  revert t; induction evs as [|ev evs IH]; intros t; cbn [loop_run]; [by intros [= <-]|].
  destruct (loop_step cfg ev t) as [t1|] eqn:E; [|done]. cbn. intros ->%IH. revert E. unfold loop_step.
  destruct (ts_pc t), ev; try done; try destruct (ts_cancelled t); intros [= <-]; unfold after_end; cbv zeta; try destruct (_ && _); done.
Qed.

Lemma loop_run_supervised evs n t t' : supervised n t → loop_run evs t = Some t' → supervised (n + sum_list_with is_attempt evs) t'.
Proof.
  revert n t; induction evs as [|ev evs IH]; intros n t Hs; cbn [loop_run sum_list_with]; [intros [= <-]; by rewrite Nat.add_0_r|].
  destruct (loop_step cfg ev t) as [t1|] eqn:E; [|done]. cbn. rewrite Nat.add_assoc. apply IH. by eapply SLoop.
Qed.

(** C22. [Stop] ends the supervision: from any state in which it is called the
    loop takes at most four more steps, starts at most one more child (and none
    unless it was about to), and is never stuck before its end, where no child
    is left and the state is stopped, or failed. *)
Theorem stop_ends n t evs t' : supervised n t → ts_started t = true → loop_run evs (Stop t) = Some t' →
  (length evs ≤ 4)%nat ∧ (sum_list_with is_attempt evs ≤ 1)%nat ∧
  (ts_pc t' = PDone → ts_cmd t' = None ∧ (ts_state t' = TunnelStopped ∨ ts_state t' = TunnelFailed)) ∧
  (ts_pc t' ≠ PDone → ∃ ev, is_Some (loop_step cfg ev t')).
Proof.
  intros Hs Hst Hr. assert (Hc : ts_cancelled (Stop t) = true) by (unfold Stop; cbn; by rewrite Hst).
  destruct (cancelled_run evs (Stop t) t' Hc Hr) as (H1 & H2 & H3).
  pose proof (loop_run_supervised evs n (Stop t) t' (SStop n t Hs) Hr) as Hm%supervised_ok.
  split_and!.
  - assert (rank (Stop t) ≤ 4)%nat by (unfold rank; destruct (ts_pc _); lia). lia.
  - assert (may_start (Stop t) ≤ 1)%nat by (unfold may_start; destruct (ts_pc _); lia). lia.
  - intros E. unfold pc_ok in Hm. rewrite E in Hm. destruct_and!. done.
  - intros E. apply loop_enabled; [done| |done]. intros E0. unfold pc_ok in Hm. rewrite E0 in Hm. destruct_and!.
    pose proof (loop_run_started evs (Stop t) t' Hr). cbn in *. congruence.
Qed.
End supervision.

(** A daemon whose tunnel client may be started three times. *)
Definition sample_daemon : Daemon.Config :=
  configWithEnv (λ _, "") None (Some "/Users/me") "1" [FTunnelBinary "/opt/tunnel"; FTunnelMaxRestarts 3; FWidgetSpike true].
Definition two_ends : list loop_event :=
  [EGo; EStartFailed "no such file"; EGo; ETimer; EGo; EStarted 7; EEnded None; EGo; EGo].
Definition three_ends : list loop_event := two_ends ++ [ETimer; EGo; EStarted 8; EEnded (Some "signal: killed"); EGo; EGo].
Definition sup_after (evs : list loop_event) : TunnelSupervisor :=
  default NewTunnelSupervisor (loop_run sample_daemon evs (Start sample_daemon NewTunnelSupervisor)).

Lemma supervised_after evs : is_Some (loop_run sample_daemon evs (Start sample_daemon NewTunnelSupervisor)) →
  supervised sample_daemon (sum_list_with is_attempt evs) (sup_after evs).
Proof. intros [t E]. unfold sup_after. rewrite E. apply (loop_run_supervised sample_daemon evs 0 _ t (SStart _) E). Qed.


(** The limit is on the attempts there have ever been, a child that ran well
    for any time in between counts. *)
Example third_end_fails : th_State (Health sample_daemon (sup_after three_ends)) = TunnelFailed.
Proof. vm_compute. reflexivity. Qed.

Lemma stop_ends_witness :
  let t := sup_after two_ends in
  supervised sample_daemon 2 t ∧ ts_started t = true ∧ ∃ t', loop_run sample_daemon [ETimer; EGo] (Stop t) = Some t' ∧
    ts_pc t' = PDone ∧ ts_cmd t' = None.
Proof.
  cbv zeta. assert (Hs : supervised sample_daemon 2 (sup_after two_ends)) by (apply (supervised_after two_ends); vm_compute; eauto).
  assert (Hst : ts_started (sup_after two_ends) = true) by (vm_compute; reflexivity).
  split_and!; [exact Hs|exact Hst|]. eexists. split; [vm_compute; reflexivity|]. split; [reflexivity|].
  eapply (stop_ends sample_daemon 2 (sup_after two_ends) [ETimer; EGo]); [exact Hs|exact Hst|vm_compute; reflexivity|reflexivity].
Defined.

(** ** Reading the journal over the Host IPC *)

Section pages.
Context {A : Type} (key : A → Z).

Lemma foldl_max_ge (l : list A) m : m ≤ foldl (λ next x, Z.max next (key x)) m l.
Proof. revert m; induction l as [|a l IH]; intros m; cbn; [lia|]. pose proof (IH (Z.max m (key a))). lia. Qed.

Lemma foldl_max_elem (l : list A) m : 
  foldl (λ next x, Z.max next (key x)) m l = m ∨ ∃ x, x ∈ l ∧ foldl (λ next x, Z.max next (key x)) m l = key x.
Proof.
  revert m; induction l as [|a l IH]; intros m; cbn; [by left|]. destruct (IH (Z.max m (key a))) as [E|(x & Hx & E)]; rewrite E.
  - destruct (Z.max_spec m (key a)) as [[_ ->]|[_ ->]]; [right|by left]. exists a. split; [left|done].
  - right. exists x. split; [by right|done].
Qed.

(** The first rows of a sorted list are those up to the largest of them. *)
Lemma take_upto (l : list A) n m :
  StronglySorted Z.lt (key <$> l) → Forall (λ x, m < key x) l →
  take n l = filter (λ x, key x ≤ foldl (λ next x, Z.max next (key x)) m (take n l)) l.
Proof.
  revert n m; induction l as [|a l IH]; intros n m Hs Hm; [by rewrite take_nil|].
  rewrite fmap_cons, StronglySorted_cons, Forall_fmap in Hs. destruct Hs as [Ha Hs]. apply Forall_cons in Hm as [Hma Hm].
  destruct n as [|n]; cbn [take foldl].
  - rewrite filter_cons_False by lia. symmetry. apply list_filter_none. rewrite Forall_forall in Hm. intros y Hy. specialize (Hm y Hy). lia.
  - rewrite Z.max_r by lia. pose proof (foldl_max_ge (take n l) (key a)). rewrite filter_cons_True by lia. f_equal. by apply IH.
Qed.

Lemma filter_between (l : list A) a b c : a ≤ b ≤ c → StronglySorted Z.lt (key <$> l) →
  filter (λ x, a < key x ≤ b) l ++ filter (λ x, b < key x ≤ c) l = filter (λ x, a < key x ≤ c) l.
Proof.
  intros H. induction l as [|x l IH]; intros Hs; [done|].
  rewrite fmap_cons, StronglySorted_cons, Forall_fmap in Hs. destruct Hs as [Hx Hs]. specialize (IH Hs).
  destruct (decide (a < key x ≤ b)) as [H1|H1].
  - rewrite (filter_cons_True _ x l H1), (filter_cons_False _ x l) by lia. rewrite filter_cons_True by lia. cbn. by rewrite IH.
  - rewrite (filter_cons_False _ x l H1). destruct (decide (b < key x ≤ c)) as [H2|H2].
    + assert (filter (λ x, a < key x ≤ b) l = []) as E.
      { apply list_filter_none. rewrite Forall_forall in Hx. intros y Hy. specialize (Hx y Hy). unfold compose in Hx. lia. }
      rewrite E in *. rewrite !filter_cons_True by lia. cbn in *. by rewrite IH.
    + rewrite (filter_cons_False _ x l H2). rewrite filter_cons_False by lia. exact IH.
Qed.

Lemma filter_grown (l l' : list A) a b : l `prefix_of` l' → StronglySorted Z.lt (key <$> l') →
  b = a ∨ (∃ x, x ∈ l ∧ b = key x) → filter (λ x, a < key x ≤ b) l' = filter (λ x, a < key x ≤ b) l.
Proof.
  intros [k ->] Hs Hb. rewrite filter_app. rewrite fmap_app in Hs. 
  assert (filter (λ x, a < key x ≤ b) k = []) as ->; [|by rewrite app_nil_r].
  apply list_filter_none. intros y Hy. destruct Hb as [->|(x & Hx & ->)]; [lia|].
  assert (key x < key y); [|lia]. apply (StronglySorted_app_1_elem_of Z.lt (key <$> l) (key <$> k)); [done|by apply list_elem_of_fmap_2..].
Qed.
Lemma filter_beyond (l : list A) a b : a ≤ b → StronglySorted Z.lt (key <$> l) →
  filter (λ x, a < key x ≤ b) l ++ filter (λ x, b < key x) l = filter (λ x, a < key x) l.
Proof.
  intros H Hs. assert (Hc : ∀ x, x ∈ l → key x ≤ foldl (λ next x, Z.max next (key x)) b l).
  { intros x. clear -x. generalize b as m. induction l as [|y l IH]; intros m; [by intros ?%not_elem_of_nil|].
    intros [->|Hx]%elem_of_cons; cbn; [pose proof (foldl_max_ge l (Z.max m (key y))); lia|by apply IH]. }
  assert (b ≤ foldl (λ next x, Z.max next (key x)) b l) by apply foldl_max_ge. revert Hc H0. generalize (foldl (λ next x, Z.max next (key x)) b l) as c. intros c Hc Hbc.
  assert (Hf : ∀ m, filter (λ x, m < key x ≤ c) l = filter (λ x, m < key x) l).
  { intros m. clear -Hc. induction l as [|y l IH]; [done|].
    assert (key y ≤ c) by (apply Hc; left). specialize (IH (λ x Hx, Hc x (list_elem_of_further _ _ _ Hx))).
    destruct (decide (m < key y)); [rewrite !filter_cons_True by lia|rewrite !filter_cons_False by lia]; by rewrite IH. }
  rewrite <-!Hf. apply filter_between; [lia|done].
Qed.
End pages.

Section paging.
Context {S : Type} `{StorePort S} (journal : S → list JournalEvent) (good : S → Prop) `{!StorePortLaws S journal good}.

Definition page_of (pos limit : Z) : runtimeEventsParams :=
  {| rp_Stream := ""; rp_AfterSeq := 0; rp_AfterPos := pos; rp_Limit := limit |}.
Definition page_limit (limit : Z) : Z := if decide (limit ≤ 0) then 200 else if decide (500 < limit) then 500 else limit.

(** A client that asks for the events after the position of its last answer,
    each time from the store of that moment. *)
Fixpoint poll (limit : Z) (stores : list S) (pos : Z) : result Error (list JournalEvent * Z) :=
  match stores with
  | [] => Ok ([], pos)
  | s :: stores =>
      match handleRuntimeEvents (Some s) (page_of pos limit) with
      | Err e => Err e
      | Ok r =>
          match poll limit stores (rr_NextPos r) with
          | Err e => Err e
          | Ok (evs, next) => Ok (rr_Events r ++ evs, next)
          end
      end
  end.

Lemma page_spec s pos limit : good s → ∃ r,
  handleRuntimeEvents (Some s) (page_of pos limit) = Ok r ∧
  rr_Events r = take (Z.to_nat (page_limit limit)) (filter (λ ev, pos < je_Pos ev) (journal s)) ∧
  rr_Events r = filter (λ ev, pos < je_Pos ev ≤ rr_NextPos r) (journal s) ∧ pos ≤ rr_NextPos r ∧
  (rr_NextPos r = pos ∨ ∃ ev, ev ∈ journal s ∧ rr_NextPos r = je_Pos ev).
Proof.
  intros Hg. unfold handleRuntimeEvents. cbv zeta. cbn [rp_Limit rp_Stream rp_AfterPos page_of]. fold (page_limit limit).
  rewrite decide_True by done. rewrite (port_page s) by (done || unfold page_limit; repeat case_decide; lia).
  eexists; split; [reflexivity|]. cbn [rr_Events rr_NextPos]. set (F := filter _ (journal s)). set (n := Z.to_nat _).
  split_and!; [done| |apply foldl_max_ge|].
  - rewrite (take_upto je_Pos F n pos) at 1.
    + set (M := foldl _ pos (take n F)). unfold F. rewrite list_filter_filter. apply list_filter_iff. intros x. tauto.
    + apply sorted_filter. by apply port_ordered.
    + apply Forall_forall. by intros x [Hx _]%list_elem_of_filter.
  - destruct (foldl_max_elem je_Pos (take n F) pos) as [E|(x & Hx & E)]; [by left|right]. exists x. split; [|done].
    apply elem_of_take in Hx as (i & Hi & _). by apply list_elem_of_lookup_2, list_elem_of_filter in Hi as [_ Hi].
Qed.

Lemma poll_spec limit s stores pos : Forall good (stores ++ [s]) →
  StronglySorted (λ a b, journal a `prefix_of` journal b) (stores ++ [s]) →
  ∃ evs next, poll limit stores pos = Ok (evs, next) ∧ pos ≤ next ∧
    evs = filter (λ ev, pos < je_Pos ev ≤ next) (journal s).
Proof.
  revert pos; induction stores as [|s0 stores IH]; intros pos Hg Hs.
  - exists [], pos. split_and!; [done|lia|]. symmetry. apply list_filter_none. intros x _. lia.
  - cbn [app] in *. apply Forall_cons in Hg as [Hg0 Hg]. apply StronglySorted_cons in Hs as [Hp Hs].
    destruct (page_spec s0 pos limit Hg0) as (r & Hr & _ & Hf & Hn & Hx). cbn [poll]. rewrite Hr.
    destruct (IH (rr_NextPos r) Hg Hs) as (evs & next & Hpoll & Hle & ->). rewrite Hpoll. eexists _, next.
    split_and!; [done|lia|]. rewrite Hf. rewrite Forall_app in Hg. destruct Hg as [_ [Hgs _]%Forall_cons].
    rewrite Forall_app in Hp. destruct Hp as [_ [Hps _]%Forall_cons]. pose proof (port_ordered s Hgs) as Ho.
    rewrite <-(filter_grown je_Pos _ _ _ _ Hps Ho Hx). by apply filter_between.
Qed.

(** C20. A client of [runtime.events] that goes on from the position of each
    answer, over a journal that grows between the calls, is told every event
    once, in order: its answers together are the events of the journal between
    where it began and where it is. While events are left an answer is not
    empty, and an answer below the page limit means that it has them all. *)
Theorem runtime_events_paging limit stores s pos :
  Forall good (stores ++ [s]) → StronglySorted (λ a b, journal a `prefix_of` journal b) (stores ++ [s]) →
  ∃ evs next r, poll limit stores pos = Ok (evs, next) ∧
    handleRuntimeEvents (Some s) (page_of next limit) = Ok r ∧
    evs ++ rr_Events r = filter (λ ev, pos < je_Pos ev ≤ rr_NextPos r) (journal s) ∧
    StronglySorted Z.lt (je_Pos <$> evs ++ rr_Events r) ∧
    (length (rr_Events r) ≤ 500)%nat ∧
    (rr_Events r = [] → filter (λ ev, next < je_Pos ev) (journal s) = []) ∧
    (Z.of_nat (length (rr_Events r)) < page_limit limit → evs ++ rr_Events r = filter (λ ev, pos < je_Pos ev) (journal s)).
Proof.
  intros Hg Hs. destruct (poll_spec limit s stores pos Hg Hs) as (evs & next & Hpoll & Hle & ->).
  rewrite Forall_app in Hg. destruct Hg as [_ [Hgs _]%Forall_cons]. pose proof (port_ordered s Hgs) as Ho.
  destruct (page_spec s next limit Hgs) as (r & Hr & Ht & Hf & Hn & _). eexists _, next, r.
  assert (Hall : filter (λ ev, pos < je_Pos ev ≤ next) (journal s) ++ rr_Events r =
    filter (λ ev, pos < je_Pos ev ≤ rr_NextPos r) (journal s)) by (rewrite Hf; by apply filter_between).
  assert (Hl : 1 ≤ page_limit limit ≤ 500) by (unfold page_limit; repeat case_decide; lia).
  split_and!; [exact Hpoll|exact Hr|exact Hall| | | |].
  - rewrite Hall. by apply sorted_filter.
  - rewrite Ht, length_take. lia.
  - intros E. rewrite Ht in E. apply length_zero_iff_nil. apply (f_equal length) in E. rewrite length_take in E. cbn in E. lia.
  - intros Hshort. rewrite Ht, length_take in Hshort. rewrite Ht, take_ge by lia.
    by apply filter_beyond.
Qed.
End paging.

(** The runtime store keeps what the daemon relies on. *)
Definition stored_journal (a : runtimeStoreAdapter) : list JournalEvent := toJournalEvents (ad_valid a) (scanEvents (events (ad_store a))).
Definition store_good (a : runtimeStoreAdapter) : Prop := ad_fault a = None ∧ journal_ok (ad_store a).

Lemma stored_positions a : je_Pos <$> stored_journal a = ev_pos <$> events (ad_store a).
Proof. unfold stored_journal, toJournalEvents, scanEvents. rewrite <-!list_fmap_compose. done. Qed.

#[export] Instance runtimeStoreLaws : StorePortLaws runtimeStoreAdapter stored_journal store_good.
Proof.
  split.
  - intros a [_ Hj]. rewrite stored_positions. by apply jo_sorted.
  - intros a [_ Hj]. rewrite <-(Forall_fmap (A := JournalEvent) je_Pos (λ p, 0 < p)), stored_positions, Forall_fmap.
    eapply Forall_impl; [by apply jo_bounds|]. unfold compose. intros r. lia.
  - intros a pos limit [Hf Hj] Hl. cbn. rewrite Hf, EventsAfter_eq by done. f_equal.
    assert (eventPageLimit limit = limit) as ->.
    { unfold eventPageLimit, defaultEventPage, maxEventPage. repeat case_decide; lia. }
    unfold stored_journal, toJournalEvents, scanEvents. rewrite !filter_fmap, !fmap_take. done.
Qed.

Definition sample_store (d : db) : runtimeStoreAdapter := {| ad_store := d; ad_valid := λ s, bool_decide (s = "{}"); ad_fault := None |}.
Definition sample_moved : db := (TransitionRun io_ok 0 (sample_transition RunRunning) sample_db).2.

Lemma runtime_events_paging_witness :
  ∃ evs next r, poll 1 [sample_store empty_db; sample_store sample_moved] 0 = Ok (evs, next) ∧
    handleRuntimeEvents (Some (sample_store sample_moved)) (page_of next 1) = Ok r ∧
    evs ++ rr_Events r = filter (λ ev, 0 < je_Pos ev) (stored_journal (sample_store sample_moved)) ∧ next = 1.
Proof.
  assert (Hj : journal_ok sample_moved).
  { apply ok_journal, (preserves (P := db_ok) (m := TransitionRun io_ok 0 _)), sample_db_ok. }
  assert (Hg : Forall store_good ([sample_store empty_db; sample_store sample_moved] ++ [sample_store sample_moved])).
  { assert (store_good (sample_store sample_moved)) by (split; [reflexivity|exact Hj]).
    assert (store_good (sample_store empty_db)) by (split; [reflexivity|apply ok_journal, empty_db_ok]).
    cbn [app]. by rewrite !Forall_cons, Forall_nil. }
  assert (Hs : StronglySorted (λ a b, stored_journal a `prefix_of` stored_journal b)
    ([sample_store empty_db; sample_store sample_moved] ++ [sample_store sample_moved])).
  { cbn [app]. rewrite !StronglySorted_cons, !Forall_cons, !Forall_nil. split_and!; try done; [apply prefix_nil..|constructor]. }
  destruct (runtime_events_paging stored_journal store_good 1 [sample_store empty_db; sample_store sample_moved]
    (sample_store sample_moved) 0 Hg Hs) as (evs & next & r & Hp & Hr & _ & _ & _ & _ & Hall).
  exists evs, next, r.
  assert (Hn : next = 1) by (vm_compute in Hp; congruence). subst next.
  split_and!; [exact Hp|exact Hr| |done].
  apply Hall. assert (E : rr_Events r = []) by (vm_compute in Hr; injection Hr as <-; reflexivity).
  rewrite E. vm_compute. reflexivity.
Defined.

(** ** Who is served *)

Lemma ingress_remote uid token r : ingressAuth uid token r = Served CallerRemoteAI ↔
  hostAllowed (in_Host r) = true ∧ in_PeerUID r = Some uid ∧
  ∃ secret, in_Authorization r = "Bearer " +:+ secret ∧ TrimSpace secret = token.
Proof.
  unfold ingressAuth. destruct (hostAllowed _); cbn [negb]; [|split; [done|by intros [? _]]]. destruct (decide (in_PeerUID r ≠ _)) as [E|E%dec_stable].
  { split; [done|intros (_ & ? & _); done]. }
  destruct (decide (in_Authorization r = "")) as [Ea|Ea].
  { split; [done|]. intros (_ & _ & s & Hs & _). rewrite Ea in Hs. done. }
  destruct (CutPrefix _ _) as [s|] eqn:Ec.
  - apply CutPrefix_Some in Ec. destruct (decide (TrimSpace s = token)) as [Et|Et]; split; try done; [eauto 10|].
    intros (_ & _ & s' & Hs & Hx). rewrite Ec in Hs. apply (f_equal (λ x, CutPrefix x "Bearer ")) in Hs. rewrite !CutPrefix_app in Hs. by simplify_eq.
  - split; [done|]. intros (_ & _ & s & Hs & _). rewrite Hs, CutPrefix_app in Ec. done.
Qed.

Lemma ingress_local uid token r : ingressAuth uid token r = Served CallerLocalMCP ↔
  hostAllowed (in_Host r) = true ∧ in_PeerUID r = Some uid ∧ in_Authorization r = "".
Proof.
  unfold ingressAuth. destruct (hostAllowed _); cbn [negb]; [|split; [done|by intros [? _]]]. destruct (decide (in_PeerUID r ≠ _)) as [E|E%dec_stable].
  { split; [done|intros (_ & ? & _); done]. }
  destruct (decide (in_Authorization r = "")) as [Ea|Ea]; [done|].
  destruct (CutPrefix _ _); [destruct (decide _)|]; (split; [done|intros (_ & _ & ?); done]).
Qed.

(** C19. What a request on the MCP socket reaches. It is served as the remote
    AI exactly when it names a loopback host, comes from the daemon's own user
    and carries the secret of this launch, and as a local client exactly when
    it carries no credentials; every other request is refused and reaches no
    tool. A tool beyond [ping] and [health] is reached by the remote AI only,
    with the widget spike on. The credentials that the tunnel client gets in
    its environment make it the remote AI. *)
Theorem ingress_classes c spike uid token r tool :
  let '(answer, tools) := serverForRequest c spike uid token r in
  (answer = Served CallerRemoteAI ↔ hostAllowed (in_Host r) = true ∧ in_PeerUID r = Some uid ∧
    ∃ secret, in_Authorization r = "Bearer " +:+ secret ∧ TrimSpace secret = token) ∧
  (answer = Served CallerLocalMCP ↔ hostAllowed (in_Host r) = true ∧ in_PeerUID r = Some uid ∧ in_Authorization r = "") ∧
  ((∀ class, answer ≠ Served class) → tools = []) ∧
  (tool ∈ tools → tool ∉ ["ping"; "health"] → answer = Served CallerRemoteAI ∧ dc_WidgetSpike c = true ∧ tool ∈ spike) ∧
  (tn_TokenEnv (dc_Tunnel c) ≠ "" → token ≠ "" → TrimSpace token = token → ∀ environ,
    ∃ value, BuildEnv c token environ = environ ++ [tn_TokenEnv (dc_Tunnel c) +:+ "=" +:+ value] ∧
      ingressAuth uid token {| in_Host := "localhost"; in_PeerUID := Some uid; in_Authorization := value |} = Served CallerRemoteAI).
Proof.
  destruct (serverForRequest c spike uid token r) as [answer tools] eqn:E. unfold serverForRequest in E.
  assert (Ha : answer = ingressAuth uid token r) by (destruct (ingressAuth uid token r); congruence). rewrite Ha at 1 2.
  split_and!; [apply ingress_remote|apply ingress_local| | |].
  - intros Hn. destruct (ingressAuth uid token r) as [| | |class]; congruence.
  - intros Ht Hp. destruct (ingressAuth uid token r) as [| | |[]] eqn:Ei; injection E as <- <-; try (by apply not_elem_of_nil in Ht).
    + unfold buildMCPServers, newMCPServer in Ht. cbn [andb] in Ht. destruct (dc_WidgetSpike c); [|by rewrite app_nil_r in Ht].
      apply elem_of_app in Ht as [Ht|Ht]; done.
    + unfold buildMCPServers, newMCPServer in Ht. cbn [andb] in Ht. by rewrite app_nil_r in Ht.
  - intros H1 H2 H3 environ. exists ("Bearer " +:+ token). split.
    + unfold BuildEnv. cbv zeta. by rewrite !bool_decide_eq_true_2 by done.
    + apply ingress_remote. split_and!; [vm_compute; reflexivity|done|eauto].
Qed.

Example loopback_hosts : hostAllowed <$> ["localhost"; "LOCALHOST:80"; "127.0.0.1:1"; "[::1]:8080"; "::1"; "[::1]"; "localhost.evil.com"; "evil:80"; ""]
  = [true; true; true; true; true; false; false; false; false].
Proof. vm_compute. reflexivity. Qed.

Lemma ingress_classes_witness :
  let token := "0a1b" in
  tn_TokenEnv (dc_Tunnel sample_daemon) ≠ "" ∧ TrimSpace token = token ∧
  ∃ value, BuildEnv sample_daemon token [] = ["CODEBRIDGE_TUNNEL_TOKEN=" +:+ value] ∧
    ingressAuth 501 token {| in_Host := "localhost"; in_PeerUID := Some 501; in_Authorization := value |} = Served CallerRemoteAI.
Proof.
  cbv zeta. assert (H1 : tn_TokenEnv (dc_Tunnel sample_daemon) ≠ "") by discriminate.
  assert (H2 : TrimSpace "0a1b" = "0a1b") by (vm_compute; reflexivity). split_and!; [exact H1|exact H2|].
  assert (H3 : "0a1b" ≠ "") by discriminate.
  exact (proj2 (proj2 (proj2 (proj2 (ingress_classes sample_daemon [] 501 "0a1b"
    {| in_Host := ""; in_PeerUID := None; in_Authorization := "" |} "ping")))) H1 H3 H2 []).
Defined.

(** ** Fixed commands *)

Fixpoint concatenated (chunks : list string) : string := match chunks with [] => "" | p :: chunks => p +:+ concatenated chunks end.

Lemma concatenated_app a b : concatenated (a ++ b) = concatenated a +:+ concatenated b.
Proof. induction a as [|p a IH]; [done|]. cbn [app concatenated]. by rewrite IH, str_app_assoc. Qed.

(** A stream is taken in whole when it fits, or when the buffer is full at the
    end of one of its writes. *)
Definition fits (chunks : list string) : Prop :=
  (String.length (concatenated chunks) ≤ maxCapturedOutput)%nat ∨
  ∃ before, before `prefix_of` chunks ∧ String.length (concatenated before) = maxCapturedOutput.

Lemma copy_full chunks l : String.length (lb_buf l) = maxCapturedOutput → Forall (λ p, p ≠ "") chunks →
  (copy_stream chunks l).2 = true ∧ lb_buf (copy_stream chunks l).1 = lb_buf l ∧
  lb_overflow (copy_stream chunks l).1 = lb_overflow l || bool_decide (chunks ≠ []).
Proof.
  revert l; induction chunks as [|p chunks IH]; intros l Hl Hc; cbn [copy_stream]; [split_and!; try done; by rewrite orb_false_r|].
  apply Forall_cons in Hc as [Hp Hc]. unfold limitedBuffer_Write. cbv zeta. rewrite (decide_True _ _ (P := _ ≤ 0)) by lia.
  rewrite decide_True by done. destruct (IH {| lb_buf := lb_buf l; lb_overflow := true |} Hl Hc) as (H1 & H2 & H3).
  split_and!; [done|done|]. rewrite H3. cbn. by rewrite orb_true_r.
Qed.

Definition full_at (buf : string) (chunks : list string) : Prop :=
  ∃ before, before `prefix_of` chunks ∧ String.length (buf +:+ concatenated before) = maxCapturedOutput.

Lemma full_at_cons buf p chunks : String.length buf ≠ maxCapturedOutput →
  full_at buf (p :: chunks) ↔ full_at (buf +:+ p) chunks.
Proof.
  intros Hn. split.
  - intros (before & Hb & Hl). destruct before as [|q before]; [cbn [concatenated] in Hl; by rewrite String_app_nil_r in Hl|].
    pose proof (prefix_cons_inv_1 _ _ _ _ Hb) as ->. apply prefix_cons_inv_2 in Hb. exists before. split; [done|].
    by rewrite str_app_assoc.
  - intros (before & Hb & Hl). exists (p :: before). split; [by apply prefix_cons|]. cbn [concatenated]. by rewrite <-str_app_assoc.
Qed.

Lemma copy_short chunks l : (String.length (lb_buf l) < maxCapturedOutput)%nat → lb_overflow l = false → Forall (λ p, p ≠ "") chunks →
  let total := lb_buf l +:+ concatenated chunks in
  lb_buf (copy_stream chunks l).1 = first_bytes maxCapturedOutput total ∧
  lb_overflow (copy_stream chunks l).1 = bool_decide (maxCapturedOutput < String.length total)%nat ∧
  ((copy_stream chunks l).2 = true ↔ (String.length total ≤ maxCapturedOutput)%nat ∨ full_at (lb_buf l) chunks).
Proof.
  cbv zeta. revert l. induction chunks as [|p chunks IH]; intros l Hl Ho Hc.
  { cbn [copy_stream concatenated fst snd]. rewrite String_app_nil_r, first_bytes_all, bool_decide_eq_false_2 by lia.
    split_and!; [done|done|]. split; [intros _; left; lia|done]. }
  apply Forall_cons in Hc as [Hp Hc]. cbn [copy_stream concatenated]. unfold limitedBuffer_Write. cbv zeta.
  rewrite full_at_cons by lia. rewrite <-str_app_assoc. rewrite (decide_False (P := _ ≤ 0)) by lia. case_decide as Hr.
  - rewrite length_first_bytes, decide_False by lia. cbn [fst snd lb_buf lb_overflow]. 
    assert (Hlt : (maxCapturedOutput < String.length (lb_buf l +:+ p))%nat) by (rewrite length_str_app; lia).
    rewrite (first_bytes_prefix _ _ (concatenated chunks)), first_bytes_app by lia. split_and!.
    + f_equal. f_equal. lia.
    + rewrite bool_decide_eq_true_2; [done|]. rewrite length_str_app. lia.
    + split; [done|]. intros [H|(b & _ & H)]; rewrite length_str_app in H; lia.
  - rewrite decide_True by done. rewrite Ho.
    destruct (decide (String.length (lb_buf l +:+ p) = maxCapturedOutput)) as [Hf|Hf].
    + destruct (copy_full chunks {| lb_buf := lb_buf l +:+ p; lb_overflow := false |} Hf Hc) as (H1 & H2 & H3).
      rewrite H1, H2, H3. cbn [lb_buf lb_overflow orb]. rewrite first_bytes_prefix, first_bytes_all by lia. split_and!; [done| |].
      * apply bool_decide_ext. rewrite length_str_app. destruct chunks as [|q chunks]; cbn [concatenated]; [split; [done|cbn [String.length]; lia]|].
        apply Forall_cons in Hc as [Hq _]. rewrite !length_str_app in *. destruct q; [done|]. cbn [String.length]. split; [intros _; lia|done].
      * split; [intros _; right; exists []; split; [apply prefix_nil|by rewrite String_app_nil_r]|done].
    + apply (IH {| lb_buf := lb_buf l +:+ p; lb_overflow := false |}); [|done|done].
      cbn [lb_buf]. rewrite length_str_app in *. lia.
Qed.

Lemma captured_spec chunks : Forall (λ p, p ≠ "") chunks →
  lb_buf (captured chunks).1 = first_bytes maxCapturedOutput (concatenated chunks) ∧
  lb_overflow (captured chunks).1 = bool_decide (maxCapturedOutput < String.length (concatenated chunks))%nat ∧
  ((captured chunks).2 = true ↔ fits chunks).
Proof.
  intros Hc. apply (copy_short chunks {| lb_buf := ""; lb_overflow := false |}); [|done|done]. cbn [lb_buf String.length].
  apply Nat.ltb_lt. vm_compute. reflexivity.
Qed.

(** The text of a stream in a result. *)
Definition shown (chunks : list string) : string :=
  first_bytes maxCapturedOutput (concatenated chunks) +:+
  (if decide (maxCapturedOutput < String.length (concatenated chunks))%nat
   then String (Ascii.ascii_of_N 10) "[output truncated]" else "").

Lemma captured_shown chunks : Forall (λ p, p ≠ "") chunks → limitedBuffer_String (captured chunks).1 = shown chunks.
Proof.
  intros Hc. destruct (captured_spec chunks Hc) as (H1 & H2 & _). unfold limitedBuffer_String, shown. rewrite H1, H2.
  case_bool_decide; case_decide; try done. by rewrite String_app_nil_r.
Qed.

(** What a fixed command reports, however its output is cut into writes: at
    most 64 KiB of each stream and a note when there was more; its own exit
    code when that is not zero; and success exactly when it ended with zero, in
    time, and each stream was taken in whole, that is when it fits or the limit
    is reached at the end of a write. A command that ended well but wrote more is reported
    as failed. *)
Theorem fixed_command_reported timed name binary args stdout stderr code deadline wait :
  Forall (λ p, p ≠ "") (stdout ++ stderr) →
  let res := runFixed timed name (binary :: args) (CRan stdout stderr code deadline wait) in
  xr_Started res = true ∧ xr_Stdout res = shown stdout ∧ xr_Stderr res = shown stderr ∧
  (String.length (xr_Stdout res) ≤ maxCapturedOutput + 19)%nat ∧
  (code ≠ 0 → xr_ExitCode res = code ∧ xr_TimedOut res = deadline) ∧
  (code = 0 → (xr_ExitCode res = 0 ↔ wait = None ∧ fits stdout ∧ fits stderr)) ∧
  (ping_status res = "ok" ↔ code = 0 ∧ wait = None ∧ fits stdout ∧ fits stderr).
Proof.
  intros [Ho He]%Forall_app. cbv zeta. unfold runFixed. cbv zeta.
  pose proof (captured_shown stdout Ho) as So. pose proof (captured_shown stderr He) as Se.
  destruct (captured_spec stdout Ho) as (_ & _ & Fo). destruct (captured_spec stderr He) as (_ & _ & Fe).
  destruct (captured stdout) as [o ok1], (captured stderr) as [e ok2]. cbn [fst snd] in *. rewrite So, Se.
  assert (Hlen : (String.length (shown stdout) ≤ maxCapturedOutput + 19)%nat).
  { unfold shown. rewrite length_str_app, length_first_bytes. case_decide; cbn [String.length]; lia. }
  unfold ping_status. destruct (decide (code ≠ 0)) as [Hc|Hc].
  { cbn [xr_Started xr_Stdout xr_Stderr xr_ExitCode xr_TimedOut negb orb]. rewrite bool_decide_eq_true_2 by done.
    split_and!; try done. split; [done|]. by intros [? _]. }
  apply dec_stable in Hc. rewrite <-Fo, <-Fe.
  destruct wait as [w|]; [|destruct ok1, ok2; cbn [andb]]; cbn [xr_Started xr_Stdout xr_Stderr xr_ExitCode xr_TimedOut negb orb];
    split_and!; try done; try (by intros _; split; intros; destruct_and?); (by split; intros; destruct_and?).
Qed.

Lemma fixed_command_reported_witness :
  let run := CRan ["git version"; " 2.50"] [] 0 false None in
  Forall (λ p, p ≠ "") (["git version"; " 2.50"] ++ []) ∧
  xr_ExitCode (runFixed "10s" "git" ["git"; "--version"] run) = 0 ∧
  xr_Stdout (runFixed "10s" "git" ["git"; "--version"] run) = shown ["git version"; " 2.50"].
Proof.
  cbv zeta. assert (H : Forall (λ p, p ≠ "") (["git version"; " 2.50"] ++ [])) by (repeat constructor; done).
  destruct (fixed_command_reported "10s" "git" "git" ["--version"] ["git version"; " 2.50"] [] 0 false None H)
    as (_ & Ho & _ & _ & _ & Hx & _).
  split_and!; [exact H| |exact Ho]. apply Hx; [reflexivity|]. split; [reflexivity|]. split; left; apply Nat.leb_le; vm_compute; reflexivity.
Defined.

(** A command that succeeds is reported as failed when a write crosses the limit. *)
Example long_output_fails :
  let text := String.string_of_list_ascii (replicate (S maxCapturedOutput) (Ascii.ascii_of_N 97)) in
  let res := runFixed "10s" "docker" ["docker"; "version"] (CRan [text] [] 0 false None) in
  (xr_ExitCode res, xr_Err res, ping_status res) = (-1, "short write", "degraded").
Proof. vm_compute. reflexivity. Qed.

(** ** Where the configuration comes from *)

Definition flag_value (name : string) (f : daemon_flag) : option string :=
  match f with
  | FDataDir v | FRunDir v | FMCPSocket v | FHostSocket v | FTunnelTokenFile v | FTunnelHealthSocket v | FRuntimeDB v =>
      if decide (flag_name f = name) then Some v else None
  | _ => None
  end.
(** The last flag of a name. *)
Definition given (name : string) (flags : list daemon_flag) : option string := last (omap (flag_value name) flags).

Lemma flags_last (field : Daemon.Config → string) (name : string) :
  (∀ c f, field (set_flag c f) = default (field c) (flag_value name f)) →
  ∀ flags c, field (foldl set_flag c flags) = default (field c) (given name flags).
Proof.
  intros Hf flags. unfold given. induction flags as [|f flags IH] using rev_ind; intros c; [done|].
  rewrite foldl_app, omap_app. cbn [foldl omap list_omap]. rewrite Hf. destruct (flag_value name f) as [v|]; [by rewrite last_snoc|].
  rewrite app_nil_r. apply IH.
Qed.

Lemma given_explicit name flags :
  name ∈ ["data-dir"; "run-dir"; "mcp-socket"; "host-socket"; "tunnel-token-file"; "tunnel-health-socket"; "runtime-db"] →
  name ∈ (list_to_set (flag_name <$> flags) : gset string) ↔ is_Some (given name flags).
Proof.
  intros Hn. rewrite elem_of_list_to_set, list_elem_of_fmap. unfold given. rewrite last_is_Some. split.
  - intros (f & -> & Hf) E. assert (Hv : ∃ v, flag_value (flag_name f) f = Some v).
    { destruct f; cbn [flag_value]; try (exists v; by rewrite decide_True); exfalso; revert Hn; cbn [flag_name];
        apply bool_decide_eq_true_1 || apply (bool_decide_eq_false_1 _); vm_compute; reflexivity. }
    destruct Hv as [v Hv]. assert (v ∈ omap (flag_value (flag_name f)) flags) as Hx by (apply list_elem_of_omap; eauto).
    rewrite E in Hx. by apply not_elem_of_nil in Hx.
  - intros E. destruct (omap (flag_value name) flags) as [|v l] eqn:Eo; [done|].
    assert (v ∈ omap (flag_value name) flags) as Hx by (rewrite Eo; left).
    apply list_elem_of_omap in Hx as (f & Hf & Hv). exists f. split; [|done].
    destruct f; cbn [flag_value] in Hv; try done; case_decide; congruence.
Qed.

(** A path: the flag, the environment, the directory, or what it was. *)
Definition path_of (flag : option string) (env dir name old : string) : string :=
  match flag with
  | Some v => v
  | None => if decide (TrimSpace env ≠ "") then TrimSpace env else if decide (dir ≠ "") then join_dir dir name else old
  end.

(** One path of [DerivePaths], between the command line and the environment. *)
Lemma derived_path getenv flags name env dir file old :
  name ∈ ["mcp-socket"; "host-socket"; "tunnel-token-file"; "tunnel-health-socket"; "runtime-db"] →
  (name, env) ∈ DerivedFlagEnv →
  let explicit : gset string := list_to_set (flag_name <$> flags) ∪
    list_to_set (fst <$> filter (λ fe, fe.2 ≠ "" ∧ TrimSpace (getenv fe.2) ≠ "") DerivedFlagEnv) in
  let value := default (if decide (env = "") then old else setIf getenv old env) (given name flags) in
  (if bool_decide (name ∉ explicit) && bool_decide (dir ≠ "") then join_dir dir file else value) =
  path_of (given name flags) (if decide (env = "") then "" else getenv env) dir file old.
Proof.
  intros Hn He. cbv zeta. set (from_env := list_to_set (fst <$> _)). 
  assert (Hx : name ∈ (from_env : gset string) ↔ env ≠ "" ∧ TrimSpace (getenv env) ≠ "").
  { unfold from_env. rewrite elem_of_list_to_set, list_elem_of_fmap. split.
    - intros ([k v] & -> & [Hf Hin]%list_elem_of_filter). cbn [fst snd] in *. enough (v = env) as -> by done.
      assert (Hnd : NoDup DerivedFlagEnv.*1) by (apply (bool_decide_eq_true_1 _); vm_compute; reflexivity).
      apply (elem_of_list_to_map_1 (M := gmap string)) in He, Hin; [|done..]. congruence.
    - intros Hv. exists (name, env). split; [done|]. by apply list_elem_of_filter. }
  assert (Hg : name ∈ (list_to_set (flag_name <$> flags) : gset string) ↔ is_Some (given name flags)).
  { apply given_explicit. by do 2 apply list_elem_of_further. }
  unfold path_of, setIf. cbv zeta. destruct (given name flags) as [v|]; cbn [default from_option id].
  - rewrite bool_decide_eq_false_2; [done|]. rewrite not_elem_of_union, Hg. intros [Hv _]. by apply Hv.
  - assert (He0 : name ∉ (list_to_set (flag_name <$> flags) ∪ from_env : gset string) ↔ ¬ (env ≠ "" ∧ TrimSpace (getenv env) ≠ "")).
    { rewrite not_elem_of_union, Hg, Hx. split; [by intros [_ ?]|]. intros ?. split; [by intros [? ?]|done]. }
    rewrite (bool_decide_ext _ _ He0). assert (Ht : TrimSpace "" = "") by (vm_compute; reflexivity).
    destruct (decide (env = "")) as [->|Hne].
    + rewrite bool_decide_eq_true_2 by (intros [? _]; done). rewrite Ht, decide_False by (intros H; by apply H). cbn [andb].
      case_bool_decide; case_decide; done.
    + destruct (decide (TrimSpace (getenv env) ≠ "")) as [Hs|Hs].
      * rewrite bool_decide_eq_false_2 by (intros H; by apply H). done.
      * rewrite bool_decide_eq_true_2 by (by intros [_ ?]). cbn [andb]. case_bool_decide; case_decide; done.
Qed.

(** Where each path of the daemon's configuration comes from: the last flag
    that names it, else the environment, else the directory it belongs to as
    that was given, by flag or environment; a file named by neither follows its
    directory. *)
Theorem paths_follow_directories getenv configDir home version flags :
  let c := configWithEnv getenv configDir home version flags in
  let d := DefaultConfig configDir home in
  let run := default (setIf getenv (dc_RunDir d) "CODEBRIDGE_RUN_DIR") (given "run-dir" flags) in
  let data := default (setIf getenv (dc_DataDir d) "CODEBRIDGE_DATA_DIR") (given "data-dir" flags) in
  dc_RunDir c = run ∧ dc_DataDir c = data ∧
  dc_MCPSocket c = path_of (given "mcp-socket" flags) (getenv "CODEBRIDGE_MCP_SOCKET") run "mcp.sock" (dc_MCPSocket d) ∧
  dc_HostSocket c = path_of (given "host-socket" flags) (getenv "CODEBRIDGE_HOSTIPC_SOCKET") run "hostipc.sock" (dc_HostSocket d) ∧
  tn_TokenFile (dc_Tunnel c) = path_of (given "tunnel-token-file" flags) (getenv "CODEBRIDGE_TUNNEL_TOKEN_FILE") run "tunnel-token"
    (tn_TokenFile (dc_Tunnel d)) ∧
  tn_HealthSocket (dc_Tunnel c) = path_of (given "tunnel-health-socket" flags) "" run "tunnel-health.sock" (tn_HealthSocket (dc_Tunnel d)) ∧
  dc_RuntimeDB c = path_of (given "runtime-db" flags) (getenv "CODEBRIDGE_RUNTIME_DB") data "runtime.db" (dc_RuntimeDB d).
Proof.
  cbv zeta. unfold configWithEnv. cbv zeta. cbn [dc_RunDir dc_DataDir dc_MCPSocket dc_HostSocket dc_Tunnel dc_RuntimeDB].
  unfold DerivePaths. cbv zeta. cbn [dc_RunDir dc_DataDir dc_MCPSocket dc_HostSocket dc_Tunnel dc_RuntimeDB tn_TokenFile tn_HealthSocket].
  rewrite (flags_last dc_RunDir "run-dir"), (flags_last dc_DataDir "data-dir"), (flags_last dc_MCPSocket "mcp-socket"),
    (flags_last dc_HostSocket "host-socket"), (flags_last dc_RuntimeDB "runtime-db"),
    (flags_last (λ c, tn_TokenFile (dc_Tunnel c)) "tunnel-token-file"),
    (flags_last (λ c, tn_HealthSocket (dc_Tunnel c)) "tunnel-health-socket") by (by intros ? []).
  split_and!; [done|done| | | | |].
  - apply (derived_path getenv flags "mcp-socket" "CODEBRIDGE_MCP_SOCKET"); set_solver.
  - apply (derived_path getenv flags "host-socket" "CODEBRIDGE_HOSTIPC_SOCKET"); set_solver.
  - apply (derived_path getenv flags "tunnel-token-file" "CODEBRIDGE_TUNNEL_TOKEN_FILE"); set_solver.
  - apply (derived_path getenv flags "tunnel-health-socket" ""); set_solver.
  - apply (derived_path getenv flags "runtime-db" "CODEBRIDGE_RUNTIME_DB"); set_solver.
Qed.

(** The run directory moves the sockets, a flag for one of them does not move
    the others. *)
Example run_dir_moves_sockets :
  let c := configWithEnv (λ _, "") None (Some "/Users/me") "1" [FRunDir "/tmp/run"; FHostSocket "/x/host.sock"] in
  (dc_MCPSocket c, dc_HostSocket c, tn_TokenFile (dc_Tunnel c), Validate c) =
  ("/tmp/run/mcp.sock", "/x/host.sock", "/tmp/run/tunnel-token", Ok ()).
Proof. vm_compute. reflexivity. Qed.
