(* ===== verification/HostClient.v ===== *)
(** * The Host IPC client

    [src/internal/hostipc/client.go]: the requests of a client in flight, the
    loop that reads the answers, closing, and the listener of a socket. The lock
    sections of the code and its channel operations are atomic steps; a request
    that waits leaves with any of the things it can wake up on. Timers and the
    caller's context are environment. *)

From Stdlib Require Import Strings.Byte.
From stdpp Require Import pretty.
From S2P Require Import Prelude HostFrame HostMethods HostMessage HostServer.
Open Scope Z_scope.

(** ** Listening *)

Inductive listen_err : Type :=
| EPathTooLong | EMkdir | EChmodDir | ENotSocket | ERemoveStale | EListen | EChmodSocket.

(** What the file system answers: [ls_lstat] is whether there is something at the
    path, and whether that is a socket. *)
Record listen_sys : Type := {
  ls_mkdir : bool; ls_chmod_dir : bool; ls_lstat : option bool; ls_remove : bool; ls_listen : bool; ls_chmod : bool
}.
Inductive listen_call : Type :=
| MkdirAll (mode : Z) | ChmodDir (mode : Z) | RemovePath | Listen | ChmodSocket (mode : Z) | CloseListener.
#[export] Instance listen_call_eq_dec : EqDecision listen_call.
Proof. solve_decision. Defined.

(** The calls made that change something, and the outcome. *)
Definition ListenUnix (sys : listen_sys) (path : string) : list listen_call * result listen_err () :=
  if decide (100 < Z.of_nat (String.length path)) then ([], Err EPathTooLong)
  else if negb (ls_mkdir sys) then ([MkdirAll 448], Err EMkdir)
  else
    let calls := [MkdirAll 448; ChmodDir 448] in
    if negb (ls_chmod_dir sys) then (calls, Err EChmodDir)
    else
      let bind calls :=
        if negb (ls_listen sys) then (calls ++ [Listen], Err EListen)
        else if negb (ls_chmod sys) then (calls ++ [Listen; ChmodSocket 384; CloseListener], Err EChmodSocket)
        else (calls ++ [Listen; ChmodSocket 384], Ok ()) in
      match ls_lstat sys with
      | None => bind calls
      | Some false => (calls, Err ENotSocket)
      | Some true => if ls_remove sys then bind (calls ++ [RemovePath]) else (calls ++ [RemovePath], Err ERemoveStale)
      end.

(** ** The client *)

Record ClientOptions : Type := {
  co_Role : Role; co_AppVersion : string; co_Capabilities : list Capability; co_Limits : Limits
}.

(** The id of the [k]-th request; [seq] is an [uint64]. *)
Definition call_id (k : nat) : string := quoted ("c-" +:+ pretty ((Z.of_nat k + 1) `mod` 2 ^ 64)).

(** A request: its id and channel are made; it was written and waits; it has
    returned with the raw result or an error. *)
Inductive call_pc : Type := CallOpened | CallWaiting | CallReturned (r : result Error string).
(** With what is in its channel of one slot. *)
Record call : Type := { call_pc_of : call_pc; call_chan : option Message }.

Inductive client_err : Type := ClientRead (e : read_err) | ClientAttachment | ClientDecode (e : Error).

Record Client : Type := {
  cl_asked : list (string * marshalled);   (* method and parameters of every request *)
  cl_calls : gmap nat call;
  cl_pending : gmap string nat;            (* id to the request whose channel it is *)
  cl_readErr : option client_err;
  cl_reading : bool;                       (* the read loop runs *)
  cl_done : bool
}.

Inductive client_action : Type := ClientSent (m : Message) | Notified (method params : string).

Definition newClient : Client := {|
  cl_asked := []; cl_calls := ∅; cl_pending := ∅; cl_readErr := None; cl_reading := true; cl_done := false |}.

Definition set_call (k : nat) (ca : call) (c : Client) : Client := {|
  cl_asked := cl_asked c; cl_calls := <[k := ca]> (cl_calls c); cl_pending := cl_pending c; cl_readErr := cl_readErr c;
  cl_reading := cl_reading c; cl_done := cl_done c |}.
(** A request returns: its id is deleted. *)
Definition return_call (k : nat) (r : result Error string) (c : Client) : Client := {|
  cl_asked := cl_asked c;
  cl_calls := alter (λ ca, {| call_pc_of := CallReturned r; call_chan := call_chan ca |}) k (cl_calls c);
  cl_pending := delete (call_id k) (cl_pending c); cl_readErr := cl_readErr c;
  cl_reading := cl_reading c; cl_done := cl_done c |}.

Definition Close (c : Client) : Client := {|
  cl_asked := cl_asked c; cl_calls := cl_calls c; cl_pending := cl_pending c; cl_readErr := cl_readErr c;
  cl_reading := cl_reading c; cl_done := true |}.
Definition IsClosed (c : Client) : bool := cl_done c.
Definition ErrRead (c : Client) : option client_err := cl_readErr c.

(** [IsProtocolError] and [ErrorCode] of an error that may be a protocol error. *)
Definition IsProtocolError (e : option Error) (code : Z) : bool :=
  match e with Some e => bool_decide (err_Code e = code) | None => false end.
Definition ErrorCode (e : option Error) : Z := match e with Some e => err_Code e | None => 0 end.

(** A push to a channel of one slot: dropped when it is full. *)
Definition push (m : Message) (ca : call) : call :=
  match call_chan ca with
  | None => {| call_pc_of := call_pc_of ca; call_chan := Some m |}
  | Some _ => ca
  end.

Definition failure : Message := {|
  msg_JSONRPC := ""; msg_ID := ""; msg_Method := ""; msg_Params := ""; msg_Result := ""; msg_Error := Some errInternal |}.

Definition failAll (e : client_err) (c : Client) : Client := {|
  cl_asked := cl_asked c;
  cl_calls := map_imap (λ k ca, Some (if decide (k ∈ (map_to_list (cl_pending c)).*2) then push failure ca else ca)) (cl_calls c);
  cl_pending := ∅; cl_readErr := Some e; cl_reading := cl_reading c; cl_done := cl_done c |}.
(** The end of the read loop. *)
Definition end_reading (e : client_err) (c : Client) : Client :=
  let c := failAll e c in {|
  cl_asked := cl_asked c; cl_calls := cl_calls c; cl_pending := cl_pending c; cl_readErr := cl_readErr c;
  cl_reading := false; cl_done := true |}.

Section client.
Context (json : encoding_json) (opt : ClientOptions).

(** [write]: the message, when the socket takes it. *)
Definition write (writable : bool) (c : Client) (m : Message) : list client_action * bool :=
  match json_marshal json m with
  | Err _ => ([], false)
  | Ok payload =>
      match WriteFrame FrameJSON payload (co_Limits opt) with
      | Err _ => ([], false)
      | Ok _ => if negb (cl_done c) && writable then ([ClientSent m], true) else ([], false)
      end
  end.

(** [Call], in parts: take an id and a channel, *)
Definition Call_open (method : string) (params : marshalled) (c : Client) : Client * nat :=
  let k := length (cl_asked c) in
  ({| cl_asked := cl_asked c ++ [(method, params)];
      cl_calls := <[k := {| call_pc_of := CallOpened; call_chan := None |}]> (cl_calls c);
      cl_pending := <[call_id k := k]> (cl_pending c); cl_readErr := cl_readErr c;
      cl_reading := cl_reading c; cl_done := cl_done c |}, k).

(** write the request, *)
Definition Call_send (writable : bool) (k : nat) (c : Client) : option (Client * list client_action) :=
  match cl_asked c !! k, cl_calls c !! k with
  | Some (method, params), Some {| call_pc_of := CallOpened; call_chan := ch |} =>
      match NewRequest (call_id k) method params with
      | Err _ => Some (return_call k (Err errInternal) c, [])
      | Ok m =>
          let '(acts, ok) := write writable c m in
          if ok then Some (set_call k {| call_pc_of := CallWaiting; call_chan := ch |} c, acts)
          else Some (return_call k (Err errInternal) c, acts)
      end
  | _, _ => None
  end.

(** and leave with what the [select] wakes up on: any of those that are ready. *)
Inductive call_wake : Type := WakeContext | WakeTimer | WakeDone | WakeAnswer.
Definition answer_of (m : Message) : result Error string :=
  match msg_Error m with Some e => Err e | None => Ok (msg_Result m) end.
Definition Call_finish (k : nat) (wake : call_wake) (c : Client) : option Client :=
  match cl_calls c !! k with
  | Some {| call_pc_of := CallWaiting; call_chan := ch |} =>
      match wake with
      | WakeContext | WakeTimer => Some (return_call k (Err errInternal) c)
      | WakeDone => if cl_done c then Some (return_call k (Err errInternal) c) else None
      | WakeAnswer => match ch with Some m => Some (return_call k (answer_of m) c) | None => None end
      end
  | _ => None
  end.

Definition Notify (writable : bool) (method : string) (params : marshalled) (c : Client) : list client_action * bool :=
  match NewNotification method params with
  | Err _ => ([], false)
  | Ok m => write writable c m
  end.

(** One turn of [readLoop] on what [ReadFrame] returned. *)
Definition read_turn (writable : bool) (frame : result read_err (FrameKind * list byte * list byte)) (c : Client) :
    Client * list client_action :=
  match frame with
  | Err e => (end_reading (ClientRead e) c, [])
  | Ok (FrameAttachment, _, _) => (end_reading ClientAttachment c, [])
  | Ok (FrameJSON, payload, _) =>
      match DecodeMessage json payload with
      | Err e => (end_reading (ClientDecode e) c, [])
      | Ok m =>
          match Kind m with
          | KindResponse =>
              match cl_pending c !! msg_ID m with
              | Some k => (match cl_calls c !! k with Some ca => set_call k (push m ca) c | None => c end, [])
              | None => (c, [])
              end
          | KindNotification => (c, [Notified (msg_Method m) (msg_Params m)])
          | KindRequest => (c, (write writable c (NewErrorResponse (msg_ID m) errUnsupported)).1)
          | KindUnknown => (c, [])
          end
      end
  end.

(** [helloHandshake]: its parameters, and its end. *)
Definition hello_params : HelloParams := {|
  hp_Protocol := {| Major := ProtocolMajor; Minor := DefaultProtocolMinor |}; hp_AppVersion := co_AppVersion opt;
  hp_Role := co_Role opt; hp_Capabilities := co_Capabilities opt; hp_BundleID := ""; hp_TeamID := ""; hp_PID := 0 |}.
Definition helloHandshake_end (decode : list byte → result string (HelloResult * list byte)) (zero : HelloResult)
    (r : result Error string) : result Error HelloResult :=
  match r with Err e => Err e | Ok raw => DecodeParams decode zero raw end.
End client.
