(* ===== verification/HostClientSpec.v ===== *)
(** * Client and server of the Host IPC together

    A client, the connection of the server that serves it, and the messages
    under way between them; what a call returns is the server's answer to that
    call. *)

From Stdlib Require Import Strings.Byte.
From stdpp Require Import pretty.
From S2P Require Import Prelude HostFrame HostMethods HostMessage HostServer HostConn HostSpec HostClient.
Open Scope Z_scope.

(** What the two sides rely on of [encoding/json]: a message that one side has
    written the other side reads, with its raw fields compacted; compacting
    leaves the ids of a client as they are. *)
Definition compacted (compact : string → string) (m : Message) : Message := {|
  msg_JSONRPC := msg_JSONRPC m; msg_ID := compact (msg_ID m); msg_Method := msg_Method m;
  msg_Params := compact (msg_Params m); msg_Result := compact (msg_Result m); msg_Error := msg_Error m |}.

Record json_laws (json : encoding_json) (compact : string → string) : Prop := {
  law_decode m payload : json_marshal json m = Ok payload → msg_JSONRPC m = JSONRPCVersion →
    DecodeMessage json payload =
      if bool_decide (msg_Method m = "") && bool_decide (msg_ID m = "") then Err errInvalidRequest else Ok (compacted compact m);
  law_empty s : compact s = "" ↔ s = "";
  law_id k : compact (call_id k) = call_id k;
  law_null : compact "null" = "null"
}.

Section link.
Context (json : encoding_json) (copt : ClientOptions) (sopt : ServerOptions) (handlers : gset string).

(** [lk_served] are the frames the server has handled, with the world and the
    connection at that time. *)
Record link : Type := {
  lk_client : Client; lk_conn : Conn; lk_up : list Message; lk_down : list Message;
  lk_served : list (list byte * world * Conn)
}.

Definition new_link (cr : PeerCred) : link := {|
  lk_client := newClient; lk_conn := newConn cr; lk_up := []; lk_down := []; lk_served := [] |}.

Inductive link_event : Type :=
| LOpen (method : string) (params : marshalled)
| LSend (writable : bool) (k : nat)
| LFinish (k : nat) (wake : call_wake)
| LNotify (writable : bool) (method : string) (params : marshalled)
| LClose
| LRead (writable : bool)              (* the client reads the next message *)
| LReadErr (e : read_err)
| LServe (w : world)                   (* the server reads the next message *)
| LServeErr (w : world) (e : read_err)
| LRequestOpen | LRequestSend (w : world) (id method : string) (params : marshalled)
| LRequestFinish (id : string) (wake : wakeup) | LServerNotify (w : world) (method : string) (params : marshalled)
| LServerClose.

Definition client_sent (acts : list client_action) : list Message :=
  omap (λ a, match a with ClientSent m => Some m | _ => None end) acts.
Definition server_sent (acts : list action) : list Message :=
  omap (λ a, match a with Sent m => Some m | _ => None end) acts.

Definition client_moves (c : Client) (acts : list client_action) (l : link) : link := {|
  lk_client := c; lk_conn := lk_conn l; lk_up := lk_up l ++ client_sent acts; lk_down := lk_down l; lk_served := lk_served l |}.
Definition server_moves (ev : conn_event) (l : link) : link :=
  let '(c, acts) := conn_step json sopt handlers (lk_conn l) ev in {|
  lk_client := lk_client l; lk_conn := c; lk_up := lk_up l; lk_down := lk_down l ++ server_sent acts; lk_served := lk_served l |}.

Definition link_step (ev : link_event) (l : link) : option link :=
  let c := lk_client l in
  match ev with
  | LOpen method params => Some (client_moves (Call_open method params c).1 [] l)
  | LSend writable k => '(c, acts) ← Call_send json copt writable k c; Some (client_moves c acts l)
  | LFinish k wake => c ← Call_finish k wake c; Some (client_moves c [] l)
  | LNotify writable method params => Some (client_moves c (Notify json copt writable method params c).1 l)
  | LClose => Some (client_moves (Close c) [] l)
  | LRead writable =>
      match lk_down l with
      | m :: down =>
          if negb (cl_reading c) || cl_done c then None
          else
            match json_marshal json m with
            | Err _ => None
            | Ok payload =>
                let '(c, acts) := read_turn json copt writable (Ok (FrameJSON, payload, [])) c in
                Some {| lk_client := c; lk_conn := lk_conn l; lk_up := lk_up l ++ client_sent acts; lk_down := down;
                        lk_served := lk_served l |}
            end
      | [] => None
      end
  | LReadErr e => if cl_reading c then Some (client_moves (read_turn json copt false (Err e) c).1 [] l) else None
  | LServe w =>
      match lk_up l with
      | m :: up =>
          match json_marshal json m with
          | Err _ => None
          | Ok payload =>
              let l' := server_moves (EvFrame w (Ok (FrameJSON, payload, []))) l in
              Some {| lk_client := lk_client l'; lk_conn := lk_conn l'; lk_up := up; lk_down := lk_down l';
                      lk_served := lk_served l ++ [(payload, w, lk_conn l)] |}
          end
      | [] => None
      end
  | LServeErr w e => Some (server_moves (EvFrame w (Err e)) l)
  | LRequestOpen => Some (server_moves EvRequestOpen l)
  | LRequestSend w id method params => Some (server_moves (EvRequestSend w id method params) l)
  | LRequestFinish id wake => Some (server_moves (EvRequestFinish id wake) l)
  | LServerNotify w method params => Some (server_moves (EvNotify w method params) l)
  | LServerClose => Some (server_moves EvClose l)
  end.

Fixpoint link_run (evs : list link_event) (l : link) : option link :=
  match evs with [] => Some l | ev :: evs => l ← link_step ev l; link_run evs l end.

(** The message of a request. *)
Definition request (k : nat) (method raw : string) : Message := {|
  msg_JSONRPC := JSONRPCVersion; msg_ID := call_id k; msg_Method := method; msg_Params := raw; msg_Result := ""; msg_Error := None |}.

(** [m] is what the server sent when it handled the message of request [k]. *)
Definition answers (compact : string → string) (l : link) (k : nat) (m : Message) : Prop :=
  ∃ method raw payload w c, cl_asked (lk_client l) !! k = Some (method, Ok raw) ∧ (payload, w, c) ∈ lk_served l ∧
    DecodeMessage json payload = Ok (compacted compact (request k method raw)) ∧
    Sent m ∈ (conn_step json sopt handlers c (EvFrame w (Ok (FrameJSON, payload, [])))).2.
End link.

(** ** What a connection sends *)

Section sent.
Context (json : encoding_json) (opt : ServerOptions) (handlers : gset string).

Definition versioned (acts : list action) : Prop := ∀ m, Sent m ∈ acts → msg_JSONRPC m = JSONRPCVersion.

Lemma send_versioned w c msg : msg_JSONRPC msg = JSONRPCVersion → versioned (send json opt w c msg).1.
Proof.
  intros Hm m. destruct (send_cases json opt w c msg) as [->| ->]; [by intros ?%elem_of_nil|].
  by intros [= ->]%list_elem_of_singleton.
Qed.

Lemma respondError_versioned w c id e : versioned (respondError json opt w c id e).
Proof. by apply send_versioned. Qed.

Lemma respond_versioned w c id res : versioned (respond json opt w c id res).1.
Proof.
  unfold respond. destruct (NewResponse id res) as [msg|] eqn:E; apply send_versioned; [|done].
  destruct res; [|done]. by injection E as <-.
Qed.

Lemma handleHello_versioned w c msg : versioned (handleHello json opt w c msg).1.2.
Proof.
  unfold handleHello. pose proof (respondError_versioned w c (msg_ID msg)) as He.
  destruct (handshaken c); [apply He|]. destruct (DecodeParams _ _ _); [|apply He]. destruct (negb _); [apply He|].
  destruct (Negotiate _ _); [|apply He]. destruct (if bool_decide _ then _ else _); [|apply He]. cbv zeta.
  match goal with |- context [respond ?j ?o ?w ?c ?i ?r] =>
    pose proof (respond_versioned w c i r) as Hr; by destruct (respond j o w c i r) end.
Qed.

Lemma handleRequest_versioned w c msg : versioned (handleRequest json opt handlers w c msg).1.2.
Proof.
  unfold handleRequest. pose proof (respondError_versioned w c (msg_ID msg)) as He.
  case_decide; [apply handleHello_versioned|]. destruct (handshaken c); [|apply He]. cbn [negb].
  destruct (Authorize _ _); [|apply He]. destruct (bool_decide _); [|apply He]. cbn [negb].
  destruct (handle w _ _) as [res|e].
  - pose proof (respond_versioned w c (msg_ID msg) res) as Hr. destruct (respond _ _ _ _ _ _) as [acts ok].
    intros m. cbn [fst snd]. intros [?|Hin]%elem_of_cons; [done|by apply Hr].
  - intros m [?|Hin]%elem_of_cons; [done|by eapply He].
Qed.

Lemma answer_ids id acts m : answer id acts → Sent m ∈ acts → msg_ID m = id ∨ id = "" ∧ msg_ID m = "null".
Proof.
  intros [->|(m' & -> & _ & Hi)]; [by intros ?%elem_of_nil|]. by intros [= ->]%list_elem_of_singleton.
Qed.

(** A message that a connection sends is well formed; it is a response only when
    a frame was handled, and then to a frame without an id or to its message. *)
Lemma conn_step_sent c ev m : Sent m ∈ (conn_step json opt handlers c ev).2 →
  msg_JSONRPC m = JSONRPCVersion ∧ (Kind m = KindResponse → ∃ w frame, ev = EvFrame w frame ∧
    (msg_ID m = "null" ∨ ∃ payload data req, frame = Ok (FrameJSON, payload, data) ∧
      DecodeMessage json payload = Ok req ∧ Kind req ≠ KindResponse ∧ msg_ID req ≠ "" ∧ msg_ID m = msg_ID req)).
Proof.
  destruct ev as [w frame| |w id method params|id wake|w method params|]; cbn [conn_step].
  - destruct (closed c); [by intros ?%elem_of_nil|]. intros Hin.
    assert (Hs : Sent m ∈ (serve_frame json opt handlers w c frame).1.2)
      by (destruct (serve_frame _ _ _ _ _ _) as [[] ?]; exact Hin). clear Hin. revert Hs.
    assert (Hnull : ∀ e, Sent m ∈ respondError json opt w c "" e → msg_JSONRPC m = JSONRPCVersion ∧ msg_ID m = "null").
    { intros e Hm. split; [by eapply respondError_versioned|]. unfold respondError in Hm.
      destruct (send_cases json opt w c (NewErrorResponse "" e)) as [E|E]; rewrite E in Hm;
        [by apply elem_of_nil in Hm|]. apply list_elem_of_singleton in Hm. by injection Hm as ->. }
    unfold serve_frame. destruct frame as [[[kind payload] data]|[| | |e]];
      try (by intros ?%elem_of_nil).
    2: { intros [? ?]%Hnull. split; [done|]. intros _. eexists w, _. split; [done|by left]. }
    destruct kind; [|intros [? ?]%Hnull; split; [done|]; intros _; eexists w, _; split; [done|by left]].
    destruct (DecodeMessage json payload) as [req|e] eqn:D; [|intros [? ?]%Hnull; split; [done|]; intros _; eexists w, _; split; [done|by left]].
    destruct (Kind req) eqn:K; try (by intros ?%elem_of_nil).
    + intros Hm. assert (Ha : answer (msg_ID req) (respondError json opt w c (msg_ID req) errInvalidRequest)) by apply respondError_answer.
      split; [exact (respondError_versioned w c (msg_ID req) errInvalidRequest m Hm)|]. intros _. exists w, (Ok (FrameJSON, payload, data)). split; [done|].
      destruct (answer_ids _ _ _ Ha Hm) as [Hi|[_ Hi]]; [|by left]. destruct (decide (msg_ID req = "")) as [E|E].
      { left. destruct Ha as [Ha|(m' & Ha & _ & [Hi'|[_ Hi']])]; rewrite Ha in Hm; [by apply elem_of_nil in Hm|..];
          apply list_elem_of_singleton in Hm as [= ->]; [|done]. exfalso.
        unfold respondError in Ha. destruct (send_cases json opt w c (NewErrorResponse (msg_ID req) errInvalidRequest)) as [Es|Es];
          rewrite Es in Ha; [done|]. injection Ha as <-. rewrite E in Hi'. done. }
      right. exists payload, data, req. split_and!; done || congruence.
    + intros Hm. pose proof K as [_ Hid]%Kind_request. split; [exact (handleRequest_versioned w c req m Hm)|]. intros _.
      exists w, (Ok (FrameJSON, payload, data)). split; [done|]. right. exists payload, data, req. split_and!; [done|done|congruence|done|].
      destruct (handleRequest_actions json opt handlers w c req Hid) as (acts & Ha & [E|(E & _)]); rewrite E in Hm;
        [|apply elem_of_cons in Hm as [?|Hm]; [done|]]; by destruct (answer_ids _ _ _ Ha Hm) as [?|[? _]].
  - by intros ?%elem_of_nil.
  - unfold Request_send. destruct (NewRequest id method params) as [msg|] eqn:E; [|by intros ?%elem_of_nil].
    destruct params as [raw|]; [|done]. injection E as <-.
    match goal with |- context [send _ _ w c ?msg] => destruct (send_cases json opt w c msg) as [->| ->] end; [by intros ?%elem_of_nil|].
    cbn. intros [= ->]%list_elem_of_singleton. split; [done|]. unfold Kind. cbn.
    destruct (bool_decide _), (bool_decide _); done.
  - destruct (Request_finish _ _ _) as [[]|]; by intros ?%elem_of_nil.
  - unfold HostServer.Notify. destruct (NewNotification method params) as [msg|] eqn:E; [|by intros ?%elem_of_nil].
    destruct params as [raw|]; [|done]. injection E as <-.
    match goal with |- context [send _ _ w c ?msg] => destruct (send_cases json opt w c msg) as [->| ->] end; [by intros ?%elem_of_nil|].
    cbn. intros [= ->]%list_elem_of_singleton. split; [done|]. unfold Kind. cbn. destruct (bool_decide _); done.
  - by intros ?%elem_of_nil.
Qed.
(** An answer without an error comes from the handler, or is that of a hello. *)
Lemma ok_answer_called w c payload data req m : DecodeMessage json payload = Ok req →
  Sent m ∈ (conn_step json opt handlers c (EvFrame w (Ok (FrameJSON, payload, data)))).2 → msg_Error m = None →
  msg_Method req ≠ MethodHello →
  Called (msg_Method req) (msg_Params req) ∈ (conn_step json opt handlers c (EvFrame w (Ok (FrameJSON, payload, data)))).2.
Proof.
  intros HD Hin Hm Hh. cbn [conn_step] in *. destruct (closed c); [by apply elem_of_nil in Hin|].
  assert (He : ∀ id e, Sent m ∉ respondError json opt w c id e).
  { intros id e Hx. unfold respondError in Hx. destruct (send_cases json opt w c (NewErrorResponse id e)) as [E|E]; rewrite E in Hx;
      [by apply elem_of_nil in Hx|]. apply list_elem_of_singleton in Hx. injection Hx as ->. done. }
  cbn [serve_frame] in *. rewrite HD in *. destruct (Kind req); cbn [fst snd] in *; try (by apply elem_of_nil in Hin);
    try (by destruct (He _ _ Hin)).
  unfold handleRequest in *. rewrite decide_False in * by done. destruct (handshaken c); cbn [negb] in *; [|by destruct (He _ _ Hin)].
  destruct (Authorize _ _); [|by destruct (He _ _ Hin)]. destruct (bool_decide _); cbn [negb] in *; [|by destruct (He _ _ Hin)].
  destruct (handle w _ _) as [res|e].
  - destruct (respond _ _ _ _ _ _) as [acts ok]. cbn. by left.
  - cbn. by left.
Qed.
End sent.

(** ** The invariant *)

Section invariant.
Context (json : encoding_json) (copt : ClientOptions) (sopt : ServerOptions) (handlers : gset string).
Context (compact : string → string) (laws : json_laws json compact).

Abbreviation answers := (answers json sopt handlers compact).

(** A message of the client. *)
Inductive up_ok (c : Client) (m : Message) : Prop :=
| UpCall k method raw : cl_asked c !! k = Some (method, Ok raw) → m = request k method raw → up_ok c m
| UpNotify : msg_ID m = "" → msg_JSONRPC m = JSONRPCVersion → up_ok c m
| UpReply : Kind m = KindResponse → msg_JSONRPC m = JSONRPCVersion → up_ok c m.

Definition answered (l : link) (k : nat) (m : Message) : Prop :=
  msg_Error m = Some errInternal ∨ ∃ m0, answers l k m0 ∧ m = compacted compact m0.

Record link_ok (l : link) : Prop := {
  ok_pending id k : cl_pending (lk_client l) !! id = Some k → id = call_id k ∧ (k < length (cl_asked (lk_client l)))%nat;
  ok_up : Forall (up_ok (lk_client l)) (lk_up l);
  ok_down : Forall (λ m, msg_JSONRPC m = JSONRPCVersion ∧ (Kind m = KindResponse → msg_ID m = "null" ∨
    ∃ k, (k < length (cl_asked (lk_client l)))%nat ∧ msg_ID m = call_id k ∧ answers l k m)) (lk_down l);
  ok_chan k ca m : cl_calls (lk_client l) !! k = Some ca → call_chan ca = Some m → answered l k m;
  ok_returned k ca r : cl_calls (lk_client l) !! k = Some ca → call_pc_of ca = CallReturned r →
    r = Err errInternal ∨ ∃ m, answered l k m ∧ r = answer_of m
}.

Lemma answers_mono l l' k m : cl_asked (lk_client l) `prefix_of` cl_asked (lk_client l') → lk_served l `prefix_of` lk_served l' →
  answers l k m → answers l' k m.
Proof.
  intros [x Ha] [y Hs] (method & raw & payload & w & c & H1 & H2 & H3 & H4). exists method, raw, payload, w, c.
  split_and!; [rewrite Ha; by apply lookup_app_l_Some|rewrite Hs; apply elem_of_app; by left|done|done].
Qed.

Lemma answered_mono l l' k m : cl_asked (lk_client l) `prefix_of` cl_asked (lk_client l') → lk_served l `prefix_of` lk_served l' →
  answered l k m → answered l' k m.
Proof. intros Ha Hs [?|(m0 & Hm & ->)]; [by left|right]. exists m0. split; [by eapply answers_mono|done]. Qed.

Lemma up_mono c c' m : cl_asked c `prefix_of` cl_asked c' → up_ok c m → up_ok c' m.
Proof. intros [x Ha] [k method raw Hk Hm|? ?|? ?]; [|by apply UpNotify|by apply UpReply]. eapply UpCall; [|done]. rewrite Ha. by apply lookup_app_l_Some. Qed.

Lemma call_id_inj k k' : Z.of_nat k < 2 ^ 64 - 1 → Z.of_nat k' < 2 ^ 64 - 1 → call_id k = call_id k' → k = k'.
Proof.
  intros H1 H2 E%quoted_inj. rewrite !Z.mod_small in E by lia.
  assert (pretty (Z.of_nat k + 1) = pretty (Z.of_nat k' + 1)) as Hp by (by injection E).
  apply pretty_Z_inj in Hp. lia.
Qed.
(** *** What the client does *)

Lemma link_ok_client l c acts : link_ok l → cl_asked (lk_client l) `prefix_of` cl_asked c →
  (∀ id k, cl_pending c !! id = Some k → id = call_id k ∧ (k < length (cl_asked c))%nat) →
  Forall (up_ok c) (client_sent acts) →
  (∀ k ca, cl_calls c !! k = Some ca → (∀ m, call_chan ca = Some m → answered l k m) ∧
    (∀ r, call_pc_of ca = CallReturned r → r = Err errInternal ∨ ∃ m, answered l k m ∧ r = answer_of m)) →
  link_ok (client_moves c acts l).
Proof.
  intros [Hp Hu Hd Hc Hr] Ha Hp' Hs Hcalls. pose proof (prefix_length _ _ Ha) as Hlen.
  assert (Hans : ∀ k m, answered l k m → answered (client_moves c acts l) k m) by (intros k m; by apply answered_mono).
  split; cbn [lk_client lk_up lk_down client_moves].
  - exact Hp'.
  - apply Forall_app. split; [|done]. eapply Forall_impl; [exact Hu|]. intros m. by apply up_mono.
  - eapply Forall_impl; [exact Hd|]. intros m [Hv Hm]. split; [done|]. intros K. destruct (Hm K) as [?|(k & Hk & Hi & Hx)]; [by left|right].
    exists k. split_and!; [lia|done|by eapply answers_mono].
  - intros k ca m Hk Hm. by apply Hans, (proj1 (Hcalls k ca Hk)).
  - intros k ca r Hk Hm. destruct (proj2 (Hcalls k ca Hk) r Hm) as [?|(m & Hx & ->)]; [by left|right; eauto].
Qed.

(** The calls of the client as they are. *)
Lemma link_ok_calls l k ca : link_ok l → cl_calls (lk_client l) !! k = Some ca →
  (∀ m, call_chan ca = Some m → answered l k m) ∧
  (∀ r, call_pc_of ca = CallReturned r → r = Err errInternal ∨ ∃ m, answered l k m ∧ r = answer_of m).
Proof. intros H Hk. split; intros; [by eapply (ok_chan l)|by eapply (ok_returned l)]. Qed.

Lemma return_ok l k r : link_ok l → r = Err errInternal ∨ (∃ m, answered l k m ∧ r = answer_of m) →
  ∀ acts, Forall (up_ok (lk_client l)) (client_sent acts) → link_ok (client_moves (return_call k r (lk_client l)) acts l).
Proof.
  intros H Hr acts Ha. apply link_ok_client; [done|done| | |].
  - intros id k' Hk. cbn in Hk. apply lookup_delete_Some in Hk as [_ Hk]. exact (ok_pending l H _ _ Hk).
  - eapply Forall_impl; [exact Ha|]. intros m. by apply up_mono.
  - intros k' ca. cbn. rewrite lookup_alter_Some. intros [(<- & ca' & Hk & ->)|[_ Hk]]; [|by apply link_ok_calls].
    cbn. split; [by apply (link_ok_calls l k ca')|]. intros r' [= <-]. done.
Qed.

Lemma write_sent writable c m : client_sent (write json copt writable c m).1 = [] ∨
  client_sent (write json copt writable c m).1 = [m].
Proof.
  unfold write. destruct (json_marshal json m); [|by left]. destruct (WriteFrame _ _ _); [|by left].
  destruct (_ && _); [by right|by left].
Qed.
Lemma write_up writable c m : up_ok c m → Forall (up_ok c) (client_sent (write json copt writable c m).1).
Proof. intros Hm. destruct (write_sent writable c m) as [->| ->]; [constructor|by constructor]. Qed.

Lemma push_calls l k ca ca' m : link_ok l → cl_calls (lk_client l) !! k = Some ca → answered l k m → ca' = push m ca ∨ ca' = ca →
  (∀ m, call_chan ca' = Some m → answered l k m) ∧
  (∀ r, call_pc_of ca' = CallReturned r → r = Err errInternal ∨ ∃ m, answered l k m ∧ r = answer_of m).
Proof.
  intros H Hk Hm [->| ->]; [|by apply link_ok_calls]. destruct (link_ok_calls l k ca H Hk) as [H1 H2]. unfold push.
  destruct (call_chan ca) as [m'|] eqn:E; [by rewrite E|]. cbn. split; [by intros ? [= <-]|exact H2].
Qed.

Lemma end_reading_ok l e : link_ok l → link_ok (client_moves (end_reading e (lk_client l)) [] l).
Proof.
  intros H. apply link_ok_client; [done|done|by intros ? ? ?|constructor|].
  intros k ca. cbn. rewrite map_lookup_imap. destruct (cl_calls (lk_client l) !! k) as [ca0|] eqn:Hk; [|done]. cbn. intros [= <-].
  apply (push_calls l k ca0 _ failure); [done|done|by left|]. case_decide; auto.
Qed.

Lemma Call_open_ok l method params : link_ok l → link_ok (client_moves (Call_open method params (lk_client l)).1 [] l).
Proof.
  intros H. apply link_ok_client; [done|by eexists| |constructor|]; cbn [Call_open fst cl_pending cl_calls cl_asked].
  - intros id k. rewrite lookup_insert_Some, length_app. intros [[<- <-]|[_ Hk]]; [split; [done|cbn; lia]|].
    apply (ok_pending l H) in Hk as [-> Hk]. split; [done|lia].
  - intros k ca. rewrite lookup_insert_Some. intros [[<- <-]|[_ Hk]]; [by split|by apply link_ok_calls].
Qed.

Lemma Call_send_ok l writable k c acts : link_ok l → Call_send json copt writable k (lk_client l) = Some (c, acts) →
  link_ok (client_moves c acts l).
Proof.
  intros H. unfold Call_send. destruct (cl_asked (lk_client l) !! k) as [[method params]|] eqn:Ha; [|done].
  destruct (cl_calls (lk_client l) !! k) as [[[| |r] ch]|] eqn:Hk; try done.
  destruct params as [raw|e]; cbn [NewRequest mbind result_bind mret result_ret]; [|intros [= <- <-]; apply return_ok; [done|by left|constructor]].
  rewrite (decide_False (P := call_id k = "")) by done. fold (request k method raw).
  pose proof (write_up writable (lk_client l) (request k method raw) (UpCall _ _ k method raw Ha eq_refl)) as Hu.
  destruct (write json copt writable (lk_client l) (request k method raw)) as [acts' ok]. cbn [fst] in Hu. destruct ok; intros [= <- <-].
  - apply link_ok_client; [done|done|by apply (ok_pending l H)| |].
    + eapply Forall_impl; [exact Hu|]. intros m. by apply up_mono.
    + intros k' ca. cbn. rewrite lookup_insert_Some. intros [[<- <-]|[_ Hk']]; [|by apply link_ok_calls].
      cbn. split; [by apply (link_ok_calls l k _ H Hk)|done].
  - apply return_ok; [done|by left|exact Hu].
Qed.

Lemma Call_finish_ok l k wake c : link_ok l → Call_finish k wake (lk_client l) = Some c → link_ok (client_moves c [] l).
Proof.
  intros H. unfold Call_finish. destruct (cl_calls (lk_client l) !! k) as [[[| |r] ch]|] eqn:Hk; try done.
  destruct wake; try (intros [= <-]; apply return_ok; [done|by left|constructor]).
  - destruct (cl_done _); [|done]. intros [= <-]; apply return_ok; [done|by left|constructor].
  - destruct ch as [m|]; [|done]. intros [= <-]. apply return_ok; [done|right|constructor]. exists m. split; [|done].
    by apply (link_ok_calls l k _ H Hk).
Qed.
Lemma Kind_compacted m : Kind (compacted compact m) = Kind m.
Proof.
  pose proof (law_empty _ _ laws) as He. unfold Kind. cbn [msg_Method msg_ID msg_Result msg_Error compacted].
  assert (Hb : ∀ s, bool_decide (compact s ≠ "") = bool_decide (s ≠ "")) by (intros s; apply bool_decide_ext; by rewrite He).
  by rewrite !Hb.
Qed.

Lemma read_turn_ok l m down writable payload : link_ok l → Z.of_nat (length (cl_asked (lk_client l))) < 2 ^ 64 →
  lk_down l = m :: down → json_marshal json m = Ok payload →
  link_ok (let '(c, acts) := read_turn json copt writable (Ok (FrameJSON, payload, [])) (lk_client l) in
    {| lk_client := c; lk_conn := lk_conn l; lk_up := lk_up l ++ client_sent acts; lk_down := down; lk_served := lk_served l |}).
Proof.
  intros H Hlt Hd Hj. set (l1 := {| lk_client := lk_client l; lk_conn := lk_conn l; lk_up := lk_up l; lk_down := down; lk_served := lk_served l |}).
  pose proof (ok_down l H) as Hdown. rewrite Hd in Hdown. apply Forall_cons in Hdown as [[Hv Hm] Hdown].
  assert (H1 : link_ok l1) by (destruct H; split; done).
  enough (link_ok (client_moves (read_turn json copt writable (Ok (FrameJSON, payload, [])) (lk_client l1)).1
    (read_turn json copt writable (Ok (FrameJSON, payload, [])) (lk_client l1)).2 l1)) as G.
  { cbn [lk_client l1] in G. by destruct (read_turn _ _ _ _ _). }
  assert (Hsame : ∀ acts, Forall (up_ok (lk_client l1)) (client_sent acts) → link_ok (client_moves (lk_client l1) acts l1)).
  { intros acts Ha. apply link_ok_client; [done|done|apply (ok_pending l1 H1)|done|]. intros k ca. by apply link_ok_calls. }
  cbn [read_turn]. rewrite (law_decode _ _ laws m payload Hj Hv). destruct (_ && _); [by apply end_reading_ok|].
  rewrite Kind_compacted. destruct (Kind m) eqn:K; cbn [fst snd].
  - apply Hsame. constructor.
  - apply Hsame, write_up, UpReply; [apply Kind_error_response|done].
  - apply Hsame. constructor.
  - destruct (cl_pending (lk_client l1) !! msg_ID (compacted compact m)) as [k|] eqn:Hp; [|apply Hsame; constructor]. cbn [fst snd].
    destruct (cl_calls (lk_client l1) !! k) as [ca|] eqn:Hk; [|apply Hsame; constructor].
    pose proof (ok_pending l1 H1 _ _ Hp) as [Hid Hkl]. cbn [msg_ID compacted] in Hid.
    assert (Hans : answered l1 k (compacted compact m)).
    { right. exists m. split; [|done]. destruct (Hm eq_refl) as [Hn|(k0 & Hk0 & Hi & Hx)].
      - rewrite Hn, (law_null _ _ laws) in Hid. done.
      - rewrite Hi, (law_id _ _ laws) in Hid. cbn [lk_client l1] in Hkl. apply call_id_inj in Hid as ->; [done|lia|lia]. }
    apply link_ok_client; [done|done|apply (ok_pending l1 H1)|constructor|].
    intros k' ca'. cbn. rewrite lookup_insert_Some. intros [[<- <-]|[_ Hk']]; [|by apply link_ok_calls].
    apply (push_calls l1 k ca _ (compacted compact m)); [done|done|done|by left].
Qed.

(** *** What the server does *)

Lemma elem_of_server_sent acts m : m ∈ server_sent acts ↔ Sent m ∈ acts.
Proof.
  unfold server_sent. rewrite list_elem_of_omap. split; [|eauto]. intros ([m'|] & Hin & E); [|done]. by injection E as ->.
Qed.

Lemma server_ok l ev served : link_ok l →
  (∀ l' m, lk_client l' = lk_client l → lk_served l' = lk_served l ++ served →
    Sent m ∈ (conn_step json sopt handlers (lk_conn l) ev).2 → Kind m = KindResponse → msg_ID m = "null" ∨
    ∃ k, (k < length (cl_asked (lk_client l)))%nat ∧ msg_ID m = call_id k ∧ answers l' k m) →
  ∀ up, sublist up (lk_up l) → let l' := server_moves json sopt handlers ev l in
  link_ok {| lk_client := lk_client l'; lk_conn := lk_conn l'; lk_up := up; lk_down := lk_down l'; lk_served := lk_served l ++ served |}.
Proof.
  intros [Hp Hu Hd Hc Hr] Hev up Hup. cbv zeta. unfold server_moves.
  pose proof (conn_step_sent json sopt handlers (lk_conn l) ev) as Hsent.
  destruct (conn_step json sopt handlers (lk_conn l) ev) as [c acts]. cbn [lk_client lk_conn lk_up lk_down lk_served fst snd] in *.
  set (l' := {| lk_client := _; lk_conn := c; lk_up := _; lk_down := _; lk_served := _ |}).
  assert (Hmono : ∀ k m, answers l k m → answers l' k m) by (intros k m; apply answers_mono; [done|by eexists]).
  assert (Hmono' : ∀ k m, answered l k m → answered l' k m) by (intros k m; apply answered_mono; [done|by eexists]).
  split; cbn [lk_client lk_up lk_down l'].
  - exact Hp.
  - by eapply Forall_sublist.
  - apply Forall_app. split.
    + eapply Forall_impl; [exact Hd|]. intros m [Hv Hm]. split; [done|]. intros K.
      destruct (Hm K) as [?|(k & ? & ? & ?)]; [by left|right; eauto 6].
    + apply Forall_forall. intros m Hm%elem_of_server_sent. split; [by apply Hsent|]. intros K. by apply (Hev l').
  - intros k ca m Hk Hm. apply Hmono'. by eapply Hc.
  - intros k ca r Hk Hm. destruct (Hr k ca r Hk Hm) as [?|(m & ? & ?)]; [by left|right; eauto].
Qed.

Lemma server_moves_ok l ev : link_ok l → (∀ w p d, ev ≠ EvFrame w (Ok (FrameJSON, p, d))) →
  link_ok (server_moves json sopt handlers ev l).
Proof.
  intros H Hne. pose proof (server_ok l ev [] H) as Hs. rewrite app_nil_r in Hs.
  assert (Hl : link_ok (let l' := server_moves json sopt handlers ev l in {| lk_client := lk_client l'; lk_conn := lk_conn l';
    lk_up := lk_up l; lk_down := lk_down l'; lk_served := lk_served l |})).
  { apply Hs; [|done]. intros l' m _ _ Hm K. left. destruct (conn_step_sent json sopt handlers _ _ _ Hm) as [_ Hk].
    destruct (Hk K) as (w & frame & -> & [?|(p & d & req & -> & _)]); [done|]. by destruct (Hne w p d). }
  cbv zeta in Hl. revert Hl. unfold server_moves. by destruct (conn_step _ _ _ _ _).
Qed.

Lemma serve_ok l m up w payload : link_ok l → lk_up l = m :: up → json_marshal json m = Ok payload →
  let l' := server_moves json sopt handlers (EvFrame w (Ok (FrameJSON, payload, []))) l in
  link_ok {| lk_client := lk_client l'; lk_conn := lk_conn l'; lk_up := up; lk_down := lk_down l';
             lk_served := lk_served l ++ [(payload, w, lk_conn l)] |}.
Proof.
  intros H Hu Hj. pose proof (ok_up l H) as Hup. rewrite Hu in Hup. apply Forall_cons in Hup as [Hm _].
  apply server_ok; [done| |rewrite Hu; by constructor]. intros l' m' Hc Hs Hin K.
  destruct (conn_step_sent json sopt handlers _ _ _ Hin) as [_ Hk].
  destruct (Hk K) as (w' & frame & [= <- <-] & [?|(p & d & req & [= <- <-] & HD & HK & Hid & Heq)]); [by left|]. right.
  assert (Hv : msg_JSONRPC m = JSONRPCVersion) by (by destruct Hm as [? ? ? _ ->|? ?|? ?]).
  pose proof HD as HD'. rewrite (law_decode _ _ laws m payload Hj Hv) in HD'. destruct (_ && _); [done|]. injection HD' as <-.
  destruct Hm as [k method raw Hk' ->|Hn _|Hn _].
  - exists k. pose proof (lookup_lt_Some _ _ _ Hk'). split; [done|]. split; [rewrite Heq; apply (law_id _ _ laws)|].
    exists method, raw, payload, w, (lk_conn l). rewrite Hc, Hs. split_and!; [done|apply elem_of_app; right; by left|done|done].
  - destruct Hid. cbn. rewrite Hn. by apply (law_empty _ _ laws).
  - destruct HK. by rewrite Kind_compacted.
Qed.

Lemma link_step_asked ev l l' : link_step json copt sopt handlers ev l = Some l' →
  cl_asked (lk_client l) `prefix_of` cl_asked (lk_client l').
Proof.
  assert (Hs : ∀ ev, lk_client (server_moves json sopt handlers ev l) = lk_client l)
    by (intros ?; unfold server_moves; by destruct (conn_step _ _ _ _ _)).
  assert (Hr : ∀ b f, cl_asked (read_turn json copt b f (lk_client l)).1 = cl_asked (lk_client l)).
  { intros b f. unfold read_turn. destruct f as [[[[] ?] ?]|]; try done. destruct (DecodeMessage _ _) as [m|]; [|done].
    destruct (Kind m); try done. destruct (cl_pending _ !! _) as [k|]; [|done]. by destruct (cl_calls _ !! k). }
  unfold link_step. destruct ev; cbv zeta; try (intros [= <-]; rewrite ?Hs; try done; by eexists).
  - unfold Call_send. destruct (cl_asked _ !! _) as [[]|]; [|done]. destruct (cl_calls _ !! _) as [[[] ?]|]; try done.
    destruct (NewRequest _ _ _); [|by intros [= <-]]. destruct (write _ _ _ _ _) as [? []]; by intros [= <-].
  - unfold Call_finish. destruct (cl_calls _ !! _) as [[[] ch]|]; try done.
    destruct wake; [by intros [= <-]..|destruct (cl_done _); [by intros [= <-]|done]|destruct ch; [by intros [= <-]|done]].
  - destruct (lk_down l) as [|m down]; [done|]. destruct (_ || _); [done|]. destruct (json_marshal json m) as [p|]; [|done].
    pose proof (Hr writable (Ok (FrameJSON, p, []))) as E. destruct (read_turn _ _ _ _ _) as [c acts]. intros [= <-]. cbn in *. by rewrite E.
  - destruct (cl_reading _); [|done]. intros [= <-]. cbn. done.
  - destruct (lk_up l) as [|m up]; [done|]. destruct (json_marshal json m) as [p|]; [|done]. intros [= <-]. cbn. by rewrite Hs.
Qed.

Lemma link_step_ok ev l l' : link_ok l → Z.of_nat (length (cl_asked (lk_client l))) < 2 ^ 64 →
  link_step json copt sopt handlers ev l = Some l' → link_ok l'.
Proof.
  intros H Hlt. unfold link_step. destruct ev; cbv zeta.
  - intros [= <-]. by apply Call_open_ok.
  - destruct (Call_send _ _ _ _ _) as [[c acts]|] eqn:E; [|done]. intros [= <-]. by eapply Call_send_ok.
  - destruct (Call_finish _ _ _) as [c|] eqn:E; [|done]. intros [= <-]. by eapply Call_finish_ok.
  - intros [= <-]. apply link_ok_client; [done|done|apply (ok_pending l H)| |intros k ca; by apply link_ok_calls].
    unfold Notify. destruct params as [raw|e]; [|constructor]. cbn [NewNotification mbind result_bind mret result_ret].
    by apply write_up, UpNotify.
  - intros [= <-]. apply link_ok_client; [done|done|apply (ok_pending l H)|constructor|intros k ca; by apply link_ok_calls].
  - destruct (lk_down l) as [|m down] eqn:Hd; [done|]. destruct (_ || _); [done|]. destruct (json_marshal json m) as [p|] eqn:Hj; [|done].
    pose proof (read_turn_ok l m down writable p H Hlt Hd Hj) as G. destruct (read_turn _ _ _ _ _). by intros [= <-].
  - destruct (cl_reading _); [|done]. intros [= <-]. by apply end_reading_ok.
  - destruct (lk_up l) as [|m up] eqn:Hu; [done|]. destruct (json_marshal json m) as [p|] eqn:Hj; [|done]. intros [= <-]. by apply (serve_ok l m).
  - intros [= <-]. by apply server_moves_ok.
  - intros [= <-]. by apply server_moves_ok.
  - intros [= <-]. by apply server_moves_ok.
  - intros [= <-]. by apply server_moves_ok.
  - intros [= <-]. by apply server_moves_ok.
  - intros [= <-]. by apply server_moves_ok.
Qed.

Lemma link_run_asked evs l l' : link_run json copt sopt handlers evs l = Some l' →
  cl_asked (lk_client l) `prefix_of` cl_asked (lk_client l').
Proof.
  revert l; induction evs as [|ev evs IH]; intros l; cbn [link_run]; [by intros [= <-]|].
  destruct (link_step _ _ _ _ ev l) as [l1|] eqn:E; [|done]. cbn. intros Hr. etrans; [by eapply link_step_asked|by apply IH].
Qed.

Lemma link_run_ok evs l l' : link_ok l → link_run json copt sopt handlers evs l = Some l' →
  Z.of_nat (length (cl_asked (lk_client l'))) < 2 ^ 64 → link_ok l'.
Proof.
  revert l; induction evs as [|ev evs IH]; intros l H; cbn [link_run]; [by intros [= <-]|].
  destruct (link_step _ _ _ _ ev l) as [l1|] eqn:E; [|done]. cbn. intros Hr Hlt. apply (IH l1); [|done|done].
  apply (link_step_ok ev l); [done| |done]. pose proof (prefix_length _ _ (link_step_asked _ _ _ E)).
  pose proof (prefix_length _ _ (link_run_asked _ _ _ Hr)). lia.
Qed.

Lemma new_link_ok cr : link_ok (new_link cr).
Proof. split; cbn; try done; constructor. Qed.
End invariant.


(** ** A handshake and a call *)

Definition response (id res : string) : Message := {|
  msg_JSONRPC := JSONRPCVersion; msg_ID := id; msg_Method := ""; msg_Params := ""; msg_Result := res; msg_Error := None |}.
Definition refused : Message := NewErrorResponse (call_id 0) (errUnauthorized "app_signature_invalid").

(** The messages of the example and their texts. *)
Definition wire : list (Message * list byte) :=
  [(request 0 MethodHello "{}", [x7b; x30]); (response (call_id 0) "{}", [x7b; x31]);
   (request 1 MethodRuntimeEvents "{}", [x7b; x32]); (response (call_id 1) "[]", [x7b; x33]); (refused, [x7b; x34])].
Definition wire_json : encoding_json := {|
  json_Valid _ := true;
  json_probe _ := true;
  json_message bs := match list_find (λ mp, mp.2 = bs) wire with Some (_, (m, _)) => Ok m | None => Err "syntax" end;
  json_hello := json_hello sample_json;
  json_marshal m := match list_find (λ mp, mp.1 = m) wire with Some (_, (_, bs)) => Ok bs | None => Err "unsupported" end;
  json_marshal_hello _ := Ok "{}"
|}.

Lemma wire_laws : json_laws wire_json id.
Proof.
  split; try done. intros m payload Hj _. cbn [json_marshal wire_json] in Hj.
  destruct (list_find _ _) as [[i [m' bs]]|] eqn:E; [|done]. injection Hj as ->.
  apply list_find_Some in E as (Hi & Hm & _). cbn [fst] in Hm. subst m'. apply list_elem_of_lookup_2 in Hi.
  unfold wire in Hi. repeat (apply elem_of_cons in Hi as [[= -> ->]|Hi]; [vm_compute; reflexivity|]). by apply elem_of_nil in Hi.
Qed.

Definition sample_client : ClientOptions := {|
  co_Role := RoleApp; co_AppVersion := "1"; co_Capabilities := [CapRuntime]; co_Limits := {| MaxJSON := 0; MaxAttachment := 0 |} |}.
Definition link_walk : list link_event :=
  [LOpen MethodHello (Ok "{}"); LSend true 0; LServe sample_world; LRead true; LFinish 0 WakeAnswer;
   LOpen MethodRuntimeEvents (Ok "{}"); LSend true 1; LServe sample_world; LRead true; LFinish 1 WakeAnswer].
Definition link_end : option link :=
  link_run wire_json sample_client sample_options {[MethodRuntimeEvents]} link_walk (new_link sample_cred).


(** A client whose signature is refused may not learn it: the connection is
    closed behind the answer, and of an answer and a closed connection [Call]
    takes either. *)
Example refusal_lost :
  let w := {| peerPID := Ok 77; signature _ := PeerInvalid ""; writable := true; handle _ _ := Ok (Ok "[]") |} in
  let walk := [LOpen MethodHello (Ok "{}"); LSend true 0; LServe w; LRead true; LReadErr REOF] in
  let outcome wake := l ← link_run wire_json sample_client sample_options ∅ (walk ++ [LFinish 0 wake]) (new_link sample_cred);
                      call_pc_of <$> cl_calls (lk_client l) !! 0%nat in
  outcome WakeAnswer = Some (CallReturned (Err (errUnauthorized "app_signature_invalid"))) ∧
  outcome WakeDone = Some (CallReturned (Err errInternal)).
Proof. vm_compute. done. Qed.

(** ** Listening *)

(** A socket that [ListenUnix] returns is private: its directory was made and set
    to the user's own before it was bound, and it is set to the user's own
    itself; only a socket is ever removed to make place, and after a failure no
    listener is left. *)
Theorem listen_private sys path calls res : ListenUnix sys path = (calls, res) →
  (res = Ok () → ∃ between, calls = [MkdirAll 448; ChmodDir 448] ++ between ++ [Listen; ChmodSocket 384] ∧
    Z.of_nat (String.length path) ≤ 100) ∧
  (RemovePath ∈ calls → ls_lstat sys = Some true) ∧
  (res ≠ Ok () → Listen ∈ calls → ls_listen sys = true → last calls = Some CloseListener).
Proof.
  unfold ListenUnix. case_decide as Hl; [intros [= <- <-]; split_and!; [done|by intros ?%elem_of_nil|by intros _ ?%elem_of_nil]|].
  destruct sys as [[] [] [[]|] [] [] []]; cbn; intros [= <- <-];
    (split_and!; [intros ?; try done|intros Hin; try done|intros ? Hin ?; try done]);
    try (eexists [] + eexists [RemovePath]; split; [reflexivity|lia]);
    exfalso; revert Hin; apply (bool_decide_eq_false_1 _); vm_compute; reflexivity.
Qed.

Lemma listen_private_witness :
  let sys := {| ls_mkdir := true; ls_chmod_dir := true; ls_lstat := Some true; ls_remove := true; ls_listen := true; ls_chmod := false |} in
  (ListenUnix sys "/run/h.sock").2 = Err EChmodSocket ∧ last (ListenUnix sys "/run/h.sock").1 = Some CloseListener.
Proof.
  cbv zeta. split; [vm_compute; reflexivity|].
  apply (listen_private {| ls_mkdir := true; ls_chmod_dir := true; ls_lstat := Some true; ls_remove := true; ls_listen := true; ls_chmod := false |}
    "/run/h.sock" _ (Err EChmodSocket) (surjective_pairing _)); [discriminate| |reflexivity].
  apply (bool_decide_eq_true_1 _). vm_compute. reflexivity.
Defined.
