(* ===== verification/GoTime.v ===== *)
(** * Times as text

    What [time] does in the program's logs and their filters: the calendar of
    UTC, [Format] with [RFC3339Nano], and [Parse]. That the texts are in the
    order of time, as long as the seconds differ, and read back. *)

From stdpp Require Import pretty.
From S2P Require Import Prelude Entities GoStrings.
Open Scope Z_scope.

(** ** The calendar

    Days are counted from January 1 of year 1. *)

Definition leap (y : Z) : bool :=
  bool_decide (y `mod` 4 = 0) && (negb (bool_decide (y `mod` 100 = 0)) || bool_decide (y `mod` 400 = 0)).
Definition days_before_year (y : Z) : Z := 365 * (y - 1) + (y - 1) `div` 4 - (y - 1) `div` 100 + (y - 1) `div` 400.

(** The year of a day, by cycles of 400, 100 and 4 years. *)
Definition year_of (day : Z) : Z :=
  let n400 := day `div` 146097 in
  let d := day `mod` 146097 in
  let n100 := Z.min 3 (d `div` 36524) in
  let d := d - 36524 * n100 in
  let n4 := d `div` 1461 in
  let d := d `mod` 1461 in
  let n1 := Z.min 3 (d `div` 365) in
  400 * n400 + 100 * n100 + 4 * n4 + n1 + 1.

Definition month_lengths (y : Z) : list Z :=
  [31; if leap y then 29 else 28; 31; 30; 31; 30; 31; 31; 30; 31; 30; 31].
(** The month and the day in it of a day of the year. *)
Fixpoint month_from (m : Z) (lengths : list Z) (yday : Z) : Z * Z :=
  match lengths with
  | [] => (m, yday + 1)
  | n :: lengths => if decide (yday < n) then (m, yday + 1) else month_from (m + 1) lengths (yday - n)
  end.
Definition civil (day : Z) : Z * (Z * Z) :=
  let y := year_of day in (y, month_from 1 (month_lengths y) (day - days_before_year y)).

Definition sum (l : list Z) : Z := foldr Z.add 0 l.
Definition day_of (y m d : Z) : Z := days_before_year y + sum (take (Z.to_nat (m - 1)) (month_lengths y)) + (d - 1).

(** ** [Format] *)

Definition billion : Z := 1000000000.
(** From January 1 of year 1 to January 1 of 1970. *)
Definition epoch_day : Z := 719162.
Definition seconds (t : time) : Z := t `div` billion.
Definition day (t : time) : Z := seconds t `div` 86400 + epoch_day.
Definition clock (t : time) : Z := seconds t `mod` 86400.

Definition digit (d : Z) : Ascii.ascii := Ascii.ascii_of_N (Z.to_N (48 + d)).
(** The last [w] decimal digits. *)
Fixpoint pad (w : nat) (n : Z) : string :=
  match w with
  | O => ""
  | S w => String (digit ((n `div` 10 ^ Z.of_nat w) `mod` 10)) (pad w n)
  end.
(** Years that are not written with four digits are written as they are. *)
Definition year_text (y : Z) : string := if decide (0 ≤ y < 10000) then pad 4 y else pretty y.

(** The digits of a fraction, without zeros at the end: at most nine. *)
Fixpoint fraction_from (fuel w : nat) (n : Z) : string :=
  match fuel with
  | O => ""
  | S fuel => if decide (n `mod` 10 = 0) then fraction_from fuel (w - 1) (n `div` 10) else pad w n
  end.
Definition fraction (nanos : Z) : string := if decide (nanos = 0) then "" else "." +:+ fraction_from 9 9 nanos.

Definition stamp (t : time) : string :=
  let '(y, (m, d)) := civil (day t) in
  let s := clock t in
  year_text y +:+ "-" +:+ pad 2 m +:+ "-" +:+ pad 2 d +:+ "T" +:+
  pad 2 (s `div` 3600) +:+ ":" +:+ pad 2 ((s `div` 60) `mod` 60) +:+ ":" +:+ pad 2 (s `mod` 60).
(** [t.UTC().Format(time.RFC3339Nano)]. *)
Definition RFC3339Nano (t : time) : string := stamp t +:+ fraction (t `mod` billion) +:+ "Z".

(** ** [Parse] *)

Definition digit_value (c : Ascii.ascii) : option Z :=
  let v := char_val c - 48 in if bool_decide (0 ≤ v) && bool_decide (v < 10) then Some v else None.
(** Exactly [w] digits. *)
Fixpoint number (w : nat) (acc : Z) (s : string) : option (Z * string) :=
  match w, s with
  | O, _ => Some (acc, s)
  | S w, String c s => v ← digit_value c; number w (acc * 10 + v) s
  | S _, EmptyString => None
  end.
(** An hour has one digit or two. *)
Definition hour (s : string) : option (Z * string) :=
  match number 2 0 s with Some r => Some r | None => number 1 0 s end.
Fixpoint digit_run (s : string) : string * string :=
  match s with
  | EmptyString => ("", "")
  | String c s' =>
      match digit_value c with
      | Some _ => let '(ds, rest) := digit_run s' in (String c ds, rest)
      | None => ("", s)
      end
  end.
(** A fraction of a second after a point or a comma, whose tenth digit and those
    behind it are dropped; without a digit there is none. *)
Definition nanoseconds (s : string) : Z * string :=
  match s with
  | String c s' =>
      let '(ds, rest) := digit_run s' in
      if (bool_decide (char_val c = 46) || bool_decide (char_val c = 44)) && bool_decide (ds ≠ "") then
        let w := Nat.min 9 (String.length ds) in
        (from_option fst 0 (number w 0 ds) * 10 ^ (9 - Z.of_nat w), rest)
      else (0, s)
  | EmptyString => (0, s)
  end.
Definition zone (s : string) : option (Z * string) :=
  match CutPrefix s "Z" with
  | Some s => Some (0, s)
  | None =>
      sign ← (match s with
              | String c _ => if decide (char_val c = 43) then Some 1 else if decide (char_val c = 45) then Some (-1) else None
              | EmptyString => None
              end);
      '(h, s) ← number 2 0 (String.substring 1 (String.length s) s);
      s ← CutPrefix s ":";
      '(m, s) ← number 2 0 s;
      if bool_decide (h ≤ 24) && bool_decide (m ≤ 60) then Some (sign * (h * 60 + m) * 60, s) else None
  end.
(** [time.Parse] with [time.RFC3339] or [time.RFC3339Nano], which read the same
    texts. *)
Definition Parse (s : string) : option time :=
  '(y, s) ← number 4 0 s; s ← CutPrefix s "-";
  '(m, s) ← number 2 0 s; s ← CutPrefix s "-";
  '(d, s) ← number 2 0 s; s ← CutPrefix s "T";
  '(h, s) ← hour s; s ← CutPrefix s ":";
  '(mi, s) ← number 2 0 s; s ← CutPrefix s ":";
  '(sec, s) ← number 2 0 s;
  let '(nanos, s) := nanoseconds s in
  '(offset, s) ← zone s;
  if bool_decide (s = "") && bool_decide (1 ≤ m ≤ 12) && bool_decide (1 ≤ d ≤ nth (Z.to_nat (m - 1)) (month_lengths y) 0) &&
     bool_decide (h < 24) && bool_decide (mi < 60) && bool_decide (sec < 60)
  then Some (((day_of y m d - epoch_day) * 86400 + h * 3600 + mi * 60 + sec - offset) * billion + nanos) else None.

Example parses : Parse "2024-02-29T12:34:56.12Z" = Some 1709210096120000000 ∧ Parse "2024-02-29T13:34:56,12+01:00" = Some 1709210096120000000 ∧
  Parse "2023-02-29T12:34:56Z" = None ∧ Parse "2024-02-29T24:00:00Z" = None ∧ Parse "1970-01-01T0:00:00Z" = Some 0 ∧
  Parse "1970-01-01T00:00:00" = None ∧ Parse "1970-01-01T00:00:00Z " = None.
Proof. by vm_compute. Qed.

Example formats : RFC3339Nano 0 = "1970-01-01T00:00:00Z" ∧ RFC3339Nano zero_time = "0001-01-01T00:00:00Z" ∧
  RFC3339Nano 1709210096120000000 = "2024-02-29T12:34:56.12Z" ∧ RFC3339Nano (-1) = "1969-12-31T23:59:59.999999999Z" ∧
  RFC3339Nano 4102444799000000001 = "2099-12-31T23:59:59.000000001Z".
Proof. by vm_compute. Qed.

(** ** Order *)

Definition then_cmp (c d : comparison) : comparison := match c with Eq => d | _ => c end.

Lemma compare_String a s b t : String.compare (String a s) (String b t) = then_cmp (Ascii.compare a b) (String.compare s t).
Proof. cbn. by destruct (Ascii.compare a b). Qed.

Lemma compare_app p q s t : String.length p = String.length q →
  String.compare (p +:+ s) (q +:+ t) = then_cmp (String.compare p q) (String.compare s t).
Proof.
  revert q. induction p as [|a p IH]; intros [|b q]; try done. intros [= H].
  change (String a p +:+ s) with (String a (p +:+ s)). change (String b q +:+ t) with (String b (q +:+ t)).
  rewrite !compare_String, IH by done. by destruct (Ascii.compare a b).
Qed.

Lemma compare_digit a b : 0 ≤ a < 10 → 0 ≤ b < 10 → Ascii.compare (digit a) (digit b) = (a ?= b).
Proof. intros Ha Hb. unfold Ascii.compare, digit. rewrite !Ascii.N_ascii_embedding by lia. rewrite <-N2Z.inj_compare, !Z2N.id by lia.
  destruct (Z.compare_spec a b); [by subst; apply Z.compare_refl|by apply Z.compare_lt_iff; lia|by apply Z.compare_gt_iff; lia].
Qed.

Lemma length_pad w n : String.length (pad w n) = w.
Proof. induction w; cbn; congruence. Qed.

(** A number with a digit more. *)
Lemma compare_split p a b c d : 0 ≤ b < p → 0 ≤ d < p → ((a * p + b) ?= (c * p + d)) = then_cmp (a ?= c) (b ?= d).
Proof.
  intros Hb Hd. destruct (Z.compare_spec a c) as [->|H|H]; cbn.
  - destruct (Z.compare_spec b d); [subst; apply Z.compare_refl|apply Z.compare_lt_iff; lia|apply Z.compare_gt_iff; lia].
  - apply Z.compare_lt_iff. nia.
  - apply Z.compare_gt_iff. nia.
Qed.

Lemma compare_pad w a b : String.compare (pad w a) (pad w b) = (a `mod` 10 ^ Z.of_nat w ?= b `mod` 10 ^ Z.of_nat w).
Proof.
  induction w as [|w IH]; [by rewrite !Z.mod_1_r|].
  cbn [pad]. rewrite compare_String, IH, compare_digit by (apply Z.mod_pos_bound; lia).
  assert (∀ n, n `mod` 10 ^ Z.of_nat (S w) = (n `div` 10 ^ Z.of_nat w) `mod` 10 * 10 ^ Z.of_nat w + n `mod` 10 ^ Z.of_nat w) as E.
  { intros n. replace (Z.of_nat (S w)) with (Z.of_nat w + 1) by lia. rewrite Z.pow_add_r, Z.pow_1_r by lia.
    rewrite Z.rem_mul_r by lia. lia. }
  rewrite !E. symmetry. apply compare_split; apply Z.mod_pos_bound; lia.
Qed.

(** *** The calendar *)

Lemma year_of_spec day : days_before_year (year_of day) ≤ day < days_before_year (year_of day + 1).
Proof.
  unfold year_of. remember (day `div` 146097) as a eqn:Ea. remember (day `mod` 146097) as r eqn:Er.
  assert (day = 146097 * a + r ∧ 0 ≤ r < 146097) as [Hday Hr] by (subst a r; Z.div_mod_to_equations; lia). clear Ea Er. subst day.
  remember (Z.min 3 (r `div` 36524)) as b eqn:Eb. remember (r - 36524 * b) as r2 eqn:Er2.
  assert (0 ≤ b ≤ 3 ∧ 0 ≤ r2 ∧ (b < 3 → r2 < 36524) ∧ r2 ≤ 36524 ∧ r = 36524 * b + r2) as (Hb & Hr2 & Hr2' & Hr2'' & Hrr)
    by (subst b r2; Z.div_mod_to_equations; lia). clear Eb Er2. subst r.
  remember (r2 `div` 1461) as c eqn:Ec. remember (r2 `mod` 1461) as r3 eqn:Er3.
  assert (0 ≤ c ≤ 24 ∧ 0 ≤ r3 < 1461 ∧ r2 = 1461 * c + r3) as (Hc & Hr3 & Hrr) by (subst c r3; Z.div_mod_to_equations; lia).
  clear Ec Er3. subst r2. remember (Z.min 3 (r3 `div` 365)) as e eqn:Ee.
  assert (0 ≤ e ≤ 3 ∧ 365 * e ≤ r3 ∧ (e < 3 → r3 < 365 * e + 365) ∧ r3 ≤ 1460) as (He & He1 & He2 & He3)
    by (subst e; Z.div_mod_to_equations; lia). clear Ee.
  unfold days_before_year.
  replace (400 * a + 100 * b + 4 * c + e + 1 - 1) with (400 * a + 100 * b + 4 * c + e) by lia.
  replace (400 * a + 100 * b + 4 * c + e + 1 + 1 - 1) with (400 * a + 100 * b + 4 * c + e + 1) by lia.
  split; Z.div_mod_to_equations; lia.
Qed.

Lemma days_before_year_mono y y' : y ≤ y' → days_before_year y ≤ days_before_year y'.
Proof. unfold days_before_year. intros. Z.div_mod_to_equations. lia. Qed.

Lemma year_length y : days_before_year (y + 1) - days_before_year y = if leap y then 366 else 365.
Proof.
  unfold days_before_year, leap. replace (y + 1 - 1) with y by lia.
  repeat case_bool_decide; cbn; Z.div_mod_to_equations; lia.
Qed.

Lemma year_of_unique y d : days_before_year y ≤ d < days_before_year (y + 1) → year_of d = y.
Proof.
  intros H. pose proof (year_of_spec d) as H'.
  destruct (Z.lt_trichotomy (year_of d) y) as [Hlt|[?|Hlt]]; [|done|].
  - pose proof (days_before_year_mono (year_of d + 1) y). lia.
  - pose proof (days_before_year_mono (y + 1) (year_of d)). lia.
Qed.

Lemma month_from_lt m ls a b : a < b →
  (month_from m ls a).1 < (month_from m ls b).1 ∨
  (month_from m ls a).1 = (month_from m ls b).1 ∧ (month_from m ls a).2 < (month_from m ls b).2.
Proof.
  revert m a b. induction ls as [|n ls IH]; intros m a b H; cbn [month_from]; [right; cbn; lia|].
  repeat case_decide; cbn; try lia; [|apply IH; lia].
  left. assert (∀ k ls c, k ≤ (month_from k ls c).1) as Hge.
  { clear. intros k ls. revert k. induction ls as [|n ls IH]; intros k c; cbn; [lia|]. case_decide; cbn; [lia|].
    specialize (IH (k + 1) (c - n)). lia. }
  specialize (Hge (m + 1) ls (b - n)). lia.
Qed.

(** The order of dates is that of days. *)
Lemma civil_lt a b : a < b →
  (civil a).1 < (civil b).1 ∨
  (civil a).1 = (civil b).1 ∧ ((civil a).2.1 < (civil b).2.1 ∨ (civil a).2.1 = (civil b).2.1 ∧ (civil a).2.2 < (civil b).2.2).
Proof.
  intros H. unfold civil. cbn [fst snd]. pose proof (year_of_spec a). pose proof (year_of_spec b).
  destruct (Z.lt_trichotomy (year_of a) (year_of b)) as [Hlt|[E|Hlt]]; [by left| |].
  - right. split; [done|]. rewrite E. apply month_from_lt. lia.
  - pose proof (days_before_year_mono (year_of b + 1) (year_of a)). lia.
Qed.

Lemma month_from_spec m ls n : Forall (λ k, 0 < k) ls → 0 ≤ n < sum ls →
  let '(m', d) := month_from m ls n in
  m ≤ m' < m + Z.of_nat (length ls) ∧ sum (take (Z.to_nat (m' - m)) ls) + (d - 1) = n ∧
  1 ≤ d ≤ nth (Z.to_nat (m' - m)) ls 0.
Proof.
  intros Hls. unfold sum. revert m n. induction Hls as [|k ls Hk _ IH]; intros m n Hn; [cbn in Hn; lia|].
  cbn [foldr] in Hn. cbn [month_from length]. case_decide.
  - rewrite Z.sub_diag. change (Z.to_nat 0) with 0%nat. cbn [take nth foldr]. lia.
  - specialize (IH (m + 1) (n - k)). destruct (month_from _ _ _) as [m' d]. destruct IH as (H1 & H2 & H3); [lia|].
    split; [lia|]. replace (Z.to_nat (m' - m)) with (S (Z.to_nat (m' - (m + 1)))) by lia. cbn [take foldr nth]. lia.
Qed.

Lemma month_lengths_ok y : Forall (λ k, 28 ≤ k ≤ 31) (month_lengths y) ∧
  sum (month_lengths y) = days_before_year (y + 1) - days_before_year y.
Proof. rewrite year_length. unfold month_lengths. destruct (leap y); split; try (repeat constructor; lia); reflexivity. Qed.

(** The date of a day, and the day of the date. *)
Lemma civil_spec d :
  let '(y, (m, dd)) := civil d in
  1 ≤ m ≤ 12 ∧ 1 ≤ dd ≤ nth (Z.to_nat (m - 1)) (month_lengths y) 0 ∧ day_of y m dd = d ∧
  days_before_year y ≤ d < days_before_year (y + 1).
Proof.
  unfold civil. pose proof (year_of_spec d) as Hy. set (y := year_of d) in *. destruct (month_lengths_ok y) as [Hl Hs].
  pose proof (month_from_spec 1 (month_lengths y) (d - days_before_year y)) as H.
  destruct (month_from _ _ _) as [m dd]. destruct H as (H1 & H2 & H3).
  - eapply Forall_impl; [exact Hl|]. cbn. lia.
  - lia.
  - change (length (month_lengths y)) with 12%nat in H1. unfold day_of. split_and!; lia.
Qed.

(** *** The texts *)

(** Times of the years 1 to 9999. *)
Definition written (t : time) : Prop := zero_time ≤ t < 253402300800 * billion.

Lemma written_day t : written t → 0 ≤ day t < 3652059.
Proof. unfold written, zero_time, day, seconds, billion, epoch_day. intros. Z.div_mod_to_equations. lia. Qed.

Lemma written_year t : written t → 1 ≤ (civil (day t)).1 ≤ 9999.
Proof.
  intros H%written_day. unfold civil. cbn [fst]. pose proof (year_of_spec (day t)) as Hy.
  assert (year_of (day t) < 1 → days_before_year (year_of (day t) + 1) ≤ days_before_year 1) by (intros; apply days_before_year_mono; lia).
  assert (9999 < year_of (day t) → days_before_year 10000 ≤ days_before_year (year_of (day t))) by (intros; apply days_before_year_mono; lia).
  change (days_before_year 1) with 0 in *. change (days_before_year 10000) with 3652059 in *. lia.
Qed.

Lemma compare_cons c s t : String.compare (String c s) (String c t) = String.compare s t.
Proof.
  rewrite compare_String. unfold Ascii.compare. by rewrite N.compare_refl.
Qed.

(** The parts of a date that are written with two digits. *)
Lemma civil_small d : 1 ≤ (civil d).2.1 ≤ 12 ∧ 1 ≤ (civil d).2.2 ≤ 31.
Proof.
  pose proof (civil_spec d) as H. destruct (civil d) as [y [m dd]]. destruct H as (Hm & Hd & _). cbn. split; [lia|].
  destruct (month_lengths_ok y) as [Hl _]. rewrite Forall_lookup in Hl.
  destruct (lookup_lt_is_Some_2 (month_lengths y) (Z.to_nat (m - 1))) as [k Hk]; [cbn; lia|].
  rewrite (nth_lookup_Some _ _ _ _ Hk) in Hd. specialize (Hl _ _ Hk). cbn in Hl. lia.
Qed.

Lemma clock_compare s s' : 0 ≤ s < 86400 → 0 ≤ s' < 86400 →
  then_cmp ((s `div` 3600) `mod` 100 ?= (s' `div` 3600) `mod` 100)
    (then_cmp (((s `div` 60) `mod` 60) `mod` 100 ?= ((s' `div` 60) `mod` 60) `mod` 100) ((s `mod` 60) `mod` 100 ?= (s' `mod` 60) `mod` 100)) =
  (s ?= s').
Proof.
  intros H H'.
  assert (∀ x, 0 ≤ x < 86400 → x = x `div` 3600 * 3600 + ((x `div` 60) `mod` 60 * 60 + x `mod` 60) ∧
    0 ≤ (x `div` 60) `mod` 60 * 60 + x `mod` 60 < 3600 ∧ (x `div` 3600) `mod` 100 = x `div` 3600 ∧
    ((x `div` 60) `mod` 60) `mod` 100 = (x `div` 60) `mod` 60 ∧ (x `mod` 60) `mod` 100 = x `mod` 60) as E
    by (intros; split_and!; Z.div_mod_to_equations; lia).
  destruct (E s H) as (E1 & B1 & -> & -> & ->), (E s' H') as (E2 & B2 & -> & -> & ->).
  transitivity ((s `div` 3600 * 3600 + ((s `div` 60) `mod` 60 * 60 + s `mod` 60)) ?=
                (s' `div` 3600 * 3600 + ((s' `div` 60) `mod` 60 * 60 + s' `mod` 60))); [|by rewrite <-E1, <-E2].
  rewrite !compare_split; try done; apply Z.mod_pos_bound; lia.
Qed.

Lemma stamp_compare a b : written a → written b → String.length (stamp a) = String.length (stamp b) ∧
  String.compare (stamp a) (stamp b) =
    then_cmp ((civil (day a)).1 ?= (civil (day b)).1)
      (then_cmp ((civil (day a)).2.1 ?= (civil (day b)).2.1)
         (then_cmp ((civil (day a)).2.2 ?= (civil (day b)).2.2) (clock a ?= clock b))).
Proof.
  intros Ha%written_year Hb%written_year. unfold stamp. pose proof (civil_small (day a)) as Sa. pose proof (civil_small (day b)) as Sb.
  destruct (civil (day a)) as [y [m d]], (civil (day b)) as [y' [m' d']]. cbn [fst snd] in *.
  unfold year_text. rewrite !decide_True by lia. rewrite !length_str_app, !length_pad. split; [done|].
  assert (0 ≤ clock a < 86400) as Ca by (apply Z.mod_pos_bound; lia). assert (0 ≤ clock b < 86400) as Cb by (apply Z.mod_pos_bound; lia).
  repeat (rewrite compare_app by (by rewrite ?length_pad)). rewrite !compare_pad.
  change (10 ^ Z.of_nat 4) with 10000. change (10 ^ Z.of_nat 2) with 100.
  rewrite (Z.mod_small y), (Z.mod_small y'), (Z.mod_small m), (Z.mod_small m'), (Z.mod_small d), (Z.mod_small d') by lia.
  change (String.compare "-" "-") with Eq. change (String.compare "T" "T") with Eq. change (String.compare ":" ":") with Eq.
  cbn [then_cmp]. do 3 f_equal.
  by apply clock_compare.
Qed.

(** Up to a second, the order of the texts is that of the times. *)
Lemma stamp_lt a b : written a → written b → seconds a < seconds b → String.compare (stamp a) (stamp b) = Lt.
Proof.
  intros Ha Hb Hs. rewrite (proj2 (stamp_compare a b Ha Hb)).
  assert (day a < day b ∨ day a = day b ∧ clock a < clock b) as [H%civil_lt|[-> H]].
  { unfold day, clock. Z.div_mod_to_equations. lia. }
  - destruct H as [->%Z.compare_lt_iff|[-> [->%Z.compare_lt_iff|[-> ->%Z.compare_lt_iff]]]]; by rewrite ?Z.compare_refl.
  - rewrite !Z.compare_refl. by apply Z.compare_lt_iff.
Qed.

Lemma texts_ordered a b : written a → written b → seconds a < seconds b →
  String.compare (RFC3339Nano a) (RFC3339Nano b) = Lt.
Proof.
  intros Ha Hb Hs. unfold RFC3339Nano. rewrite compare_app by by apply stamp_compare. by rewrite stamp_lt.
Qed.

(** *** Reading back *)

Lemma digit_value_digit d : 0 ≤ d < 10 → digit_value (digit d) = Some d.
Proof.
  intros H. unfold digit_value, digit, char_val. rewrite Ascii.N_ascii_embedding by lia. rewrite Z2N.id by lia.
  replace (48 + d - 48) with d by lia. by rewrite !bool_decide_true by lia.
Qed.

Lemma number_pad w acc n s : number w acc (pad w n +:+ s) = Some (acc * 10 ^ Z.of_nat w + n `mod` 10 ^ Z.of_nat w, s).
Proof.
  revert acc. induction w as [|w IH]; intros acc.
  { cbn [number pad]. change (10 ^ Z.of_nat 0) with 1. rewrite Z.mod_1_r. do 2 f_equal. lia. }
  cbn [pad]. change (String ?c ?p +:+ s) with (String c (p +:+ s)). cbn [number].
  rewrite digit_value_digit by (apply Z.mod_pos_bound; lia). cbn [mbind option_bind]. rewrite IH. do 2 f_equal.
  replace (Z.of_nat (S w)) with (Z.of_nat w + 1) by lia. rewrite Z.pow_add_r, Z.pow_1_r by lia. rewrite Z.rem_mul_r by lia. nia.
Qed.

Lemma number_text w n s : 0 ≤ n < 10 ^ Z.of_nat w → number w 0 (pad w n +:+ s) = Some (n, s).
Proof. intros H. rewrite number_pad, Z.mod_small by done. done. Qed.

Lemma digit_run_pad w n s : digit_run s = ("", s) → digit_run (pad w n +:+ s) = (pad w n, s).
Proof.
  intros Hs. induction w as [|w IH]; [done|]. cbn [pad]. change (String ?c ?p +:+ s) with (String c (p +:+ s)). cbn [digit_run].
  rewrite digit_value_digit by (apply Z.mod_pos_bound; lia). by rewrite IH.
Qed.

(** A fraction is its digits without the zeros. *)
Lemma fraction_from_spec fuel w n : (w ≤ fuel)%nat → 0 < n < 10 ^ Z.of_nat w →
  ∃ k v, (1 ≤ k ≤ w)%nat ∧ fraction_from fuel w n = pad k v ∧ 0 ≤ v < 10 ^ Z.of_nat k ∧ v * 10 ^ Z.of_nat (w - k) = n.
Proof.
  revert w n. induction fuel as [|fuel IH]; intros w n Hw Hn.
  { replace w with 0%nat in Hn by lia. cbn in Hn. lia. }
  cbn [fraction_from]. destruct w as [|w]; [cbn in Hn; lia|]. case_decide as H.
  - destruct (IH w (n `div` 10)) as (k & v & Hk & Hf & Hv & E); [lia| |].
    { replace (Z.of_nat (S w)) with (1 + Z.of_nat w) in Hn by lia. rewrite Z.pow_add_r, Z.pow_1_r in Hn by lia.
      split; [Z.div_mod_to_equations; lia|]. apply Z.div_lt_upper_bound; lia. }
    exists k, v. split; [lia|]. replace (S w - 1)%nat with w by lia. split; [done|]. split; [done|].
    replace (Z.of_nat (S w - k)) with (1 + Z.of_nat (w - k)) by lia. rewrite Z.pow_add_r, Z.pow_1_r by lia.
    transitivity (10 * (v * 10 ^ Z.of_nat (w - k))); [lia|]. rewrite E. Z.div_mod_to_equations. lia.
  - exists (S w), n. split; [lia|]. split; [done|]. split; [lia|]. rewrite Nat.sub_diag. lia.
Qed.

Lemma nanoseconds_fraction n : 0 ≤ n < billion → nanoseconds (fraction n +:+ "Z") = (n, "Z").
Proof.
  intros Hn. unfold fraction. case_decide as H; [by subst|].
  destruct (fraction_from_spec 9 9 n) as (k & v & Hk & -> & Hv & E); [lia|unfold billion in Hn; lia|].
  rewrite str_app_assoc. change ("." +:+ pad k v +:+ "Z") with (String (Ascii.ascii_of_N 46) (pad k v +:+ "Z")). cbn [nanoseconds].
  rewrite digit_run_pad by done. rewrite (bool_decide_true (pad k v ≠ "")) by (destruct k; [lia|done]).
  change ((bool_decide (char_val (Ascii.ascii_of_N 46) = 46) || bool_decide (char_val (Ascii.ascii_of_N 46) = 44)) && true) with true.
  cbv iota zeta. rewrite length_pad. replace (Nat.min 9 k) with k by lia.
  rewrite <-(String_app_nil_r (pad k v)), number_text by done. cbn [from_option fst]. f_equal. rewrite <-E. do 2 f_equal. lia.
Qed.

Lemma Parse_RFC3339Nano t : written t → Parse (RFC3339Nano t) = Some t.
Proof.
  intros H. pose proof (written_year t H) as Hy. pose proof (civil_small (day t)) as Hs. pose proof (civil_spec (day t)) as Hc.
  unfold RFC3339Nano, stamp. destruct (civil (day t)) as [y [m d]]. cbn [fst snd] in *. destruct Hc as (Hm & Hd & Hday & _).
  assert (0 ≤ clock t < 86400) as Hclock by (apply Z.mod_pos_bound; lia).
  remember (clock t) as s eqn:Es. unfold year_text. rewrite decide_True by lia. unfold Parse, hour. rewrite !str_app_assoc.
  repeat (rewrite number_text by (change (10 ^ Z.of_nat 4) with 10000; change (10 ^ Z.of_nat 2) with 100; Z.div_mod_to_equations; lia); cbn [mbind option_bind];
          try (rewrite CutPrefix_app; cbn [mbind option_bind])).
  rewrite nanoseconds_fraction by (by apply Z.mod_pos_bound). cbn [mbind option_bind]. change (zone "Z") with (Some (0, "")).
  cbn [mbind option_bind]. rewrite !bool_decide_true by (try done; Z.div_mod_to_equations; lia). cbn [andb]. f_equal.
  rewrite Hday. subst s. unfold day, clock, seconds, billion. Z.div_mod_to_equations. lia.
Qed.

(** Different times have different texts. *)
Lemma RFC3339Nano_inj a b : written a → written b → RFC3339Nano a = RFC3339Nano b → a = b.
Proof. intros Ha Hb E. apply (f_equal Parse) in E. rewrite !Parse_RFC3339Nano in E by done. by injection E. Qed.
