(* ===== verification/ManagerMain.v ===== *)
(** * The manager process

    [src/cmd/manager/main.go]: its settings, the embedded authorization server,
    the verifier of access tokens, and the MCP endpoint in front of the tools:
    who is let in, for which account tools are listed and called, and how many
    requests run at a time.

    Parsing of URLs, hashing of passwords and the bearer-token middleware of the
    MCP library are parameters. *)

From S2P Require Import Prelude Entities GoStrings GoPath OAuthVerifier ToolSurface.
From S2P Require AuthServer DeviceAuth GrpcAgent Search.
Open Scope Z_scope.

Definition comma : Ascii.ascii := Ascii.ascii_of_N 44.

(** [strings.TrimRight(s, "/")]. *)
Definition TrimRight_slash (s : string) : string :=
  String.string_of_list_ascii (reverse (GrpcAgent.drop_slashes (reverse (String.list_ascii_of_string s)))).

Record url : Type := { u_Scheme : string; u_Hostname : string; u_Path : string; u_RawQuery : string; u_Fragment : string }.
(** [url.Parse], and whether a host is an IP address of the loopback. *)
Record net_lib : Type := { net_Parse : string → option url; net_loopback : string → bool }.
(** The part of it that the verifier uses. *)
Definition verifier_urls (n : net_lib) : url_lib := {|
  url_parse s := (λ u, (u_Scheme u, u_Hostname u)) <$> net_Parse n s; loopback_ip := net_loopback n |}.

Inductive main_err : Type :=
| EMissingSettings | EScope | EPublicURL | EResource | EValueTooLong | ETooManyValues
| EAccountEntry | EAccountEquals | ESubjectTooLong | EAccountTooLong | EDuplicateSubject | ETooManyEntries
| EInteger (name : string) | EIssuerHTTPS | EUserEntry | EHash | EAuthServer | EVerifier (e : verify_err).

(** ** Settings *)

Record oauthConfig : Type := {
  oc_PublicURL : string; oc_Resource : string; oc_Issuer : string; oc_JWKSURL : string; oc_Scope : string;
  oc_AllowedSubjects : list string
}.

(** The end that [validateResourceURI] and [validatePublicURL] share. *)
Definition https_or_loopback (n : net_lib) (u : url) : bool :=
  bool_decide (u_Scheme u = "https") ||
  (bool_decide (u_Scheme u = "http") && (bool_decide (u_Hostname u = "localhost") || net_loopback n (u_Hostname u))).
Definition validateResourceURI (n : net_lib) (raw : string) : bool :=
  match net_Parse n raw with
  | Some u => bool_decide (u_Hostname u ≠ "") && bool_decide (u_Fragment u = "") && https_or_loopback n u
  | None => false
  end.
Definition validatePublicURL (n : net_lib) (raw : string) : bool :=
  match net_Parse n raw with
  | Some u => bool_decide (u_Hostname u ≠ "") && bool_decide (u_RawQuery u = "") && bool_decide (u_Fragment u = "") &&
              (bool_decide (u_Path u = "") || bool_decide (u_Path u = "/")) && https_or_loopback n u
  | None => false
  end.

Fixpoint csv_values (parts : list string) (maxItems maxLen : Z) (out : list string) : result main_err (list string) :=
  match parts with
  | [] => Ok out
  | part :: parts =>
      let value := TrimSpace part in
      if decide (value = "") then csv_values parts maxItems maxLen out
      else if decide (maxLen < Z.of_nat (String.length value)) then Err EValueTooLong
      else if decide (value ∈ out) then csv_values parts maxItems maxLen out
      else
        let out := out ++ [value] in
        if decide (maxItems < Z.of_nat (length out)) then Err ETooManyValues else csv_values parts maxItems maxLen out
  end.
Definition parseCSVValues (raw : string) (maxItems maxLen : Z) : result main_err (list string) :=
  if decide (TrimSpace raw = "") then Ok [] else csv_values (Split comma raw) maxItems maxLen [].

Fixpoint account_entries (parts : list string) (out : gmap string string) : result main_err (gmap string string) :=
  match parts with
  | [] => Ok out
  | part :: parts =>
      let part := TrimSpace part in
      if decide (part = "") then account_entries parts out
      else
        let '(subject, account, found) :=
          match Cut part "=" with Some (s, a) => (TrimSpace s, TrimSpace a, true) | None => (part, "", false) end in
        if negb found || bool_decide (subject = "") || bool_decide (account = "") then Err EAccountEntry
        else if Contains account "=" then Err EAccountEquals
        else if decide (256 < Z.of_nat (String.length subject)) then Err ESubjectTooLong
        else if decide (128 < Z.of_nat (String.length account)) then Err EAccountTooLong
        else
          match out !! subject with
          | Some _ => Err EDuplicateSubject
          | None =>
              let out := <[subject := account]> out in
              if decide (100 < Z.of_nat (size out)) then Err ETooManyEntries else account_entries parts out
          end
  end.
Definition parseAccountMap (raw : string) : result main_err (gmap string string) :=
  let raw := TrimSpace raw in
  if decide (raw = "") then Ok ∅ else account_entries (Split comma raw) ∅.

Section settings.
Context (n : net_lib) (getenv : string → string).

Definition env (k def : string) : string := if decide (getenv k ≠ "") then getenv k else def.
Definition envOrDefault (k def : string) : string := let v := TrimSpace (getenv k) in if decide (v ≠ "") then v else def.
Definition envInt (k : string) (def min max : Z) : result main_err Z :=
  let raw := TrimSpace (getenv k) in
  if decide (raw = "") then Ok def
  else
    match Search.Atoi_ok raw with
    | Some v => if bool_decide (v < min) || bool_decide (max < v) then Err (EInteger k) else Ok v
    | None => Err (EInteger k)
    end.

Definition public_url : string := TrimRight_slash (TrimSpace (getenv "CODEBRIDGE_PUBLIC_URL")).
Definition setting (k : string) : string := TrimSpace (getenv k).

Definition loadOAuthConfig : result main_err (option oauthConfig) :=
  let publicURL := public_url in
  let issuer := setting "CODEBRIDGE_OAUTH_ISSUER" in
  let jwksURL := setting "CODEBRIDGE_OAUTH_JWKS_URL" in
  let resource := setting "CODEBRIDGE_OAUTH_RESOURCE" in
  let scope := TrimSpace (env "CODEBRIDGE_OAUTH_SCOPE" "codebridge.read") in
  let allowedRaw := setting "CODEBRIDGE_OAUTH_ALLOWED_SUBJECTS" in
  let asEnabled := bool_decide (setting "CODEBRIDGE_AS_ADMIN_PASSWORD" ≠ "") || bool_decide (setting "CODEBRIDGE_AS_USERS" ≠ "") in
  let own := asEnabled && bool_decide (issuer = "") && bool_decide (jwksURL = "") in
  let issuer := if own then publicURL else issuer in
  let jwksURL := if own then publicURL +:+ "/jwks.json" else jwksURL in
  if bool_decide (publicURL = "") && bool_decide (issuer = "") && bool_decide (jwksURL = "") && bool_decide (resource = "") &&
     bool_decide (allowedRaw = "") then Ok None
  else if bool_decide (publicURL = "") || bool_decide (issuer = "") || bool_decide (jwksURL = "") then Err EMissingSettings
  else
    let resource := if decide (resource = "") then publicURL else resource in
    if bool_decide (scope = "") || bool_decide (length (Fields scope) ≠ 1%nat) then Err EScope
    else if negb (validatePublicURL n publicURL) then Err EPublicURL
    else if negb (validateResourceURI n resource) then Err EResource
    else
      match parseCSVValues allowedRaw 100 256 with
      | Err e => Err e
      | Ok allowed =>
          Ok (Some {| oc_PublicURL := publicURL; oc_Resource := resource; oc_Issuer := issuer; oc_JWKSURL := jwksURL;
                      oc_Scope := scope; oc_AllowedSubjects := allowed |})
      end.

(** The users of the embedded authorization server: one administrator with a
    password, hashed at the start ([hash]), or a list. *)
Fixpoint user_entries (pairs : list string) (users : gmap string string) : result main_err (gmap string string) :=
  match pairs with
  | [] => Ok users
  | entry :: pairs =>
      match Cut (TrimSpace entry) ":" with
      | Some (user, hash) =>
          if bool_decide (user = "") || bool_decide (hash = "") then Err EUserEntry else user_entries pairs (<[user := hash]> users)
      | None => Err EUserEntry
      end
  end.
Definition embedded_config (hash : string → option string) : result main_err (option AuthServer.Config) :=
  let password := setting "CODEBRIDGE_AS_ADMIN_PASSWORD" in
  let users := setting "CODEBRIDGE_AS_USERS" in
  if bool_decide (password = "") && bool_decide (users = "") then Ok None
  else
    match (if bool_decide (password ≠ "") && bool_decide (users = "") then (λ h, "admin:" +:+ h) <$> hash password else Some users) with
    | None => Err EHash
    | Some raw =>
        if negb (HasPrefix public_url "https://") then Err EIssuerHTTPS
        else
          match user_entries (Split comma raw) ∅ with
          | Err e => Err e
          | Ok users => Ok (Some {| AuthServer.Issuer := public_url; AuthServer.Resource := public_url; AuthServer.Users := users |})
          end
    end.

(** The limits of the process. *)
Record limits : Type := { l_device : Z; l_mcp : Z; l_bytes : Z; l_agents : Z; l_days : Z }.
Definition process_limits (calls_kept : bool) : result main_err limits :=
  device ← envInt "CODEBRIDGE_MAX_INFLIGHT_PER_DEVICE" 8 1 64;
  mcp ← envInt "CODEBRIDGE_MAX_MCP_INFLIGHT" 16 1 128;
  bytes ← envInt "CODEBRIDGE_MAX_MCP_REQUEST_BYTES" (1024 * 1024) (64 * 1024) (8 * 1024 * 1024);
  agents ← envInt "CODEBRIDGE_MAX_AGENT_CONNECTIONS" 32 1 512;
  days ← (if calls_kept then envInt "CODEBRIDGE_MCP_DB_RETAIN_DAYS" 30 1 3650 else Ok 0);
  mret {| l_device := device; l_mcp := mcp; l_bytes := bytes; l_agents := agents; l_days := days |}.

(** ** The start of the process *)

Record manager : Type := {
  m_embedded : option AuthServer.Server; m_oauth : option (oauthConfig * Verifier); m_accounts : gmap string string;
  m_token : string; m_limits : limits
}.

(** [main] up to its endpoints, in its order; [now] and [stored] are for the
    authorization server. *)
Definition start (hash : string → option string) (now : time)
    (stored : option (option (gmap string AuthServer.dcrClient) * option (gmap string AuthServer.refreshGrant))) (calls_kept : bool) :
    result main_err manager :=
  as_config ← embedded_config hash;
  embedded ← (match as_config with
              | None => Ok None
              | Some c => match AuthServer.New now c stored with Ok s => Ok (Some s) | Err _ => Err EAuthServer end
              end);
  oauth ← loadOAuthConfig;
  lim ← process_limits calls_kept;
  accounts ← parseAccountMap (getenv "CODEBRIDGE_OAUTH_ACCOUNT_MAP");
  verifier ← (match oauth with
              | None => Ok None
              | Some c => match New (verifier_urls n) {| v_Issuer := oc_Issuer c; v_Audience := oc_Resource c; v_JWKSURL := oc_JWKSURL c;
                                                        v_AllowedSubjects := oc_AllowedSubjects c |} with
                          | Ok v => Ok (Some (c, v))
                          | Err e => Err (EVerifier e)
                          end
              end);
  mret {| m_embedded := embedded; m_oauth := verifier; m_accounts := accounts; m_token := getenv "CODEBRIDGE_MCP_TOKEN"; m_limits := lim |}.
End settings.

(** ** The endpoint *)

(** What the code uses of the bearer middleware: the token of an Authorization
    header, and whether a verified token has the scopes and time it needs. *)
Record bearer_lib : Type := {
  bearer_token : string → option string;
  bearer_admits : list string → time → TokenInfo → bool
}.

Record mcp_request : Type := { mr_Authorization : string; mr_ContentLength : Z }.

(** A request is refused, or reaches the tools: those listed are of the account
    [surface], those called run for the account [caller]. *)
Inductive mcp_answer : Type :=
| TooLarge | TooMany | Unauthorized | Forbidden
| Reached (surface caller : string).

Definition optionalBearer (token : string) (r : mcp_request) : bool :=
  bool_decide (token = "") || bool_decide (TrimSpace (GrpcAgent.TrimPrefix (mr_Authorization r) "Bearer ") = token).

Section endpoint.
Context (b : bearer_lib) (m : manager).
(** [Verify] as the middleware calls it, and when it is called again for the
    list of tools. *)
Context (verify again : Verifier → string → result verify_err TokenInfo) (now : time).

Definition AccountFromRequest (r : mcp_request) : string :=
  match m_oauth m with
  | None => DeviceAuth.DefaultAccount
  | Some (_, v) =>
      match again v (TrimSpace (GrpcAgent.TrimPrefix (mr_Authorization r) "Bearer ")) with
      | Err _ => DeviceAuth.DefaultAccount
      | Ok info => ForSubject (Some (m_accounts m)) (ti_UserID info)
      end
  end.

(** [protectedMCP]. *)
Definition protected (r : mcp_request) : mcp_answer :=
  match m_oauth m with
  | Some (c, v) =>
      match bearer_token b (mr_Authorization r) with
      | None => Unauthorized
      | Some token =>
          match verify v token with
          | Err _ => Unauthorized
          | Ok info =>
              if bearer_admits b [oc_Scope c] now info
              then Reached (AccountFromRequest r) (accountFor (Some (m_accounts m)) (Some (ti_UserID info)))
              else Forbidden
          end
      end
  | None =>
      if optionalBearer (m_token m) r then Reached (AccountFromRequest r) (accountFor (Some (m_accounts m)) None) else Unauthorized
  end.

(** [limitMCP]: a request begins, with the number of those that run; it ends. *)
Definition limit_begin (r : mcp_request) (inflight : Z) : mcp_answer * Z :=
  if decide (l_bytes (m_limits m) < mr_ContentLength r) then (TooLarge, inflight)
  else if decide (l_mcp (m_limits m) ≤ inflight) then (TooMany, inflight)
  else (protected r, inflight + 1).
Definition limit_end (inflight : Z) : Z := inflight - 1.
End endpoint.
