(* ===== verification/ManagerSpec.v ===== *)
(** * What the manager process promises

    Who reaches the tools, for which account; that the embedded authorization
    server and the verifier of the same process agree; and what the map of
    subjects to accounts means. *)

From S2P Require Import Prelude Entities GoStrings GoPath Json OAuthVerifier ToolSurface OAuthSpec ManagerMain.
From S2P Require AuthServer DeviceAuth GrpcAgent Search.
Open Scope Z_scope.

(** ** Words *)

Lemma graphic_no_space l : Forall graphic l → no_space (char_val <$> l) [].
Proof.
  intros H k Hk. rewrite app_nil_r. rewrite length_fmap in Hk. rewrite <-fmap_drop.
  destruct (drop k l) as [|c rest] eqn:E. { apply (f_equal length) in E. rewrite length_drop in E. cbn in E. lia. }
  cbn [fmap list_fmap]. apply space_width_graphic. rewrite Forall_forall in H. apply H.
  rewrite <-(take_drop k l), E. apply elem_of_app. right. by left.
Qed.

Definition graphic_string (s : string) : Prop := Forall graphic (String.list_ascii_of_string s).

Lemma TrimSpace_graphic s : graphic_string s → TrimSpace s = s.
Proof.
  intros H. rewrite <-(String.string_of_list_ascii_of_string s) at 1.
  rewrite TrimSpace_word by (by apply graphic_no_space). apply String.string_of_list_ascii_of_string.
Qed.

Lemma graphic_app s t : graphic_string s → graphic_string t → graphic_string (s +:+ t).
Proof. unfold graphic_string. rewrite list_ascii_app. intros. by apply Forall_app. Qed.

(** The header that the middleware takes a token from is read back as it. *)
Lemma bearer_header token : word token → TrimSpace (GrpcAgent.TrimPrefix ("Bearer " +:+ token) "Bearer ") = token.
Proof. intros [_ H]. unfold GrpcAgent.TrimPrefix. rewrite CutPrefix_app. by apply TrimSpace_graphic. Qed.

(** ** The start *)

Lemma bind_Ok {E A B} (f : A → result E B) r b : mbind f r = Ok b → ∃ a, r = Ok a ∧ f a = Ok b.
Proof. destruct r as [a|e]; [|discriminate]. intros H. exists a. by split. Qed.

Lemma csv_values_in parts k l out vs : csv_values parts k l out = Ok vs →
  Forall (λ x, x ≠ "" ∧ TrimSpace x = x) out → Forall (λ x, x ≠ "" ∧ TrimSpace x = x) vs.
Proof.
  revert out. induction parts as [|p parts IH]; intros out; cbn [csv_values]; [by intros [= <-]|].
  repeat case_decide; try done; intros Hcsv Hout; eapply IH; try done.
  apply Forall_app. split; [done|]. constructor; [|constructor]. split; [done|apply TrimSpace_idemp].
Qed.

Lemma start_values n getenv hash now stored kept m : start n getenv hash now stored kept = Ok m →
  (∃ as_config, embedded_config getenv hash = Ok as_config ∧
     match as_config with
     | None => m_embedded m = None
     | Some c => ∃ s, AuthServer.New now c stored = Ok s ∧ m_embedded m = Some s
     end) ∧
  process_limits getenv kept = Ok (m_limits m) ∧
  parseAccountMap (getenv "CODEBRIDGE_OAUTH_ACCOUNT_MAP") = Ok (m_accounts m) ∧
  ∃ oauth, loadOAuthConfig n getenv = Ok oauth ∧
    match oauth with
    | None => m_oauth m = None
    | Some c => ∃ v, New (verifier_urls n) {| v_Issuer := oc_Issuer c; v_Audience := oc_Resource c; v_JWKSURL := oc_JWKSURL c;
                                             v_AllowedSubjects := oc_AllowedSubjects c |} = Ok v ∧ m_oauth m = Some (c, v)
    end.
Proof.
  unfold start. intros (as_config & E1 & (embedded & E2 & (oauth & E3 & (lim & E4 & (accounts & E5 &
    (verifier & E6 & H)%bind_Ok)%bind_Ok)%bind_Ok)%bind_Ok)%bind_Ok)%bind_Ok. injection H as <-. cbn.
  split; [|split; [done|split; [done|]]].
  - eexists. split; [done|]. destruct as_config as [c|]; [|by simplify_eq]. destruct (AuthServer.New _ _ _); [|done].
    simplify_eq. by eexists.
  - eexists. split; [done|]. destruct oauth as [c|]; [|by simplify_eq]. destruct (New _ _); [|done]. simplify_eq. by eexists.
Qed.

(** *** The authorization server of the process *)

Lemma embedded_config_values getenv hash c : embedded_config getenv hash = Ok (Some c) →
  AuthServer.Issuer c = public_url getenv ∧ AuthServer.Resource c = public_url getenv ∧
  HasPrefix (public_url getenv) "https://" = true ∧
  (setting getenv "CODEBRIDGE_AS_ADMIN_PASSWORD" ≠ "" ∨ setting getenv "CODEBRIDGE_AS_USERS" ≠ "").
Proof.
  unfold embedded_config. destruct (_ && _) eqn:E; [done|].
  destruct (if (_ : bool) then _ else _) as [raw|]; [|done]. destruct (HasPrefix _ _) eqn:Hs; [|done]. cbn [negb].
  destruct (user_entries _ _); [|done]. intros [= <-]. cbn. split_and!; try done.
  apply andb_false_iff in E as [E%bool_decide_eq_false|E%bool_decide_eq_false]; tauto.
Qed.

(** Without an identity provider or a resource of its own, the endpoint trusts
    the authorization server of the process. *)
Lemma own_settings n getenv oauth :
  setting getenv "CODEBRIDGE_OAUTH_ISSUER" = "" → setting getenv "CODEBRIDGE_OAUTH_JWKS_URL" = "" →
  setting getenv "CODEBRIDGE_OAUTH_RESOURCE" = "" →
  setting getenv "CODEBRIDGE_AS_ADMIN_PASSWORD" ≠ "" ∨ setting getenv "CODEBRIDGE_AS_USERS" ≠ "" →
  public_url getenv ≠ "" → loadOAuthConfig n getenv = Ok oauth →
  ∃ c, oauth = Some c ∧ oc_Issuer c = public_url getenv ∧ oc_Resource c = public_url getenv ∧
    oc_JWKSURL c = public_url getenv +:+ "/jwks.json" ∧
    Forall (λ x, x ≠ "" ∧ TrimSpace x = x) (oc_AllowedSubjects c).
Proof.
  intros Hi Hj Hr Has Hpub. unfold loadOAuthConfig. rewrite Hi, Hj, Hr.
  assert (bool_decide (setting getenv "CODEBRIDGE_AS_ADMIN_PASSWORD" ≠ "") || bool_decide (setting getenv "CODEBRIDGE_AS_USERS" ≠ "") = true) as ->.
  { apply orb_true_iff. rewrite !bool_decide_eq_true. done. }
  change (true && bool_decide ("" = "") && bool_decide ("" = "")) with true. cbv zeta iota.
  rewrite !(bool_decide_false (public_url getenv = "")) by done. cbn [andb orb].
  rewrite (bool_decide_false (public_url getenv +:+ "/jwks.json" = "")) by (destruct (public_url getenv); done).
  rewrite (decide_True (P := "" = "")) by done.
  repeat (destruct (_ || _); [done|]). destruct (validatePublicURL _ _); [|done]. destruct (validateResourceURI _ _); [|done]. cbn [negb].
  destruct (parseCSVValues _ _ _) as [allowed|] eqn:E; [|done]. intros [= <-]. eexists. split; [done|]. cbn. split_and!; try done.
  unfold parseCSVValues in E. case_decide; [by injection E as <-|]. by eapply csv_values_in.
Qed.

Lemma New_values u c v : New u c = Ok v →
  issuer v = TrimSpace (v_Issuer c) ∧ audience v = TrimSpace (v_Audience c) ∧ jwksURL v = TrimSpace (v_JWKSURL c) ∧
  keys v = ∅ ∧ fetchedAt v = None ∧
  allowedSubjects v = list_to_set (filter (λ s, s ≠ "") (TrimSpace <$> v_AllowedSubjects c)).
Proof. unfold New. destruct (_ || _); [done|]. repeat (destruct (requireHTTPSOrLoopback _ _); [|done]). cbn [negb]. by intros [= <-]. Qed.

Lemma New_server_values now c f s : AuthServer.New now c f = Ok s → AuthServer.Resource c ≠ "" →
  AuthServer.Issuer (AuthServer.cfg s) = AuthServer.Issuer c ∧ AuthServer.Resource (AuthServer.cfg s) = AuthServer.Resource c.
Proof.
  unfold AuthServer.New. destruct (_ || _); [done|]. intros H Hr. cbv zeta in H. rewrite (decide_False (P := AuthServer.Resource c = "")) in H by done.
  case_decide; [done|]. injection H as <-. unfold AuthServer.loadStore. by repeat case_match.
Qed.

(** ** The endpoint *)

(** What the code relies on of the bearer middleware, as it is configured: it
    takes the token after the scheme, and admits a token that has the scopes
    and is not past its time. *)
Record bearer_laws (b : bearer_lib) : Prop := {
  bearer_reads token : word token → bearer_token b ("Bearer " +:+ token) = Some token;
  bearer_lets scopes now info : Forall (λ s, s ∈ ti_Scopes info) scopes → now ≤ ti_Expiration info →
    bearer_admits b scopes now info = true
}.

(** [Verify] of a request that fetches the document, and once more. *)
Section twice.
Context (jwt : jwt_lib) (decode_jwks : string → option (list jwk)) (now stored later again_at : time) (body : string).

Definition first_verify (v : Verifier) (text : string) : result verify_err TokenInfo * Verifier :=
  Verify jwt decode_jwks now stored later (HStatus 200 (Some body)) text v.
Definition second_verify (v : Verifier) (text : string) : result verify_err TokenInfo :=
  (Verify jwt decode_jwks again_at again_at again_at HFailed text (first_verify v text).2).1.
End twice.

(** C9. A login at the embedded authorization server works at the endpoint: with
    neither an identity provider nor a resource of its own in the settings, a
    manager that starts has a verifier whose issuer and audience are those of
    its authorization server, with the server's own key document as its source;
    and a token that the server issues for its resource, for an allowed subject
    and with the scope of the endpoint, is let in with the header "Bearer" for
    the hour it is valid, tools being listed and called for the account the map
    gives to the subject that logged in. *)
Theorem embedded_login_served n getenv hash now0 stored0 kept m srv :
  start n getenv hash now0 stored0 kept = Ok m → m_embedded m = Some srv →
  setting getenv "CODEBRIDGE_OAUTH_ISSUER" = "" → setting getenv "CODEBRIDGE_OAUTH_JWKS_URL" = "" →
  setting getenv "CODEBRIDGE_OAUTH_RESOURCE" = "" → TrimSpace (public_url getenv) = public_url getenv →
  ∃ c v, m_oauth m = Some (c, v) ∧
    jwksURL v = TrimSpace (AuthServer.Issuer (AuthServer.cfg srv) +:+ "/jwks.json") ∧
    ∀ b jwt decode_jwks kid rn re env t srv1 srv2 at_ refresh scope text body now stored later again_at len,
      bearer_laws b → reads_claims jwt → signed jwt kid rn re at_ text → word text →
      AuthServer.cfg srv1 = AuthServer.cfg srv → AuthServer.issueTokens env t srv1 = (srv2, AuthServer.Tokens at_ refresh scope) →
      AuthServer.tk_Resource t = AuthServer.Resource (AuthServer.cfg srv) →
      AuthServer.tk_Subject t ≠ "" → TrimSpace (AuthServer.tk_Subject t) = AuthServer.tk_Subject t →
      (oc_AllowedSubjects c = [] ∨ AuthServer.tk_Subject t ∈ oc_AllowedSubjects c) →
      Forall word (AuthServer.tk_Scopes t) → NoDup (AuthServer.tk_Scopes t) → oc_Scope c ∈ AuthServer.tk_Scopes t →
      decode_jwks (LimitReader (2 ^ 20) body) = Some (JWKS kid rn re) → kid ≠ "" → 0 < rn → 3 ≤ re < 2 ^ 32 →
      AuthServer.e_now env ≤ later ≤ again_at → later + AuthServer.second ≤ AuthServer.e_now env + AuthServer.accessTokenTTL →
      again_at < AuthServer.e_now env + AuthServer.accessTokenTTL → stored ≤ again_at ≤ stored + cacheTTL →
      let account := ForSubject (Some (m_accounts m)) (AuthServer.tk_Subject t) in
      protected b m (λ v text, (first_verify jwt decode_jwks now stored later body v text).1)
        (second_verify jwt decode_jwks now stored later again_at body) later
        {| mr_Authorization := "Bearer " +:+ text; mr_ContentLength := len |} = Reached account account.
Proof.
  intros Hstart Hemb Hi Hj Hr Hpub. apply start_values in Hstart as ((asc & Hasc & Hsrv) & _ & _ & oauth & Hload & Hver).
  destruct asc as [asc|]; [|congruence]. destruct Hsrv as (s & Hnew & Hs). rewrite Hemb in Hs. injection Hs as <-.
  apply embedded_config_values in Hasc as (Hai & Har & Hhttps & Has).
  assert (public_url getenv ≠ "") as Hne by (intros E; by rewrite E in Hhttps).
  apply (own_settings n) in Hload as (c & -> & Hci & Hcr & Hcj & Hallowed); try done.
  destruct Hver as (v & Hv & Hm). apply New_server_values in Hnew as [Hsi Hsr]; [|congruence].
  apply New_values in Hv as (Hvi & Hva & Hvj & Hvk & Hvf & Hvs). cbn [v_Issuer v_Audience v_JWKSURL v_AllowedSubjects] in Hvi, Hva, Hvj, Hvs.
  exists c, v. split; [done|]. split; [by rewrite Hvj, Hcj, Hsi, Hai|].
  intros b jwt decode_jwks kid rn re env t srv1 srv2 at_ refresh scope text body now stored later again_at len
    Hb Hclaims Hsigned Hword Hcfg Hissue Hres Hsub Htrim Hallow Hscopes Hnd Hin Hdoc Hkid Hn He Ht1 Ht2 Ht3 Ht4 account.
  assert (issuer v = AuthServer.Issuer (AuthServer.cfg srv1)) as Hiss by congruence.
  assert (audience v = AuthServer.tk_Resource t) as Haud by congruence.
  assert (allowedSubjects v = ∅ ∨ AuthServer.tk_Subject t ∈ allowedSubjects v) as Hall.
  { rewrite Hvs. destruct Hallow as [->|Hall]; [by left|right]. rewrite elem_of_list_to_set, list_elem_of_filter.
    split; [done|]. rewrite <-Htrim. by apply list_elem_of_fmap_2. }
  assert (0 ≤ AuthServer.second) by done.
  assert (first_verify jwt decode_jwks now stored later body v text =
    (Ok (issued_info (AuthServer.e_now env) t v), store_keys stored {[kid := {| sk_Key := RSA rn re; sk_Alg := "RS256" |}]} v)) as H1.
  { eapply issued_fetched; try done; [by rewrite Htrim|by rewrite Hvk|unfold age; by rewrite Hvf|lia]. }
  assert (second_verify jwt decode_jwks now stored later again_at body v text = Ok (issued_info (AuthServer.e_now env) t v)) as H2.
  { unfold second_verify. rewrite H1. cbn [snd].
    erewrite (issued_cached jwt kid rn re env t srv1 srv2 at_ refresh scope text v); try done.
    - by rewrite Htrim.
    - cbn. apply lookup_singleton_eq.
    - unfold age. cbn [store_keys fetchedAt]. unfold Sub, cacheTTL, AuthServer.second, min_int64, max_int64 in *. lia.
    - lia. }
  unfold protected, AccountFromRequest. rewrite Hm. cbn [mr_Authorization]. rewrite (bearer_reads _ Hb) by done.
  cbv beta. rewrite H1. cbn [fst]. rewrite (bearer_lets _ Hb); [|by repeat constructor|].
  2: { cbn. unfold AuthServer.second in *. Z.div_mod_to_equations. lia. }
  by rewrite bearer_header, H2 by done.
Qed.

(** *** Who is let in *)

Lemma envInt_bounds getenv k def lo hi z : lo ≤ def ≤ hi → envInt getenv k def lo hi = Ok z → lo ≤ z ≤ hi.
Proof.
  intros Hd. unfold envInt. case_decide; [intros [= <-]; done|]. destruct (Search.Atoi_ok _) as [v|]; [|done].
  destruct (_ || _) eqn:E; [done|]. intros [= <-]. apply orb_false_iff in E as [E1%bool_decide_eq_false E2%bool_decide_eq_false]. lia.
Qed.

Lemma limits_bounds getenv kept l : process_limits getenv kept = Ok l →
  1 ≤ l_device l ≤ 64 ∧ 1 ≤ l_mcp l ≤ 128 ∧ 2 ^ 16 ≤ l_bytes l ≤ 2 ^ 23 ∧ 1 ≤ l_agents l ≤ 512 ∧ 0 ≤ l_days l ≤ 3650.
Proof.
  unfold process_limits. intros (device & H1 & (mcp & H2 & (bytes & H3 & (agents & H4 &
    (days & H5 & H)%bind_Ok)%bind_Ok)%bind_Ok)%bind_Ok)%bind_Ok. injection H as <-. cbn -[Z.pow].
  apply envInt_bounds in H1, H2, H3, H4; try lia. change (2 ^ 16) with (64 * 1024). change (2 ^ 23) with (8 * 1024 * 1024).
  split_and!; try lia; destruct kept; [apply envInt_bounds in H5; lia|injection H5; lia|apply envInt_bounds in H5; lia|injection H5; lia].
Qed.

Lemma no_oauth_settings n getenv : loadOAuthConfig n getenv = Ok None →
  public_url getenv = "" ∧ setting getenv "CODEBRIDGE_OAUTH_ISSUER" = "" ∧ setting getenv "CODEBRIDGE_OAUTH_JWKS_URL" = "" ∧
  setting getenv "CODEBRIDGE_OAUTH_RESOURCE" = "" ∧ setting getenv "CODEBRIDGE_OAUTH_ALLOWED_SUBJECTS" = "".
Proof.
  unfold loadOAuthConfig. set (iss := setting getenv "CODEBRIDGE_OAUTH_ISSUER"). set (jw := setting getenv "CODEBRIDGE_OAUTH_JWKS_URL").
  destruct (_ && bool_decide (iss = "") && bool_decide (jw = "")) eqn:Hown; cbv zeta iota.
  - apply andb_true_iff in Hown as [Hown Hj%bool_decide_eq_true]. apply andb_true_iff in Hown as [_ Hi%bool_decide_eq_true].
    destruct (bool_decide (public_url getenv = "")) eqn:Hp; cbn [andb orb].
    + apply bool_decide_eq_true in Hp. rewrite Hp, (bool_decide_false ("" +:+ "/jwks.json" = "")) by done.
      by cbn [andb].
    + by repeat case_match.
  - destruct (_ && bool_decide (setting getenv "CODEBRIDGE_OAUTH_ALLOWED_SUBJECTS" = "")) eqn:Hall.
    + intros _. repeat (apply andb_true_iff in Hall as [Hall ?%bool_decide_eq_true]). apply bool_decide_eq_true in Hall. done.
    + by repeat case_match.
Qed.


(** ** The accounts *)

Definition equals : Ascii.ascii := Ascii.ascii_of_N 61.

Lemma CutPrefix_char a s : CutPrefix (String a s) "=" = if decide (a = equals) then Some s else None.
Proof. cbn [CutPrefix]. unfold equals. repeat case_decide; simplify_eq; try done; by destruct s. Qed.

Lemma Cut_equals s t : no_sep equals s → Cut (s +:+ "=" +:+ t) "=" = Some (s, t).
Proof.
  unfold no_sep. induction s as [|a s IH]; intros H; [done|]. cbn in H. apply not_elem_of_cons in H as [Ha H].
  change (String a s +:+ "=" +:+ t) with (String a (s +:+ "=" +:+ t)). cbn [Cut]. rewrite CutPrefix_char, decide_False by done.
  by rewrite IH.
Qed.

Lemma Contains_equals s : no_sep equals s → Contains s "=" = false.
Proof.
  unfold no_sep. induction s as [|a s IH]; intros H; [done|]. cbn in H. apply not_elem_of_cons in H as [Ha H].
  cbn [Contains]. rewrite IH by done. unfold HasPrefix. rewrite CutPrefix_char, decide_False by done. done.
Qed.

(** An entry an operator may write: visible ASCII, of the lengths allowed. *)
Record entry_ok (p : string * string) : Prop := {
  entry_words : word p.1 ∧ word p.2;
  entry_subject : no_sep comma p.1 ∧ no_sep equals p.1 ∧ Z.of_nat (String.length p.1) ≤ 256;
  entry_account : no_sep comma p.2 ∧ no_sep equals p.2 ∧ Z.of_nat (String.length p.2) ≤ 128
}.
Definition entry_text (p : string * string) : string := p.1 +:+ "=" +:+ p.2.
Definition map_text (l : list (string * string)) : string := String.concat "," (entry_text <$> l).

Lemma words_text s t : word s → word t → graphic_string (s +:+ "=" +:+ t).
Proof.
  intros [_ Hs] [_ Ht]. apply graphic_app; [done|]. apply graphic_app; [|done]. repeat constructor; unfold char_val; cbn; lia.
Qed.

(** One entry, which is not there yet. *)
Lemma account_entry p parts out : entry_ok p → out !! p.1 = None → Z.of_nat (size out) < 100 →
  account_entries (entry_text p :: parts) out = account_entries parts (<[p.1 := p.2]> out).
Proof.
  intros [[H1 H2] (_ & He1 & Hl1) (_ & He2 & Hl2)] Hnew Hsize. cbn [account_entries]. unfold entry_text.
  rewrite TrimSpace_graphic by (by apply words_text).
  destruct H1 as [Hn1 Hg1], H2 as [Hn2 Hg2].
  rewrite decide_False by (destruct (p.1); done). rewrite Cut_equals by done.
  rewrite (TrimSpace_graphic p.1), (TrimSpace_graphic p.2) by done. cbn [negb orb].
  rewrite !bool_decide_false by done. cbn [orb]. rewrite Contains_equals by done. rewrite !decide_False by lia. rewrite Hnew.
  cbv zeta. rewrite decide_False; [done|]. rewrite map_size_insert_None by done. lia.
Qed.

Lemma account_entries_ok l out : Forall entry_ok l → NoDup (l.*1) → (∀ p, p ∈ l → out !! p.1 = None) →
  Z.of_nat (size out + length l) ≤ 100 →
  account_entries (entry_text <$> l) out = Ok (list_to_map l ∪ out).
Proof.
  intros Hok. revert out. induction Hok as [|p l Hp _ IH]; intros out Hnd Hnew Hlen; cbn [fmap list_fmap list_to_map foldr].
  { cbn. by rewrite (left_id_L ∅ (∪)). }
  cbn [fmap list_fmap] in Hnd. apply NoDup_cons in Hnd as [Hnot Hnd]. cbn [length] in Hlen.
  rewrite account_entry; [|done|apply Hnew; by left|lia].
  rewrite IH; [|done| |].
  - f_equal. rewrite <-insert_union_r by (by apply not_elem_of_list_to_map_1). apply insert_union_l.
  - intros q Hq. rewrite lookup_insert_ne; [apply Hnew; by right|]. intros E. apply Hnot. rewrite E. by apply list_elem_of_fmap_2.
  - rewrite map_size_insert_None by (apply Hnew; by left). lia.
Qed.

Lemma split_entries l : l ≠ [] → Forall entry_ok l → Split comma (map_text l) = entry_text <$> l.
Proof.
  unfold map_text. induction l as [|p l IH]; [done|]. intros _ H. apply Forall_cons in H as [[_ (Hc1 & _) (Hc2 & _)] H].
  assert (no_sep comma (entry_text p)) as Hp.
  { unfold no_sep, entry_text in *. rewrite !list_ascii_app, !elem_of_app. intros [?|[?|?]]; [done| |done].
    by apply list_elem_of_singleton in H0. }
  destruct l as [|q l]; [by apply split_no_sep|].
  change (String.concat "," (entry_text <$> p :: q :: l)) with (entry_text p +:+ String comma (String.concat "," (entry_text <$> q :: l))).
  rewrite split_app by done. cbn [fmap list_fmap]. f_equal. by apply IH.
Qed.

Lemma map_text_graphic l : Forall entry_ok l → graphic_string (map_text l).
Proof.
  unfold map_text. induction 1 as [|p l [[H1 H2] _ _] _ IH]; [constructor|].
  assert (graphic_string (entry_text p)) as Hp by by apply words_text.
  destruct l as [|q l]; [done|].
  change (String.concat "," (entry_text <$> p :: q :: l)) with (entry_text p +:+ "," +:+ String.concat "," (entry_text <$> q :: l)).
  repeat (apply graphic_app; try done). repeat constructor; unfold char_val; cbn; lia.
Qed.

(** The map of subjects to accounts means what is written: for at most 100
    entries [subject=account] of visible characters, no subject twice, joined by
    commas, the manager's map gives each subject its account, and every other
    subject, which needs no entry, its own. *)
Theorem account_map_means l : Forall entry_ok l → NoDup (l.*1) → (length l ≤ 100)%nat →
  ∃ accounts, parseAccountMap (map_text l) = Ok accounts ∧
    (∀ p, p ∈ l → ForSubject (Some accounts) p.1 = p.2) ∧
    (∀ subject, word subject → subject ∉ l.*1 → ForSubject (Some accounts) subject = subject).
Proof.
  intros Hok Hnd Hlen. exists (list_to_map l). split; [|split].
  - unfold parseAccountMap. destruct l as [|p l]; [done|]. set (text := map_text (p :: l)).
    assert (text ≠ "") as Hne.
    { subst text. apply Forall_inv in Hok as [[[Hn _] _] _ _]. unfold map_text, entry_text. destruct p as [[|c s] a]; [done|]. by destruct l. }
    rewrite TrimSpace_graphic by by apply map_text_graphic. rewrite decide_False by done. subst text.
    rewrite split_entries, account_entries_ok; try done.
    + by rewrite (right_id_L ∅ (∪)).
    + rewrite map_size_empty. cbn [Nat.add]. lia.
  - intros p Hp. rewrite Forall_forall in Hok. destruct (Hok p Hp) as [[[Hn1 Hg1] [Hn2 Hg2]] _ _].
    unfold ForSubject. rewrite (TrimSpace_graphic p.1), decide_False by done.
    rewrite (proj1 (elem_of_list_to_map l p.1 p.2 Hnd)) by (by destruct p). change (default "" (Some p.2)) with p.2.
    cbv zeta.    by rewrite (TrimSpace_graphic p.2), decide_True by done.
  - intros subject [Hn Hg] Hnot. unfold ForSubject. rewrite (TrimSpace_graphic subject), decide_False by done.
    rewrite (not_elem_of_list_to_map_1 l) by done. done.
Qed.

(** ** Examples *)

Definition sample_getenv (k : string) : string :=
  if decide (k = "CODEBRIDGE_PUBLIC_URL") then " https://cb.example/ "
  else if decide (k = "CODEBRIDGE_AS_ADMIN_PASSWORD") then "pw"
  else if decide (k = "CODEBRIDGE_OAUTH_ACCOUNT_MAP") then "admin=team-a, bob=team-b"
  else "".
Definition sample_net : net_lib := {|
  net_Parse := λ s,
    if HasPrefix s "https://cb.example"
    then Some {| u_Scheme := "https"; u_Hostname := "cb.example"; u_Path := default "" (CutPrefix s "https://cb.example");
                 u_RawQuery := ""; u_Fragment := "" |} else None;
  net_loopback := λ _, false |}.
Definition idle : manager := {|
  m_embedded := None; m_oauth := None; m_accounts := ∅; m_token := "";
  m_limits := {| l_device := 8; l_mcp := 16; l_bytes := 0; l_agents := 1; l_days := 0 |} |}.
Definition started : result main_err manager := start sample_net sample_getenv (λ _, Some "hash") 0 None false.
Definition sample_manager : manager := match started with Ok m => m | Err _ => idle end.
Definition sample_as : AuthServer.Server := default sample_server (m_embedded sample_manager).

Definition login_taken : AuthServer.taken := {|
  AuthServer.tk_ClientID := "c"; AuthServer.tk_Subject := "admin"; AuthServer.tk_Resource := "https://cb.example";
  AuthServer.tk_Scopes := ["codebridge.read"; "offline_access"] |}.
Definition login_token : AuthServer.access_token :=
  AuthServer.signAccessToken (1000 * AuthServer.second) "https://cb.example" "j" login_taken.
Definition login_issued : AuthServer.Server * AuthServer.reply := AuthServer.issueTokens sample_env login_taken sample_as.

(** A middleware that takes the scheme in either case. *)
Definition sample_bearer : bearer_lib := {|
  bearer_token := λ h, match CutPrefix h "Bearer " with Some t => Some t | None => CutPrefix h "bearer " end;
  bearer_admits := λ scopes now info, bool_decide (Forall (λ s, s ∈ ti_Scopes info) scopes) && bool_decide (now ≤ ti_Expiration info) |}.
Lemma sample_bearer_laws : bearer_laws sample_bearer.
Proof.
  split.
  - intros token _. cbn [sample_bearer bearer_token]. by rewrite CutPrefix_app.
  - intros scopes now info H1 H2. cbn. by rewrite !bool_decide_true.
Qed.

Definition at_second (s : Z) : time := s * AuthServer.second.
Definition sample_verify := first_verify (jwt_of login_token) toy_decode (at_second 1001) (at_second 1001) (at_second 1002) "keys".
Definition sample_again :=
  second_verify (jwt_of login_token) toy_decode (at_second 1001) (at_second 1001) (at_second 1002) (at_second 1003) "keys".
Definition answer_to (header : string) : mcp_answer :=
  protected sample_bearer sample_manager (λ v text, (sample_verify v text).1) sample_again (at_second 1002)
    {| mr_Authorization := header; mr_ContentLength := 10 |}.

Example login_runs : answer_to "Bearer token" = Reached "team-a" "team-a". Proof. by vm_compute. Qed.
(** The middleware takes the scheme in any case; the list of tools does not: it
    is then that of the default account. *)
Example lowercase_lists_default : answer_to "bearer token" = Reached "default" "team-a". Proof. by vm_compute. Qed.

Lemma embedded_login_served_witness : started = Ok sample_manager ∧ ∃ c v, m_oauth sample_manager = Some (c, v) ∧
  protected sample_bearer sample_manager (λ v text, (sample_verify v text).1) sample_again (at_second 1002)
    {| mr_Authorization := "Bearer token"; mr_ContentLength := 10 |} = Reached "team-a" "team-a".
Proof.
  split; [vm_compute; reflexivity|].
  destruct (embedded_login_served sample_net sample_getenv (λ _, Some "hash") 0 None false sample_manager sample_as)
    as (c & v & Hm & _ & H); try (vm_compute; reflexivity).
  exists c, v. split; [exact Hm|].
  assert (c = default {| oc_PublicURL := ""; oc_Resource := ""; oc_Issuer := ""; oc_JWKSURL := ""; oc_Scope := ""; oc_AllowedSubjects := [] |}
    (fst <$> m_oauth sample_manager)) as Hc by (rewrite Hm; reflexivity).
  refine (H sample_bearer (jwt_of login_token) toy_decode "key-1" 3233 17 sample_env login_taken sample_as login_issued.1 login_token
    "r" "codebridge.read offline_access" "token" "keys" (at_second 1001) (at_second 1001) (at_second 1002) (at_second 1003) 10
    sample_bearer_laws (jwt_of_reads _) (jwt_of_signed _) _ _ _ _ _ _ _ _ _ _ _ _ _ _ _ _ _ _).
  - split; [discriminate|]. apply (bool_decide_unpack _); vm_compute; reflexivity.
  - reflexivity.
  - vm_compute; reflexivity.
  - vm_compute; reflexivity.
  - discriminate.
  - vm_compute; reflexivity.
  - left. rewrite Hc. vm_compute; reflexivity.
  - repeat constructor; try discriminate; apply (bool_decide_unpack _); vm_compute; reflexivity.
  - apply (bool_decide_unpack _); vm_compute; reflexivity.
  - rewrite Hc. apply (bool_decide_unpack _); vm_compute; reflexivity.
  - vm_compute; reflexivity.
  - discriminate.
  - reflexivity.
  - split; [discriminate|reflexivity].
  - split; discriminate.
  - discriminate.
  - reflexivity.
  - split; discriminate.
Defined.


Definition sample_entries : list (string * string) := [("admin", "team-a"); ("bob", "team-b")].
Lemma account_map_means_witness : map_text sample_entries = "admin=team-a,bob=team-b" ∧
  ∃ accounts, parseAccountMap (map_text sample_entries) = Ok accounts ∧ ForSubject (Some accounts) "bob" = "team-b" ∧
    ForSubject (Some accounts) "eve" = "eve".
Proof.
  split; [reflexivity|]. destruct (account_map_means sample_entries) as (accounts & H1 & H2 & H3).
  - repeat constructor; try discriminate; apply (bool_decide_unpack _); vm_compute; reflexivity.
  - apply (bool_decide_unpack _); vm_compute; reflexivity.
  - vm_compute. lia.
  - exists accounts. split; [exact H1|]. split; [apply (H2 ("bob", "team-b")); right; left|].
    apply H3; [split; [discriminate|]|]; apply (bool_decide_unpack _); vm_compute; reflexivity.
Defined.
