(* ===== verification/CallLog.v ===== *)
(** * The records of tool calls

    [src/internal/auditlog/audit.go], [src/internal/mcpcallstore/store.go]: the
    append-only file of events and the table of calls; the invocation that
    writes both ([src/internal/manager/mcp_invoke.go]); and the pages that show
    them ([src/internal/manager/admin_ui.go]).

    SQLite is a table of rows in the order of their ids, whose statements can
    fail; text is compared byte by byte. [encoding/json] is a parameter. *)

From S2P Require Import Prelude Entities GoStrings GoPath Json GoTime ToolSurface.
From S2P Require DeviceAuth Search.
Open Scope Z_scope.

(** ** [mcpcallstore] *)

Record Call : Type := {
  c_Time : time; c_RequestID : string; c_ActorID : string; c_Tool : string; c_DeviceID : string; c_Workspace : string;
  c_Success : bool; c_DurationMS : Z; c_ErrorKind : string; c_ArgsJSON : string
}.

Record Filter : Type := {
  f_Tool : string; f_ActorID : string; f_DeviceID : string; f_Workspace : string; f_Query : string;
  f_Success : option bool; f_Since : time; f_Until : time; f_Limit : Z; f_Offset : Z
}.

Record Stats : Type := { st_Total : Z; st_Failed : Z; st_AvgMS : Z; st_TotalMS : Z }.

(** A row of [mcp_calls]. *)
Record row : Type := {
  r_id : Z; r_time : string; r_request_id : string; r_actor_id : string; r_tool : string; r_device_id : string;
  r_workspace : string; r_success : Z; r_duration_ms : Z; r_error_kind : string; r_args : string
}.
(** The table, by id: whether it has the column [args], and the largest id it
    ever had. *)
Record table : Type := { t_args : bool; t_seq : Z; t_rows : list row }.

Inductive store_err : Type := ENotConfigured | EStatement | EOverflow.

(** [Open] on a database with its table, if it has one: the column is added to
    an older one, a new table has it. [Ok None] is the store that is disabled. *)
Definition Open (path : string) (fails : bool) (db : option table) : result store_err (option table) :=
  if decide (TrimSpace path = "") then Ok None
  else if fails then Err EStatement
  else Ok (Some (match db with
                 | Some t => {| t_args := true; t_seq := t_seq t; t_rows := t_rows t |}
                 | None => {| t_args := true; t_seq := 0; t_rows := [] |}
                 end)).

Definition maxArgsBytes : Z := 16 * 1024.
Definition truncateArgs (args : string) : string :=
  if decide (Z.of_nat (String.length args) ≤ maxArgsBytes) then args
  else first_bytes (Z.to_nat maxArgsBytes) args +:+ "…(truncated)".
Definition boolToInt (b : bool) : Z := if b then 1 else 0.

Definition row_of (id : Z) (c : Call) : row := {|
  r_id := id; r_time := RFC3339Nano (c_Time c); r_request_id := c_RequestID c; r_actor_id := c_ActorID c; r_tool := c_Tool c;
  r_device_id := c_DeviceID c; r_workspace := c_Workspace c; r_success := boolToInt (c_Success c); r_duration_ms := c_DurationMS c;
  r_error_kind := c_ErrorKind c; r_args := truncateArgs (c_ArgsJSON c) |}.

(** The statement fails without the column, and when no id is left. *)
Definition Insert (fails : bool) (c : Call) (t : table) : result store_err table :=
  if fails || negb (t_args t) || bool_decide (t_seq t = max_int64) then Err EStatement
  else Ok {| t_args := t_args t; t_seq := t_seq t + 1; t_rows := t_rows t ++ [row_of (t_seq t + 1) c] |}.

(** SQLite's [LIKE], on UTF-8 without NUL: [%] is any text, [_] one character,
    letters of ASCII are the same in either case. *)
Fixpoint skip_continuation (s : list Z) : list Z :=
  match s with c :: s' => if decide (128 ≤ c < 192) then skip_continuation s' else s | [] => [] end.
Definition skip_char (c : Z) (s : list Z) : list Z := if decide (192 ≤ c) then skip_continuation s else s.
(** Some end of the text satisfies [p]. *)
Fixpoint some_end (p : list Z → bool) (s : list Z) : bool :=
  p s || match s with [] => false | _ :: s => some_end p s end.
Fixpoint like_codes (p : list Z) (s : list Z) : bool :=
  match p with
  | [] => bool_decide (s = [])
  | c :: p =>
      if decide (c = 37) then some_end (like_codes p) s
      else
        match s with
        | [] => false
        | x :: s =>
            if decide (c = 95) then like_codes p (skip_char x s)
            else bool_decide (lower_char c = lower_char x) && like_codes p s
        end
  end.
Definition like (pattern text : string) : bool := like_codes (codes pattern) (codes text).

(** The clauses of [filterSQL], on a row. *)
Definition any_or (want got : string) : bool := bool_decide (want = "") || bool_decide (got = want).
Definition filterSQL (f : Filter) (r : row) : bool :=
  any_or (f_Tool f) (r_tool r) && any_or (f_ActorID f) (r_actor_id r) && any_or (f_DeviceID f) (r_device_id r) &&
  any_or (f_Workspace f) (r_workspace r) &&
  match f_Success f with Some b => bool_decide (r_success r = boolToInt b) | None => true end &&
  (IsZero (f_Since f) || negb (String.ltb (r_time r) (RFC3339Nano (f_Since f)))) &&
  (IsZero (f_Until f) || negb (String.ltb (RFC3339Nano (f_Until f)) (r_time r))) &&
  (let q := TrimSpace (f_Query f) in
   bool_decide (q = "") ||
   existsb (like ("%" +:+ q +:+ "%"))
     [r_tool r; r_device_id r; r_workspace r; r_request_id r; r_actor_id r; r_error_kind r]).

(** A row as it is scanned; a time that does not parse stays zero. *)
Definition scan_row (r : row) : Call := {|
  c_Time := default zero_time (Parse (r_time r)); c_RequestID := r_request_id r; c_ActorID := r_actor_id r; c_Tool := r_tool r;
  c_DeviceID := r_device_id r; c_Workspace := r_workspace r; c_Success := bool_decide (r_success r ≠ 0);
  c_DurationMS := r_duration_ms r; c_ErrorKind := r_error_kind r; c_ArgsJSON := r_args r |}.

(** The aggregates; a sum beyond 64 bits is an error of SQLite. The average is
    exact as long as the sum is below 2^52. *)
Definition stats (rows : list row) : result store_err Stats :=
  let total := sum (r_duration_ms <$> rows) in
  let n := Z.of_nat (length rows) in
  if bool_decide (min_int64 ≤ total ≤ max_int64) then
    Ok {| st_Total := n; st_Failed := Z.of_nat (length (filter (λ r, r_success r = 0) rows));
          st_AvgMS := if decide (n = 0) then 0 else Z.quot total n; st_TotalMS := total |}
  else Err EOverflow.

Definition page_limit (f : Filter) : Z := if bool_decide (f_Limit f ≤ 0) || bool_decide (500 < f_Limit f) then 100 else f_Limit f.
Definition page_offset (f : Filter) : Z := Z.max 0 (f_Offset f).
Definition page {A} (f : Filter) (l : list A) : list A := take (Z.to_nat (page_limit f)) (drop (Z.to_nat (page_offset f)) l).

Definition List (fails : bool) (f : Filter) (s : option table) : result store_err (list Call * Stats) :=
  match s with
  | None => Err ENotConfigured
  | Some t =>
      if fails then Err EStatement
      else
        let rows := filter (λ r, filterSQL f r = true) (t_rows t) in
        st ← stats rows;
        mret (scan_row <$> page f (reverse rows), st)
  end.

Definition Prune (fails : bool) (olderThan : time) (s : option table) : result store_err (Z * option table) :=
  match s with
  | None => Ok (0, None)
  | Some t =>
      if fails then Err EStatement
      else
        let rows := filter (λ r, String.ltb (r_time r) (RFC3339Nano olderThan) = false) (t_rows t) in
        Ok (Z.of_nat (length (t_rows t)) - Z.of_nat (length rows), Some {| t_args := t_args t; t_seq := t_seq t; t_rows := rows |})
  end.

(** ** [auditlog] *)

Record Event : Type := {
  ev_Time : time; ev_Event : string; ev_RequestID : string; ev_ActorID : string; ev_Tool : string; ev_DeviceID : string;
  ev_Workspace : string; ev_Success : option bool; ev_DurationMS : Z; ev_ErrorKind : string
}.

Inductive log_err : Type := EEventName | EMarshal | EWrite.

Definition newline_text : string := String Search.newline "".

(** [Logger.Log] on the contents of its file: [marshal] is [json.Marshal] of an
    event, [wrote] how much of the line a failing write appended. *)
Definition Log (marshal : Event → option string) (now : time) (wrote : option nat) (ev : Event) (file : string) :
    result log_err unit * string :=
  if decide (ev_Event ev = "") then (Err EEventName, file)
  else
    let ev := if IsZero (ev_Time ev)
              then {| ev_Time := now; ev_Event := ev_Event ev; ev_RequestID := ev_RequestID ev; ev_ActorID := ev_ActorID ev;
                      ev_Tool := ev_Tool ev; ev_DeviceID := ev_DeviceID ev; ev_Workspace := ev_Workspace ev;
                      ev_Success := ev_Success ev; ev_DurationMS := ev_DurationMS ev; ev_ErrorKind := ev_ErrorKind ev |}
              else ev in
    match marshal ev with
    | None => (Err EMarshal, file)
    | Some line =>
        match wrote with
        | None => (Ok (), file +:+ line +:+ newline_text)
        | Some k => (Err EWrite, file +:+ first_bytes k (line +:+ newline_text))
        end
    end.

(** ** [AuditTailer]

    The lines of a scanner whose buffer grows to 1 MiB: a line that does not fit
    it ends the scan. *)
Definition tail_token : nat := Z.to_nat (1024 * 1024 - 1).
Definition adminAuditTailLines : Z := 200.

Definition ring_add (n : Z) (ring : list string) (line : string) : list string :=
  let ring := ring ++ [line] in
  if decide (n < Z.of_nat (length ring)) then drop (length ring - Z.to_nat n) ring else ring.
(** [Tail] of a file, if it can be opened. *)
Definition Tail (n : Z) (file : option string) : list string :=
  let n := if bool_decide (n ≤ 0) || bool_decide (1000 < n) then adminAuditTailLines else n in
  match file with
  | None => []
  | Some content => foldl (ring_add n) [] (Search.scan_within tail_token (Split Search.newline content))
  end.

(** ** The invocation of a tool *)

Definition requestIDHeader : string := "X-CodeBridge-Request-ID".

(** Of a request: the header above and the user of its token. *)
Record tool_request : Type := { tr_Header : string; tr_UserID : option string }.

(** What an invocation is given, and how it went: the arguments are [None] when
    there are none, their JSON is when encoding fails. *)
Record invocation : Type := {
  iv_Request : option tool_request; iv_Tool : string; iv_DeviceID : string; iv_Workspace : string;
  iv_Args : option (option string); iv_Err : option go_err
}.
(** The environment: the times and durations of the two records, a fresh id, and
    what fails. *)
Record invoke_env : Type := {
  ie_stored : time; ie_stored_ms : Z; ie_logged : time; ie_logged_ms : Z; ie_fresh : string;
  ie_insert_fails : bool; ie_wrote : option nat
}.

Record logs : Type := { lg_store : option table; lg_audit : string }.

Definition request_of (e : invoke_env) (i : invocation) : string :=
  let id := match iv_Request i with Some q => TrimSpace (tr_Header q) | None => "" end in
  if decide (id = "") then ie_fresh e else id.
Definition actor_of (i : invocation) : string :=
  match iv_Request i with Some q => default "" (tr_UserID q) | None => "" end.
Definition succeeded (i : invocation) : bool := bool_decide (iv_Err i = None).

Definition call_record (e : invoke_env) (i : invocation) : Call := {|
  c_Time := ie_stored e; c_RequestID := request_of e i; c_ActorID := actor_of i; c_Tool := iv_Tool i; c_DeviceID := iv_DeviceID i;
  c_Workspace := iv_Workspace i; c_Success := succeeded i; c_DurationMS := ie_stored_ms e; c_ErrorKind := auditErrorKind (iv_Err i);
  c_ArgsJSON := match iv_Args i with Some (Some json) => json | _ => "" end |}.
Definition audit_event (e : invoke_env) (i : invocation) : Event := {|
  ev_Time := zero_time; ev_Event := "mcp.tool"; ev_RequestID := request_of e i; ev_ActorID := actor_of i; ev_Tool := iv_Tool i;
  ev_DeviceID := iv_DeviceID i; ev_Workspace := iv_Workspace i; ev_Success := Some (succeeded i); ev_DurationMS := ie_logged_ms e;
  ev_ErrorKind := auditErrorKind (iv_Err i) |}.

(** [invokeArgs], whose answer is that of the call. *)
Definition invokeArgs (marshal : Event → option string) (e : invoke_env) (i : invocation) (l : logs) : logs :=
  {| lg_store := match lg_store l with
                 | None => None
                 | Some t => Some (match Insert (ie_insert_fails e) (call_record e i) t with Ok t => t | Err _ => t end)
                 end;
     lg_audit := (Log marshal (ie_logged e) (ie_wrote e) (audit_event e i) (lg_audit l)).2 |}.

(** *** Progress

    What is decoded of a progress envelope, and of the line in it; [None] when
    decoding fails. *)
Record progress_line : Type := { pl_Type : string; pl_PartText : string; pl_PartTool : string }.

Definition cut_at (n : nat) (s : string) : string := if decide (n < String.length s)%nat then first_bytes n s +:+ "…" else s.
Definition one_line (s : string) : string :=
  String.string_of_list_ascii ((λ c, if decide (c = Search.newline) then Ascii.ascii_of_N 32 else c) <$> String.list_ascii_of_string s).

Definition summarizeProgress (decode_event : string → option string) (decode_line : string → option progress_line) (payload : string) :
    string :=
  match decode_event payload with
  | None => "progress"
  | Some event =>
      if decide (event = "") then "progress"
      else
        let line := TrimSpace event in
        let plain := cut_at 120 line in
        match decode_line line with
        | None => plain
        | Some p =>
            if one_of (pl_Type p) ["tool_use"; "tool_result"]
            then "tool: " +:+ (if decide (pl_PartTool p = "") then pl_Type p else pl_PartTool p)
            else if bool_decide (pl_Type p = "text") && bool_decide (pl_PartText p ≠ "") then one_line (cut_at 120 (pl_PartText p))
            else if decide (pl_Type p = "step_start") then "step started"
            else if decide (pl_Type p = "step_finish") then "step finished"
            else plain
        end
  end.

(** ** The pages of the console *)

(** [handleMCPCalls]: the filter of a query; a text that is no time or number is
    passed over. *)
Definition query_filter (q : string → string) : Filter :=
  let value k := TrimSpace (q k) in
  {| f_Tool := value "tool"; f_ActorID := value "actor"; f_DeviceID := value "device_id"; f_Workspace := value "workspace";
     f_Query := value "q";
     f_Success := if decide (value "success" = "") then None
                  else Some (bool_decide (value "success" = "true") || bool_decide (value "success" = "1"));
     f_Since := if decide (value "since" = "") then zero_time else default zero_time (Parse (value "since"));
     f_Until := if decide (value "until" = "") then zero_time else default zero_time (Parse (value "until"));
     f_Limit := if decide (value "limit" = "") then 0 else default 0 (Search.Atoi_ok (value "limit"));
     f_Offset := if decide (value "offset" = "") then 0 else default 0 (Search.Atoi_ok (value "offset")) |}.

Inductive page_answer : Type :=
| NotConfigured | StoreFailed (e : store_err)
| Calls (calls : list Call) (st : Stats) (limit offset : Z)
| MethodNotAllowed | Audit (available : bool) (events : list string).

Definition handleMCPCalls (fails : bool) (q : string → string) (s : option table) : page_answer :=
  match s with
  | None => NotConfigured
  | Some _ =>
      let f := query_filter q in
      match List fails f s with
      | Err e => StoreFailed e
      | Ok (calls, st) => Calls calls st (f_Limit f) (f_Offset f)
      end
  end.

(** [handleAuditTail]; without a path there is no tailer. *)
Definition handleAuditTail (method path : string) (file : option string) : page_answer :=
  if decide (method ≠ "GET") then MethodNotAllowed
  else if decide (TrimSpace path = "") then Audit false []
  else Audit true (Tail adminAuditTailLines file).
