(* ===== verification/CallLogSpec.v ===== *)
(** * What the records of tool calls promise

    The console shows the calls that were stored, newest first, page by page,
    with the numbers of all of them; retention is exact to a second; the view of
    the audit log is its newest lines. *)

From S2P Require Import Prelude Entities GoStrings GoPath Json GoTime ToolSurface CallLog.
From S2P Require DeviceAuth Search.
Open Scope Z_scope.

(** ** Times in the store *)

Lemma ltb_texts a b : written a → written b → seconds a ≠ seconds b →
  String.ltb (RFC3339Nano a) (RFC3339Nano b) = bool_decide (a < b).
Proof.
  intros Ha Hb Hne. unfold String.ltb. destruct (decide (seconds a < seconds b)) as [H|H].
  - rewrite texts_ordered by done. rewrite bool_decide_true; [done|]. unfold seconds, billion in *. Z.div_mod_to_equations. lia.
  - rewrite String.compare_antisym, texts_ordered by (done || lia). rewrite bool_decide_false; [done|].
    unfold seconds, billion in *. Z.div_mod_to_equations. lia.
Qed.

(** ** The table *)

(** The table holds these calls, oldest first. *)
Record holds (t : table) (cs : list Call) : Prop := {
  holds_args : t_args t = true;
  holds_rows : Forall2 (λ r c, ∃ id, r = row_of id c) (t_rows t) cs
}.

Lemma holds_Open path db : match db with Some t => ∃ cs, holds {| t_args := true; t_seq := t_seq t; t_rows := t_rows t |} cs | None => True end →
  TrimSpace path ≠ "" → ∃ t cs, Open path false db = Ok (Some t) ∧ holds t cs.
Proof.
  intros H Hp. unfold Open. rewrite decide_False by done. destruct db as [t|].
  - destruct H as [cs H]. by eexists _, cs.
  - eexists _, []. split; [done|]. by split.
Qed.

Lemma holds_Insert t cs c : holds t cs → t_seq t ≠ max_int64 →
  ∃ t', Insert false c t = Ok t' ∧ holds t' (cs ++ [c]) ∧ t_seq t' = t_seq t + 1.
Proof.
  intros [Ha Hr] Hs. unfold Insert. rewrite Ha, bool_decide_false by done. cbn [orb negb]. eexists. split; [done|].
  split; [|done]. split; [done|]. cbn. apply Forall2_app; [done|]. constructor; [by eexists|constructor].
Qed.

(** Rows and calls that agree on a condition. *)
Lemma filter_agree {P : row → Prop} {Q : Call → Prop} `{∀ r, Decision (P r), ∀ c, Decision (Q c)} rows cs :
  Forall2 (λ r c, ∃ id, r = row_of id c) rows cs → (∀ id c, c ∈ cs → P (row_of id c) ↔ Q c) →
  Forall2 (λ r c, ∃ id, r = row_of id c) (filter P rows) (filter Q cs).
Proof.
  induction 1 as [|r c rows cs [id ->] Hr IH]; intros Hag; [constructor|]. pose proof (Hag id c ltac:(left)) as Hc. assert (∀ id c, c ∈ cs → P (row_of id c) ↔ Q c) as Hag' by (intros; apply Hag; by right).
  destruct (decide (Q c)) as [Hq|Hq].
  - rewrite !filter_cons_True by tauto. constructor; [by eexists|by apply IH].
  - rewrite !filter_cons_False by tauto. by apply IH.
Qed.

Lemma rows_fields {A} (f : row → A) (g : Call → A) rows cs :
  Forall2 (λ r c, ∃ id, r = row_of id c) rows cs → (∀ id c, c ∈ cs → f (row_of id c) = g c) → f <$> rows = g <$> cs.
Proof.
  induction 1 as [|r c rows cs [id ->] Hr IH]; intros Hag; [done|]. cbn. rewrite Hag by by left. f_equal. apply IH.
  intros. apply Hag. by right.
Qed.

(** ** What a filter asks for *)

Definition wants (f : Filter) (c : Call) : bool :=
  any_or (f_Tool f) (c_Tool c) && any_or (f_ActorID f) (c_ActorID c) && any_or (f_DeviceID f) (c_DeviceID c) &&
  any_or (f_Workspace f) (c_Workspace c) &&
  match f_Success f with Some b => eqb (c_Success c) b | None => true end &&
  (IsZero (f_Since f) || bool_decide (f_Since f ≤ c_Time c)) && (IsZero (f_Until f) || bool_decide (c_Time c ≤ f_Until f)) &&
  (let q := TrimSpace (f_Query f) in
   bool_decide (q = "") ||
   existsb (like ("%" +:+ q +:+ "%")) [c_Tool c; c_DeviceID c; c_Workspace c; c_RequestID c; c_ActorID c; c_ErrorKind c]).

(** The second of a call is not the one of a bound. *)
Definition apart (f : Filter) (t : time) : Prop :=
  (f_Since f = zero_time ∨ seconds t ≠ seconds (f_Since f)) ∧ (f_Until f = zero_time ∨ seconds t ≠ seconds (f_Until f)).

Lemma filterSQL_wants f id c : written (c_Time c) → written (f_Since f) → written (f_Until f) → apart f (c_Time c) →
  filterSQL f (row_of id c) = wants f c.
Proof.
  intros Hc Hs Hu [As Au]. unfold filterSQL, wants. cbn [r_tool r_actor_id r_device_id r_workspace r_success r_time r_request_id r_error_kind row_of].
  assert (∀ b, bool_decide (boolToInt (c_Success c) = boolToInt b) = eqb (c_Success c) b) as Hsucc by (intros []; by destruct (c_Success c)).
  assert (IsZero (f_Since f) || negb (String.ltb (RFC3339Nano (c_Time c)) (RFC3339Nano (f_Since f))) =
    IsZero (f_Since f) || bool_decide (f_Since f ≤ c_Time c)) as ->.
  { unfold IsZero. case_bool_decide as E; [done|]. destruct As as [|As]; [done|]. cbn [orb]. rewrite ltb_texts by done.
    repeat case_bool_decide; lia || done. }
  assert (IsZero (f_Until f) || negb (String.ltb (RFC3339Nano (f_Until f)) (RFC3339Nano (c_Time c))) =
    IsZero (f_Until f) || bool_decide (c_Time c ≤ f_Until f)) as ->.
  { unfold IsZero. case_bool_decide as E; [done|]. destruct Au as [|Au]; [done|]. cbn [orb]. rewrite ltb_texts by (done || lia).
    repeat case_bool_decide; lia || done. }
  destruct (f_Success f); by rewrite ?Hsucc.
Qed.

(** A call as it is shown. *)
Definition shown (c : Call) : Call := {|
  c_Time := c_Time c; c_RequestID := c_RequestID c; c_ActorID := c_ActorID c; c_Tool := c_Tool c; c_DeviceID := c_DeviceID c;
  c_Workspace := c_Workspace c; c_Success := c_Success c; c_DurationMS := c_DurationMS c; c_ErrorKind := c_ErrorKind c;
  c_ArgsJSON := truncateArgs (c_ArgsJSON c) |}.

Lemma scan_row_of id c : written (c_Time c) → scan_row (row_of id c) = shown c.
Proof.
  intros H. unfold scan_row, shown. cbn [r_time r_request_id r_actor_id r_tool r_device_id r_workspace r_success r_duration_ms r_error_kind r_args row_of].
  rewrite Parse_RFC3339Nano by done. change (default zero_time (Some (c_Time c))) with (c_Time c). f_equal. by destruct (c_Success c).
Qed.

(** ** Pages *)

Lemma page_drop {A} f (l : list A) : 1 ≤ f_Limit f ≤ 500 → 0 ≤ f_Offset f →
  page f l = take (Z.to_nat (f_Limit f)) (drop (Z.to_nat (f_Offset f)) l).
Proof. intros Hl Ho. unfold page, page_limit, page_offset. rewrite !bool_decide_false by lia. cbn [orb]. by rewrite Z.max_r by lia. Qed.

(** The filter of the page that begins at an offset. *)
Definition from_offset (f : Filter) (limit offset : Z) : Filter := {|
  f_Tool := f_Tool f; f_ActorID := f_ActorID f; f_DeviceID := f_DeviceID f; f_Workspace := f_Workspace f; f_Query := f_Query f;
  f_Success := f_Success f; f_Since := f_Since f; f_Until := f_Until f; f_Limit := limit; f_Offset := offset |}.

Lemma pages_cover {A} f limit n (l : list A) : 1 ≤ limit ≤ 500 →
  mjoin ((λ k, page (from_offset f limit (Z.of_nat k * limit)) l) <$> seq 0 n) = take (n * Z.to_nat limit) l.
Proof.
  intros Hl. induction n as [|n IH]; [done|]. rewrite seq_S, fmap_app, join_app, IH. cbn [fmap list_fmap mjoin list_join Nat.add].
  rewrite app_nil_r, page_drop by (cbn; lia). cbn [f_Limit f_Offset from_offset].
  replace (Z.to_nat (Z.of_nat n * limit)) with (n * Z.to_nat limit)%nat by lia.
  rewrite take_take_drop. f_equal. lia.
Qed.

(** ** Invocations *)

Section invocations.
Context (marshal : Event → option string).

Definition run_all (l : logs) (invs : list (invoke_env * invocation)) : logs := foldl (λ l ei, invokeArgs marshal ei.1 ei.2 l) l invs.

(** The records of the invocations whose statement did not fail. *)
Definition stored (invs : list (invoke_env * invocation)) : list Call :=
  (λ ei, call_record ei.1 ei.2) <$> filter (λ ei, ie_insert_fails ei.1 = false) invs.

Lemma run_all_holds invs l t cs : lg_store l = Some t → holds t cs → t_seq t + Z.of_nat (length invs) ≤ max_int64 →
  ∃ t', lg_store (run_all l invs) = Some t' ∧ holds t' (cs ++ stored invs).
Proof.
  unfold stored. revert l t cs. induction invs as [|[e i] invs IH]; intros l t cs Hl Ht Hn.
  { exists t. by rewrite app_nil_r. }
  cbn [run_all foldl length] in *. destruct (ie_insert_fails e) eqn:Hf.
  - rewrite filter_cons_False by (cbn; by rewrite Hf). apply (IH _ t); [|done|lia].
    unfold invokeArgs. cbn [fst snd lg_store]. rewrite Hl. unfold Insert. by rewrite Hf.
  - rewrite filter_cons_True by done. cbn [fmap list_fmap fst snd].
    destruct (holds_Insert t cs (call_record e i) Ht) as (t' & Hins & Ht' & Hseq); [lia|].
    rewrite cons_middle, app_assoc. apply (IH _ t'); [|done|lia].
    unfold invokeArgs. cbn [fst snd lg_store]. by rewrite Hl, Hf, Hins.
Qed.
End invocations.

(** The aggregates of calls. *)
Definition summary (cs : list Call) : Stats :=
  let total := sum (c_DurationMS <$> cs) in
  {| st_Total := Z.of_nat (length cs); st_Failed := Z.of_nat (length (filter (λ c, c_Success c = false) cs));
     st_AvgMS := if decide (cs = []) then 0 else Z.quot total (Z.of_nat (length cs)); st_TotalMS := total |}.

Lemma List_holds f t cs : holds t cs → written (f_Since f) → written (f_Until f) →
  Forall (λ c, written (c_Time c) ∧ apart f (c_Time c)) cs →
  min_int64 ≤ sum (c_DurationMS <$> filter (λ c, wants f c = true) cs) ≤ max_int64 →
  List false f (Some t) = Ok (shown <$> page f (reverse (filter (λ c, wants f c = true) cs)), summary (filter (λ c, wants f c = true) cs)).
Proof.
  intros [_ Hr] Hs Hu Hcs Hsum. unfold List. rewrite Forall_forall in Hcs.
  assert (Forall2 (λ r c, ∃ id, r = row_of id c) (filter (λ r, filterSQL f r = true) (t_rows t)) (filter (λ c, wants f c = true) cs)) as Hm.
  { apply filter_agree; [done|]. intros id c Hc. destruct (Hcs c Hc). by rewrite filterSQL_wants. }
  assert (∀ c, c ∈ filter (λ c, wants f c = true) cs → written (c_Time c)) as Hw by (intros c [_ Hc]%list_elem_of_filter; apply (Hcs c Hc)).
  revert Hm Hw Hsum. generalize (filter (λ r, filterSQL f r = true) (t_rows t)) as rows. generalize (filter (λ c, wants f c = true) cs) as ms.
  intros ms rows Hm Hw Hsum. unfold stats. rewrite (rows_fields r_duration_ms c_DurationMS rows ms) by done.
  rewrite bool_decide_true by done. cbn [mbind result_bind mret result_ret]. rewrite (Forall2_length _ _ _ Hm). f_equal. f_equal.
  - unfold page. rewrite !fmap_take, !fmap_drop, !fmap_reverse. do 3 f_equal. apply rows_fields; [done|]. intros. by apply scan_row_of, Hw.
  - unfold summary. f_equal.
    + do 2 f_equal.
      assert (Forall2 (λ r c, ∃ id, r = row_of id c) (filter (λ r, r_success r = 0) rows) (filter (λ c, c_Success c = false) ms)) as H2.
      { apply filter_agree; [done|]. intros id c _. cbn. by destruct (c_Success c). }
      apply (Forall2_length _ _ _ H2).
    + destruct ms; [done|]. rewrite !decide_False by done. done.
Qed.

(** C18. The console shows the calls that were made. Whatever invocations run on
    a store with calls [cs], a page of the calls that a filter asks for is that
    part of all of them (those of [cs] and the invocations whose statement did
    not fail), newest first, as they were recorded, with arguments cut at 16 KiB;
    the totals are those of all matching calls, not of the page; and pages from
    the offsets 0, n, 2n, ... together are every matching call once. The bounds
    of the time are those of the filter as long as no call is of the same
    second. *)
Theorem console_shows_calls marshal invs l t cs f :
  lg_store l = Some t → holds t cs → t_seq t + Z.of_nat (length invs) ≤ max_int64 →
  let all := cs ++ stored invs in
  let matching := filter (λ c, wants f c = true) all in
  written (f_Since f) → written (f_Until f) → Forall (λ c, written (c_Time c) ∧ apart f (c_Time c)) all →
  min_int64 ≤ sum (c_DurationMS <$> matching) ≤ max_int64 →
  List false f (lg_store (run_all marshal l invs)) = Ok (shown <$> page f (reverse matching), summary matching) ∧
  ∀ limit n, 1 ≤ limit ≤ 500 → (length matching ≤ n * Z.to_nat limit)%nat →
    (seq 0 n ≫= λ k, match List false (from_offset f limit (Z.of_nat k * limit)) (lg_store (run_all marshal l invs)) with
                     | Ok (calls, _) => calls | Err _ => [] end) = shown <$> reverse matching.
Proof.
  intros Hl Ht Hn all matching Hs Hu Hall Hsum. destruct (run_all_holds marshal invs l t cs Hl Ht Hn) as (t' & -> & Ht').
  split; [by apply List_holds|]. intros limit n Hlim Hlen.
  assert (∀ k, match List false (from_offset f limit (Z.of_nat k * limit)) (Some t') with Ok (calls, _) => calls | Err _ => [] end =
    shown <$> page (from_offset f limit (Z.of_nat k * limit)) (reverse matching)) as E.
  { intros k. by rewrite (List_holds (from_offset f limit (Z.of_nat k * limit)) t' (cs ++ stored invs)). }
  transitivity (shown <$> mjoin ((λ k, page (from_offset f limit (Z.of_nat k * limit)) (reverse matching)) <$> seq 0 n)).
  - clear Hlen. induction (seq 0 n) as [|k ks IH]; [done|]. cbn [mbind list_bind fmap list_fmap mjoin list_join].
    rewrite fmap_app, E. f_equal. exact IH.
  - rewrite pages_cover, take_ge by (rewrite ?length_reverse; lia). done.
Qed.

(** ** Retention *)

Lemma filter_implied {A} (P Q : A → Prop) `{!∀ x, Decision (P x), !∀ x, Decision (Q x)} (l : list A) :
  (∀ x, x ∈ l → Q x → P x) → filter Q (filter P l) = filter Q l.
Proof.
  induction l as [|x l IH]; intros Hl; [done|]. assert (filter Q (filter P l) = filter Q l) as E by (apply IH; intros; apply Hl; [by right|done]).
  destruct (decide (Q x)) as [Hq|Hq].
  - rewrite (filter_cons_True P) by (by apply Hl; [left|]). by rewrite !filter_cons_True, E.
  - rewrite (filter_cons_False Q x l) by done. destruct (decide (P x)).
    + by rewrite (filter_cons_True P), filter_cons_False.
    + by rewrite (filter_cons_False P).
Qed.

(** Pruning is exact to a second: of the calls of a store it removes every
    one from before the second of the limit, and none from after it; what is
    left is in its order, and the number removed is told. *)
Theorem prune_within_a_second t cs limit : holds t cs → written limit → Forall (λ c, written (c_Time c)) cs →
  ∃ t' cs', Prune false limit (Some t) = Ok (Z.of_nat (length cs - length cs'), Some t') ∧ holds t' cs' ∧ cs' `sublist_of` cs ∧
    Forall (λ c, seconds limit ≤ seconds (c_Time c)) cs' ∧
    filter (λ c, seconds limit < seconds (c_Time c)) cs' = filter (λ c, seconds limit < seconds (c_Time c)) cs.
Proof.
  intros [Ha Hr] Hlim Hcs. set (keep := λ c, String.ltb (RFC3339Nano (c_Time c)) (RFC3339Nano limit) = false).
  assert (Forall2 (λ r c, ∃ id, r = row_of id c) (filter (λ r, String.ltb (r_time r) (RFC3339Nano limit) = false) (t_rows t)) (filter keep cs)) as Hm
    by by apply filter_agree.
  exists {| t_args := t_args t; t_seq := t_seq t; t_rows := filter (λ r, String.ltb (r_time r) (RFC3339Nano limit) = false) (t_rows t) |}, (filter keep cs).
  rewrite Forall_forall in Hcs. split; [|split; [by split|split; [apply sublist_filter|split]]].
  - unfold Prune. do 2 f_equal. rewrite (Forall2_length _ _ _ Hm), (Forall2_length _ _ _ Hr). pose proof (length_filter keep cs). lia.
  - apply Forall_forall. intros c [Hk Hc]%list_elem_of_filter. destruct (decide (seconds limit ≤ seconds (c_Time c))) as [|Hlt]; [done|].
    unfold keep in Hk. rewrite ltb_texts in Hk by (auto || lia). apply bool_decide_eq_false in Hk.
    unfold seconds, billion in *. Z.div_mod_to_equations. lia.
  - apply filter_implied. intros c Hc Hlt. unfold keep. rewrite ltb_texts by (auto || lia). apply bool_decide_eq_false. unfold seconds, billion in *. Z.div_mod_to_equations. lia.
Qed.

(** ** The audit log *)

Definition text_of (lines : list string) : string := String.concat "" ((λ x, x +:+ newline_text) <$> lines).
(** A line that the view can show: no line end in it, and within the buffer. *)
Definition fits (x : string) : Prop :=
  no_sep Search.newline x ∧ TrimSuffix x Search.return_char = x ∧ (String.length x ≤ tail_token)%nat.

Lemma concat_cons x l : String.concat "" (x :: l) = x +:+ String.concat "" l.
Proof. destruct l; cbn; [by rewrite String_app_nil_r|done]. Qed.

Lemma text_of_app k l : text_of (k ++ l) = text_of k +:+ text_of l.
Proof.
  unfold text_of. induction k as [|x k IH]; [done|]. cbn [app fmap list_fmap] in *. by rewrite !concat_cons, IH, !str_app_assoc.
Qed.

Lemma Split_not_nil sep s : Split sep s ≠ [].
Proof. destruct s as [|c s]; cbn; [done|]. case_decide; [done|]. by destruct (Split sep s). Qed.

(** The lines that fit, before anything that follows. *)
Lemma scan_text lines rest : Forall fits lines →
  Search.scan_within tail_token (Split Search.newline (text_of lines +:+ rest)) = lines ++ Search.scan_within tail_token (Split Search.newline rest).
Proof.
  induction 1 as [|x lines (Hx & Ht & Hl) _ IH]; [done|]. unfold text_of in *. cbn [fmap list_fmap app]. rewrite concat_cons, str_app_assoc.
  rewrite str_app_assoc. unfold newline_text at 1. change (String Search.newline "" +:+ ?s) with (String Search.newline s).
  rewrite split_app by done. cbn [Search.scan_within].
  destruct (Split Search.newline _) as [|y ys] eqn:E.
  { by apply Split_not_nil in E. }
  rewrite decide_False by lia. rewrite Ht. f_equal. by rewrite <-IH.
Qed.

Definition last_lines (n : nat) (l : list string) : list string := drop (length l - n) l.

Lemma ring_last n ring lines : 0 ≤ n → (length ring ≤ Z.to_nat n)%nat →
  foldl (ring_add n) ring lines = last_lines (Z.to_nat n) (ring ++ lines).
Proof.
  intros Hn. unfold last_lines. revert ring. induction lines as [|x lines IH]; intros ring Hr.
  { rewrite app_nil_r. replace (length ring - Z.to_nat n)%nat with 0%nat by lia. done. }
  cbn [foldl]. unfold ring_add at 2. rewrite length_app. cbn [length]. case_decide as Hlen.
  - rewrite IH by (rewrite length_drop, length_app; cbn; lia).
    replace (length ring + 1 - Z.to_nat n)%nat with 1%nat by lia.
    rewrite (cons_middle x ring lines), app_assoc. set (l := (ring ++ [x]) ++ lines).
    assert (drop 1 (ring ++ [x]) ++ lines = drop 1 l) as ->.
    { subst l. rewrite (drop_app_le (ring ++ [x])); [done|]. rewrite length_app. cbn. lia. }
    rewrite drop_drop, length_drop. f_equal. subst l. rewrite !length_app. cbn. lia.
  - rewrite IH by (rewrite length_app; cbn; lia). by rewrite <-app_assoc.
Qed.

Lemma Tail_text lines rest : Forall fits lines → Search.scan_within tail_token (Split Search.newline rest) = [] →
  Tail adminAuditTailLines (Some (text_of lines +:+ rest)) = last_lines 200 lines.
Proof.
  intros Hl Hr. unfold Tail. change (_ || _) with false. cbv iota zeta. rewrite scan_text, Hr, app_nil_r by done.
  rewrite ring_last by (unfold adminAuditTailLines; cbn [length]; lia). done.
Qed.

(** A line that is longer than the buffer hides everything after it. *)
Lemma long_line_hides lines x rest : Forall fits lines → no_sep Search.newline x → (tail_token < String.length x)%nat →
  Tail adminAuditTailLines (Some (text_of lines +:+ x +:+ newline_text +:+ rest)) = last_lines 200 lines.
Proof.
  intros Hl Hx Hlen. apply Tail_text; [done|]. change (newline_text +:+ rest) with (String Search.newline rest).
  rewrite split_app by done. destruct (Split Search.newline rest) as [|y ys]; cbn [Search.scan_within].
  - case_decide; [done|]. by rewrite decide_True.
  - by rewrite decide_True.
Qed.

(** The event of an invocation as it is written. *)
Definition logged_event (ei : invoke_env * invocation) : Event := {|
  ev_Time := ie_logged ei.1; ev_Event := "mcp.tool"; ev_RequestID := request_of ei.1 ei.2; ev_ActorID := actor_of ei.2;
  ev_Tool := iv_Tool ei.2; ev_DeviceID := iv_DeviceID ei.2; ev_Workspace := iv_Workspace ei.2; ev_Success := Some (succeeded ei.2);
  ev_DurationMS := ie_logged_ms ei.1; ev_ErrorKind := auditErrorKind (iv_Err ei.2) |}.

(** The audit view: as long as every write is whole and every event's line
    fits the buffer of the view, the console shows the newest 200 lines of the
    file, which gains exactly one line for every invocation, in their order and
    whether the call succeeds or the call store takes it. *)
Theorem audit_view_newest marshal invs l lines path :
  lg_audit l = text_of lines → Forall fits lines → TrimSpace path ≠ "" →
  Forall (λ ei, ie_wrote ei.1 = None ∧ ∃ line, marshal (logged_event ei) = Some line ∧ fits line) invs →
  handleAuditTail "GET" path (Some (lg_audit (run_all marshal l invs))) =
    Audit true (last_lines 200 (lines ++ omap (λ ei, marshal (logged_event ei)) invs)).
Proof.
  intros Hl Hlines Hpath Hinvs. unfold handleAuditTail. rewrite !decide_False by (try done; intros H; by apply H). f_equal.
  assert (lg_audit (run_all marshal l invs) = text_of (lines ++ omap (λ ei, marshal (logged_event ei)) invs) ∧
    Forall fits (lines ++ omap (λ ei, marshal (logged_event ei)) invs)) as [-> Hall].
  { revert l lines Hl Hlines. induction Hinvs as [|[e i] invs [Hw (line & Hm & Hfit)] _ IH]; intros l lines Hl Hlines.
    { cbn [omap list_omap run_all foldl]. by rewrite app_nil_r. }
    cbn [omap list_omap run_all foldl]. rewrite Hm.
    destruct (IH (invokeArgs marshal e i l) (lines ++ [line])) as [H1 H2].
    - unfold invokeArgs, Log. cbn [lg_audit audit_event ev_Event ev_Time]. rewrite decide_False by done.
      change (IsZero zero_time) with true. cbv iota zeta. change (marshal _) with (marshal (logged_event (e, i))). rewrite Hm.
      cbn [fst] in Hw. rewrite Hw. cbn [snd]. rewrite Hl, text_of_app. unfold text_of at 3. cbn. done.
    - apply Forall_app. split; [done|by constructor].
    - rewrite <-app_assoc in H1, H2. by split. }
  rewrite <-(String_app_nil_r (text_of _)). by apply Tail_text.
Qed.

(** ** Searching *)

Lemma some_end_true p l s : p s = true → some_end p (l ++ s) = true.
Proof. intros H. induction l as [|x l IH]; cbn; [destruct s; cbn; by rewrite H|]. rewrite IH. apply orb_true_r. Qed.

Lemma some_end_spec p s : some_end p s = true ↔ ∃ k l, s = k ++ l ∧ p l = true.
Proof.
  split; [|intros (k & l & -> & H); by apply some_end_true].
  induction s as [|x s IH]; cbn; intros [H|H]%orb_true_iff; [by exists [], []|done|by exists [], (x :: s)|].
  destruct (IH H) as (k & l & -> & Hl). by exists (x :: k), l.
Qed.

Definition plain_pattern (q : list Z) : Prop := Forall (λ c, c ≠ 37 ∧ c ≠ 95) q.

Lemma like_plain q p s : plain_pattern q →
  like_codes (q ++ p) s = true ↔ ∃ m l, s = m ++ l ∧ lower_char <$> m = lower_char <$> q ∧ like_codes p l = true.
Proof.
  intros H. revert s. induction H as [|c q [H1 H2] _ IH]; intros s; cbn [app].
  { split; [intros ?; by exists [], s|]. intros (m & l & -> & Hm & Hl). by destruct m. }
  cbn [like_codes]. rewrite decide_False by done. destruct s as [|x s].
  { split; [done|]. intros ([|y m] & l & Hs & Hm & _); done. }
  rewrite decide_False by done. rewrite andb_true_iff, bool_decide_eq_true, IH. split.
  - intros (Hx & m & l & -> & Hm & Hl). exists (x :: m), l. cbn. by rewrite Hx, Hm.
  - intros ([|y m] & l & Hs & Hm & Hl); [done|]. cbn in Hs, Hm. injection Hs as -> ->. injection Hm as Hx Hm. split; [done|]. by exists m, l.
Qed.

Lemma codes_app s t : codes (s +:+ t) = codes s ++ codes t.
Proof. unfold codes. by rewrite list_ascii_app, fmap_app. Qed.

(** A search without the wildcards of SQL finds the texts that contain it, in
    either case of ASCII letters. *)
Theorem search_contains q text : plain_pattern (codes q) →
  like ("%" +:+ q +:+ "%") text = true ↔
  ∃ before found after, codes text = before ++ found ++ after ∧ lower_char <$> found = lower_char <$> codes q.
Proof.
  intros Hq. unfold like. rewrite !codes_app. change (codes "%") with [37]. cbn [app like_codes]. rewrite decide_True by done.
  rewrite some_end_spec. split.
  - intros (k & l & E & (m & r & -> & Hm & _)%like_plain); [|done]. by exists k, m, r.
  - intros (k & m & r & E & Hm). exists k, (m ++ r). split; [done|]. apply like_plain; [done|]. exists m, r. split; [done|]. split; [done|].
    cbn. rewrite decide_True by done. rewrite <-(app_nil_r r). by apply some_end_true.
Qed.

(** ** Examples *)

Definition at_ms (ms : Z) : time := 1700000000000000000 + ms * 1000000.
Definition sample_call (t : time) (tool : string) (ok : bool) : Call := {|
  c_Time := t; c_RequestID := "r"; c_ActorID := "ann"; c_Tool := tool; c_DeviceID := "d"; c_Workspace := "w"; c_Success := ok;
  c_DurationMS := 7; c_ErrorKind := if ok then "" else "tool_error"; c_ArgsJSON := "{}" |}.
Definition no_filter : Filter := {|
  f_Tool := ""; f_ActorID := ""; f_DeviceID := ""; f_Workspace := ""; f_Query := ""; f_Success := None; f_Since := zero_time;
  f_Until := zero_time; f_Limit := 0; f_Offset := 0 |}.
Definition table_of (cs : list Call) : table := {| t_args := true; t_seq := Z.of_nat (length cs); t_rows := imap (λ i c, row_of (Z.of_nat i + 1) c) cs |}.

(** A call of the second of the limit, and later than it, is removed: the point
    of its fraction is before the "Z" of the limit. *)
Example prune_drops_newer :
  match Prune false (at_ms 0) (Some (table_of [sample_call (at_ms 500) "bash" true])) with
  | Ok (n, _) => n = 1 | Err _ => False end ∧ at_ms 0 < at_ms 500.
Proof. by vm_compute. Qed.
(** The console's own filter has whole seconds, and leaves out the calls of the
    first of them. *)
Example since_drops_its_second :
  match handleMCPCalls false (λ k, if decide (k = "since") then "2023-11-14T22:13:20Z" else "")
          (Some (table_of [sample_call (at_ms 500) "bash" true; sample_call (at_ms 1000) "read" true])) with
  | Calls calls st _ _ => c_Tool <$> calls = ["read"] ∧ st_Total st = 1 | _ => False end.
Proof. by vm_compute. Qed.
Example wildcards : like "%a_c%" "xABCx" = true ∧ like "%50%%" "500" = true ∧ like "%é_%" "é" = false ∧ like "_" "é" = true.
Proof. by vm_compute. Qed.
Example progress_cut : summarizeProgress (λ _, Some " long ") (λ _, None) "" = "long" ∧
  summarizeProgress (λ p, Some p) (λ _, Some {| pl_Type := "tool_use"; pl_PartText := ""; pl_PartTool := "" |}) "x" = "tool: tool_use".
Proof. by vm_compute. Qed.

Definition sample_invocation (tool : string) (err : option go_err) : invocation := {|
  iv_Request := Some {| tr_Header := " req-1 "; tr_UserID := Some "ann" |}; iv_Tool := tool; iv_DeviceID := "d"; iv_Workspace := "w";
  iv_Args := Some (Some "{}"); iv_Err := err |}.
Definition sample_env (t : time) (fails : bool) : invoke_env := {|
  ie_stored := t; ie_stored_ms := 5; ie_logged := t; ie_logged_ms := 5; ie_fresh := "fresh"; ie_insert_fails := fails; ie_wrote := None |}.
Definition sample_invocations : list (invoke_env * invocation) := [
  (sample_env (at_ms 2000) false, sample_invocation "bash" None);
  (sample_env (at_ms 3000) true, sample_invocation "bash" None);
  (sample_env (at_ms 4000) false, sample_invocation "read" (Some DeadlineExceeded))].
Definition sample_marshal (ev : Event) : option string := Some (ev_Tool ev +:+ ":" +:+ ev_ErrorKind ev).
Definition sample_logs : logs := {| lg_store := Some (table_of [sample_call (at_ms 0) "bash" false]); lg_audit := text_of ["start"] |}.

Lemma sample_holds : holds (table_of [sample_call (at_ms 0) "bash" false]) [sample_call (at_ms 0) "bash" false].
Proof. split; [done|]. repeat constructor. by exists 1. Qed.

Lemma console_shows_calls_witness :
  List false no_filter (lg_store (run_all sample_marshal sample_logs sample_invocations)) =
    Ok ([shown (call_record (sample_env (at_ms 4000) false) (sample_invocation "read" (Some DeadlineExceeded)));
         shown (call_record (sample_env (at_ms 2000) false) (sample_invocation "bash" None));
         shown (sample_call (at_ms 0) "bash" false)],
        {| st_Total := 3; st_Failed := 2; st_AvgMS := 5; st_TotalMS := 17 |}).
Proof.
  refine (proj1 (console_shows_calls sample_marshal sample_invocations sample_logs (table_of [sample_call (at_ms 0) "bash" false])
    [sample_call (at_ms 0) "bash" false] no_filter eq_refl sample_holds _ _ _ _ _)).
  - vm_compute; discriminate.
  - vm_compute; split; [discriminate|reflexivity].
  - vm_compute; split; [discriminate|reflexivity].
  - repeat constructor; try (vm_compute; discriminate); left; reflexivity.
  - vm_compute; split; discriminate.
Defined.

Lemma prune_within_a_second_witness :
  ∃ t' cs', Prune false (at_ms 1500) (Some (table_of [sample_call (at_ms 0) "bash" false])) =
    Ok (Z.of_nat (1 - length cs'), Some t') ∧ Forall (λ c, seconds (at_ms 1500) ≤ seconds (c_Time c)) cs'.
Proof.
  destruct (prune_within_a_second (table_of [sample_call (at_ms 0) "bash" false]) [sample_call (at_ms 0) "bash" false] (at_ms 1500)
    sample_holds) as (t' & cs' & H1 & _ & _ & H2 & _).
  - vm_compute; split; [discriminate|reflexivity].
  - repeat constructor; vm_compute; discriminate.
  - exists t', cs'. split; [exact H1|exact H2].
Defined.

Lemma fits_short x : no_sep Search.newline x → TrimSuffix x Search.return_char = x → Z.of_nat (String.length x) ≤ 1000 → fits x.
Proof. intros H1 H2 H3. split; [done|]. split; [done|]. unfold tail_token. lia. Qed.

Lemma audit_view_newest_witness :
  handleAuditTail "GET" "/var/audit.jsonl" (Some (lg_audit (run_all sample_marshal sample_logs sample_invocations))) =
    Audit true ["start"; "bash:"; "bash:"; "read:timeout"].
Proof.
  rewrite (audit_view_newest sample_marshal sample_invocations sample_logs ["start"] "/var/audit.jsonl" eq_refl).
  - reflexivity.
  - apply Forall_singleton, fits_short; [refine (bool_decide_eq_true_1 _ _); vm_compute; reflexivity|reflexivity|vm_compute; discriminate].
  - vm_compute; discriminate.
  - repeat (apply Forall_cons; split; [split; [reflexivity|]; eexists; split; [reflexivity|]; apply fits_short;
      [refine (bool_decide_eq_true_1 _ _); vm_compute; reflexivity|reflexivity|vm_compute; discriminate]|]).
    constructor.
Defined.

Lemma search_contains_witness : like "%Py%" "numPY" = true ∧
  ∃ before found after, codes "numPY" = before ++ found ++ after ∧ lower_char <$> found = lower_char <$> codes "Py".
Proof.
  split; [vm_compute; reflexivity|]. apply (search_contains "Py" "numPY"); [|vm_compute; reflexivity].
  repeat constructor; discriminate.
Defined.
