(* ===== verification/CodeTools.v ===== *)
(** * Code intelligence

    The tools that read code: declarations and the lines they span
    ([src/internal/agentops/symbols.go]), the cache of them ([index.go]), textual
    references, the graph of dependencies ([depgraph.go]), and the clients of
    language servers ([lsp.go]) with [find_references], which falls back on the
    textual ones ([ops.go]).

    The regular expressions are those of the source, matched as [regexp] does:
    leftmost, preferring earlier alternatives and longer repetitions. What the
    kernel delivers of files is the environment of [Search]; times of files,
    the letters of Unicode, and the parsers of XML and JSON are parameters. *)

From S2P Require Import Prelude GoStrings Json GoPath Paths FileOps Search.
From S2P Require ClientMain.
Open Scope Z_scope.

(** ** Regular expressions, anchored at the start *)

Inductive re : Type :=
| RNone                                   (* the empty text *)
| RChar (f : Z → bool)                    (* a byte *)
| REnd                                    (* the end of the text *)
| RSeq (a b : re) | RAlt (a b : re)
| RStar (a : re)
| RGroup (n : nat) (a : re).

Abbreviation groups := (list (nat * list Z)).

Fixpoint match_re (r : re) (s : list Z) (c : groups) (k : list Z → groups → option groups) : option groups :=
  match r with
  | RNone => k s c
  | RChar f => match s with x :: s => if f x then k s c else None | [] => None end
  | REnd => if decide (s = []) then k s c else None
  | RSeq a b => match_re a s c (λ s c, match_re b s c k)
  | RAlt a b => match match_re a s c k with Some c => Some c | None => match_re b s c k end
  | RGroup n a => match_re a s c (λ s' c, k s' ((n, take (length s - length s') s) :: c))
  | RStar a =>
      (fix star (fuel : nat) (s : list Z) (c : groups) : option groups :=
         match fuel with
         | O => k s c
         | S fuel =>
             match match_re a s c (λ s' c, if decide (length s' < length s)%nat then star fuel s' c else None) with
             | Some c => Some c
             | None => k s c
             end
         end) (length s) s c
  end.
(** [FindStringSubmatch]; a group that took no part is empty. *)
Definition FindStringSubmatch (r : re) (line : string) : option groups := match_re r (codes line) [] (λ _ c, Some c).
Definition group (n : nat) (c : groups) : string :=
  String.string_of_list_ascii (to_char <$> from_option snd [] (list_find (λ g, g.1 = n) c ≫= λ x, Some x.2)).

Definition char_in (s : string) (c : Z) : bool := bool_decide (c ∈ codes s).
Definition is_space (c : Z) : bool := bool_decide (c ∈ [32; 9; 10; 12; 13]).
Definition is_word (c : Z) : bool :=
  bool_decide (48 ≤ c ≤ 57) || bool_decide (65 ≤ c ≤ 90) || bool_decide (97 ≤ c ≤ 122) || bool_decide (c = 95).
Definition ROpt (a : re) : re := RAlt a RNone.
Definition RPlus (a : re) : re := RSeq a (RStar a).
Definition lit (s : string) : re := foldr (λ c r, RSeq (RChar (λ x, bool_decide (x = c))) r) RNone (codes s).
Definition seqs (l : list re) : re := foldr RSeq RNone l.
Fixpoint alts (l : list re) : re := match l with [] => RNone | [a] => a | a :: l => RAlt a (alts l) end.
Definition sp : re := RStar (RChar is_space).
Definition sp1 : re := RPlus (RChar is_space).
Definition word1 : re := RPlus (RChar is_word).
(** [(?:a\s+|b\s+|...)*]. *)
Definition modifiers (l : list string) : re := RStar (alts ((λ w, RSeq (lit w) sp1) <$> l)).
Definition opt_word (w : string) : re := ROpt (RSeq (lit w) sp1).

Definition goFuncRe : re := seqs [
  lit "func"; sp1;
  ROpt (seqs [lit "("; sp; word1; sp1; ROpt (lit "*"); sp; RGroup 1 word1; sp; lit ")"; sp1]);
  RGroup 2 word1; sp; lit "("].
Definition goTypeRe : re := seqs [lit "type"; sp1; RGroup 1 word1; sp1; RGroup 2 (alts [lit "struct"; lit "interface"]); sp; lit "{"].
Definition goTypeAlias : re := seqs [
  lit "type"; sp1; RGroup 1 word1;
  ROpt (RSeq sp1 (RGroup 2 (RPlus (RChar (λ c, negb (is_space c || char_in "{=" c)))))); sp; RAlt (lit "=") REnd].
Definition goConstRe : re := seqs [alts [lit "const"; lit "var"]; sp1; RGroup 1 word1].

Definition javaTypeRe : re := seqs [
  sp; modifiers ["public"; "private"; "protected"; "static"; "final"; "abstract"; "sealed"; "non-sealed"; "strictfp"];
  RGroup 1 (alts (lit <$> ["class"; "interface"; "enum"; "record"])); sp1; RGroup 2 word1].
Definition javaMemRe : re := seqs [
  sp1; modifiers ["public"; "private"; "protected"; "static"; "final"; "abstract"; "synchronized"; "native"; "default"; "transient"; "volatile"];
  RPlus (RChar (λ c, is_word c || is_space c || char_in "<>[],.?" c)); sp1; RGroup 1 word1; sp; lit "("].

Definition tsDeclRe : re := seqs [
  sp; opt_word "export"; opt_word "default"; opt_word "declare"; opt_word "abstract"; ROpt (RGroup 1 (RSeq (lit "async") sp1));
  RGroup 2 (alts [RSeq (lit "function") (ROpt (lit "*")); lit "class"; lit "interface"; lit "enum"; lit "type"]); sp1; RGroup 3 word1].
Definition tsConstRe : re := seqs [
  sp; opt_word "export"; opt_word "declare"; lit "const"; sp1; RGroup 1 word1; sp; lit "="; sp; ROpt (RSeq (lit "async") sp);
  RAlt (seqs [lit "("; RStar (RChar (λ c, negb (char_in ")" c))); lit ")"]) word1; sp; lit "=>"].
Definition tsMethodRe : re := seqs [
  sp1; modifiers ["public"; "private"; "protected"; "static"; "readonly"; "async"; "override"; "abstract"];
  ROpt (RAlt (RSeq (lit "get") sp1) (RSeq (lit "set") sp1)); ROpt (lit "*"); sp; RGroup 1 word1; sp;
  ROpt (seqs [lit "<"; RStar (RChar (λ c, negb (char_in ">" c))); lit ">"]); sp; lit "("].

(** ** Declarations *)

Record Symbol : Type := {
  sy_Name : string; sy_Kind : string; sy_Path : string; sy_Line : Z; sy_EndLine : Z; sy_Signature : string; sy_Container : string;
  sy_Language : string
}.
Record symbolMatch : Type := { sm_name : string; sm_kind : string; sm_container : string; sm_hasBody : bool }.

Definition symbolLanguage (path : string) : string :=
  let ext := ToLower (Ext path) in
  if decide (ext = ".go") then "go"
  else if decide (ext = ".java") then "java"
  else if one_of ext [".ts"; ".tsx"; ".js"; ".jsx"; ".mjs"; ".cjs"] then "typescript"
  else "".

Definition truncateSignature (sig : string) : string := first_bytes 200 sig.
Definition endsWithStatement (trimmed : string) : bool := HasSuffix trimmed ";".

Definition plain_match (name kind : string) (body : bool) : option symbolMatch :=
  Some {| sm_name := name; sm_kind := kind; sm_container := ""; sm_hasBody := body |}.
Definition or_else {A} (o : option A) (p : option A) : option A := match o with Some x => Some x | None => p end.

Definition matchGo (line : string) : option symbolMatch :=
  or_else (m ← FindStringSubmatch goFuncRe line;
           Some (if decide (group 1 m ≠ "")
                 then {| sm_name := group 2 m; sm_kind := "method"; sm_container := group 1 m; sm_hasBody := Contains line "{" |}
                 else {| sm_name := group 2 m; sm_kind := "function"; sm_container := ""; sm_hasBody := Contains line "{" |}))
    (or_else (m ← FindStringSubmatch goTypeRe line; plain_match (group 1 m) (group 2 m) true)
       (or_else (m ← FindStringSubmatch goTypeAlias line; if decide (group 2 m = "") then None else plain_match (group 1 m) "type" false)
          (m ← FindStringSubmatch goConstRe line;
           plain_match (group 1 m) (if HasPrefix (TrimSpace line) "var" then "var" else "const") false))).
Definition matchJava (line : string) : option symbolMatch :=
  or_else (m ← FindStringSubmatch javaTypeRe line;
           plain_match (group 2 m) (group 1 m) (Contains line "{" || HasSuffix (TrimSpace line) ")"))
    (m ← FindStringSubmatch javaMemRe line; if Contains line "=" then None else plain_match (group 1 m) "method" true).
Definition matchTypeScript (line : string) : option symbolMatch :=
  or_else (m ← FindStringSubmatch tsDeclRe line;
           let kind := TrimSuffix (group 2 m) "*" in
           plain_match (group 3 m) kind (one_of kind ["class"; "enum"] || Contains line "{"))
    (or_else (m ← FindStringSubmatch tsConstRe line; plain_match (group 1 m) "function" false)
       (m ← FindStringSubmatch tsMethodRe line;
        if one_of (group 1 m) ["if"; "for"; "while"; "switch"; "catch"; "return"; "function"] then None
        else plain_match (group 1 m) "method" true)).
Definition matchDeclaration (lang line : string) : option symbolMatch :=
  if decide (lang = "go") then matchGo line
  else if decide (lang = "java") then matchJava line
  else if decide (lang = "typescript") then matchTypeScript line
  else None.

(** [braceDelta]; [quote] is the mark of the string it is in. *)
Definition is_quote (c : Z) : bool := bool_decide (c ∈ [34; 96; 39]).
Fixpoint brace_delta (quote : option Z) (s : list Z) : Z :=
  match s with
  | [] => 0
  | c :: s' =>
      match quote with
      | Some q =>
          if decide (c = 92) then match s' with _ :: s'' => brace_delta quote s'' | [] => 0 end
          else if decide (c = q) then brace_delta None s' else brace_delta quote s'
      | None =>
          if is_quote c then brace_delta (Some c) s'
          else if decide (c = 123) then 1 + brace_delta None s'
          else if decide (c = 125) then brace_delta None s' - 1
          else brace_delta None s'
      end
  end.
Definition braceDelta (line : string) : Z := brace_delta None (codes line).

(** ** The symbols of a file *)

Definition ended (line : Z) (sym : Symbol) : Symbol := {|
  sy_Name := sy_Name sym; sy_Kind := sy_Kind sym; sy_Path := sy_Path sym; sy_Line := sy_Line sym; sy_EndLine := line;
  sy_Signature := sy_Signature sym; sy_Container := sy_Container sym; sy_Language := sy_Language sym |}.

(** The state of the loop: the symbols that ended, those that are open with the
    depth they began at, the innermost first, and the depth. *)
Record scan_state : Type := { sc_symbols : list Symbol; sc_open : list (Symbol * Z); sc_depth : Z }.

Definition isComment (trimmed : string) : bool :=
  HasPrefix trimmed "//" || HasPrefix trimmed "*" || HasPrefix trimmed "/*".
(** The declaration of a line, if there is one. *)
Definition declared (lang line : string) : option symbolMatch :=
  let trimmed := TrimSpace line in
  if isComment trimmed then None
  else
    m ← matchDeclaration lang line;
    if bool_decide (sm_name m ≠ "") && negb (endsWithStatement trimmed) then Some m else None.

Fixpoint close_open (line depth : Z) (open : list (Symbol * Z)) (symbols : list Symbol) : list (Symbol * Z) * list Symbol :=
  match open with
  | (sym, startDepth) :: rest =>
      if decide (depth < startDepth) then close_open line depth rest (symbols ++ [ended line sym]) else (open, symbols)
  | [] => ([], symbols)
  end.

Definition symbol_of (rel lang line : string) (i : Z) (m : symbolMatch) (open : list (Symbol * Z)) : Symbol := {|
  sy_Name := sm_name m; sy_Kind := sm_kind m; sy_Path := rel; sy_Line := i; sy_EndLine := 0;
  sy_Signature := truncateSignature (TrimSpace line);
  sy_Container := if decide (sm_container m ≠ "") then sm_container m
                  else match open with (sym, _) :: _ => sy_Name sym | [] => "" end;
  sy_Language := lang |}.

(** A turn of the loop, on line [i]. *)
Definition scan_line (rel lang : string) (i : Z) (line : string) (st : scan_state) : scan_state :=
  let delta := braceDelta line in
  let depth := sc_depth st + delta in
  let st :=
    match declared lang line with
    | None => st
    | Some m =>
        let sym := symbol_of rel lang line i m (sc_open st) in
        if sm_hasBody m && bool_decide (0 < delta)
        then {| sc_symbols := sc_symbols st; sc_open := (sym, depth) :: sc_open st; sc_depth := sc_depth st |}
        else {| sc_symbols := sc_symbols st ++ [ended i sym]; sc_open := sc_open st; sc_depth := sc_depth st |}
    end in
  let '(open, symbols) := close_open i depth (sc_open st) (sc_symbols st) in
  {| sc_symbols := symbols; sc_open := open; sc_depth := depth |}.
Fixpoint scan_all (rel lang : string) (i : Z) (lines : list string) (st : scan_state) : scan_state :=
  match lines with
  | [] => st
  | line :: lines => scan_all rel lang (i + 1) lines (scan_line rel lang i line st)
  end.

(** Two symbols have different lines or files, which leaves [sort.Slice] one
    result. *)
Definition before_symbol (a b : Symbol) : Prop :=
  String.ltb (sy_Path a) (sy_Path b) = true ∨ sy_Path a = sy_Path b ∧ sy_Line a ≤ sy_Line b.
#[export] Instance before_symbol_dec a b : Decision (before_symbol a b).
Proof. unfold before_symbol. apply _. Defined.
Definition sort_symbols (l : list Symbol) : list Symbol := merge_sort before_symbol l.

Definition file_lines (data : string) : list string := Split newline data.
Definition parseSymbols (rel data : string) : list Symbol :=
  let lang := symbolLanguage rel in
  if decide (lang = "") then []
  else
    let lines := file_lines data in
    let st := scan_all rel lang 1 lines {| sc_symbols := []; sc_open := []; sc_depth := 0 |} in
    sort_symbols (sc_symbols st ++ (ended (Z.of_nat (length lines)) ∘ fst <$> reverse (sc_open st))).


(** ** Identifiers *)

(** [strings.Index] of the bytes of a text that is not empty. *)
Fixpoint index_of (s sub : list Z) : option nat :=
  if decide (sub `prefix_of` s) then Some 0%nat
  else match s with [] => None | _ :: s => S <$> index_of s sub end.
Definition identCharAt (line : list Z) (pos : Z) : bool :=
  if decide (pos < 0) then false else from_option is_word false (line !! Z.to_nat pos).
Fixpoint contains_from (fuel : nat) (line symbol : list Z) (i : nat) : bool :=
  match fuel with
  | O => false
  | S fuel =>
      if decide (i + length symbol ≤ length line)%nat then
        match index_of (drop i line) symbol with
        | None => false
        | Some idx =>
            let pos := (i + idx)%nat in
            if negb (identCharAt line (Z.of_nat pos - 1)) && negb (identCharAt line (Z.of_nat (pos + length symbol))) then true
            else contains_from fuel line symbol (pos + 1)
        end
      else false
  end.
(** [containsIdentifier]: a turn leaves at least a byte behind. *)
Definition containsIdentifier (line symbol : string) : bool :=
  contains_from (S (length (codes line))) (codes line) (codes symbol) 0.

(** [validIdentifier]; [letter] says of a rune outside ASCII whether it is a
    letter or digit. *)
Definition validIdentifier (letter : string → bool) (s : string) : bool :=
  bool_decide (s ≠ "") &&
  forallb (λ r, match r with String c "" => is_word (char_val c) || letter r | _ => letter r end) (ClientMain.runes s).

(** ** The files that are read *)

Definition maxSymbolResults : nat := 200.
Definition maxSymbolFileBytes : Z := 2 * 1024 * 1024.
Definition maxReferenceLines : nat := 200.

Inductive code_err : Type :=
| CRequired (what : string) | CUnsupported (rel : string) | CTooLarge (rel : string) | CNotFound (name rel : string)
| CPath (e : path_err) | CContext | CPanic | CManifest (what : string).

Record SymbolHit : Type := { hi_Path : string; hi_Line : Z; hi_Text : string }.

Record symbolFileEntry : Type := { en_ModTimeNs : Z; en_Size : Z; en_Symbols : list Symbol }.
Record symbolIndexFile : Type := { if_Version : Z; if_Files : option (gmap string symbolFileEntry) }.

(** What the code uses of elsewhere: times of files, [unicode], SHA-256 of a
    name in hexadecimal, and the JSON of the index. *)
Record code_lib : Type := {
  cl_mtime : abspath → Z; cl_letter : string → bool; cl_sha : string → string;
  cl_decode : string → option symbolIndexFile; cl_encode : symbolIndexFile → option string
}.

Section code.
Context (lim : limits) (env : search_env) (s : Service) (t : tree) (lib : code_lib).

(** What [walkCodeFiles] does with an entry: the file is given on with its path
    and content. *)
Definition code_file (rootReal : abspath) (pn : abspath * node) : option (string * abspath * string) :=
  let '(p, n) := pn in
  let rel := Rel rootReal p in
  match n with
  | File content _ =>
      if hidden s rel || bool_decide (symbolLanguage rel = "") then None
      else if se_unstattable env p || bool_decide (maxSymbolFileBytes < Z.of_nat (String.length content)) then None
      else Some (rel, p, content)
  | _ => None
  end.
Definition walkCodeFiles (root : abspath) : result code_err (list (string * abspath * string)) :=
  match resolveWorkspaceRoot lim t (AllowSensitiveFiles s) root with
  | Err e => Err (CPath e)
  | Ok rootReal =>
      if se_expired env then Err CContext
      else Ok (omap (code_file rootReal) (WalkDir env t (skip_dir s rootReal rootReal) rootReal))
  end.

(** *** The index *)

(** The map of an index may be nil, which reads as empty and cannot be written. *)
Abbreviation index := (option (gmap string symbolFileEntry)).
Definition symbolIndexPath (dir workspace : string) : string :=
  join_dir dir (first_bytes 16 (cl_sha lib workspace) +:+ ".json").
Definition loadSymbolIndex (dir : string) (file : option string) : index :=
  if decide (dir = "") then Some ∅
  else
    match file with
    | None => Some ∅
    | Some b =>
        match cl_decode lib b with
        | Some f => if decide (if_Version f = 1) then if_Files f else Some ∅
        | None => Some ∅
        end
    end.
Definition index_lookup (rel : string) (mtime size : Z) (i : index) : option (list Symbol) :=
  files ← i; entry ← files !! rel;
  if bool_decide (en_Size entry = size) && bool_decide (en_ModTimeNs entry = mtime) then Some (en_Symbols entry) else None.

Definition symbolIndexMaxBytes : Z := 16 * 1024 * 1024.
(** What [save] would write. *)
Definition index_save (i : index) : option string :=
  files ← i;
  if decide (files = ∅) then None
  else
    b ← cl_encode lib {| if_Version := 1; if_Files := Some files |};
    if decide (symbolIndexMaxBytes < Z.of_nat (String.length b)) then None else Some b.

(** *** [findSymbol] *)

Definition wanted (pattern kind : string) (sym : Symbol) : bool :=
  (bool_decide (kind = "") || bool_decide (sy_Kind sym = kind)) && Contains (ToLower (sy_Name sym)) (ToLower pattern).

(** The loop over the files: [None] when a nil map is written; it ends with the
    symbol that fills the answer. *)
Fixpoint find_files_loop (pattern kind : string) (files : list (string * abspath * string)) (i : index) (out : list Symbol) :
    option (list Symbol * index) :=
  match files with
  | [] => Some (out, i)
  | (rel, p, content) :: files =>
      let size := Z.of_nat (String.length content) in
      let go syms i :=
        let out := out ++ filter (λ sym, wanted pattern kind sym = true) syms in
        if decide (maxSymbolResults ≤ length out)%nat then Some (take maxSymbolResults out, i)
        else find_files_loop pattern kind files i out in
      match index_lookup rel (cl_mtime lib p) size i with
      | Some syms => go syms i
      | None =>
          if se_fault env p then find_files_loop pattern kind files i out
          else
            let syms := parseSymbols rel content in
            m ← i;
            go syms (Some (<[rel := {| en_ModTimeNs := cl_mtime lib p; en_Size := size; en_Symbols := syms |}]> m))
      end
  end.

(** The answer, and what is written to the index file. *)
Definition findSymbol (root : abspath) (dir pattern kind : string) (file : option string) :
    result code_err (list Symbol) * option string :=
  let pattern := TrimSpace pattern in
  if decide (pattern = "") then (Err (CRequired "pattern"), None)
  else
    match walkCodeFiles root with
    | Err e => (Err e, None)
    | Ok files =>
        match find_files_loop pattern kind files (loadSymbolIndex dir file) [] with
        | None => (Err CPanic, None)
        | Some (out, i) => (Ok (sort_symbols out), index_save i)
        end
    end.

(** *** [readSymbol] *)

Record readSymbolResult : Type := { rs_Symbol : Symbol; rs_Content : string; rs_Truncated : bool }.

(** The first symbol of the name: the loop keeps the smallest line. *)
Fixpoint choose (name : string) (syms : list Symbol) (chosen : option Symbol) : option Symbol :=
  match syms with
  | [] => chosen
  | sym :: syms =>
      choose name syms
        (if bool_decide (sy_Name sym = name) &&
            match chosen with Some c => bool_decide (sy_Line sym < sy_Line c) | None => true end
         then Some sym else chosen)
  end.

Definition readSymbol (root : abspath) (rel name : string) (maxLines : Z) : result code_err readSymbolResult :=
  let rel := TrimSpace rel in
  let name := TrimSpace name in
  if bool_decide (rel = "") || bool_decide (name = "") then Err (CRequired "path and symbol")
  else if decide (symbolLanguage rel = "") then Err (CUnsupported rel)
  else
    let maxLines := if bool_decide (maxLines ≤ 0) || bool_decide (512 < maxLines) then 512 else maxLines in
    match resolveAllowedPath lim t (AllowSensitiveFiles s) root rel with
    | Err e => Err (CPath e)
    | Ok abs =>
        match (if se_fault env abs then Err EIO else Stat lim t abs) with
        | Ok (File data _) =>
            if decide (maxSymbolFileBytes < Z.of_nat (String.length data)) then Err (CTooLarge rel)
            else
              match choose name (parseSymbols (logicalPath rel) data) None with
              | None => Err (CNotFound name rel)
              | Some sym =>
                  let lines := file_lines data in
                  let start := sy_Line sym - 1 in
                  let last := Z.min (sy_EndLine sym) (Z.of_nat (length lines)) in
                  let last := if decide (maxLines < last - start) then start + maxLines else last in
                  Ok {| rs_Symbol := sym;
                        rs_Content := Join (String newline "") (take (Z.to_nat (last - start)) (drop (Z.to_nat start) lines));
                        rs_Truncated := bool_decide (maxLines < sy_EndLine sym - sy_Line sym + 1) |}
              end
        | Ok _ => Err (CPath (safePathError "read symbol" rel EISDIR))
        | Err e => Err (CPath (safePathError "read symbol" rel e))
        end
    end.

(** *** [findReferencesTextual] *)

Fixpoint hits_from (path symbol : string) (lineNo : Z) (lines : list string) : list SymbolHit :=
  match lines with
  | [] => []
  | x :: lines =>
      (if containsIdentifier x symbol then [{| hi_Path := path; hi_Line := lineNo; hi_Text := TrimSpace x |}] else []) ++
      hits_from path symbol (lineNo + 1) lines
  end.
(** The lines of a file, of a scanner whose buffer grows to 1 MiB. *)
Definition code_lines (p : abspath) (content : string) : list string :=
  if se_fault env p then [] else scan_within (Z.to_nat (1024 * 1024 - 1)) (Split newline content).
Definition findReferencesTextual (root : abspath) (symbol : string) : result code_err (list SymbolHit) :=
  if negb (validIdentifier (cl_letter lib) symbol) then Err (CRequired "symbol")
  else
    match walkCodeFiles root with
    | Err e => Err e
    | Ok files =>
        Ok (take maxReferenceLines (files ≫= λ f, let '(rel, p, content) := f in hits_from rel symbol 1 (code_lines p content)))
    end.
End code.

(** ** The graph of dependencies *)

Definition maxGraphNodes : nat := 200.
Definition maxGraphEdges : nat := 1000.
Definition maxManifests : nat := 50.

Record DepNode : Type := { dn_ID : string; dn_Path : string; dn_Type : string; dn_Version : string }.
Record DepEdge : Type := { de_From : string; de_To : string; de_Scope : string; de_Version : string }.
Record DepGraphResult : Type := { dg_Type : string; dg_Nodes : list DepNode; dg_Edges : list DepEdge; dg_Truncated : bool }.

Record mavenCoordinate : Type := { mc_GroupID : string; mc_ArtifactID : string; mc_Version : string; mc_Scope : string }.
(** What is decoded of a [pom.xml] and of a [package.json]. *)
Record mavenPomXML : Type := {
  pom_GroupID : string; pom_ArtifactID : string; pom_Version : string; pom_Parent : mavenCoordinate; pom_Dependencies : list mavenCoordinate }.
Record npmPackage : Type := {
  pkg_Name : string; pkg_Version : string; pkg_Dependencies : gmap string string; pkg_DevDependencies : gmap string string }.
(** The decoders, and the order [sort.Slice] leaves. *)
Record graph_lib : Type := {
  gl_pom : string → option mavenPomXML; gl_package : string → option npmPackage;
  gl_sort_nodes : list DepNode → list DepNode; gl_sort_edges : list DepEdge → list DepEdge
}.

(** Adding to the bounded lists: whether one was left out. *)
Record graph : Type := { g_nodes : list DepNode; g_edges : list DepEdge; g_truncated : bool }.
Definition addNode (g : graph) (n : DepNode) : graph :=
  if decide (maxGraphNodes ≤ length (g_nodes g))%nat then {| g_nodes := g_nodes g; g_edges := g_edges g; g_truncated := true |}
  else {| g_nodes := g_nodes g ++ [n]; g_edges := g_edges g; g_truncated := g_truncated g |}.
Definition addEdge (g : graph) (e : DepEdge) : graph :=
  if decide (maxGraphEdges ≤ length (g_edges g))%nat then {| g_nodes := g_nodes g; g_edges := g_edges g; g_truncated := true |}
  else {| g_nodes := g_nodes g; g_edges := g_edges g ++ [e]; g_truncated := g_truncated g |}.
Definition empty_graph : graph := {| g_nodes := []; g_edges := []; g_truncated := false |}.

Record mavenProject : Type := {
  mp_groupID : string; mp_artifactID : string; mp_version : string; mp_parent : mavenCoordinate; mp_dependencies : list mavenCoordinate }.
(** [parseMavenPom], once the file is read and decoded. *)
Definition parseMavenPom (pom : mavenPomXML) : mavenProject := {|
  mp_groupID := pom_GroupID pom; mp_artifactID := pom_ArtifactID pom; mp_version := pom_Version pom; mp_parent := pom_Parent pom;
  mp_dependencies :=
    (λ d, if decide (mc_Scope d = "")
          then {| mc_GroupID := mc_GroupID d; mc_ArtifactID := mc_ArtifactID d; mc_Version := mc_Version d; mc_Scope := "compile" |} else d) <$>
    filter (λ d, mc_GroupID d ≠ "" ∧ mc_ArtifactID d ≠ "") (pom_Dependencies pom) |}.

Definition coordinate (group artifact : string) : string := group +:+ ":" +:+ artifact.
Definition add_project (rel : string) (g : graph) (p : mavenProject) : graph :=
  let parent := mp_parent p in
  let moduleID := if bool_decide (mp_groupID p = "") && bool_decide (mc_GroupID parent ≠ "")
                  then coordinate (mc_GroupID parent) (mp_artifactID p) else coordinate (mp_groupID p) (mp_artifactID p) in
  let g := addNode g {| dn_ID := moduleID; dn_Path := rel; dn_Type := "module"; dn_Version := mp_version p |} in
  let g := if bool_decide (mc_GroupID parent ≠ "") && bool_decide (mc_ArtifactID parent ≠ "")
           then addEdge g {| de_From := moduleID; de_To := coordinate (mc_GroupID parent) (mc_ArtifactID parent); de_Scope := "parent";
                             de_Version := mc_Version parent |} else g in
  foldl (λ g d, addEdge g {| de_From := moduleID; de_To := coordinate (mc_GroupID d) (mc_ArtifactID d); de_Scope := mc_Scope d;
                             de_Version := mc_Version d |}) g (mp_dependencies p).

(** [appendDeps], in the order of the names. *)
Definition append_deps (pkgID scope : string) (deps : gmap string string) (g : graph) : graph :=
  foldl (λ g name, addEdge g {| de_From := pkgID; de_To := "npm:" +:+ name; de_Scope := scope; de_Version := default "" (deps !! name) |}) g
    (merge_sort name_before (map_to_list deps).*1).
Definition add_package (rel : string) (g : graph) (pkg : npmPackage) : graph :=
  if decide (pkg_Name pkg = "") then g
  else
    let pkgID := "npm:" +:+ pkg_Name pkg in
    let g := addNode g {| dn_ID := pkgID; dn_Path := rel; dn_Type := "module"; dn_Version := pkg_Version pkg |} in
    append_deps pkgID "dev" (pkg_DevDependencies pkg) (append_deps pkgID "runtime" (pkg_Dependencies pkg) g).

(** [parseGoMod]: the module, the requirements, and whether it is in a block. *)
Record mod_state : Type := { mo_module : string; mo_requires : list (string * string); mo_block : bool }.
Definition require_of (fields : list string) (st : mod_state) : mod_state :=
  match fields with
  | path :: version :: _ => {| mo_module := mo_module st; mo_requires := mo_requires st ++ [(path, version)]; mo_block := mo_block st |}
  | _ => st
  end.
Definition mod_line (st : mod_state) (raw : string) : mod_state :=
  let line := TrimSpace raw in
  if HasPrefix line "//" || bool_decide (line = "") then st
  else if mo_block st then
    if decide (line = ")") then {| mo_module := mo_module st; mo_requires := mo_requires st; mo_block := false |}
    else require_of (Fields (TrimSuffix line "// indirect")) st
  else
    match CutPrefix line "module " with
    | Some rest => {| mo_module := TrimSpace rest; mo_requires := mo_requires st; mo_block := mo_block st |}
    | None =>
        if HasPrefix line "require (" then {| mo_module := mo_module st; mo_requires := mo_requires st; mo_block := true |}
        else match CutPrefix line "require " with Some rest => require_of (Fields rest) st | None => st end
    end.
Definition parseGoMod (content : string) : option (string * list (string * string)) :=
  let st := foldl mod_line {| mo_module := ""; mo_requires := []; mo_block := false |} (Split newline content) in
  if decide (mo_module st = "") then None else Some (mo_module st, mo_requires st).

Section graph.
Context (lim : limits) (env : search_env) (s : Service) (t : tree) (lib : graph_lib).

(** [findManifests]: entries of the name that are no directories; [expired] is
    the context it is given. *)
Definition manifest (rootReal : abspath) (name : string) (pn : abspath * node) : option string :=
  let '(p, n) := pn in
  let rel := Rel rootReal p in
  if is_dir n || negb (bool_decide (Base p = name)) || hidden s rel then None else Some rel.
Definition findManifests (expired : bool) (rootReal : abspath) (name : string) : list string :=
  if expired then []
  else merge_sort name_before
         (take maxManifests (omap (manifest rootReal name) (WalkDir env t (skip_dir s rootReal rootReal) rootReal))).

(** [os.ReadFile] of a path below the root. *)
Definition read_below (rootReal : abspath) (rel : string) : option string :=
  let p := rootReal ++ Split slash_char rel in
  if se_fault env p then None
  else match Stat lim t p with Ok (File content _) => Some content | _ => None end.

Definition graph_result (kind : string) (g : graph) : DepGraphResult := {|
  dg_Type := kind; dg_Nodes := gl_sort_nodes lib (g_nodes g); dg_Edges := gl_sort_edges lib (g_edges g); dg_Truncated := g_truncated g |}.

Definition add_manifest {A} (rootReal : abspath) (decode : string → option A) (add : string → graph → A → graph) (g : graph) (rel : string) : graph :=
  match read_below rootReal rel ≫= decode with Some x => add rel g x | None => g end.

Definition mavenGraph (rootReal : abspath) : result code_err DepGraphResult :=
  match findManifests (se_expired env) rootReal "pom.xml" with
  | [] => Err (CManifest "no readable pom.xml found")
  | poms => Ok (graph_result "maven"
      (foldl (add_manifest rootReal (λ b, parseMavenPom <$> gl_pom lib b) add_project) empty_graph poms))
  end.
Definition npmGraph (rootReal : abspath) : result code_err DepGraphResult :=
  match findManifests false rootReal "package.json" with
  | [] => Err (CManifest "no readable package.json found")
  | manifests => Ok (graph_result "npm" (foldl (add_manifest rootReal (gl_package lib) add_package) empty_graph manifests))
  end.
Definition goGraph (rootReal : abspath) : result code_err DepGraphResult :=
  match read_below rootReal "go.mod" ≫= parseGoMod with
  | None => Err (CManifest "parse go.mod")
  | Some (module, requires) =>
      let g := addNode empty_graph {| dn_ID := module; dn_Path := "go.mod"; dn_Type := "module"; dn_Version := "" |} in
      Ok (graph_result "go"
        (foldl (λ g r, addEdge g {| de_From := module; de_To := r.1; de_Scope := "require"; de_Version := r.2 |}) g requires))
  end.

Definition fileExists (p : abspath) : bool := match Stat lim t p with Ok (File _ _) => true | _ => false end.
Definition dependencyGraph (root : abspath) : result code_err DepGraphResult :=
  match resolveWorkspaceRoot lim t (AllowSensitiveFiles s) root with
  | Err e => Err (CPath e)
  | Ok rootReal =>
      if fileExists (rootReal ++ ["pom.xml"]) then mavenGraph rootReal
      else if fileExists (rootReal ++ ["package.json"]) then npmGraph rootReal
      else if fileExists (rootReal ++ ["go.mod"]) then goGraph rootReal
      else Err (CManifest "no supported dependency manifest found (pom.xml, package.json or go.mod)")
  end.
End graph.

(** ** Language servers *)

Record lspServerConfig : Type := { sv_Command : string; sv_Args : list string }.
Definition lspServers (lang : string) : option lspServerConfig :=
  if decide (lang = "go") then Some {| sv_Command := "gopls"; sv_Args := [] |}
  else if decide (lang = "typescript") then Some {| sv_Command := "typescript-language-server"; sv_Args := ["--stdio"] |}
  else if decide (lang = "java") then Some {| sv_Command := "jdtls"; sv_Args := [] |}
  else None.

Record lspMessage : Type := { lm_ID : option Z; lm_Result : string; lm_Error : option string }.
Record lspPosition : Type := { lp_Line : Z; lp_Character : Z }.
Record lspRange : Type := { lr_Start : lspPosition; lr_End : lspPosition }.
Record lspLocation : Type := { lo_URI : string; lo_Range : lspRange }.
Inductive lspDocumentSymbol : Type := DocumentSymbol (name : string) (kind : Z) (range : lspRange) (children : list lspDocumentSymbol).

(** What is sent: the parameters of a request or notification, with their method. *)
Inductive lspParams : Type :=
| PInitialize (rootURI name : string) | PInitialized | PDocumentSymbol (uri : string)
| PReferences (uri : string) (line character : Z) (includeDeclaration : bool).
Definition lsp_method (p : lspParams) : string :=
  match p with
  | PInitialize _ _ => "initialize" | PInitialized => "initialized" | PDocumentSymbol _ => "textDocument/documentSymbol"
  | PReferences _ _ _ _ => "textDocument/references"
  end.
Inductive lsp_err : Type := LNotConfigured | LNotInstalled | LStart | LWrite | LClosed | LTimeout | LServer (message : string) | LDecode.

(** A client: the last id, how many writes its pipe still takes, the lines its
    server is going to write with whether the deadline has passed when they come,
    and what was sent. *)
Record lspClient : Type := { lc_nextID : Z; lc_writes : nat; lc_out : list (string * bool); lc_sent : list (option Z * lspParams) }.

(** The decoders of JSON. *)
Record lsp_lib : Type := {
  ll_message : string → option lspMessage; ll_locations : string → option (list lspLocation);
  ll_symbols : string → option (list lspDocumentSymbol); ll_flat : string → option (list (string * Z * lspLocation)) }.
(** Which commands are installed, and of a process that starts the writes its pipe
    takes and the lines it is going to write. *)
Record lsp_env : Type := { le_LookPath : string → bool; le_Start : lspServerConfig → abspath → option (nat * list (string * bool)) }.

Definition uri_of (p : abspath) : string := "file://" +:+ "/" +:+ Join "/" p.

Section lsp.
Context (lib : lsp_lib) (le : lsp_env).

Definition lsp_write (id : option Z) (p : lspParams) (c : lspClient) : option lspClient :=
  match lc_writes c with
  | O => None
  | S k => Some {| lc_nextID := lc_nextID c; lc_writes := k; lc_out := lc_out c; lc_sent := lc_sent c ++ [(id, p)] |}
  end.

(** The loop over the lines. *)
Fixpoint await (id : Z) (out : list (string * bool)) : result lsp_err string * list (string * bool) :=
  match out with
  | [] => (Err LClosed, [])
  | (text, late) :: out =>
      if (late : bool) then (Err LTimeout, out)
      else
        let line := TrimSpace text in
        if bool_decide (line = "") || HasPrefix line "Content-Length:" then await id out
        else
          match ll_message lib line with
          | None => await id out
          | Some resp =>
              if decide (lm_ID resp = Some id)
              then (match lm_Error resp with Some e => Err (LServer e) | None => Ok (lm_Result resp) end, out)
              else await id out
          end
  end.
Definition request (p : lspParams) (c : lspClient) : result lsp_err string * lspClient :=
  let id := lc_nextID c + 1 in
  let c := {| lc_nextID := id; lc_writes := lc_writes c; lc_out := lc_out c; lc_sent := lc_sent c |} in
  match lsp_write (Some id) p c with
  | None => (Err LWrite, c)
  | Some c =>
      let '(r, out) := await id (lc_out c) in
      (r, {| lc_nextID := lc_nextID c; lc_writes := lc_writes c; lc_out := out; lc_sent := lc_sent c |})
  end.
Definition notify (p : lspParams) (c : lspClient) : result lsp_err lspClient :=
  match lsp_write None p c with Some c => Ok c | None => Err LWrite end.

Definition startLSPClient (root : abspath) (lang : string) : result lsp_err lspClient :=
  match lspServers lang with
  | None => Err LNotConfigured
  | Some cfg =>
      if negb (le_LookPath le (sv_Command cfg)) then Err LNotInstalled
      else
        match le_Start le cfg root with
        | None => Err LStart
        | Some (writes, out) =>
            let c := {| lc_nextID := 0; lc_writes := writes; lc_out := out; lc_sent := [] |} in
            match request (PInitialize (uri_of root) (Base root)) c with
            | (Err e, _) => Err e
            | (Ok _, c) => notify PInitialized c
            end
        end
  end.

Definition references (p : abspath) (line character : Z) (includeDeclaration : bool) (c : lspClient) :
    result lsp_err (list lspLocation) * lspClient :=
  match request (PReferences (uri_of p) line character includeDeclaration) c with
  | (Err e, c) => (Err e, c)
  | (Ok raw, c) => (match ll_locations lib raw with Some l => Ok l | None => Err LDecode end, c)
  end.

Definition lspSymbolKind (kind : Z) : string :=
  if bool_decide (kind ∈ [1; 4; 5; 22]) then "class" else if decide (kind = 2) then "method"
  else if bool_decide (kind ∈ [3; 12]) then "function" else if bool_decide (kind ∈ [6; 7; 9; 13]) then "var"
  else if decide (kind = 8) then "struct" else if decide (kind = 10) then "enum"
  else if bool_decide (kind ∈ [11; 23]) then "interface" else if decide (kind = 14) then "const"
  else if decide (kind = 26) then "type" else "symbol".
Definition lsp_symbol (rel name : string) (kind : Z) (r : lspRange) (container : string) : Symbol := {|
  sy_Name := name; sy_Kind := lspSymbolKind kind; sy_Path := rel; sy_Line := lp_Line (lr_Start r) + 1; sy_EndLine := lp_Line (lr_End r) + 1;
  sy_Signature := ""; sy_Container := container; sy_Language := "" |}.
Fixpoint flatten (rel container : string) (s : lspDocumentSymbol) : list Symbol :=
  match s with
  | DocumentSymbol name kind range children => lsp_symbol rel name kind range container :: (children ≫= flatten rel name)
  end.
Definition documentSymbols (p : abspath) (rel : string) (c : lspClient) : result lsp_err (list Symbol) * lspClient :=
  match request (PDocumentSymbol (uri_of p)) c with
  | (Err e, c) => (Err e, c)
  | (Ok raw, c) =>
      (match ll_symbols lib raw with
       | Some (x :: l) => Ok ((x :: l) ≫= flatten rel "")
       | _ =>
           match ll_flat lib raw with
           | None => Err LDecode
           | Some flat => Ok ((λ f, lsp_symbol rel f.1.1 f.1.2 (lo_Range f.2) "") <$> flat)
           end
       end, c)
  end.

(** *** The servers of the workspaces *)

Definition lsp_key (workspace lang : string) : string := workspace +:+ String nul lang.
Abbreviation lspClients := (gmap string lspClient).

(** A client is shared: what is done with it is seen in the table. *)
Definition lspClientFor (enabled : bool) (workspace : string) (root : abspath) (lang : string) (clients : lspClients) :
    option lspClient * lspClients :=
  if negb enabled then (None, clients)
  else
    let key := lsp_key workspace lang in
    match clients !! key with
    | Some c => (Some c, clients)
    | None =>
        match startLSPClient root lang with
        | Err _ => (None, clients)
        | Ok c => (Some c, <[key := c]> clients)
        end
    end.

Definition utf16_units (rune : string) : Z := if decide (String.length rune = 4)%nat then 2 else 1.
Fixpoint column_from (runes : list string) (i : nat) (byteOffset : nat) : Z :=
  match runes with
  | [] => 0
  | r :: runes =>
      if decide (i < byteOffset)%nat then utf16_units r + column_from runes (i + String.length r) byteOffset else 0
  end.
(** A rune beyond U+FFFF is one of four bytes. *)
Definition utf16Column (line : string) (byteOffset : nat) : Z := column_from (ClientMain.runes line) 0 byteOffset.
End lsp.

Section find_references.
Context (lim : limits) (env : search_env) (s : Service) (t : tree) (clib : code_lib) (lib : lsp_lib) (le : lsp_env).
Abbreviation lspClients := (gmap string lspClient).

(** The first declaration that has the name in its line: its line from 0 and column. *)
Fixpoint locate (symbol : string) (lines : list string) (syms : list Symbol) : option (Z * Z) :=
  match syms with
  | [] => None
  | sym :: syms =>
      if bool_decide (sy_Name sym ≠ symbol) then locate symbol lines syms
      else
        match lines !! Z.to_nat (sy_Line sym - 1) with
        | None => locate symbol lines syms
        | Some line =>
            match index_of (codes line) (codes symbol) with
            | None => locate symbol lines syms
            | Some byteIdx => Some (sy_Line sym - 1, utf16Column line byteIdx)
            end
        end
  end.
Definition TrimPrefix (x prefix : string) : string := default x (CutPrefix x prefix).
(** A location as a hit, with [filepath.Rel] of a path as it is written. *)
Definition lsp_hit (root : abspath) (loc : lspLocation) : option SymbolHit :=
  let absRef := TrimPrefix (lo_URI loc) "file://" in
  if negb (IsAbs absRef) then None
  else
    let refRel := Rel root (clean_parts true absRef) in
    if hidden s refRel then None else Some {| hi_Path := refRel; hi_Line := lp_Line (lr_Start (lo_Range loc)) + 1; hi_Text := "" |}.

Definition referencesViaLSP (enabled : bool) (root : abspath) (workspace rel symbol : string) (clients : lspClients) :
    list SymbolHit * bool * lspClients :=
  let lang := symbolLanguage rel in
  if decide (lang = "") then ([], false, clients)
  else
    let '(client, clients) := lspClientFor lib le enabled workspace root lang clients in
    match client with
    | None => ([], false, clients)
    | Some c =>
        match resolveAllowedPath lim t (AllowSensitiveFiles s) root rel with
        | Err _ => ([], false, clients)
        | Ok p =>
            match (if se_fault env p then Err EIO else Stat lim t p) with
            | Ok (File data _) =>
                if decide (maxSymbolFileBytes < Z.of_nat (String.length data)) then ([], false, clients)
                else
                  match locate symbol (file_lines data) (parseSymbols (logicalPath rel) data) with
                  | None => ([], false, clients)
                  | Some (line, col) =>
                      let '(r, c) := references lib p line col true c in
                      let clients := <[lsp_key workspace lang := c]> clients in
                      match r with
                      | Err _ => ([], false, clients)
                      | Ok locations => (omap (lsp_hit root) locations, true, clients)
                      end
                  end
            | _ => ([], false, clients)
            end
        end
    end.

Record references_answer : Type := { ra_engine : string; ra_references : list SymbolHit }.
Definition refEngine (useLSP : bool) : string := if useLSP then "lsp" else "textual".
Definition findReferences (enabled : bool) (root : abspath) (workspace symbol rel : string) (clients : lspClients) :
    result code_err references_answer * lspClients :=
  let symbol := TrimSpace symbol in
  if negb (validIdentifier (cl_letter clib) symbol) then (Err (CRequired "symbol"), clients)
  else
    let '(hits, useLSP, clients) :=
      if decide (rel ≠ "") then referencesViaLSP enabled root workspace rel symbol clients else ([], false, clients) in
    match hits with
    | _ :: _ => (Ok {| ra_engine := refEngine useLSP; ra_references := hits |}, clients)
    | [] =>
        (match findReferencesTextual lim env s t clib root symbol with
         | Ok hits => Ok {| ra_engine := "textual"; ra_references := hits |}
         | Err e => Err e
         end, clients)
    end.
End find_references.
