(* ===== verification/CodeSpec.v ===== *)
(** * What the code tools show

    Symbols are where they are declared and nest as the braces do; the cache
    changes no answer; references are whole identifiers; answers are bounded and
    within the sensitive-file policy; language servers are asked in order, about
    allowed files only, and cannot make a search fail. *)

From S2P Require Import Prelude GoStrings Json GoPath Paths FileOps Search FileSpec CodeTools.
Open Scope Z_scope.

(** ** Symbols of a file *)

(** [b] does not reach beyond [a] when it begins in it. *)
Definition nested (a b : Symbol) : Prop := sy_Line a < sy_Line b → sy_Line b ≤ sy_EndLine a → sy_EndLine b ≤ sy_EndLine a.

(** The declaration a symbol stands for. *)
Definition declares (rel lang : string) (lines : list string) (sym : Symbol) : Prop :=
  ∃ line m, lines !! Z.to_nat (sy_Line sym - 1) = Some line ∧ declared lang line = Some m ∧
    sy_Name sym = sm_name m ∧ sy_Kind sym = sm_kind m ∧ sy_Path sym = rel ∧ sy_Language sym = lang ∧
    sy_Signature sym = first_bytes 200 (TrimSpace line).

Section scan.
Context (rel lang : string) (lines : list string).

(** The symbols that ended and those that are open, innermost first, after the
    first [i] lines. *)
Record scan_ok (i : Z) (fin : list Symbol) (open : list (Symbol * Z)) : Prop := {
  so_decl sym : sym ∈ fin ++ open.*1 → 1 ≤ sy_Line sym ≤ i ∧ declares rel lang lines sym;
  so_ended sym : sym ∈ fin → sy_Line sym ≤ sy_EndLine sym ≤ i;
  so_nested a b : a ∈ fin → b ∈ fin → nested a b;
  so_after a o : a ∈ fin → o ∈ open → sy_Line a < sy_Line o.1 → sy_EndLine a < sy_Line o.1;
  so_open : StronglySorted (λ o p, p.2 < o.2 ∧ sy_Line p.1 < sy_Line o.1) open;
  so_lines : NoDup (sy_Line <$> fin ++ open.*1);
  so_all k line : 1 ≤ k ≤ i → lines !! Z.to_nat (k - 1) = Some line → is_Some (declared lang line) →
    ∃ sym, sym ∈ fin ++ open.*1 ∧ sy_Line sym = k
}.

Lemma scan_ok_start : scan_ok 0 [] [].
Proof. split; cbn; try constructor; intros; try match goal with H : _ ∈ [] |- _ => by apply not_elem_of_nil in H end. lia. Qed.

(** A line without a declaration. *)
Lemma scan_ok_skip i line fin open : scan_ok i fin open → lines !! Z.to_nat i = Some line → declared lang line = None →
  scan_ok (i + 1) fin open.
Proof.
  intros [Hd He Hn Ha Ho Hl Hall] Hline Hnone. split; try done.
  - intros sym Hs. destruct (Hd sym Hs). split; [lia|done].
  - intros sym Hs. specialize (He sym Hs). lia.
  - intros k line' Hk Hl' Hs. destruct (decide (k = i + 1)) as [->|]; [|apply (Hall k line'); [lia|done..]].
    replace (i + 1 - 1) with i in Hl' by lia. rewrite Hline in Hl'. injection Hl' as <-. rewrite Hnone in Hs. by destruct Hs.
Qed.

(** A symbol of its own line, or one that is open from it. *)
Lemma fresh_line i fin open k : scan_ok i fin open → i < k → k ∉ sy_Line <$> fin ++ open.*1.
Proof. intros Hok Hk (sym & -> & Hs)%list_elem_of_fmap. destruct (so_decl _ _ _ Hok sym Hs) as [? _]. lia. Qed.

Lemma all_lines i fin open (fin' : list Symbol) (open' : list (Symbol * Z)) sym : scan_ok i fin open → sy_Line sym = i + 1 →
  sym ∈ fin' ++ open'.*1 → (∀ x, x ∈ fin ++ open.*1 → x ∈ fin' ++ open'.*1) →
  ∀ k line, 1 ≤ k ≤ i + 1 → lines !! Z.to_nat (k - 1) = Some line → is_Some (declared lang line) →
    ∃ sym, sym ∈ fin' ++ open'.*1 ∧ sy_Line sym = k.
Proof.
  intros Hok Hsym Hin Hsub k line Hk Hl Hs. destruct (decide (k = i + 1)) as [->|]; [by exists sym|].
  destruct (so_all _ _ _ Hok k line) as (x & Hx & <-); [lia|done..|]. exists x. split; [by apply Hsub|done].
Qed.

Lemma scan_ok_single i fin open sym : scan_ok i fin open → 0 ≤ i → sy_Line sym = i + 1 → sy_EndLine sym = i + 1 →
  declares rel lang lines sym → scan_ok (i + 1) (fin ++ [sym]) open.
Proof.
  intros Hok Hi Hline Hend Hdecl.
  assert (∀ x, x ∈ fin ++ [sym] ↔ x ∈ fin ∨ x = sym) as Hin by (intros; rewrite elem_of_app, list_elem_of_singleton; done).
  split.
  - intros x. rewrite elem_of_app, Hin. intros [[Hx| ->]|Hx]; [|split; [lia|done]|].
    all: destruct (so_decl _ _ _ Hok x); [by apply elem_of_app; auto|]; split; [lia|done].
  - intros x [Hx| ->]%Hin; [|lia]. pose proof (so_ended _ _ _ Hok x Hx). lia.
  - intros a b [Ha| ->]%Hin [Hb| ->]%Hin; [by apply (so_nested _ _ _ Hok)| | |]; intros H1 H2.
    + pose proof (so_ended _ _ _ Hok a Ha). lia.
    + destruct (so_decl _ _ _ Hok b); [apply elem_of_app; by left|]. lia.
    + lia.
  - intros a o [Ha| ->]%Hin Ho; [by apply (so_after _ _ _ Hok)|]. intros H.
    destruct (so_decl _ _ _ Hok o.1); [apply elem_of_app; right; by apply list_elem_of_fmap_2|]. lia.
  - apply Hok.
  - pose proof (so_lines _ _ _ Hok) as Hnd. rewrite <-app_assoc, fmap_app. cbn [app fmap list_fmap]. rewrite <-Permutation_middle, <-fmap_app.
    apply NoDup_cons. split; [rewrite Hline; by apply (fresh_line i); [|lia]|done].
  - apply (all_lines i fin open _ _ sym Hok Hline); [apply elem_of_app; left; apply Hin; by right|].
    intros x. rewrite !elem_of_app. tauto.
Qed.

Lemma scan_ok_open i fin open sym depth : scan_ok i fin open → 0 ≤ i → sy_Line sym = i + 1 →
  declares rel lang lines sym → Forall (λ o, o.2 < depth) open → scan_ok (i + 1) fin ((sym, depth) :: open).
Proof.
  intros Hok Hi Hline Hdecl Hdepth. split.
  - intros x. cbn [fmap list_fmap]. rewrite elem_of_app, elem_of_cons. intros [Hx|[->|Hx]]; [|split; [cbn; lia|done]|].
    all: destruct (so_decl _ _ _ Hok x); [by apply elem_of_app; auto|]; split; [lia|done].
  - intros x Hx. pose proof (so_ended _ _ _ Hok x Hx). lia.
  - apply Hok.
  - intros a o Ha [->|Ho]%elem_of_cons; [|by apply (so_after _ _ _ Hok)]. cbn. pose proof (so_ended _ _ _ Hok a Ha). lia.
  - constructor; [apply Hok|]. rewrite Forall_forall in *. intros o Ho. split; [by apply Hdepth|]. cbn.
    destruct (so_decl _ _ _ Hok o.1); [apply elem_of_app; right; by apply list_elem_of_fmap_2|]. lia.
  - pose proof (so_lines _ _ _ Hok) as Hnd. cbn [fmap list_fmap]. rewrite <-Permutation_middle. cbn [fmap list_fmap fst].
    apply NoDup_cons. split; [rewrite Hline; by apply (fresh_line i); [|lia]|done].
  - apply (all_lines i fin open _ _ sym Hok Hline); [apply elem_of_app; right; by left|].
    intros x. rewrite !elem_of_app. intros [?|?]; [by left|right; by right].
Qed.

(** The innermost ones end. *)
Lemma scan_ok_close i fin ending open : scan_ok i fin (ending ++ open) →
  scan_ok i (fin ++ (ended i ∘ fst <$> ending)) open.
Proof.
  intros Hok. pose proof (so_open _ _ _ Hok) as Hsorted. apply StronglySorted_app in Hsorted as (Hcross & _ & Hopen).
  assert (∀ x, x ∈ fin ++ (ended i ∘ fst <$> ending) ↔ x ∈ fin ∨ ∃ o, o ∈ ending ∧ x = ended i o.1) as Hin.
  { intros x. rewrite elem_of_app, list_elem_of_fmap.
    split; (intros [H|(o & H1 & H2)]; [by left|right; by exists o]). }
  assert (∀ o, o ∈ ending ++ open → 1 ≤ sy_Line o.1 ≤ i ∧ declares rel lang lines o.1) as Hopened.
  { intros o Ho. apply (so_decl _ _ _ Hok). apply elem_of_app. right. by apply list_elem_of_fmap_2. }
  split.
  - intros x. rewrite elem_of_app, Hin. intros [[Hx|(o & Ho & ->)]|Hx].
    + apply (so_decl _ _ _ Hok), elem_of_app. by left.
    + apply (Hopened o). apply elem_of_app. by left.
    + apply (so_decl _ _ _ Hok), elem_of_app. right. rewrite fmap_app. apply elem_of_app. by right.
  - intros x [Hx|(o & Ho & ->)]%Hin; [by apply Hok|]. cbn. destruct (Hopened o); [apply elem_of_app; by left|]. lia.
  - intros a b [Ha|(o & Ho & ->)]%Hin [Hb|(p & Hp & ->)]%Hin; [by apply Hok| | |]; intros H1 H2; cbn in *.
    + pose proof (so_after _ _ _ Hok a p Ha). specialize (H ltac:(apply elem_of_app; by left)). lia.
    + apply Hok in Hb. lia.
    + lia.
  - intros a o [Ha|(p & Hp & ->)]%Hin Ho; [apply Hok; [done|apply elem_of_app; by right]|]. cbn.
    destruct (Hcross p o Hp Ho). lia.
  - done.
  - pose proof (so_lines _ _ _ Hok) as Hnd. rewrite !fmap_app, <-!list_fmap_compose in *. rewrite <-app_assoc. exact Hnd.
  - intros k line Hk Hl Hs. destruct (so_all _ _ _ Hok k line Hk Hl Hs) as (x & Hx & <-). rewrite fmap_app, !elem_of_app in Hx.
    destruct Hx as [Hx|[(o & -> & Ho)%list_elem_of_fmap|Hx]].
    + exists x. rewrite !elem_of_app. auto.
    + exists (ended i o.1). split; [|done]. rewrite elem_of_app, Hin. left. right. by exists o.
    + exists x. rewrite !elem_of_app. auto.
Qed.

(** *** A turn, and the whole file *)

Definition scan_inv (i : Z) (st : scan_state) : Prop :=
  scan_ok i (sc_symbols st) (sc_open st) ∧ Forall (λ o, o.2 ≤ sc_depth st) (sc_open st).

Lemma close_open_spec line depth open symbols :
  let '(rest, syms) := close_open line depth open symbols in
  ∃ ending, open = ending ++ rest ∧ syms = symbols ++ (ended line ∘ fst <$> ending) ∧
    match rest with o :: _ => o.2 ≤ depth | [] => True end.
Proof.
  revert symbols. induction open as [|[sym start] open IH]; intros symbols; cbn [close_open].
  { exists []. cbn. by rewrite app_nil_r. }
  case_decide as H; [|exists []; cbn; rewrite app_nil_r; cbn; split; [done|split; [done|lia]]].
  specialize (IH (symbols ++ [ended line sym])). destruct (close_open _ _ _ _) as [rest syms]. destruct IH as (ending & -> & -> & Hr).
  exists ((sym, start) :: ending). by rewrite <-app_assoc.
Qed.

Lemma closed_ok i depth open symbols : scan_ok i symbols open →
  let '(rest, syms) := close_open i depth open symbols in scan_ok i syms rest ∧ Forall (λ o, o.2 ≤ depth) rest.
Proof.
  intros Hok. pose proof (close_open_spec i depth open symbols) as H. destruct (close_open _ _ _ _) as [rest syms].
  destruct H as (ending & -> & -> & Hr). apply scan_ok_close in Hok. split; [done|].
  pose proof (so_open _ _ _ Hok) as Hs. destruct rest as [|o rest]; constructor; [done|].
  apply StronglySorted_cons in Hs as [Hs _]. eapply Forall_impl; [exact Hs|]. cbn. intros p [? _]. lia.
Qed.

Lemma scan_line_ok i line st : scan_inv i st → 0 ≤ i → lines !! Z.to_nat i = Some line →
  scan_inv (i + 1) (scan_line rel lang (i + 1) line st).
Proof.
  intros [Hok Hdepth] Hi Hline. unfold scan_line.
  set (st1 := match declared lang line with Some _ => _ | None => _ end).
  assert (scan_ok (i + 1) (sc_symbols st1) (sc_open st1)) as Hok1.
  { subst st1. destruct (declared lang line) as [m|] eqn:Hm; [|by apply (scan_ok_skip i line)].
    assert (declares rel lang lines (symbol_of rel lang line (i + 1) m (sc_open st))) as Hdecl.
    { exists line, m. cbn [sy_Line symbol_of]. replace (i + 1 - 1) with i by lia. by split_and!. }
    destruct (sm_hasBody m && bool_decide (0 < braceDelta line)) eqn:Hbody; cbn [sc_symbols sc_open].
    - apply andb_true_iff in Hbody as [_ Hpos%bool_decide_eq_true]. apply scan_ok_open; try done.
      eapply Forall_impl; [exact Hdepth|]. cbn. intros. lia.
    - apply scan_ok_single; try done. }
  assert (sc_depth st1 = sc_depth st) as Hd by (subst st1; destruct (declared _ _); [by case_match|done]).
  pose proof (closed_ok (i + 1) (sc_depth st + braceDelta line) _ _ Hok1) as Hc.
  destruct (close_open _ _ _ _) as [rest syms]. exact Hc.
Qed.
End scan.

Lemma scan_all_ok rel lang lines pre st : scan_inv rel lang (pre ++ lines) (Z.of_nat (length pre)) st →
  scan_inv rel lang (pre ++ lines) (Z.of_nat (length (pre ++ lines))) (scan_all rel lang (Z.of_nat (length pre) + 1) lines st).
Proof.
  revert pre st. induction lines as [|line lines IH]; intros pre st H; [by rewrite app_nil_r in *|].
  cbn [scan_all]. rewrite cons_middle, app_assoc.
  assert (Z.of_nat (length (pre ++ [line])) = Z.of_nat (length pre) + 1) as Hlen by (rewrite length_app; cbn; lia).
  rewrite <-Hlen. apply IH. rewrite <-app_assoc. cbn [app]. rewrite Hlen. apply scan_line_ok; [done|lia|].
  rewrite Nat2Z.id. by rewrite list_lookup_middle.
Qed.

#[export] Instance before_symbol_total : Total before_symbol.
Proof.
  intros a b. unfold before_symbol, String.ltb. destruct (String.compare (sy_Path a) (sy_Path b)) eqn:E.
  - apply String.compare_eq_iff in E. destruct (decide (sy_Line a ≤ sy_Line b)); [left|right]; right; (split; [done|lia]).
  - by left; left.
  - right; left. by rewrite String.compare_antisym, E.
Qed.

Lemma ltb_irrefl x : String.ltb x x = false.
Proof. unfold String.ltb. pose proof (String.compare_antisym x x) as H. by destruct (String.compare x x). Qed.

Lemma sorted_lines rel l : Sorted before_symbol l → (∀ x, x ∈ l → sy_Path x = rel) → NoDup (sy_Line <$> l) →
  StronglySorted (λ a b, sy_Line a < sy_Line b) l.
Proof.
  intros Hs Hp Hnd.
  assert (StronglySorted (λ a b, sy_Line a ≤ sy_Line b) l) as Hle.
  { apply Sorted_StronglySorted; [intros ? ? ?; cbn; lia|]. clear Hnd. induction Hs as [|a l Hs IH Hhd]; constructor.
    - apply IH. intros x Hx. apply Hp. by right.
    - destruct Hhd as [|b l Hab]; constructor. destruct Hab as [Hlt|[_ Hle]]; [|done].
      rewrite (Hp a), (Hp b), ltb_irrefl in Hlt by (repeat constructor). done. }
  clear Hs Hp. induction Hle as [|a l Hle IH Hall]; constructor; cbn [fmap list_fmap] in Hnd; apply NoDup_cons in Hnd as [Hnot Hnd]; [by apply IH|].
  rewrite Forall_forall in *. intros x Hx. specialize (Hall x Hx). cbn in Hall.
  destruct (decide (sy_Line a = sy_Line x)) as [E|]; [|lia]. destruct Hnot. rewrite E. by apply list_elem_of_fmap_2.
Qed.

(** The symbols of a file are those that ended. *)
Lemma parsed rel data : symbolLanguage rel ≠ "" →
  ∃ fin, scan_ok rel (symbolLanguage rel) (Split newline data) (Z.of_nat (length (Split newline data))) fin [] ∧
    parseSymbols rel data ≡ₚ fin ∧ Sorted before_symbol (parseSymbols rel data).
Proof.
  intros Hlang. unfold parseSymbols. rewrite decide_False by done. set (lines := Split newline data).
  change (file_lines data) with lines. set (lang := symbolLanguage rel) in *.
  pose proof (scan_all_ok rel lang lines [] {| sc_symbols := []; sc_open := []; sc_depth := 0 |}) as H.
  destruct H as [Hok _]. { split; [apply scan_ok_start|constructor]. }
  cbn [app length] in Hok. change (Z.of_nat 0 + 1) with 1 in Hok. set (st := scan_all _ _ _ _ _) in *. set (n := Z.of_nat (length lines)) in *.
  rewrite <-(app_nil_r (sc_open st)) in Hok. apply scan_ok_close in Hok. eexists. split; [exact Hok|]. split; [|apply Sorted_merge_sort, _].
  unfold sort_symbols. by rewrite merge_sort_Permutation, reverse_Permutation.
Qed.

Lemma parsed_range rel data sym : symbolLanguage rel ≠ "" → sym ∈ parseSymbols rel data →
  1 ≤ sy_Line sym ≤ sy_EndLine sym ∧ sy_EndLine sym ≤ Z.of_nat (length (Split newline data)) ∧
  declares rel (symbolLanguage rel) (Split newline data) sym.
Proof.
  intros Hl Hs. destruct (parsed rel data Hl) as (fin & Hok & Hp & _). rewrite Hp in Hs.
  destruct (so_decl _ _ _ _ _ _ Hok sym); [apply elem_of_app; by left|]. pose proof (so_ended _ _ _ _ _ _ Hok sym Hs). split; [lia|]. split; [lia|done].
Qed.

(** C37. The symbols of a file: there is one for each line that declares
    something, and no other, in the order of their lines; each has the name,
    kind and signature of its line and reaches from it to a line of the file
    that is not before it; and no symbol that begins inside another reaches
    beyond the other's end. *)
Theorem parseSymbols_spec rel data : symbolLanguage rel ≠ "" →
  let lines := Split newline data in
  let syms := parseSymbols rel data in
  StronglySorted (λ a b, sy_Line a < sy_Line b) syms ∧
  (∀ k, (∃ sym, sym ∈ syms ∧ sy_Line sym = k) ↔
    1 ≤ k ≤ Z.of_nat (length lines) ∧ ∃ line, lines !! Z.to_nat (k - 1) = Some line ∧ is_Some (declared (symbolLanguage rel) line)) ∧
  (∀ sym, sym ∈ syms → sy_Line sym ≤ sy_EndLine sym ≤ Z.of_nat (length lines) ∧ declares rel (symbolLanguage rel) lines sym) ∧
  (∀ a b, a ∈ syms → b ∈ syms → nested a b).
Proof.
  intros Hlang lines syms. pose proof (parsed_range rel data) as Hrange. destruct (parsed rel data Hlang) as (fin & Hok & Hp & Hs).
  split; [|split; [|split]].
  - apply (sorted_lines rel); [done| |].
    + intros x Hx. destruct (Hrange x Hlang Hx) as (_ & _ & line & m & _ & _ & _ & _ & Hpath & _). done.
    + subst syms. rewrite Hp. pose proof (so_lines _ _ _ _ _ _ Hok) as Hnd. by rewrite app_nil_r in Hnd.
  - intros k. split.
    + intros (x & Hx & <-). destruct (Hrange x Hlang Hx) as (? & ? & line & m & Hl & Hm & _). split; [subst lines; lia|]. exists line. by split; [|eexists].
    + intros (Hk & line & Hl & Hd). destruct (so_all _ _ _ _ _ _ Hok k line Hk Hl Hd) as (x & Hx & <-). rewrite app_nil_r in Hx.
      exists x. subst syms. by rewrite Hp.
  - intros x Hx. destruct (Hrange x Hlang Hx) as (? & ? & ?). split; [subst lines; lia|done].
  - intros a b. subst syms. rewrite Hp. apply (so_nested _ _ _ _ _ _ Hok).
Qed.

(** ** Whole identifiers *)

Lemma index_of_spec s sub i : sub ≠ [] →
  index_of s sub = Some i ↔ sub `prefix_of` drop i s ∧ ∀ j, (j < i)%nat → ¬ sub `prefix_of` drop j s.
Proof.
  intros Hne. revert i. induction s as [|x s IH]; intros i; cbn [index_of]; case_decide as Hp.
  - by apply prefix_nil_inv in Hp.
  - split; [done|]. intros [H _]. rewrite drop_nil in H. by apply prefix_nil_inv in H.
  - split; [intros [= <-]; split; [done|lia]|]. intros [_ Hn]. destruct i as [|i]; [done|]. destruct (Hn 0%nat ltac:(lia)). done.
  - rewrite fmap_Some. split.
    + intros (k & (H1 & H2)%IH & ->). split; [done|]. intros [|j] Hj; [done|]. apply H2. lia.
    + intros [H1 H2]. destruct i as [|i]; [done|]. exists i. split; [|done]. apply IH. split; [done|]. intros j Hj. apply (H2 (S j)). lia.
Qed.

Lemma index_of_none s sub : sub ≠ [] → index_of s sub = None → ∀ j, ¬ sub `prefix_of` drop j s.
Proof.
  intros Hne. induction s as [|x s IH]; cbn [index_of]; case_decide as Hp; try done.
  - intros _ j H. rewrite drop_nil in H. by apply prefix_nil_inv in H.
  - intros H%fmap_None [|j]; [done|]. by apply IH.
Qed.

Section identifiers.
Context (line symbol : list Z) (Hne : symbol ≠ []).

Definition whole_at (pos : nat) : Prop :=
  symbol `prefix_of` drop pos line ∧ identCharAt line (Z.of_nat pos - 1) = false ∧ identCharAt line (Z.of_nat (pos + length symbol)) = false.

Lemma prefix_fits pos : symbol `prefix_of` drop pos line → (pos + length symbol ≤ length line)%nat.
Proof using Hne. intros H%prefix_length. rewrite length_drop in H. destruct symbol; [done|]. cbn in *. lia. Qed.

Lemma contains_from_spec fuel i : (length line < fuel + i)%nat →
  contains_from fuel line symbol i = true ↔ ∃ pos, (i ≤ pos)%nat ∧ whole_at pos.
Proof using Hne.
  revert i. induction fuel as [|fuel IH]; intros i Hf; cbn [contains_from].
  { split; [done|]. intros (pos & Hi & H%proj1%prefix_fits). lia. }
  case_decide as Hlen.
  2: { split; [done|]. intros (pos & Hi & H%proj1%prefix_fits). lia. }
  destruct (index_of (drop i line) symbol) as [idx|] eqn:E.
  - apply index_of_spec in E as [Hp Hbefore]; [|done]. rewrite drop_drop in Hp.
    destruct (negb _ && negb _) eqn:Hb.
    + apply andb_true_iff in Hb as [H1%negb_true_iff H2%negb_true_iff]. split; [|done]. intros _. exists (i + idx)%nat. split; [lia|done].
    + rewrite IH by lia. split; intros (pos & Hpos & Hw); exists pos; (split; [|done]); [lia|].
      destruct (decide (pos < i + idx)%nat) as [Hlt|Hge].
      * destruct (Hbefore (pos - i)%nat); [lia|]. rewrite drop_drop. replace (i + (pos - i))%nat with pos by lia. apply Hw.
      * destruct (decide (pos = (i + idx)%nat)) as [->|]; [|lia]. destruct Hw as (_ & Hw1 & Hw2). by rewrite Hw1, Hw2 in Hb.
  - split; [done|]. intros (pos & Hpos & Hp & _). destruct (index_of_none _ _ Hne E (pos - i)). rewrite drop_drop.
    by replace (i + (pos - i))%nat with pos by lia.
Qed.
End identifiers.

(** A text ends, or begins, with a byte of an identifier. *)
Definition ends_word (l : list Z) : bool := from_option is_word false (last l).
Definition begins_word (l : list Z) : bool := from_option is_word false (head l).

Lemma before_char before rest : identCharAt (before ++ rest) (Z.of_nat (length before) - 1) = ends_word before.
Proof.
  unfold identCharAt, ends_word. destruct before as [|x before _] using rev_ind; [done|].
  rewrite length_app, last_snoc. cbn [length]. rewrite decide_False by lia. replace (Z.to_nat _) with (length before) by lia.
  rewrite <-app_assoc. cbn [app]. by rewrite list_lookup_middle.
Qed.

Lemma after_char before found after :
  identCharAt (before ++ found ++ after) (Z.of_nat (length before + length found)) = begins_word after.
Proof.
  unfold identCharAt, begins_word. rewrite decide_False by lia. rewrite Nat2Z.id, app_assoc, <-length_app.
  rewrite lookup_app_r, Nat.sub_diag by done. by destruct after.
Qed.

(** [containsIdentifier] finds exactly the lines in which the symbol stands
    as a whole: somewhere in the line, with no letter, digit or underscore of
    ASCII on either side. *)
Theorem containsIdentifier_spec line symbol : symbol ≠ "" →
  containsIdentifier line symbol = true ↔
  ∃ before after, codes line = before ++ codes symbol ++ after ∧ ends_word before = false ∧ begins_word after = false.
Proof.
  intros Hne. assert (codes symbol ≠ []) as Hs by (by destruct symbol). unfold containsIdentifier.
  rewrite contains_from_spec by (done || lia). unfold whole_at. split.
  - intros (pos & _ & Hw). pose proof (prefix_fits _ _ Hs pos (proj1 Hw)) as Hlen. destruct Hw as ([after Hp] & H1 & H2).
    assert (codes line = take pos (codes line) ++ codes symbol ++ after) as E by by rewrite <-Hp, take_drop.
    assert (length (take pos (codes line)) = pos) as Hpos by (rewrite length_take; lia).
    exists (take pos (codes line)), after. split; [done|]. rewrite E in H1, H2. rewrite <-Hpos in H1 at 2. rewrite <-Hpos in H2 at 2.
    by rewrite before_char, after_char in *.
  - intros (before & after & E & H1 & H2). exists (length before). split; [lia|]. rewrite E, before_char, after_char.
    split; [|done]. rewrite drop_app_length. by exists after.
Qed.

(** ** The cache *)

(** What a call of [find_symbol] meets: the file system, the times of its files,
    the arguments, and whether the index can be written. *)
Record find_call : Type := {
  fc_env : search_env; fc_tree : tree; fc_mtime : abspath → Z; fc_pattern : string; fc_kind : string; fc_saved : bool }.

Section cache.
Context (lim : limits) (s : Service) (lib : code_lib) (root : abspath).
(** The file a path named when it had a time and a size. *)
Context (content_of : string → Z → Z → string).

Definition at_times (mtime : abspath → Z) : code_lib := {|
  cl_mtime := mtime; cl_letter := cl_letter lib; cl_sha := cl_sha lib; cl_decode := cl_decode lib; cl_encode := cl_encode lib |}.

Definition index_ok (i : option (gmap string symbolFileEntry)) : Prop :=
  ∃ m, i = Some m ∧ map_Forall (λ rel e, en_Symbols e = parseSymbols rel (content_of rel (en_ModTimeNs e) (en_Size e))) m.
Definition stamped (mtime : abspath → Z) (f : string * abspath * string) : Prop :=
  content_of f.1.1 (mtime f.1.2) (Z.of_nat (String.length f.2)) = f.2.

Lemma index_empty_ok : index_ok (Some ∅).
Proof. exists ∅. split; [done|]. apply map_Forall_empty. Qed.

Lemma index_lookup_ok i rel mtime size syms : index_ok i → index_lookup rel mtime size i = Some syms →
  syms = parseSymbols rel (content_of rel mtime size).
Proof.
  intros (m & -> & Hm). unfold index_lookup. cbn [mbind option_bind]. destruct (m !! rel) as [e|] eqn:E; [|done]. cbn [mbind option_bind].
  destruct (_ && _) eqn:Hb; [|done]. apply andb_true_iff in Hb as [<-%bool_decide_eq_true <-%bool_decide_eq_true]. intros [= <-].
  exact (Hm rel e E).
Qed.

(** The symbols a search is for, of the files in their order. *)
Definition all_wanted (pattern kind : string) (files : list (string * abspath * string)) : list Symbol :=
  files ≫= λ f, filter (λ sym, wanted pattern kind sym = true) (parseSymbols f.1.1 f.2).

Lemma find_files_loop_ok env mtime pattern kind files : Forall (stamped mtime) files → Forall (λ f, se_fault env f.1.2 = false) files →
  ∀ i out, index_ok i → (length out < maxSymbolResults)%nat →
  ∃ i', find_files_loop env (at_times mtime) pattern kind files i out =
    Some (take maxSymbolResults (out ++ all_wanted pattern kind files), i') ∧ index_ok i'.
Proof.
  intros Hst Hf. induction files as [|[[rel p] content] files IH]; intros i out Hi Hlen.
  { exists i. cbn [find_files_loop all_wanted mbind list_bind]. rewrite app_nil_r, take_ge by lia. done. }
  apply Forall_cons in Hst as [Hs Hst]. apply Forall_cons in Hf as [Hf1 Hf]. specialize (IH Hst Hf).
  assert (∀ i, index_ok i → ∃ i', (let out' := out ++ filter (λ sym, wanted pattern kind sym = true) (parseSymbols rel content) in
      if decide (maxSymbolResults ≤ length out')%nat then Some (take maxSymbolResults out', i)
      else find_files_loop env (at_times mtime) pattern kind files i out') =
    Some (take maxSymbolResults (out ++ all_wanted pattern kind ((rel, p, content) :: files)), i') ∧ index_ok i') as Hgo.
  { intros j Hj. cbv zeta. change (all_wanted pattern kind ((rel, p, content) :: files)) with
      (filter (λ sym, wanted pattern kind sym = true) (parseSymbols rel content) ++ all_wanted pattern kind files).
    rewrite app_assoc. case_decide as Hfull; [|apply IH; [done|lia]]. exists j. rewrite (take_app_le (out ++ _)) by done. done. }
  cbn [find_files_loop]. change (cl_mtime (at_times mtime)) with mtime.
  destruct (index_lookup _ _ _ _) as [syms|] eqn:El.
  { apply index_lookup_ok in El; [|done]. unfold stamped in Hs. cbn [fst snd] in Hs. rewrite Hs in El. subst syms. by apply Hgo. }
  cbn [fst snd] in Hf1. rewrite Hf1. destruct Hi as (m & -> & Hm). cbn [mbind option_bind]. apply Hgo.
  exists (<[rel := {| en_ModTimeNs := mtime p; en_Size := Z.of_nat (String.length content); en_Symbols := parseSymbols rel content |}]> m).
  split; [done|]. apply map_Forall_insert_2; [|done]. cbn. unfold stamped in Hs. cbn [fst snd] in Hs. by rewrite Hs.
Qed.

(** The files the call reads can be read, and are those of their times. *)
Definition sound_call (c : find_call) : Prop :=
  ∀ files, walkCodeFiles lim (fc_env c) s (fc_tree c) root = Ok files →
    Forall (stamped (fc_mtime c)) files ∧ Forall (λ f, se_fault (fc_env c) f.1.2 = false) files.

Definition answer (c : find_call) : result code_err (list Symbol) :=
  if decide (TrimSpace (fc_pattern c) = "") then Err (CRequired "pattern")
  else match walkCodeFiles lim (fc_env c) s (fc_tree c) root with
       | Err e => Err e
       | Ok files => Ok (sort_symbols (take maxSymbolResults (all_wanted (TrimSpace (fc_pattern c)) (fc_kind c) files)))
       end.
Definition call (dir : string) (file : option string) (c : find_call) : result code_err (list Symbol) * option string :=
  findSymbol lim (fc_env c) s (fc_tree c) (at_times (fc_mtime c)) root dir (fc_pattern c) (fc_kind c) file.

Context (Hcodec : ∀ f b, cl_encode lib f = Some b → cl_decode lib b = Some f).

Lemma saved_ok dir mtime i b : index_ok i → index_save (at_times mtime) i = Some b → index_ok (loadSymbolIndex lib dir (Some b)).
Proof using Hcodec.
  intros (m & -> & Hm). unfold index_save. cbn [mbind option_bind]. case_decide; [done|].
  destruct (cl_encode _ _) as [b'|] eqn:E; [|done]. cbn [mbind option_bind]. case_decide; [done|]. intros [= ->].
  unfold loadSymbolIndex. case_decide; [apply index_empty_ok|]. rewrite (Hcodec _ _ E). by exists m.
Qed.

Lemma call_ok dir file c : sound_call c → index_ok (loadSymbolIndex lib dir file) →
  (call dir file c).1 = answer c ∧ ∀ b, (call dir file c).2 = Some b → index_ok (loadSymbolIndex lib dir (Some b)).
Proof using Hcodec.
  intros Hc Hi. unfold call, findSymbol, answer. cbv zeta. case_decide; [done|].
  destruct (walkCodeFiles _ _ _ _ _) as [files|e] eqn:Ew; [|done]. destruct (Hc files Ew) as [Hst Hf].
  change (loadSymbolIndex (at_times (fc_mtime c)) dir file) with (loadSymbolIndex lib dir file).
  destruct (find_files_loop_ok (fc_env c) (fc_mtime c) (TrimSpace (fc_pattern c)) (fc_kind c) files Hst Hf _ [] Hi) as (i' & -> & Hi'); [unfold maxSymbolResults; cbn; lia|].
  split; [done|]. cbn [snd]. intros b Hb. by apply (saved_ok dir (fc_mtime c) i').
Qed.

(** Calls one after the other, which leave the index to the next. *)
Fixpoint run_calls (dir : string) (file : option string) (calls : list find_call) : list (result code_err (list Symbol)) :=
  match calls with
  | [] => []
  | c :: calls => (call dir file c).1 :: run_calls dir (if fc_saved c then or_else (call dir file c).2 file else file) calls
  end.

End cache.

(** ** Reading a symbol *)

Lemma choose_sub name syms chosen sym : choose name syms chosen = Some sym → sym ∈ syms ∨ chosen = Some sym.
Proof.
  revert chosen. induction syms as [|x syms IH]; intros chosen; cbn [choose]; [by right|]. intros [H|H]%IH; [left; by right|].
  destruct (_ && _); [injection H as ->; left; by left|by right].
Qed.

Lemma choose_first name syms chosen : (∀ c, chosen = Some c → sy_Name c = name) →
  match choose name syms chosen with
  | Some sym => sy_Name sym = name ∧ (∀ x, x ∈ syms ∨ chosen = Some x → sy_Name x = name → sy_Line sym ≤ sy_Line x)
  | None => chosen = None ∧ ∀ x, x ∈ syms → sy_Name x ≠ name
  end.
Proof.
  revert chosen. induction syms as [|x syms IH]; intros chosen Hc; cbn [choose].
  { destruct chosen as [c|]; [|split; [done|]; intros x Hx; by apply not_elem_of_nil in Hx]. split; [by apply Hc|].
    intros y [Hy|[= ->]] _; [by apply not_elem_of_nil in Hy|done]. }
  set (chosen' := if _ && _ then Some x else chosen).
  assert (∀ c, chosen' = Some c → sy_Name c = name) as Hc'.
  { subst chosen'. intros c. destruct (_ && _) eqn:E; [|by apply Hc]. apply andb_true_iff in E as [E%bool_decide_eq_true _]. by intros [= <-]. }
  specialize (IH chosen' Hc'). destruct (choose name syms chosen') as [sym|].
  - destruct IH as [Hn Hmin]. split; [done|]. intros y Hy Hyn.
    assert (∀ c, chosen = Some c → ∃ d, chosen' = Some d ∧ sy_Line d ≤ sy_Line c) as Hmono.
    { intros c Hcc. subst chosen'. rewrite Hcc. destruct (bool_decide (sy_Name x = name)); cbn [andb]; [|by exists c].
      destruct (bool_decide_reflect (sy_Line x < sy_Line c)); eexists; (split; [done|lia]). }
    destruct Hy as [[->|Hy]%elem_of_cons|Hy]; [|by apply Hmin; [left|]|].
    + subst chosen'. rewrite bool_decide_true in Hmin by done. cbn [andb] in Hmin. destruct chosen as [c|].
      * destruct (bool_decide_reflect (sy_Line x < sy_Line c)); [by apply Hmin; [right|]|].
        assert (sy_Line sym ≤ sy_Line c) by (apply Hmin; [by right|by apply Hc]). lia.
      * apply Hmin; [by right|done].
    + destruct (Hmono y Hy) as (d & Hd & Hle). assert (sy_Line sym ≤ sy_Line d) by (apply Hmin; [by right|by apply Hc']). lia.
  - destruct IH as [Hnone Hall]. subst chosen'. destruct (bool_decide_reflect (sy_Name x = name)); cbn [andb] in Hnone.
    + destruct chosen as [c|]; [|done]. by destruct (bool_decide _).
    + split; [done|]. intros y [->|Hy]%elem_of_cons; [done|by apply Hall].
Qed.

(** The lines of a declaration, of which at most [n] are shown. *)
Definition declaration_lines (sym : Symbol) (n : Z) (lines : list string) : list string :=
  take (Z.to_nat n) (take (Z.to_nat (sy_EndLine sym - sy_Line sym + 1)) (drop (Z.to_nat (sy_Line sym - 1)) lines)).
Definition line_limit (maxLines : Z) : Z := if bool_decide (1 ≤ maxLines ≤ 512) then maxLines else 512.

Section reading.
Context (lim : limits) (env : search_env) (s : Service) (t : tree).

(** [readSymbol] answers with the first declaration of the name in the file
    and its lines, the first of them when there are more than the limit, which
    is at most 512, and says so; without such a declaration it says that. *)
Theorem readSymbol_lines root rel name maxLines abs data mode :
  TrimSpace rel = rel → TrimSpace name = name → rel ≠ "" → name ≠ "" → symbolLanguage rel ≠ "" →
  resolveAllowedPath lim t (AllowSensitiveFiles s) root rel = Ok abs → se_fault env abs = false →
  Stat lim t abs = Ok (File data mode) → Z.of_nat (String.length data) ≤ maxSymbolFileBytes →
  let syms := parseSymbols (logicalPath rel) data in
  let n := line_limit maxLines in
  match readSymbol lim env s t root rel name maxLines with
  | Ok r => rs_Symbol r ∈ syms ∧ sy_Name (rs_Symbol r) = name ∧ (∀ x, x ∈ syms → sy_Name x = name → sy_Line (rs_Symbol r) ≤ sy_Line x) ∧
      rs_Content r = Join (String newline "") (declaration_lines (rs_Symbol r) n (Split newline data)) ∧
      (rs_Truncated r = true ↔ n < sy_EndLine (rs_Symbol r) - sy_Line (rs_Symbol r) + 1)
  | Err e => e = CNotFound name rel ∧ ∀ x, x ∈ syms → sy_Name x ≠ name
  end.
Proof.
  intros Hrel Hname Hr Hn Hlang Habs Hfault Hstat Hsize syms n. unfold readSymbol. cbv zeta. rewrite Hrel, Hname.
  rewrite !bool_decide_false by done. cbn [orb]. rewrite decide_False by done. rewrite Habs, Hfault, Hstat, decide_False by lia.
  fold syms. pose proof (choose_first name syms None) as Hf. pose proof (choose_sub name syms None) as Hsub.
  destruct (choose name syms None) as [sym|]; [|by split; [done|]; apply Hf]. destruct Hf as [Hsym Hmin]; [done|].
  destruct (Hsub sym eq_refl) as [Hin|]; [|done]. cbn [rs_Symbol rs_Content rs_Truncated].
  assert (1 ≤ sy_Line sym ≤ sy_EndLine sym ∧ sy_EndLine sym ≤ Z.of_nat (length (Split newline data))) as Hrange.
  { destruct (decide (symbolLanguage (logicalPath rel) = "")) as [E|Hl].
    - subst syms. unfold parseSymbols in Hin. rewrite decide_True in Hin by done. by apply not_elem_of_nil in Hin.
    - destruct (parsed_range (logicalPath rel) data sym Hl Hin) as (? & ? & _). done. }
  assert ((if bool_decide (maxLines ≤ 0) || bool_decide (512 < maxLines) then 512 else maxLines) = n) as ->.
  { subst n. unfold line_limit. destruct (bool_decide_reflect (maxLines ≤ 0)), (bool_decide_reflect (512 < maxLines)),
      (bool_decide_reflect (1 ≤ maxLines ≤ 512)); cbn [orb]; lia. }
  split; [done|]. split; [done|]. split; [intros x Hx; apply Hmin; by left|]. split; [|apply bool_decide_eq_true].
  f_equal. unfold declaration_lines. rewrite take_take. f_equal. change (file_lines data) with (Split newline data). case_decide; lia.
Qed.
End reading.

(** ** References *)

Lemma hits_from_spec path symbol k lines h : h ∈ hits_from path symbol k lines ↔
  ∃ j line, lines !! j = Some line ∧ containsIdentifier line symbol = true ∧
    h = {| hi_Path := path; hi_Line := k + Z.of_nat j; hi_Text := TrimSpace line |}.
Proof.
  revert k. induction lines as [|x lines IH]; intros k; cbn [hits_from].
  { split; [by intros ?%not_elem_of_nil|by intros (j & line & ? & _)]. }
  rewrite elem_of_app, IH. split.
  - intros [H|(j & line & Hl & Hc & ->)].
    + destruct (containsIdentifier x symbol) eqn:E; [|by apply not_elem_of_nil in H]. apply list_elem_of_singleton in H as ->.
      exists 0%nat, x. split; [done|]. split; [done|]. f_equal. lia.
    + exists (S j), line. split; [done|]. split; [done|]. f_equal. lia.
  - intros ([|j] & line & Hl & Hc & ->); [left|right].
    + injection Hl as ->. rewrite Hc. apply list_elem_of_singleton. f_equal. lia.
    + exists j, line. split; [done|]. split; [done|]. f_equal. lia.
Qed.

Section references.
Context (lim : limits) (env : search_env) (s : Service) (t : tree) (lib : code_lib).

(** [h] is a reference below the root: its file is one the policy does not hide,
    of a language and of at most two megabytes, in no skipped directory, and the
    line has the symbol. *)
Definition reference (r : abspath) (symbol : string) (h : SymbolHit) : Prop :=
  ∃ p content mode line, visited env t (skip_dir s r r) r p (File content mode) ∧
    hi_Path h = Rel r p ∧ (AllowSensitiveFiles s = false → isSensitivePath (Rel r p) = false) ∧ symbolLanguage (Rel r p) ≠ "" ∧
    se_unstattable env p = false ∧ Z.of_nat (String.length content) ≤ maxSymbolFileBytes ∧
    1 ≤ hi_Line h ∧ code_lines env p content !! Z.to_nat (hi_Line h - 1) = Some line ∧
    containsIdentifier line symbol = true ∧ hi_Text h = TrimSpace line.

Lemma code_file_spec r p n rel q content : code_file env s r (p, n) = Some (rel, q, content) ↔
  q = p ∧ rel = Rel r p ∧ (∃ mode, n = File content mode) ∧ (AllowSensitiveFiles s = false → isSensitivePath rel = false) ∧
  symbolLanguage rel ≠ "" ∧ se_unstattable env p = false ∧ Z.of_nat (String.length content) ≤ maxSymbolFileBytes.
Proof.
  rewrite <-hidden_spec. unfold code_file. cbv zeta. split.
  - destruct n as [c m| |]; [|done..]. destruct (hidden s (Rel r p)) eqn:Hh; [done|].
    destruct (bool_decide_reflect (symbolLanguage (Rel r p) = "")) as [|Hl]; [done|]. cbn [orb].
    destruct (se_unstattable env p) eqn:Hu; [done|]. destruct (bool_decide_reflect (maxSymbolFileBytes < Z.of_nat (String.length c))); [done|].
    cbn [orb]. intros [= <- <- <-]. split_and!; [done..|by eexists|done|done|done|lia].
  - intros (-> & -> & [m ->] & -> & Hl & -> & Hs). rewrite !bool_decide_false by (done || lia). done.
Qed.

Lemma all_references root symbol hits : findReferencesTextual lim env s t lib root symbol = Ok hits →
  ∃ r l, EvalSymlinks lim t root = Ok r ∧ hits = take 200 l ∧ ∀ h, h ∈ l ↔ reference r symbol h.
Proof.
  unfold findReferencesTextual, walkCodeFiles. destruct (negb _); [done|].
  destruct (resolveWorkspaceRoot _ _ _ _) as [r|] eqn:Er; [|done]. destruct (se_expired env); [done|]. intros [= <-].
  exists r. eexists. split; [by apply (resolveWorkspaceRoot_real lim s t)|]. split; [done|].
  intros h. rewrite list_elem_of_bind. split.
  - intros ([[rel q] content] & Hh & ([p n] & Hv%WalkDir_spec & Hc)%list_elem_of_omap).
    apply code_file_spec in Hc as (-> & -> & [mode ->] & Hpol & Hlang & Hu & Hsz). apply hits_from_spec in Hh as (j & line & Hj & Hc & ->).
    exists p, content, mode, line. split_and!; cbn; try done; [lia|]. by replace (Z.to_nat (1 + Z.of_nat j - 1)) with j by lia.
  - intros (p & content & mode & line & Hv & Hp & Hpol & Hlang & Hu & Hsz & Hk & Hline & Hc & Ht).
    exists (Rel r p, p, content). split.
    + apply hits_from_spec. exists (Z.to_nat (hi_Line h - 1)), line. split; [done|]. split; [done|].
      destruct h as [path k text]. cbn in *. subst. f_equal. lia.
    + apply list_elem_of_omap. exists (p, File content mode). split; [by apply WalkDir_spec|]. apply code_file_spec. split_and!; try done. by exists mode.
Qed.

(** [findReferencesTextual] reports at most two hundred lines, each a
    reference; and all of them when they are fewer. *)
Theorem references_found root symbol hits : findReferencesTextual lim env s t lib root symbol = Ok hits →
  ∃ r, EvalSymlinks lim t root = Ok r ∧ (length hits ≤ 200)%nat ∧
    (∀ h, h ∈ hits → reference r symbol h) ∧ ((length hits < 200)%nat → ∀ h, reference r symbol h → h ∈ hits).
Proof.
  intros (r & l & Hr & -> & Hl)%all_references. exists r. split; [done|]. rewrite length_take. split; [lia|]. split.
  - intros h Hh%take_sub. by apply Hl.
  - intros Hlen h Hh%Hl. rewrite take_ge; [done|lia].
Qed.
End references.

(** ** The graph *)

(** What [addNode] and [addEdge] keep of all that is added. *)
Definition bounded (ns : list DepNode) (es : list DepEdge) (g : graph) : Prop :=
  g_nodes g = take maxGraphNodes ns ∧ g_edges g = take maxGraphEdges es ∧
  g_truncated g = bool_decide (maxGraphNodes < length ns)%nat || bool_decide (maxGraphEdges < length es)%nat.

Lemma bounded_empty : bounded [] [] empty_graph.
Proof. done. Qed.

Lemma take_snoc {A} (n : nat) (l : list A) x :
  take n (l ++ [x]) = if decide (n ≤ length (take n l))%nat then take n l else take n l ++ [x].
Proof.
  rewrite length_take. case_decide as H; [by rewrite take_app_le by lia|]. rewrite !take_ge by (rewrite ?length_app; cbn; lia). done.
Qed.

Lemma bounded_node n ns es g : bounded ns es g → bounded (ns ++ [n]) es (addNode g n).
Proof.
  intros (Hn & He & Ht). unfold addNode, bounded. rewrite take_snoc, <-Hn. assert (length (g_nodes g) = min maxGraphNodes (length ns)) as Hl
    by (rewrite Hn; apply length_take). rewrite length_app. cbn [length].
  destruct (decide (maxGraphNodes ≤ length (g_nodes g))%nat); cbn [g_nodes g_edges g_truncated]; (split; [done|]; split; [done|]).
  - by rewrite bool_decide_true by lia.
  - by rewrite Ht, !(bool_decide_false (maxGraphNodes < _)%nat) by lia.
Qed.

Lemma bounded_edge e ns es g : bounded ns es g → bounded ns (es ++ [e]) (addEdge g e).
Proof.
  intros (Hn & He & Ht). unfold addEdge, bounded. rewrite take_snoc, <-He. assert (length (g_edges g) = min maxGraphEdges (length es)) as Hl
    by (rewrite He; apply length_take). rewrite length_app. cbn [length].
  destruct (decide (maxGraphEdges ≤ length (g_edges g))%nat); cbn [g_nodes g_edges g_truncated]; (split; [done|]; split; [done|]).
  - by rewrite (bool_decide_true (maxGraphEdges < _)%nat), orb_true_r by lia.
  - by rewrite Ht, !(bool_decide_false (maxGraphEdges < _)%nat) by lia.
Qed.

Lemma bounded_edges {A} (f : A → DepEdge) l ns es g : bounded ns es g → bounded ns (es ++ (f <$> l)) (foldl (λ g x, addEdge g (f x)) g l).
Proof.
  revert es g. induction l as [|x l IH]; intros es g H; cbn [foldl fmap list_fmap]; [by rewrite app_nil_r|].
  rewrite cons_middle, app_assoc. by apply IH, bounded_edge.
Qed.

(** What a manifest stands for. *)
Definition module_id (p : mavenProject) : string :=
  if bool_decide (mp_groupID p = "") && bool_decide (mc_GroupID (mp_parent p) ≠ "")
  then coordinate (mc_GroupID (mp_parent p)) (mp_artifactID p) else coordinate (mp_groupID p) (mp_artifactID p).
Definition project_node (rel : string) (p : mavenProject) : list DepNode :=
  [{| dn_ID := module_id p; dn_Path := rel; dn_Type := "module"; dn_Version := mp_version p |}].
Definition maven_edge (p : mavenProject) (scope : string) (d : mavenCoordinate) : DepEdge := {|
  de_From := module_id p; de_To := coordinate (mc_GroupID d) (mc_ArtifactID d); de_Scope := scope; de_Version := mc_Version d |}.
Definition project_edges (p : mavenProject) : list DepEdge :=
  (if bool_decide (mc_GroupID (mp_parent p) ≠ "") && bool_decide (mc_ArtifactID (mp_parent p) ≠ "")
   then [maven_edge p "parent" (mp_parent p)] else []) ++
  ((λ d, maven_edge p (mc_Scope d) d) <$> mp_dependencies p).
Definition package_node (rel : string) (pkg : npmPackage) : list DepNode :=
  if decide (pkg_Name pkg = "") then []
  else [{| dn_ID := "npm:" +:+ pkg_Name pkg; dn_Path := rel; dn_Type := "module"; dn_Version := pkg_Version pkg |}].
Definition npm_edges (pkg : npmPackage) (scope : string) (deps : gmap string string) : list DepEdge :=
  (λ name, {| de_From := "npm:" +:+ pkg_Name pkg; de_To := "npm:" +:+ name; de_Scope := scope; de_Version := default "" (deps !! name) |}) <$>
    merge_sort name_before (map_to_list deps).*1.
Definition package_edges (pkg : npmPackage) : list DepEdge :=
  if decide (pkg_Name pkg = "") then []
  else npm_edges pkg "runtime" (pkg_Dependencies pkg) ++ npm_edges pkg "dev" (pkg_DevDependencies pkg).

Lemma bounded_project rel p ns es g : bounded ns es g → bounded (ns ++ project_node rel p) (es ++ project_edges p) (add_project rel g p).
Proof.
  intros H. unfold add_project, project_edges. cbv zeta. fold (module_id p). rewrite app_assoc.
  apply (bounded_edges (λ d, maven_edge p (mc_Scope d) d)).
  destruct (_ && bool_decide (mc_ArtifactID _ ≠ "")); [|rewrite app_nil_r; by apply bounded_node].
  apply (bounded_edge (maven_edge p "parent" (mp_parent p))). by apply bounded_node.
Qed.

Lemma bounded_package rel pkg ns es g : bounded ns es g → bounded (ns ++ package_node rel pkg) (es ++ package_edges pkg) (add_package rel g pkg).
Proof.
  intros H. unfold add_package, package_node, package_edges, append_deps. cbv zeta. case_decide; [by rewrite !app_nil_r|].
  rewrite app_assoc. do 2 apply bounded_edges. by apply bounded_node.
Qed.

Section graphs.
Context (lim : limits) (env : search_env) (s : Service) (t : tree) (lib : graph_lib).
Context (Hnodes : ∀ l, gl_sort_nodes lib l ≡ₚ l) (Hedges : ∀ l, gl_sort_edges lib l ≡ₚ l).

Definition readable {A} (rootReal : abspath) (decode : string → option A) (rels : list string) : list (string * A) :=
  omap (λ rel, x ← read_below lim env t rootReal rel ≫= decode; Some (rel, x)) rels.

Lemma bounded_manifests {A} rootReal (decode : string → option A) (add : string → graph → A → graph)
    (nodes : string → A → list DepNode) (edges : A → list DepEdge) :
  (∀ rel x ns es g, bounded ns es g → bounded (ns ++ nodes rel x) (es ++ edges x) (add rel g x)) →
  ∀ rels ns es g, bounded ns es g →
  bounded (ns ++ (readable rootReal decode rels ≫= λ m, nodes m.1 m.2)) (es ++ (readable rootReal decode rels ≫= λ m, edges m.2))
    (foldl (add_manifest lim env t rootReal decode add) g rels).
Proof.
  intros Hadd. induction rels as [|rel rels IH]; intros ns es g H; [by cbn; rewrite !app_nil_r|].
  cbn [foldl]. unfold add_manifest at 2, readable. cbn [omap list_omap]. destruct (_ ≫= decode) as [x|]; [|by apply IH].
  cbn [mbind option_bind list_bind fst snd]. rewrite !app_assoc. by apply IH, Hadd.
Qed.

(** Everything the manifests of the workspace name, without bounds. *)
Definition whole_graph (rootReal : abspath) : option (string * list DepNode * list DepEdge) :=
  if fileExists lim t (rootReal ++ ["pom.xml"]) then
    let ms := readable rootReal (λ b, parseMavenPom <$> gl_pom lib b) (findManifests env s t (se_expired env) rootReal "pom.xml") in
    Some ("maven", ms ≫= λ m, project_node m.1 m.2, ms ≫= λ m, project_edges m.2)
  else if fileExists lim t (rootReal ++ ["package.json"]) then
    let ms := readable rootReal (gl_package lib) (findManifests env s t false rootReal "package.json") in
    Some ("npm", ms ≫= λ m, package_node m.1 m.2, ms ≫= λ m, package_edges m.2)
  else
    match read_below lim env t rootReal "go.mod" ≫= parseGoMod with
    | Some (module, requires) =>
        Some ("go", [{| dn_ID := module; dn_Path := "go.mod"; dn_Type := "module"; dn_Version := "" |}],
          (λ r, {| de_From := module; de_To := r.1; de_Scope := "require"; de_Version := r.2 |}) <$> requires)
    | None => None
    end.

Lemma findManifests_shown expired rootReal name rel :
  rel ∈ findManifests env s t expired rootReal name → AllowSensitiveFiles s = false → isSensitivePath rel = false.
Proof using .
  unfold findManifests. destruct expired; [by intros ?%not_elem_of_nil|]. rewrite merge_sort_Permutation. intros Hin%take_sub.
  apply hidden_spec. apply list_elem_of_omap in Hin as ([p n] & _ & Hm). unfold manifest in Hm. cbv zeta in Hm.
  destruct (is_dir n); [done|]. destruct (negb _); [done|]. cbn [orb] in Hm. destruct (hidden s (Rel rootReal p)) eqn:E; [done|].
  by injection Hm as <-.
Qed.

Lemma readable_rel {A} rootReal (decode : string → option A) rels m : m ∈ readable rootReal decode rels → m.1 ∈ rels.
Proof using .
  unfold readable. intros (rel & Hrel & H)%list_elem_of_omap. destruct (_ ≫= decode); [|done]. cbn in H. by injection H as <-.
Qed.

(** The answer is the bounded graph of these nodes and edges. *)
Definition shows (res : DepGraphResult) (ns : list DepNode) (es : list DepEdge) : Prop :=
  dg_Nodes res ≡ₚ take 200 ns ∧ dg_Edges res ≡ₚ take 1000 es ∧ (dg_Truncated res = true ↔ (200 < length ns ∨ 1000 < length es)%nat).

Lemma graph_result_ok kind ns es g : bounded ns es g → shows (graph_result lib kind g) ns es.
Proof using Hnodes Hedges.
  intros (Hn & He & Ht). unfold shows. cbn [graph_result dg_Nodes dg_Edges dg_Truncated]. rewrite Hnodes, Hedges, Hn, He, Ht.
  split; [done|]. split; [done|]. by rewrite orb_true_iff, !bool_decide_eq_true.
Qed.

Definition all_shown (ns : list DepNode) : Prop := AllowSensitiveFiles s = false → ∀ n, n ∈ ns → isSensitivePath (dn_Path n) = false.

Lemma manifests_shown {A} (nodes : string → A → list DepNode) expired rootReal name (decode : string → option A) :
  (∀ rel x n, n ∈ nodes rel x → dn_Path n = rel) →
  all_shown (readable rootReal decode (findManifests env s t expired rootReal name) ≫= λ m, nodes m.1 m.2).
Proof using .
  intros Hpath Hallow n (m & Hm & Hr%readable_rel)%list_elem_of_bind. rewrite (Hpath _ _ _ Hm). by apply (findManifests_shown _ _ _ _ Hr).
Qed.

Lemma project_node_path rel p n : n ∈ project_node rel p → dn_Path n = rel.
Proof using . by intros ->%list_elem_of_singleton. Qed.
Lemma package_node_path rel p n : n ∈ package_node rel p → dn_Path n = rel.
Proof using . unfold package_node. case_decide; [by intros ?%not_elem_of_nil|by intros ->%list_elem_of_singleton]. Qed.

(** [dependencyGraph] reports the modules and dependencies its manifests
    name, the first two hundred and thousand of them, says exactly when that is
    not all, and names no path that the policy hides. *)
Theorem dependencyGraph_spec root res : dependencyGraph lim env s t lib root = Ok res →
  ∃ r ns es, EvalSymlinks lim t root = Ok r ∧ whole_graph r = Some (dg_Type res, ns, es) ∧ shows res ns es ∧ all_shown (dg_Nodes res).
Proof using Hnodes Hedges.
  unfold dependencyGraph. destruct (resolveWorkspaceRoot _ _ _ _) as [r|] eqn:Er; [|done]. intros H.
  enough (∃ ns es, whole_graph r = Some (dg_Type res, ns, es) ∧ shows res ns es ∧ all_shown ns) as (ns & es & Hw & Hs & Hp).
  { exists r, ns, es. split; [by apply (resolveWorkspaceRoot_real lim s t)|]. split; [done|]. split; [done|].
    intros Ha n Hn. rewrite (proj1 Hs) in Hn. apply take_sub in Hn. by apply Hp. }
  unfold whole_graph. cbv zeta.
  destruct (fileExists _ _ (r ++ ["pom.xml"])); [|destruct (fileExists _ _ (r ++ ["package.json"]));
    [|destruct (fileExists _ _ (r ++ ["go.mod"])); [|done]]].
  - unfold mavenGraph in H. destruct (findManifests _ _ _ _ r _) as [|m ms] eqn:Em; [done|]. rewrite <-Em in *. injection H as <-.
    eexists _, _. split; [done|]. split; [|apply manifests_shown, project_node_path].
    apply graph_result_ok, (bounded_manifests r _ _ project_node project_edges bounded_project _ [] []), bounded_empty.
  - unfold npmGraph in H. destruct (findManifests _ _ _ _ r _) as [|m ms] eqn:Em; [done|]. rewrite <-Em in *. injection H as <-.
    eexists _, _. split; [done|]. split; [|apply manifests_shown, package_node_path].
    apply graph_result_ok, (bounded_manifests r _ _ package_node package_edges bounded_package _ [] []), bounded_empty.
  - unfold goGraph in H. destruct (_ ≫= parseGoMod) as [[module requires]|]; [|done]. injection H as <-.
    eexists _, _. split; [done|]. split; [|intros _ n ->%list_elem_of_singleton; by vm_compute].
    apply graph_result_ok. apply (bounded_edges (λ r, {| de_From := module; de_To := r.1; de_Scope := "require"; de_Version := r.2 |}) requires _ []).
    apply (bounded_node _ [] []), bounded_empty.
Qed.
End graphs.

(** ** Language servers *)

Section servers.
Context (lib : lsp_lib).

(** A line is the answer to the request of an id. *)
Definition answers (id : Z) (line : string * bool) (raw : string) : Prop :=
  ∃ m, ll_message lib (TrimSpace line.1) = Some m ∧ lm_ID m = Some id ∧ lm_Error m = None ∧ lm_Result m = raw.

Lemma await_spec id out r rest : await lib id out = (r, rest) →
  (∃ used, out = used ++ rest) ∧ ∀ raw, r = Ok raw → ∃ line, line ∈ out ∧ answers id line raw.
Proof.
  revert r rest. induction out as [|[text late] out IH]; intros r rest; cbn [await]; [intros [= <- <-]; split; [by exists []|done]|].
  assert (await lib id out = (r, rest) → (∃ used, (text, late) :: out = used ++ rest) ∧
    ∀ raw, r = Ok raw → ∃ line, line ∈ (text, late) :: out ∧ answers id line raw) as Hgo.
  { intros [[used ->] H]%IH. split; [by exists ((text, late) :: used)|]. intros raw (line & Hl & Ha)%H. exists line. split; [by right|done]. }
  destruct late; [intros [= <- <-]; split; [by eexists [_]|done]|]. cbv zeta. destruct (_ || _); [done|].
  destruct (ll_message lib (TrimSpace text)) as [m|] eqn:Em; [|done]. case_decide as Hid; [|done]. intros [= <- <-].
  split; [by eexists [_]|]. destruct (lm_Error m) eqn:Ee; [done|]. intros raw [= <-]. eexists. split; [by left|]. by exists m.
Qed.

Lemma request_spec p c r c' : request lib p c = (r, c') →
  lc_nextID c' = lc_nextID c + 1 ∧ (∃ used, lc_out c = used ++ lc_out c') ∧
  (∀ raw, r = Ok raw → ∃ line, line ∈ lc_out c ∧ answers (lc_nextID c + 1) line raw) ∧
  (lc_sent c' = lc_sent c ++ [(Some (lc_nextID c + 1), p)] ∨ lc_sent c' = lc_sent c ∧ r = Err LWrite).
Proof.
  unfold request, lsp_write. cbn [lc_writes lc_nextID lc_out lc_sent]. destruct (lc_writes c); cbn.
  - intros [= <- <-]. split; [done|]. split; [by exists []|]. split; [done|]. by right.
  - destruct (await _ _ _) as [x out] eqn:E. apply await_spec in E as [Hu Hr]. intros [= <- <-]. cbn. split_and!; [done..|]. by left.
Qed.

(** Requests one after the other, whatever the server writes. *)
Fixpoint requests (ps : list lspParams) (c : lspClient) : list (result lsp_err string) :=
  match ps with
  | [] => []
  | p :: ps => (request lib p c).1 :: requests ps (request lib p c).2
  end.

(** The answer to a request is one the server gave to this request: a line
    with its id and no error; what comes late for an earlier request is not
    taken for it. *)
Theorem lsp_answers_matched ps c k raw : requests ps c !! k = Some (Ok raw) →
  ∃ line, line ∈ lc_out c ∧ answers (lc_nextID c + 1 + Z.of_nat k) line raw.
Proof.
  revert c k. induction ps as [|p ps IH]; intros c k; [done|]. cbn [requests].
  destruct (request lib p c) as [r c'] eqn:E. apply request_spec in E as (Hid & [used Hu] & Hr & _). cbn [fst snd].
  destruct k as [|k]; cbn [lookup list_lookup].
  - intros [= ->]. destruct (Hr raw eq_refl) as (line & ? & ?). exists line. split; [done|]. by rewrite Z.add_0_r.
  - intros (line & Hl & Ha)%IH. exists line. split; [rewrite Hu; apply elem_of_app; by right|]. rewrite Hid in Ha.
    by replace (lc_nextID c + 1 + Z.of_nat (S k)) with (lc_nextID c + 1 + 1 + Z.of_nat k) by lia.
Qed.
End servers.

(** [utf16Column] counts the units of the runes before the offset, where that is
    between two runes. *)
Definition utf16_length (runes : list string) : Z := foldr (λ r n, utf16_units r + n) 0 runes.
Lemma column_from_spec before after i : Forall (λ r, r ≠ "") before →
  column_from (before ++ after) i (i + sum_list (String.length <$> before)) = utf16_length before.
Proof.
  revert i. induction before as [|r before IH]; intros i H; cbn [app fmap list_fmap sum_list_with column_from utf16_length foldr].
  - destruct after; [done|]. cbn. rewrite decide_False by lia. done.
  - apply Forall_cons in H as [Hr H]. assert (0 < String.length r)%nat by (destruct r as [|]; [done|]; apply Nat.lt_0_succ).
    change (sum_list_with id) with sum_list. rewrite decide_True; [|unfold id; lia]. unfold id. rewrite Nat.add_assoc. rewrite IH by done. done.
Qed.

Section conversations.
Context (lim : limits) (s : Service) (clib : code_lib) (lib : lsp_lib).
Abbreviation lspClients := (gmap string lspClient).

(** What a server was told: to begin with the workspace, then questions about
    files that the workspace's policy allows, with ids that grow. *)
Definition question (q : Z * abspath * Z * Z) : option Z * lspParams :=
  let '(id, p, line, col) := q in (Some id, PReferences (uri_of p) line col true).
Definition allowed (p : abspath) : Prop := ∃ t root rel, resolveAllowedPath lim t (AllowSensitiveFiles s) root rel = Ok p.
Definition well_told (c : lspClient) : Prop :=
  ∃ root qs, lc_sent c = (Some 1, PInitialize (uri_of root) (Base root)) :: (None, PInitialized) :: (question <$> qs) ∧
    StronglySorted (λ a b, a.1.1.1 < b.1.1.1) qs ∧
    Forall (λ q, 1 < q.1.1.1 ≤ lc_nextID c ∧ allowed q.1.1.2) qs ∧ 1 ≤ lc_nextID c.

Lemma started_told le root lang c : startLSPClient lib le root lang = Ok c → well_told c.
Proof.
  unfold startLSPClient. destruct (lspServers lang) as [cfg|]; [|done]. destruct (negb _); [done|].
  destruct (le_Start le cfg root) as [[writes out]|]; [|done]. cbv zeta. destruct (request _ _ _) as [[raw|] c1] eqn:E; [|done].
  apply request_spec in E as (Hid & _ & _ & [Hs|[_ ?]]); [|done]. unfold notify, lsp_write. destruct (lc_writes c1); [done|].
  intros [= <-]. exists root, []. cbn in *. rewrite Hs, Hid. split; [done|]. split; [constructor|]. split; [constructor|lia].
Qed.

Lemma snoc_sorted {A} (R : A → A → Prop) l x : StronglySorted R l → Forall (λ y, R y x) l → StronglySorted R (l ++ [x]).
Proof.
  induction 1 as [|y l Hs IH Hy]; intros Hx; cbn [app]; [repeat constructor|]. apply Forall_cons in Hx as [Hyx Hx].
  constructor; [by apply IH|]. apply Forall_app. split; [done|]. by repeat constructor.
Qed.

Lemma asked_told p line col c r c' : well_told c → allowed p → references lib p line col true c = (r, c') → well_told c'.
Proof.
  intros (root & qs & Hs & Hsorted & Hqs & Hid) Hp. unfold references. destruct (request _ _ _) as [x c1] eqn:E. intros H.
  assert (c' = c1) as -> by (destruct x; injection H; congruence). clear H. apply request_spec in E as (Hn & _ & _ & Hsent).
  assert (Forall (λ q, 1 < q.1.1.1 ≤ lc_nextID c1 ∧ allowed q.1.1.2) qs) as Hqs1.
  { eapply Forall_impl; [exact Hqs|]. cbn. intros q [? ?]. split; [lia|done]. }
  destruct Hsent as [Hsent|[Hsent _]]; [|exists root, qs; rewrite Hsent; split_and!; [done..|lia]].
  exists root, (qs ++ [(lc_nextID c1, p, line, col)]). split; [|split; [|split; [|lia]]].
  - rewrite Hsent, Hs, Hn, fmap_app. done.
  - apply snoc_sorted; [done|]. eapply Forall_impl; [exact Hqs|]. cbn. intros q [? ?]. lia.
  - apply Forall_app. split; [done|]. apply Forall_cons_2; [|constructor]. cbn. split; [lia|done].
Qed.

Lemma client_told le enabled workspace root lang clients c clients' : map_Forall (λ _, well_told) clients →
  lspClientFor lib le enabled workspace root lang clients = (c, clients') →
  map_Forall (λ _, well_told) clients' ∧ (enabled = false → c = None ∧ clients' = clients) ∧ ∀ x, c = Some x → well_told x.
Proof.
  intros Hall. unfold lspClientFor. destruct enabled; cbn [negb]; [|by intros [= <- <-]]. cbv zeta.
  destruct (clients !! _) as [x|] eqn:El; [intros [= <- <-]; split; [done|]; split; [done|]; intros y [= <-]; by apply (Hall _ _ El)|].
  destruct (startLSPClient _ _ _ _) as [x|] eqn:Es; intros [= <- <-]; [|done]. apply started_told in Es.
  split; [by apply map_Forall_insert_2|]. split; [done|]. by intros y [= <-].
Qed.

(** What comes back from a server, and the table after it. *)
Lemma referencesViaLSP_spec env t le enabled root workspace rel symbol clients hits useLSP clients' :
  map_Forall (λ _, well_told) clients →
  referencesViaLSP lim env s t lib le enabled root workspace rel symbol clients = (hits, useLSP, clients') →
  map_Forall (λ _, well_told) clients' ∧ (enabled = false → clients' = clients) ∧
  (hits ≠ [] → enabled = true ∧ useLSP = true ∧ ∃ raw locations, ll_locations lib raw = Some locations ∧ hits = omap (lsp_hit s root) locations).
Proof.
  intros Hall. unfold referencesViaLSP. cbv zeta. case_decide; [by intros [= <- <- <-]|].
  destruct (lspClientFor _ _ _ _ _ _ _) as [c cl] eqn:Ec. apply (client_told _ _ _ _ _ _ _ _ Hall) in Ec as (Hcl & Hen & Hc).
  assert (([], false, cl) = (hits, useLSP, clients') → map_Forall (λ _, well_told) clients' ∧ (enabled = false → clients' = clients) ∧
    (hits ≠ [] → enabled = true ∧ useLSP = true ∧ ∃ raw locations, ll_locations lib raw = Some locations ∧ hits = omap (lsp_hit s root) locations)) as Hnone.
  { intros [= <- <- <-]. split; [done|]. split; [|done]. intros H0. by apply Hen. }
  destruct c as [c|]; [|done]. destruct (resolveAllowedPath _ _ _ _ _) as [p|] eqn:Ep; [|done].
  destruct (if se_fault env p then _ else _) as [[data mode| |]|]; try done. case_decide; [done|].
  destruct (locate _ _ _) as [[line col]|]; [|done].
  assert (enabled = true) as Hone by (destruct enabled; [done|by destruct (Hen eq_refl)]).
  destruct (references _ _ _ _ _ _) as [r c1] eqn:Er.
  assert (map_Forall (λ _, well_told) (<[lsp_key workspace (symbolLanguage rel) := c1]> cl)) as Hcl1.
  { apply map_Forall_insert_2; [|done]. apply (asked_told p line col c r); [by apply Hc| |done]. by exists t, root, rel. }
  assert (∀ l, r = Ok l → ∃ raw, ll_locations lib raw = Some l) as Hloc.
  { intros l ->. unfold references in Er. destruct (request _ _ _) as [[raw|] ?]; [|done]. exists raw.
    destruct (ll_locations lib raw); congruence. }
  destruct r as [l|]; intros [= <- <- <-]; (split; [done|]; split; [by rewrite Hone|]); [|done].
  intros _. split; [done|]. split; [done|]. destruct (Hloc l eq_refl) as [raw Hraw]. by exists raw, l.
Qed.

Lemma lsp_hit_shown root loc h : lsp_hit s root loc = Some h → AllowSensitiveFiles s = false → isSensitivePath (hi_Path h) = false.
Proof.
  unfold lsp_hit. cbv zeta. destruct (negb _); [done|]. destruct (hidden s _) eqn:Hh; [done|]. intros [= <-]. by apply hidden_spec.
Qed.

(** The tables that searches of references lead to. *)
Inductive conversations : lspClients → Prop :=
| conversations_start : conversations ∅
| conversations_step env t le enabled root workspace symbol rel clients : conversations clients →
    conversations (findReferences lim env s t clib lib le enabled root workspace symbol rel clients).2.

Lemma findReferences_told env t le enabled root workspace symbol rel clients : map_Forall (λ _, well_told) clients →
  map_Forall (λ _, well_told) (findReferences lim env s t clib lib le enabled root workspace symbol rel clients).2.
Proof.
  intros Hall. unfold findReferences. cbv zeta. destruct (negb _); [done|].
  destruct (if decide (rel ≠ "") then _ else _) as [[hits useLSP] cl] eqn:E.
  assert (map_Forall (λ _, well_told) cl) as Hcl; [|by destruct hits].
  case_decide; [by apply referencesViaLSP_spec in E as [? _]|by injection E as <- <- <-].
Qed.

Lemma conversations_told clients : conversations clients → map_Forall (λ _, well_told) clients.
Proof. induction 1; [apply map_Forall_empty|by apply findReferences_told]. Qed.

Lemma textual_shown env t root symbol hits : findReferencesTextual lim env s t clib root symbol = Ok hits →
  AllowSensitiveFiles s = false → ∀ h, h ∈ hits → isSensitivePath (hi_Path h) = false.
Proof.
  intros (r & l & _ & -> & Hl)%all_references Hallow h Hh%take_sub. apply Hl in Hh as (p & ? & ? & ? & _ & -> & Hpol & _). by apply Hpol.
Qed.

(** Every language server was told of its workspace first and then that it
    may begin, and from then on only asked about files that the policy of
    sensitive files allows, with ids that grow. *)
Theorem servers_told clients key c : conversations clients → clients !! key = Some c → well_told c.
Proof. intros Hall%conversations_told. apply Hall. Qed.

(** The answer of [findReferences] is that of the textual search, or it is
    marked and a server gave it, which the user has enabled; either way it names
    no path that the policy hides. A server that fails in any way never makes
    the call fail: an error is that of the textual search. *)
Theorem references_answered env t le enabled root workspace symbol rel clients : conversations clients →
  let textual := findReferencesTextual lim env s t clib root (TrimSpace symbol) in
  match (findReferences lim env s t clib lib le enabled root workspace symbol rel clients).1 with
  | Ok a =>
      (ra_engine a = "textual" ∧ textual = Ok (ra_references a) ∨
       ra_engine a = "lsp" ∧ enabled = true ∧ rel ≠ "" ∧ ra_references a ≠ [] ∧
         ∃ raw locations, ll_locations lib raw = Some locations ∧ ra_references a = omap (lsp_hit s root) locations) ∧
      (AllowSensitiveFiles s = false → ∀ h, h ∈ ra_references a → isSensitivePath (hi_Path h) = false)
  | Err e => textual = Err e
  end.
Proof.
  intros Hall%conversations_told textual.
  assert (match (match textual with Ok hits => Ok {| ra_engine := "textual"; ra_references := hits |} | Err e => Err e end) with
    | Ok a => ra_engine a = "textual" ∧ textual = Ok (ra_references a) ∧
        (AllowSensitiveFiles s = false → ∀ h, h ∈ ra_references a → isSensitivePath (hi_Path h) = false)
    | Err e => textual = Err e end) as Htext.
  { destruct textual as [hits|e] eqn:E; [|done]. split; [done|]. split; [done|]. cbn. intros Hallow h Hh. by apply (textual_shown _ _ _ _ _ E). }
  unfold findReferences. cbv zeta. fold textual.
  destruct (negb (validIdentifier _ _)) eqn:Hv; [cbn; subst textual; unfold findReferencesTextual; by rewrite Hv|].
  destruct (if decide (rel ≠ "") then _ else _) as [[hits useLSP] cl] eqn:E.
  destruct hits as [|h hits]; cbn [fst]; [destruct textual; [destruct Htext as (? & ? & ?); split; [by left|done]|done]|].
  case_decide as Hrel; [|done]. apply referencesViaLSP_spec in E as (_ & _ & H); [|done].
  destruct H as (Hen & -> & raw & locations & Hraw & Hhits); [done|]. cbn [ra_engine ra_references refEngine]. split.
  - right. split_and!; [done..|]. by exists raw, locations.
  - intros Hallow x Hx. rewrite Hhits in Hx. apply list_elem_of_omap in Hx as (loc & _ & Hx). by apply (lsp_hit_shown _ _ _ Hx).
Qed.
End conversations.

(** ** A workspace with code *)

Definition text_lines (l : list string) : string := Join (String newline "") l.
Definition go_source : string := text_lines [
  "package main"; ""; "type Server struct {"; "  addr byte"; "}"; ""; "func (s *Server) Run() error {"; "  if s.addr == '{' { return nil }";
  "  return s.Run()"; "}"].
Definition go_mod : string := text_lines ["module example.com/app"; "require ("; "  example.com/lib v1.2.3 // indirect"; ")"].
Definition code_tree : tree := <[["ws"; "main.go"] := File go_source 420]> (<[["ws"; "go.mod"] := File go_mod 420]> sample_tree).
Definition server_symbol : Symbol := {|
  sy_Name := "Server"; sy_Kind := "struct"; sy_Path := "main.go"; sy_Line := 3; sy_EndLine := 5; sy_Signature := "type Server struct {";
  sy_Container := ""; sy_Language := "go" |}.
Definition run_symbol : Symbol := {|
  sy_Name := "Run"; sy_Kind := "method"; sy_Path := "main.go"; sy_Line := 7; sy_EndLine := 10;
  sy_Signature := "func (s *Server) Run() error {"; sy_Container := "Server"; sy_Language := "go" |}.

(** An index file as text: the digits of the number that stands for it. *)
#[export] Instance Symbol_eq : EqDecision Symbol.
Proof. solve_decision. Defined.
#[export] Instance Symbol_countable : Countable Symbol.
Proof.
  refine (inj_countable' (λ x, (sy_Name x, sy_Kind x, sy_Path x, sy_Line x, (sy_EndLine x, sy_Signature x, sy_Container x, sy_Language x)))
    (λ '(a, b, c, d, (e, f, g, h)), {| sy_Name := a; sy_Kind := b; sy_Path := c; sy_Line := d; sy_EndLine := e; sy_Signature := f;
      sy_Container := g; sy_Language := h |}) _). by intros [].
Defined.
#[export] Instance symbolFileEntry_eq : EqDecision symbolFileEntry.
Proof. solve_decision. Defined.
#[export] Instance symbolFileEntry_countable : Countable symbolFileEntry.
Proof.
  refine (inj_countable' (λ x, (en_ModTimeNs x, en_Size x, en_Symbols x))
    (λ '(a, b, c), {| en_ModTimeNs := a; en_Size := b; en_Symbols := c |}) _). by intros [].
Defined.
#[export] Instance symbolIndexFile_eq : EqDecision symbolIndexFile.
Proof. solve_decision. Defined.
#[export] Instance symbolIndexFile_countable : Countable symbolIndexFile.
Proof. refine (inj_countable' (λ x, (if_Version x, if_Files x)) (λ '(a, b), {| if_Version := a; if_Files := b |}) _). by intros []. Defined.
Fixpoint bits (p : BinNums.positive) : string :=
  match p with xH => "" | xO p => String Ascii.zero (bits p) | xI p => String Ascii.one (bits p) end.
Fixpoint of_bits (s : string) : BinNums.positive :=
  match s with EmptyString => xH | String c s => if decide (c = Ascii.zero) then xO (of_bits s) else xI (of_bits s) end.
Lemma of_bits_bits p : of_bits (bits p) = p.
Proof. induction p as [p IH|p IH|]; cbn; by rewrite ?IH. Qed.
Definition sample_lib : code_lib := {|
  cl_mtime := λ _, 1; cl_letter := λ _, false; cl_sha := λ _, "0123456789abcdef0123";
  cl_decode := λ b, countable.decode (of_bits b); cl_encode := λ f, Some (bits (countable.encode f)) |}.
Lemma sample_codec f b : cl_encode sample_lib f = Some b → cl_decode sample_lib b = Some f.
Proof. cbn. intros [= <-]. by rewrite of_bits_bits, countable.decode_encode. Qed.

Lemma parseSymbols_spec_witness :
  symbolLanguage "main.go" ≠ "" ∧ parseSymbols "main.go" go_source = [server_symbol; run_symbol] ∧
  StronglySorted (λ a b, sy_Line a < sy_Line b) [server_symbol; run_symbol] ∧ nested server_symbol run_symbol.
Proof.
  assert (symbolLanguage "main.go" ≠ "") as Hl by by vm_compute.
  assert (parseSymbols "main.go" go_source = [server_symbol; run_symbol]) as E by by vm_compute.
  destruct (parseSymbols_spec "main.go" go_source Hl) as (Hs & _ & _ & Hn). rewrite E in Hs, Hn.
  split; [done|]. split; [done|]. split; [done|]. apply Hn; repeat constructor.
Defined.

Lemma containsIdentifier_spec_witness :
  containsIdentifier "  x.Runner(s.Run)" "Run" = true ∧ containsIdentifier "  x.Runner(preRun)" "Run" = false ∧
  ∃ before after, codes "  x.Runner(s.Run)" = before ++ codes "Run" ++ after ∧ ends_word before = false ∧ begins_word after = false.
Proof.
  split; [by vm_compute|]. split; [by vm_compute|]. apply (containsIdentifier_spec "  x.Runner(s.Run)" "Run"); [done|]. by vm_compute.
Defined.

(** Between the calls the file changes, and with it its time. *)
Definition old_source : string := text_lines ["package main"; "func Ran() {"; "}"].
Definition sample_content (rel : string) (mtime size : Z) : string := if decide (mtime = 1) then old_source else go_source.
Definition sample_call (mtime : Z) (t : tree) (pattern : string) : find_call := {|
  fc_env := sample_search; fc_tree := t; fc_mtime := λ _, mtime; fc_pattern := pattern; fc_kind := ""; fc_saved := true |}.
Definition sample_calls : list find_call := [
  sample_call 1 (<[["ws"; "main.go"] := File old_source 420]> code_tree) "r"; sample_call 2 code_tree "r"; sample_call 2 code_tree "RUN"].


Lemma readSymbol_lines_witness :
  readSymbol go_limits sample_search sample_service code_tree ["ws"] "main.go" "Run" 2 =
    Ok {| rs_Symbol := run_symbol; rs_Content := text_lines ["func (s *Server) Run() error {"; "  if s.addr == '{' { return nil }"]; rs_Truncated := true |} ∧
  text_lines ["func (s *Server) Run() error {"; "  if s.addr == '{' { return nil }"] =
    Join (String newline "") (declaration_lines run_symbol 2 (Split newline go_source)).
Proof.
  pose proof (readSymbol_lines go_limits sample_search sample_service code_tree ["ws"] "main.go" "Run" 2 ["ws"; "main.go"] go_source 420
    ltac:(by vm_compute) ltac:(by vm_compute) ltac:(by vm_compute) ltac:(by vm_compute) ltac:(by vm_compute) ltac:(by vm_compute)
    ltac:(by vm_compute) ltac:(by vm_compute) ltac:(by vm_compute)) as H.
  assert (readSymbol go_limits sample_search sample_service code_tree ["ws"] "main.go" "Run" 2 =
    Ok {| rs_Symbol := run_symbol; rs_Content := text_lines ["func (s *Server) Run() error {"; "  if s.addr == '{' { return nil }"]; rs_Truncated := true |})
    as E by by vm_compute.
  split; [done|]. cbv zeta in H. rewrite E in H. exact (proj1 (proj2 (proj2 (proj2 H)))).
Defined.

Lemma references_found_witness :
  findReferencesTextual go_limits sample_search sample_service code_tree sample_lib ["ws"] "Run" =
    Ok [{| hi_Path := "main.go"; hi_Line := 7; hi_Text := "func (s *Server) Run() error {" |};
        {| hi_Path := "main.go"; hi_Line := 9; hi_Text := "return s.Run()" |}] ∧
  ∃ r, EvalSymlinks go_limits code_tree ["ws"] = Ok r ∧
    reference sample_search sample_service code_tree r "Run" {| hi_Path := "main.go"; hi_Line := 9; hi_Text := "return s.Run()" |}.
Proof.
  assert (findReferencesTextual go_limits sample_search sample_service code_tree sample_lib ["ws"] "Run" =
    Ok [{| hi_Path := "main.go"; hi_Line := 7; hi_Text := "func (s *Server) Run() error {" |};
        {| hi_Path := "main.go"; hi_Line := 9; hi_Text := "return s.Run()" |}]) as E by by vm_compute.
  split; [done|]. destruct (references_found go_limits sample_search sample_service code_tree sample_lib ["ws"] "Run" _ E) as (r & Hr & _ & H & _).
  exists r. split; [done|]. apply H. right. left.
Defined.

Definition sample_graph_lib : graph_lib := {|
  gl_pom := λ _, None; gl_package := λ _, None; gl_sort_nodes := λ l, l; gl_sort_edges := λ l, l |}.
Lemma dependencyGraph_spec_witness :
  dependencyGraph go_limits sample_search sample_service code_tree sample_graph_lib ["ws"] = Ok {|
    dg_Type := "go"; dg_Nodes := [{| dn_ID := "example.com/app"; dn_Path := "go.mod"; dn_Type := "module"; dn_Version := "" |}];
    dg_Edges := [{| de_From := "example.com/app"; de_To := "example.com/lib"; de_Scope := "require"; de_Version := "v1.2.3" |}];
    dg_Truncated := false |} ∧
  ∃ r, EvalSymlinks go_limits code_tree ["ws"] = Ok r ∧ is_Some (whole_graph go_limits sample_search sample_service code_tree sample_graph_lib r).
Proof.
  assert (dependencyGraph go_limits sample_search sample_service code_tree sample_graph_lib ["ws"] = Ok {|
    dg_Type := "go"; dg_Nodes := [{| dn_ID := "example.com/app"; dn_Path := "go.mod"; dn_Type := "module"; dn_Version := "" |}];
    dg_Edges := [{| de_From := "example.com/app"; de_To := "example.com/lib"; de_Scope := "require"; de_Version := "v1.2.3" |}];
    dg_Truncated := false |}) as E by by vm_compute.
  split; [done|]. destruct (dependencyGraph_spec go_limits sample_search sample_service code_tree sample_graph_lib (λ l, reflexivity l) (λ l, reflexivity l)
    ["ws"] _ E) as (r & ns & es & Hr & Hw & _). exists r. split; [done|]. rewrite Hw. by eexists.
Defined.

(** An alias of a type is never a symbol: its pattern has no name for the kind. *)
Example alias_unreported : parseSymbols "a.go" (text_lines ["type ID = string"; "type F func(a int) error"]) = [].
Proof. by vm_compute. Qed.

(** An index file of the version without files leaves a nil map: the search that
    has something to store in it panics. *)
Example nil_index_panics :
  (findSymbol go_limits sample_search sample_service code_tree {|
      cl_mtime := λ _, 1; cl_letter := λ _, false; cl_sha := λ _, "0123456789abcdef0123";
      cl_decode := λ _, Some {| if_Version := 1; if_Files := None |}; cl_encode := λ _, None |}
    ["ws"] "cache" "r" "" (Some "{}")).1 = Err CPanic.
Proof. by vm_compute. Qed.

(** A server that answers, with a late line before; one of its locations is in a
    sensitive file. *)
Definition at_line (uri : string) (line : Z) : lspLocation := {|
  lo_URI := uri; lo_Range := {| lr_Start := {| lp_Line := line; lp_Character := 0 |}; lr_End := {| lp_Line := line; lp_Character := 3 |} |} |}.
Definition sample_message (id : Z) (raw : string) : lspMessage := {| lm_ID := Some id; lm_Result := raw; lm_Error := None |}.
Definition sample_lsp : lsp_lib := {|
  ll_message := λ x, if decide (x = "init") then Some (sample_message 1 "{}") else if decide (x = "stale") then Some (sample_message 1 "old")
    else if decide (x = "refs") then Some (sample_message 2 "locations") else None;
  ll_locations := λ raw, if decide (raw = "locations") then Some [at_line "file:///ws/main.go" 8; at_line "file:///ws/.env" 0] else None;
  ll_symbols := λ _, None; ll_flat := λ _, None |}.
Definition sample_server (writes : nat) : lsp_env := {|
  le_LookPath := λ c, bool_decide (c = "gopls");
  le_Start := λ _ _, Some (writes, [("Content-Length: 2", false); ("init", false); ("stale", false); ("noise", false); ("refs", false)]) |}.
Definition ask (writes : nat) (clients : gmap string lspClient) : result code_err references_answer * gmap string lspClient :=
  findReferences go_limits sample_search sample_service code_tree sample_lib sample_lsp (sample_server writes) true ["ws"] "main" "Run" "main.go" clients.

Lemma lsp_answers_matched_witness : ∃ line,
  line ∈ [("init", false); ("stale", false); ("refs", false)] ∧ answers sample_lsp 2 line "locations".
Proof.
  refine (lsp_answers_matched sample_lsp [PInitialize "file:///ws" "ws"; PReferences "file:///ws/main.go" 6 17 true]
    {| lc_nextID := 0; lc_writes := 2; lc_out := [("init", false); ("stale", false); ("refs", false)]; lc_sent := [] |} 1 "locations" _).
  by vm_compute.
Defined.

Lemma servers_told_witness : ∃ c, (ask 9 ∅).2 !! lsp_key "main" "go" = Some c ∧ lc_nextID c = 2 ∧
  lc_sent c = [(Some 1, PInitialize "file:///ws" "ws"); (None, PInitialized); (Some 2, PReferences "file:///ws/main.go" 6 17 true)] ∧
  well_told go_limits sample_service c.
Proof.
  destruct ((ask 9 ∅).2 !! lsp_key "main" "go") as [c|] eqn:E; [|by vm_compute in E]. exists c. split; [done|].
  assert (well_told go_limits sample_service c) as Hc.
  { refine (servers_told go_limits sample_service sample_lib sample_lsp _ _ _ _ E). unfold ask. constructor. constructor. }
  vm_compute in E. injection E as <-. done.
Defined.

Lemma references_answered_witness :
  (ask 9 ∅).1 = Ok {| ra_engine := "lsp"; ra_references := [{| hi_Path := "main.go"; hi_Line := 9; hi_Text := "" |}] |} ∧
  ∀ h, h ∈ [{| hi_Path := "main.go"; hi_Line := 9; hi_Text := "" |}] → isSensitivePath (hi_Path h) = false.
Proof.
  pose proof (references_answered go_limits sample_service sample_lib sample_lsp sample_search code_tree (sample_server 9) true ["ws"] "main" "Run" "main.go" ∅
    (conversations_start go_limits sample_service sample_lib sample_lsp)) as H. cbv zeta in H.
  assert ((ask 9 ∅).1 = Ok {| ra_engine := "lsp"; ra_references := [{| hi_Path := "main.go"; hi_Line := 9; hi_Text := "" |}] |}) as E by by vm_compute.
  split; [done|]. unfold ask in E. rewrite E in H. exact (proj2 H eq_refl).
Defined.

(** The process of a server is bound to a context that ends when it has been
    initialised, so nothing after that reaches it: the search is textual, also
    every later one, since the dead client stays in the table. *)
Example killed_server_stays :
  option_map lc_writes ((ask 2 ∅).2 !! lsp_key "main" "go") = Some 0%nat ∧ (ask 9 (ask 2 ∅).2).1 = (ask 2 ∅).1 ∧
  (ask 2 ∅).1 = Ok {| ra_engine := "textual"; ra_references :=
    [{| hi_Path := "main.go"; hi_Line := 7; hi_Text := "func (s *Server) Run() error {" |};
     {| hi_Path := "main.go"; hi_Line := 9; hi_Text := "return s.Run()" |}] |}.
Proof. by vm_compute. Qed.
